(* ===== verification/_CoqProject ===== *)
-Q . S2P
Prelude.v
Bytes.v
Codec.v
Utf8.v
Params.v
StorageEconomy.v
Crypto.v
Identity.v
IdentityCodec.v
Names.v
Payloads.v
Merkle.v
Assignment.v
StorageAudit.v
SettlementData.v
Operation.v
SettlementCodec.v
OperationCodec.v
State.v
Ledger.v
Supply.v
LedgerProofs.v
Settlement.v
SettlementProofs.v
StateCodec.v
StateCodecProofs.v
Executor.v
ExecutorProofs.v
Transfers.v
Block.v
WireTypes.v
KVStore.v
Journal.v
Detector.v
NetworkGenesis.v
StateStore.v
StateStoreProofs.v
StateCommit.v
StateChain.v
KVIteration.v
DbWrites.v
EventIndex.v
ChunkRetention.v
ChunkBlobs.v
FinalizedChunks.v
FinalizedChunksProofs.v
ChunkPurges.v
ChunkService.v
Pool.v
Relay.v
NodeRuntime.v
NodeProduction.v
NodeActions.v
NodeChain.v
NodeFinality.v
Wire.v
Ingress.v
PeerAdmission.v
Network.v
Transport.v
Session.v
Serving.v
PeerManager.v
MeshProofs.v
SyncProofs.v
Scenario.v
NodeScenario.v
Examples.v
NodeExamples.v
IndexExamples.v
ChunkExamples.v
RuntimeExamples.v
NetworkExamples.v
