(* ===== verification/Prelude.v ===== *)
(** * CYBOU core: a verification development

    CYBOU is a proof-of-authority ledger node in C++: accounts with hybrid
    identities and names, payments, published chunks and the storage leases
    that pay providers to keep them. This library models the core under
    [src/src/cybou/] and proves what makes it correct. Files are named below;
    definitions keep the names of the source.

    ** The parts of the program and how they are modelled

    Bytes and arithmetic. [Prelude] (integers at their width, the control
    operators, shared tactics), [Bytes] ([std::array], the order of
    [Hash256], the iteration order of [std::map]), [Codec] and [Utf8]
    ([binary_codec.h], [hash256.cpp]), [Params] ([protocol_params.h]),
    [StorageEconomy] ([storage_economy.cpp]). An unsigned integer is a [Z] in
    range; [⊕ ⊖ ⊗] wrap at 64 bits where the C++ does.

    Primitives. OpenSSL and BLAKE3 are the class [CryptoOps] of [Crypto],
    LevelDB the class [LevelDB] of [KVStore] with its documented laws
    [LevelDBLaws]; both are parameters of every definition that uses them.
    [NodeScenario] has an instance of the second with the laws proved.

    Identities, names, payloads. [Identity], [IdentityCodec]
    ([identity_*.cpp], [account_creation.cpp]); [Names]
    ([name_registry.h]); [Payloads]
    ([payment.cpp], [root_publication.cpp], [storage_lease.cpp]); [Merkle]
    ([chunk_authorization.cpp]); [Assignment]
    ([storage_assignment_algorithm.cpp]); [StorageAudit]
    ([storage_audit.cpp], [storage_key_proof.cpp]).

    Operations. [SettlementData], [Operation], [SettlementCodec],
    [OperationCodec] ([protocol_operation.cpp], [storage_lease.cpp]): the ten
    kinds of operation with their one binary form each.

    The ledger. [State] is the record of [state.h] with
    [ValidateCybouState]; [Ledger] and [Settlement] hold one definition for
    each [Apply] function of [state.cpp], [payment.cpp] and
    [storage_lease.cpp], which takes the state and returns the error and the
    state it leaves; [StateCodec] is the canonical encoding; [Executor] is the
    object of [block_executor.cpp], whose fields change from call to call.

    Blocks and finality. [Block] ([block.cpp], [poa_finality.cpp]);
    [Journal] ([poa_signing_journal.cpp], [poa_finalizer.cpp]): the durable
    record of what the finalizer signs; [Detector]
    ([poa_conflict_detector.cpp]): evidence of equivocation and the choice of
    the smaller block; [NetworkGenesis] ([network_genesis.cpp]).

    The node. [KVStore] ([kv_store.cpp]) and [StateStore]
    ([state_store.cpp], [finalized_event_index.cpp]): the owner of the state and
    of the finalized blocks, over a database shared by reference; an
    operation takes the database and returns it, and one that throws returns
    what it had already written. [EventIndex]: the index over the finalized
    operations that can be rebuilt. [Pool] ([operation_pool.cpp],
    [operation_work.cpp]): the candidate operations, executed as they arrive.

    Chunks. [ChunkRetention] ([chunk_retention.cpp]): who pins a local chunk
    and when a cached one was used; [ChunkBlobs] ([chunk_blob_store.cpp]): the
    encrypted bytes, behind the interface [BlobStore] with the laws the
    others rely on, which the store in memory is proved to have;
    [FinalizedChunks] ([finalized_chunk_store.cpp]): what a provider has
    admitted for finalized publications and what waits to be purged;
    [ChunkService] ([node_runtime_provider.cpp]): the pass that collects
    garbage over all three.

    The runtime. [Relay] ([operation_relay.cpp]): what a node passes on;
    [NodeRuntime] and [NodeProduction] ([node_runtime.cpp],
    [node_runtime_chain.cpp], [node_runtime_provider.cpp]): the facade that
    joins store, pool, relay, finalizer and chunks; a function is an action
    on the node, one critical section under the chain mutex being one action.

    The network. [Wire] (the messages), [Transport] (frames over a connection
    that delivers any pieces), [Session] (the requests) and [Serving]
    ([ServeNext], the inbound connection) model [p2p/session.cpp] and
    [inbound_server.cpp]; [Ingress] ([ingress_budget.h]) and [PeerAdmission]
    ([peer_admission.cpp]) what an address may do; [Network]
    ([node_runtime_network.cpp]) the addresses a node knows; [PeerManager]
    ([peer_manager.cpp]) the sessions it has opened; and what
    it does with them in a pass of [SyncFromConfiguredPeer].

    The flow through the parts: an operation arrives over a session
    ([Serving]) or locally ([NodeRuntime]), is decoded ([Operation]),
    admitted ([Pool], on an [Executor] over the state of [StateStore]), passed
    on ([Relay], [PeerManager]), put into a block, signed ([Journal]),
    committed ([StateStore], which asks [Detector]) and offered to other
    nodes ([PeerManager]); its effect is a sequence of steps of [Ledger].

    ** Conventions

    [outcome] is a call that can throw; [option] and error types are the
    source's own results. [return_if c with e ;; k] is an early return,
    [let? x := o else e ;; k] the test of an optional, [try! x := m ;; k] a
    call that can throw. The loop over a [std::map] goes over [entries], in
    key order; a loop of the source is a [Fixpoint] on its list or counter.

    Fuel. Three loops are bounded by an argument: [solve_loop] of [Pool]
    (the search for relay work has no bound in the source; enough fuel finds
    a nonce, [SolveOperationWork_correct]); the rejection sampling of
    [Assignment], whose draws are bounded by its argument in the same way;
    and [sync_loop] of [PeerManager], for which the number of blocks the
    caller allows is proved to be enough
    ([SyncFromConfiguredPeer_returns]). [RequestBlocks] and the
    loops of [Transport] take their bound from the data and never reach it.

    Scripts. What a connection delivers and accepts, what a dial meets and
    the random numbers are arguments of the definitions, and the theorems
    hold for all of them.

    Locks. Every public operation of the store, the journal and the detector
    holds one mutex from start to end, so an operation is one step; the
    interleavings of a run are the sequences of the transition systems below.
    So it is with the calls of the runtime. A handler of a session runs to its
    end before the next step of [open_step]; each of its calls of the
    runtime is atomic in the source as well, and [moves] of [MeshProofs]
    decomposes every handler into these calls.

    ** What the theorems show

    Money, identity and names ([ExecutorProofs], [LedgerProofs],
    [SettlementProofs], [Supply], [Transfers]): [ledger_step] is
    any accepted operation of any kind; along every sequence of steps the
    money total is constant, no authorization is accepted twice, names and
    accounts stay a bijection and every account stays reachable by its
    recovery key; payments and payouts have exactly their stated effect; a
    settlement period is paid once.

    Encodings ([OperationCodec], [SettlementCodec], [StateCodecProofs],
    [IdentityCodec], [Block], [NetworkGenesis]): round trips, and
    for operations, blocks and the genesis that accepted bytes are the only
    encoding of what they decode to.

    Finality ([Block], [Journal], [Detector]): a
    certificate is accepted exactly when it should be and certifies one
    block, unless SHA-256 collides; over every run of a finalizer through
    failed writes, crashes and restarts at most one block is certified at a
    height, and it does sign when it can; detectors that saw the same
    blocks agree; evidence is real and is never lost.

    The store ([StateStoreProofs], [StateCommit], [StateChain],
    [EventIndex]): a refinement of an abstract chain that
    grows at its end or has its last block replaced by a smaller one; commits
    read back; refused commits change nothing; the state in memory is the
    state on disk through crashes and restarts, up to the 32 MiB the local
    codec reads back; an answer of the event index
    is a finalized operation.

    The pool ([Pool]): exact accounting within the limits, and what is
    held always executes, in order, as the next block: the root computed for
    that block is the hash of the valid state it leads to.

    Protocol parameters ([NetworkGenesis]): exactly which ones validation
    accepts, and that it divides by zero where the largest lease is a
    multiple of 2^64.

    Storage services ([StorageEconomy], [Merkle], [Assignment]): exact rent, budget and payout arithmetic with
    overflow refused; Merkle proofs verify and are sound; the draw of
    providers depends on their set only and takes distinct, eligible ones.

    Chunks. [KVIteration] describes a database as the rows of a function;
    [ChunkRetention] refines the registry to a set of pins and a cache,
    [FinalizedChunksProofs], [ChunkPurges] and [ChunkService] the provider's
    database to its books, whose count is exact on every run with failures:
    an admitted chunk is served until its publication is purged, and a purge
    that nothing stops is complete; collecting takes nothing
    that is tied or pinned.

    What arrives ([WireTypes]): decoded operations and blocks have all fields
    in their types, as the theorems on the ledger assume.

    The runtime. [Relay]: the relay implements a first-in first-out
    queue. [DbWrites]: the components that share the database leave each
    other's records alone. [NodeActions] is the interface through which an
    invariant is carried over every function of the runtime; with it
    [NodeChain] proves that the node implements the abstract chain, whatever
    fails, and [NodeFinality] that it never certifies two blocks at one
    height, through retries, signer changes, crashes and restarts.

    The network. [Ingress]: the limits hold over every minute, not only
    the windows of the code. [Transport]: frames cross any connection
    that works. [Session]: what a request brings from a peer that
    answers anything at all, and that a success is, byte for byte, what the
    peer told and counted. [Serving] and [MeshProofs]: whatever peers
    send, a node only goes through calls of the runtime, so an open node
    implements the chain; its mesh stays bounded and its operator's peers
    keep their sessions. [SyncProofs]: blocks reach another node as they
    are, and catching up ends.

    [Scenario], [NodeScenario], [Examples], [NodeExamples], [IndexExamples],
    [ChunkExamples], [RuntimeExamples] and [NetworkExamples] apply the
    theorems to a concrete network and node.

    ** What the modelling showed

    Theorems that state a defect: [failed_executor_reports_none],
    [DecodeBytes_Encode_large], [interrupted_reorg_never_completes],
    [rent_check_wraps], [purge_ignores_pins].

    ** Not modelled

    Key generation, signing and KEM encryption (randomness and private keys
    in OpenSSL), the encryption of chunks, the vault, keystore and recovery
    phrase. Of the runtime: diagnostics and the finalization meter, event log
    lines, the identity coordinators, the file with the storage key, and the
    constructor that derives a finalizer from a recovery phrase. Of the
    network: the socket and TLS objects behind a connection, the acceptor
    loop and the threads, the updater of the country file, the pool of
    storage sessions and its probes, traffic counters. The files of the blob
    store, the storage services, the command line and the Qt interface:
    they move bytes that are encoded, checked and executed by the parts
    above. The compiled constants of the development network are data. *)

From Stdlib Require Export ZArith Lia ZifyBool.
From stdpp Require Export base tactics numbers sorting gmap list.

#[global] Open Scope Z_scope.
#[global] Set Default Proof Using "Type".

(** ** Unsigned machine integers

    A [uint8_t] ... [uint64_t] value is a [Z]; every operation that can leave
    the range wraps, exactly as the unsigned arithmetic of C++ does. *)

Definition MAX8 : Z := 255.
Definition MAX16 : Z := 65535.
Definition MAX32 : Z := 4294967295.
Definition MAX64 : Z := 18446744073709551615.

Definition wrap8 (z : Z) : Z := z mod 256.
Definition wrap16 (z : Z) : Z := z mod 65536.
Definition wrap32 (z : Z) : Z := z mod 4294967296.
Definition wrap64 (z : Z) : Z := z mod 18446744073709551616.
Definition wrap128 (z : Z) : Z := z mod 340282366920938463463374607431768211456.

Definition is_u8 (z : Z) : Prop := 0 <= z <= MAX8.
Definition is_u16 (z : Z) : Prop := 0 <= z <= MAX16.
Definition is_u32 (z : Z) : Prop := 0 <= z <= MAX32.
Definition is_u64 (z : Z) : Prop := 0 <= z <= MAX64.

Declare Scope cybou_scope.
Delimit Scope cybou_scope with cybou.
Notation "a ⊕ b" := (wrap64 (a + b)) (at level 50, left associativity) : cybou_scope.
Notation "a ⊖ b" := (wrap64 (a - b)) (at level 50, left associativity) : cybou_scope.
Notation "a ⊗ b" := (wrap64 (a * b)) (at level 40, left associativity) : cybou_scope.
#[global] Open Scope cybou_scope.

(** [uint_unfold] exposes the ranges to [lia]; [ulia] is [lia] after it. *)
Ltac uint_unfold :=
  unfold is_u8, is_u16, is_u32, is_u64, wrap8, wrap16, wrap32, wrap64, wrap128,
    MAX8, MAX16, MAX32, MAX64 in *.
Ltac ulia := uint_unfold; lia.
(** [dlia] also understands division and remainder by constants. *)
Ltac dlia := uint_unfold; Z.to_euclidean_division_equations; lia.

Lemma wrap64_small z : is_u64 z -> wrap64 z = z.
Proof. intros. apply Z.mod_small. ulia. Qed.
Lemma wrap32_small z : is_u32 z -> wrap32 z = z.
Proof. intros. apply Z.mod_small. ulia. Qed.
Lemma wrap128_small z :
  0 <= z < 340282366920938463463374607431768211456 -> wrap128 z = z.
Proof. intros. by apply Z.mod_small. Qed.
Lemma wrap64_range z : is_u64 (wrap64 z).
Proof. pose proof (Z.mod_pos_bound z 18446744073709551616 eq_refl). ulia. Qed.
Lemma wrap32_range z : is_u32 (wrap32 z).
Proof. pose proof (Z.mod_pos_bound z 4294967296 eq_refl). ulia. Qed.
Lemma add64_small a b : 0 <= a + b <= MAX64 -> a ⊕ b = a + b.
Proof. apply wrap64_small. Qed.
Lemma sub64_small a b : 0 <= a - b <= MAX64 -> a ⊖ b = a - b.
Proof. apply wrap64_small. Qed.
Lemma mul64_small a b : 0 <= a * b <= MAX64 -> a ⊗ b = a * b.
Proof. apply wrap64_small. Qed.

Create HintDb cybou discriminated.
#[export] Hint Resolve wrap64_range wrap32_range : cybou.

(** ** Exceptions

    A C++ call either returns or throws; which exception is thrown matters to
    no caller of the modelled code, so one constructor stands for all. *)

Inductive outcome (A : Type) : Type :=
| Ret (a : A)
| Throw.
Arguments Ret {A} _.
Arguments Throw {A}.
#[export] Instance Ret_inj {A} : Inj (=) (=) (@Ret A).
Proof. by intros x y [= ->]. Qed.

Definition outcome_bind {A B} (m : outcome A) (k : A -> outcome B) : outcome B :=
  match m with Ret a => k a | Throw => Throw end.

(** An [option] whose [None] is an escaped exception. *)
Definition or_throw {A} (o : option A) : outcome A :=
  match o with Some a => Ret a | None => Throw end.

(** ** Early returns

    [return_if c with e ;; k] is [if (c) return e; k]; [let? x := o else e ;; k]
    is [if (!o) return e; const auto x = *o; k]. *)

Notation "'return_if' c 'with' e ;; k" := (if c then e else k)
  (at level 10, c at level 99, e at level 99, k at level 200, only parsing) : cybou_scope.
Notation "'let?' x := o 'else' e ;; k" := (match o with Some x => k | None => e end)
  (at level 10, x pattern, o at level 99, e at level 99, k at level 200, only parsing) : cybou_scope.
Notation "'try!' x := m ;; k" := (outcome_bind m (fun x => k))
  (at level 10, x pattern, m at level 99, k at level 200, only parsing) : cybou_scope.

(** [run] case-splits the control flow of a definition that has been unfolded
    in a hypothesis and discards the branches that contradict it. *)
Ltac run_step H :=
  match type of H with
  | context [if ?b then _ else _] => destruct b eqn:?; simplify_eq/=
  | context [match ?o with Some _ => _ | None => _ end] => destruct o eqn:?; simplify_eq/=
  | context [outcome_bind ?m _] => destruct m eqn:?; simplify_eq/=
  end.
Ltac run H := repeat (run_step H; try done).

(** [walk H] does the same for [H : body = result] from the outside in, one
    statement of the source at a time, without simplifying anything else. *)
Ltac walk_step H :=
  cbv beta iota zeta in H;
  lazymatch type of H with
  | (if ?b then _ else _) = _ => let E := fresh "Hif" in destruct b eqn:E
  | (match ?o with Some _ => _ | None => _ end) = _ => let E := fresh "Hopt" in destruct o eqn:E
  | outcome_bind ?m _ = _ =>
      let E := fresh "Hret" in destruct m eqn:E; cbn [outcome_bind] in H
  | (match ?p with (_, _) => _ end) = _ => let E := fresh "Hpair" in destruct p eqn:E
  end;
  try discriminate H.
Ltac walk H := repeat walk_step H.

(** [Some x = Some y] without the reductions of [injection]. *)
Ltac some_inj H := apply (inj Some) in H; subst.

(** Turns the guards collected by [walk] into propositions. *)
Ltac guards :=
  repeat match goal with
  | H : negb _ = false |- _ => apply negb_false_iff in H
  | H : negb _ = true |- _ => apply negb_true_iff in H
  | H : (_ || _) = false |- _ => apply orb_false_iff in H as [? ?]
  | H : (_ && _) = true |- _ => apply andb_true_iff in H as [? ?]
  | H : bool_decide (is_Some _) = false |- _ => apply bool_decide_eq_false, eq_None_not_Some in H
  | H : bool_decide _ = true |- _ => apply bool_decide_eq_true in H
  | H : bool_decide _ = false |- _ => apply bool_decide_eq_false in H
  | H : (_ =? _) = true |- _ => apply Z.eqb_eq in H
  | H : (_ =? _) = false |- _ => apply Z.eqb_neq in H
  | H : (_ <? _) = true |- _ => apply Z.ltb_lt in H
  | H : (_ <? _) = false |- _ => apply Z.ltb_ge in H
  | H : (_ <=? _) = true |- _ => apply Z.leb_le in H
  | H : (_ <=? _) = false |- _ => apply Z.leb_gt in H
  end.

(** Results that are tuples. *)
Lemma triple_eq {A B C} (x : A * B * C) a : x.1.1 = a -> x = (a, x.1.2, x.2).
Proof. intros <-. by destruct x as [[]]. Qed.
Lemma triple_eta {A B C} (x : A * B * C) : x = (x.1.1, x.1.2, x.2).
Proof. by destruct x as [[]]. Qed.

(** ** Sums over finite maps *)

Section map_sum.
Context {K V : Type} `{Countable K}.
Implicit Types (m : gmap K V) (f : V -> Z).

Definition map_sum (f : V -> Z) (m : gmap K V) : Z :=
  map_fold (fun _ v acc => f v + acc) 0 m.

Lemma map_sum_empty f : map_sum f ∅ = 0.
Proof. apply map_fold_empty. Qed.

Lemma map_sum_insert_new f m k v :
  m !! k = None -> map_sum f (<[k := v]> m) = f v + map_sum f m.
Proof.
  intros Hk. unfold map_sum.
  rewrite (map_fold_insert_L (fun _ v acc => f v + acc)); [done| |done].
  intros. lia.
Qed.

Lemma map_sum_delete f m k v :
  m !! k = Some v -> map_sum f m = f v + map_sum f (delete k m).
Proof.
  intros Hk. rewrite <- (insert_delete_id m k v Hk) at 1.
  by rewrite map_sum_insert_new by apply lookup_delete_eq.
Qed.

Lemma map_sum_insert f m k v w :
  m !! k = Some v -> map_sum f (<[k := w]> m) = map_sum f m - f v + f w.
Proof.
  intros Hk. rewrite (map_sum_delete f m k v Hk), <- insert_delete_eq.
  rewrite map_sum_insert_new by apply lookup_delete_eq. lia.
Qed.

Lemma map_sum_nonneg f m : (forall k v, m !! k = Some v -> 0 <= f v) -> 0 <= map_sum f m.
Proof.
  induction m as [|k v m Hk IH] using map_ind; intros Hf.
  - by rewrite map_sum_empty.
  - rewrite map_sum_insert_new by done.
    assert (0 <= f v) by (apply (Hf k); apply lookup_insert_eq).
    assert (0 <= map_sum f m); [|lia].
    apply IH. intros j w Hj. apply (Hf j). rewrite lookup_insert_ne by congruence. done.
Qed.

Lemma map_sum_lookup_le f m k v :
  (forall k v, m !! k = Some v -> 0 <= f v) -> m !! k = Some v -> f v <= map_sum f m.
Proof.
  intros Hf Hk. rewrite (map_sum_delete f m k v Hk).
  assert (0 <= map_sum f (delete k m)); [|lia].
  apply map_sum_nonneg. intros j w [_ Hj]%lookup_delete_Some. eauto.
Qed.
End map_sum.

Lemma alter_insert_id {K V} `{Countable K} (f : V -> V) (k : K) (m : gmap K V) v :
  m !! k = Some v -> alter f k m = <[k := f v]> m.
Proof.
  intros Hk. apply map_eq. intros j. destruct (decide (k = j)) as [->|Hne].
  - by rewrite lookup_alter_eq, lookup_insert_eq, Hk.
  - by rewrite lookup_alter_ne, lookup_insert_ne.
Qed.
Lemma alter_none {K V} `{Countable K} (f : V -> V) (k : K) (m : gmap K V) : m !! k = None -> alter f k m = m.
Proof.
  intros Hk. apply map_eq. intros j. destruct (decide (k = j)) as [->|Hne].
  - by rewrite lookup_alter_eq, Hk.
  - by rewrite lookup_alter_ne.
Qed.
