(* ===== verification/Bytes.v ===== *)
(** * Bytes, fixed arrays and ordered maps

    The byte level every other component stands on: bytes as integers,
    [std::array] of a fixed size, the lexicographic order of [Hash256]
    ([src/src/cybou/hash256.h]) and the iteration order of [std::map]. *)

From Stdlib Require Export Strings.Byte.
From Stdlib Require Import StrictProp.
From Stdlib Require Strings.String Sorted.
From S2P Require Import Prelude.
Export String.StringSyntax.

Abbreviation StronglySorted := Sorted.StronglySorted.

(** ** Bytes as integers *)

Abbreviation bytes := (list byte).

Definition zb (b : byte) : Z := Z.of_N (Byte.to_N b).
Definition bz (z : Z) : byte :=
  match Byte.of_N (Z.to_N (wrap8 z)) with Some b => b | None => x00 end.

#[export] Instance byte_eq_dec : EqDecision byte.
Proof.
  intros x y. destruct (Byte.eqb x y) eqn:E.
  - left. by apply Byte.byte_dec_bl.
  - right. intros ->. by rewrite (Byte.byte_dec_lb eq_refl) in E.
Defined.
#[export] Instance byte_countable : Countable byte :=
  inj_countable Byte.to_N Byte.of_N Byte.of_to_N.

Lemma zb_range b : 0 <= zb b <= 255.
Proof. unfold zb. pose proof (Byte.to_N_bounded b). lia. Qed.
Lemma zb_inj a b : zb a = zb b -> a = b.
Proof.
  unfold zb. intros H%N2Z.inj.
  pose proof (Byte.of_to_N a) as Ha. pose proof (Byte.of_to_N b) as Hb. congruence.
Qed.
Lemma zb_bz z : zb (bz z) = wrap8 z.
Proof.
  unfold bz, zb, wrap8. pose proof (Z.mod_pos_bound z 256 eq_refl).
  destruct (Byte.of_N _) as [b|] eqn:E.
  - apply Byte.to_of_N in E. rewrite E. lia.
  - apply Byte.of_N_None_iff in E. lia.
Qed.
Lemma bz_zb b : bz (zb b) = b.
Proof. apply zb_inj. rewrite zb_bz. pose proof (zb_range b). apply Z.mod_small. lia. Qed.

Definition zlen {A} (l : list A) : Z := Z.of_nat (length l).
Arguments zlen : simpl never.

Lemma zlen_app {A} (l k : list A) : zlen (l ++ k) = zlen l + zlen k.
Proof. unfold zlen. rewrite length_app. lia. Qed.
Lemma zlen_cons {A} (x : A) l : zlen (x :: l) = 1 + zlen l.
Proof. unfold zlen. simpl. lia. Qed.
Lemma zlen_nil {A} : zlen (@nil A) = 0.
Proof. done. Qed.
Lemma zlen_nonneg {A} (l : list A) : 0 <= zlen l.
Proof. unfold zlen. lia. Qed.
Lemma mjoin_cons {A} (l : list A) ls : mjoin (l :: ls) = l ++ mjoin ls.
Proof. done. Qed.
Lemma zlen_0 {A} (l : list A) : zlen l = 0 -> l = [].
Proof. destruct l; [done|]. rewrite zlen_cons. pose proof (zlen_nonneg l). lia. Qed.

Definition all_zero (l : bytes) : bool := forallb (fun b => zb b =? 0) l.
Definition has_nonzero (l : bytes) : bool := existsb (fun b => negb (zb b =? 0)) l.

Lemma has_nonzero_all_zero l : has_nonzero l = negb (all_zero l).
Proof. induction l as [|b l IH]; [done|]. simpl. rewrite IH. by destruct (zb b =? 0). Qed.

(** A string literal of the source as its bytes. *)
Definition str (s : String.string) : bytes := String.list_byte_of_string s.
Arguments str s%_string_scope.

(** [bytes.subspan(off, n)] for [off + n <= size]. *)
Definition subspan (l : bytes) (off n : Z) : bytes := take (Z.to_nat n) (drop (Z.to_nat off) l).
Arguments subspan : simpl never.

Lemma zlen_subspan l off n : 0 <= off -> 0 <= n -> off + n <= zlen l -> zlen (subspan l off n) = n.
Proof. unfold subspan, zlen. rewrite length_take, length_drop. lia. Qed.
Lemma subspan_skip x y off n : zlen x <= off -> subspan (x ++ y) off n = subspan y (off - zlen x) n.
Proof.
  intros H. unfold subspan. rewrite drop_app_ge by (unfold zlen in H; lia). do 2 f_equal.
  unfold zlen. lia.
Qed.
Lemma subspan_here x y n : zlen x = n -> subspan (x ++ y) 0 n = x.
Proof. intros <-. unfold subspan, zlen. by rewrite Nat2Z.id, drop_0, take_app_length. Qed.
Lemma subspan_all x n : zlen x = n -> subspan x 0 n = x.
Proof. intros <-. unfold subspan, zlen. by rewrite Nat2Z.id, drop_0, firstn_all. Qed.
Lemma subspan_join l off a b : 0 <= off -> 0 <= a -> 0 <= b ->
  subspan l off (a + b) = subspan l off a ++ subspan l (off + a) b.
Proof.
  intros. unfold subspan. rewrite !Z2Nat.inj_add by done.
  by rewrite <- drop_drop, take_take_drop.
Qed.

Lemma subspan_at x y off n : off = 0 -> zlen x = n -> subspan (x ++ y) off n = x.
Proof. intros ->. apply subspan_here. Qed.
Lemma subspan_whole x off n : off = 0 -> zlen x = n -> subspan x off n = x.
Proof. intros ->. apply subspan_all. Qed.
Lemma subspan_glue l off a off' b : off' = off + a -> 0 <= off -> 0 <= a -> 0 <= b ->
  subspan l off a ++ subspan l off' b = subspan l off (a + b).
Proof. intros ->. intros. by rewrite subspan_join. Qed.
Lemma subspan_glue_app l off a off' b y : off' = off + a -> 0 <= off -> 0 <= a -> 0 <= b ->
  subspan l off a ++ subspan l off' b ++ y = subspan l off (a + b) ++ y.
Proof. intros. by rewrite app_assoc, (subspan_glue l off a off'). Qed.

(** ** Fixed-size arrays

    [arr n] is [std::array<unsigned char, n>]: the length is part of the type
    and, being a strict proposition, never matters to equality. *)

Definition holds (b : bool) : SProp := if b then sUnit else sEmpty.
Definition holds_of (b : bool) : b = true -> holds b :=
  match b with true => fun _ => stt | false => fun e => match Bool.diff_false_true e with end end.
Lemma holds_true b : holds b -> b = true.
Proof. destruct b; [done | intros []]. Qed.

Record arr (n : N) : Type := Arr {
  arr_val : bytes;
  arr_ok : holds (zlen arr_val =? Z.of_N n);
}.
Arguments arr n%_N.
Arguments Arr {n} _ _.
Arguments arr_val {n} _.
Arguments arr_ok {n} _.

Lemma arr_eq {n} (a b : arr n) : arr_val a = arr_val b -> a = b.
Proof. destruct a, b. simpl. by intros ->. Qed.
Lemma zlen_arr {n} (a : arr n) : zlen (arr_val a) = Z.of_N n.
Proof. apply Z.eqb_eq, holds_true, arr_ok. Qed.

#[export] Instance arr_eq_dec n : EqDecision (arr n).
Proof.
  intros a b. destruct (decide (arr_val a = arr_val b)) as [E|E].
  - left. by apply arr_eq.
  - right. by intros ->.
Defined.

Lemma resize_ok n (l : bytes) : (zlen (resize (N.to_nat n) x00 l) =? Z.of_N n) = true.
Proof. apply Z.eqb_eq. unfold zlen. rewrite length_resize. lia. Qed.

(** A zero-initialised array after [std::copy] of [l] to its front. *)
Definition arr_of (n : N) (l : bytes) : arr n :=
  Arr (resize (N.to_nat n) x00 l) (holds_of _ (resize_ok n l)).
Arguments arr_of n%_N l : simpl never.

Lemma arr_of_val n l : zlen l = Z.of_N n -> arr_val (arr_of n l) = l.
Proof. intros H. apply resize_all_alt. unfold zlen in H. lia. Qed.
Lemma arr_of_arr {n} (a : arr n) : arr_of n (arr_val a) = a.
Proof. apply arr_eq. by rewrite arr_of_val by apply zlen_arr. Qed.
Lemma arr_of_eq {n} l (a : arr n) : l = arr_val a -> arr_of n l = a.
Proof. intros ->. apply arr_of_arr. Qed.
#[export] Instance arr_countable n : Countable (arr n) :=
  inj_countable' arr_val (arr_of n) arr_of_arr.
#[export] Instance arr_inhabited n : Inhabited (arr n) := populate (arr_of n []).

Abbreviation Hash256 := (arr 32%N).
Definition IsNull {n} (h : arr n) : bool := all_zero (arr_val h).
Definition ZERO {n} : arr n := arr_of n [].

Lemma IsNull_ZERO n : IsNull (@ZERO n) = true.
Proof.
  unfold IsNull, ZERO, all_zero. apply forallb_forall. intros b Hb%list_elem_of_In.
  unfold arr_of in Hb. simpl in Hb. rewrite resize_nil in Hb. by apply elem_of_replicate in Hb as [-> _].
Qed.

(** ** Lexicographic order

    [operator<] of [std::array], [Hash256], [AccountId] and [std::string]. *)

Fixpoint blt (a b : bytes) : bool :=
  match a, b with
  | [], [] => false
  | [], _ :: _ => true
  | _ :: _, [] => false
  | x :: a', y :: b' =>
      if zb x <? zb y then true else if zb y <? zb x then false else blt a' b'
  end.
Definition alt {n} (a b : arr n) : bool := blt (arr_val a) (arr_val b).

Lemma blt_irrefl a : blt a a = false.
Proof. induction a as [|x a IH]; simpl; [done|]. by rewrite Z.ltb_irrefl. Qed.
Lemma blt_trans a b c : blt a b = true -> blt b c = true -> blt a c = true.
Proof.
  revert b c. induction a as [|x a IH]; intros [|y b] [|z c]; simpl; try done.
  repeat case_match; try lia; try done. eauto.
Qed.
Lemma blt_total a b : a <> b -> blt a b = false -> blt b a = true.
Proof.
  revert b. induction a as [|x a IH]; intros [|y b]; simpl; try done.
  intros Hne. repeat case_match; try lia; try done.
  intros Hab. apply IH; [|done]. intros ->. apply Hne. f_equal. apply zb_inj. lia.
Qed.
Lemma blt_asym a b : blt a b = true -> blt b a = false.
Proof.
  intros Hab. destruct (blt b a) eqn:Hba; [|done].
  by rewrite <- (blt_irrefl a), (blt_trans a b a).
Qed.

(** ** [std::map] iteration order

    A [std::map] is a [gmap]; a loop over it visits [entries]: the pairs in
    increasing key order. *)

Class KeyBytes (K : Type) : Type := {
  key_bytes : K -> bytes;
  key_bytes_inj : forall a b, key_bytes a = key_bytes b -> a = b;
}.
#[export] Instance arr_key n : KeyBytes (arr n) := {| key_bytes := arr_val; key_bytes_inj := arr_eq |}.
#[export] Instance bytes_key : KeyBytes bytes := {| key_bytes := fun x => x; key_bytes_inj := fun _ _ e => e |}.

Section entries.
Context {K V : Type} `{Countable K} `{!KeyBytes K}.
Implicit Types (m : gmap K V) (l : list (K * V)).

Definition klt (a b : K) : bool := blt (key_bytes a) (key_bytes b).
Definition entry_le (x y : K * V) : Prop := klt y.1 x.1 = false.
#[local] Instance entry_le_dec x y : Decision (entry_le x y) := bool_eq_dec _ _.

Definition entries (m : gmap K V) : list (K * V) := merge_sort entry_le (map_to_list m).
Definition keys (m : gmap K V) : list K := (entries m).*1.

Definition strictly_sorted (l : list (K * V)) : Prop :=
  StronglySorted (fun x y => klt x.1 y.1 = true) l.

#[local] Instance entry_le_total : Total entry_le.
Proof.
  intros x y. unfold entry_le, klt. destruct (blt (key_bytes y.1) (key_bytes x.1)) eqn:E; [right|by left].
  by apply blt_asym.
Qed.
#[local] Instance entry_le_trans : Transitive entry_le.
Proof.
  intros x y z. unfold entry_le, klt. intros Hxy Hyz.
  destruct (blt (key_bytes z.1) (key_bytes x.1)) eqn:Hzx; [|done].
  destruct (decide (key_bytes x.1 = key_bytes y.1)) as [E|E]; [congruence|].
  apply not_eq_sym in E. rewrite (blt_trans _ _ _ Hzx) in Hyz; [done|]. by apply blt_total.
Qed.

Lemma entries_perm m : entries m ≡ₚ map_to_list m.
Proof. apply merge_sort_Permutation. Qed.
Lemma elem_of_entries m k v : (k, v) ∈ entries m <-> m !! k = Some v.
Proof. rewrite entries_perm. apply elem_of_map_to_list. Qed.
Lemma NoDup_keys m : NoDup (entries m).*1.
Proof. rewrite entries_perm. apply NoDup_fst_map_to_list. Qed.
Lemma length_entries m : length (entries m) = size m.
Proof. rewrite entries_perm. apply length_map_to_list. Qed.
Lemma elem_of_keys m k : k ∈ keys m <-> is_Some (m !! k).
Proof.
  unfold keys. rewrite list_elem_of_fmap. split.
  - intros ([k' v] & -> & Hin%elem_of_entries). eauto.
  - intros [v Hv]. exists (k, v). by rewrite elem_of_entries.
Qed.
Lemma list_to_map_entries m : list_to_map (entries m) = m.
Proof.
  rewrite <- (list_to_map_to_list (M := gmap K) m) at 2.
  apply list_to_map_proper; [apply NoDup_keys|apply entries_perm].
Qed.

Lemma sorted_le_strict l : NoDup l.*1 -> StronglySorted entry_le l -> strictly_sorted l.
Proof.
  intros Hnd Hs. unfold strictly_sorted. induction Hs as [|x l Hs IH Hx]; [constructor|].
  rewrite fmap_cons in Hnd. apply NoDup_cons in Hnd as [Hnot Hnd].
  constructor; [by apply IH|].
  rewrite Forall_forall in Hx |- *. intros y Hy. apply blt_total; [|by apply Hx].
  intros E%key_bytes_inj. apply Hnot. rewrite <- E. apply list_elem_of_fmap. eauto.
Qed.
Lemma strictly_sorted_entries m : strictly_sorted (entries m).
Proof.
  apply sorted_le_strict; [apply NoDup_keys|].
  apply StronglySorted_merge_sort; apply _.
Qed.
Lemma strictly_sorted_NoDup l : strictly_sorted l -> NoDup l.*1.
Proof.
  induction 1 as [|x l Hs IH Hx]; [constructor|].
  rewrite fmap_cons. constructor; [|done].
  intros (y & E & Hy)%list_elem_of_fmap.
  rewrite Forall_forall in Hx. specialize (Hx y Hy). unfold klt in Hx.
  by rewrite E, blt_irrefl in Hx.
Qed.
Lemma strictly_sorted_unique l1 l2 :
  strictly_sorted l1 -> strictly_sorted l2 -> l1 ≡ₚ l2 -> l1 = l2.
Proof.
  intros H1 H2. apply (StronglySorted_unique_strong (fun x y : K * V => klt x.1 y.1 = true)); try done.
  intros x1 x2 _ _ Hlt Hgt. unfold klt in *. by rewrite (blt_asym _ _ Hlt) in Hgt.
Qed.
Lemma entries_list_to_map l : strictly_sorted l -> entries (list_to_map l) = l.
Proof.
  intros Hs. apply strictly_sorted_unique; [apply strictly_sorted_entries|done|].
  rewrite entries_perm. apply map_to_list_to_map. by apply strictly_sorted_NoDup.
Qed.

(** Emplacing the pairs of [l] one by one. *)
Definition emplace_all (m : gmap K V) (l : list (K * V)) : gmap K V :=
  foldl (fun m kv => <[kv.1 := kv.2]> m) m l.

Lemma emplace_all_union m l :
  NoDup l.*1 -> (forall k, k ∈ l.*1 -> m !! k = None) -> emplace_all m l = list_to_map l ∪ m.
Proof.
  revert m. induction l as [|[k v] l IH]; intros m Hnd Hm; [symmetry; apply (left_id_L ∅ (∪))|].
  rewrite fmap_cons in Hnd, Hm. apply NoDup_cons in Hnd as [Hk Hnd]. cbn [fst] in Hk, Hm.
  unfold emplace_all in *. cbn [foldl list_to_map fst snd foldr]. rewrite IH; [|done|].
  - assert (Hl : (list_to_map l : gmap K V) !! k = None) by by apply not_elem_of_list_to_map.
    by rewrite <- insert_union_r, insert_union_l by done.
  - intros k' Hk'. rewrite lookup_insert_ne by (intros ->; done). apply Hm. by right.
Qed.
Lemma emplace_all_empty l : NoDup l.*1 -> emplace_all ∅ l = list_to_map l.
Proof. intros. rewrite emplace_all_union; [apply (right_id_L ∅ (∪))|done|]. intros; apply lookup_empty. Qed.

(** [l] continues a strictly increasing sequence whose last key was [prior]. *)
Fixpoint increasing_from (prior : option K) (l : list (K * V)) : Prop :=
  match l with
  | [] => True
  | kv :: l' => (forall p, prior = Some p -> klt p kv.1 = true) /\ increasing_from (Some kv.1) l'
  end.
Lemma increasing_from_sorted prior l :
  increasing_from prior l -> strictly_sorted l /\
    forall p, prior = Some p -> Forall (fun kv => klt p kv.1 = true) l.
Proof.
  revert prior. induction l as [|[k v] l IH]; intros prior Hl; [split; [constructor|by constructor]|].
  destruct Hl as [Hk [Hs Hall]%IH]. split.
  - constructor; [done|]. by apply Hall.
  - intros p Hp. constructor; [by apply Hk|].
    eapply Forall_impl; [by apply Hall|]. intros kv. unfold klt. apply blt_trans. by apply Hk.
Qed.
Lemma sorted_increasing_from prior l :
  strictly_sorted l -> (forall p, prior = Some p -> Forall (fun kv => klt p kv.1 = true) l) ->
  increasing_from prior l.
Proof.
  intros Hs. revert prior. induction Hs as [|x l Hs IH Hx]; intros prior Hp; [done|]. split.
  - intros p ->. specialize (Hp p eq_refl). by inversion Hp.
  - apply IH. by intros p [= <-].
Qed.
End entries.
