(* ===== verification/Codec.v ===== *)
(** * The binary codec

    [src/src/cybou/binary_codec.h] (little-endian integers, [IsValidUtf8],
    [BinaryWriter], [BinaryReader]), the hex form of [Hash256]
    ([src/src/cybou/hash256.cpp]) and [AccountId::FromBytes]
    ([src/src/cybou/account_id.h]). *)

From Stdlib Require Import Strings.Byte.
From S2P Require Import Prelude.
From S2P Require Import Bytes.

(** ** Little-endian integers *)

(** [encoded[i] = static_cast<unsigned char>(value >> (8 * i))] for [i < n]. *)
Definition le_bytes (n : nat) (value : Z) : bytes :=
  (fun i => bz (Z.shiftr value (8 * Z.of_nat i))) <$> seq 0 n.

(** [value |= UInt{bytes[i]} << (8 * i)] over the indices of [bytes]. *)
Fixpoint le_loop (i : Z) (value : Z) (l : bytes) : Z :=
  match l with
  | [] => value
  | b :: l' => le_loop (i + 1) (Z.lor value (Z.shiftl (zb b) (8 * i))) l'
  end.
Definition le_val (l : bytes) : Z := le_loop 0 0 l.

Lemma length_le_bytes n v : length (le_bytes n v) = n.
Proof. unfold le_bytes. by rewrite length_fmap, length_seq. Qed.
Lemma zlen_le_bytes n v : zlen (le_bytes n v) = Z.of_nat n.
Proof. unfold zlen. by rewrite length_le_bytes. Qed.
Lemma le_bytes_S n v : le_bytes (S n) v = bz v :: le_bytes n (Z.shiftr v 8).
Proof.
  unfold le_bytes. rewrite <- cons_seq, fmap_cons, Z.shiftr_0_r. f_equal.
  rewrite <- fmap_S_seq, <- list_fmap_compose. apply list_fmap_ext. intros i x _.
  unfold compose. f_equal. rewrite Z.shiftr_shiftr by lia. f_equal. lia.
Qed.

Lemma lor_shift_add v b i :
  0 <= i -> 0 <= v < 2 ^ i -> Z.lor v (Z.shiftl b i) = v + b * 2 ^ i.
Proof.
  intros Hi Hv. rewrite <- Z.shiftl_mul_pow2 by lia.
  rewrite <- Z.lxor_lor, Z.add_nocarry_lxor; try done.
  all: apply Z.bits_inj'; intros k Hk; rewrite Z.land_spec, Z.bits_0.
  all: destruct (Z.ltb_spec k i); [by rewrite (Z.shiftl_spec_low _ i k), andb_false_r by lia|].
  all: destruct (decide (v = 0)) as [->|]; [by rewrite Z.bits_0|].
  all: rewrite (Z.bits_above_log2 v k); [done|lia|].
  all: apply Z.log2_lt_pow2; [lia|]; apply Z.lt_le_trans with (2 ^ i); [lia|].
  all: apply Z.pow_le_mono_r; lia.
Qed.

Fixpoint le_sum (l : bytes) : Z :=
  match l with [] => 0 | b :: l' => zb b + 256 * le_sum l' end.

Lemma le_loop_sum l : forall i v,
  0 <= i -> 0 <= v < 2 ^ (8 * i) -> le_loop i v l = v + 2 ^ (8 * i) * le_sum l.
Proof.
  induction l as [|b l IH]; intros i v Hi Hv; simpl; [lia|].
  pose proof (zb_range b) as Hb.
  rewrite lor_shift_add by lia.
  assert (Hp : 2 ^ (8 * (i + 1)) = 256 * 2 ^ (8 * i))
    by (rewrite Z.mul_add_distr_l, Z.pow_add_r by lia; lia).
  rewrite IH by nia. rewrite Hp. nia.
Qed.
Lemma le_val_sum l : le_val l = le_sum l.
Proof. unfold le_val. rewrite le_loop_sum; simpl; lia. Qed.
Lemma le_val_cons b l : le_val (b :: l) = zb b + 256 * le_val l.
Proof. by rewrite !le_val_sum. Qed.

Lemma le_val_le_bytes n : forall v, le_val (le_bytes n v) = v mod 2 ^ (8 * Z.of_nat n).
Proof.
  induction n as [|n IH]; intros v.
  - change (le_bytes 0 v) with (@nil byte). simpl. by rewrite Z.mod_1_r.
  - rewrite le_bytes_S, le_val_cons, IH, zb_bz. unfold wrap8.
    rewrite Z.shiftr_div_pow2 by lia. change (2 ^ 8) with 256.
    replace (8 * Z.of_nat (S n)) with (8 + 8 * Z.of_nat n) by lia.
    rewrite Z.pow_add_r by lia. change (2 ^ 8) with 256.
    rewrite Z.rem_mul_r; [lia|lia|]. apply Z.pow_pos_nonneg; lia.
Qed.
Lemma le_bytes_le_val l : le_bytes (length l) (le_val l) = l.
Proof.
  induction l as [|b l IH]; [done|]. simpl length. rewrite le_bytes_S, le_val_cons.
  pose proof (zb_range b). f_equal.
  - rewrite <- (bz_zb b) at 2. unfold bz, wrap8. do 3 f_equal.
    rewrite Z.mul_comm, Z.mod_add by lia. done.
  - rewrite <- IH at 3. f_equal. rewrite Z.shiftr_div_pow2 by lia. change (2 ^ 8) with 256.
    rewrite (Z.mul_comm 256), Z.div_add, Z.div_small by lia. lia.
Qed.
Lemma le_bytes_inv n l : length l = n -> le_bytes n (le_val l) = l.
Proof. intros <-. apply le_bytes_le_val. Qed.
Lemma le_val_range l : 0 <= le_val l < 2 ^ (8 * zlen l).
Proof.
  rewrite <- (le_bytes_le_val l) at 1 2. rewrite le_val_le_bytes. unfold zlen.
  apply Z.mod_pos_bound. apply Z.pow_pos_nonneg; lia.
Qed.

Lemma le_val_u64 v : is_u64 v -> le_val (le_bytes 8 v) = v.
Proof. intros. rewrite le_val_le_bytes. apply Z.mod_small. change (2 ^ _) with 18446744073709551616. ulia. Qed.
Lemma le_val_u32 v : is_u32 v -> le_val (le_bytes 4 v) = v.
Proof. intros. rewrite le_val_le_bytes. apply Z.mod_small. change (2 ^ _) with 4294967296. ulia. Qed.
Lemma le_val_u8 v : is_u8 v -> le_val (le_bytes 1 v) = v.
Proof. intros Hv. rewrite le_val_le_bytes. change (2 ^ _) with 256. apply Z.mod_small. ulia. Qed.
Lemma le_val_u16 v : is_u16 v -> le_val (le_bytes 2 v) = v.
Proof. intros. rewrite le_val_le_bytes. apply Z.mod_small. change (2 ^ _) with 65536. ulia. Qed.
Lemma is_u64_le_val l : length l = 8%nat -> is_u64 (le_val l).
Proof. intros Hl. pose proof (le_val_range l) as H. unfold zlen in H. rewrite Hl in H. simpl in H. ulia. Qed.
Lemma is_u32_le_val l : length l = 4%nat -> is_u32 (le_val l).
Proof. intros Hl. pose proof (le_val_range l) as H. unfold zlen in H. rewrite Hl in H. simpl in H. ulia. Qed.

(** ** UTF-8 validation *)

(** The inner [while (count--)] loop: consumes [count] continuation bytes. *)
Fixpoint utf8_tail (count : nat) (value : Z) (text : bytes) : option (Z * bytes) :=
  match count with
  | O => Some (value, text)
  | S n =>
      match text with
      | [] => None
      | next :: rest =>
          if negb (Z.land (zb next) 0xc0 =? 0x80) then None
          else utf8_tail n (wrap32 (Z.lor (wrap32 (Z.shiftl value 6)) (Z.land (zb next) 63))) rest
      end
  end.

(** One iteration of the outer loop: the decoded value and the rest of the
    text, [None] when [IsValidUtf8] returns [false]. *)
Definition utf8_step (c : byte) (text : bytes) : option bytes :=
  let c := zb c in
  if c <? 0x80 then Some text
  else
    let start :=
      if (0xc2 <=? c) && (c <=? 0xdf) then Some (1, Z.land c 31, 0x80)
      else if (0xe0 <=? c) && (c <=? 0xef) then Some (2, Z.land c 15, 0x800)
      else if (0xf0 <=? c) && (c <=? 0xf4) then Some (3, Z.land c 7, 0x10000)
      else None in
    match start with
    | None => None
    | Some (count, value, minimum) =>
        if zlen text <? count then None
        else match utf8_tail (Z.to_nat count) value text with
             | None => None
             | Some (value, rest) =>
                 if (value <? minimum) || (0x10ffff <? value) || ((0xd800 <=? value) && (value <=? 0xdfff))
                 then None else Some rest
             end
    end.

Fixpoint utf8_loop (fuel : nat) (text : bytes) : bool :=
  match text, fuel with
  | [], _ => true
  | _ :: _, O => false
  | c :: rest, S n => match utf8_step c rest with None => false | Some rest' => utf8_loop n rest' end
  end.
Definition IsValidUtf8 (text : bytes) : bool := utf8_loop (length text) text.

(** ** [BinaryWriter] *)

Record BinaryWriter : Type := mkBinaryWriter { w_bytes : bytes; w_limit : Z }.

Definition w_new (limit : Z) : BinaryWriter := mkBinaryWriter [] limit.
Definition w_put (w : BinaryWriter) (l : bytes) : BinaryWriter :=
  mkBinaryWriter (w_bytes w ++ l) (w_limit w).
Definition w_Fixed (w : BinaryWriter) (l : bytes) : outcome BinaryWriter :=
  if w_limit w ⊖ zlen (w_bytes w) <? zlen l then Throw else Ret (w_put w l).
Definition w_U8 (w : BinaryWriter) (v : Z) : outcome BinaryWriter :=
  if w_limit w <=? zlen (w_bytes w) then Throw else Ret (w_put w [bz v]).
Definition w_int (n : nat) (w : BinaryWriter) (v : Z) : outcome BinaryWriter :=
  if w_limit w ⊖ zlen (w_bytes w) <? Z.of_nat n then Throw else Ret (w_put w (le_bytes n v)).
Definition w_U16 : BinaryWriter -> Z -> outcome BinaryWriter := w_int 2.
Definition w_U32 : BinaryWriter -> Z -> outcome BinaryWriter := w_int 4.
Definition w_U64 : BinaryWriter -> Z -> outcome BinaryWriter := w_int 8.
Definition w_Bytes (w : BinaryWriter) (l : bytes) (maximum : Z) : outcome BinaryWriter :=
  if (maximum <? zlen l) || (MAX32 <? zlen l) then Throw
  else try! w := w_U32 w (zlen l) ;; w_Fixed w l.
Definition w_Text (w : BinaryWriter) (text : bytes) (maximum : Z) : outcome BinaryWriter :=
  if negb (IsValidUtf8 text) then Throw else w_Bytes w text maximum.

(** ** [BinaryReader] *)

Record BinaryReader : Type := mkBinaryReader { r_bytes : bytes; r_position : Z }.

Definition r_new (l : bytes) (limit : Z) : outcome BinaryReader :=
  if limit <? zlen l then Throw else Ret (mkBinaryReader l 0).
Definition r_Fixed (r : BinaryReader) (count : Z) : outcome (bytes * BinaryReader) :=
  if zlen (r_bytes r) ⊖ r_position r <? count then Throw
  else Ret (subspan (r_bytes r) (r_position r) count,
            mkBinaryReader (r_bytes r) (r_position r ⊕ count)).
Definition r_Arr (n : N) (r : BinaryReader) : outcome (arr n * BinaryReader) :=
  try! (l, r) := r_Fixed r (Z.of_N n) ;; Ret (arr_of n l, r).
Definition r_int (n : nat) (r : BinaryReader) : outcome (Z * BinaryReader) :=
  try! (l, r) := r_Fixed r (Z.of_nat n) ;; Ret (le_val l, r).
Definition r_U8 : BinaryReader -> outcome (Z * BinaryReader) := r_int 1.
Definition r_U16 : BinaryReader -> outcome (Z * BinaryReader) := r_int 2.
Definition r_U32 : BinaryReader -> outcome (Z * BinaryReader) := r_int 4.
Definition r_U64 : BinaryReader -> outcome (Z * BinaryReader) := r_int 8.
Definition r_Flag (r : BinaryReader) : outcome (bool * BinaryReader) :=
  try! (v, r) := r_U8 r ;; if 1 <? v then Throw else Ret (negb (v =? 0), r).
Definition r_Bytes (r : BinaryReader) (maximum : Z) : outcome (bytes * BinaryReader) :=
  try! (size, r) := r_U32 r ;; if maximum <? size then Throw else r_Fixed r size.
Definition r_Text (r : BinaryReader) (maximum : Z) : outcome (bytes * BinaryReader) :=
  try! (text, r) := r_Bytes r maximum ;;
  if negb (IsValidUtf8 text) then Throw else Ret (text, r).
Definition r_Finish (r : BinaryReader) : outcome unit :=
  if negb (r_position r =? zlen (r_bytes r)) then Throw else Ret tt.

(** ** Hex and [AccountId] *)

(** [Hash256::Nibble]; characters are bytes. *)
Definition Nibble (c : byte) : Z :=
  let c := zb c in
  if (48 <=? c) && (c <=? 57) then c - 48
  else if (97 <=? c) && (c <=? 102) then c - 97 + 10
  else if (65 <=? c) && (c <=? 70) then c - 65 + 10
  else -1.

Definition hex_digits : bytes := str "0123456789abcdef".
Definition hex_digit (v : Z) : byte := default x00 (hex_digits !! Z.to_nat v).

Definition GetHex (h : Hash256) : bytes :=
  mjoin ((fun b => [hex_digit (Z.shiftr (zb b) 4); hex_digit (Z.land (zb b) 15)]) <$> arr_val h).

Fixpoint hex_pairs (hex : bytes) : option bytes :=
  match hex with
  | [] => Some []
  | [_] => None
  | c1 :: c2 :: rest =>
      let hi := Nibble c1 in let lo := Nibble c2 in
      if (hi <? 0) || (lo <? 0) then None
      else match hex_pairs rest with
           | None => None
           | Some l => Some (bz (Z.lor (Z.shiftl hi 4) lo) :: l)
           end
  end.
Definition FromHex (hex : bytes) : option Hash256 :=
  if negb (zlen hex =? 64) then None
  else match hex_pairs hex with None => None | Some l => Some (arr_of 32 l) end.

Abbreviation AccountId := (arr 32%N).

Definition AccountId_FromBytes (l : bytes) : option AccountId :=
  if negb (zlen l =? 32) then None
  else let id := arr_of 32 l in if IsNull id then None else Some id.

(** ** Readers at a position, writers within their limit

    [at_suffix r z]: the reader still has exactly [z] in front of it. *)

Definition at_suffix (r : BinaryReader) (z : bytes) : Prop :=
  exists p, r_bytes r = p ++ z /\ r_position r = zlen p /\ zlen (r_bytes r) <= MAX64.

Lemma r_new_at l limit r : limit <= MAX64 -> r_new l limit = Ret r -> at_suffix r l /\ zlen l <= limit.
Proof.
  unfold r_new. intros Hlim H. run H. split; [|lia]. exists []. simpl. split_and!; [done..|lia].
Qed.
Lemma r_new_ok l limit : zlen l <= limit -> limit <= MAX64 ->
  exists r, r_new l limit = Ret r /\ at_suffix r l.
Proof.
  intros Hl Hlim. unfold r_new. rewrite (proj2 (Z.ltb_ge _ _)) by lia.
  eexists. split; [done|]. exists []. simpl. split_and!; [done..|lia].
Qed.

Lemma r_Fixed_ok r x y : at_suffix r (x ++ y) ->
  exists r', r_Fixed r (zlen x) = Ret (x, r') /\ at_suffix r' y.
Proof.
  intros (p & Hb & Hp & Hs). unfold r_Fixed. rewrite Hb in Hs. rewrite Hb, Hp.
  rewrite !zlen_app in Hs. pose proof (zlen_nonneg p). pose proof (zlen_nonneg x). pose proof (zlen_nonneg y).
  rewrite !zlen_app, sub64_small by lia. rewrite (proj2 (Z.ltb_ge _ _)) by lia.
  exists (mkBinaryReader (p ++ x ++ y) (zlen p ⊕ zlen x)). split.
  - do 2 f_equal. unfold subspan, zlen. by rewrite !Nat2Z.id, drop_app_length, take_app_length.
  - exists (p ++ x). simpl. rewrite <- app_assoc, !zlen_app, add64_small by lia. split_and!; [done..|lia].
Qed.
Lemma r_Fixed_inv r z n x r' : at_suffix r z -> 0 <= n -> r_Fixed r n = Ret (x, r') ->
  exists y, z = x ++ y /\ zlen x = n /\ at_suffix r' y.
Proof.
  intros (p & Hb & Hp & Hs) Hn. unfold r_Fixed. rewrite Hb in Hs. rewrite Hb, Hp.
  rewrite !zlen_app in Hs. pose proof (zlen_nonneg p). pose proof (zlen_nonneg z).
  rewrite !zlen_app, sub64_small by lia. intros Hrun. run Hrun.
  unfold subspan, zlen in *. rewrite !Nat2Z.id, drop_app_length.
  exists (drop (Z.to_nat n) z). split_and!.
  - by rewrite take_drop.
  - rewrite length_take. lia.
  - exists (p ++ take (Z.to_nat n) z). simpl.
    rewrite <- app_assoc, take_drop, zlen_app, zlen_app. unfold zlen. rewrite length_take.
    split_and!; [done| |lia]. rewrite add64_small; lia.
Qed.

Lemma r_int_ok n r v y : at_suffix r (le_bytes n v ++ y) -> 0 <= v < 2 ^ (8 * Z.of_nat n) ->
  exists r', r_int n r = Ret (v, r') /\ at_suffix r' y.
Proof.
  intros H Hv. apply r_Fixed_ok in H as (r' & E & Hr'). exists r'. split; [|done].
  unfold r_int. rewrite zlen_le_bytes in E. rewrite E. simpl.
  by rewrite le_val_le_bytes, Z.mod_small.
Qed.
Lemma r_int_inv n r z v r' : at_suffix r z -> r_int n r = Ret (v, r') ->
  exists y, z = le_bytes n v ++ y /\ 0 <= v < 2 ^ (8 * Z.of_nat n) /\ at_suffix r' y.
Proof.
  intros H Hr. unfold r_int in Hr. destruct (r_Fixed _ _) as [[x r1]|] eqn:E; simplify_eq/=.
  destruct (r_Fixed_inv _ _ _ _ _ H (Nat2Z.is_nonneg n) E) as (y & -> & Hx & Hr'). exists y.
  rewrite le_bytes_inv by (unfold zlen in Hx; lia). rewrite <- Hx. pose proof (le_val_range x). split_and!; [done|lia..|done].
Qed.
Lemma r_Arr_ok {n} r (a : arr n) y : at_suffix r (arr_val a ++ y) ->
  exists r', r_Arr n r = Ret (a, r') /\ at_suffix r' y.
Proof.
  intros H. apply r_Fixed_ok in H as (r' & E & Hr'). exists r'. split; [|done].
  unfold r_Arr. rewrite zlen_arr in E. rewrite E. simpl. by rewrite arr_of_arr.
Qed.
Lemma r_Arr_inv {n} r z (a : arr n) r' : at_suffix r z -> r_Arr n r = Ret (a, r') ->
  exists y, z = arr_val a ++ y /\ at_suffix r' y.
Proof.
  intros H Hr. unfold r_Arr in Hr. destruct (r_Fixed _ _) as [[x r1]|] eqn:E; simplify_eq/=.
  destruct (r_Fixed_inv _ _ _ _ _ H (N2Z.is_nonneg n) E) as (y & -> & Hx & Hr'). exists y.
  change (resize (N.to_nat n) x00 x) with (arr_val (arr_of n x)).
  by rewrite arr_of_val by done.
Qed.
Lemma r_Finish_iff r z : at_suffix r z -> r_Finish r = Ret tt <-> z = [].
Proof.
  intros (p & Hb & Hp & _). unfold r_Finish. rewrite Hb, Hp, zlen_app. unfold zlen.
  destruct z as [|c z]; simpl length.
  - rewrite (proj2 (Z.eqb_eq _ _)) by lia. done.
  - rewrite (proj2 (Z.eqb_neq _ _)) by lia. done.
Qed.

(** The writers append their encoding exactly when it fits the limit. *)
Definition fits (w : BinaryWriter) : Prop := zlen (w_bytes w) <= w_limit w <= MAX64.

Lemma w_Fixed_inv w l w' : fits w -> w_Fixed w l = Ret w' -> w' = w_put w l /\ fits w'.
Proof.
  unfold fits, w_Fixed. intros Hw H. pose proof (zlen_nonneg (w_bytes w)).
  rewrite sub64_small in H by lia. run H. split; [done|]. simpl. rewrite zlen_app. lia.
Qed.
Lemma w_Fixed_ok w l : zlen (w_bytes w ++ l) <= w_limit w <= MAX64 -> w_Fixed w l = Ret (w_put w l).
Proof.
  unfold w_Fixed. rewrite zlen_app. intros Hw. pose proof (zlen_nonneg (w_bytes w)). pose proof (zlen_nonneg l).
  rewrite sub64_small by lia. by rewrite (proj2 (Z.ltb_ge _ _)) by lia.
Qed.
Lemma w_int_Fixed n w v : w_int n w v = w_Fixed w (le_bytes n v).
Proof. unfold w_int, w_Fixed. by rewrite zlen_le_bytes. Qed.
Lemma w_U8_Fixed w v : fits w -> w_U8 w v = w_Fixed w (le_bytes 1 v).
Proof.
  unfold fits, w_U8, w_Fixed. intros Hw. pose proof (zlen_nonneg (w_bytes w)).
  rewrite sub64_small by lia. rewrite le_bytes_S. change (le_bytes 0 _) with (@nil byte).
  change (zlen [bz v]) with 1. destruct (Z.leb_spec (w_limit w) (zlen (w_bytes w)));
    [rewrite (proj2 (Z.ltb_lt _ _)) by lia|rewrite (proj2 (Z.ltb_ge _ _)) by lia]; done.
Qed.
Lemma w_new_fits limit : 0 <= limit <= MAX64 -> fits (w_new limit).
Proof. done. Qed.

(** ** Cutting fixed layouts

    [len] decides equations and bounds between lengths; [cut] evaluates
    [subspan] on a concatenation of fields of known length; [glue] joins the
    consecutive fields of one buffer back together. *)

Create Rewrite HintDb zlen.
#[export] Hint Rewrite @zlen_app @zlen_arr zlen_le_bytes @zlen_cons @zlen_nil : zlen.

Ltac len := autorewrite with zlen; cbn [Z.of_N Z.of_nat Pos.of_succ_nat Pos.succ]; lia.
Ltac cut :=
  repeat match goal with
  | |- context [subspan (?x ++ ?y) ?o ?n] =>
      first [ rewrite (subspan_at x y o n) by len | rewrite (subspan_skip x y o n) by len ]
  | |- context [subspan ?x ?o ?n] => rewrite (subspan_whole x o n) by len
  end.
Ltac glue :=
  repeat match goal with
  | |- context [subspan ?l ?o ?a ++ subspan ?l ?o' ?b ++ ?y] =>
      rewrite (subspan_glue_app l o a o' b y) by lia
  | |- context [subspan ?l ?o ?a ++ subspan ?l ?o' ?b] => rewrite (subspan_glue l o a o' b) by lia
  end.

(** Evaluates the comparisons between constants. *)
Ltac constant c :=
  let r := eval vm_compute in c in
  match r with true => change c with true | false => change c with false end.
Ltac constants :=
  repeat match goal with
  | |- context [?a <? ?b] => constant (a <? b)
  | |- context [?a =? ?b] => constant (a =? b)
  end; cbn [negb orb andb]; cbv beta iota zeta.

Lemma le_bytes_subspan l off n :
  0 <= off -> off + Z.of_nat n <= zlen l ->
  le_bytes n (le_val (subspan l off (Z.of_nat n))) = subspan l off (Z.of_nat n).
Proof.
  intros H1 H2. apply le_bytes_inv. apply Nat2Z.inj. change (Z.of_nat (length ?l)) with (zlen l).
  rewrite zlen_subspan; lia.
Qed.
Lemma arr_of_subspan n l off : 0 <= off -> off + Z.of_N n <= zlen l ->
  arr_val (arr_of n (subspan l off (Z.of_N n))) = subspan l off (Z.of_N n).
Proof. intros H1 H2. apply arr_of_val. apply zlen_subspan; lia. Qed.

Lemma AccountId_FromBytes_arr (a : AccountId) :
  AccountId_FromBytes (arr_val a) = if IsNull a then None else Some a.
Proof. unfold AccountId_FromBytes. rewrite zlen_arr. simpl. by rewrite arr_of_arr. Qed.
Lemma AccountId_FromBytes_inv l a :
  AccountId_FromBytes l = Some a -> l = arr_val a /\ IsNull a = false.
Proof.
  unfold AccountId_FromBytes. intros E. walk E. some_inj E. guards.
  by rewrite arr_of_val.
Qed.
