(* ===== verification/Utf8.v ===== *)
(** * UTF-8 validation and hex are correct

    The theorems on [IsValidUtf8] ([src/src/cybou/binary_codec.h]) and on the
    hex form of [Hash256] ([src/src/cybou/hash256.cpp]). *)

From S2P Require Import Prelude.
From S2P Require Import Bytes.
From S2P Require Import Codec.

(** ** UTF-8 validation is correct *)

(** The scalar values of Unicode and their (only) UTF-8 encoding. *)
Definition scalar (s : Z) : Prop := 0 <= s <= 0x10ffff /\ ~ (0xd800 <= s <= 0xdfff).
Definition utf8_encode (s : Z) : bytes :=
  if s <? 0x80 then [bz s]
  else if s <? 0x800 then [bz (0xc0 + s / 64); bz (0x80 + s mod 64)]
  else if s <? 0x10000 then [bz (0xe0 + s / 4096); bz (0x80 + s / 64 mod 64); bz (0x80 + s mod 64)]
  else [bz (0xf0 + s / 262144); bz (0x80 + s / 4096 mod 64); bz (0x80 + s / 64 mod 64); bz (0x80 + s mod 64)].

Lemma land_c0 b : (Z.land (zb b) 0xc0 =? 0x80) = ((128 <=? zb b) && (zb b <? 192)).
Proof. by destruct b. Qed.
Lemma land_mask b :
  Z.land (zb b) 63 = zb b mod 64 /\ Z.land (zb b) 31 = zb b mod 32 /\
  Z.land (zb b) 15 = zb b mod 16 /\ Z.land (zb b) 7 = zb b mod 8.
Proof. by destruct b. Qed.

Lemma utf8_tail_S n v b l :
  0 <= v < 1048576 ->
  utf8_tail (S n) v (b :: l) =
    if (128 <=? zb b) && (zb b <? 192) then utf8_tail n (v * 64 + zb b mod 64) l else None.
Proof.
  intros Hv. cbn [utf8_tail]. rewrite land_c0. destruct (land_mask b) as [-> _].
  destruct ((128 <=? zb b) && (zb b <? 192)) eqn:E; [|done]. cbn [negb]. f_equal.
  assert (Hs : Z.shiftl v 6 = v * 64) by (by rewrite Z.shiftl_mul_pow2).
  unfold wrap32 at 2. rewrite (Z.mod_small (Z.shiftl v 6)) by dlia.
  rewrite Z.lor_comm, lor_shift_add; [|dlia|change (2 ^ 6) with 64; dlia].
  change (2 ^ 6) with 64. unfold wrap32. rewrite Z.mod_small by dlia. dlia.
Qed.

#[local] Arguments utf8_tail : simpl never.

Ltac byte_arith :=
  repeat match goal with b : byte |- _ => lazymatch goal with
    | H : 0 <= zb b <= 255 |- _ => fail | _ => pose proof (zb_range b) end end.
Ltac byte_eq := apply zb_inj; rewrite zb_bz; unfold wrap8; dlia.

Lemma utf8_step_sound c rest rest' :
  utf8_step c rest = Some rest' -> exists s, scalar s /\ c :: rest = utf8_encode s ++ rest'.
Proof.
  unfold utf8_step. destruct (land_mask c) as (_ & -> & -> & ->). byte_arith.
  destruct (zb c <? 0x80) eqn:E1.
  { intros [= <-]. exists (zb c). unfold scalar, utf8_encode. rewrite E1. split; [dlia|].
    by rewrite bz_zb. }
  repeat case_match; simplify_eq/=; intros [= ->].
  all: change (Z.to_nat 1) with 1%nat in *; change (Z.to_nat 2) with 2%nat in *;
    change (Z.to_nat 3) with 3%nat in *.
  all: repeat match goal with
    | H : utf8_tail 0 _ _ = Some _ |- _ => unfold utf8_tail in H; simplify_eq
    | H : utf8_tail (S _) _ ?l = Some _ |- _ => is_var l; destruct l as [|? l]; [done|]
    | H : utf8_tail (S _) _ (_ :: _) = Some _ |- _ => rewrite utf8_tail_S in H by dlia;
        destruct (_ && _) eqn:? in H; [|done]
    end; byte_arith.
  all: match goal with H : (?v <? _) || _ || _ = false |- _ => exists v end.
  all: unfold scalar, utf8_encode; split; [dlia|].
  - rewrite (proj2 (Z.ltb_ge _ 0x80)), (proj2 (Z.ltb_lt _ 0x800)) by dlia.
    simpl. f_equal; [byte_eq|]. f_equal; byte_eq.
  - rewrite (proj2 (Z.ltb_ge _ 0x80)), (proj2 (Z.ltb_ge _ 0x800)), (proj2 (Z.ltb_lt _ 0x10000)) by dlia.
    simpl. f_equal; [byte_eq|]. f_equal; [byte_eq|]. f_equal; byte_eq.
  - rewrite (proj2 (Z.ltb_ge _ 0x80)), (proj2 (Z.ltb_ge _ 0x800)), (proj2 (Z.ltb_ge _ 0x10000)) by dlia.
    simpl. f_equal; [byte_eq|]. f_equal; [byte_eq|]. f_equal; [byte_eq|]. f_equal; byte_eq.
Qed.

Lemma utf8_step_complete s rest :
  scalar s -> exists c t, utf8_encode s ++ rest = c :: t /\ utf8_step c t = Some rest.
Proof.
  intros Hs. unfold scalar, utf8_encode in *.
  assert (Hz : forall z, 0 <= z <= 255 -> zb (bz z) = z)
    by (intros z Hz; rewrite zb_bz; apply Z.mod_small; dlia).
  assert (Hlen : forall {A} (l : list A), 0 <= zlen l) by (intros; apply zlen_nonneg).
  destruct (s <? 0x80) eqn:E1; [|destruct (s <? 0x800) eqn:E2; [|destruct (s <? 0x10000) eqn:E3]].
  all: simpl; eexists _, _; split; [reflexivity|].
  all: unfold utf8_step; match goal with |- context [zb (bz ?z)] =>
         destruct (land_mask (bz z)) as (_ & Em31 & Em15 & Em7) end.
  all: rewrite Em31, Em15, Em7, !Hz by dlia.
  - by rewrite E1.
  - rewrite (proj2 (Z.ltb_ge _ 0x80)) by dlia.
    rewrite (proj2 (Z.leb_le 0xc2 _)), (proj2 (Z.leb_le _ 0xdf)) by dlia. simpl andb. cbv iota beta.
    rewrite (proj2 (Z.ltb_ge _ 1)) by (unfold zlen; simpl; dlia).
    change (Z.to_nat 1) with 1%nat. rewrite utf8_tail_S by dlia. rewrite !Hz by dlia.
    rewrite (proj2 (andb_true_iff _ _)) by dlia. cbv beta iota delta [utf8_tail].
    case_match; [dlia|done].
  - rewrite (proj2 (Z.ltb_ge _ 0x80)) by dlia.
    rewrite (proj2 (Z.leb_gt _ 0xdf)), andb_false_r by dlia.
    rewrite (proj2 (Z.leb_le 0xe0 _)), (proj2 (Z.leb_le _ 0xef)) by dlia. simpl andb. cbv iota beta.
    rewrite (proj2 (Z.ltb_ge _ 2)) by (unfold zlen; simpl; dlia).
    change (Z.to_nat 2) with 2%nat. rewrite !utf8_tail_S, !Hz by (rewrite ?Hz; dlia).
    rewrite !(proj2 (andb_true_iff _ _)) by dlia. cbv beta iota delta [utf8_tail].
    case_match; [dlia|done].
  - rewrite (proj2 (Z.ltb_ge _ 0x80)) by dlia.
    rewrite (proj2 (Z.leb_gt _ 0xdf)), (proj2 (Z.leb_gt _ 0xef)), !andb_false_r by dlia.
    rewrite (proj2 (Z.leb_le 0xf0 _)), (proj2 (Z.leb_le _ 0xf4)) by dlia. simpl andb. cbv iota beta.
    rewrite (proj2 (Z.ltb_ge _ 3)) by (unfold zlen; simpl; dlia).
    change (Z.to_nat 3) with 3%nat. rewrite !utf8_tail_S, !Hz by (rewrite ?Hz; dlia).
    rewrite !(proj2 (andb_true_iff _ _)) by dlia. cbv beta iota delta [utf8_tail].
    case_match; [dlia|done].
Qed.

Lemma utf8_encode_cons s : exists c t, utf8_encode s = c :: t.
Proof. unfold utf8_encode. repeat case_match; eauto. Qed.

Lemma utf8_loop_spec n : forall text,
  (length text <= n)%nat ->
  utf8_loop n text = true <-> exists cs, Forall scalar cs /\ text = mjoin (utf8_encode <$> cs).
Proof.
  induction n as [|n IH]; intros [|c text] Hn; simpl in Hn; try lia.
  1, 2: by split; [exists []; split; [constructor|]|].
  cbn [utf8_loop]. split.
  - destruct (utf8_step c text) as [rest|] eqn:E; [|done].
    apply utf8_step_sound in E as (s & Hs & E).
    destruct (utf8_encode_cons s) as (c' & t & Et). rewrite Et in E. simplify_eq/=.
    rewrite length_app in Hn. intros (cs & Hcs & ->)%IH; [|lia].
    exists (s :: cs). split; [by constructor|]. rewrite fmap_cons. simpl. by rewrite Et.
  - intros ([|s cs] & Hcs & E); [done|]. apply Forall_cons in Hcs as [Hs Hcs].
    rewrite fmap_cons in E. simpl in E.
    destruct (utf8_step_complete s (mjoin (utf8_encode <$> cs)) Hs) as (c' & t & E' & Hstep).
    rewrite E' in E. simplify_eq. rewrite Hstep. apply IH; [|by eauto].
    destruct (utf8_encode_cons s) as (c'' & t' & Et). rewrite Et in E'. simplify_eq/=.
    rewrite length_app in Hn. lia.
Qed.

(** [IsValidUtf8] accepts exactly the UTF-8 encodings of sequences of
    Unicode scalar values: no overlong form, no surrogate, nothing above
    U+10FFFF, no truncated sequence; and it always terminates with a verdict. *)
Theorem IsValidUtf8_correct text :
  IsValidUtf8 text = true <-> exists cs, Forall scalar cs /\ text = mjoin (utf8_encode <$> cs).
Proof. by apply utf8_loop_spec. Qed.

(** ** Hex round trip *)

Lemma Nibble_hex_digit v : 0 <= v <= 15 -> Nibble (hex_digit v) = v.
Proof.
  intros Hv.
  assert (Hall : forallb (fun i => Nibble (hex_digit (Z.of_nat i)) =? Z.of_nat i) (seq 0 16) = true)
    by reflexivity.
  rewrite forallb_forall in Hall. specialize (Hall (Z.to_nat v)).
  rewrite in_seq, Z.eqb_eq in Hall. rewrite Z2Nat.id in Hall by lia. apply Hall. lia.
Qed.
Lemma hex_nibbles b :
  0 <= Z.shiftr (zb b) 4 <= 15 /\ 0 <= Z.land (zb b) 15 <= 15 /\
  Z.lor (Z.shiftl (Z.shiftr (zb b) 4) 4) (Z.land (zb b) 15) = zb b.
Proof. by destruct b. Qed.

Lemma hex_pairs_GetHex l :
  hex_pairs (mjoin ((fun b => [hex_digit (Z.shiftr (zb b) 4); hex_digit (Z.land (zb b) 15)]) <$> l)) = Some l.
Proof.
  induction l as [|b l IH]; [done|]. rewrite fmap_cons. simpl.
  destruct (hex_nibbles b) as (Hhi & Hlo & E). rewrite !Nibble_hex_digit, IH by done.
  rewrite (proj2 (Z.ltb_ge _ 0)), (proj2 (Z.ltb_ge _ 0)) by lia. simpl. by rewrite E, bz_zb.
Qed.
Lemma length_GetHex h : length (GetHex h) = 64%nat.
Proof.
  unfold GetHex. transitivity (2 * length (arr_val h))%nat; [|pose proof (zlen_arr h) as E; unfold zlen in E; lia].
  induction (arr_val h) as [|b l IH]; [done|]. rewrite fmap_cons. simpl in *. lia.
Qed.

(** Hex round trip: [FromHex] inverts [GetHex] on every 256-bit value, and
    the text is always 64 characters long. *)
Theorem FromHex_GetHex h : zlen (GetHex h) = 64 /\ FromHex (GetHex h) = Some h.
Proof.
  unfold FromHex, zlen. rewrite length_GetHex. split; [done|]. simpl.
  unfold GetHex. by rewrite hex_pairs_GetHex, arr_of_arr.
Qed.

