(* ===== verification/Params.v ===== *)
(** * Protocol parameters and limits

    [src/src/cybou/protocol_params.h], [protocol_limits.h] and [economics.h]:
    the consensus parameters, their defaults and the epoch of a height. *)

From S2P Require Import Prelude.
From S2P Require Import Bytes.

(** ** [protocol_params.h] *)

Definition ONBOARDING_BONUS : Z := 20000.
Definition DEFAULT_STORAGE_RATE_PER_GIB_DAY_REPLICA : Z := 5.
Definition DEFAULT_STORAGE_REPLICA_TARGET : Z := 2.
Definition DEFAULT_STORAGE_SETTLEMENT_PERIOD_SECONDS : Z := 86400.
Definition DEFAULT_MAX_STORAGE_LEASE_PERIODS : Z := 3650.
Definition DEFAULT_MAX_ACCOUNT_CREATES_PER_BLOCK : Z := 100.
Definition DEFAULT_ACCOUNT_CREATION_WORK_BITS : Z := 25.
Definition DEFAULT_ACCOUNT_CREATION_EPOCH_LAG : Z := 1.
Definition DEFAULT_EPOCH_BLOCKS : Z := 1024.
Definition DEFAULT_PAYMENT_FEE : Z := 1.
Definition DEFAULT_ROOT_PUBLICATION_FEE_PER_STARTED_KIB : Z := 4.
Definition DEFAULT_ROOT_PUBLICATION_FEE_PER_CHUNK : Z := 4.
Definition DEFAULT_NAME_CLAIM_WORK_BITS : Z := 16.
Definition DEFAULT_NAME_COMMIT_MIN_DEPTH : Z := 1.
Definition DEFAULT_NAME_COMMIT_MAX_LIFETIME : Z := 1000.
Definition DEFAULT_MAX_PENDING_NAME_COMMITS : Z := 10000.

Record CybouProtocolParameters : Type := mkParams {
  account_creation_work_bits : Z;
  account_creation_epoch_lag : Z;
  max_account_creates_per_block : Z;
  onboarding_bonus : Z;
  epoch_blocks : Z;
  payment_fee : Z;
  root_publication_fee_per_started_kib : Z;
  root_publication_fee_per_chunk : Z;
  name_claim_work_bits : Z;
  name_commit_min_depth : Z;
  name_commit_max_lifetime : Z;
  max_pending_name_commits : Z;
  identity_kem_xwing_enabled : bool;
  storage_rate_per_gib_day_replica : Z;
  storage_replica_target : Z;
  storage_settlement_period_seconds : Z;
  max_storage_lease_periods : Z;
}.

(** The default member initialisers, and [DevProtocolParameters], which
    switches the X-Wing key packages on. *)
Definition default_params (xwing : bool) : CybouProtocolParameters :=
  mkParams DEFAULT_ACCOUNT_CREATION_WORK_BITS DEFAULT_ACCOUNT_CREATION_EPOCH_LAG
    DEFAULT_MAX_ACCOUNT_CREATES_PER_BLOCK ONBOARDING_BONUS DEFAULT_EPOCH_BLOCKS
    DEFAULT_PAYMENT_FEE DEFAULT_ROOT_PUBLICATION_FEE_PER_STARTED_KIB
    DEFAULT_ROOT_PUBLICATION_FEE_PER_CHUNK DEFAULT_NAME_CLAIM_WORK_BITS
    DEFAULT_NAME_COMMIT_MIN_DEPTH DEFAULT_NAME_COMMIT_MAX_LIFETIME
    DEFAULT_MAX_PENDING_NAME_COMMITS xwing DEFAULT_STORAGE_RATE_PER_GIB_DAY_REPLICA
    DEFAULT_STORAGE_REPLICA_TARGET DEFAULT_STORAGE_SETTLEMENT_PERIOD_SECONDS
    DEFAULT_MAX_STORAGE_LEASE_PERIODS.
Definition DevProtocolParameters : CybouProtocolParameters := default_params true.

(** Every field is a value of its C++ type. *)
Definition params_wf (p : CybouProtocolParameters) : Prop :=
  is_u32 (account_creation_work_bits p) /\ is_u64 (account_creation_epoch_lag p) /\
  is_u32 (max_account_creates_per_block p) /\ is_u64 (onboarding_bonus p) /\
  is_u64 (epoch_blocks p) /\ is_u64 (payment_fee p) /\
  is_u64 (root_publication_fee_per_started_kib p) /\ is_u64 (root_publication_fee_per_chunk p) /\
  is_u32 (name_claim_work_bits p) /\ is_u64 (name_commit_min_depth p) /\
  is_u64 (name_commit_max_lifetime p) /\ is_u32 (max_pending_name_commits p) /\
  is_u64 (storage_rate_per_gib_day_replica p) /\ is_u8 (storage_replica_target p) /\
  is_u64 (storage_settlement_period_seconds p) /\ is_u32 (max_storage_lease_periods p).

Lemma params_wf_fee p : params_wf p -> is_u64 (payment_fee p).
Proof. unfold params_wf. tauto. Qed.
Lemma DevProtocolParameters_wf : params_wf DevProtocolParameters.
Proof. unfold params_wf. simpl. unfold is_u8, is_u32, is_u64. by split_and!. Qed.

Definition EpochForHeight (block_height : Z) (params : CybouProtocolParameters) : Z :=
  if epoch_blocks params =? 0 then 0 else block_height / epoch_blocks params.

Lemma EpochForHeight_range h p : is_u64 h -> params_wf p -> is_u64 (EpochForHeight h p).
Proof.
  unfold params_wf, EpochForHeight. intros Hh Hp. destruct (Z.eqb_spec (epoch_blocks p) 0); [ulia|].
  assert (0 < epoch_blocks p) by ulia. split; [apply Z.div_pos; ulia|].
  apply Z.le_trans with h; [|ulia]. apply Z.div_le_upper_bound; [done|]. uint_unfold. nia.
Qed.

(** ** [protocol_limits.h] and [economics.h] *)

Definition MAX_PUBLICATION_CHUNKS : Z := 1048576.
Definition MAX_OPERATION_PAYLOAD_BYTES : Z := 131072.
Definition MAX_FINALIZED_BLOCK_BYTES : Z := 33554432.
Definition OPERATION_WORK_BITS : Z := 22.
Definition NAME_OPERATION_EXTRA_WORK_BITS : Z := 4.
Definition CENTRAL_AUTHORITY_NAME : bytes := str "cybou".
Definition GENESIS_MONETARY_BASE : Z := 100000000000.
