(* ===== verification/StorageEconomy.v ===== *)
(** * Storage rent arithmetic

    [src/src/cybou/storage_economy.h] and [.cpp]: billing units, the exact
    rent accumulator with its remainder, the budget of an assigned storage
    term and the payout of one replica. The out-parameters of the source are
    returned; [None] is [false] or [std::nullopt]. *)

From Stdlib Require Import Sorted.
From S2P Require Import Prelude.

Definition STORAGE_BILLING_UNIT_BYTES : Z := 524288.
Definition STORAGE_BILLING_UNITS_PER_GIB : Z := 2048.
Definition STORAGE_SECONDS_PER_DAY : Z := 86400.
Definition STORAGE_RATE_CYBOU_PER_GIB_DAY_REPLICA : Z := 5.
Definition STORAGE_RENT_DENOMINATOR : Z := STORAGE_BILLING_UNITS_PER_GIB ⊗ STORAGE_SECONDS_PER_DAY.

Definition StorageBillingUnits (bytes : Z) : Z :=
  bytes / STORAGE_BILLING_UNIT_BYTES ⊕ Z.b2z (negb (bytes mod STORAGE_BILLING_UNIT_BYTES =? 0)).

Record StorageRentAccumulator : Type := mkAccumulator { cybou : Z; remainder : Z }.

Definition CheckedMul (a b : Z) : option Z :=
  if negb (a =? 0) && (MAX64 / a <? b) then None else Some (a ⊗ b).

Definition AccrueStorageRent (accumulator : StorageRentAccumulator) (units seconds replicas : Z)
    : option StorageRentAccumulator :=
  return_if STORAGE_RENT_DENOMINATOR <=? remainder accumulator with None ;;
  let? numerator := CheckedMul units seconds else None ;;
  let? numerator := CheckedMul numerator replicas else None ;;
  let? numerator := CheckedMul numerator STORAGE_RATE_CYBOU_PER_GIB_DAY_REPLICA else None ;;
  let whole := numerator / STORAGE_RENT_DENOMINATOR in
  let rem := numerator mod STORAGE_RENT_DENOMINATOR ⊕ remainder accumulator in
  let carry := rem / STORAGE_RENT_DENOMINATOR in
  let rem := rem mod STORAGE_RENT_DENOMINATOR in
  return_if (MAX64 ⊖ carry <? whole) || (MAX64 ⊖ whole ⊖ carry <? cybou accumulator) with None ;;
  Some (mkAccumulator (cybou accumulator ⊕ (whole ⊕ carry)) rem).

Definition StorageRentPerDay (units replicas : Z) : option Z :=
  let? day := AccrueStorageRent (mkAccumulator 0 0) units STORAGE_SECONDS_PER_DAY replicas else None ;;
  Some (cybou day).

Record AssignedStorageBudget : Type := mkBudget {
  per_replica : Z;
  total : Z;
  contracted_unit_seconds : Z;
}.

Definition ComputeAssignedStorageBudget (units replicas periods period_seconds rate : Z)
    : option AssignedStorageBudget :=
  return_if (units =? 0) || (replicas =? 0) || (periods =? 0) || (period_seconds =? 0) || (rate =? 0)
    with None ;;
  let? seconds := CheckedMul periods period_seconds else None ;;
  let? unit_seconds := CheckedMul units seconds else None ;;
  let numerator := wrap128 (unit_seconds * rate) in
  let share := wrap128 (numerator / STORAGE_RENT_DENOMINATOR
    + Z.b2z (negb (numerator mod STORAGE_RENT_DENOMINATOR =? 0))) in
  return_if MAX64 <? share with None ;;
  let? tot := CheckedMul (wrap64 share) replicas else None ;;
  Some (mkBudget (wrap64 share) tot unit_seconds).

(** [int64_t] arguments; the guards leave both operands of the subtraction
    positive, so it cannot overflow. *)
Definition StorageVerifiedIntervalSeconds (previous_ms now_ms maximum_gap_ms : Z) : Z :=
  return_if (previous_ms <=? 0) || (now_ms <=? previous_ms) || (maximum_gap_ms <=? 0) with 0 ;;
  let gap := now_ms - previous_ms in
  if gap <=? maximum_gap_ms then gap / 1000 else 0.

Definition ComputeAssignedStoragePayout (budget : AssignedStorageBudget)
    (verified_unit_seconds finalized_paid : Z) : option Z :=
  return_if (per_replica budget =? 0) || (contracted_unit_seconds budget =? 0)
    || (total budget <? per_replica budget) || negb (total budget mod per_replica budget =? 0)
    || (contracted_unit_seconds budget <? verified_unit_seconds) with None ;;
  let entitlement := wrap64 (wrap128 (per_replica budget * verified_unit_seconds)
    / contracted_unit_seconds budget) in
  return_if entitlement <? finalized_paid with None ;;
  Some (entitlement ⊖ finalized_paid).

(** ** Lemmas *)

Lemma DENOMINATOR_eq : STORAGE_RENT_DENOMINATOR = 176947200.
Proof. reflexivity. Qed.

Lemma CheckedMul_spec a b : is_u64 a -> is_u64 b ->
  CheckedMul a b = if a * b <=? MAX64 then Some (a * b) else None.
Proof.
  intros Ha Hb. unfold CheckedMul.
  destruct (Z.eqb_spec a 0) as [->|Hne]; [done|]. simpl negb. rewrite andb_true_l.
  assert (Hpos : 0 < a) by ulia.
  destruct (Z.ltb_spec (MAX64 / a) b) as [Hlt|Hge].
  - assert (MAX64 < a * b); [|by rewrite (proj2 (Z.leb_gt _ _))].
    apply Z.nle_gt. intros Hle. apply (Z.div_le_lower_bound _ _ _ Hpos) in Hle. lia.
  - assert (a * b <= MAX64).
    { transitivity (a * (MAX64 / a)); [nia|]. apply Z.mul_div_le. lia. }
    rewrite (proj2 (Z.leb_le _ _)) by done. by rewrite mul64_small by ulia.
Qed.
Lemma CheckedMul_Some a b c : is_u64 a -> is_u64 b ->
  CheckedMul a b = Some c -> c = a * b /\ is_u64 c.
Proof. intros Ha Hb. rewrite CheckedMul_spec by done. intros H. run H. ulia. Qed.

(** The number of thousandths-of-a-denominator an accumulator stands for. *)
Definition rent_units (a : StorageRentAccumulator) : Z :=
  cybou a * STORAGE_RENT_DENOMINATOR + remainder a.
Definition accumulator_wf (a : StorageRentAccumulator) : Prop :=
  is_u64 (cybou a) /\ 0 <= remainder a < STORAGE_RENT_DENOMINATOR.

Lemma accumulator_unique a b : accumulator_wf a -> accumulator_wf b -> rent_units a = rent_units b -> a = b.
Proof.
  unfold accumulator_wf, rent_units. rewrite DENOMINATOR_eq. destruct a, b; simpl.
  intros. f_equal; lia.
Qed.

Lemma AccrueStorageRent_spec a units seconds replicas :
  accumulator_wf a -> is_u64 units -> is_u64 seconds -> is_u64 replicas ->
  match AccrueStorageRent a units seconds replicas with
  | Some a' => accumulator_wf a' /\ rent_units a' = rent_units a + units * seconds * replicas * 5
  | None => MAX64 < units * seconds \/ MAX64 < units * seconds * replicas * 5 \/
      MAX64 < (rent_units a + units * seconds * replicas * 5) / STORAGE_RENT_DENOMINATOR
  end.
Proof.
  intros [Hc Hr] Hu Hs Hp. unfold AccrueStorageRent, rent_units.
  change STORAGE_RATE_CYBOU_PER_GIB_DAY_REPLICA with 5. rewrite DENOMINATOR_eq in *.
  rewrite (proj2 (Z.leb_gt _ _)) by lia.
  rewrite CheckedMul_spec by done. destruct (Z.leb_spec (units * seconds) MAX64); [|lia].
  assert (Hus : is_u64 (units * seconds)) by ulia.
  rewrite CheckedMul_spec by done.
  destruct (Z.leb_spec (units * seconds * replicas) MAX64); [|ulia].
  assert (Husr : is_u64 (units * seconds * replicas)) by ulia.
  rewrite CheckedMul_spec by (done || ulia).
  destruct (Z.leb_spec (units * seconds * replicas * 5) MAX64); [|lia].
  set (n := units * seconds * replicas * 5) in *. assert (Hn : is_u64 n) by (unfold n; ulia).
  clearbody n. clear Hus Husr Hu Hs Hp.
  rewrite (add64_small (n mod _)) by dlia.
  set (c := (n mod 176947200 + remainder a) / 176947200).
  assert (Hcar : 0 <= c <= 1) by (unfold c; dlia).
  rewrite (sub64_small MAX64 c) by ulia.
  rewrite (sub64_small MAX64 (n / _)) by dlia.
  rewrite (proj2 (Z.ltb_ge _ (n / _))) by dlia. simpl orb.
  rewrite sub64_small by dlia.
  destruct (_ <? cybou a) eqn:Hov; [right; right; unfold c in *; dlia|].
  rewrite (add64_small (n / _)) by dlia. rewrite add64_small by dlia.
  unfold accumulator_wf. rewrite DENOMINATOR_eq. simpl. unfold c in *. dlia.
Qed.

(** Rent is accrued exactly: no fraction is lost or invented, the
    remainder stays below the denominator, and the call fails only when a
    product or the accumulated amount does not fit in 64 bits. *)
Theorem AccrueStorageRent_exact a units seconds replicas :
  accumulator_wf a -> is_u64 units -> is_u64 seconds -> is_u64 replicas ->
  match AccrueStorageRent a units seconds replicas with
  | Some a' => accumulator_wf a' /\ rent_units a' = rent_units a + units * seconds * replicas * 5
  | None => MAX64 < units * seconds \/ MAX64 < units * seconds * replicas * 5 \/
      MAX64 < (rent_units a + units * seconds * replicas * 5) / STORAGE_RENT_DENOMINATOR
  end.
Proof. apply AccrueStorageRent_spec. Qed.

(** How an interval is cut does not change the rent: accruing [s1] and
    then [s2] seconds leaves the accumulator that accruing [s1 + s2] leaves. *)
Theorem AccrueStorageRent_split a a1 a2 units s1 s2 replicas :
  accumulator_wf a -> is_u64 units -> is_u64 s1 -> is_u64 s2 -> is_u64 replicas ->
  AccrueStorageRent a units s1 replicas = Some a1 ->
  AccrueStorageRent a1 units s2 replicas = Some a2 ->
  is_u64 (s1 + s2) -> units * (s1 + s2) * replicas * 5 <= MAX64 -> units * (s1 + s2) <= MAX64 ->
  AccrueStorageRent a units (s1 + s2) replicas = Some a2.
Proof.
  intros Ha Hu H1 H2 Hr E1 E2 Hs Hfit Hfit'.
  pose proof (AccrueStorageRent_spec a units s1 replicas Ha Hu H1 Hr) as S1.
  rewrite E1 in S1. destruct S1 as [Ha1 S1].
  pose proof (AccrueStorageRent_spec a1 units s2 replicas Ha1 Hu H2 Hr) as S2.
  rewrite E2 in S2. destruct S2 as [Ha2 S2].
  assert (Hsum : rent_units a + units * (s1 + s2) * replicas * 5 = rent_units a2) by lia.
  pose proof (AccrueStorageRent_spec a units (s1 + s2) replicas Ha Hu Hs Hr) as S.
  destruct (AccrueStorageRent a units (s1 + s2) replicas) as [a'|].
  - destruct S as [Ha' S]. f_equal. apply accumulator_unique; [done..|lia].
  - rewrite Hsum in S. unfold accumulator_wf, rent_units in *. rewrite DENOMINATOR_eq in *.
    destruct S as [S|[S|S]]; dlia.
Qed.

Lemma AccrueStorageRent_split_witness :
  AccrueStorageRent (mkAccumulator 7 3) 4096 (100 + 86300) 2 = Some (mkAccumulator 27 3).
Proof.
  apply (AccrueStorageRent_split (mkAccumulator 7 3) (mkAccumulator 7 4096003) (mkAccumulator 27 3) 4096 100 86300 2);
    [split; [split; discriminate|split; [discriminate|reflexivity]]
    |split; discriminate..|reflexivity|reflexivity|split; discriminate|discriminate|discriminate].
Defined.

Lemma AccrueStorageRent_exact_witness :
  accumulator_wf (mkAccumulator 27 3) /\
  rent_units (mkAccumulator 27 3) = rent_units (mkAccumulator 7 3) + 4096 * 86400 * 2 * 5.
Proof.
  apply (AccrueStorageRent_exact (mkAccumulator 7 3) 4096 86400 2);
    [split; [split; discriminate|split; [discriminate|reflexivity]]|split; discriminate..].
Defined.

(** ** Budgets and payouts *)

(** Rounding up, as a definition independent of the code's form of it. *)
Definition cdiv (n d : Z) : Z := - ((- n) / d).

Lemma cdiv_b2z n d : 0 < d -> cdiv n d = n / d + Z.b2z (negb (n mod d =? 0)).
Proof.
  intros Hd. unfold cdiv. pose proof (Z.div_mod n d ltac:(lia)) as E.
  pose proof (Z.mod_pos_bound n d Hd) as Hm.
  destruct (Z.eqb_spec (n mod d) 0) as [H0|H0]; simpl.
  - rewrite Z.div_opp_l_z by lia. lia.
  - rewrite Z.div_opp_l_nz by lia. lia.
Qed.
Lemma cdiv_bounds n d : 0 < d -> n <= d * cdiv n d < n + d.
Proof.
  intros Hd. unfold cdiv. pose proof (Z.div_mod (- n) d ltac:(lia)).
  pose proof (Z.mod_pos_bound (- n) d Hd). nia.
Qed.

(** A budget is computed for exactly the non-zero terms whose amounts fit
    in 64 bits; the share of a replica is the contracted rent rounded up and
    the total is the shares of all replicas, computed without overflow. *)
Theorem ComputeAssignedStorageBudget_correct units replicas periods period_seconds rate :
  is_u64 units -> is_u64 replicas -> is_u64 periods -> is_u64 period_seconds -> is_u64 rate ->
  let unit_seconds := units * (periods * period_seconds) in
  let share := cdiv (unit_seconds * rate) STORAGE_RENT_DENOMINATOR in
  ComputeAssignedStorageBudget units replicas periods period_seconds rate =
    if decide (0 < unit_seconds * replicas * rate /\ unit_seconds <= MAX64 /\ share * replicas <= MAX64)
    then Some (mkBudget share (share * replicas) unit_seconds) else None.
Proof.
  intros Hu Hr Hp Hps Hra us share. unfold ComputeAssignedStorageBudget.
  destruct (_ || _ || _ || _ || _) eqn:Hz.
  { rewrite decide_False; [done|]. intros [H _].
    assert (units <> 0 /\ replicas <> 0 /\ periods <> 0 /\ period_seconds <> 0 /\ rate <> 0); [|lia].
    unfold us in H. split_and!; intros ->; lia. }
  assert (Hpos : 0 < units /\ 0 < replicas /\ 0 < periods /\ 0 < period_seconds /\ 0 < rate) by ulia.
  clear Hz. assert (Hps0 : 0 < periods * period_seconds) by nia.
  assert (Hus0 : 0 < us) by (unfold us; nia).
  rewrite CheckedMul_spec by done.
  destruct (Z.leb_spec (periods * period_seconds) MAX64) as [Hs|Hs].
  2: { rewrite decide_False; [done|]. unfold us. intros (_ & H & _). nia. }
  rewrite CheckedMul_spec by ulia. fold us.
  destruct (Z.leb_spec us MAX64) as [Hs'|Hs']; [|rewrite decide_False; [done|lia]].
  assert (Hn : 0 < us * rate <= 18446744073709551615 * 18446744073709551615) by (uint_unfold; nia).
  rewrite (wrap128_small (us * rate)) by lia. rewrite <- cdiv_b2z by done. fold share.
  pose proof (cdiv_bounds (us * rate) STORAGE_RENT_DENOMINATOR eq_refl) as Hc. fold share in Hc.
  rewrite DENOMINATOR_eq in Hc. rewrite wrap128_small by nia.
  destruct (Z.ltb_spec MAX64 share) as [Hsh|Hsh].
  { rewrite decide_False; [done|]. intros (_ & _ & H). nia. }
  rewrite wrap64_small by ulia. rewrite CheckedMul_spec by ulia.
  destruct (Z.leb_spec (share * replicas) MAX64).
  - rewrite decide_True; [done|]. split_and!; [nia|done..].
  - rewrite decide_False; [done|lia].
Qed.

Lemma ComputeAssignedStorageBudget_correct_witness :
  ComputeAssignedStorageBudget 3 2 7 86400 5 = Some (mkBudget 1 2 1814400).
Proof.
  rewrite (ComputeAssignedStorageBudget_correct 3 2 7 86400 5) by (split; discriminate). reflexivity.
Defined.

(** What one replica has earned after [verified] unit-seconds. *)
Definition entitlement (b : AssignedStorageBudget) (verified : Z) : Z :=
  per_replica b * verified / contracted_unit_seconds b.
Definition budget_wf (b : AssignedStorageBudget) : Prop :=
  0 < per_replica b <= MAX64 /\ 0 < contracted_unit_seconds b <= MAX64 /\
  is_u64 (total b) /\ exists n, 0 < n /\ total b = per_replica b * n.

Lemma entitlement_bounds b v : budget_wf b -> 0 <= v <= contracted_unit_seconds b ->
  0 <= entitlement b v <= per_replica b.
Proof.
  intros (Hp & Hc & _) Hv. unfold entitlement. split; [apply Z.div_pos; nia|].
  apply Z.div_le_upper_bound; nia.
Qed.
Lemma entitlement_mono b v w : budget_wf b -> v <= w -> entitlement b v <= entitlement b w.
Proof. intros (Hp & Hc & _) Hv. apply Z.div_le_mono; nia. Qed.
Lemma entitlement_full b : budget_wf b -> entitlement b (contracted_unit_seconds b) = per_replica b.
Proof. intros (Hp & Hc & _). apply Z.div_mul. lia. Qed.

Lemma ComputeAssignedStoragePayout_spec b v paid :
  budget_wf b -> 0 <= v <= contracted_unit_seconds b -> 0 <= paid ->
  ComputeAssignedStoragePayout b v paid =
    if entitlement b v <? paid then None else Some (entitlement b v - paid).
Proof.
  intros Hb Hv Hpaid. pose proof (entitlement_bounds b v Hb Hv) as He.
  destruct Hb as (Hp & Hc & Ht & n & Hn & Htot). unfold ComputeAssignedStoragePayout.
  rewrite (proj2 (Z.eqb_neq _ _)), (proj2 (Z.eqb_neq _ _)) by lia.
  rewrite (proj2 (Z.ltb_ge (total b) _)) by nia.
  rewrite Htot, Z.mul_comm, Z.mod_mul, (proj2 (Z.ltb_ge _ v)) by lia. simpl.
  rewrite wrap128_small by (uint_unfold; nia). fold (entitlement b v).
  rewrite wrap64_small by ulia. case_match; [done|]. rewrite sub64_small by ulia. done.
Qed.

(** Successive payouts of one replica: each reading of the verified
    unit-seconds pays [ComputeAssignedStoragePayout] on top of what the
    earlier ones paid. *)
Fixpoint pay_readings (b : AssignedStorageBudget) (paid : Z) (readings : list Z) : option Z :=
  match readings with
  | [] => Some paid
  | v :: rest =>
      let? amount := ComputeAssignedStoragePayout b v paid else None ;;
      pay_readings b (paid + amount) rest
  end.

Lemma pay_readings_spec b v0 vs :
  budget_wf b -> 0 <= v0 -> StronglySorted Z.le (v0 :: vs) ->
  Forall (fun v => v <= contracted_unit_seconds b) (v0 :: vs) ->
  pay_readings b (entitlement b v0) vs = Some (entitlement b (List.last vs v0)).
Proof.
  intros Hb. revert v0. induction vs as [|v vs IH]; intros v0 H0 Hs Hle; [done|].
  inversion Hs as [|? ? Hs' Hall]; subst. inversion Hle as [|? ? Hle0 Hle']; subst.
  inversion Hall; inversion Hle'; subst. simpl.
  pose proof (entitlement_bounds b v0 Hb ltac:(lia)).
  pose proof (entitlement_mono b v0 v Hb ltac:(done)).
  rewrite ComputeAssignedStoragePayout_spec by (done || lia).
  rewrite (proj2 (Z.ltb_ge _ _)) by lia.
  replace (entitlement b v0 + _) with (entitlement b v) by lia.
  rewrite IH by (done || lia). f_equal. f_equal. clear. destruct vs as [|w vs]; [done|].
  revert w. by induction vs as [|w' vs IH]; intros w; [|apply (IH w')].
Qed.

(** C38: payouts telescope: whatever the sequence of non-decreasing readings,
    every payout succeeds, the sum paid is the entitlement of the last
    reading, it never exceeds the share of the replica, and a replica verified
    for the whole term is paid its share exactly. *)
Theorem ComputeAssignedStoragePayout_telescopes b vs :
  budget_wf b -> StronglySorted Z.le (0 :: vs) ->
  Forall (fun v => v <= contracted_unit_seconds b) (0 :: vs) ->
  exists paid, pay_readings b 0 vs = Some paid /\ 0 <= paid <= per_replica b /\
    paid = per_replica b * List.last vs 0 / contracted_unit_seconds b /\
    (List.last vs 0 = contracted_unit_seconds b -> paid = per_replica b).
Proof.
  intros Hb Hs Hle. exists (entitlement b (List.last vs 0)).
  assert (E0 : entitlement b 0 = 0) by (unfold entitlement; by rewrite Z.mul_0_r, Zdiv_0_l).
  assert (Hlast : 0 <= List.last vs 0 <= contracted_unit_seconds b).
  { destruct (exists_last (l := 0 :: vs)) as (l & x & E); [done|].
    assert (List.last vs 0 = x) as ->.
    { change (List.last vs 0) with (List.last vs 0). transitivity (List.last (0 :: vs) 0); [by destruct vs|].
      rewrite E. apply last_last. }
    assert (x ∈ 0 :: vs) as Hx by (rewrite E; set_solver).
    rewrite Forall_forall in Hle. split; [|by apply Hle].
    inversion Hs as [|? ? _ Hall]; subst. apply elem_of_cons in Hx as [->|Hx]; [done|].
    rewrite Forall_forall in Hall. by apply Hall. }
  split_and!.
  - rewrite <- E0 at 1. by apply pay_readings_spec.
  - by apply entitlement_bounds.
  - by apply entitlement_bounds.
  - done.
  - intros ->. by apply entitlement_full.
Qed.

Lemma ComputeAssignedStoragePayout_telescopes_witness :
  exists paid, pay_readings (mkBudget 10 20 7) 0 [2; 2; 5; 7] = Some paid /\ paid = 10.
Proof.
  destruct (ComputeAssignedStoragePayout_telescopes (mkBudget 10 20 7) [2; 2; 5; 7]) as (paid & E & _ & _ & F).
  - unfold budget_wf, is_u64, MAX64. simpl. do 3 (split; [lia|]). exists 2. lia.
  - repeat constructor; lia.
  - repeat constructor; discriminate.
  - exists paid. split; [exact E|]. exact (F eq_refl).
Defined.
