(* ===== verification/Crypto.v ===== *)
(** * The cryptographic interface and identity keys

    OpenSSL and BLAKE3 are not part of the repository: their primitives are
    the fields of the class [CryptoOps]. On top of them this file models what
    [src/src/cybou/identity_crypto.cpp], [identity_kem.cpp] and
    [crypto/sha256.cpp] do themselves: key suites and sizes, key identifiers,
    hybrid signature verification and the KEM package. *)

From S2P Require Import Prelude.
From S2P Require Import Bytes.
From S2P Require Import Codec.

(** ** Primitives *)

Class CryptoOps : Type := {
  (** SHA-256 of a byte string through EVP; [None] when the provider fails. *)
  evp_sha256 : bytes -> option (arr 32);
  (** BLAKE3 with the default output length. *)
  blake3 : bytes -> arr 32;
  (** [EVP_PKEY_new_raw_public_key_ex] accepts the key. *)
  evp_raw_public_key : bytes -> bytes -> bool;
  (** [EVP_DigestVerify]: algorithm, public key, signature, message. *)
  evp_digest_verify : bytes -> bytes -> bytes -> bytes -> bool;
  (** X25519 [EVP_PKEY_derive]: private key, public key. *)
  evp_x25519_derive : bytes -> bytes -> option (arr 32);
}.

(** [crypto::ComputeSha256]: the parts are hashed in order; the [Sha256] class
    is the same computation with an exception on failure. *)
Definition ComputeSha256 `{CryptoOps} (parts : list bytes) : option (arr 32) := evp_sha256 (mjoin parts).
Definition Sha256 `{CryptoOps} (parts : list bytes) : outcome (arr 32) := or_throw (ComputeSha256 parts).

(** ** Proof of work

    The number of leading zero bits of a digest, counted byte by byte with
    [std::countl_zero]. *)

Definition countl_zero (b : byte) : Z := if zb b =? 0 then 8 else 7 - Z.log2 (zb b).
Fixpoint leading_zero_bits (digest : bytes) : Z :=
  match digest with
  | [] => 0
  | b :: rest => if zb b =? 0 then 8 + leading_zero_bits rest else countl_zero b
  end.
Definition HasWork (digest : bytes) (required_bits : Z) : bool :=
  if 256 <? required_bits then false else required_bits <=? leading_zero_bits digest.

(** ** Keys *)

Inductive IdentityKeyPurpose : Type :=
| RECOVERY_ROOT | AUTHORIZATION | POA_FINALIZER | STORAGE | NETWORK_ROOT.
#[export] Instance IdentityKeyPurpose_eq_dec : EqDecision IdentityKeyPurpose.
Proof. solve_decision. Defined.

Record IdentityHybridPublicKey : Type := mkPublicKey {
  purpose : IdentityKeyPurpose;
  pk_ed25519 : arr 32;
  pk_ml_dsa : bytes;
}.
Record IdentityHybridSignature : Type := mkSignature {
  sig_ed25519 : arr 64;
  sig_ml_dsa : bytes;
}.
#[export] Instance IdentityHybridPublicKey_eq_dec : EqDecision IdentityHybridPublicKey.
Proof. solve_decision. Defined.
#[export] Instance IdentityHybridSignature_eq_dec : EqDecision IdentityHybridSignature.
Proof. solve_decision. Defined.

Abbreviation IdentityKeyId := (arr 32%N).

Definition Algorithm (p : IdentityKeyPurpose) : bytes :=
  match p with
  | RECOVERY_ROOT => str "ML-DSA-65"
  | AUTHORIZATION | STORAGE => str "ML-DSA-44"
  | POA_FINALIZER | NETWORK_ROOT => str "ML-DSA-65"
  end.
Definition PublicSize (p : IdentityKeyPurpose) : Z :=
  if bool_decide (p = AUTHORIZATION) || bool_decide (p = STORAGE) then 1312 else 1952.
Definition SignatureSize (p : IdentityKeyPurpose) : Z :=
  if bool_decide (p = AUTHORIZATION) || bool_decide (p = STORAGE) then 2420 else 3309.

Section keys.
Context `{CryptoOps}.

(** The file-local [Verify]; the public-key cache it consults only memoises
    [EVP_PKEY_new_raw_public_key_ex]. *)
Definition Verify (algorithm public_key signature message : bytes) : bool :=
  evp_raw_public_key algorithm public_key && evp_digest_verify algorithm public_key signature message.

Definition VerifyIdentityMessage (key : IdentityHybridPublicKey) (signature : IdentityHybridSignature)
    (message : bytes) : bool :=
  let algorithm := Algorithm (purpose key) in
  return_if negb (zlen (pk_ml_dsa key) =? PublicSize (purpose key))
    || negb (zlen (sig_ml_dsa signature) =? SignatureSize (purpose key)) with false ;;
  Verify (str "ED25519") (arr_val (pk_ed25519 key)) (arr_val (sig_ed25519 signature)) message
  && Verify algorithm (pk_ml_dsa key) (sig_ml_dsa signature) message.

(** The shape checks every key id starts with. *)
Definition key_usable (p : IdentityKeyPurpose) (key : IdentityHybridPublicKey) : bool :=
  bool_decide (purpose key = p) && (zlen (pk_ml_dsa key) =? PublicSize p)
  && has_nonzero (arr_val (pk_ed25519 key)) && has_nonzero (pk_ml_dsa key).

Definition ComputeRecoveryKeyId (recovery_key : IdentityHybridPublicKey) : option IdentityKeyId :=
  return_if negb (key_usable RECOVERY_ROOT recovery_key) with None ;;
  ComputeSha256 [str "CYBOU/RECOVERY-KEY-ID"; [bz 1]; arr_val (pk_ed25519 recovery_key); pk_ml_dsa recovery_key].
Definition ComputeAuthorizationKeyId (authorization_key : IdentityHybridPublicKey) : option IdentityKeyId :=
  return_if negb (key_usable AUTHORIZATION authorization_key) with None ;;
  ComputeSha256 [str "CYBOU/IDENTITY-AUTH-KEY-ID"; [bz 2; bz 1];
    arr_val (pk_ed25519 authorization_key); pk_ml_dsa authorization_key].
Definition ComputePoaFinalizerKeyId (poa_finalizer_key : IdentityHybridPublicKey) : option IdentityKeyId :=
  return_if negb (key_usable POA_FINALIZER poa_finalizer_key) with None ;;
  ComputeSha256 [str "CYBOU/POA-FINALIZER-KEY-ID"; arr_val (pk_ed25519 poa_finalizer_key); pk_ml_dsa poa_finalizer_key].

(** ** The KEM package *)

Definition XWING_PUBLIC_KEY_SIZE : Z := 1216.
Definition ML_KEM_768_PUBLIC_KEY_SIZE : Z := 1184.
Definition X25519_PUBLIC_KEY_SIZE : Z := 32.
Definition IDENTITY_KEM_PROFILE_XWING : Z := 0x647a.
Definition IDENTITY_KEM_PACKAGE_SIZE : Z := 2 + XWING_PUBLIC_KEY_SIZE.

Definition X25519SharedSecret (private_key public_key : bytes) : option (arr 32) :=
  return_if all_zero private_key || all_zero public_key with None ;;
  return_if negb (evp_raw_public_key (str "X25519") public_key) with None ;;
  let? secret := evp_x25519_derive private_key public_key else None ;;
  return_if all_zero (arr_val secret) with None ;;
  Some secret.

Definition DecodeIdentityKemPackage (package : bytes) : option bytes :=
  return_if negb (zlen package =? IDENTITY_KEM_PACKAGE_SIZE)
    || negb (bool_decide (package !! 0%nat = Some (bz IDENTITY_KEM_PROFILE_XWING)))
    || negb (bool_decide (package !! 1%nat = Some (bz (Z.shiftr IDENTITY_KEM_PROFILE_XWING 8)))) with None ;;
  let public_key := subspan package 2 XWING_PUBLIC_KEY_SIZE in
  let pq_public := subspan public_key 0 ML_KEM_768_PUBLIC_KEY_SIZE in
  let classical_public := subspan public_key ML_KEM_768_PUBLIC_KEY_SIZE X25519_PUBLIC_KEY_SIZE in
  return_if all_zero pq_public || all_zero classical_public with None ;;
  return_if negb (evp_raw_public_key (str "ML-KEM-768") pq_public)
    || negb (evp_raw_public_key (str "X25519") classical_public) with None ;;
  let? _ := X25519SharedSecret (replicate 32 (bz 0x42)) classical_public else None ;;
  Some public_key.

Definition EncodeIdentityKemPackage (public_key : bytes) : option bytes :=
  return_if all_zero public_key with None ;;
  let package := [bz IDENTITY_KEM_PROFILE_XWING; bz (Z.shiftr IDENTITY_KEM_PROFILE_XWING 8)] ++ public_key in
  let? _ := DecodeIdentityKemPackage package else None ;;
  Some package.

Definition ComputeIdentityKemPackageCommitment (network_binding account_id : arr 32) (key_epoch : Z)
    (package : bytes) : option IdentityKeyId :=
  return_if IsNull network_binding || IsNull account_id with None ;;
  let? _ := DecodeIdentityKemPackage package else None ;;
  ComputeSha256 [str "CYBOU/IDENTITY-KEM-PACKAGE"; [bz 0]; arr_val network_binding; arr_val account_id;
    le_bytes 8 key_epoch; le_bytes 2 (wrap16 (zlen package)); package].

(** ** Lemmas *)

Lemma key_usable_inv p key : key_usable p key = true ->
  purpose key = p /\ zlen (pk_ml_dsa key) = PublicSize p /\
  has_nonzero (arr_val (pk_ed25519 key)) = true /\ has_nonzero (pk_ml_dsa key) = true.
Proof.
  unfold key_usable. intros (((H1 & H2)%andb_prop & H3)%andb_prop & H4)%andb_prop.
  apply bool_decide_eq_true in H1. apply Z.eqb_eq in H2. done.
Qed.
Lemma ComputeRecoveryKeyId_usable key id :
  ComputeRecoveryKeyId key = Some id -> key_usable RECOVERY_ROOT key = true.
Proof. unfold ComputeRecoveryKeyId. intros E. by destruct (key_usable _ _). Qed.
Lemma ComputeAuthorizationKeyId_usable key id :
  ComputeAuthorizationKeyId key = Some id -> key_usable AUTHORIZATION key = true.
Proof. unfold ComputeAuthorizationKeyId. intros E. by destruct (key_usable _ _). Qed.
Lemma DecodeIdentityKemPackage_size package key :
  DecodeIdentityKemPackage package = Some key -> zlen package = IDENTITY_KEM_PACKAGE_SIZE.
Proof. unfold DecodeIdentityKemPackage. intros E. run_step E. lia. Qed.

Lemma Decode_EncodeIdentityKemPackage public_key package :
  zlen public_key = XWING_PUBLIC_KEY_SIZE ->
  EncodeIdentityKemPackage public_key = Some package ->
  DecodeIdentityKemPackage package = Some public_key.
Proof.
  intros Hl E. unfold EncodeIdentityKemPackage in E. run_step E.
  destruct (DecodeIdentityKemPackage _) as [k|] eqn:D; [|done]. injection E as <-. rewrite D. f_equal.
  unfold DecodeIdentityKemPackage in D. run D.
  etransitivity; [exact (subspan_skip [_; _] public_key 2 XWING_PUBLIC_KEY_SIZE ltac:(done))|]. by apply subspan_all.
Qed.
End keys.
