(* ===== verification/Identity.v ===== *)
(** * Identities: authorizations, account creation and the registry

    Models [src/src/cybou/identity_authorization.cpp] (the published key
    pair), [account_creation.cpp] (the account creation request and its
    validation) and [identity_registry.cpp] (the registry every authorized
    operation goes through). *)

From S2P Require Import Prelude.
From S2P Require Import Bytes.
From S2P Require Import Codec.
From S2P Require Import Params.
From S2P Require Import Crypto.

(** ** [IdentityAuthorization] *)

Definition ROOT_PQ_SIZE : Z := 1952.
Definition AUTHORIZATION_PQ_SIZE : Z := 1312.
Definition IDENTITY_AUTHORIZATION_SIZE : Z := 3330.

Record IdentityAuthorization : Type := mkAuthorization {
  recovery_root : IdentityHybridPublicKey;
  authorization_key : IdentityHybridPublicKey;
}.

Definition Authorization_Valid (auth : IdentityAuthorization) : bool :=
  bool_decide (purpose (recovery_root auth) = RECOVERY_ROOT)
  && bool_decide (purpose (authorization_key auth) = AUTHORIZATION)
  && (zlen (pk_ml_dsa (recovery_root auth)) =? ROOT_PQ_SIZE)
  && (zlen (pk_ml_dsa (authorization_key auth)) =? AUTHORIZATION_PQ_SIZE)
  && has_nonzero (arr_val (pk_ed25519 (recovery_root auth))) && has_nonzero (pk_ml_dsa (recovery_root auth))
  && has_nonzero (arr_val (pk_ed25519 (authorization_key auth)))
  && has_nonzero (pk_ml_dsa (authorization_key auth))
  && negb (bool_decide (pk_ed25519 (recovery_root auth) = pk_ed25519 (authorization_key auth))).

(** The cursor of the source ends at [1 + 32 + 1952 + 1 + 32 + 1312 = 3330],
    the size of the array, so its last check never fails. *)
Definition SerializeIdentityAuthorization (auth : IdentityAuthorization) : option bytes :=
  return_if negb (Authorization_Valid auth) with None ;;
  Some (le_bytes 1 1 ++ arr_val (pk_ed25519 (recovery_root auth)) ++ pk_ml_dsa (recovery_root auth)
        ++ le_bytes 1 1 ++ arr_val (pk_ed25519 (authorization_key auth)) ++ pk_ml_dsa (authorization_key auth)).

Definition DeserializeIdentityAuthorization (l : bytes) : option IdentityAuthorization :=
  return_if negb (zlen l =? IDENTITY_AUTHORIZATION_SIZE)
    || negb (bool_decide (subspan l 0 1 = le_bytes 1 1))
    || negb (bool_decide (subspan l (1 + 32 + ROOT_PQ_SIZE) 1 = le_bytes 1 1)) with None ;;
  let auth := mkAuthorization
    (mkPublicKey RECOVERY_ROOT (arr_of 32 (subspan l 1 32)) (subspan l 33 ROOT_PQ_SIZE))
    (mkPublicKey AUTHORIZATION (arr_of 32 (subspan l (34 + ROOT_PQ_SIZE) 32))
      (subspan l (66 + ROOT_PQ_SIZE) (zlen l - (66 + ROOT_PQ_SIZE)))) in
  return_if negb (Authorization_Valid auth) with None ;;
  Some auth.

(** ** [AccountCreateOp] *)

Definition ACCOUNT_CREATE_WORK_SIZE : Z := 112.
Definition ROOT_SIG_SIZE : Z := 3309.
Definition AUTHORIZATION_SIG_SIZE : Z := 2420.
Definition ACCOUNT_CREATE_SIZE : Z :=
  32 + IDENTITY_AUTHORIZATION_SIZE + IDENTITY_KEM_PACKAGE_SIZE + ACCOUNT_CREATE_WORK_SIZE + 64 + 3309 + 64 + 2420.

Record AccountCreationWork : Type := mkWork {
  work_network_binding : Hash256;
  work_account_id : AccountId;
  authorization_commitment : arr 32;
  work_epoch : Z;
  work_nonce : Z;
}.
Record AccountCreateOp : Type := mkAccountCreate {
  ac_account_id : AccountId;
  ac_authorization : IdentityAuthorization;
  ac_kem_package : arr 1218;
  ac_work : AccountCreationWork;
  ac_recovery_pop : IdentityHybridSignature;
  ac_authorization_pop : IdentityHybridSignature;
}.

Inductive AccountCreateError : Type :=
| AC_NONE | AC_INVALID_FORMAT | AC_NULL_ACCOUNT_ID | AC_NETWORK_MISMATCH | AC_ACCOUNT_ID_MISMATCH
| AC_COMMITMENT_MISMATCH | AC_FUTURE_WORK_EPOCH | AC_EXPIRED_WORK_EPOCH | AC_INSUFFICIENT_WORK
| AC_INVALID_RECOVERY_POP | AC_INVALID_AUTHORIZATION_POP.
#[export] Instance AccountCreateError_eq_dec : EqDecision AccountCreateError.
Proof. solve_decision. Defined.

(** ** The registry *)

Record IdentityRecord : Type := mkIdentityRecord {
  ir_recovery_key : IdentityHybridPublicKey;
  ir_authorization_key : IdentityHybridPublicKey;
  ir_kem_package_id : arr 32;
  ir_nonce : Z;
  ir_key_epoch : Z;
}.

Record IdentityRotate : Type := mkIdentityRotate {
  rot_account_id : AccountId;
  new_recovery_key : IdentityHybridPublicKey;
  new_authorization_key : IdentityHybridPublicKey;
  new_kem_package : arr 1218;
  rot_nonce : Z;
  rot_key_epoch : Z;
  old_recovery_signature : IdentityHybridSignature;
  new_recovery_pop : IdentityHybridSignature;
  new_authorization_pop : IdentityHybridSignature;
}.

Inductive IdentityOperationKind : Type :=
| KIND_PAYMENT | KIND_SYSTEM_LOCK | KIND_NAME_COMMIT | KIND_NAME_REVEAL | KIND_ROOT_PUBLICATION
| KIND_REVOKE_PUBLICATION | KIND_STORAGE_LEASE.
#[export] Instance IdentityOperationKind_eq_dec : EqDecision IdentityOperationKind.
Proof. solve_decision. Defined.
Definition kind_value (k : IdentityOperationKind) : Z :=
  match k with
  | KIND_PAYMENT => 1 | KIND_SYSTEM_LOCK => 2 | KIND_NAME_COMMIT => 3 | KIND_NAME_REVEAL => 4
  | KIND_ROOT_PUBLICATION => 5 | KIND_REVOKE_PUBLICATION => 6 | KIND_STORAGE_LEASE => 7
  end.

Record IdentityOperationAuthorization : Type := mkOpAuth {
  oa_account_id : AccountId;
  oa_nonce : Z;
  oa_key_epoch : Z;
  oa_kind : IdentityOperationKind;
  oa_payload_commitment : IdentityKeyId;
  oa_signature : IdentityHybridSignature;
}.

Inductive IdentityRegistryError : Type :=
| IR_NONE | IR_INVALID_CREATE | IR_ACCOUNT_EXISTS | IR_RECOVERY_KEY_EXISTS | IR_ACCOUNT_NOT_FOUND
| IR_INVALID_KEY | IR_BAD_NONCE | IR_NONCE_EXHAUSTED | IR_INVALID_SIGNATURE | IR_INVALID_PAYLOAD.
#[export] Instance IdentityRegistryError_eq_dec : EqDecision IdentityRegistryError.
Proof. solve_decision. Defined.

Record IdentityRegistry : Type := mkIdentityRegistry {
  m_accounts : gmap AccountId IdentityRecord;
  m_recovery_index : gmap IdentityKeyId AccountId;
}.
Definition FindByRecoveryKeyId (r : IdentityRegistry) (id : IdentityKeyId) : option AccountId :=
  m_recovery_index r !! id.
Definition Find (r : IdentityRegistry) (id : AccountId) : option IdentityRecord := m_accounts r !! id.

Section identity.
Context `{CryptoOps}.

Definition ComputeIdentityAuthorizationCommitment (auth : IdentityAuthorization) : option (arr 32) :=
  let? l := SerializeIdentityAuthorization auth else None ;;
  ComputeSha256 [str "CYBOU/IDENTITY-AUTH-COMMIT"; l].

Definition SerializeAccountCreationWork (work : AccountCreationWork) : option bytes :=
  return_if IsNull (work_network_binding work) || IsNull (work_account_id work) with None ;;
  Some (arr_val (work_network_binding work) ++ arr_val (work_account_id work)
        ++ arr_val (authorization_commitment work) ++ le_bytes 8 (work_epoch work) ++ le_bytes 8 (work_nonce work)).

(** [HashWithDomain] of the source. *)
Definition HashWithDomain (domain l : bytes) : option (arr 32) := ComputeSha256 [domain; l].

Definition ComputeAccountCreateWorkHash (work : AccountCreationWork) : option (arr 32) :=
  let? l := SerializeAccountCreationWork work else None ;;
  HashWithDomain (str "CYBOU/ACCOUNT-CREATE-WORK") l.

Definition ComputeAccountCreateAuthorizationCommitment (auth : IdentityAuthorization)
    (kem_package_id : arr 32) : option (arr 32) :=
  let? auth_commitment := ComputeIdentityAuthorizationCommitment auth else None ;;
  return_if all_zero (arr_val kem_package_id) with None ;;
  ComputeSha256 [str "CYBOU/ACCOUNT-AUTHORIZATION"; arr_val auth_commitment; arr_val kem_package_id].

Definition ComputeAccountCreatePopDigest (network_binding : Hash256) (account_id : AccountId)
    (auth : IdentityAuthorization) (kem_package_id : arr 32) : option (arr 32) :=
  return_if IsNull network_binding || IsNull account_id with None ;;
  let? commitment := ComputeAccountCreateAuthorizationCommitment auth kem_package_id else None ;;
  HashWithDomain (str "CYBOU/ACCOUNT-POP")
    (arr_val network_binding ++ arr_val account_id ++ arr_val commitment).

Definition ValidSignatures (op : AccountCreateOp) : bool :=
  (zlen (sig_ml_dsa (ac_recovery_pop op)) =? ROOT_SIG_SIZE)
  && (zlen (sig_ml_dsa (ac_authorization_pop op)) =? AUTHORIZATION_SIG_SIZE).

Definition SerializeAccountCreateOp (op : AccountCreateOp) : option bytes :=
  let? auth := SerializeIdentityAuthorization (ac_authorization op) else None ;;
  let? work := SerializeAccountCreationWork (ac_work op) else None ;;
  let? _ := DecodeIdentityKemPackage (arr_val (ac_kem_package op)) else None ;;
  return_if IsNull (ac_account_id op) || negb (ValidSignatures op) with None ;;
  Some (arr_val (ac_account_id op) ++ auth ++ arr_val (ac_kem_package op) ++ work
        ++ arr_val (sig_ed25519 (ac_recovery_pop op)) ++ sig_ml_dsa (ac_recovery_pop op)
        ++ arr_val (sig_ed25519 (ac_authorization_pop op)) ++ sig_ml_dsa (ac_authorization_pop op)).

Definition OFFSET_AUTH : Z := 32.
Definition OFFSET_KEM : Z := OFFSET_AUTH + IDENTITY_AUTHORIZATION_SIZE.
Definition OFFSET_WORK : Z := OFFSET_KEM + IDENTITY_KEM_PACKAGE_SIZE.
Definition OFFSET_RECOVERY_POP_ED : Z := OFFSET_WORK + ACCOUNT_CREATE_WORK_SIZE.
Definition OFFSET_RECOVERY_POP_ML : Z := OFFSET_RECOVERY_POP_ED + 64.
Definition OFFSET_AUTH_POP_ED : Z := OFFSET_RECOVERY_POP_ML + 3309.
Definition OFFSET_AUTH_POP_ML : Z := OFFSET_AUTH_POP_ED + 64.

Definition DeserializeAccountCreateOp (l : bytes) : option AccountCreateOp :=
  return_if negb (zlen l =? ACCOUNT_CREATE_SIZE) with None ;;
  let? account_id := AccountId_FromBytes (subspan l 0 32) else None ;;
  let? auth := DeserializeIdentityAuthorization (subspan l OFFSET_AUTH IDENTITY_AUTHORIZATION_SIZE) else None ;;
  let kem_package := arr_of 1218 (subspan l OFFSET_KEM IDENTITY_KEM_PACKAGE_SIZE) in
  let? _ := DecodeIdentityKemPackage (arr_val kem_package) else None ;;
  let? work_id := AccountId_FromBytes (subspan l (OFFSET_WORK + 32) 32) else None ;;
  Some (mkAccountCreate account_id auth kem_package
    (mkWork (arr_of 32 (subspan l OFFSET_WORK 32)) work_id (arr_of 32 (subspan l (OFFSET_WORK + 64) 32))
      (le_val (subspan l (OFFSET_WORK + 96) 8)) (le_val (subspan l (OFFSET_WORK + 104) 8)))
    (mkSignature (arr_of 64 (subspan l OFFSET_RECOVERY_POP_ED 64)) (subspan l OFFSET_RECOVERY_POP_ML 3309))
    (mkSignature (arr_of 64 (subspan l OFFSET_AUTH_POP_ED 64))
      (subspan l OFFSET_AUTH_POP_ML (zlen l - OFFSET_AUTH_POP_ML)))).

Definition ValidateAccountCreateOp (op : AccountCreateOp) (network_binding : Hash256) (block_height : Z)
    (params : CybouProtocolParameters) : AccountCreateError :=
  let? _ := SerializeAccountCreateOp op else AC_INVALID_FORMAT ;;
  return_if negb (identity_kem_xwing_enabled params) with AC_INVALID_FORMAT ;;
  return_if IsNull (ac_account_id op) with AC_NULL_ACCOUNT_ID ;;
  return_if IsNull network_binding || negb (bool_decide (work_network_binding (ac_work op) = network_binding))
    with AC_NETWORK_MISMATCH ;;
  return_if negb (bool_decide (work_account_id (ac_work op) = ac_account_id op)) with AC_ACCOUNT_ID_MISMATCH ;;
  let? _ := ComputeAuthorizationKeyId (authorization_key (ac_authorization op)) else AC_COMMITMENT_MISMATCH ;;
  let? package_id := ComputeIdentityKemPackageCommitment network_binding (ac_account_id op) 0
    (arr_val (ac_kem_package op)) else AC_COMMITMENT_MISMATCH ;;
  let? commitment := ComputeAccountCreateAuthorizationCommitment (ac_authorization op) package_id
    else AC_COMMITMENT_MISMATCH ;;
  return_if negb (bool_decide (authorization_commitment (ac_work op) = commitment)) with AC_COMMITMENT_MISMATCH ;;
  let epoch := EpochForHeight block_height params in
  return_if epoch <? work_epoch (ac_work op) with AC_FUTURE_WORK_EPOCH ;;
  return_if account_creation_epoch_lag params <? epoch ⊖ work_epoch (ac_work op) with AC_EXPIRED_WORK_EPOCH ;;
  let? work_hash := ComputeAccountCreateWorkHash (ac_work op) else AC_INSUFFICIENT_WORK ;;
  return_if negb (HasWork (arr_val work_hash) (account_creation_work_bits params)) with AC_INSUFFICIENT_WORK ;;
  let? pop_digest := ComputeAccountCreatePopDigest network_binding (ac_account_id op) (ac_authorization op) package_id
    else AC_INVALID_RECOVERY_POP ;;
  return_if negb (VerifyIdentityMessage (recovery_root (ac_authorization op)) (ac_recovery_pop op) (arr_val pop_digest))
    with AC_INVALID_RECOVERY_POP ;;
  return_if negb (VerifyIdentityMessage (authorization_key (ac_authorization op)) (ac_authorization_pop op)
    (arr_val pop_digest)) with AC_INVALID_AUTHORIZATION_POP ;;
  AC_NONE.

(** ** Digests of the registry's requests *)

Definition ComputeIdentityRotateDigest (network_binding : Hash256) (request : IdentityRotate) : option IdentityKeyId :=
  return_if IsNull network_binding || IsNull (rot_account_id request) with None ;;
  let? recovery_id := ComputeRecoveryKeyId (new_recovery_key request) else None ;;
  let? authorization_id := ComputeAuthorizationKeyId (new_authorization_key request) else None ;;
  let? package_id := ComputeIdentityKemPackageCommitment network_binding (rot_account_id request)
    (rot_key_epoch request) (arr_val (new_kem_package request)) else None ;;
  HashWithDomain (str "CYBOU/IDENTITY-ROTATE-DIGEST")
    (str "CYBOU/IDENTITY-ROTATE" ++ arr_val network_binding ++ arr_val (rot_account_id request)
     ++ le_bytes 8 (rot_nonce request) ++ le_bytes 8 (rot_key_epoch request)
     ++ arr_val recovery_id ++ arr_val authorization_id ++ arr_val package_id).

Definition ComputeIdentityOperationDigest (network_binding : Hash256) (request : IdentityOperationAuthorization)
    : option IdentityKeyId :=
  let kind := kind_value (oa_kind request) in
  return_if (kind <? 1) || (7 <? kind) || negb (has_nonzero (arr_val (oa_payload_commitment request)))
    || IsNull network_binding || IsNull (oa_account_id request) with None ;;
  HashWithDomain (str "CYBOU/IDENTITY-OP-DIGEST")
    (str "CYBOU/IDENTITY-OP" ++ arr_val network_binding ++ arr_val (oa_account_id request)
     ++ le_bytes 8 (oa_nonce request) ++ le_bytes 8 (oa_key_epoch request) ++ le_bytes 1 kind
     ++ arr_val (oa_payload_commitment request)).

(** ** Registry operations *)

Definition Register (reg : IdentityRegistry) (create : AccountCreateOp) (network_binding : Hash256)
    (block_height : Z) (params : CybouProtocolParameters) : IdentityRegistryError * IdentityRegistry :=
  return_if negb (bool_decide (ValidateAccountCreateOp create network_binding block_height params = AC_NONE))
    with (IR_INVALID_CREATE, reg) ;;
  return_if bool_decide (is_Some (m_accounts reg !! ac_account_id create)) with (IR_ACCOUNT_EXISTS, reg) ;;
  let? recovery_id := ComputeRecoveryKeyId (recovery_root (ac_authorization create)) else (IR_INVALID_KEY, reg) ;;
  let? _ := ComputeAuthorizationKeyId (authorization_key (ac_authorization create)) else (IR_INVALID_KEY, reg) ;;
  let? package_id := ComputeIdentityKemPackageCommitment network_binding (ac_account_id create) 0
    (arr_val (ac_kem_package create)) else (IR_INVALID_KEY, reg) ;;
  return_if bool_decide (is_Some (m_recovery_index reg !! recovery_id)) with (IR_RECOVERY_KEY_EXISTS, reg) ;;
  let record := mkIdentityRecord (recovery_root (ac_authorization create))
    (authorization_key (ac_authorization create)) package_id 0 0 in
  (IR_NONE, mkIdentityRegistry (<[ac_account_id create := record]> (m_accounts reg))
              (<[recovery_id := ac_account_id create]> (m_recovery_index reg))).

Definition RotateIdentity (reg : IdentityRegistry) (request : IdentityRotate) (network_binding : Hash256)
    : IdentityRegistryError * IdentityRegistry :=
  let? record := m_accounts reg !! rot_account_id request else (IR_ACCOUNT_NOT_FOUND, reg) ;;
  return_if negb (rot_nonce request =? ir_nonce record)
    || negb (rot_key_epoch request =? ir_key_epoch record ⊕ 1) with (IR_BAD_NONCE, reg) ;;
  return_if (ir_nonce record =? MAX64) || (ir_key_epoch record =? MAX64) with (IR_NONCE_EXHAUSTED, reg) ;;
  let? old_id := ComputeRecoveryKeyId (ir_recovery_key record) else (IR_INVALID_KEY, reg) ;;
  let? new_id := ComputeRecoveryKeyId (new_recovery_key request) else (IR_INVALID_KEY, reg) ;;
  let? _ := ComputeAuthorizationKeyId (new_authorization_key request) else (IR_INVALID_KEY, reg) ;;
  let? package_id := ComputeIdentityKemPackageCommitment network_binding (rot_account_id request)
    (rot_key_epoch request) (arr_val (new_kem_package request)) else (IR_INVALID_KEY, reg) ;;
  return_if bool_decide (is_Some (m_recovery_index reg !! new_id)) with (IR_RECOVERY_KEY_EXISTS, reg) ;;
  let? digest := ComputeIdentityRotateDigest network_binding request else (IR_INVALID_SIGNATURE, reg) ;;
  return_if negb (VerifyIdentityMessage (ir_recovery_key record) (old_recovery_signature request) (arr_val digest))
    || negb (VerifyIdentityMessage (new_recovery_key request) (new_recovery_pop request) (arr_val digest))
    || negb (VerifyIdentityMessage (new_authorization_key request) (new_authorization_pop request) (arr_val digest))
    with (IR_INVALID_SIGNATURE, reg) ;;
  let record' := mkIdentityRecord (new_recovery_key request) (new_authorization_key request) package_id
    (ir_nonce record ⊕ 1) (rot_key_epoch request) in
  (IR_NONE, mkIdentityRegistry (<[rot_account_id request := record']> (m_accounts reg))
              (<[new_id := rot_account_id request]> (delete old_id (m_recovery_index reg)))).

Definition AuthorizeOperation (reg : IdentityRegistry) (request : IdentityOperationAuthorization)
    (network_binding : Hash256) : IdentityRegistryError * IdentityRegistry :=
  let? record := m_accounts reg !! oa_account_id request else (IR_ACCOUNT_NOT_FOUND, reg) ;;
  return_if negb (oa_nonce request =? ir_nonce record) || negb (oa_key_epoch request =? ir_key_epoch record)
    with (IR_BAD_NONCE, reg) ;;
  return_if ir_nonce record =? MAX64 with (IR_NONCE_EXHAUSTED, reg) ;;
  let? digest := ComputeIdentityOperationDigest network_binding request else (IR_INVALID_PAYLOAD, reg) ;;
  return_if negb (VerifyIdentityMessage (ir_authorization_key record) (oa_signature request) (arr_val digest))
    with (IR_INVALID_SIGNATURE, reg) ;;
  let record' := mkIdentityRecord (ir_recovery_key record) (ir_authorization_key record)
    (ir_kem_package_id record) (ir_nonce record ⊕ 1) (ir_key_epoch record) in
  (IR_NONE, mkIdentityRegistry (<[oa_account_id request := record']> (m_accounts reg)) (m_recovery_index reg)).

(** ** The registry invariant

    Every account is found again through its recovery key and only through
    it, its keys are usable and its counters are in range. *)

Record registry_wf (reg : IdentityRegistry) : Prop := {
  rw_account : forall id rec, m_accounts reg !! id = Some rec ->
    IsNull id = false /\ is_u64 (ir_nonce rec) /\ is_u64 (ir_key_epoch rec) /\
    is_Some (ComputeAuthorizationKeyId (ir_authorization_key rec)) /\
    exists rid, ComputeRecoveryKeyId (ir_recovery_key rec) = Some rid /\ m_recovery_index reg !! rid = Some id;
  rw_index : forall rid id, m_recovery_index reg !! rid = Some id ->
    exists rec, m_accounts reg !! id = Some rec /\ ComputeRecoveryKeyId (ir_recovery_key rec) = Some rid;
  rw_size : size (m_accounts reg) = size (m_recovery_index reg);
}.

Lemma registry_wf_empty : registry_wf (mkIdentityRegistry ∅ ∅).
Proof. constructor; simpl; [intros ?? E|intros ?? E|]; [by rewrite lookup_empty in E..|done]. Qed.

Lemma Validate_not_null op nb h p :
  ValidateAccountCreateOp op nb h p = AC_NONE -> IsNull (ac_account_id op) = false.
Proof.
  unfold ValidateAccountCreateOp. destruct (SerializeAccountCreateOp op); [|done].
  destruct (identity_kem_xwing_enabled p); [|done]. by destruct (IsNull (ac_account_id op)).
Qed.

Lemma Register_inv reg create nb h p reg' :
  Register reg create nb h p = (IR_NONE, reg') ->
  exists rid package_id,
    ValidateAccountCreateOp create nb h p = AC_NONE /\
    m_accounts reg !! ac_account_id create = None /\
    ComputeRecoveryKeyId (recovery_root (ac_authorization create)) = Some rid /\
    is_Some (ComputeAuthorizationKeyId (authorization_key (ac_authorization create))) /\
    m_recovery_index reg !! rid = None /\
    reg' = mkIdentityRegistry
      (<[ac_account_id create := mkIdentityRecord (recovery_root (ac_authorization create))
           (authorization_key (ac_authorization create)) package_id 0 0]> (m_accounts reg))
      (<[rid := ac_account_id create]> (m_recovery_index reg)).
Proof.
  unfold Register. intros E. walk E. injection E as <-. guards. eauto 10.
Qed.

Lemma Register_wf reg create nb h p e reg' :
  registry_wf reg -> Register reg create nb h p = (e, reg') -> registry_wf reg'.
Proof.
  intros Hwf E. destruct (decide (e = IR_NONE)) as [->|Hne].
  2: { assert (reg' = reg) as ->; [|done]. unfold Register in E. walk E; congruence. }
  destruct (Register_inv _ _ _ _ _ _ E) as (rid & pid & Hv & Hacc & Hrid & Hauth & Hidx & ->).
  pose proof (Validate_not_null _ _ _ _ Hv) as Hnull. destruct Hwf as [H1 H2 H3]. constructor; simpl.
  - intros id rec [[<- <-]|[Hne Hl]]%lookup_insert_Some; simpl.
    + split_and!; [done|done..|done|]. exists rid. by rewrite lookup_insert_eq.
    + destruct (H1 _ _ Hl) as (? & ? & ? & ? & rid' & Hr & Hi). split_and!; try done.
      exists rid'. split; [done|]. rewrite lookup_insert_ne; congruence.
  - intros rid' id [[<- <-]|[Hne Hl]]%lookup_insert_Some.
    + eexists. by rewrite lookup_insert_eq.
    + destruct (H2 _ _ Hl) as (rec & Ha & Hr). exists rec. split; [|done].
      rewrite lookup_insert_ne; congruence.
  - rewrite !map_size_insert_None by done. by rewrite H3.
Qed.

Lemma RotateIdentity_inv reg rq nb reg' :
  RotateIdentity reg rq nb = (IR_NONE, reg') ->
  exists rec old_id new_id package_id,
    m_accounts reg !! rot_account_id rq = Some rec /\
    rot_nonce rq = ir_nonce rec /\ rot_key_epoch rq = ir_key_epoch rec ⊕ 1 /\
    ir_nonce rec <> MAX64 /\ ir_key_epoch rec <> MAX64 /\
    ComputeRecoveryKeyId (ir_recovery_key rec) = Some old_id /\
    ComputeRecoveryKeyId (new_recovery_key rq) = Some new_id /\
    is_Some (ComputeAuthorizationKeyId (new_authorization_key rq)) /\
    m_recovery_index reg !! new_id = None /\
    reg' = mkIdentityRegistry
      (<[rot_account_id rq := mkIdentityRecord (new_recovery_key rq) (new_authorization_key rq)
           package_id (ir_nonce rec ⊕ 1) (rot_key_epoch rq)]> (m_accounts reg))
      (<[new_id := rot_account_id rq]> (delete old_id (m_recovery_index reg))).
Proof.
  unfold RotateIdentity. intros E. walk E. injection E as <-. guards.
  do 4 eexists. split_and!; eauto.
Qed.

Lemma RotateIdentity_wf reg rq nb e reg' :
  registry_wf reg -> RotateIdentity reg rq nb = (e, reg') -> registry_wf reg'.
Proof.
  intros Hwf E. destruct (decide (e = IR_NONE)) as [->|Hne].
  2: { assert (reg' = reg) as ->; [|done]. unfold RotateIdentity in E. walk E; congruence. }
  destruct (RotateIdentity_inv _ _ _ _ E)
    as (rec & oid & nid & pid & Hacc & Hn & He & Hn' & He' & Hold & Hnew & Hauth & Hidx & ->).
  destruct Hwf as [H1 H2 H3].
  destruct (H1 _ _ Hacc) as (Hnull & Hun & Hue & _ & oid' & Hold' & Hio).
  assert (oid' = oid) as -> by congruence. assert (oid <> nid) by congruence.
  constructor; simpl.
  - intros id rec' [[<- <-]|[Hne Hl]]%lookup_insert_Some; simpl.
    + rewrite He. split_and!; [done|apply wrap64_range..|done|]. exists nid. by rewrite lookup_insert_eq.
    + destruct (H1 _ _ Hl) as (? & ? & ? & ? & rid' & Hr & Hi). split_and!; try done.
      exists rid'. split; [done|]. rewrite lookup_insert_ne, lookup_delete_ne; congruence.
  - intros rid' id [[<- <-]|[Hne [Hne' Hl]%lookup_delete_Some]]%lookup_insert_Some.
    + eexists. by rewrite lookup_insert_eq.
    + destruct (H2 _ _ Hl) as (rec' & Ha & Hr). exists rec'. split; [|done].
      rewrite lookup_insert_ne; [done|]. intros Heq. rewrite <- Heq in Ha. congruence.
  - rewrite map_size_insert_Some by eauto.
    rewrite map_size_insert_None by (rewrite lookup_delete_ne; done).
    rewrite map_size_delete_Some by eauto. rewrite H3.
    assert (size (m_recovery_index reg) <> 0)%nat; [|lia].
    intros Hz. apply map_size_empty_inv in Hz. by rewrite Hz, lookup_empty in Hio.
Qed.

Lemma AuthorizeOperation_inv reg rq nb reg' :
  AuthorizeOperation reg rq nb = (IR_NONE, reg') ->
  exists rec digest,
    m_accounts reg !! oa_account_id rq = Some rec /\
    oa_nonce rq = ir_nonce rec /\ oa_key_epoch rq = ir_key_epoch rec /\ ir_nonce rec <> MAX64 /\
    ComputeIdentityOperationDigest nb rq = Some digest /\
    VerifyIdentityMessage (ir_authorization_key rec) (oa_signature rq) (arr_val digest) = true /\
    reg' = mkIdentityRegistry
      (<[oa_account_id rq := mkIdentityRecord (ir_recovery_key rec) (ir_authorization_key rec)
           (ir_kem_package_id rec) (ir_nonce rec ⊕ 1) (ir_key_epoch rec)]> (m_accounts reg)) (m_recovery_index reg).
Proof.
  unfold AuthorizeOperation. intros E. walk E. injection E as <-. guards.
  do 2 eexists. split_and!; eauto.
Qed.
Lemma AuthorizeOperation_error reg rq nb e reg' :
  AuthorizeOperation reg rq nb = (e, reg') -> e <> IR_NONE -> reg' = reg.
Proof. unfold AuthorizeOperation. intros E Hne. walk E; congruence. Qed.

Lemma AuthorizeOperation_wf reg rq nb e reg' :
  registry_wf reg -> AuthorizeOperation reg rq nb = (e, reg') -> registry_wf reg'.
Proof.
  intros Hwf E. destruct (decide (e = IR_NONE)) as [->|Hne];
    [|by rewrite (AuthorizeOperation_error _ _ _ _ _ E Hne)].
  destruct (AuthorizeOperation_inv _ _ _ _ E) as (rec & dg & Hacc & Hn & He & Hn' & _ & _ & ->).
  destruct Hwf as [H1 H2 H3]. destruct (H1 _ _ Hacc) as (Hnull & Hun & Hue & Hau & rid & Hrid & Hi).
  constructor; simpl.
  - intros id rec' [[<- <-]|[Hne Hl]]%lookup_insert_Some; simpl; [|by eauto].
    split_and!; [done|apply wrap64_range|apply Hue..|done|]. eauto.
  - intros rid' id Hl. destruct (H2 _ _ Hl) as (rec' & Ha & Hr).
    destruct (decide (id = oa_account_id rq)) as [->|].
    + rewrite lookup_insert_eq. eexists. split; [done|]. simpl. congruence.
    + rewrite lookup_insert_ne by done. eauto.
  - by rewrite map_size_insert_Some by eauto.
Qed.

(** ** Reachable registries *)

Inductive registry_step : IdentityRegistry -> IdentityRegistry -> Prop :=
| step_register reg create nb h p e reg' :
    Register reg create nb h p = (e, reg') -> registry_step reg reg'
| step_rotate reg rq nb e reg' :
    RotateIdentity reg rq nb = (e, reg') -> registry_step reg reg'
| step_authorize reg rq nb e reg' :
    AuthorizeOperation reg rq nb = (e, reg') -> registry_step reg reg'.

Lemma registry_step_wf reg reg' : registry_wf reg -> registry_step reg reg' -> registry_wf reg'.
Proof.
  intros Hwf Hs. destruct Hs; eauto using Register_wf, RotateIdentity_wf, AuthorizeOperation_wf.
Qed.

Lemma registry_step_nonce reg reg' id rec :
  registry_wf reg -> registry_step reg reg' -> m_accounts reg !! id = Some rec ->
  exists rec', m_accounts reg' !! id = Some rec' /\ ir_nonce rec <= ir_nonce rec' /\
    (ir_nonce rec' = ir_nonce rec -> rec' = rec).
Proof.
  intros Hwf Hs Hid. destruct (rw_account reg Hwf id rec Hid) as (_ & Hn & _ & _).
  assert (Hinc : ir_nonce rec <> MAX64 -> ir_nonce rec ⊕ 1 = ir_nonce rec + 1)
    by (intros; apply add64_small; ulia).
  destruct Hs as [reg create nb h p e reg' E|reg rq nb e reg' E|reg rq nb e reg' E];
    (destruct (decide (e = IR_NONE)) as [->|Hne]; [|exists rec; split; [|split; [lia|done]]]).
  - destruct (Register_inv _ _ _ _ _ _ E) as (rid & pid & _ & Hacc & _ & _ & _ & ->).
    exists rec. simpl. rewrite lookup_insert_ne by congruence. split_and!; [done|lia|done].
  - unfold Register in E. walk E; congruence.
  - destruct (RotateIdentity_inv _ _ _ _ E) as (r & o & n & p & Hacc & _ & _ & Hm & _ & _ & _ & _ & _ & ->).
    simpl. destruct (decide (id = rot_account_id rq)) as [->|].
    + rewrite lookup_insert_eq. assert (r = rec) as -> by congruence.
      eexists. split; [done|]. simpl. rewrite Hinc by done. lia.
    + rewrite lookup_insert_ne by done. exists rec. split_and!; [done|lia|done].
  - unfold RotateIdentity in E. walk E; congruence.
  - destruct (AuthorizeOperation_inv _ _ _ _ E) as (r & dg & Hacc & _ & _ & Hm & _ & _ & ->).
    simpl. destruct (decide (id = oa_account_id rq)) as [->|].
    + rewrite lookup_insert_eq. assert (r = rec) as -> by congruence.
      eexists. split; [done|]. simpl. rewrite Hinc by done. lia.
    + rewrite lookup_insert_ne by done. exists rec. split_and!; [done|lia|done].
  - unfold AuthorizeOperation in E. walk E; congruence.
Qed.

Lemma registry_steps_nonce reg reg' id rec :
  registry_wf reg -> rtc registry_step reg reg' -> m_accounts reg !! id = Some rec ->
  exists rec', m_accounts reg' !! id = Some rec' /\ ir_nonce rec <= ir_nonce rec'.
Proof.
  intros Hwf Hs. revert Hwf rec. induction Hs as [reg|r1 r2 r3 Hstep _ IH]; intros Hwf rec Hid.
  - exists rec. split; [done|lia].
  - destruct (registry_step_nonce _ _ _ _ Hwf Hstep Hid) as (rec2 & H2 & Hle & _).
    destruct (IH (registry_step_wf _ _ Hwf Hstep) _ H2) as (rec3 & H3 & Hle'). exists rec3. split; [done|lia].
Qed.

Lemma AuthorizeOperation_nonce_inc reg rq nb reg' :
  registry_wf reg -> AuthorizeOperation reg rq nb = (IR_NONE, reg') ->
  exists rec', m_accounts reg' !! oa_account_id rq = Some rec' /\ oa_nonce rq < ir_nonce rec'.
Proof.
  intros Hwf E. destruct (AuthorizeOperation_inv _ _ _ _ E) as (rec & dg & Hacc & Hn & _ & Hm & _ & _ & ->).
  destruct (rw_account reg Hwf _ _ Hacc) as (_ & Hu & _).
  simpl. rewrite lookup_insert_eq. eexists. split; [done|]. simpl. rewrite add64_small by ulia. lia.
Qed.

(** C28: the registry invariant (every account is indexed by its own recovery
    key and by no other, keys usable, counters in range) holds after every
    sequence of registrations, rotations and authorizations, failed ones
    included. *)
Theorem registry_invariant reg reg' :
  registry_wf reg -> rtc registry_step reg reg' -> registry_wf reg'.
Proof. intros Hwf Hs. induction Hs; eauto using registry_step_wf. Qed.

(** No replay: once an operation authorization has been accepted, no
    later registry, whatever happened in between, accepts it again, on any
    network binding. *)
Theorem AuthorizeOperation_no_replay reg rq nb reg1 reg2 nb' :
  registry_wf reg -> AuthorizeOperation reg rq nb = (IR_NONE, reg1) -> rtc registry_step reg1 reg2 ->
  AuthorizeOperation reg2 rq nb' = (IR_BAD_NONCE, reg2).
Proof.
  intros Hwf E Hs. destruct (AuthorizeOperation_nonce_inc _ _ _ _ Hwf E) as (rec1 & H1 & Hlt).
  destruct (registry_steps_nonce reg1 reg2 _ _ (AuthorizeOperation_wf _ _ _ _ _ Hwf E) Hs H1)
    as (rec2 & H2 & Hle).
  unfold AuthorizeOperation. rewrite H2. by rewrite (proj2 (Z.eqb_neq _ _)) by lia.
Qed.

End identity.
