(* ===== verification/IdentityCodec.v ===== *)
(** * Identity codecs

    Round trips of [SerializeIdentityAuthorization] and
    [SerializeAccountCreateOp] ([src/src/cybou/identity_authorization.cpp],
    [account_creation.cpp]). *)

From S2P Require Import Prelude.
From S2P Require Import Bytes.
From S2P Require Import Codec.
From S2P Require Import Params.
From S2P Require Import Crypto.
From S2P Require Import Identity.

(** ** [IdentityAuthorization] and [AccountCreateOp] *)

Lemma Authorization_Valid_inv auth : Authorization_Valid auth = true ->
  purpose (recovery_root auth) = RECOVERY_ROOT /\ purpose (authorization_key auth) = AUTHORIZATION /\
  zlen (pk_ml_dsa (recovery_root auth)) = 1952 /\ zlen (pk_ml_dsa (authorization_key auth)) = 1312.
Proof. unfold Authorization_Valid. intros. guards. done. Qed.

Lemma SerializeIdentityAuthorization_size auth l :
  SerializeIdentityAuthorization auth = Some l -> zlen l = IDENTITY_AUTHORIZATION_SIZE.
Proof.
  unfold SerializeIdentityAuthorization. intros E. walk E. some_inj E. guards.
  destruct (Authorization_Valid_inv auth) as (_ & _ & H1 & H2); [done|].
  unfold IDENTITY_AUTHORIZATION_SIZE. len.
Qed.

Lemma Deserialize_SerializeIdentityAuthorization auth l :
  SerializeIdentityAuthorization auth = Some l -> DeserializeIdentityAuthorization l = Some auth.
Proof.
  intros E. pose proof (SerializeIdentityAuthorization_size _ _ E) as Hl.
  unfold SerializeIdentityAuthorization in E. walk E. some_inj E. guards.
  destruct (Authorization_Valid_inv auth) as (P1 & P2 & H1 & H2); [done|].
  unfold DeserializeIdentityAuthorization. rewrite Hl, Z.eqb_refl.
  unfold ROOT_PQ_SIZE, IDENTITY_AUTHORIZATION_SIZE. cut.
  rewrite !arr_of_arr, !bool_decide_eq_true_2 by done. simpl negb. cbv iota beta.
  destruct auth as [[p1 e1 m1] [p2 e2 m2]]; simpl in *. subst. by rewrite Hif.
Qed.

Lemma Serialize_DeserializeIdentityAuthorization auth l :
  DeserializeIdentityAuthorization l = Some auth -> SerializeIdentityAuthorization auth = Some l.
Proof.
  unfold DeserializeIdentityAuthorization. intros E. walk E. some_inj E. guards.
  unfold ROOT_PQ_SIZE, IDENTITY_AUTHORIZATION_SIZE in *.
  unfold SerializeIdentityAuthorization. rewrite Hif0. simpl negb. cbv iota.
  cbn [recovery_root authorization_key pk_ed25519 pk_ml_dsa]. f_equal.
  rewrite !(arr_of_subspan 32) by len.
  match goal with H : subspan l 0 1 = _ |- _ => rewrite <- H at 1 end.
  match goal with H : subspan l (1 + 32 + 1952) 1 = _ |- _ => rewrite <- H end. glue.
  apply subspan_whole; lia.
Qed.

Lemma zlen_SerializeAccountCreationWork work l :
  SerializeAccountCreationWork work = Some l -> zlen l = ACCOUNT_CREATE_WORK_SIZE.
Proof.
  unfold SerializeAccountCreationWork, ACCOUNT_CREATE_WORK_SIZE. intros E. walk E. some_inj E. len.
Qed.

Section account_create.
Context `{CryptoOps}.

Definition work_wf (w : AccountCreationWork) : Prop := is_u64 (work_epoch w) /\ is_u64 (work_nonce w).

(** Unfolds the layout constants of [account_creation.cpp]. *)
Ltac offsets :=
  unfold OFFSET_AUTH_POP_ML, OFFSET_AUTH_POP_ED, OFFSET_RECOVERY_POP_ML, OFFSET_RECOVERY_POP_ED, OFFSET_WORK,
    OFFSET_KEM, OFFSET_AUTH, ACCOUNT_CREATE_SIZE, IDENTITY_AUTHORIZATION_SIZE, IDENTITY_KEM_PACKAGE_SIZE,
    ACCOUNT_CREATE_WORK_SIZE, XWING_PUBLIC_KEY_SIZE, ROOT_SIG_SIZE, AUTHORIZATION_SIG_SIZE in *.

Lemma SerializeAccountCreateOp_inv op l : SerializeAccountCreateOp op = Some l ->
  exists auth work key,
    SerializeIdentityAuthorization (ac_authorization op) = Some auth /\
    SerializeAccountCreationWork (ac_work op) = Some work /\
    DecodeIdentityKemPackage (arr_val (ac_kem_package op)) = Some key /\
    zlen auth = 3330 /\ zlen work = 112 /\ IsNull (ac_account_id op) = false /\
    zlen (sig_ml_dsa (ac_recovery_pop op)) = 3309 /\ zlen (sig_ml_dsa (ac_authorization_pop op)) = 2420 /\
    l = arr_val (ac_account_id op) ++ auth ++ arr_val (ac_kem_package op) ++ work
        ++ arr_val (sig_ed25519 (ac_recovery_pop op)) ++ sig_ml_dsa (ac_recovery_pop op)
        ++ arr_val (sig_ed25519 (ac_authorization_pop op)) ++ sig_ml_dsa (ac_authorization_pop op).
Proof.
  unfold SerializeAccountCreateOp, ValidSignatures. intros E. walk E. some_inj E. guards.
  do 3 eexists. split_and!; eauto using SerializeIdentityAuthorization_size, zlen_SerializeAccountCreationWork.
Qed.

Lemma SerializeAccountCreateOp_size op l : SerializeAccountCreateOp op = Some l -> zlen l = ACCOUNT_CREATE_SIZE.
Proof.
  intros (auth & work & key & _ & _ & _ & H1 & H2 & _ & H3 & H4 & ->)%SerializeAccountCreateOp_inv.
  offsets. len.
Qed.

Lemma Deserialize_SerializeAccountCreateOp op l :
  work_wf (ac_work op) -> SerializeAccountCreateOp op = Some l -> DeserializeAccountCreateOp l = Some op.
Proof.
  intros [Hw1 Hw2] E. pose proof (SerializeAccountCreateOp_size _ _ E) as Hl.
  apply SerializeAccountCreateOp_inv in E as (auth & work & key & Ea & Ew & Ek & H1 & H2 & H0 & H3 & H4 & El).
  unfold DeserializeAccountCreateOp. rewrite Hl, Z.eqb_refl. simpl negb. cbv iota. subst l. offsets.
  unfold SerializeAccountCreationWork in Ew. walk Ew. some_inj Ew. guards.
  repeat rewrite <- app_assoc. cut.
  rewrite !AccountId_FromBytes_arr, H0, (Deserialize_SerializeIdentityAuthorization _ _ Ea).
  match goal with E : IsNull (work_account_id _) = false |- _ => rewrite E end.
  rewrite !arr_of_arr, Ek, !le_val_u64 by done.
  by destruct op as [id au kp [nb wid ac ep no] [e1 m1] [e2 m2]].
Qed.

Lemma Serialize_DeserializeAccountCreateOp op l :
  DeserializeAccountCreateOp l = Some op -> IsNull (work_network_binding (ac_work op)) = false ->
  SerializeAccountCreateOp op = Some l /\ work_wf (ac_work op).
Proof.
  unfold DeserializeAccountCreateOp. intros E Hnb. walk E. some_inj E. guards. offsets. cbn in Hnb.
  apply AccountId_FromBytes_inv in Hopt as [E1 N1], Hopt1 as [E2 N2]. change (2 + 1216) with 1218 in *.
  apply Serialize_DeserializeIdentityAuthorization in Hopt0.
  unfold SerializeAccountCreateOp, SerializeAccountCreationWork, ValidSignatures.
  cbn [ac_account_id ac_authorization ac_kem_package ac_work ac_recovery_pop ac_authorization_pop
    work_network_binding work_account_id authorization_commitment work_epoch work_nonce sig_ed25519 sig_ml_dsa].
  rewrite Hopt0, Hif0, Hnb, N1, N2. simpl orb. cbv iota. offsets.
  rewrite !zlen_subspan by lia. rewrite Z.eqb_refl, (proj2 (Z.eqb_eq _ 2420)) by lia. simpl negb. cbv iota. split.
  - f_equal. rewrite <- E1, <- E2. rewrite !(arr_of_subspan 32), !(arr_of_subspan 64), (arr_of_subspan 1218) by len.
    rewrite !(le_bytes_subspan _ _ 8) by len. repeat rewrite <- app_assoc. glue. apply subspan_whole; lia.
  - split; apply is_u64_le_val; apply Nat2Z.inj; change (Z.of_nat (length ?l)) with (zlen l); rewrite zlen_subspan; lia.
Qed.
End account_create.

(** * The identity registry codec

    [src/src/cybou/identity_registry_codec.cpp]: the canonical encoding of
    the registry inside the state, its round trip and its uniqueness. *)

(** ** The registry codec

    The [Reader] of the source is a span and an offset; here it is the part
    of the span not read yet. *)

Definition RECOVERY_PUBLIC_SIZE : Z := 32 + 1952.
Definition AUTHORIZATION_PUBLIC_SIZE : Z := 32 + 1312.
Definition ACCOUNT_SIZE : Z := 32 + RECOVERY_PUBLIC_SIZE + AUTHORIZATION_PUBLIC_SIZE + 32 + 8 + 8.
Definition MAX_IDENTITY_REGISTRY_ACCOUNTS : Z := 1000000.

Definition Reader_Read (n : Z) (r : bytes) : option (bytes * bytes) :=
  if zlen r <? n then None else Some (subspan r 0 n, drop (Z.to_nat n) r).
Definition Reader_U32 (r : bytes) : option (Z * bytes) :=
  let? (l, r) := Reader_Read 4 r else None ;; Some (le_val l, r).
Definition Reader_U64 (r : bytes) : option (Z * bytes) :=
  let? (l, r) := Reader_Read 8 r else None ;; Some (le_val l, r).

Definition WritePublic (key : IdentityHybridPublicKey) : bytes := arr_val (pk_ed25519 key) ++ pk_ml_dsa key.
Definition ReadPublic (r : bytes) (p : IdentityKeyPurpose) (pq_size : Z) : option (IdentityHybridPublicKey * bytes) :=
  let? (ed, r) := Reader_Read 32 r else None ;;
  let? (ml, r) := Reader_Read pq_size r else None ;;
  Some (mkPublicKey p (arr_of 32 ed) ml, r).

Section registry_codec.
Context `{CryptoOps}.

Definition account_bytes (account : AccountId * IdentityRecord) : bytes :=
  let '(account_id, record) := account in
  arr_val account_id ++ WritePublic (ir_recovery_key record) ++ WritePublic (ir_authorization_key record)
  ++ arr_val (ir_kem_package_id record) ++ le_bytes 8 (ir_nonce record) ++ le_bytes 8 (ir_key_epoch record).

(** The checks the writer makes on one account. *)
Definition account_encodable (reg : IdentityRegistry) (account : AccountId * IdentityRecord) : bool :=
  let '(account_id, record) := account in
  match ComputeRecoveryKeyId (ir_recovery_key record), ComputeAuthorizationKeyId (ir_authorization_key record) with
  | Some recovery_id, Some _ =>
      negb (IsNull account_id) && has_nonzero (arr_val (ir_kem_package_id record))
      && bool_decide (m_recovery_index reg !! recovery_id = Some account_id)
  | _, _ => false
  end.

Definition SerializeIdentityRegistry (reg : IdentityRegistry) : option bytes :=
  return_if (MAX_IDENTITY_REGISTRY_ACCOUNTS <? Z.of_nat (size (m_accounts reg)))
    || negb (bool_decide (size (m_accounts reg) = size (m_recovery_index reg))) with None ;;
  return_if negb (forallb (account_encodable reg) (entries (m_accounts reg))) with None ;;
  Some (le_bytes 4 (Z.of_nat (size (m_accounts reg))) ++ mjoin (account_bytes <$> entries (m_accounts reg))).

(** The loop of the reader. *)
Fixpoint read_accounts (count : nat) (prior : option AccountId) (reg : IdentityRegistry) (r : bytes)
    : option (IdentityRegistry * bytes) :=
  match count with
  | O => Some (reg, r)
  | S count =>
      let? (raw, r) := Reader_Read 32 r else None ;;
      let account_id := arr_of 32 raw in
      return_if IsNull account_id || match prior with Some p => negb (alt p account_id) | None => false end with None ;;
      let? (recovery, r) := ReadPublic r RECOVERY_ROOT (RECOVERY_PUBLIC_SIZE - 32) else None ;;
      let? (authorization, r) := ReadPublic r AUTHORIZATION (AUTHORIZATION_PUBLIC_SIZE - 32) else None ;;
      let? (package, r) := Reader_Read 32 r else None ;;
      let? (nonce, r) := Reader_U64 r else None ;;
      let? (epoch, r) := Reader_U64 r else None ;;
      return_if negb (has_nonzero package) with None ;;
      let? recovery_id := ComputeRecoveryKeyId recovery else None ;;
      return_if bool_decide (is_Some (m_recovery_index reg !! recovery_id)) with None ;;
      let? _ := ComputeAuthorizationKeyId authorization else None ;;
      read_accounts count (Some account_id)
        (mkIdentityRegistry
          (<[account_id := mkIdentityRecord recovery authorization (arr_of 32 package) nonce epoch]> (m_accounts reg))
          (<[recovery_id := account_id]> (m_recovery_index reg))) r
  end.

Definition DeserializeIdentityRegistry (l : bytes) : option IdentityRegistry :=
  let? (count, r) := Reader_U32 l else None ;;
  return_if (MAX_IDENTITY_REGISTRY_ACCOUNTS <? count) || (zlen r / ACCOUNT_SIZE <? count) with None ;;
  let? (reg, r) := read_accounts (Z.to_nat count) None (mkIdentityRegistry ∅ ∅) r else None ;;
  return_if negb (zlen r =? 0) with None ;;
  Some reg.

(** ** Round trip of the registry *)

Lemma Reader_Read_app n x y : zlen x = n -> Reader_Read n (x ++ y) = Some (x, y).
Proof.
  intros Hx. unfold Reader_Read. pose proof (zlen_nonneg y). rewrite zlen_app, (proj2 (Z.ltb_ge _ _)) by lia.
  rewrite (subspan_here x y n Hx). subst n. unfold zlen. by rewrite Nat2Z.id, drop_app_length.
Qed.
Lemma Reader_Read_inv n r x y : 0 <= n -> Reader_Read n r = Some (x, y) -> r = x ++ y /\ zlen x = n.
Proof.
  unfold Reader_Read. intros Hn E. walk E. injection E as <- <-. guards.
  unfold subspan. change (Z.to_nat 0) with 0%nat. rewrite drop_0, take_drop. split; [done|]. unfold zlen in *. rewrite length_take. lia.
Qed.
Definition record_ok (account : AccountId * IdentityRecord) : Prop :=
  IsNull account.1 = false /\ is_u64 (ir_nonce account.2) /\ is_u64 (ir_key_epoch account.2) /\
  is_Some (ComputeRecoveryKeyId (ir_recovery_key account.2)) /\
  is_Some (ComputeAuthorizationKeyId (ir_authorization_key account.2)) /\
  has_nonzero (arr_val (ir_kem_package_id account.2)) = true.

(** The recovery index the accounts of [l] give rise to. *)
Definition index_of (l : list (AccountId * IdentityRecord)) : list (IdentityKeyId * AccountId) :=
  omap (fun a => (fun rid => (rid, a.1)) <$> ComputeRecoveryKeyId (ir_recovery_key a.2)) l.

Lemma elem_of_index_of l rid id : (rid, id) ∈ index_of l <->
  exists rec, (id, rec) ∈ l /\ ComputeRecoveryKeyId (ir_recovery_key rec) = Some rid.
Proof.
  unfold index_of. rewrite list_elem_of_omap. split.
  - intros ([id' rec] & Hin & E). simpl in E. destruct (ComputeRecoveryKeyId _) eqn:Er; simplify_eq/=. eauto.
  - intros (rec & Hin & E). exists (id, rec). simpl. by rewrite E.
Qed.
Lemma index_of_cons id rec rid l : ComputeRecoveryKeyId (ir_recovery_key rec) = Some rid ->
  index_of ((id, rec) :: l) = (rid, id) :: index_of l.
Proof. intros E. unfold index_of. simpl. by rewrite E. Qed.

Lemma ReadPublic_app key p n rest :
  purpose key = p -> zlen (pk_ml_dsa key) = n -> ReadPublic (WritePublic key ++ rest) p n = Some (key, rest).
Proof.
  intros <- Hn. unfold ReadPublic, WritePublic. rewrite <- app_assoc.
  rewrite Reader_Read_app by len. rewrite Reader_Read_app by done.
  rewrite arr_of_arr. by destruct key.
Qed.
Lemma ReadPublic_inv r p n key rest : 0 <= n -> ReadPublic r p n = Some (key, rest) ->
  r = WritePublic key ++ rest.
Proof.
  intros Hn. unfold ReadPublic. intros E. walk E. injection E as <- <-.
  apply Reader_Read_inv in Hopt as [-> H1], Hopt0 as [-> H2]; try done.
  unfold WritePublic. cbn [pk_ed25519 pk_ml_dsa].
  change (resize (N.to_nat 32) x00 ?b) with (arr_val (arr_of 32 b)).
  rewrite arr_of_val by done. by rewrite app_assoc.
Qed.
Lemma Reader_U64_app v rest : is_u64 v -> Reader_U64 (le_bytes 8 v ++ rest) = Some (v, rest).
Proof. intros. unfold Reader_U64. rewrite Reader_Read_app by len. by rewrite le_val_u64. Qed.
Lemma Reader_U64_inv r v rest : Reader_U64 r = Some (v, rest) -> r = le_bytes 8 v ++ rest /\ is_u64 v.
Proof.
  unfold Reader_U64. intros E. walk E. injection E as <- <-.
  apply Reader_Read_inv in Hopt as [-> H1]; [|done].
  assert (H8 : forall b : bytes, zlen b = 8 -> length b = 8%nat) by (unfold zlen; lia).
  rewrite le_bytes_inv by auto. split; [done|]. auto using is_u64_le_val.
Qed.

Lemma read_accounts_ok l : forall prior reg rest,
  Forall record_ok l -> increasing_from prior l -> NoDup (index_of l).*1 ->
  (forall rid, rid ∈ (index_of l).*1 -> m_recovery_index reg !! rid = None) ->
  read_accounts (length l) prior reg (mjoin (account_bytes <$> l) ++ rest) =
    Some (mkIdentityRegistry (emplace_all (m_accounts reg) l) (emplace_all (m_recovery_index reg) (index_of l)), rest).
Proof.
  induction l as [|[id rec] l IH]; intros prior reg rest Hok Hinc Hnd Hfresh; [by destruct reg|].
  inversion Hok as [|? ? (N & U1 & U2 & [rid R] & [aid A] & K) Hok']; subst. simpl in N, U1, U2, R, A, K.
  destruct Hinc as [Hp Hinc]. rewrite (index_of_cons id rec rid) in * by done.
  rewrite fmap_cons in Hnd, Hfresh. apply NoDup_cons in Hnd as [Hn Hnd]. cbn [fst] in *.
  destruct (key_usable_inv _ _ (ComputeRecoveryKeyId_usable _ _ R)) as (P1 & L1 & _).
  destruct (key_usable_inv _ _ (ComputeAuthorizationKeyId_usable _ _ A)) as (P2 & L2 & _).
  rewrite fmap_cons. cbn [length read_accounts]. rewrite mjoin_cons.
  unfold account_bytes at 1. repeat rewrite <- app_assoc.
  rewrite Reader_Read_app by len. rewrite arr_of_arr, N.
  replace (match prior with Some p => negb (alt p id) | None => false end) with false
    by (destruct prior as [p|]; [|done]; change (alt p id) with (klt p id); by rewrite (Hp p)).
  cbn [orb]. rewrite ReadPublic_app by done. rewrite ReadPublic_app by done.
  rewrite Reader_Read_app by len. rewrite !Reader_U64_app by done. rewrite K, R.
  rewrite (bool_decide_eq_false_2) by (rewrite Hfresh; [by intros [? ?]|left]). rewrite A, arr_of_arr.
  cbn [negb]. rewrite IH; [|done..|].
  - unfold emplace_all. cbn [foldl fst snd m_accounts m_recovery_index]. by destruct rec.
  - intros r Hr. cbn [m_recovery_index]. rewrite lookup_insert_ne by (intros ->; done).
    apply Hfresh. by right.
Qed.

Lemma read_accounts_inv n : forall prior reg r reg' rest,
  read_accounts n prior reg r = Some (reg', rest) ->
  exists l, length l = n /\ r = mjoin (account_bytes <$> l) ++ rest /\ Forall record_ok l /\
    increasing_from prior l /\ NoDup (index_of l).*1 /\
    (forall rid, rid ∈ (index_of l).*1 -> m_recovery_index reg !! rid = None) /\
    reg' = mkIdentityRegistry (emplace_all (m_accounts reg) l) (emplace_all (m_recovery_index reg) (index_of l)).
Proof.
  induction n as [|n IH]; intros prior reg r reg' rest E; cbn [read_accounts] in E.
  { injection E as <- <-. exists []. split_and!; [done|done|constructor|done|constructor| |by destruct reg].
    intros rid Hin. by apply elem_of_nil in Hin. }
  walk E. apply IH in E as (lx & Hl & Hr & Hok & Hinc & Hnd & Hfresh & Hreg).
  repeat match goal with
    | H : Reader_U64 _ = Some _ |- _ => apply Reader_U64_inv in H as [-> ?]
    | H : Reader_Read _ _ = Some _ |- _ => apply Reader_Read_inv in H as [-> ?]; [|done]
    | H : ReadPublic _ _ _ = Some _ |- _ => apply ReadPublic_inv in H as ->; [|done]
  end.
  guards. cbn [m_accounts m_recovery_index] in *.
  match type of Hreg with context [mkIdentityRecord ?a ?b ?c ?d ?e] => set (rec := mkIdentityRecord a b c d e) in * end.
  match type of Hinc with increasing_from (Some ?i) _ => set (id := i) in * end.
  exists ((id, rec) :: lx). rewrite (index_of_cons id rec _ _ Hopt5).
  split_and!; [simpl; congruence| | |split; [|done]| | |].
  - rewrite fmap_cons. rewrite mjoin_cons. unfold account_bytes at 1. unfold rec, id.
    cbn [ir_recovery_key ir_authorization_key ir_kem_package_id ir_nonce ir_key_epoch].
    rewrite !arr_of_val, Hr by done. by repeat rewrite <- app_assoc.
  - constructor; [|done]. unfold record_ok. cbn. split_and!; eauto.
    change (resize (N.to_nat 32) x00 ?b) with (arr_val (arr_of 32 b)). by rewrite arr_of_val.
  - intros pr ->. guards. done.
  - rewrite fmap_cons. apply NoDup_cons. split; [|done]. intros Hin%Hfresh.
    cbn [fst] in Hin. by rewrite lookup_insert_eq in Hin.
  - rewrite fmap_cons. intros rid [->|Hin]%elem_of_cons; [done|].
    specialize (Hfresh rid Hin). apply lookup_insert_None in Hfresh. tauto.
  - done.
Qed.

Lemma zlen_account_bytes a : record_ok a -> zlen (account_bytes a) = ACCOUNT_SIZE.
Proof.
  destruct a as [id rec]. intros (_ & _ & _ & [rid R] & [aid A] & _). simpl in R, A.
  destruct (key_usable_inv _ _ (ComputeRecoveryKeyId_usable _ _ R)) as (_ & L1 & _).
  destruct (key_usable_inv _ _ (ComputeAuthorizationKeyId_usable _ _ A)) as (_ & L2 & _).
  unfold account_bytes, WritePublic. change (PublicSize RECOVERY_ROOT) with 1952 in L1.
  change (PublicSize AUTHORIZATION) with 1312 in L2.
  unfold ACCOUNT_SIZE, RECOVERY_PUBLIC_SIZE, AUTHORIZATION_PUBLIC_SIZE. len.
Qed.
Lemma zlen_accounts_bytes l : Forall record_ok l -> zlen (mjoin (account_bytes <$> l)) = zlen l * ACCOUNT_SIZE.
Proof.
  induction 1 as [|a l Ha _ IH]; [done|]. rewrite fmap_cons. rewrite mjoin_cons.
  rewrite zlen_app, zlen_cons, zlen_account_bytes by done. rewrite IH. lia.
Qed.

Lemma NoDup_index_of l : NoDup l.*1 -> NoDup (index_of l).
Proof.
  induction l as [|[id rec] l IH]; [constructor|]. rewrite fmap_cons. intros [Hn Hnd]%NoDup_cons.
  destruct (ComputeRecoveryKeyId (ir_recovery_key rec)) as [rid|] eqn:R.
  - rewrite (index_of_cons id rec rid l R). apply NoDup_cons. split; [|by apply IH].
    intros (rec' & Hin & _)%elem_of_index_of. apply Hn. apply list_elem_of_fmap. by exists (id, rec').
  - unfold index_of. simpl. rewrite R. by apply IH.
Qed.
Lemma index_of_complete reg :
  registry_wf reg -> NoDup (index_of (entries (m_accounts reg))).*1 /\
  list_to_map (index_of (entries (m_accounts reg))) = m_recovery_index reg.
Proof.
  intros [H1 H2 _].
  assert (Hin : forall rid id, (rid, id) ∈ index_of (entries (m_accounts reg)) <-> m_recovery_index reg !! rid = Some id).
  { intros rid id. rewrite elem_of_index_of. split.
    - intros (rec & Ha%elem_of_entries & R). destruct (H1 _ _ Ha) as (_ & _ & _ & _ & rid' & R' & Hi). congruence.
    - intros Hi. destruct (H2 _ _ Hi) as (rec & Ha & R). exists rec. by rewrite elem_of_entries. }
  pose proof (NoDup_index_of _ (NoDup_keys (m_accounts reg))) as Hnd.
  assert (Hnd1 : NoDup (index_of (entries (m_accounts reg))).*1).
  { apply NoDup_fmap_fst; [|done]. intros rid i1 i2 A%Hin B%Hin. congruence. }
  split; [done|]. apply map_eq. intros rid. apply option_eq. intros id.
  rewrite <- elem_of_list_to_map by done. apply Hin.
Qed.

Lemma registry_of_accounts_wf l :
  Forall record_ok l -> NoDup l.*1 -> NoDup (index_of l).*1 ->
  registry_wf (mkIdentityRegistry (list_to_map l) (list_to_map (index_of l))).
Proof.
  intros Hok Hnd Hndi. rewrite Forall_forall in Hok. constructor; cbn [m_accounts m_recovery_index].
  - intros id rec Hin%elem_of_list_to_map_2. destruct (Hok _ Hin) as (N & U1 & U2 & [rid R] & A & _).
    split_and!; try done; try apply U1; try apply U2. exists rid. split; [done|].
    apply elem_of_list_to_map; [done|]. apply elem_of_index_of. eauto.
  - intros rid id (rec & Hin & R)%elem_of_list_to_map_2%elem_of_index_of.
    exists rec. split; [|done]. by apply elem_of_list_to_map.
  - rewrite <- !length_entries, !entries_perm, !map_to_list_to_map by done.
    clear Hnd Hndi. induction l as [|[id rec] l IH]; [done|].
    destruct (Hok (id, rec)) as (_ & _ & _ & [rid R] & _); [left|].
    rewrite (index_of_cons id rec rid l R). simpl. f_equal. apply IH. intros a Ha. apply Hok. by right.
Qed.

Lemma account_encodable_ok reg id rec : registry_wf reg -> m_accounts reg !! id = Some rec ->
  account_encodable reg (id, rec) = has_nonzero (arr_val (ir_kem_package_id rec)).
Proof.
  intros Hwf Ha. destruct (rw_account reg Hwf _ _ Ha) as (N & _ & _ & [aid A] & rid & R & Hi).
  unfold account_encodable. rewrite R, A, N, bool_decide_eq_true_2 by done. by destruct (has_nonzero _).
Qed.

Lemma IdentityRegistry_reads_back reg :
  registry_wf reg -> Z.of_nat (size (m_accounts reg)) <= MAX_IDENTITY_REGISTRY_ACCOUNTS ->
  (forall id rec, m_accounts reg !! id = Some rec -> has_nonzero (arr_val (ir_kem_package_id rec)) = true) ->
  exists l, SerializeIdentityRegistry reg = Some l /\ DeserializeIdentityRegistry l = Some reg.
Proof.
  intros Hwf Hmax Hkem. eexists. split.
  - unfold SerializeIdentityRegistry. rewrite (proj2 (Z.ltb_ge _ _)) by done.
    rewrite bool_decide_eq_true_2 by apply (rw_size _ Hwf). cbn [orb negb].
    rewrite (proj2 (forallb_forall _ _)); [done|]. intros [id rec] Hin%list_elem_of_In%elem_of_entries.
    rewrite account_encodable_ok by done. eauto.
  - assert (Hok : Forall record_ok (entries (m_accounts reg))).
    { apply Forall_forall. intros [id rec] Ha%elem_of_entries.
      destruct (rw_account reg Hwf _ _ Ha) as (N & U1 & U2 & A & rid & R & _). unfold record_ok. simpl.
      split_and!; eauto. }
    destruct (index_of_complete reg Hwf) as [Hnd Hidx].
    unfold DeserializeIdentityRegistry, Reader_U32. rewrite Reader_Read_app by len.
    unfold MAX_IDENTITY_REGISTRY_ACCOUNTS in *. rewrite le_val_u32 by ulia.
    rewrite (proj2 (Z.ltb_ge _ _)) by done. rewrite zlen_accounts_bytes by done.
    unfold zlen. rewrite length_entries, Z.div_mul by done. rewrite Z.ltb_irrefl. cbn [orb].
    rewrite Nat2Z.id, <- length_entries. rewrite <- (app_nil_r (mjoin _)).
    rewrite read_accounts_ok; [|done| |done|intros; apply lookup_empty].
    + cbn [m_accounts m_recovery_index length Z.of_nat Z.eqb negb].
      rewrite !emplace_all_empty, Hidx, list_to_map_entries by (done || apply NoDup_keys). by destruct reg.
    + by apply sorted_increasing_from; [apply strictly_sorted_entries|].
Qed.

(** The registry codec round-trips: whatever a well-formed registry
    serializes to is read back as exactly that registry, and serialization
    succeeds when the registry is within its limit and no package id is zero. *)
Theorem IdentityRegistry_roundtrip reg :
  registry_wf reg -> Z.of_nat (size (m_accounts reg)) <= MAX_IDENTITY_REGISTRY_ACCOUNTS ->
  (forall id rec, m_accounts reg !! id = Some rec -> has_nonzero (arr_val (ir_kem_package_id rec)) = true) ->
  exists l, SerializeIdentityRegistry reg = Some l /\ DeserializeIdentityRegistry l = Some reg.
Proof. apply IdentityRegistry_reads_back. Qed.

(** The encoding is canonical: a byte string that is accepted is the only
    encoding of the registry it decodes to, and that registry is well formed. *)
Theorem IdentityRegistry_canonical l reg :
  DeserializeIdentityRegistry l = Some reg -> SerializeIdentityRegistry reg = Some l /\ registry_wf reg.
Proof.
  unfold DeserializeIdentityRegistry, Reader_U32. intros E. walk E. some_inj E. guards.
  destruct (Reader_Read 4 l) as [[c r]|] eqn:Hc; [|done]. injection Hopt as <- <-.
  apply Reader_Read_inv in Hc as [-> Hc]; [|done].
  apply read_accounts_inv in Hopt0 as (la & Hlen & -> & Hok & Hinc & Hnd & _ & ->).
  apply increasing_from_sorted in Hinc as [Hs _]. cbn [m_accounts m_recovery_index].
  pose proof (strictly_sorted_NoDup _ Hs) as Hnd1.
  rewrite !emplace_all_empty by done. apply zlen_0 in Hif0 as ->. rewrite app_nil_r.
  assert (Hwf : registry_wf (mkIdentityRegistry (list_to_map la) (list_to_map (index_of la))))
    by by apply registry_of_accounts_wf.
  split; [|done].
  assert (Hsz : size (list_to_map la : gmap AccountId IdentityRecord) = length la)
    by (rewrite <- length_entries; by rewrite entries_list_to_map).
  assert (Hc4 : length c = 4%nat) by (unfold zlen in Hc; lia).
  unfold SerializeIdentityRegistry. rewrite bool_decide_eq_true_2 by apply (rw_size _ Hwf).
  cbn [m_accounts]. pose proof (is_u32_le_val c Hc4). rewrite Hsz, Hlen, Z2Nat.id by ulia.
  rewrite (proj2 (Z.ltb_ge _ _)) by done. cbn [orb negb].
  rewrite entries_list_to_map by done. rewrite (proj2 (forallb_forall _ _)).
  - cbn [negb]. by rewrite le_bytes_inv by done.
  - intros [id rec] Hin%list_elem_of_In. rewrite account_encodable_ok; [|done|].
    + rewrite Forall_forall in Hok. by apply (Hok _ Hin).
    + by apply elem_of_list_to_map.
Qed.

End registry_codec.
