(* ===== verification/Names.v ===== *)
(** * Names

    [src/src/cybou/name_registry.h]: the rules for labels, the payloads of
    the commit and reveal operations, the name registry and its codec. *)

From S2P Require Import Prelude.
From S2P Require Import Bytes.
From S2P Require Import Codec.
From S2P Require Import Params.
From S2P Require Import Crypto.
From S2P Require Import Identity.

Definition NAME_MIN_LABEL_LENGTH : Z := 5.
Definition NAME_MAX_LABEL_LENGTH : Z := 32.
Definition NAME_COMMIT_PAYLOAD_SIZE : Z := 32.
Definition NAME_CLAIM_WORK_SIZE : Z := 112.
Definition NAME_REVEAL_PAYLOAD_SIZE : Z := 1 + 32 + 32 + NAME_CLAIM_WORK_SIZE.

(** ** Labels *)

Inductive NameValidationError : Type :=
| NV_NONE | NV_EMPTY | NV_TOO_SHORT | NV_TOO_LONG | NV_INVALID_CHARACTER | NV_INVALID_START_END
| NV_CONSECUTIVE_HYPHENS | NV_IDN_PREFIX | NV_ALL_DIGITS | NV_PROTECTED_NAME.
#[export] Instance NameValidationError_eq_dec : EqDecision NameValidationError.
Proof. solve_decision. Defined.

Definition is_lower (c : byte) : bool := (97 <=? zb c) && (zb c <=? 122).
Definition is_digit (c : byte) : bool := (48 <=? zb c) && (zb c <=? 57).
Definition is_hyphen (c : byte) : bool := zb c =? 45.

(** The character loop: an error, or whether a letter was seen. *)
Fixpoint label_loop (label : bytes) (has_alpha : bool) : NameValidationError + bool :=
  match label with
  | [] => inr has_alpha
  | c :: rest =>
      if is_lower c then label_loop rest true
      else if is_digit c then label_loop rest has_alpha
      else if is_hyphen c then
        if match rest with next :: _ => is_hyphen next | [] => false end then inl NV_CONSECUTIVE_HYPHENS
        else label_loop rest has_alpha
      else inl NV_INVALID_CHARACTER
  end.

Definition RESERVED : list bytes :=
  [CENTRAL_AUTHORITY_NAME; str "admin"; str "root"; str "system"; str "support";
   str "security"; str "operator"; str "validator"; str "wallet"; str "mail"].

Definition ValidateNameLabel (label : bytes) : NameValidationError :=
  return_if zlen label =? 0 with NV_EMPTY ;;
  return_if zlen label <? NAME_MIN_LABEL_LENGTH with NV_TOO_SHORT ;;
  return_if NAME_MAX_LABEL_LENGTH <? zlen label with NV_TOO_LONG ;;
  return_if bool_decide (take 4 label = str "xn--") with NV_IDN_PREFIX ;;
  match label_loop label false with
  | inl e => e
  | inr has_alpha =>
      return_if match head label with Some c => is_hyphen c | None => false end
        || match last label with Some c => is_hyphen c | None => false end with NV_INVALID_START_END ;;
      return_if negb has_alpha with NV_ALL_DIGITS ;;
      return_if existsb (fun r => bool_decide (label = r)) RESERVED with NV_PROTECTED_NAME ;;
      NV_NONE
  end.

(** ** Payloads *)

Record NameCommitPayload : Type := mkNameCommitPayload { commitment : Hash256 }.

Definition SerializeNameCommitPayload (payload : NameCommitPayload) : option bytes :=
  return_if IsNull (commitment payload) with None ;;
  Some (arr_val (commitment payload)).
Definition DeserializeNameCommitPayload (l : bytes) : option NameCommitPayload :=
  return_if negb (zlen l =? NAME_COMMIT_PAYLOAD_SIZE) with None ;;
  let payload := mkNameCommitPayload (arr_of 32 (subspan l 0 32)) in
  return_if IsNull (commitment payload) with None ;;
  Some payload.

Record AuthorizedNameCommit : Type := mkAuthorizedNameCommit {
  nc_authorization : IdentityOperationAuthorization;
  nc_commit : NameCommitPayload;
}.

Record NameClaimWork : Type := mkNameClaimWork {
  ncw_network_binding : Hash256;
  ncw_account_id : AccountId;
  ncw_commitment : Hash256;
  ncw_work_epoch : Z;
  ncw_nonce : Z;
}.

Definition SerializeNameClaimWork (work : NameClaimWork) : option bytes :=
  return_if IsNull (ncw_network_binding work) || IsNull (ncw_account_id work) || IsNull (ncw_commitment work) with None ;;
  Some (arr_val (ncw_network_binding work) ++ arr_val (ncw_account_id work) ++ arr_val (ncw_commitment work)
        ++ le_bytes 8 (ncw_work_epoch work) ++ le_bytes 8 (ncw_nonce work)).
Definition DeserializeNameClaimWork (l : bytes) : option NameClaimWork :=
  return_if negb (zlen l =? NAME_CLAIM_WORK_SIZE) with None ;;
  let? acc := AccountId_FromBytes (subspan l 32 32) else None ;;
  let work := mkNameClaimWork (arr_of 32 (subspan l 0 32)) acc (arr_of 32 (subspan l 64 32))
    (le_val (subspan l 96 8)) (le_val (subspan l 104 8)) in
  return_if IsNull (ncw_network_binding work) || IsNull (ncw_commitment work) with None ;;
  Some work.

Record NameRevealPayload : Type := mkNameRevealPayload {
  nr_label : bytes;
  nr_salt : arr 32;
  nr_work : NameClaimWork;
}.

(** The label is copied into a zeroed field of 32 bytes. *)
Definition SerializeNameRevealPayload (payload : NameRevealPayload) : option bytes :=
  return_if (zlen (nr_label payload) <? NAME_MIN_LABEL_LENGTH) || (NAME_MAX_LABEL_LENGTH <? zlen (nr_label payload))
    with None ;;
  let? work_bytes := SerializeNameClaimWork (nr_work payload) else None ;;
  return_if all_zero (arr_val (nr_salt payload)) with None ;;
  Some (le_bytes 1 (zlen (nr_label payload)) ++ arr_val (arr_of 32 (nr_label payload))
        ++ arr_val (nr_salt payload) ++ work_bytes).
Definition DeserializeNameRevealPayload (l : bytes) : option NameRevealPayload :=
  return_if negb (zlen l =? NAME_REVEAL_PAYLOAD_SIZE) with None ;;
  let label_len := le_val (subspan l 0 1) in
  return_if (label_len <? NAME_MIN_LABEL_LENGTH) || (NAME_MAX_LABEL_LENGTH <? label_len) with None ;;
  let label := subspan l 1 label_len in
  return_if negb (all_zero (subspan l (1 + label_len) (32 - label_len))) with None ;;
  let salt := arr_of 32 (subspan l 33 32) in
  return_if all_zero (arr_val salt) with None ;;
  let? work := DeserializeNameClaimWork (subspan l 65 NAME_CLAIM_WORK_SIZE) else None ;;
  Some (mkNameRevealPayload label salt work).

Record AuthorizedNameReveal : Type := mkAuthorizedNameReveal {
  nv_authorization : IdentityOperationAuthorization;
  nv_reveal : NameRevealPayload;
}.

Section name_hashes.
Context `{CryptoOps}.

(** [Sha256] throws when the provider fails. *)
Definition ComputeNameCommitment (network_binding : Hash256) (account_id : AccountId) (label : bytes)
    (salt : arr 32) : outcome Hash256 :=
  Sha256 [str "CYBOU/NAME-COMMIT"; arr_val network_binding; arr_val account_id;
          le_bytes 1 (wrap8 (zlen label)); label; arr_val salt].
Definition ComputeNameCommitPayloadCommitment (payload : NameCommitPayload) : outcome (option IdentityKeyId) :=
  let? l := SerializeNameCommitPayload payload else Ret None ;;
  try! h := Sha256 [str "CYBOU/NAME-COMMIT-PAYLOAD"; l] ;; Ret (Some h).
Definition ComputeNameClaimWorkHash (work : NameClaimWork) : outcome Hash256 :=
  let? l := SerializeNameClaimWork work else Ret ZERO ;;
  Sha256 [str "CYBOU/NAME-WORK"; l].
Definition CheckNameClaimWork (work : NameClaimWork) (required_bits : Z) : outcome bool :=
  return_if required_bits =? 0 with Ret true ;;
  return_if 256 <? required_bits with Ret false ;;
  try! hash := ComputeNameClaimWorkHash work ;;
  Ret (required_bits <=? leading_zero_bits (arr_val hash)).
Definition ComputeNameRevealPayloadCommitment (payload : NameRevealPayload) : outcome (option IdentityKeyId) :=
  let? l := SerializeNameRevealPayload payload else Ret None ;;
  try! h := Sha256 [str "CYBOU/NAME-REVEAL-PAYLOAD"; l] ;; Ret (Some h).
End name_hashes.

(** ** The registry *)

Record NameCommitRecord : Type := mkNameCommitRecord { cr_account_id : AccountId; commit_height : Z }.
#[export] Instance NameCommitRecord_eq_dec : EqDecision NameCommitRecord.
Proof. solve_decision. Defined.

Record NameRegistry : Type := mkNameRegistry {
  names : gmap bytes AccountId;
  account_names : gmap AccountId bytes;
  pending_commits : gmap Hash256 NameCommitRecord;
}.
Definition Resolve (reg : NameRegistry) (label : bytes) : option AccountId := names reg !! label.
Definition PrimaryName (reg : NameRegistry) (id : AccountId) : option bytes := account_names reg !! id.

Definition name_bytes (entry : bytes * AccountId) : bytes :=
  le_bytes 1 (zlen entry.1) ++ entry.1 ++ arr_val entry.2.
Definition commit_bytes (entry : Hash256 * NameCommitRecord) : bytes :=
  arr_val entry.1 ++ arr_val (cr_account_id entry.2) ++ le_bytes 8 (commit_height entry.2).

Definition SerializeNameRegistry (reg : NameRegistry) : bytes :=
  le_bytes 4 (wrap32 (Z.of_nat (size (names reg)))) ++ mjoin (name_bytes <$> entries (names reg))
  ++ le_bytes 4 (wrap32 (Z.of_nat (size (pending_commits reg)))) ++ mjoin (commit_bytes <$> entries (pending_commits reg)).

(** The first loop of the reader, on what is left of the buffer. *)
Fixpoint read_names (count : nat) (reg : NameRegistry) (r : bytes) : option (NameRegistry * bytes) :=
  match count with
  | O => Some (reg, r)
  | S count =>
      return_if zlen r =? 0 with None ;;
      let label_len := le_val (subspan r 0 1) in
      let r := drop 1 r in
      return_if (label_len <? NAME_MIN_LABEL_LENGTH) || (NAME_MAX_LABEL_LENGTH <? label_len)
        || (zlen r <? label_len + 32) with None ;;
      let label := subspan r 0 label_len in
      let r := drop (Z.to_nat label_len) r in
      return_if negb (bool_decide (ValidateNameLabel label = NV_NONE))
        && negb (bool_decide (ValidateNameLabel label = NV_PROTECTED_NAME)) with None ;;
      let? acc := AccountId_FromBytes (subspan r 0 32) else None ;;
      let r := drop 32 r in
      return_if bool_decide (is_Some (names reg !! label)) || bool_decide (is_Some (account_names reg !! acc)) with None ;;
      read_names count (mkNameRegistry (<[label := acc]> (names reg)) (<[acc := label]> (account_names reg))
        (pending_commits reg)) r
  end.

Fixpoint read_commits (count : nat) (reg : NameRegistry) (r : bytes) : option NameRegistry :=
  match count with
  | O => Some reg
  | S count =>
      let commit : Hash256 := arr_of 32 (subspan r 0 32) in
      let acc := AccountId_FromBytes (subspan r 32 32) in
      let height := le_val (subspan r 64 8) in
      let r := drop 72 r in
      return_if IsNull commit with None ;;
      let? acc := acc else None ;;
      return_if bool_decide (is_Some (pending_commits reg !! commit)) with None ;;
      read_commits count (mkNameRegistry (names reg) (account_names reg)
        (<[commit := mkNameCommitRecord acc height]> (pending_commits reg))) r
  end.

Definition DeserializeNameRegistry (l : bytes) : option NameRegistry :=
  return_if zlen l <? 4 + 4 with None ;;
  let names_count := le_val (subspan l 0 4) in
  let? (reg, r) := read_names (Z.to_nat names_count) (mkNameRegistry ∅ ∅ ∅) (drop 4 l) else None ;;
  return_if zlen r <? 4 with None ;;
  let commit_count := le_val (subspan r 0 4) in
  let r := drop 4 r in
  return_if negb (zlen r =? commit_count * (32 + 32 + 8)) with None ;;
  read_commits (Z.to_nat commit_count) reg r.

(** ** Labels: what is accepted *)

Definition label_char (c : byte) : Prop := is_lower c = true \/ is_digit c = true \/ is_hyphen c = true.
Definition hyphen : byte := bz 45.

Record label_spec (label : bytes) : Prop := {
  ls_length : 5 <= zlen label <= 32;
  ls_chars : Forall label_char label;
  ls_letter : exists c, c ∈ label /\ is_lower c = true;
  ls_single : forall pre post, label <> pre ++ [hyphen; hyphen] ++ post;
  ls_first : forall rest, label <> hyphen :: rest;
  ls_last : forall init, label <> init ++ [hyphen];
  ls_free : label ∉ RESERVED;
}.

Lemma is_hyphen_eq c : is_hyphen c = true <-> c = hyphen.
Proof. unfold is_hyphen. rewrite Z.eqb_eq. split; [|by intros ->]. intros E. by apply zb_inj. Qed.

Lemma label_loop_spec label a b :
  label_loop label a = inr b <->
  Forall label_char label /\ (forall pre post, label <> pre ++ [hyphen; hyphen] ++ post) /\
  b = a || existsb is_lower label.
Proof.
  revert a. induction label as [|c label IH]; intros a; cbn [label_loop existsb].
  { rewrite orb_false_r. split; [intros [= ->]|by intros (_ & _ & ->)]. split_and!; [constructor| |done].
    intros pre post. by destruct pre. }
  assert (Hcons : is_hyphen c = false \/ (forall n r, label = n :: r -> is_hyphen n = false) ->
    (forall pre post, label <> pre ++ [hyphen; hyphen] ++ post) <->
    (forall pre post, c :: label <> pre ++ [hyphen; hyphen] ++ post)).
  { intros Hc. split.
    - intros Hn [|x pre] post E; simplify_eq/=; [|by eapply Hn].
      destruct Hc as [Hc|Hc]; [by rewrite (proj2 (is_hyphen_eq hyphen) eq_refl) in Hc|].
      specialize (Hc _ _ eq_refl). by rewrite (proj2 (is_hyphen_eq hyphen) eq_refl) in Hc.
    - intros Hn pre post ->. by apply (Hn (c :: pre) post). }
  destruct (is_lower c) eqn:Hlo.
  { assert (is_hyphen c = false) by (unfold is_lower, is_hyphen in *; lia).
    assert (label_char c) by (unfold label_char; tauto). rewrite IH, (Forall_cons _ c), Hcons by auto. cbn [orb].
    rewrite orb_true_r. tauto. }
  destruct (is_digit c) eqn:Hdi.
  { assert (is_hyphen c = false) by (unfold is_digit, is_hyphen in *; lia).
    assert (label_char c) by (unfold label_char; tauto). rewrite IH, (Forall_cons _ c), Hcons by auto. cbn [orb]. tauto. }
  destruct (is_hyphen c) eqn:Hhy.
  2: { split; [done|]. intros (Hc & _). apply Forall_cons in Hc as [[?|[?|?]] _]; congruence. }
  destruct label as [|n rest].
  { assert (label_char c) by (unfold label_char; tauto). rewrite IH, (Forall_cons _ c), Hcons by by right. cbn [orb]. tauto. }
  destruct (is_hyphen n) eqn:Hn.
  { split; [done|]. intros (_ & Hs & _). apply is_hyphen_eq in Hhy as ->, Hn as ->. by destruct (Hs [] rest). }
  assert (label_char c) by (unfold label_char; tauto). rewrite IH, (Forall_cons _ c), Hcons by (right; intros ?? [= <- <-]; done).
  cbn [orb]. tauto.
Qed.

Lemma starts_hyphen label :
  match head label with Some c => is_hyphen c | None => false end = false <-> forall rest, label <> hyphen :: rest.
Proof.
  destruct label as [|c label]; simpl; [by split|]. split.
  - intros Hc rest [= -> ->]. by rewrite (proj2 (is_hyphen_eq hyphen) eq_refl) in Hc.
  - intros Hn. destruct (is_hyphen c) eqn:E; [|done]. apply is_hyphen_eq in E as ->. by destruct (Hn label).
Qed.
Lemma ends_hyphen label :
  match last label with Some c => is_hyphen c | None => false end = false <-> forall init, label <> init ++ [hyphen].
Proof.
  destruct (last label) as [c|] eqn:E.
  - apply last_Some in E as [l ->]. split.
    + intros Hc init [-> [= ->]]%app_inj_2; [|done]. by rewrite (proj2 (is_hyphen_eq hyphen) eq_refl) in Hc.
    + intros Hn. destruct (is_hyphen c) eqn:E; [|done]. apply is_hyphen_eq in E as ->. by destruct (Hn l).
  - apply last_None in E as ->. split; [|done]. intros _ init E. by destruct init.
Qed.

(** The labels that are accepted are exactly those of 5 to 32 characters
    of [a-z0-9-] with at least one letter, no hyphen at either end, no two
    hyphens in a row, and not reserved (the prefix "xn--" is covered by the
    rule on double hyphens). *)
Theorem ValidateNameLabel_correct label : ValidateNameLabel label = NV_NONE <-> label_spec label.
Proof.
  assert (Hres : existsb (fun r => bool_decide (label = r)) RESERVED = true <-> label ∈ RESERVED).
  { rewrite existsb_exists. split.
    - intros (r & Hin%list_elem_of_In & E%bool_decide_eq_true). by subst.
    - intros Hin. exists label. by rewrite <- list_elem_of_In, bool_decide_eq_true. }
  unfold ValidateNameLabel, NAME_MIN_LABEL_LENGTH, NAME_MAX_LABEL_LENGTH. split.
  - intros E. walk E. destruct (label_loop label false) as [e|b] eqn:Hl.
    { exfalso. subst e. clear - Hl. revert Hl. generalize false.
      induction label as [|c label IH]; intros b; cbn [label_loop]; [done|].
      repeat case_match; eauto; done. }
    apply label_loop_spec in Hl as (Hc & Hs & ->). walk E. guards.
    constructor; [lia|done| |done|by apply starts_hyphen|by apply ends_hyphen|].
    + cbn [orb] in *. match goal with H : existsb is_lower _ = true |- _ => apply existsb_exists in H as (c & Hin & Hc') end.
      exists c. by rewrite list_elem_of_In.
    + rewrite <- Hres. congruence.
  - intros [Hlen Hc [c [Hin Hlo]] Hs Hf Hla Hfree].
    rewrite (proj2 (Z.eqb_neq _ _)), (proj2 (Z.ltb_ge _ 5)), (proj2 (Z.ltb_ge 32 _)) by lia.
    rewrite bool_decide_eq_false_2.
    2: { intros E. apply (Hs (str "xn") (drop 4 label)). rewrite <- (take_drop 4 label) at 1. by rewrite E. }
    rewrite (proj2 (label_loop_spec label false true)).
    + rewrite (proj2 (starts_hyphen label)), (proj2 (ends_hyphen label)) by done. cbn [orb negb].
      destruct (existsb _ RESERVED); [|done]. destruct Hfree. by apply Hres.
    + split_and!; [done..|]. cbn [orb]. symmetry. apply existsb_exists. exists c. by rewrite <- list_elem_of_In.
Qed.

(** * Name codecs

    Round trips of the payloads and of the registry of
    [src/src/cybou/name_registry.h]. *)

(** ** Payloads *)

Lemma NameCommitPayload_decode_encode p l :
  SerializeNameCommitPayload p = Some l -> DeserializeNameCommitPayload l = Some p /\ zlen l = 32.
Proof.
  unfold SerializeNameCommitPayload, DeserializeNameCommitPayload. intros E. walk E. some_inj E.
  rewrite zlen_arr. simpl Z.eqb. cbn [negb]. rewrite subspan_whole, arr_of_arr by len.
  cbn [commitment]. rewrite Hif. by destruct p.
Qed.
Lemma NameCommitPayload_encode_decode p l :
  DeserializeNameCommitPayload l = Some p -> SerializeNameCommitPayload p = Some l.
Proof.
  unfold SerializeNameCommitPayload, DeserializeNameCommitPayload, NAME_COMMIT_PAYLOAD_SIZE.
  intros E. walk E. some_inj E. guards. rewrite Hif0. cbn [commitment]. f_equal.
  rewrite subspan_whole by done. by apply arr_of_val.
Qed.

Definition claim_work_wf (w : NameClaimWork) : Prop := is_u64 (ncw_work_epoch w) /\ is_u64 (ncw_nonce w).

Lemma zlen_SerializeNameClaimWork w l : SerializeNameClaimWork w = Some l -> zlen l = 112.
Proof. unfold SerializeNameClaimWork. intros E. walk E. some_inj E. len. Qed.
Lemma NameClaimWork_decode_encode w l : claim_work_wf w ->
  SerializeNameClaimWork w = Some l -> DeserializeNameClaimWork l = Some w.
Proof.
  intros [H1 H2] E. pose proof (zlen_SerializeNameClaimWork _ _ E) as Hl.
  unfold SerializeNameClaimWork in E. walk E. some_inj E. guards.
  unfold DeserializeNameClaimWork, NAME_CLAIM_WORK_SIZE. rewrite Hl, Z.eqb_refl. cbn [negb].
  cut. rewrite AccountId_FromBytes_arr. destruct (IsNull (ncw_account_id w)); [done|].
  rewrite !arr_of_arr, !le_val_u64 by done. cbn [ncw_network_binding ncw_commitment].
  destruct w as [nb a c e n]; simpl in *. by repeat match goal with H : IsNull _ = false |- _ => rewrite H end.
Qed.
Lemma NameClaimWork_encode_decode w l :
  DeserializeNameClaimWork l = Some w -> SerializeNameClaimWork w = Some l /\ claim_work_wf w.
Proof.
  unfold DeserializeNameClaimWork, NAME_CLAIM_WORK_SIZE. intros E. walk E. some_inj E. guards.
  cbn [ncw_network_binding ncw_commitment] in *. apply AccountId_FromBytes_inv in Hopt as [E1 N1].
  unfold SerializeNameClaimWork. cbn [ncw_network_binding ncw_account_id ncw_commitment ncw_work_epoch ncw_nonce].
  repeat match goal with H : IsNull _ = false |- _ => rewrite H end. cbn [orb]. split.
  - f_equal. rewrite <- E1. rewrite !(arr_of_subspan 32), !(le_bytes_subspan _ _ 8) by len. glue.
    apply subspan_whole; lia.
  - split; apply is_u64_le_val; apply Nat2Z.inj; change (Z.of_nat (length ?l)) with (zlen l); rewrite zlen_subspan; lia.
Qed.

(** The label field: [label] followed by zeros up to 32 bytes. *)
Lemma label_field label : zlen label <= 32 ->
  arr_val (arr_of 32 label) = label ++ replicate (Z.to_nat (32 - zlen label)) x00.
Proof.
  intros Hl. unfold arr_of. cbn [arr_val]. rewrite resize_ge by (unfold zlen in Hl; lia).
  do 2 f_equal. unfold zlen. lia.
Qed.
Lemma all_zero_replicate n : all_zero (replicate n x00) = true.
Proof. apply forallb_forall. intros b Hb%list_elem_of_In. by apply elem_of_replicate in Hb as [-> _]. Qed.
Lemma all_zero_eq l : all_zero l = true -> l = replicate (length l) x00.
Proof.
  induction l as [|b l IH]; [done|]. simpl. intros [Hb Hl]%andb_prop. f_equal; [|by apply IH].
  apply zb_inj. apply Z.eqb_eq in Hb. by rewrite Hb.
Qed.
Lemma zlen_replicate (n : nat) : zlen (replicate n x00) = Z.of_nat n.
Proof. unfold zlen. by rewrite length_replicate. Qed.

Lemma zlen_SerializeNameRevealPayload p l : SerializeNameRevealPayload p = Some l -> zlen l = 177.
Proof.
  unfold SerializeNameRevealPayload. intros E. walk E. some_inj E.
  apply zlen_SerializeNameClaimWork in Hopt. len.
Qed.
Lemma NameRevealPayload_decode_encode p l : claim_work_wf (nr_work p) ->
  SerializeNameRevealPayload p = Some l -> DeserializeNameRevealPayload l = Some p.
Proof.
  intros Hw E. pose proof (zlen_SerializeNameRevealPayload _ _ E) as Hl.
  unfold SerializeNameRevealPayload, NAME_MIN_LABEL_LENGTH, NAME_MAX_LABEL_LENGTH in E. walk E. some_inj E. guards.
  pose proof (zlen_SerializeNameClaimWork _ _ Hopt) as Hwl.
  unfold DeserializeNameRevealPayload, NAME_REVEAL_PAYLOAD_SIZE, NAME_CLAIM_WORK_SIZE. rewrite Hl. simpl Z.eqb. cbn [negb].
  rewrite label_field by lia. repeat rewrite <- app_assoc.
  assert (Hlen : le_val (le_bytes 1 (zlen (nr_label p))) = zlen (nr_label p))
    by (rewrite le_val_le_bytes; apply Z.mod_small; change (2 ^ (8 * Z.of_nat 1)) with 256; lia).
  rewrite (subspan_at (le_bytes 1 _)), Hlen by len.
  rewrite (proj2 (Z.ltb_ge _ NAME_MIN_LABEL_LENGTH)), (proj2 (Z.ltb_ge NAME_MAX_LABEL_LENGTH _)) by done.
  cbn [orb].
  rewrite (subspan_skip (le_bytes 1 _) _ 1), (subspan_at (nr_label p)) by len.
  rewrite (subspan_skip (le_bytes 1 _) _ (1 + _)), (subspan_skip (nr_label p)) by len.
  rewrite (subspan_at (replicate _ _)) by (rewrite ?zlen_replicate; len).
  rewrite all_zero_replicate. cbn [negb].
  rewrite !(subspan_skip (le_bytes 1 _)), !(subspan_skip (nr_label p)), !(subspan_skip (replicate _ _))
    by (rewrite ?zlen_replicate; len).
  rewrite (subspan_at (arr_val (nr_salt p))) by (rewrite ?zlen_replicate; len).
  rewrite arr_of_arr, Hif0, (subspan_skip (arr_val (nr_salt p))) by (rewrite ?zlen_replicate; len).
  rewrite subspan_whole by (rewrite ?zlen_replicate; len).
  rewrite (NameClaimWork_decode_encode _ _ Hw Hopt). by destruct p.
Qed.
Lemma NameRevealPayload_encode_decode p l :
  DeserializeNameRevealPayload l = Some p -> SerializeNameRevealPayload p = Some l /\ claim_work_wf (nr_work p).
Proof.
  unfold DeserializeNameRevealPayload, NAME_REVEAL_PAYLOAD_SIZE, NAME_CLAIM_WORK_SIZE. intros E. walk E. some_inj E. guards.
  unfold NAME_MIN_LABEL_LENGTH, NAME_MAX_LABEL_LENGTH in *.
  apply NameClaimWork_encode_decode in Hopt as [Ew Hw]. split; [|done].
  unfold SerializeNameRevealPayload, NAME_MIN_LABEL_LENGTH, NAME_MAX_LABEL_LENGTH. cbn [nr_label nr_salt nr_work].
  set (ll := le_val (subspan l 0 1)) in *.
  rewrite zlen_subspan by lia. rewrite (proj2 (Z.ltb_ge _ _)), (proj2 (Z.ltb_ge _ _)) by lia. cbn [orb].
  rewrite Ew. destruct (all_zero _) eqn:Hz in Hif2; [done|]. rewrite Hz. f_equal.
  rewrite label_field by (rewrite zlen_subspan; lia).
  rewrite zlen_subspan by lia.
  replace (replicate (Z.to_nat (32 - ll)) x00) with (subspan l (1 + ll) (32 - ll))
    by (rewrite (all_zero_eq _ Hif1) at 1; f_equal; pose proof (zlen_subspan l (1 + ll) (32 - ll)); unfold zlen in *; lia).
  assert (E1 : le_bytes 1 ll = subspan l 0 1) by (apply (le_bytes_subspan l 0 1); len).
  rewrite E1, (arr_of_subspan 32) by len.
  repeat rewrite <- app_assoc. glue. apply subspan_whole; lia.
Qed.

(** ** The registry *)

Definition label_storable (label : bytes) : Prop :=
  ValidateNameLabel label = NV_NONE \/ ValidateNameLabel label = NV_PROTECTED_NAME.

Record names_wf (reg : NameRegistry) : Prop := {
  nw_inverse : forall label acc, names reg !! label = Some acc <-> account_names reg !! acc = Some label;
  nw_name : forall label acc, names reg !! label = Some acc -> label_storable label /\ IsNull acc = false;
  nw_commit : forall c r, pending_commits reg !! c = Some r ->
    IsNull c = false /\ IsNull (cr_account_id r) = false /\ is_u64 (commit_height r);
}.

Lemma label_storable_length label : label_storable label -> 5 <= zlen label <= 32.
Proof.
  assert (H : forall e, ValidateNameLabel label = e ->
    e <> NV_EMPTY -> e <> NV_TOO_SHORT -> e <> NV_TOO_LONG -> 5 <= zlen label <= 32).
  { intros e E H1 H2 H3. unfold ValidateNameLabel, NAME_MIN_LABEL_LENGTH, NAME_MAX_LABEL_LENGTH in E.
    destruct (Z.eqb_spec (zlen label) 0); [congruence|].
    destruct (Z.ltb_spec (zlen label) 5); [congruence|].
    destruct (Z.ltb_spec 32 (zlen label)); [congruence|]. lia. }
  intros [E|E]; by eapply H.
Qed.

Lemma read_names_ok l : forall reg rest,
  Forall (fun x => label_storable x.1 /\ IsNull x.2 = false) l ->
  NoDup l.*1 -> NoDup l.*2 ->
  (forall x, x ∈ l -> names reg !! x.1 = None /\ account_names reg !! x.2 = None) ->
  read_names (length l) reg (mjoin (name_bytes <$> l) ++ rest) =
    Some (mkNameRegistry (emplace_all (names reg) l) (emplace_all (account_names reg) (prod_swap <$> l))
            (pending_commits reg), rest).
Proof.
  induction l as [|[label acc] l IH]; intros reg rest Hok Hnd1 Hnd2 Hfresh; [by destruct reg|].
  inversion Hok as [|? ? [Hst Hnull] Hok']; subst. simpl in Hst, Hnull.
  rewrite fmap_cons in Hnd1. rewrite fmap_cons in Hnd2. apply NoDup_cons in Hnd1 as [N1 Hnd1], Hnd2 as [N2 Hnd2].
  destruct (Hfresh (label, acc)) as [F1 F2]; [left|]. simpl in F1, F2, N1, N2.
  pose proof (label_storable_length _ Hst) as Hlen.
  assert (Hv : le_val (le_bytes 1 (zlen label)) = zlen label)
    by (rewrite le_val_le_bytes; apply Z.mod_small; change (2 ^ (8 * Z.of_nat 1)) with 256; lia).
  rewrite fmap_cons, mjoin_cons. unfold name_bytes at 1. cbn [fst snd length read_names].
  repeat rewrite <- app_assoc.
  pose proof (zlen_nonneg (mjoin (name_bytes <$> l) ++ rest)) as Hrest.
  set (tail := mjoin (name_bytes <$> l) ++ rest) in *.
  rewrite (proj2 (Z.eqb_neq _ 0)) by len.
  rewrite (subspan_at (le_bytes 1 _)), Hv by len.
  rewrite (drop_app_length' (le_bytes 1 _)) by by rewrite length_le_bytes.
  rewrite (proj2 (Z.ltb_ge _ NAME_MIN_LABEL_LENGTH)), (proj2 (Z.ltb_ge NAME_MAX_LABEL_LENGTH _)) by (unfold NAME_MIN_LABEL_LENGTH, NAME_MAX_LABEL_LENGTH; lia).
  rewrite (proj2 (Z.ltb_ge _ (zlen label + 32))) by len. cbn [orb].
  rewrite (subspan_at label), (drop_app_length' label) by (unfold zlen; lia).
  replace (negb (bool_decide (ValidateNameLabel label = NV_NONE))
        && negb (bool_decide (ValidateNameLabel label = NV_PROTECTED_NAME))) with false
    by (destruct Hst as [-> | ->]; done).
  rewrite (subspan_at (arr_val acc)), (drop_app_length' (arr_val acc)) by (pose proof (zlen_arr acc); unfold zlen in *; lia).
  rewrite AccountId_FromBytes_arr, Hnull, F1, F2. cbn [orb].
  rewrite !bool_decide_eq_false_2 by (by intros [? ?]). cbn [orb]. unfold tail.
  rewrite IH; [done|done|done|done|].
  intros [label' acc'] Hin. cbn [names account_names fst snd].
  destruct (Hfresh (label', acc')) as [F1' F2']; [by right|]. cbn [fst snd] in F1', F2'.
  rewrite !lookup_insert_ne; [done| |].
  - intros <-. apply N2. apply list_elem_of_fmap. by exists (label', acc).
  - intros <-. apply N1. apply list_elem_of_fmap. by exists (label, acc').
Qed.

Lemma read_commits_ok l : forall reg,
  Forall (fun x => IsNull x.1 = false /\ IsNull (cr_account_id x.2) = false /\ is_u64 (commit_height x.2)) l ->
  NoDup l.*1 -> (forall c, c ∈ l.*1 -> pending_commits reg !! c = None) ->
  read_commits (length l) reg (mjoin (commit_bytes <$> l)) =
    Some (mkNameRegistry (names reg) (account_names reg) (emplace_all (pending_commits reg) l)).
Proof.
  induction l as [|[c [acc h]] l IH]; intros reg Hok Hnd Hfresh; [by destruct reg|].
  inversion Hok as [|? ? (H1 & H2 & H3) Hok']; subst. simpl in H1, H2, H3.
  rewrite fmap_cons in Hnd, Hfresh. apply NoDup_cons in Hnd as [N Hnd]. simpl in N.
  rewrite fmap_cons, mjoin_cons. unfold commit_bytes at 1. cbn [fst snd length read_commits cr_account_id commit_height].
  repeat rewrite <- app_assoc. cut.
  rewrite arr_of_arr, H1, AccountId_FromBytes_arr, H2, le_val_u64 by done.
  rewrite bool_decide_eq_false_2 by (rewrite Hfresh; [by intros [? ?]|left]).
  assert (Hd : drop 72 (arr_val c ++ arr_val acc ++ le_bytes 8 h ++ mjoin (commit_bytes <$> l)) = mjoin (commit_bytes <$> l)).
  { rewrite !app_assoc. apply drop_app_length'. apply Nat2Z.inj. change (Z.of_nat (length ?l)) with (zlen l). len. }
  rewrite Hd, IH; [done|done|done|]. intros c' Hc'. cbn [pending_commits].
  rewrite lookup_insert_ne by (intros ->; done). apply Hfresh. by right.
Qed.

Lemma zlen_commit_bytes l : zlen (mjoin (commit_bytes <$> l)) = zlen l * 72.
Proof.
  induction l as [|x l IH]; [done|]. rewrite fmap_cons, mjoin_cons, zlen_app, zlen_cons, IH.
  unfold commit_bytes. len.
Qed.

Lemma NameRegistry_reads_back reg :
  names_wf reg -> Z.of_nat (size (names reg)) <= MAX32 -> Z.of_nat (size (pending_commits reg)) <= MAX32 ->
  DeserializeNameRegistry (SerializeNameRegistry reg) = Some reg.
Proof.
  intros [Hinv Hname Hcommit] S1 S2. unfold SerializeNameRegistry, DeserializeNameRegistry.
  rewrite !wrap32_small by ulia.
  set (n := entries (names reg)). set (c := entries (pending_commits reg)).
  assert (Hin : forall label acc, (label, acc) ∈ n <-> names reg !! label = Some acc) by (intros; apply elem_of_entries).
  assert (Hn : Forall (fun x => label_storable x.1 /\ IsNull x.2 = false) n).
  { apply Forall_forall. intros [label acc] Hx%Hin. eauto. }
  assert (Hnd1 : NoDup n.*1) by apply NoDup_keys.
  assert (Hnd2 : NoDup (prod_swap <$> n).*1).
  { apply NoDup_fmap_fst.
    - intros acc l1 l2 ([? ?] & ? & Hx)%list_elem_of_fmap ([? ?] & ? & Hy)%list_elem_of_fmap. simplify_eq/=.
      apply Hin, Hinv in Hx, Hy. congruence.
    - apply NoDup_fmap; [apply _|]. by eapply NoDup_fmap_1. }
  rewrite (proj2 (Z.ltb_ge _ _)) by (pose proof (zlen_nonneg (mjoin (name_bytes <$> n)));
    pose proof (zlen_nonneg (mjoin (commit_bytes <$> c))); len).
  rewrite (subspan_at (le_bytes 4 _)) by len. rewrite le_val_u32 by ulia.
  rewrite Nat2Z.id, (drop_app_length' (le_bytes 4 _)) by by rewrite length_le_bytes.
  rewrite <- length_entries. fold n. rewrite read_names_ok; [|done|done| |intros; split; apply lookup_empty].
  2: { replace n.*2 with (prod_swap <$> n).*1; [done|]. rewrite <- list_fmap_compose. by apply list_fmap_ext. }
  cbn [names account_names pending_commits].
  rewrite (proj2 (Z.ltb_ge _ 4)) by (pose proof (zlen_nonneg (mjoin (commit_bytes <$> c))); len).
  rewrite (subspan_at (le_bytes 4 _)) by len. rewrite le_val_u32 by ulia.
  rewrite (drop_app_length' (le_bytes 4 _)) by by rewrite length_le_bytes.
  rewrite zlen_commit_bytes. unfold zlen. unfold c at 1. rewrite length_entries, Z.eqb_refl. cbn [negb].
  rewrite Nat2Z.id, <- length_entries. fold c. rewrite read_commits_ok.
  - cbn [names account_names pending_commits]. rewrite !emplace_all_empty by (done || apply NoDup_keys).
    unfold n, c. rewrite !list_to_map_entries. destruct reg as [nm an pc]. simpl in *. do 2 f_equal.
    apply map_eq. intros acc. apply option_eq. intros label. rewrite <- elem_of_list_to_map by done. rewrite <- Hinv.
    rewrite <- Hin. unfold n. rewrite list_elem_of_fmap. split.
    + intros ([? ?] & ? & Hx). by simplify_eq/=.
    + intros Hx. by exists (label, acc).
  - apply Forall_forall. intros [x r] Hx%elem_of_entries. eauto.
  - apply NoDup_keys.
  - intros; apply lookup_empty.
Qed.

(** The name registry is read back exactly as it was written. *)
Theorem NameRegistry_roundtrip reg :
  names_wf reg -> Z.of_nat (size (names reg)) <= MAX32 -> Z.of_nat (size (pending_commits reg)) <= MAX32 ->
  DeserializeNameRegistry (SerializeNameRegistry reg) = Some reg.
Proof. apply NameRegistry_reads_back. Qed.
