(* ===== verification/Payloads.v ===== *)
(** * Operation payloads

    The payloads of payments and system locks ([src/src/cybou/payment.cpp]),
    root publications and revocations ([root_publication.cpp]) and storage
    leases ([storage_lease.cpp]): data, encodings, payload commitments and
    the fee of a publication. *)

From S2P Require Import Prelude.
From S2P Require Import Bytes.
From S2P Require Import Codec.
From S2P Require Import Params.
From S2P Require Import Crypto.
From S2P Require Import Identity.

(** ** Payment and system lock *)

Definition PAYMENT_PAYLOAD_SIZE : Z := 40.
Record PaymentPayload : Type := mkPaymentPayload { recipient : AccountId; pay_amount : Z }.
Record AuthorizedPayment : Type := mkAuthorizedPayment {
  pay_authorization : IdentityOperationAuthorization;
  payment : PaymentPayload;
}.
Definition SerializePaymentPayload (p : PaymentPayload) : option bytes :=
  return_if IsNull (recipient p) || (pay_amount p =? 0) with None ;;
  Some (arr_val (recipient p) ++ le_bytes 8 (pay_amount p)).
Definition DeserializePaymentPayload (l : bytes) : option PaymentPayload :=
  return_if negb (zlen l =? PAYMENT_PAYLOAD_SIZE) with None ;;
  let? recipient := AccountId_FromBytes (subspan l 0 32) else None ;;
  let amount := le_val (subspan l 32 8) in
  return_if amount =? 0 with None ;;
  Some (mkPaymentPayload recipient amount).

Definition SYSTEM_LOCK_PAYLOAD_SIZE : Z := 8.
Record SystemLockPayload : Type := mkSystemLockPayload { lock_amount : Z }.
Record AuthorizedSystemLock : Type := mkAuthorizedSystemLock {
  lock_authorization : IdentityOperationAuthorization;
  lock : SystemLockPayload;
}.
Definition SerializeSystemLockPayload (p : SystemLockPayload) : option bytes :=
  return_if lock_amount p =? 0 with None ;;
  Some (le_bytes 8 (lock_amount p)).
Definition DeserializeSystemLockPayload (l : bytes) : option SystemLockPayload :=
  return_if negb (zlen l =? SYSTEM_LOCK_PAYLOAD_SIZE) with None ;;
  let amount := le_val (subspan l 0 8) in
  return_if amount =? 0 with None ;;
  Some (mkSystemLockPayload amount).

(** ** Publications *)

Definition ROOT_PUBLICATION_MAX_BYTES : Z := 131072.
Definition ROOT_PUBLICATION_MAX_OPERATION_BYTES : Z := 147456.
Definition ROOT_PUBLICATION_MAX_CAPSULES : Z := 32.

Record RootRecipientCapsule : Type := mkCapsule {
  kem_profile : Z;
  cap_key_epoch : Z;
  encapsulation : arr 1120;
  wrapped_content_key : arr 60;
}.
Record RootPublication : Type := mkRootPublication {
  root_chunk_id : arr 32;
  pub_chunk_authorization_root : arr 32;
  pub_chunk_count : Z;
  pub_lease_periods : Z;
  recipient_capsules : list RootRecipientCapsule;
}.
Record AuthorizedRootPublication : Type := mkAuthorizedRootPublication {
  rp_authorization : IdentityOperationAuthorization;
  publication : RootPublication;
}.

Definition RootPublication_IsValid (p : RootPublication) : bool :=
  return_if all_zero (arr_val (root_chunk_id p)) || all_zero (arr_val (pub_chunk_authorization_root p))
    || (pub_chunk_count p =? 0) || (zlen (recipient_capsules p) =? 0)
    || (ROOT_PUBLICATION_MAX_CAPSULES <? zlen (recipient_capsules p)) with false ;;
  forallb (fun c => kem_profile c =? IDENTITY_KEM_PROFILE_XWING) (recipient_capsules p).

Fixpoint write_capsules (w : BinaryWriter) (l : list RootRecipientCapsule) : outcome BinaryWriter :=
  match l with
  | [] => Ret w
  | c :: rest =>
      try! w := w_U16 w (kem_profile c) ;;
      try! w := w_U64 w (cap_key_epoch c) ;;
      try! w := w_Fixed w (arr_val (encapsulation c)) ;;
      try! w := w_Fixed w (arr_val (wrapped_content_key c)) ;;
      write_capsules w rest
  end.
(** [catch (...) { return std::nullopt; }] *)
Definition catch_none {A} (m : outcome A) : option A :=
  match m with Ret a => Some a | Throw => None end.

Definition SerializeRootPublication (p : RootPublication) : option bytes :=
  return_if negb (RootPublication_IsValid p) with None ;;
  catch_none (
    try! w := w_Fixed (w_new ROOT_PUBLICATION_MAX_BYTES) (arr_val (root_chunk_id p)) ;;
    try! w := w_Fixed w (arr_val (pub_chunk_authorization_root p)) ;;
    try! w := w_U32 w (pub_chunk_count p) ;;
    try! w := w_U32 w (pub_lease_periods p) ;;
    try! w := w_U16 w (wrap16 (zlen (recipient_capsules p))) ;;
    try! w := write_capsules w (recipient_capsules p) ;;
    Ret (w_bytes w)).

Fixpoint read_capsules (count : nat) (r : BinaryReader) : outcome (list RootRecipientCapsule * BinaryReader) :=
  match count with
  | O => Ret ([], r)
  | S count =>
      try! (profile, r) := r_U16 r ;;
      try! (epoch, r) := r_U64 r ;;
      try! (enc, r) := r_Arr 1120 r ;;
      try! (key, r) := r_Arr 60 r ;;
      try! (rest, r) := read_capsules count r ;;
      Ret (mkCapsule profile epoch enc key :: rest, r)
  end.
Definition DeserializeRootPublication (l : bytes) : option RootPublication :=
  default None (catch_none (
    try! r := r_new l ROOT_PUBLICATION_MAX_BYTES ;;
    try! (root, r) := r_Arr 32 r ;;
    try! (auth_root, r) := r_Arr 32 r ;;
    try! (chunks, r) := r_U32 r ;;
    try! (periods, r) := r_U32 r ;;
    try! (count, r) := r_U16 r ;;
    return_if (count =? 0) || (ROOT_PUBLICATION_MAX_CAPSULES <? count) with Ret None ;;
    try! (capsules, r) := read_capsules (Z.to_nat count) r ;;
    try! _ := r_Finish r ;;
    let p := mkRootPublication root auth_root chunks periods capsules in
    Ret (if RootPublication_IsValid p then Some p else None))).

(** [size_t] is 64 bits wide. *)
Definition ComputeRootPublicationFee (params : CybouProtocolParameters)
    (canonical_operation_bytes chunk_count : Z) : option Z :=
  return_if (canonical_operation_bytes =? 0) || (ROOT_PUBLICATION_MAX_OPERATION_BYTES <? canonical_operation_bytes)
    || (chunk_count =? 0) || (MAX_PUBLICATION_CHUNKS <? chunk_count) with None ;;
  let kib := (canonical_operation_bytes ⊕ 1023) / 1024 in
  return_if negb (root_publication_fee_per_started_kib params =? 0)
    && (MAX64 / root_publication_fee_per_started_kib params <? kib) with None ;;
  return_if negb (root_publication_fee_per_chunk params =? 0)
    && (MAX64 / root_publication_fee_per_chunk params <? chunk_count) with None ;;
  let byte_fee := kib ⊗ root_publication_fee_per_started_kib params in
  let chunk_fee := chunk_count ⊗ root_publication_fee_per_chunk params in
  return_if MAX64 ⊖ byte_fee <? chunk_fee with None ;;
  Some (byte_fee ⊕ chunk_fee).

Definition REVOKE_PUBLICATION_PAYLOAD_SIZE : Z := 32.
Record RevokePublicationPayload : Type := mkRevokePayload { rev_publication_id : Hash256 }.
Record AuthorizedRevokePublication : Type := mkAuthorizedRevokePublication {
  rev_authorization : IdentityOperationAuthorization;
  revoke : RevokePublicationPayload;
}.
Definition SerializeRevokePublicationPayload (p : RevokePublicationPayload) : option bytes :=
  return_if IsNull (rev_publication_id p) with None ;;
  Some (arr_val (rev_publication_id p)).
Definition DeserializeRevokePublicationPayload (l : bytes) : option RevokePublicationPayload :=
  return_if negb (zlen l =? REVOKE_PUBLICATION_PAYLOAD_SIZE) with None ;;
  let p := mkRevokePayload (arr_of 32 l) in
  return_if IsNull (rev_publication_id p) with None ;;
  Some p.

(** ** Storage leases *)

Definition STORAGE_LEASE_PAYLOAD_SIZE : Z := 36.
Record StorageLeasePayload : Type := mkLeasePayload { lease_publication_id : Hash256; lease_periods : Z }.
Record AuthorizedStorageLease : Type := mkAuthorizedStorageLease {
  lease_authorization : IdentityOperationAuthorization;
  lease : StorageLeasePayload;
}.
Definition SerializeStorageLeasePayload (p : StorageLeasePayload) : option bytes :=
  return_if IsNull (lease_publication_id p) || (lease_periods p =? 0) with None ;;
  Some (arr_val (lease_publication_id p) ++ le_bytes 4 (lease_periods p)).
Definition DeserializeStorageLeasePayload (l : bytes) : option StorageLeasePayload :=
  return_if negb (zlen l =? STORAGE_LEASE_PAYLOAD_SIZE) with None ;;
  let p := mkLeasePayload (arr_of 32 (subspan l 0 32)) (le_val (subspan l 32 4)) in
  let? _ := SerializeStorageLeasePayload p else None ;;
  Some p.

Section commitments.
Context `{CryptoOps}.
Definition ComputePaymentPayloadCommitment (p : PaymentPayload) : option IdentityKeyId :=
  let? l := SerializePaymentPayload p else None ;; ComputeSha256 [str "CYBOU/PAYMENT-PAYLOAD"; l].
Definition ComputeSystemLockPayloadCommitment (p : SystemLockPayload) : option IdentityKeyId :=
  let? l := SerializeSystemLockPayload p else None ;; ComputeSha256 [str "CYBOU/SYSTEM-LOCK-PAYLOAD"; l].
Definition ComputeRootPublicationPayloadCommitment (p : RootPublication) : option IdentityKeyId :=
  let? l := SerializeRootPublication p else None ;; ComputeSha256 [str "CYBOU/ROOT-PUBLICATION/P4"; l].
Definition ComputeRevokePublicationPayloadCommitment (p : RevokePublicationPayload) : option IdentityKeyId :=
  let? l := SerializeRevokePublicationPayload p else None ;;
  ComputeSha256 [str "CYBOU/REVOKE-PUBLICATION-PAYLOAD"; l].
Definition ComputeStorageLeasePayloadCommitment (p : StorageLeasePayload) : option IdentityKeyId :=
  let? l := SerializeStorageLeasePayload p else None ;;
  ComputeSha256 [str "CYBOU/STORAGE-LEASE-PAYLOAD"; l].
End commitments.

(** ** The publication fee *)

Lemma mul_guard a b : 0 <= a -> 0 <= b -> (negb (a =? 0) && (MAX64 / a <? b)) = (MAX64 <? b * a).
Proof.
  intros Ha Hb. destruct (Z.eqb_spec a 0) as [->|Hne]; simpl.
  { rewrite Z.mul_0_r. done. }
  destruct (Z.ltb_spec (MAX64 / a) b) as [H|H]; symmetry.
  - apply Z.ltb_lt. apply Z.nle_gt. intros Hle.
    assert (b <= MAX64 / a) by (apply Z.div_le_lower_bound; lia). lia.
  - apply Z.ltb_ge. transitivity (MAX64 / a * a); [nia|]. rewrite Z.mul_comm. apply Z.mul_div_le. lia.
Qed.

Lemma publication_fee params n chunks :
  params_wf params -> is_u64 n -> is_u32 chunks ->
  let fee := (n + 1023) / 1024 * root_publication_fee_per_started_kib params
             + chunks * root_publication_fee_per_chunk params in
  ComputeRootPublicationFee params n chunks =
    if decide (0 < n <= 147456 /\ 0 < chunks <= 1048576 /\ fee <= MAX64) then Some fee else None.
Proof.
  intros Hp Hn Hc fee. unfold ComputeRootPublicationFee, ROOT_PUBLICATION_MAX_OPERATION_BYTES, MAX_PUBLICATION_CHUNKS.
  destruct (_ || _ || _ || _) eqn:Hb; [rewrite decide_False; [done|ulia]|].
  assert (Hbound : 0 < n <= 147456 /\ 0 < chunks <= 1048576) by ulia. clear Hb.
  rewrite add64_small by ulia. unfold fee. unfold params_wf in Hp.
  assert (Hk : 0 < (n + 1023) / 1024) by dlia. set (k := (n + 1023) / 1024) in *. clearbody k.
  set (a := root_publication_fee_per_started_kib params) in *. set (b := root_publication_fee_per_chunk params) in *.
  assert (Ha : 0 <= a) by ulia. assert (Hb : 0 <= b) by ulia.
  rewrite !mul_guard by lia.
  assert (0 <= k * a /\ 0 <= chunks * b) by nia.
  destruct (Z.ltb_spec MAX64 (k * a)); [rewrite decide_False; [done|lia]|].
  destruct (Z.ltb_spec MAX64 (chunks * b)); [rewrite decide_False; [done|lia]|].
  rewrite !mul64_small, sub64_small by lia.
  destruct (Z.ltb_spec (MAX64 - k * a) (chunks * b)); [rewrite decide_False; [done|lia]|].
  rewrite decide_True by lia. by rewrite add64_small by lia.
Qed.
(** The fee of a publication is exactly [ceil(bytes / 1024)] times the
    rate per started KiB plus the rate per chunk, for every size and count
    within the limits whose fee fits in 64 bits, and is refused otherwise. *)
Theorem ComputeRootPublicationFee_correct params n chunks :
  params_wf params -> is_u64 n -> is_u32 chunks ->
  let fee := (n + 1023) / 1024 * root_publication_fee_per_started_kib params
             + chunks * root_publication_fee_per_chunk params in
  ComputeRootPublicationFee params n chunks =
    if decide (0 < n <= 147456 /\ 0 < chunks <= 1048576 /\ fee <= MAX64) then Some fee else None.
Proof. apply publication_fee. Qed.
Lemma ComputeRootPublicationFee_correct_witness :
  ComputeRootPublicationFee DevProtocolParameters 3000 7 = Some (3 * 4 + 7 * 4).
Proof.
  rewrite (ComputeRootPublicationFee_correct DevProtocolParameters 3000 7);
    [reflexivity|apply DevProtocolParameters_wf|split; discriminate..].
Defined.

(** ** Payload round trips *)

Lemma PaymentPayload_decode_encode p l : is_u64 (pay_amount p) ->
  SerializePaymentPayload p = Some l -> DeserializePaymentPayload l = Some p /\ zlen l = 40.
Proof.
  intros Hu E. unfold SerializePaymentPayload in E. walk E. some_inj E. guards.
  assert (Hl : zlen (arr_val (recipient p) ++ le_bytes 8 (pay_amount p)) = 40) by len.
  split; [|done]. unfold DeserializePaymentPayload, PAYMENT_PAYLOAD_SIZE. rewrite Hl. cbn [Z.eqb Pos.eqb negb]. cut.
  rewrite AccountId_FromBytes_arr, H, le_val_u64 by done.
  rewrite (proj2 (Z.eqb_neq _ _)) by done. by destruct p.
Qed.
Lemma subspan_u64 l off : 0 <= off -> off + 8 <= zlen l -> is_u64 (le_val (subspan l off 8)).
Proof.
  intros. apply is_u64_le_val, Nat2Z.inj. change (Z.of_nat (length ?l)) with (zlen l). rewrite zlen_subspan; lia.
Qed.
Lemma subspan_u32 l off : 0 <= off -> off + 4 <= zlen l -> is_u32 (le_val (subspan l off 4)).
Proof.
  intros. apply is_u32_le_val, Nat2Z.inj. change (Z.of_nat (length ?l)) with (zlen l). rewrite zlen_subspan; lia.
Qed.
Lemma PaymentPayload_encode_decode p l : DeserializePaymentPayload l = Some p ->
  SerializePaymentPayload p = Some l /\ is_u64 (pay_amount p).
Proof.
  unfold DeserializePaymentPayload, PAYMENT_PAYLOAD_SIZE. intros E. walk E. some_inj E. guards.
  apply AccountId_FromBytes_inv in Hopt as [E1 N1]. split; [|apply subspan_u64; lia].
  unfold SerializePaymentPayload. cbn [recipient pay_amount]. rewrite N1, (proj2 (Z.eqb_neq _ _)) by done.
  cbn [orb]. f_equal. rewrite <- E1, (le_bytes_subspan _ _ 8) by len. glue. apply subspan_whole; lia.
Qed.

Lemma SystemLockPayload_decode_encode p l : is_u64 (lock_amount p) ->
  SerializeSystemLockPayload p = Some l -> DeserializeSystemLockPayload l = Some p /\ zlen l = 8.
Proof.
  intros Hu E. unfold SerializeSystemLockPayload in E. walk E. some_inj E. guards.
  split; [|len]. unfold DeserializeSystemLockPayload, SYSTEM_LOCK_PAYLOAD_SIZE. rewrite zlen_le_bytes. change (Z.of_nat 8 =? 8) with true. cbn [negb].
  rewrite subspan_whole, le_val_u64 by (done || len). rewrite (proj2 (Z.eqb_neq _ _)) by done. by destruct p.
Qed.
Lemma SystemLockPayload_encode_decode p l : DeserializeSystemLockPayload l = Some p ->
  SerializeSystemLockPayload p = Some l /\ is_u64 (lock_amount p).
Proof.
  unfold DeserializeSystemLockPayload, SYSTEM_LOCK_PAYLOAD_SIZE. intros E. walk E. some_inj E. guards.
  split; [|apply subspan_u64; lia]. unfold SerializeSystemLockPayload. cbn [lock_amount].
  rewrite (proj2 (Z.eqb_neq _ _)) by done. f_equal. rewrite (le_bytes_subspan _ _ 8) by len. apply subspan_whole; lia.
Qed.

Lemma RevokePayload_decode_encode p l :
  SerializeRevokePublicationPayload p = Some l -> DeserializeRevokePublicationPayload l = Some p /\ zlen l = 32.
Proof.
  unfold SerializeRevokePublicationPayload. intros E. walk E. some_inj E. split; [|len].
  unfold DeserializeRevokePublicationPayload, REVOKE_PUBLICATION_PAYLOAD_SIZE. rewrite zlen_arr.
  cbn [Z.of_N Z.eqb Pos.eqb negb]. rewrite arr_of_arr. cbn [rev_publication_id]. rewrite Hif. by destruct p.
Qed.
Lemma RevokePayload_encode_decode p l :
  DeserializeRevokePublicationPayload l = Some p -> SerializeRevokePublicationPayload p = Some l.
Proof.
  unfold DeserializeRevokePublicationPayload, REVOKE_PUBLICATION_PAYLOAD_SIZE. intros E. walk E. some_inj E. guards.
  unfold SerializeRevokePublicationPayload. cbn [rev_publication_id] in *. rewrite Hif0. f_equal. by apply arr_of_val.
Qed.

Lemma StorageLeasePayload_decode_encode p l : is_u32 (lease_periods p) ->
  SerializeStorageLeasePayload p = Some l -> DeserializeStorageLeasePayload l = Some p /\ zlen l = 36.
Proof.
  intros Hu E. pose proof E as E'. unfold SerializeStorageLeasePayload in E. walk E. some_inj E. guards.
  assert (Hl : zlen (arr_val (lease_publication_id p) ++ le_bytes 4 (lease_periods p)) = 36) by len.
  split; [|done]. unfold DeserializeStorageLeasePayload, STORAGE_LEASE_PAYLOAD_SIZE. rewrite Hl. cbn [Z.eqb Pos.eqb negb]. cut.
  rewrite arr_of_arr, le_val_u32 by done. destruct p as [i n]. cbn [lease_publication_id lease_periods] in *. by rewrite E'.
Qed.
Lemma StorageLeasePayload_encode_decode p l : DeserializeStorageLeasePayload l = Some p ->
  SerializeStorageLeasePayload p = Some l /\ is_u32 (lease_periods p).
Proof.
  unfold DeserializeStorageLeasePayload, STORAGE_LEASE_PAYLOAD_SIZE. intros E. walk E. some_inj E. guards.
  split; [|apply subspan_u32; lia]. unfold SerializeStorageLeasePayload in *. walk Hif0. f_equal.
  cbn [lease_publication_id lease_periods].
  rewrite (arr_of_subspan 32), (le_bytes_subspan _ _ 4) by len. glue. apply subspan_whole; lia.
Qed.

(** * The publication codec

    [SerializeRootPublication] and [DeserializeRootPublication] of
    [src/src/cybou/root_publication.cpp] are inverse to each other. *)

Definition capsule_bytes (c : RootRecipientCapsule) : bytes :=
  le_bytes 2 (kem_profile c) ++ le_bytes 8 (cap_key_epoch c) ++ arr_val (encapsulation c)
  ++ arr_val (wrapped_content_key c).
Definition publication_bytes (p : RootPublication) : bytes :=
  arr_val (root_chunk_id p) ++ arr_val (pub_chunk_authorization_root p) ++ le_bytes 4 (pub_chunk_count p)
  ++ le_bytes 4 (pub_lease_periods p) ++ le_bytes 2 (zlen (recipient_capsules p))
  ++ mjoin (capsule_bytes <$> recipient_capsules p).

Definition capsule_wf (c : RootRecipientCapsule) : Prop := is_u16 (kem_profile c) /\ is_u64 (cap_key_epoch c).
Definition publication_wf (p : RootPublication) : Prop :=
  is_u32 (pub_chunk_count p) /\ is_u32 (pub_lease_periods p) /\ Forall capsule_wf (recipient_capsules p).

Lemma zlen_capsule_bytes c : zlen (capsule_bytes c) = 1190.
Proof. unfold capsule_bytes. len. Qed.
Lemma zlen_capsules l : zlen (mjoin (capsule_bytes <$> l)) = zlen l * 1190.
Proof. induction l as [|c l IH]; [done|]. rewrite fmap_cons, mjoin_cons, zlen_app, zlen_cons, zlen_capsule_bytes, IH. lia. Qed.
#[local] Hint Rewrite zlen_capsule_bytes zlen_capsules : zlen.

Lemma w_put_put w a b : w_put (w_put w a) b = w_put w (a ++ b).
Proof. unfold w_put. simpl. by rewrite app_assoc. Qed.
Lemma w_put_nil w : w_put w [] = w.
Proof. unfold w_put. rewrite app_nil_r. by destruct w. Qed.

Lemma write_capsules_ok l : forall w, zlen (w_bytes w) + zlen l * 1190 <= w_limit w <= MAX64 ->
  write_capsules w l = Ret (w_put w (mjoin (capsule_bytes <$> l))).
Proof.
  induction l as [|c l IH]; intros w Hw; cbn [write_capsules]; [by rewrite w_put_nil|].
  rewrite zlen_cons in Hw. pose proof (zlen_nonneg l).
  unfold w_U16, w_U64. rewrite !w_int_Fixed.
  rewrite w_Fixed_ok by len. cbn [outcome_bind]. rewrite w_int_Fixed.
  rewrite w_Fixed_ok by (cbn [w_bytes w_limit w_put]; len). cbn [outcome_bind].
  rewrite w_Fixed_ok by (cbn [w_bytes w_limit w_put]; len). cbn [outcome_bind].
  rewrite w_Fixed_ok by (cbn [w_bytes w_limit w_put]; len). cbn [outcome_bind].
  rewrite IH by (cbn [w_bytes w_limit w_put]; len). rewrite !w_put_put.
  rewrite fmap_cons, mjoin_cons. unfold capsule_bytes at 2. by repeat rewrite <- app_assoc.
Qed.

Lemma RootPublication_IsValid_count p : RootPublication_IsValid p = true -> 0 < zlen (recipient_capsules p) <= 32.
Proof.
  unfold RootPublication_IsValid, ROOT_PUBLICATION_MAX_CAPSULES. intros H. walk H. guards.
  pose proof (zlen_nonneg (recipient_capsules p)). lia.
Qed.

(** Thirty-two capsules always fit the limit of the writer, so a valid
    publication is always encoded. *)
Lemma SerializeRootPublication_eq p :
  SerializeRootPublication p = if RootPublication_IsValid p then Some (publication_bytes p) else None.
Proof.
  unfold SerializeRootPublication. destruct (RootPublication_IsValid p) eqn:Hv; [|done]. cbn [negb].
  apply RootPublication_IsValid_count in Hv.
  unfold w_U32, w_U16. rewrite w_Fixed_ok by (cbn [w_bytes w_limit w_new]; unfold ROOT_PUBLICATION_MAX_BYTES, MAX64; len).
  cbn [outcome_bind].
  do 4 (rewrite ?w_int_Fixed; rewrite w_Fixed_ok by
    (cbn [w_bytes w_limit w_put w_new]; unfold ROOT_PUBLICATION_MAX_BYTES, MAX64; len); cbn [outcome_bind]).
  rewrite write_capsules_ok by (cbn [w_bytes w_limit w_put w_new]; unfold ROOT_PUBLICATION_MAX_BYTES, MAX64; len).
  cbn [outcome_bind]. rewrite !w_put_put. cbn [catch_none w_bytes w_put w_new app]. f_equal.
  unfold publication_bytes. unfold wrap16. rewrite (Z.mod_small _ 65536) by lia. by repeat rewrite <- app_assoc.
Qed.

Lemma read_capsules_ok l : forall r y, Forall capsule_wf l -> at_suffix r (mjoin (capsule_bytes <$> l) ++ y) ->
  exists r', read_capsules (length l) r = Ret (l, r') /\ at_suffix r' y.
Proof.
  induction l as [|c l IH]; intros r y Hwf Hr; cbn [length read_capsules]; [by exists r|].
  inversion Hwf as [|? ? [H1 H2] Hwf']; subst. rewrite fmap_cons, mjoin_cons in Hr.
  unfold capsule_bytes in Hr at 1. repeat rewrite <- app_assoc in Hr.
  destruct (r_int_ok 2 _ _ _ Hr) as (r1 & E1 & Hr1); [change (2 ^ (8 * Z.of_nat 2)) with 65536; ulia|].
  destruct (r_int_ok 8 _ _ _ Hr1) as (r2 & E2 & Hr2);
    [change (2 ^ (8 * Z.of_nat 8)) with 18446744073709551616; ulia|].
  destruct (r_Arr_ok _ _ _ Hr2) as (r3 & E3 & Hr3). destruct (r_Arr_ok _ _ _ Hr3) as (r4 & E4 & Hr4).
  destruct (IH _ _ Hwf' Hr4) as (r5 & E5 & Hr5). exists r5. split; [|done].
  unfold r_U16, r_U64. rewrite E1. cbn [outcome_bind]. rewrite E2. cbn [outcome_bind]. rewrite E3. cbn [outcome_bind].
  rewrite E4. cbn [outcome_bind]. rewrite E5. cbn [outcome_bind]. by destruct c.
Qed.
Lemma read_capsules_inv n : forall r z l r', at_suffix r z -> read_capsules n r = Ret (l, r') ->
  exists y, z = mjoin (capsule_bytes <$> l) ++ y /\ at_suffix r' y /\ Forall capsule_wf l /\ length l = n.
Proof.
  induction n as [|n IH]; intros r z l r' Hr E; cbn [read_capsules] in E.
  { injection E as <- <-. exists z. split_and!; done. }
  destruct (r_U16 r) as [[profile r1]|] eqn:E1; [|done]. cbn [outcome_bind] in E.
  destruct (r_U64 r1) as [[epoch r2]|] eqn:E2; [|done]. cbn [outcome_bind] in E.
  destruct (r_Arr 1120 r2) as [[enc r3]|] eqn:E3; [|done]. cbn [outcome_bind] in E.
  destruct (r_Arr 60 r3) as [[key r4]|] eqn:E4; [|done]. cbn [outcome_bind] in E.
  destruct (read_capsules n r4) as [[rest r5]|] eqn:E5; [|done]. cbn [outcome_bind] in E. injection E as <- <-.
  destruct (r_int_inv _ _ _ _ _ Hr E1) as (y1 & -> & B1 & Hr1).
  destruct (r_int_inv _ _ _ _ _ Hr1 E2) as (y2 & -> & B2 & Hr2).
  destruct (r_Arr_inv _ _ _ _ Hr2 E3) as (y3 & -> & Hr3). destruct (r_Arr_inv _ _ _ _ Hr3 E4) as (y4 & -> & Hr4).
  destruct (IH _ _ _ _ Hr4 E5) as (y & -> & Hr5 & Hwf & Hlen). exists y.
  change (2 ^ (8 * Z.of_nat 2)) with 65536 in B1. change (2 ^ (8 * Z.of_nat 8)) with 18446744073709551616 in B2.
  split_and!; [|done| |simpl; congruence].
  - rewrite fmap_cons, mjoin_cons. unfold capsule_bytes at 2. by repeat rewrite <- app_assoc.
  - constructor; [|done]. split; simpl; ulia.
Qed.

Lemma RootPublication_decode_encode p l : publication_wf p ->
  SerializeRootPublication p = Some l -> DeserializeRootPublication l = Some p /\ zlen l <= 38154.
Proof.
  intros (W1 & W2 & W3) E. rewrite SerializeRootPublication_eq in E. walk E. some_inj E.
  pose proof (RootPublication_IsValid_count _ Hif) as Hc.
  assert (Hl : zlen (publication_bytes p) <= 38154) by (unfold publication_bytes; len).
  split; [|done]. unfold DeserializeRootPublication.
  destruct (r_new_ok (publication_bytes p) ROOT_PUBLICATION_MAX_BYTES) as (r & E & Hr);
    [unfold ROOT_PUBLICATION_MAX_BYTES; lia|done|]. rewrite E. cbn [outcome_bind].
  unfold publication_bytes in Hr.
  destruct (r_Arr_ok _ _ _ Hr) as (r1 & E1 & Hr1). destruct (r_Arr_ok _ _ _ Hr1) as (r2 & E2 & Hr2).
  destruct (r_int_ok 4 _ _ _ Hr2) as (r3 & E3 & Hr3); [change (2 ^ (8 * Z.of_nat 4)) with 4294967296; ulia|].
  destruct (r_int_ok 4 _ _ _ Hr3) as (r4 & E4 & Hr4); [change (2 ^ (8 * Z.of_nat 4)) with 4294967296; ulia|].
  destruct (r_int_ok 2 _ _ _ Hr4) as (r5 & E5 & Hr5); [change (2 ^ (8 * Z.of_nat 2)) with 65536; lia|].
  rewrite <- (app_nil_r (mjoin _)) in Hr5. destruct (read_capsules_ok _ _ _ W3 Hr5) as (r6 & E6 & Hr6).
  rewrite E1. cbn [outcome_bind]. rewrite E2. cbn [outcome_bind]. unfold r_U32, r_U16. rewrite E3. cbn [outcome_bind].
  rewrite E4. cbn [outcome_bind]. rewrite E5. cbn [outcome_bind]. unfold ROOT_PUBLICATION_MAX_CAPSULES.
  rewrite (proj2 (Z.eqb_neq _ _)), (proj2 (Z.ltb_ge _ _)) by lia. cbn [orb].
  unfold zlen. rewrite Nat2Z.id, E6. cbn [outcome_bind].
  rewrite (proj2 (r_Finish_iff _ _ Hr6) eq_refl). cbn [outcome_bind catch_none default].
  destruct p; simpl in *. by rewrite Hif.
Qed.

Lemma RootPublication_encode_decode p l :
  DeserializeRootPublication l = Some p -> SerializeRootPublication p = Some l /\ publication_wf p.
Proof.
  intros E. unfold DeserializeRootPublication in E.
  match type of E with default None (catch_none ?m) = _ => destruct m as [o|] eqn:M; [|done] end.
  simpl in E. subst o.
  destruct (r_new _ _) as [r|] eqn:E0; [|done]. cbn [outcome_bind] in M.
  destruct (r_Arr 32 r) as [[root r1]|] eqn:E1; [|done]. cbn [outcome_bind] in M.
  destruct (r_Arr 32 r1) as [[auth r2]|] eqn:E2; [|done]. cbn [outcome_bind] in M.
  destruct (r_U32 r2) as [[chunks r3]|] eqn:E3; [|done]. cbn [outcome_bind] in M.
  destruct (r_U32 r3) as [[periods r4]|] eqn:E4; [|done]. cbn [outcome_bind] in M.
  destruct (r_U16 r4) as [[count r5]|] eqn:E5; [|done]. cbn [outcome_bind] in M.
  destruct (_ || _) eqn:Hc in M; [done|]. destruct (read_capsules _ r5) as [[caps r6]|] eqn:E6; [|done].
  cbn [outcome_bind] in M. destruct (r_Finish r6) as [[]|] eqn:E7; [|done]. cbn [outcome_bind] in M.
  destruct (RootPublication_IsValid _) eqn:Hv in M; [|done]. injection M as <-.
  apply r_new_at in E0 as [Hr Hlen]; [|done].
  destruct (r_Arr_inv _ _ _ _ Hr E1) as (y1 & -> & Hr1). destruct (r_Arr_inv _ _ _ _ Hr1 E2) as (y2 & -> & Hr2).
  destruct (r_int_inv _ _ _ _ _ Hr2 E3) as (y3 & -> & B3 & Hr3).
  destruct (r_int_inv _ _ _ _ _ Hr3 E4) as (y4 & -> & B4 & Hr4).
  destruct (r_int_inv _ _ _ _ _ Hr4 E5) as (y5 & -> & B5 & Hr5).
  destruct (read_capsules_inv _ _ _ _ _ Hr5 E6) as (y6 & -> & Hr6 & Hwf & Hn).
  apply (r_Finish_iff _ _ Hr6) in E7 as ->.
  change (2 ^ (8 * Z.of_nat 4)) with 4294967296 in B3, B4. change (2 ^ (8 * Z.of_nat 2)) with 65536 in B5.
  split; [|split_and!; simpl; [ulia..|done]].
  rewrite SerializeRootPublication_eq, Hv. f_equal. unfold publication_bytes. cbn [root_chunk_id pub_chunk_authorization_root
    pub_chunk_count pub_lease_periods recipient_capsules]. rewrite app_nil_r.
  unfold zlen. rewrite Hn, Z2Nat.id by lia. done.
Qed.
