(* ===== verification/Merkle.v ===== *)
(** * Chunk authorization trees

    [src/src/cybou/chunk_authorization.cpp] (and [ComputeBlake3Digest] of
    [chunk_id.cpp]): the Merkle tree over the chunks of a publication, the
    streaming accumulator that computes the same root in logarithmic space,
    membership proofs and their verification. *)

From S2P Require Import Prelude.
From S2P Require Import Bytes.
From S2P Require Import Codec.
From S2P Require Import Params.
From S2P Require Import Crypto.
From S2P Require Import Payloads.

Abbreviation ChunkId := (arr 32%N).

Definition LEAF_DOMAIN : bytes := str "CYBOU/CHUNK-AUTH/LEAF".
Definition NODE_DOMAIN : bytes := str "CYBOU/CHUNK-AUTH/NODE".

Definition leaf_input (id : ChunkId) : bytes := LEAF_DOMAIN ++ arr_val id.
Definition node_input (left right : ChunkId) : bytes := NODE_DOMAIN ++ arr_val left ++ arr_val right.

Record ChunkAuthorizationTree : Type := mkTree {
  tree_root : ChunkId;
  tree_chunk_count : Z;
  m_levels : list (list ChunkId);
}.
Record ChunkAuthorizationAccumulator : Type := mkMerkleAccumulator {
  m_frontier : list (option ChunkId);
  m_chunk_count : Z;
  m_failed : bool;
}.
Definition accumulator_new : ChunkAuthorizationAccumulator := mkMerkleAccumulator (replicate 32 None) 0 false.

Section merkle.
Context `{CryptoOps}.

Definition ComputeBlake3Digest (parts : list bytes) : ChunkId := blake3 (mjoin parts).
Definition ComputeChunkId (l : bytes) : ChunkId := blake3 l.
Definition HashLeaf (id : ChunkId) : ChunkId := blake3 (leaf_input id).
Definition HashNode (left right : ChunkId) : ChunkId := blake3 (node_input left right).

(** ** The tree *)

Definition ValidChunkSet (chunks : list ChunkId) : bool :=
  return_if (zlen chunks =? 0) || (MAX_PUBLICATION_CHUNKS <? zlen chunks) with false ;;
  forallb (fun id => negb (IsNull id)) chunks.

(** One level from the one below: an odd last node is paired with itself. *)
Fixpoint next_level (current : list ChunkId) : list ChunkId :=
  match current with
  | a :: b :: rest => HashNode a b :: next_level rest
  | [a] => [HashNode a a]
  | [] => []
  end.

(** [while (levels.back().size() > 1)]; the fuel is the number of leaves. *)
Fixpoint build_levels (fuel : nat) (current : list ChunkId) : list (list ChunkId) :=
  current ::
  match fuel with
  | S fuel => if (1 <? length current)%nat then build_levels fuel (next_level current) else []
  | O => []
  end.

Definition BuildChunkAuthorizationTree (chunks : list ChunkId) : option ChunkAuthorizationTree :=
  return_if negb (ValidChunkSet chunks) with None ;;
  return_if negb (bool_decide (NoDup chunks)) with None ;;
  let levels := build_levels (length chunks) (HashLeaf <$> chunks) in
  Some (mkTree (default ZERO (last levels ≫= head)) (wrap32 (zlen chunks)) levels).

(** ** Proofs *)

(** [index ^ 1] clipped to the level. *)
Definition sibling_of (index width : nat) : nat :=
  let sibling := if Nat.odd index then (index - 1)%nat else (index + 1)%nat in
  if (sibling <? width)%nat then sibling else index.

Fixpoint proof_siblings (levels : list (list ChunkId)) (index width : nat) : list ChunkId :=
  match levels with
  | [] => []
  | level :: levels =>
      if (1 <? width)%nat
      then level !!! sibling_of index width :: proof_siblings levels (index / 2) ((width + 1) / 2)
      else []
  end.

Definition Tree_Proof (tree : ChunkAuthorizationTree) (leaf_index : Z) : outcome (Z * list ChunkId) :=
  return_if tree_chunk_count tree <=? leaf_index with Throw ;;
  Ret (leaf_index, proof_siblings (m_levels tree) (Z.to_nat leaf_index) (Z.to_nat (tree_chunk_count tree))).

Fixpoint verify_loop (siblings : list ChunkId) (index width : nat) (current expected_root : ChunkId) : bool :=
  if (1 <? width)%nat then
    match siblings with
    | [] => false
    | sibling :: rest =>
        if Nat.odd index then verify_loop rest (index / 2) ((width + 1) / 2) (HashNode sibling current) expected_root
        else if (width <=? index + 1)%nat then
          if bool_decide (sibling <> current) then false
          else verify_loop rest (index / 2) ((width + 1) / 2) (HashNode current sibling) expected_root
        else verify_loop rest (index / 2) ((width + 1) / 2) (HashNode current sibling) expected_root
    end
  else bool_decide (siblings = []) && bool_decide (current = expected_root).

Definition VerifyChunkAuthorizationPath (expected_root chunk_id : ChunkId) (leaf_index chunk_count : Z)
    (siblings : list ChunkId) : bool :=
  return_if (chunk_count =? 0) || (chunk_count <=? leaf_index) || IsNull chunk_id || (32 <? zlen siblings) with false ;;
  verify_loop siblings (Z.to_nat leaf_index) (Z.to_nat chunk_count) (HashLeaf chunk_id) expected_root.

Definition VerifyChunkAuthorizationProof (p : RootPublication) (chunk_id : ChunkId)
    (proof : Z * list ChunkId) : bool :=
  return_if (pub_chunk_count p =? 0) || (pub_chunk_count p <=? proof.1) || IsNull chunk_id with false ;;
  VerifyChunkAuthorizationPath (pub_chunk_authorization_root p) chunk_id proof.1 (pub_chunk_count p) proof.2.

(** ** The accumulator *)

(** The carry loop of [Add]: occupied levels are combined and emptied; the
    flag tells whether a free level was found. *)
Fixpoint carry_up (frontier : list (option ChunkId)) (carry : ChunkId) : list (option ChunkId) * bool :=
  match frontier with
  | [] => ([], false)
  | Some x :: rest => let '(rest', ok) := carry_up rest (HashNode x carry) in (None :: rest', ok)
  | None :: rest => (Some carry :: rest, true)
  end.

Definition Accumulator_Add (acc : ChunkAuthorizationAccumulator) (chunk : ChunkId)
    : bool * ChunkAuthorizationAccumulator :=
  return_if m_failed acc || (MAX_PUBLICATION_CHUNKS <=? m_chunk_count acc) || IsNull chunk
    with (false, mkMerkleAccumulator (m_frontier acc) (m_chunk_count acc) true) ;;
  let '(frontier, ok) := carry_up (m_frontier acc) (HashLeaf chunk) in
  return_if negb ok with (false, mkMerkleAccumulator frontier (m_chunk_count acc) true) ;;
  (true, mkMerkleAccumulator frontier (wrap32 (m_chunk_count acc + 1)) (m_failed acc)).

(** The root is paired with itself until it reaches [level]. *)
Definition raise (k : nat) (root : ChunkId) : ChunkId := Nat.iter k (fun h => HashNode h h) root.

Fixpoint finish_loop (level : nat) (frontier : list (option ChunkId)) (root : option (ChunkId * nat)) : option ChunkId :=
  match frontier with
  | [] => fst <$> root
  | None :: rest => finish_loop (S level) rest root
  | Some x :: rest =>
      match root with
      | None => finish_loop (S level) rest (Some (x, level))
      | Some (r, root_level) =>
          finish_loop (S level) rest (Some (HashNode x (raise (level - root_level) r), S level))
      end
  end.
Definition Accumulator_Finish (acc : ChunkAuthorizationAccumulator) : option (ChunkId * Z) :=
  return_if m_failed acc || (m_chunk_count acc =? 0) with None ;;
  let? root := finish_loop 0 (m_frontier acc) None else None ;;
  Some (root, m_chunk_count acc).

(** [for (chunk : chunks) accumulator.Add(chunk)] *)
Definition Accumulator_AddAll (chunks : list ChunkId) : ChunkAuthorizationAccumulator :=
  foldl (fun acc c => (Accumulator_Add acc c).2) accumulator_new chunks.
End merkle.

(** * Chunk authorization trees are correct

    The accumulator computes the root of the tree; every proof the tree
    produces verifies; and, as long as the hashed inputs do not collide, a
    path that verifies shows the chunk at that position of the tree. *)

Section merkle_proofs.
Context `{CryptoOps}.
Implicit Types (l L : list ChunkId).

(** Induction two elements at a time. *)
Lemma pair_ind (P : list ChunkId -> Prop) :
  P [] -> (forall a, P [a]) -> (forall a b l, P l -> P (a :: b :: l)) -> forall l, P l.
Proof.
  intros H0 H1 H2. fix IH 1. intros [|a [|b l]]; [done|apply H1|]. apply H2, IH.
Qed.

Lemma half_SS n : ((S (S n) + 1) / 2 = S ((n + 1) / 2))%nat.
Proof.
  replace (S (S n) + 1)%nat with (n + 1 + 1 * 2)%nat by lia. rewrite Nat.div_add by lia. lia.
Qed.
Lemma length_next_level l : length (next_level l) = ((length l + 1) / 2)%nat.
Proof.
  induction l as [|a|a b l IH] using pair_ind; [done..|]. cbn [next_level length]. by rewrite IH, half_SS.
Qed.
Lemma next_level_app l k : Nat.even (length l) = true -> next_level (l ++ k) = next_level l ++ next_level k.
Proof.
  induction l as [|a|a b l IH] using pair_ind; [done..|]. simpl. intros. by rewrite IH.
Qed.
Lemma next_level_lookup l j : (2 * j < length l)%nat ->
  next_level l !! j = Some (HashNode (l !!! (2 * j)%nat)
    (if (2 * j + 1 <? length l)%nat then l !!! (2 * j + 1)%nat else l !!! (2 * j)%nat)).
Proof.
  revert j. induction l as [|a|a b l IH] using pair_ind; intros j Hj; simpl in Hj; [lia| |].
  - assert (j = 0)%nat as -> by lia. done.
  - destruct j as [|j]; [done|]. cbn [next_level lookup list_lookup].
    change (next_level l !! j = Some (HashNode ((a :: b :: l) !!! (2 * S j)%nat)
      (if (2 * S j + 1 <? length (a :: b :: l))%nat then (a :: b :: l) !!! (2 * S j + 1)%nat
       else (a :: b :: l) !!! (2 * S j)%nat))).
    replace (2 * S j)%nat with (S (S (2 * j))) by lia. cbn [length].
    replace (S (S (2 * j)) + 1)%nat with (S (S (2 * j + 1))) by lia.
    change (S (S (2 * j + 1)) <? S (S (length l)))%nat with (2 * j + 1 <? length l)%nat.
    change ((a :: b :: l) !!! S (S (2 * j))) with (l !!! (2 * j)%nat).
    change ((a :: b :: l) !!! S (S (2 * j + 1))) with (l !!! (2 * j + 1)%nat). apply IH. lia.
Qed.

(** ** The root *)

Definition root_of (fuel : nat) (l : list ChunkId) : ChunkId :=
  default ZERO (last (build_levels fuel l) ≫= head).
Definition merkle_root (l : list ChunkId) : ChunkId := root_of (length l) l.

Lemma build_levels_cons fuel l : exists k, build_levels fuel l = l :: k.
Proof. destruct fuel; eexists; reflexivity. Qed.
Lemma half_lt n : (1 < n -> (n + 1) / 2 < n)%nat.
Proof. intros. apply Nat.Div0.div_lt_upper_bound. lia. Qed.

Lemma root_of_step fuel l : (1 < length l)%nat -> root_of (S fuel) l = root_of fuel (next_level l).
Proof.
  intros Hl. unfold root_of. cbn [build_levels]. rewrite (proj2 (Nat.ltb_lt _ _) Hl).
  destruct (build_levels_cons fuel (next_level l)) as [k ->]. done.
Qed.
Lemma root_of_one fuel a : root_of fuel [a] = a.
Proof. by destruct fuel. Qed.
Lemma root_of_enough l : forall fuel, (length l <= S fuel)%nat -> l <> [] -> root_of fuel l = merkle_root l.
Proof.
  unfold merkle_root. remember (length l) as n eqn:Hn. revert l Hn.
  induction n as [n IH] using lt_wf_ind. intros l Hn fuel Hf Hne.
  destruct (decide (1 < n)%nat) as [H1|H1].
  - destruct fuel as [|fuel]; [lia|]. destruct n as [|n]; [lia|].
    rewrite !root_of_step by lia. pose proof (half_lt (S n) H1). pose proof (length_next_level l) as E.
    rewrite <- Hn in E. assert (next_level l <> []) by (destruct l as [|? [|? ?]]; done).
    assert (Hlt : (length (next_level l) < S n)%nat) by lia.
    rewrite (IH _ Hlt (next_level l) eq_refl fuel), (IH _ Hlt (next_level l) eq_refl n) by (done || lia). done.
  - destruct l as [|a [|b l]]; [done| |simpl in *; lia]. by rewrite !root_of_one.
Qed.
Lemma merkle_root_next l : (1 < length l)%nat -> merkle_root (next_level l) = merkle_root l.
Proof.
  intros Hl. unfold merkle_root at 2. destruct (length l) as [|n] eqn:E; [lia|].
  rewrite root_of_step by lia. pose proof (length_next_level l) as E2. rewrite E in E2.
  pose proof (half_lt (S n) Hl). symmetry. apply root_of_enough; [lia|].
  by destruct l as [|? [|? ?]].
Qed.
Lemma merkle_root_one a : merkle_root [a] = a.
Proof. done. Qed.

(** ** The accumulator *)

(** [represents F L]: the frontier stands for the nodes [L] of its lowest
    level: the last node when their number is odd, and the complete pairs one
    level up. *)
Fixpoint represents (F : list (option ChunkId)) (L : list ChunkId) : Prop :=
  match F with
  | [] => L = []
  | None :: F => Nat.even (length L) = true /\ represents F (next_level L)
  | Some x :: F => exists L', L = L' ++ [x] /\ Nat.even (length L') = true /\ represents F (next_level L')
  end.

Lemma represents_empty n : represents (replicate n None) [].
Proof. by induction n. Qed.

Lemma carry_up_represents F : forall L x F' ok,
  represents F L -> carry_up F x = (F', ok) -> ok = true -> represents F' (L ++ [x]).
Proof.
  induction F as [|[y|] F IH]; intros L x F' ok HF E ->; cbn [carry_up] in E; [done| |].
  - destruct (carry_up F (HashNode y x)) as [G ok] eqn:Ec. injection E as <- ->.
    destruct HF as (L' & -> & He & HL'). cbn [represents]. split.
    + rewrite !length_app. cbn [length]. rewrite <- Nat.add_assoc. cbn. rewrite Nat.even_add, He. done.
    + rewrite <- app_assoc, next_level_app by done. cbn [app next_level]. eapply IH; eauto.
  - injection E as <-. destruct HF as [He HL]. cbn [represents]. eauto.
Qed.
Lemma carry_up_room F : forall L x, represents F L -> (length L < 2 ^ length F - 1)%nat -> (carry_up F x).2 = true.
Proof.
  induction F as [|[y|] F IH]; intros L x HF Hl; [simpl in Hl; lia| |done].
  cbn [carry_up]. destruct (carry_up F (HashNode y x)) as [G ok] eqn:Ec. cbn [snd].
  destruct HF as (L' & -> & He & HL'). change ok with (G, ok).2. rewrite <- Ec. apply (IH (next_level L')); [done|].
  rewrite length_next_level. rewrite length_app in Hl. cbn [length] in Hl. rewrite Nat.pow_succ_r' in Hl.
  apply Nat.even_spec in He as [m Hm]. rewrite Hm in *.
  replace (2 * m + 1)%nat with (1 + m * 2)%nat by lia. rewrite Nat.div_add by lia. change (1 / 2)%nat with 0%nat. lia.
Qed.

Lemma raise_S k r : raise (S k) r = HashNode (raise k r) (raise k r).
Proof. done. Qed.

Lemma finish_pending F : forall L r level rl,
  represents F L -> (rl <= level)%nat ->
  finish_loop level F (Some (r, rl)) =
    Some (match L with [] => r | _ => merkle_root (L ++ [raise (level - rl) r]) end).
Proof.
  induction F as [|[x|] F IH]; intros L r level rl HF Hle; cbn [finish_loop represents] in *.
  - by subst L.
  - destruct HF as (L' & -> & He & HL'). rewrite (IH (next_level L')) by (done || lia).
    rewrite Nat.sub_diag. f_equal. cbn [raise Nat.iter].
    transitivity (merkle_root (L' ++ [x; raise (level - rl) r])).
    + rewrite <- (merkle_root_next (L' ++ [x; _])) by (rewrite length_app; cbn [length]; lia).
      rewrite next_level_app by done. cbn [next_level]. by destruct L' as [|a [|b L']].
    + rewrite <- app_assoc. by destruct L'.
  - destruct HF as [He HL]. rewrite (IH (next_level L)) by (done || lia). f_equal.
    destruct L as [|a L]; [done|]. destruct (next_level (a :: L)) as [|b k] eqn:E.
    { by destruct L as [|? ?]. }
    rewrite <- E. rewrite <- (merkle_root_next ((a :: L) ++ _)) by (rewrite length_app; cbn [length]; lia).
    rewrite next_level_app by done. cbn [next_level]. f_equal. f_equal.
    replace (S level - rl)%nat with (S (level - rl)) by lia. by rewrite raise_S.
Qed.
Lemma finish_none F : forall L level,
  represents F L -> L <> [] -> finish_loop level F None = Some (merkle_root L).
Proof.
  induction F as [|[x|] F IH]; intros L level HF Hne; cbn [finish_loop represents] in *; [done| |].
  - destruct HF as (L' & -> & He & HL'). rewrite (finish_pending F (next_level L')) by (done || lia). f_equal.
    destruct L' as [|a L']; [done|]. destruct (next_level (a :: L')) as [|b k] eqn:E; [by destruct L'|].
    rewrite <- E. replace (S level - level)%nat with 1%nat by lia.
    rewrite <- (merkle_root_next ((a :: L') ++ _)) by (rewrite length_app; cbn [length]; lia).
    by rewrite next_level_app.
  - destruct HF as [He HL].
    assert (1 < length L)%nat by (destruct L as [|? [|? ?]]; simpl in *; [done|done|lia]).
    rewrite (IH (next_level L)); [by rewrite merkle_root_next|done|].
    by destruct L as [|? [|? ?]].
Qed.

Lemma AddAll_state chunks :
  Forall (fun c => IsNull c = false) chunks -> zlen chunks <= MAX_PUBLICATION_CHUNKS ->
  exists F, Accumulator_AddAll chunks = mkMerkleAccumulator F (zlen chunks) false /\
    represents F (HashLeaf <$> chunks) /\ length F = 32%nat.
Proof.
  assert (Hcl : forall F x, length (carry_up F x).1 = length F).
  { induction F as [|[y|] F IH]; intros x; cbn [carry_up]; [done| |done].
    specialize (IH (HashNode y x)). destruct (carry_up F _). simpl in *. congruence. }
  unfold Accumulator_AddAll. induction chunks as [|c chunks IH] using rev_ind; intros Hnz Hmax.
  - exists (replicate 32 None). split_and!; [done|apply represents_empty|done].
  - apply Forall_app in Hnz as [Hnz Hc]. rewrite zlen_app in Hmax. change (zlen [c]) with 1 in Hmax.
    destruct IH as (F & E & HF & HFl); [done|lia|]. rewrite foldl_app, E. cbn [foldl].
    inversion Hc as [|? ? Hc0 _]; subst. unfold Accumulator_Add. cbn [m_failed m_chunk_count m_frontier].
    rewrite Hc0, (proj2 (Z.leb_gt _ _)) by lia. cbn [orb].
    pose proof (carry_up_room F (HashLeaf <$> chunks) (HashLeaf c) HF) as Hroom.
    pose proof (Hcl F (HashLeaf c)) as Hcl'.
    destruct (carry_up F (HashLeaf c)) as [F' ok] eqn:Ec. cbn [fst snd] in *.
    assert (ok = true) as ->.
    { apply Hroom. clear Hroom. rewrite length_fmap, HFl. apply Nat2Z.inj_lt.
      unfold zlen, MAX_PUBLICATION_CHUNKS in Hmax.
      rewrite Nat2Z.inj_sub, Nat2Z.inj_pow by (change 1%nat with (2 ^ 0)%nat; apply Nat.pow_le_mono_r; lia).
      change (Z.of_nat 2 ^ Z.of_nat 32 - Z.of_nat 1) with 4294967295. lia. }
    cbn [negb snd]. exists F'. pose proof (zlen_nonneg chunks). unfold MAX_PUBLICATION_CHUNKS in Hmax.
    rewrite wrap32_small, zlen_app by ulia. split_and!; [done| |lia].
    rewrite fmap_app. eapply carry_up_represents; eauto.
Qed.

(** The streaming accumulator and the tree agree: feeding the chunks one
    by one and finishing yields the root and the count of the tree. *)
Theorem Accumulator_matches_tree chunks tree :
  BuildChunkAuthorizationTree chunks = Some tree ->
  Accumulator_Finish (Accumulator_AddAll chunks) = Some (tree_root tree, tree_chunk_count tree).
Proof.
  unfold BuildChunkAuthorizationTree, ValidChunkSet. intros E. walk E. some_inj E. guards.
  match goal with Hv : (if _ then false else _) = true |- _ => walk Hv; rename Hv into Hnz end. guards.
  destruct (AddAll_state chunks) as (F & -> & HF & _).
  { apply Forall_forall. intros c Hc%list_elem_of_In. rewrite forallb_forall in Hnz.
    by apply negb_true_iff, Hnz. }
  { done. }
  unfold Accumulator_Finish. cbn [m_failed m_chunk_count m_frontier orb tree_root tree_chunk_count].
  rewrite (proj2 (Z.eqb_neq _ _)) by done.
  rewrite (finish_none F (HashLeaf <$> chunks)); [|done|].
  2: { intros X%fmap_nil_inv. by rewrite X in *. }
  unfold merkle_root, root_of. rewrite length_fmap. pose proof (zlen_nonneg chunks).
  unfold MAX_PUBLICATION_CHUNKS in *. by rewrite wrap32_small by ulia.
Qed.

(** ** Proofs verify *)

Lemma lookup_total_Some (l : list ChunkId) i : (i < length l)%nat -> l !! i = Some (l !!! i).
Proof. intros Hi. by apply list_lookup_lookup_total_lt. Qed.

Lemma half_index index width : (index < width -> 1 < width -> index / 2 < (width + 1) / 2)%nat.
Proof.
  intros H1 H2. pose proof (Nat.div_mod_eq index 2). pose proof (Nat.mod_upper_bound index 2).
  pose proof (Nat.div_mod_eq (width + 1) 2). pose proof (Nat.mod_upper_bound (width + 1) 2). lia.
Qed.
Lemma odd_index index : Nat.odd index = true -> index = (2 * (index / 2) + 1)%nat.
Proof.
  intros [m ->]%Nat.odd_spec. replace (2 * m + 1)%nat with (1 + m * 2)%nat by lia.
  rewrite Nat.div_add by lia. change (1 / 2)%nat with 0%nat. lia.
Qed.
Lemma even_index index : Nat.odd index = false -> index = (2 * (index / 2))%nat.
Proof.
  rewrite <- Nat.negb_even. intros E%negb_false_iff%Nat.even_spec. destruct E as [m ->].
  rewrite (Nat.mul_comm 2 m) at 2. rewrite Nat.div_mul by lia. lia.
Qed.

(** The node above position [index], with the sibling the proof supplies. *)
Lemma next_level_node l index : (index < length l)%nat -> (1 < length l)%nat ->
  next_level l !!! (index / 2)%nat =
    if Nat.odd index then HashNode (l !!! (index - 1)%nat) (l !!! index)
    else HashNode (l !!! index) (l !!! sibling_of index (length l)).
Proof.
  intros Hi Hl. unfold sibling_of. destruct (Nat.odd index) eqn:Ho.
  - pose proof (odd_index _ Ho) as E. apply list_lookup_total_correct. rewrite next_level_lookup by lia.
    rewrite <- E, (proj2 (Nat.ltb_lt _ _) Hi).
    by replace (2 * (index / 2))%nat with (index - 1)%nat by lia.
  - pose proof (even_index _ Ho) as E. apply list_lookup_total_correct. rewrite next_level_lookup by lia.
    rewrite <- E. by destruct (index + 1 <? length l)%nat.
Qed.

Lemma verify_proof fuel : forall l index, (length l <= S fuel)%nat -> (index < length l)%nat ->
  verify_loop (proof_siblings (build_levels fuel l) index (length l)) index (length l) (l !!! index) (merkle_root l) = true.
Proof.
  induction fuel as [|fuel IH]; intros l index Hf Hi.
  { assert (length l = 1)%nat as E by lia. destruct l as [|a [|b l]]; [done| |done].
    simpl in Hi. assert (index = 0)%nat as -> by lia. simpl. rewrite !bool_decide_eq_true_2; done. }
  cbn [build_levels proof_siblings]. destruct (1 <? length l)%nat eqn:Hw.
  2: { apply Nat.ltb_ge in Hw. destruct l as [|a [|b l]]; [simpl in Hi; lia| |simpl in Hw; lia].
       simpl in Hi. assert (index = 0)%nat as -> by lia. simpl. rewrite !bool_decide_eq_true_2; done. }
  cbn [verify_loop]. rewrite Hw. apply Nat.ltb_lt in Hw.
  pose proof (half_index _ _ Hi Hw) as Hh. pose proof (half_lt _ Hw). pose proof (length_next_level l) as Hn.
  assert (IHl := IH (next_level l) (index / 2)%nat). rewrite Hn in IHl.
  rewrite merkle_root_next, next_level_node in IHl by done.
  destruct (Nat.odd index) eqn:Ho.
  - replace (sibling_of index (length l)) with (index - 1)%nat
      by (unfold sibling_of; rewrite Ho, (proj2 (Nat.ltb_lt _ _)) by lia; done). apply IHl; lia.
  - destruct (length l <=? index + 1)%nat eqn:He; [|apply IHl; lia].
    apply Nat.leb_le in He.
    assert (sibling_of index (length l) = index) as Hs
      by (unfold sibling_of; rewrite Ho, (proj2 (Nat.ltb_ge _ _)) by lia; done).
    rewrite Hs in *. rewrite bool_decide_eq_false_2 by (intros X; by apply X). apply IHl; lia.
Qed.

Lemma proof_siblings_depth levels : forall index width k,
  (width <= 2 ^ k)%nat -> (length (proof_siblings levels index width) <= k)%nat.
Proof.
  induction levels as [|l levels IH]; intros index width k Hk; cbn [proof_siblings length]; [lia|].
  destruct (1 <? width)%nat eqn:E; [|simpl; lia]. apply Nat.ltb_lt in E.
  destruct k as [|k]; [simpl in Hk; lia|]. cbn [length]. apply le_n_S, IH.
  rewrite Nat.pow_succ_r' in Hk. apply Nat.lt_succ_r. apply Nat.Div0.div_lt_upper_bound. lia.
Qed.

Lemma Build_inv chunks tree : BuildChunkAuthorizationTree chunks = Some tree ->
  chunks <> [] /\ zlen chunks <= 1048576 /\ Forall (fun c => IsNull c = false) chunks /\
  tree = mkTree (merkle_root (HashLeaf <$> chunks)) (zlen chunks)
           (build_levels (length chunks) (HashLeaf <$> chunks)).
Proof.
  unfold BuildChunkAuthorizationTree, ValidChunkSet. intros E. walk E. some_inj E. guards.
  match goal with Hv : (if _ then false else _) = true |- _ => walk Hv; rename Hv into Hnz end. guards.
  unfold MAX_PUBLICATION_CHUNKS in *. pose proof (zlen_nonneg chunks). split_and!; [by intros ->|done| |].
  - apply Forall_forall. intros c Hc%list_elem_of_In. rewrite forallb_forall in Hnz. by apply negb_true_iff, Hnz.
  - unfold merkle_root, root_of. rewrite length_fmap. by rewrite wrap32_small by ulia.
Qed.

(** Completeness: the proof the tree gives for any of its positions is
    accepted for the chunk at that position. *)
Theorem proofs_verify chunks tree i :
  BuildChunkAuthorizationTree chunks = Some tree -> 0 <= i < zlen chunks ->
  exists siblings, Tree_Proof tree i = Ret (i, siblings) /\
    VerifyChunkAuthorizationPath (tree_root tree) (chunks !!! Z.to_nat i) i (tree_chunk_count tree) siblings = true.
Proof.
  intros (Hne & Hmax & Hnz & ->)%Build_inv Hi. unfold Tree_Proof. cbn [tree_root tree_chunk_count m_levels].
  rewrite (proj2 (Z.leb_gt _ _)) by lia. eexists. split; [done|].
  assert (Hn : Z.to_nat (zlen chunks) = length (HashLeaf <$> chunks)) by (unfold zlen; rewrite length_fmap; lia).
  unfold VerifyChunkAuthorizationPath. unfold zlen in Hi.
  rewrite (proj2 (Z.eqb_neq _ _)), (proj2 (Z.leb_gt _ _)) by (unfold zlen; lia).
  rewrite Forall_forall in Hnz. rewrite Hnz by (apply list_elem_of_lookup_total_2; lia).
  rewrite (proj2 (Z.ltb_ge _ _)).
  2: { unfold zlen at 1. apply (Nat2Z.inj_le _ 32). apply proof_siblings_depth. unfold zlen in *.
       apply Nat2Z.inj_le. rewrite Nat2Z.inj_pow. change (Z.of_nat 2 ^ Z.of_nat 32) with 4294967296. lia. }
  cbn [orb]. rewrite Hn. rewrite <- (length_fmap HashLeaf chunks) at 1.
  rewrite <- (list_lookup_total_fmap HashLeaf) by lia. apply verify_proof; rewrite length_fmap; lia.
Qed.

(** ** Only the chunks of the tree verify

    BLAKE3 is a parameter with 32-byte results, so it does collide somewhere;
    what soundness needs is that the inputs hashed while building the tree and
    the inputs hashed while checking one path do not. *)

Fixpoint node_inputs (current : list ChunkId) : list bytes :=
  match current with
  | a :: b :: rest => node_input a b :: node_inputs rest
  | [a] => [node_input a a]
  | [] => []
  end.
Definition tree_inputs (chunks : list ChunkId) : list bytes :=
  (leaf_input <$> chunks)
  ++ mjoin (node_inputs <$> build_levels (length chunks) (HashLeaf <$> chunks)).

Fixpoint path_inputs (siblings : list ChunkId) (index width : nat) (current : ChunkId) : list bytes :=
  if (1 <? width)%nat then
    match siblings with
    | [] => []
    | sibling :: rest =>
        let '(a, b) := if Nat.odd index then (sibling, current) else (current, sibling) in
        node_input a b :: path_inputs rest (index / 2) ((width + 1) / 2) (HashNode a b)
    end
  else [].
Definition verify_inputs (chunk_id : ChunkId) (leaf_index chunk_count : Z) (siblings : list ChunkId) : list bytes :=
  leaf_input chunk_id :: path_inputs siblings (Z.to_nat leaf_index) (Z.to_nat chunk_count) (HashLeaf chunk_id).

Definition collision_free (xs ys : list bytes) : Prop :=
  forall x y, x ∈ xs -> y ∈ ys -> blake3 x = blake3 y -> x = y.

Lemma node_input_inj a b c d : node_input a b = node_input c d -> a = c /\ b = d.
Proof.
  unfold node_input. intros E%(inj (app NODE_DOMAIN)).
  apply app_inj_1 in E as [E1 E2].
  - by split; apply arr_eq.
  - apply Nat2Z.inj. change (Z.of_nat (length ?l)) with (zlen l). by rewrite !zlen_arr.
Qed.
Lemma leaf_input_inj a b : leaf_input a = leaf_input b -> a = b.
Proof. unfold leaf_input. intros E%(inj (app LEAF_DOMAIN)). by apply arr_eq. Qed.

Lemma node_inputs_lookup l index : (index < length l)%nat -> (1 < length l)%nat ->
  (if Nat.odd index then node_input (l !!! (index - 1)%nat) (l !!! index)
   else node_input (l !!! index) (l !!! sibling_of index (length l))) ∈ node_inputs l.
Proof.
  intros Hi Hl.
  assert (Hin : forall j, (2 * j < length l)%nat -> node_input (l !!! (2 * j)%nat)
    (if (2 * j + 1 <? length l)%nat then l !!! (2 * j + 1)%nat else l !!! (2 * j)%nat) ∈ node_inputs l).
  { clear. induction l as [|a|a b l IH] using pair_ind; intros j Hj; cbn [length] in Hj; [lia| |].
    - assert (j = 0)%nat as -> by lia. left.
    - destruct j as [|j]; [left|]. cbn [node_inputs]. right.
      replace (2 * S j)%nat with (S (S (2 * j))) by lia. cbn [length].
      replace (S (S (2 * j)) + 1)%nat with (S (S (2 * j + 1))) by lia.
      change (S (S (2 * j + 1)) <? S (S (length l)))%nat with (2 * j + 1 <? length l)%nat. apply IH. lia. }
  unfold sibling_of. destruct (Nat.odd index) eqn:Ho.
  - pose proof (odd_index _ Ho) as E. specialize (Hin (index / 2)%nat ltac:(lia)).
    rewrite <- E, (proj2 (Nat.ltb_lt _ _) Hi) in Hin.
    by replace (2 * (index / 2))%nat with (index - 1)%nat in Hin by lia.
  - pose proof (even_index _ Ho) as E. specialize (Hin (index / 2)%nat ltac:(lia)). rewrite <- E in Hin.
    by destruct (index + 1 <? length l)%nat.
Qed.

Lemma verify_sound siblings : forall fuel l index current,
  (length l <= S fuel)%nat -> (index < length l)%nat ->
  collision_free (mjoin (node_inputs <$> build_levels fuel l)) (path_inputs siblings index (length l) current) ->
  verify_loop siblings index (length l) current (merkle_root l) = true -> current = l !!! index.
Proof.
  assert (Hend : forall l index current, (index < length l)%nat -> (1 <? length l)%nat = false ->
    bool_decide (current = merkle_root l) = true -> current = l !!! index).
  { intros l index current Hi Hw%Nat.ltb_ge E%bool_decide_eq_true.
    destruct l as [|a [|b l]]; [simpl in Hi; lia| |simpl in Hw; lia].
    assert (index = 0)%nat as -> by (simpl in Hi; lia). done. }
  induction siblings as [|s siblings IH]; intros fuel l index current Hf Hi Hcf Hv; cbn [verify_loop] in Hv.
  { destruct (1 <? length l)%nat eqn:Hw; [done|]. apply andb_prop in Hv as [_ Hv]. by apply Hend. }
  destruct (1 <? length l)%nat eqn:Hw; [|apply andb_prop in Hv as [_ Hv]; by apply Hend].
  destruct fuel as [|fuel]; [apply Nat.ltb_lt in Hw; lia|].
  cbn [build_levels path_inputs] in Hcf. rewrite Hw in Hcf. rewrite fmap_cons, mjoin_cons in Hcf.
  apply Nat.ltb_lt in Hw. pose proof (half_index _ _ Hi Hw) as Hh. pose proof (half_lt _ Hw) as Hlt.
  pose proof (length_next_level l) as Hn. pose proof (node_inputs_lookup l index Hi Hw) as Hin.
  set (ab := if Nat.odd index then (s, current) else (current, s)) in *.
  assert (Hv' : verify_loop siblings (index / 2) (length (next_level l)) (HashNode ab.1 ab.2) (merkle_root (next_level l)) = true).
  { rewrite Hn, merkle_root_next by done. unfold ab. destruct (Nat.odd index); [done|].
    destruct (length l <=? index + 1)%nat; [|done]. by destruct (bool_decide (s <> current)). }
  assert (Hab : HashNode ab.1 ab.2 = next_level l !!! (index / 2)%nat).
  { apply (IH fuel); [lia|lia| |done]. intros x y Hx Hy. apply Hcf; [apply elem_of_app; by right|].
    destruct ab as [a b]. right. by rewrite <- Hn. }
  rewrite next_level_node in Hab by done. unfold ab in Hab, Hcf.
  destruct (Nat.odd index); cbn [fst snd] in *.
  - assert (E : node_input _ _ = node_input _ _)
      by (apply Hcf; [apply elem_of_app; left; exact Hin|left|exact (eq_sym Hab)]).
    by apply node_input_inj in E as [_ ->].
  - assert (E : node_input _ _ = node_input _ _)
      by (apply Hcf; [apply elem_of_app; left; exact Hin|left|exact (eq_sym Hab)]).
    by apply node_input_inj in E as [-> _].
Qed.

(** C37: soundness: if no input hashed for the tree collides with an input
    hashed for the path, a path accepted against the root of the tree shows
    exactly the chunk at that position. *)
Theorem VerifyChunkAuthorizationPath_sound chunks tree chunk_id i siblings :
  BuildChunkAuthorizationTree chunks = Some tree -> 0 <= i ->
  collision_free (tree_inputs chunks) (verify_inputs chunk_id i (tree_chunk_count tree) siblings) ->
  VerifyChunkAuthorizationPath (tree_root tree) chunk_id i (tree_chunk_count tree) siblings = true ->
  chunks !! Z.to_nat i = Some chunk_id.
Proof.
  intros (Hne & Hmax & Hnz & ->)%Build_inv Hi Hcf Hv. cbn [tree_root tree_chunk_count] in *.
  unfold VerifyChunkAuthorizationPath in Hv. walk Hv. guards. unfold tree_inputs, verify_inputs in Hcf.
  assert (Hn : Z.to_nat (zlen chunks) = length (HashLeaf <$> chunks)) by (unfold zlen; rewrite length_fmap; lia).
  assert (Hilt : (Z.to_nat i < length chunks)%nat) by (unfold zlen in *; lia).
  rewrite Hn in *. apply (verify_sound siblings (length chunks)) in Hv.
  - rewrite (list_lookup_total_fmap HashLeaf) in Hv by done. rewrite lookup_total_Some by done. f_equal.
    apply leaf_input_inj, Hcf; [|left|by symmetry].
    apply elem_of_app. left. apply list_elem_of_fmap_2. by apply list_elem_of_lookup_total_2.
  - rewrite length_fmap. lia.
  - by rewrite length_fmap.
  - intros x y Hx Hy. apply Hcf; [apply elem_of_app; by right|by right].
Qed.
End merkle_proofs.
