(* ===== verification/Assignment.v ===== *)
(** * Storage assignment

    [src/src/cybou/storage_assignment_algorithm.cpp]: the deterministic draw
    of the providers of a chunk among the eligible ones, one chance per payout
    account. *)

From Stdlib Require Import Sorting.Sorted.
From S2P Require Import Prelude.
From S2P Require Import Bytes.
From S2P Require Import Codec.
From S2P Require Import Crypto.

(** ** Bounded loops

    [iter_until p f s] runs [f] at most [p] times, until it answers [inr];
    the recursion is on the binary representation of [p], so a bound of
    [2^64] iterations costs nothing. *)

Fixpoint iter_until {S R} (p : positive) (f : S -> S + R) (s : S) : S + R :=
  match p with
  | xH => f s
  | xO p => match iter_until p f s with inl s => iter_until p f s | inr r => inr r end
  | xI p =>
      match f s with
      | inl s => match iter_until p f s with inl s => iter_until p f s | inr r => inr r end
      | inr r => inr r
      end
  end.

(** ** Data *)

Definition MAX_STORAGE_ASSIGNMENT_CANDIDATES : Z := 1024.

Record StorageAssignmentContext : Type := mkContext {
  ctx_network_binding : arr 32;
  ctx_publication : arr 32;
  ctx_chunk : arr 32;
  ctx_finalized_seed : arr 32;
  ctx_payer : arr 32;
  ctx_epoch : Z;
  ctx_term_start : Z;
  ctx_term_end : Z;
  ctx_replicas : Z;
}.
Record StorageAssignmentProvider : Type := mkProvider {
  prov_storage_id : arr 32;
  prov_payout_account : arr 32;
}.
#[export] Instance StorageAssignmentProvider_eq_dec : EqDecision StorageAssignmentProvider.
Proof. solve_decision. Defined.
#[export] Instance StorageAssignmentProvider_inhabited : Inhabited StorageAssignmentProvider :=
  populate (mkProvider ZERO ZERO).
Record StorageAssignmentPlan : Type := mkPlan {
  plan_context : StorageAssignmentContext;
  plan_eligible : list StorageAssignmentProvider;
  plan_selected : list StorageAssignmentProvider;
  plan_commitment : arr 32;
}.

(** The defaulted [operator<=>]: storage id first, payout account second. *)
Definition provider_lt (a b : StorageAssignmentProvider) : bool :=
  if alt (prov_storage_id a) (prov_storage_id b) then true
  else if alt (prov_storage_id b) (prov_storage_id a) then false
  else alt (prov_payout_account a) (prov_payout_account b).
Definition provider_le (a b : StorageAssignmentProvider) : Prop := provider_lt b a = false.
#[export] Instance provider_le_dec a b : Decision (provider_le a b) := bool_eq_dec _ _.

(** [std::unique] on a sorted vector. *)
Fixpoint unique (l : list StorageAssignmentProvider) : list StorageAssignmentProvider :=
  match l with
  | a :: rest => match rest with
                 | b :: _ => if decide (a = b) then unique rest else a :: unique rest
                 | [] => [a]
                 end
  | [] => []
  end.

Section assignment.
Context `{CryptoOps}.

(** [Digest] throws when the provider fails. *)
Definition Digest (domain l : bytes) : outcome (arr 32) := or_throw (ComputeSha256 [domain; l]).

Definition write_context (w : BinaryWriter) (c : StorageAssignmentContext) : outcome BinaryWriter :=
  try! w := w_Fixed w (arr_val (ctx_network_binding c)) ;;
  try! w := w_Fixed w (arr_val (ctx_publication c)) ;;
  try! w := w_Fixed w (arr_val (ctx_chunk c)) ;;
  try! w := w_Fixed w (arr_val (ctx_finalized_seed c)) ;;
  try! w := w_Fixed w (arr_val (ctx_payer c)) ;;
  try! w := w_U64 w (ctx_epoch c) ;;
  try! w := w_U64 w (ctx_term_start c) ;;
  try! w := w_U64 w (ctx_term_end c) ;;
  w_U8 w (ctx_replicas c).
Fixpoint write_provider_list (w : BinaryWriter) (l : list StorageAssignmentProvider) : outcome BinaryWriter :=
  match l with
  | [] => Ret w
  | p :: rest =>
      try! w := w_Fixed w (arr_val (prov_storage_id p)) ;;
      try! w := w_Fixed w (arr_val (prov_payout_account p)) ;;
      write_provider_list w rest
  end.
Definition write_providers (w : BinaryWriter) (l : list StorageAssignmentProvider) : outcome BinaryWriter :=
  try! w := w_U32 w (wrap32 (zlen l)) ;; write_provider_list w l.
Definition Plan_Encode (plan : StorageAssignmentPlan) (selected : bool) : outcome bytes :=
  try! w := write_context (w_new (256 * 1024)) (plan_context plan) ;;
  try! w := write_providers w (plan_eligible plan) ;;
  try! w := (if selected then write_providers w (plan_selected plan) else Ret w) ;;
  Ret (w_bytes w).

(** One turn of the [do ... while] loop of [Shuffle]: another counter, or the
    draw and the next counter, or the exception. *)
Definition draw_step (input : arr 32) (limit : Z) (counter : Z) : Z + outcome (Z * Z) :=
  if counter =? MAX64 then inr Throw
  else
    match (try! w := w_Fixed (w_new (256 * 1024)) (arr_val input) ;;
           try! w := w_U64 w counter ;;
           Digest (str "CYBOU/STORAGE-ASSIGNMENT-DRAW") (w_bytes w)) with
    | Throw => inr Throw
    | Ret hash =>
        let draw := le_val (subspan (arr_val hash) 0 8) in
        if limit <=? draw then inl (counter ⊕ 1) else inr (Ret (draw, counter ⊕ 1))
    end.
Definition draw_loop (input : arr 32) (limit counter : Z) : outcome (Z * Z) :=
  match iter_until 18446744073709551616 (draw_step input limit) counter with
  | inl _ => Throw
  | inr r => r
  end.

Definition draw_limit (bound : Z) : Z := MAX64 ⊖ MAX64 mod bound.

Definition swap {T} `{!Inhabited T} (i j : nat) (l : list T) : list T :=
  <[j := l !!! i]> (<[i := l !!! j]> l).

Fixpoint shuffle_loop {T} `{!Inhabited T} (size : nat) (items : list T) (input : arr 32) (counter : Z)
    : outcome (list T * Z) :=
  match size with
  | S (S _ as size') =>
      let bound := Z.of_nat size in
      try! (draw, counter) := draw_loop input (draw_limit bound) counter ;;
      shuffle_loop size' (swap size' (Z.to_nat (draw mod bound)) items) input counter
  | _ => Ret (items, counter)
  end.
Definition Shuffle {T} `{!Inhabited T} (items : list T) (input : arr 32) (counter : Z) : outcome (list T * Z) :=
  shuffle_loop (length items) items input counter.

(** The loop that checks the sorted candidates and groups them by account. *)
Fixpoint group_loop (payer : arr 32) (previous : option StorageAssignmentProvider)
    (groups : gmap (arr 32) (list StorageAssignmentProvider)) (l : list StorageAssignmentProvider)
    : option (gmap (arr 32) (list StorageAssignmentProvider)) :=
  match l with
  | [] => Some groups
  | p :: rest =>
      return_if IsNull (prov_storage_id p) || IsNull (prov_payout_account p)
        || bool_decide (prov_payout_account p = payer)
        || match previous with Some q => bool_decide (prov_storage_id q = prov_storage_id p) | None => false end
        with None ;;
      group_loop payer (Some p)
        (<[prov_payout_account p := default [] (groups !! prov_payout_account p) ++ [p]]> groups) rest
  end.

(** [for (i < replicas)]: shuffle the providers of the [i]-th account, take
    the first; [accounts[i]] and [groups.at] are in range because there are
    at least [replicas] groups. *)
Fixpoint select_loop (accounts : list (arr 32)) (groups : gmap (arr 32) (list StorageAssignmentProvider))
    (input : arr 32) (counter : Z) : outcome (list StorageAssignmentProvider) :=
  match accounts with
  | [] => Ret []
  | a :: rest =>
      try! providers := or_throw (groups !! a) ;;
      try! (shuffled, counter) := Shuffle providers input counter ;;
      try! p := or_throw (head shuffled) ;;
      try! selected := select_loop rest groups input counter ;;
      Ret (p :: selected)
  end.

Definition PrepareStorageAssignment (context : StorageAssignmentContext) (eligible : list StorageAssignmentProvider)
    : outcome (option StorageAssignmentPlan) :=
  return_if IsNull (ctx_network_binding context) || IsNull (ctx_publication context) || IsNull (ctx_chunk context)
    || IsNull (ctx_finalized_seed context) || IsNull (ctx_payer context)
    || (ctx_term_end context <=? ctx_term_start context) || (ctx_replicas context =? 0) || (2 <? ctx_replicas context)
    || (zlen eligible =? 0) || (MAX_STORAGE_ASSIGNMENT_CANDIDATES <? zlen eligible) with Ret None ;;
  let eligible := unique (merge_sort provider_le eligible) in
  let? groups := group_loop (ctx_payer context) None ∅ eligible else Ret None ;;
  return_if Z.of_nat (size groups) <? ctx_replicas context with Ret None ;;
  let plan := mkPlan context eligible [] ZERO in
  try! encoded := Plan_Encode plan false ;;
  try! input := Digest (str "CYBOU/STORAGE-ASSIGNMENT-INPUT") encoded ;;
  try! (accounts, counter) := Shuffle (keys groups) input 0 ;;
  try! selected := select_loop (take (Z.to_nat (ctx_replicas context)) accounts) groups input counter ;;
  let plan := mkPlan context eligible selected ZERO in
  try! encoded := Plan_Encode plan true ;;
  try! c := Digest (str "CYBOU/STORAGE-ASSIGNMENT-COMMITMENT") encoded ;;
  Ret (Some (mkPlan context eligible selected c)).
End assignment.

(** * The assignment draw is fair and deterministic

    Theorems on [src/src/cybou/storage_assignment_algorithm.cpp]. *)

(** ** The order of providers *)

Lemma alt_irrefl {n} (a : arr n) : alt a a = false.
Proof. apply blt_irrefl. Qed.
Lemma alt_trans {n} (a b c : arr n) : alt a b = true -> alt b c = true -> alt a c = true.
Proof. apply blt_trans. Qed.
Lemma alt_asym {n} (a b : arr n) : alt a b = true -> alt b a = false.
Proof. apply blt_asym. Qed.
Lemma alt_eq {n} (a b : arr n) : alt a b = false -> alt b a = false -> a = b.
Proof.
  intros H1 H2. destruct (decide (a = b)) as [|Hne]; [done|].
  assert (arr_val a <> arr_val b) by (intros E; by apply Hne, arr_eq).
  unfold alt in *. rewrite (blt_total (arr_val a) (arr_val b)) in H2; done.
Qed.

Lemma provider_lt_asym a b : provider_lt a b = true -> provider_lt b a = false.
Proof.
  unfold provider_lt. destruct (alt (prov_storage_id a) (prov_storage_id b)) eqn:E1.
  - intros _. by rewrite (alt_asym _ _ E1).
  - destruct (alt (prov_storage_id b) (prov_storage_id a)); [done|]. apply alt_asym.
Qed.
#[export] Instance provider_le_total : Total provider_le.
Proof.
  intros a b. unfold provider_le. destruct (provider_lt b a) eqn:E; [right|by left]. by apply provider_lt_asym.
Qed.
#[export] Instance provider_le_antisymm : AntiSymm (=) provider_le.
Proof.
  intros [s1 p1] [s2 p2]. unfold provider_le, provider_lt. simpl.
  destruct (alt s2 s1) eqn:E1; [done|]. destruct (alt s1 s2) eqn:E2; [done|].
  rewrite (alt_eq s1 s2) by done. intros. by rewrite (alt_eq p1 p2).
Qed.
#[export] Instance provider_le_trans : Transitive provider_le.
Proof.
  intros [s1 p1] [s2 p2] [s3 p3]. unfold provider_le, provider_lt. simpl.
  assert (Hge : forall a b c : arr 32, alt b a = false -> alt c b = false -> alt c a = false).
  { intros a b c H1 H2. destruct (alt c a) eqn:H3; [|done]. destruct (alt a b) eqn:H4.
    - by rewrite (alt_trans _ _ _ H3 H4) in H2.
    - by rewrite (alt_eq a b H4 H1), H2 in H3. }
  destruct (alt s2 s1) eqn:E1; [done|]. destruct (alt s3 s2) eqn:E2; [intros; done|].
  rewrite (Hge s1 s2 s3) by done. destruct (alt s1 s2) eqn:E3.
  { intros _. destruct (alt s2 s3) eqn:E4.
    - by rewrite (alt_trans _ _ _ E3 E4).
    - rewrite (alt_eq s2 s3 E4 E2) in E3. by rewrite E3. }
  rewrite (alt_eq s1 s2) by done. destruct (alt s2 s3); [done|]. apply Hge.
Qed.

Lemma sort_perm l1 l2 : l1 ≡ₚ l2 -> merge_sort provider_le l1 = merge_sort provider_le l2.
Proof.
  intros Hp. apply (StronglySorted_unique provider_le); [apply StronglySorted_merge_sort; apply _..|].
  by rewrite !merge_sort_Permutation.
Qed.
Lemma elem_of_unique l x : x ∈ unique l <-> x ∈ l.
Proof.
  induction l as [|a [|b l] IH]; [done..|]. cbn [unique]. cbn [unique] in IH.
  destruct (decide (a = b)) as [->|]; rewrite ?elem_of_cons, IH; rewrite ?elem_of_cons; tauto.
Qed.

(** ** The shuffle *)

Lemma swap_perm {T} `{!Inhabited T} (i j : nat) (l : list T) :
  (i < length l)%nat -> (j < length l)%nat -> swap i j l ≡ₚ l.
Proof.
  intros Hi Hj. unfold swap.
  pose proof (list_lookup_lookup_total_lt l i Hi) as Ei. pose proof (list_lookup_lookup_total_lt l j Hj) as Ej.
  destruct (decide (i = j)) as [->|Hne].
  { rewrite list_insert_insert_eq, list_insert_id by done. done. }
  apply Permutation_inj. rewrite !length_insert. split; [done|].
  exists (fun k => if decide (k = i) then j else if decide (k = j) then i else k). split.
  - intros x y. repeat case_decide; congruence.
  - intros k. repeat case_decide; subst.
    + rewrite list_lookup_insert_ne, list_lookup_insert_eq by done. congruence.
    + rewrite list_lookup_insert_eq by (by rewrite length_insert). congruence.
    + by rewrite !list_lookup_insert_ne by done.
Qed.

Section assignment_proofs.
Context `{CryptoOps}.

Lemma shuffle_loop_perm {T} `{!Inhabited T} size : forall (items items' : list T) input counter counter',
  (size <= length items)%nat -> shuffle_loop size items input counter = Ret (items', counter') -> items' ≡ₚ items.
Proof.
  induction size as [|size IH]; intros items items' input counter counter' Hs E; cbn [shuffle_loop] in E.
  { by injection E as <- _. }
  destruct size as [|n]; [by injection E as <- _|].
  destruct (draw_loop _ _ _) as [[draw c]|]; [|done]. cbn [outcome_bind] in E.
  set (size := S n) in *.
  assert (Hj : (Z.to_nat (draw mod Z.of_nat (S size)) < length items)%nat).
  { pose proof (Z.mod_pos_bound draw (Z.of_nat (S size)) ltac:(lia)). lia. }
  assert (Hi : (size < length items)%nat) by lia.
  apply IH in E; [|rewrite (swap_perm _ _ items Hi Hj); lia]. rewrite E. by apply swap_perm.
Qed.
Lemma Shuffle_perm {T} `{!Inhabited T} (items items' : list T) input counter counter' :
  Shuffle items input counter = Ret (items', counter') -> items' ≡ₚ items.
Proof. by apply shuffle_loop_perm. Qed.

(** The bound on the number of draws is never what stops the loop: the
    counter runs out first. *)
Lemma iter_until_count {S R} (f : S -> S + R) (rank : S -> Z) p : forall s s',
  (forall a b, f a = inl b -> rank b = rank a + 1) ->
  iter_until p f s = inl s' -> rank s' = rank s + Zpos p.
Proof.
  intros s s' Hf. revert s s'. induction p as [p IH|p IH|]; intros s s' E; cbn [iter_until] in E.
  - destruct (f s) as [a|] eqn:E0; [|done]. destruct (iter_until p f a) as [b|] eqn:E1; [|done].
    apply IH in E1, E. apply Hf in E0. lia.
  - destruct (iter_until p f s) as [b|] eqn:E1; [|done]. apply IH in E1, E. lia.
  - by apply Hf in E.
Qed.
Lemma iter_until_inv {S R} (f : S -> S + R) (P : S -> Prop) p : forall s s',
  (forall a b, P a -> f a = inl b -> P b) -> P s -> iter_until p f s = inl s' -> P s'.
Proof.
  intros s s' Hf. revert s s'. induction p as [p IH|p IH|]; intros s s' Hs E; cbn [iter_until] in E.
  - destruct (f s) as [a|] eqn:E0; [|done]. destruct (iter_until p f a) as [b|] eqn:E1; [|done]. eauto.
  - destruct (iter_until p f s) as [b|] eqn:E1; [|done]. eauto.
  - eauto.
Qed.
Lemma draw_fuel input limit counter : is_u64 counter ->
  exists r, iter_until 18446744073709551616 (draw_step input limit) counter = inr r.
Proof.
  intros Hc. destruct (iter_until _ _ counter) as [c|r] eqn:E; [exfalso|by exists r].
  assert (Hstep : forall a b, is_u64 a -> draw_step input limit a = inl b -> is_u64 b /\ b = a + 1).
  { intros a b Ha Eab. unfold draw_step in Eab. destruct (Z.eqb_spec a MAX64); [done|].
    destruct (outcome_bind _ _) as [h|] in Eab; [|done]. destruct (limit <=? _) in Eab; [|done].
    injection Eab as <-. rewrite add64_small by ulia. ulia. }
  (* count steps on the counters that stay in range *)
  assert (Hrank : c = counter + 18446744073709551616).
  { pose (g := fun a : Z => if decide (is_u64 a) then draw_step input limit a else inl (a + 1) : Z + outcome (Z * Z)).
    assert (Eg : iter_until 18446744073709551616 g counter = inl c).
    { rewrite <- E. clear E. revert counter Hc. generalize 18446744073709551616%positive as p.
      assert (Hg : forall a, is_u64 a -> g a = draw_step input limit a) by (intros a Ha; unfold g; by rewrite decide_True).
      assert (Hpres : forall p a b, is_u64 a -> iter_until p (draw_step input limit) a = inl b -> is_u64 b).
      { intros p a b Ha. apply iter_until_inv; [|done]. intros x y Hx Exy. by destruct (Hstep _ _ Hx Exy). }
      induction p as [p IH|p IH|]; intros counter Hc; cbn [iter_until].
      - rewrite Hg by done. destruct (draw_step input limit counter) as [a|] eqn:E0; [|done].
        destruct (Hstep _ _ Hc E0) as [Ha _]. rewrite IH by done.
        destruct (iter_until p _ a) as [b|] eqn:E1; [|done]. eauto.
      - rewrite IH by done. destruct (iter_until p _ counter) as [b|] eqn:E1; [|done]. eauto.
      - by apply Hg. }
    apply (iter_until_count g id) in Eg; [done|]. intros a b Eab. unfold g in Eab. case_decide.
    - by destruct (Hstep _ _ H0 Eab).
    - by injection Eab as <-. }
  assert (is_u64 c); [|ulia]. revert E. apply iter_until_inv; [|done].
  intros a b Ha Eab. by destruct (Hstep _ _ Ha Eab).
Qed.

(** ** Groups by payout account *)

Definition groups_ok (payer : arr 32) (known : list StorageAssignmentProvider)
    (groups : gmap (arr 32) (list StorageAssignmentProvider)) : Prop :=
  forall a ps, groups !! a = Some ps -> a <> payer /\ IsNull a = false /\ ps <> [] /\
    Forall (fun p => prov_payout_account p = a /\ p ∈ known /\ IsNull (prov_storage_id p) = false) ps.

Lemma group_loop_ok payer known l : forall previous groups groups',
  groups_ok payer known groups -> (forall p, p ∈ l -> p ∈ known) ->
  group_loop payer previous groups l = Some groups' -> groups_ok payer known groups'.
Proof.
  induction l as [|p l IH]; intros previous groups groups' Hg Hl E; cbn [group_loop] in E; [by some_inj E|].
  walk_step E. guards. eapply IH; [|intros q Hq; apply Hl; by right|exact E].
  intros a ps Hlook. destruct (decide (a = prov_payout_account p)) as [->|Hne].
  - rewrite lookup_insert_eq in Hlook. some_inj Hlook. split_and!; [done..|by destruct (default _ _)|].
    apply Forall_app. split; [|constructor; [|constructor]; split_and!; [done|apply Hl; by left|done]].
    destruct (groups !! prov_payout_account p) as [qs|] eqn:Eq; [|constructor]. by apply Hg in Eq as (_ & _ & _ & ?).
  - rewrite lookup_insert_ne in Hlook by done. by apply Hg.
Qed.

Lemma select_loop_ok payer known groups input accounts : groups_ok payer known groups ->
  forall counter selected, select_loop accounts groups input counter = Ret selected ->
  prov_payout_account <$> selected = accounts /\
  Forall (fun p => p ∈ known /\ prov_payout_account p <> payer /\
                   IsNull (prov_storage_id p) = false /\ IsNull (prov_payout_account p) = false) selected.
Proof.
  intros Hg. induction accounts as [|a rest IH]; intros counter selected E; cbn [select_loop] in E.
  { injection E as <-. split; [done|constructor]. }
  destruct (groups !! a) as [ps|] eqn:Ea; cbn [or_throw outcome_bind] in E; [|done].
  destruct (Shuffle ps input counter) as [[shuffled c]|] eqn:Es; cbn [outcome_bind] in E; [|done].
  destruct shuffled as [|p shuffled]; cbn [head or_throw outcome_bind] in E; [done|].
  destruct (select_loop rest groups input c) as [sel|] eqn:Er; cbn [outcome_bind] in E; [|done].
  injection E as <-. apply IH in Er as [Er Hsel]. apply Shuffle_perm in Es.
  apply Hg in Ea as (Hne & Hnull & _ & Hps). rewrite <- Es in Hps. apply Forall_cons in Hps as [(Hp & Hk & Hn) _].
  rewrite fmap_cons, Hp, Er. split; [done|]. constructor; [|done]. by rewrite Hp.
Qed.

(** A storage assignment that is prepared selects exactly the requested
    number of providers, each of them among the candidates offered, none paid
    to the payer itself, and no two of them paid to the same account. *)
Theorem PrepareStorageAssignment_selects context eligible plan :
  is_u8 (ctx_replicas context) -> PrepareStorageAssignment context eligible = Ret (Some plan) ->
  zlen (plan_selected plan) = ctx_replicas context /\
  NoDup (prov_payout_account <$> plan_selected plan) /\
  Forall (fun p => p ∈ eligible /\ prov_payout_account p <> ctx_payer context /\
                   IsNull (prov_storage_id p) = false /\ IsNull (prov_payout_account p) = false)
    (plan_selected plan).
Proof.
  unfold PrepareStorageAssignment. intros Hu E. walk E. injection E as <-. cbn [plan_selected].
  apply Shuffle_perm in Hret1. subst.
  assert (Hg : groups_ok (ctx_payer context) eligible g).
  { eapply group_loop_ok; [|intros p Hp|exact Hopt]; [by intros ? ? ?%lookup_empty_Some|].
    by rewrite elem_of_unique, merge_sort_Permutation in Hp. }
  destruct (select_loop_ok _ _ _ _ _ Hg _ _ Hret2) as [Hpay Hall]. split_and!; [| |done].
  - assert (Hlen : length l = size g) by (rewrite Hret1; unfold keys; by rewrite length_fmap, length_entries).
    apply (f_equal length) in Hpay. rewrite length_fmap, length_take, Hlen in Hpay. guards.
    unfold zlen. ulia.
  - rewrite Hpay. eapply sublist_NoDup; [|apply sublist_take]. rewrite Hret1. apply NoDup_keys.
Qed.

(** ** Determinism *)

Lemma unique_sorted l : StronglySorted provider_le l -> StronglySorted provider_le (unique l) /\ NoDup (unique l).
Proof.
  induction 1 as [|a l Hl [IH Hnd] Ha]; [split; constructor|]. cbn [unique].
  destruct l as [|b l]; [split; [repeat constructor|apply NoDup_singleton]|].
  destruct (decide (a = b)) as [->|Hne]; [done|]. split.
  - constructor; [done|]. apply Forall_forall. intros x Hx. rewrite Forall_forall in Ha. apply Ha. by apply elem_of_unique.
  - apply NoDup_cons. split; [|done]. rewrite elem_of_unique, elem_of_cons. intros [->|Hin]; [done|].
    apply Hne. apply (anti_symm provider_le); [rewrite Forall_forall in Ha; apply Ha; by left|].
    inversion Hl as [|? ? _ Hb]; subst. rewrite Forall_forall in Hb. by apply Hb.
Qed.
Lemma unique_sort_ext l1 l2 : (forall p, p ∈ l1 <-> p ∈ l2) ->
  unique (merge_sort provider_le l1) = unique (merge_sort provider_le l2).
Proof.
  intros Heq.
  destruct (unique_sorted (merge_sort provider_le l1)) as [S1 N1]; [apply StronglySorted_merge_sort; apply _|].
  destruct (unique_sorted (merge_sort provider_le l2)) as [S2 N2]; [apply StronglySorted_merge_sort; apply _|].
  apply (StronglySorted_unique provider_le); [done..|]. apply NoDup_Permutation; [done..|].
  intros p. by rewrite !elem_of_unique, !merge_sort_Permutation.
Qed.

(** The assignment depends only on the set of candidates: reordering them
    or repeating some changes nothing, so every node that knows the same
    candidates computes the same plan and the same commitment. *)
Theorem PrepareStorageAssignment_order_independent context l1 l2 :
  (forall p, p ∈ l1 <-> p ∈ l2) -> zlen l1 <= MAX_STORAGE_ASSIGNMENT_CANDIDATES ->
  zlen l2 <= MAX_STORAGE_ASSIGNMENT_CANDIDATES ->
  PrepareStorageAssignment context l1 = PrepareStorageAssignment context l2.
Proof.
  intros Heq H1 H2. unfold PrepareStorageAssignment. rewrite (unique_sort_ext l1 l2) by done.
  apply Z.ltb_ge in H1, H2. rewrite H1, H2.
  assert ((zlen l1 =? 0) = (zlen l2 =? 0)) as ->; [|done].
  destruct l1 as [|p l1], l2 as [|q l2]; [done| | |rewrite !zlen_cons; pose proof (zlen_nonneg l1); pose proof (zlen_nonneg l2); lia].
  - exfalso. destruct (Heq q) as [_ Hq]. assert (q ∈ @nil StorageAssignmentProvider) by (apply Hq; by left). set_solver.
  - exfalso. destruct (Heq p) as [Hp _]. assert (p ∈ @nil StorageAssignmentProvider) by (apply Hp; by left). set_solver.
Qed.

(** A draw that is accepted is below a multiple of the number of choices
    that is the largest one a 64-bit draw allows up to one step, so the
    remainder the shuffle uses takes each value equally often. *)
Theorem draw_limit_unbiased bound : 0 < bound <= MAX_STORAGE_ASSIGNMENT_CANDIDATES ->
  (bound | draw_limit bound) /\ MAX64 - bound < draw_limit bound <= MAX64.
Proof.
  unfold MAX_STORAGE_ASSIGNMENT_CANDIDATES, draw_limit. intros Hb.
  pose proof (Z.mod_pos_bound MAX64 bound ltac:(lia)). rewrite sub64_small by ulia.
  split; [|lia]. exists (MAX64 / bound). pose proof (Z.div_mod MAX64 bound ltac:(lia)). lia.
Qed.
End assignment_proofs.
