(* ===== verification/StorageAudit.v ===== *)
(** * Storage keys, audits and payout bindings

    [src/src/cybou/storage_key_proof.cpp] (a storage key proves itself with a
    signature) and [storage_audit.cpp] (audit samples, receipts and the
    binding of a storage key to the account it is paid to). *)

From S2P Require Import Prelude.
From S2P Require Import Bytes.
From S2P Require Import Codec.
From S2P Require Import Crypto.
From S2P Require Import Merkle.

(** ** Data *)

Definition STORAGE_PROOF_SIZE : Z := 32 + 1312 + 64 + 2420.
Definition STORAGE_AUDIT_SAMPLE_SIZE : Z := 64.

Record StorageAuditChallenge : Type := mkChallenge {
  ch_chunk_id : ChunkId;
  ch_byte_offset : Z;
  ch_nonce : arr 32;
}.
Record StorageAuditProof : Type := mkAuditProof {
  ap_chunk_id : ChunkId;
  ap_byte_offset : Z;
  ap_nonce : arr 32;
  ap_response_hash : Hash256;
}.
Record StoragePayoutBinding : Type := mkPayoutBinding {
  pb_payout_account : AccountId;
  pb_authorization : IdentityHybridSignature;
  pb_storage_proof : bytes;
}.
#[export] Instance StoragePayoutBinding_eq_dec : EqDecision StoragePayoutBinding.
Proof. solve_decision. Defined.

Section audit.
Context `{CryptoOps}.

(** ** [storage_key_proof.cpp] *)

Definition VerifyStorageProof (payload message : bytes) : option (arr 32) :=
  return_if negb (zlen payload =? STORAGE_PROOF_SIZE) with None ;;
  let key := mkPublicKey STORAGE (arr_of 32 (subspan payload 0 32)) (subspan payload 32 1312) in
  let signature := mkSignature (arr_of 64 (subspan payload 1344 64)) (subspan payload 1408 2420) in
  return_if negb (VerifyIdentityMessage key signature message) with None ;;
  Some (ComputeChunkId (str "CYBOU/STORAGE-ID" ++ subspan payload 0 1344)).

(** ** [storage_audit.cpp] *)

Definition ComputeStorageAuditResponse (chunk_bytes : bytes) (byte_offset : Z) (nonce : arr 32) : option Hash256 :=
  return_if (zlen chunk_bytes =? 0) || (zlen chunk_bytes <=? byte_offset) with None ;;
  let available := zlen chunk_bytes ⊖ byte_offset in
  let sample_len := Z.min available STORAGE_AUDIT_SAMPLE_SIZE in
  let sample := subspan chunk_bytes byte_offset sample_len in
  Some (blake3 (sample ++ arr_val nonce)).

Definition CreateStorageAuditProof (challenge : StorageAuditChallenge) (chunk_bytes : bytes)
    : option StorageAuditProof :=
  return_if negb (bool_decide (ComputeChunkId chunk_bytes = ch_chunk_id challenge)) with None ;;
  let? response := ComputeStorageAuditResponse chunk_bytes (ch_byte_offset challenge) (ch_nonce challenge) else None ;;
  Some (mkAuditProof (ch_chunk_id challenge) (ch_byte_offset challenge) (ch_nonce challenge) response).

Definition VerifyStorageAuditProof (proof : StorageAuditProof) (chunk_bytes : bytes) : bool :=
  return_if negb (bool_decide (ComputeChunkId chunk_bytes = ap_chunk_id proof)) with false ;;
  match ComputeStorageAuditResponse chunk_bytes (ap_byte_offset proof) (ap_nonce proof) with
  | Some expected => bool_decide (expected = ap_response_hash proof)
  | None => false
  end.

Definition StorageReceiptMessage (network_binding publication_operation_id : Hash256) (chunk_id : ChunkId)
    (stored_size : Z) : bytes :=
  str "CYBOU/STORAGE-RECEIPT" ++ arr_val network_binding ++ arr_val publication_operation_id
  ++ arr_val chunk_id ++ le_bytes 4 stored_size.

Definition StoragePayoutBindingDigest (network_binding storage_id : arr 32) (payout_account : AccountId) : arr 32 :=
  blake3 (str "CYBOU/STORAGE-PAYOUT-BINDING" ++ arr_val network_binding ++ arr_val storage_id
          ++ arr_val payout_account).

Definition EncodeStoragePayoutBinding (b : StoragePayoutBinding) : bytes :=
  arr_val (pb_payout_account b) ++ arr_val (sig_ed25519 (pb_authorization b))
  ++ sig_ml_dsa (pb_authorization b) ++ pb_storage_proof b.

Definition binding_prefix : Z := 32 + 64 + 2420.
Definition DecodeStoragePayoutBinding (l : bytes) : option StoragePayoutBinding :=
  return_if zlen l <=? binding_prefix with None ;;
  let? account := AccountId_FromBytes (subspan l 0 32) else None ;;
  Some (mkPayoutBinding account
    (mkSignature (arr_of 64 (subspan l 32 64)) (subspan l 96 2420))
    (subspan l binding_prefix (zlen l - binding_prefix))).

Definition VerifyStoragePayoutBindingStorageKey (b : StoragePayoutBinding) (network_binding storage_id : arr 32) : bool :=
  let digest := StoragePayoutBindingDigest network_binding storage_id (pb_payout_account b) in
  match VerifyStorageProof (pb_storage_proof b) (arr_val digest) with
  | Some signer => bool_decide (signer = storage_id)
  | None => false
  end.

Definition VerifyStorageReceipt (receipt : bytes) (network_binding publication_operation_id : Hash256)
    (chunk_id : ChunkId) (stored_size : Z) : option (arr 32) :=
  VerifyStorageProof receipt
    (StorageReceiptMessage network_binding publication_operation_id chunk_id stored_size).

(** ** Lemmas *)

Lemma Decode_EncodeStoragePayoutBinding b :
  IsNull (pb_payout_account b) = false -> zlen (sig_ml_dsa (pb_authorization b)) = 2420 ->
  pb_storage_proof b <> [] -> DecodeStoragePayoutBinding (EncodeStoragePayoutBinding b) = Some b.
Proof.
  intros Hn Hs Hp. destruct b as [account [ed ml] proof]. cbn [pb_payout_account pb_authorization pb_storage_proof sig_ml_dsa] in *.
  assert (0 < zlen proof) by (destruct proof; [done|rewrite zlen_cons; pose proof (zlen_nonneg proof); lia]).
  unfold EncodeStoragePayoutBinding, DecodeStoragePayoutBinding, binding_prefix.
  cbn [pb_payout_account pb_authorization pb_storage_proof sig_ml_dsa sig_ed25519].
  assert (Hl : zlen (arr_val account ++ arr_val ed ++ ml ++ proof) = 32 + 64 + 2420 + zlen proof) by len.
  rewrite Hl, (proj2 (Z.leb_gt _ _)) by lia. cut.
  by rewrite AccountId_FromBytes_arr, Hn, arr_of_arr.
Qed.
Lemma Encode_DecodeStoragePayoutBinding l b :
  DecodeStoragePayoutBinding l = Some b -> EncodeStoragePayoutBinding b = l.
Proof.
  unfold DecodeStoragePayoutBinding, binding_prefix. intros E. walk E. some_inj E. guards.
  apply AccountId_FromBytes_inv in Hopt as [E1 N1]. unfold EncodeStoragePayoutBinding.
  cbn [pb_payout_account pb_authorization pb_storage_proof sig_ml_dsa sig_ed25519].
  rewrite <- E1, (arr_of_subspan 64) by (cbn [Z.of_N]; lia). glue. apply subspan_whole; lia.
Qed.
(** The decoded signature has the size of an authorization signature. *)
Lemma DecodeStoragePayoutBinding_inv l b : DecodeStoragePayoutBinding l = Some b ->
  zlen (sig_ml_dsa (pb_authorization b)) = 2420 /\ IsNull (pb_payout_account b) = false.
Proof.
  unfold DecodeStoragePayoutBinding, binding_prefix. intros E. walk E. some_inj E. guards.
  apply AccountId_FromBytes_inv in Hopt as [E1 N1]. split; [|done].
  cbn [pb_authorization sig_ml_dsa]. rewrite zlen_subspan; lia.
Qed.

(** An honest holder of the whole chunk always passes the audit it
    answers, and the verifier accepts nothing but that answer: a proof is
    accepted exactly when it is the one the challenge's holder creates. *)
Theorem VerifyStorageAuditProof_iff challenge chunk_bytes proof :
  ap_chunk_id proof = ch_chunk_id challenge -> ap_byte_offset proof = ch_byte_offset challenge ->
  ap_nonce proof = ch_nonce challenge ->
  (VerifyStorageAuditProof proof chunk_bytes = true <->
   CreateStorageAuditProof challenge chunk_bytes = Some proof).
Proof.
  destruct proof as [id off nonce h], challenge as [id' off' nonce']. cbn [ap_chunk_id ap_byte_offset ap_nonce ch_chunk_id ch_byte_offset ch_nonce].
  intros -> -> ->. unfold VerifyStorageAuditProof, CreateStorageAuditProof.
  cbn [ap_chunk_id ap_byte_offset ap_nonce ch_chunk_id ch_byte_offset ch_nonce ap_response_hash].
  case_bool_decide; cbn [negb]; [|done].
  destruct (ComputeStorageAuditResponse _ _ _) as [e|]; [|done].
  rewrite bool_decide_eq_true. split; [by intros ->|by intros [= ->]].
Qed.
End audit.
