(* ===== verification/SettlementData.v ===== *)
(** * Storage settlements and their codec

    The data of [src/src/cybou/storage_lease.h] that the proof-of-authority
    node signs (assignment preparation, activation and payout), and
    [SerializeSettlementBody], [SerializeStorageSettlement] and
    [DeserializeStorageSettlement] of [storage_lease.cpp]. *)

From S2P Require Import Prelude.
From S2P Require Import Bytes.
From S2P Require Import Codec.
From S2P Require Import Params.
From S2P Require Import Crypto.
From S2P Require Import Payloads.
From S2P Require Import Merkle.
From S2P Require Import StorageAudit.

(** ** Data *)

Definition SETTLEMENT_HEADER_SIZE : Z := 8 + 8 + 1 + 8 + 32 + 4.
Definition POA_SIGNATURE_SIZE : Z := 64 + 3309.
Definition MAX_STORAGE_SETTLEMENT_ENTRIES : Z := 1024.
Definition STORAGE_SETTLEMENT_ENTRY_SIZE : Z := 32 + 1 + 32 + 32 + 8 + 8.

Record StorageSettlementEntry : Type := mkSettlementEntry {
  se_funding_operation_id : Hash256;
  se_payout_account : AccountId;
  se_amount : Z;
  se_slot : Z;
  se_storage_id : arr 32;
  se_verified_unit_seconds : Z;
}.
Inductive StorageSettlementAction : Type := PREPARE | ACTIVATE | PAY.
#[export] Instance StorageSettlementAction_eq_dec : EqDecision StorageSettlementAction.
Proof. solve_decision. Defined.
Definition action_value (a : StorageSettlementAction) : Z :=
  match a with PREPARE => 1 | ACTIVATE => 2 | PAY => 3 end.
Record StorageSettlementBinding : Type := mkSettlementBinding {
  sb_storage_id : arr 32;
  sb_binding : StoragePayoutBinding;
}.
Record StorageSettlement : Type := mkSettlement {
  ss_period : Z;
  ss_period_start_utc : Z;
  ss_entries : list StorageSettlementEntry;
  ss_poa_signature : IdentityHybridSignature;
  ss_action : StorageSettlementAction;
  ss_funded_term_id : Hash256;
  ss_preparation_id : Hash256;
  ss_assignment_epoch : Z;
  ss_eligible : list StorageSettlementBinding;
  ss_manifest : list ChunkId;
  ss_period_end_utc : Z;
  ss_evidence_root : Hash256;
  ss_activation_witnesses : list Hash256;
}.

(** ** Encoding *)

(** The order of [std::tie(funding_operation_id, slot, storage_id,
    payout_account)]. *)
Definition entry_lt (a b : StorageSettlementEntry) : bool :=
  if alt (se_funding_operation_id a) (se_funding_operation_id b) then true
  else if alt (se_funding_operation_id b) (se_funding_operation_id a) then false
  else if se_slot a <? se_slot b then true
  else if se_slot b <? se_slot a then false
  else if alt (se_storage_id a) (se_storage_id b) then true
  else if alt (se_storage_id b) (se_storage_id a) then false
  else alt (se_payout_account a) (se_payout_account b).

Fixpoint write_eligible (w : BinaryWriter) (prior : option StorageSettlementBinding)
    (l : list StorageSettlementBinding) : outcome (option BinaryWriter) :=
  match l with
  | [] => Ret (Some w)
  | e :: rest =>
      return_if IsNull (sb_storage_id e)
        || match prior with Some p => negb (alt (sb_storage_id p) (sb_storage_id e)) | None => false end
        with Ret None ;;
      let binding := EncodeStoragePayoutBinding (sb_binding e) in
      return_if negb (zlen binding =? 6344) with Ret None ;;
      let? _ := DecodeStoragePayoutBinding binding else Ret None ;;
      try! w := w_Fixed w (arr_val (sb_storage_id e)) ;;
      try! w := w_Bytes w binding 6344 ;;
      write_eligible w (Some e) rest
  end.
Fixpoint write_manifest (w : BinaryWriter) (seen : gset ChunkId) (l : list ChunkId) : outcome (option BinaryWriter) :=
  match l with
  | [] => Ret (Some w)
  | chunk :: rest =>
      return_if IsNull chunk || bool_decide (chunk ∈ seen) with Ret None ;;
      try! w := w_Fixed w (arr_val chunk) ;;
      write_manifest w ({[ chunk ]} ∪ seen) rest
  end.

Definition entry_bytes (e : StorageSettlementEntry) : bytes :=
  arr_val (se_funding_operation_id e) ++ le_bytes 1 (se_slot e) ++ arr_val (se_storage_id e)
  ++ arr_val (se_payout_account e) ++ le_bytes 8 (se_verified_unit_seconds e) ++ le_bytes 8 (se_amount e).
(** The loops over the entries and over the witnesses: every element is
    appended, [None] when one is refused. *)
Fixpoint write_entries (prior : option StorageSettlementEntry) (l : list StorageSettlementEntry) : option bytes :=
  match l with
  | [] => Some []
  | e :: rest =>
      return_if IsNull (se_funding_operation_id e) || IsNull (se_payout_account e) || IsNull (se_storage_id e)
        || (se_verified_unit_seconds e =? 0)
        || match prior with Some p => negb (entry_lt p e) | None => false end with None ;;
      let? tail := write_entries (Some e) rest else None ;;
      Some (entry_bytes e ++ tail)
  end.
Fixpoint write_witnesses (previous : option Hash256) (l : list Hash256) : option bytes :=
  match l with
  | [] => Some []
  | id :: rest =>
      return_if IsNull id || match previous with Some p => negb (alt p id) | None => false end with None ;;
      let? tail := write_witnesses (Some id) rest else None ;;
      Some (arr_val id ++ tail)
  end.

Definition SerializeSettlementBody (s : StorageSettlement) : option bytes :=
  return_if (ss_period_start_utc s =? 0) || (MAX_STORAGE_SETTLEMENT_ENTRIES <? zlen (ss_entries s)) with None ;;
  if negb (bool_decide (ss_action s = PAY)) then
    return_if negb (zlen (ss_entries s) =? 0) || negb (ss_period_end_utc s =? 0) || negb (IsNull (ss_evidence_root s))
      || negb (zlen (ss_activation_witnesses s) =? 0) with None ;;
    default None (catch_none (
      let w := w_new (MAX_OPERATION_PAYLOAD_BYTES - 1 - POA_SIGNATURE_SIZE) in
      try! w := w_U64 w (ss_period s) ;;
      try! w := w_U64 w (ss_period_start_utc s) ;;
      try! w := w_U8 w (action_value (ss_action s)) ;;
      match ss_action s with
      | PREPARE =>
          return_if IsNull (ss_funded_term_id s) || negb (IsNull (ss_preparation_id s)) || (ss_assignment_epoch s =? 0)
            || negb (zlen (ss_manifest s) =? 0) || (zlen (ss_eligible s) =? 0) || (20 <? zlen (ss_eligible s))
            with Ret None ;;
          try! w := w_Fixed w (arr_val (ss_funded_term_id s)) ;;
          try! w := w_U64 w (ss_assignment_epoch s) ;;
          try! w := w_U32 w (wrap32 (zlen (ss_eligible s))) ;;
          try! o := write_eligible w None (ss_eligible s) ;;
          let? w := o else Ret None ;;
          Ret (Some (w_bytes w))
      | ACTIVATE =>
          return_if IsNull (ss_preparation_id s) || negb (IsNull (ss_funded_term_id s))
            || negb (ss_assignment_epoch s =? 0)
            || negb (zlen (ss_eligible s) =? 0) || (zlen (ss_manifest s) =? 0) || (3988 <? zlen (ss_manifest s))
            with Ret None ;;
          try! w := w_Fixed w (arr_val (ss_preparation_id s)) ;;
          try! w := w_U32 w (wrap32 (zlen (ss_manifest s))) ;;
          try! o := write_manifest w ∅ (ss_manifest s) ;;
          let? w := o else Ret None ;;
          Ret (Some (w_bytes w))
      | PAY => Ret None
      end))
  else
    return_if negb (IsNull (ss_funded_term_id s)) || negb (IsNull (ss_preparation_id s))
      || negb (ss_assignment_epoch s =? 0)
      || negb (zlen (ss_eligible s) =? 0) || negb (zlen (ss_manifest s) =? 0) with None ;;
    return_if (ss_period_end_utc s <=? ss_period_start_utc s) || IsNull (ss_evidence_root s)
      || (MAX_OPERATION_PAYLOAD_BYTES / 32 <? zlen (ss_activation_witnesses s)) with None ;;
    let size := SETTLEMENT_HEADER_SIZE + zlen (ss_entries s) * STORAGE_SETTLEMENT_ENTRY_SIZE
                + 4 + 32 * zlen (ss_activation_witnesses s) in
    return_if MAX_OPERATION_PAYLOAD_BYTES - 1 - POA_SIGNATURE_SIZE <? size with None ;;
    let? entries := write_entries None (ss_entries s) else None ;;
    let? witnesses := write_witnesses None (ss_activation_witnesses s) else None ;;
    Some (le_bytes 8 (ss_period s) ++ le_bytes 8 (ss_period_start_utc s) ++ le_bytes 1 (action_value (ss_action s))
          ++ le_bytes 8 (ss_period_end_utc s) ++ arr_val (ss_evidence_root s)
          ++ le_bytes 4 (zlen (ss_entries s)) ++ entries
          ++ le_bytes 4 (zlen (ss_activation_witnesses s)) ++ witnesses).

Definition SerializeStorageSettlement (s : StorageSettlement) : option bytes :=
  let? out := SerializeSettlementBody s else None ;;
  return_if negb (zlen (sig_ml_dsa (ss_poa_signature s)) =? 3309) with None ;;
  Some (out ++ arr_val (sig_ed25519 (ss_poa_signature s)) ++ sig_ml_dsa (ss_poa_signature s)).

(** ** Decoding *)

Fixpoint read_eligible (count : nat) (r : BinaryReader)
    : outcome (option (list StorageSettlementBinding * BinaryReader)) :=
  match count with
  | O => Ret (Some ([], r))
  | S count =>
      try! (storage_id, r) := r_Arr 32 r ;;
      try! (l, r) := r_Bytes r 6344 ;;
      let? binding := DecodeStoragePayoutBinding l else Ret None ;;
      try! o := read_eligible count r ;;
      let? (rest, r) := o else Ret None ;;
      Ret (Some (mkSettlementBinding storage_id binding :: rest, r))
  end.
Fixpoint read_manifest (count : nat) (r : BinaryReader) : outcome (list ChunkId * BinaryReader) :=
  match count with
  | O => Ret ([], r)
  | S count =>
      try! (chunk, r) := r_Arr 32 r ;;
      try! (rest, r) := read_manifest count r ;;
      Ret (chunk :: rest, r)
  end.
Fixpoint read_entries (count : nat) (l : bytes) (offset : Z) : option (list StorageSettlementEntry) :=
  match count with
  | O => Some []
  | S count =>
      let? payout := AccountId_FromBytes (subspan l (offset + 65) 32) else None ;;
      let entry := mkSettlementEntry (arr_of 32 (subspan l offset 32)) payout
        (le_val (subspan l (offset + 105) 8)) (le_val (subspan l (offset + 32) 1))
        (arr_of 32 (subspan l (offset + 33) 32)) (le_val (subspan l (offset + 97) 8)) in
      let? rest := read_entries count l (offset + STORAGE_SETTLEMENT_ENTRY_SIZE) else None ;;
      Some (entry :: rest)
  end.
Fixpoint read_witnesses (count : nat) (l : bytes) (offset : Z) : list Hash256 :=
  match count with
  | O => []
  | S count => arr_of 32 (subspan l offset 32) :: read_witnesses count l (offset + 32)
  end.

(** The two actions read through a [BinaryReader]; [body] is what lies
    between the action byte and the signature. *)
Definition DeserializeAssignmentBody (period period_start_utc action : Z) (body : bytes)
    (signature : IdentityHybridSignature) (size : Z) : option StorageSettlement :=
  default None (catch_none (
    try! r := r_new body (256 * 1024) ;;
    return_if size <? 17 + 36 + POA_SIGNATURE_SIZE with Ret None ;;
    if action =? action_value PREPARE then
      return_if size <? 17 + 44 + POA_SIGNATURE_SIZE with Ret None ;;
      try! (id, r) := r_Arr 32 r ;;
      try! (epoch, r) := r_U64 r ;;
      try! (count, r) := r_U32 r ;;
      return_if (count =? 0) || (20 <? count) || ((size - POA_SIGNATURE_SIZE - 17 - 44) / 6380 <? count) with Ret None ;;
      try! o := read_eligible (Z.to_nat count) r ;;
      let? (eligible, r) := o else Ret None ;;
      try! _ := r_Finish r ;;
      let s := mkSettlement period period_start_utc [] signature PREPARE id ZERO epoch eligible [] 0 ZERO [] in
      let? _ := SerializeSettlementBody s else Ret None ;;
      Ret (Some s)
    else if action =? action_value ACTIVATE then
      try! (id, r) := r_Arr 32 r ;;
      try! (count, r) := r_U32 r ;;
      return_if (count =? 0) || (3988 <? count) || ((size - POA_SIGNATURE_SIZE - 17 - 36) / 32 <? count) with Ret None ;;
      try! (manifest, r) := read_manifest (Z.to_nat count) r ;;
      try! _ := r_Finish r ;;
      let s := mkSettlement period period_start_utc [] signature ACTIVATE ZERO id 0 [] manifest 0 ZERO [] in
      let? _ := SerializeSettlementBody s else Ret None ;;
      Ret (Some s)
    else Ret None)).

Definition DeserializeStorageSettlement (l : bytes) : option StorageSettlement :=
  return_if (zlen l <? 17 + POA_SIGNATURE_SIZE) || (MAX_OPERATION_PAYLOAD_BYTES - 1 <? zlen l) with None ;;
  let period := le_val (subspan l 0 8) in
  let period_start_utc := le_val (subspan l 8 8) in
  let action := le_val (subspan l 16 1) in
  if negb (action =? action_value PAY) then
    let body := subspan l 17 (zlen l - 17 - POA_SIGNATURE_SIZE) in
    let signature := mkSignature (arr_of 64 (subspan l (zlen l - POA_SIGNATURE_SIZE) 64))
      (subspan l (zlen l - POA_SIGNATURE_SIZE + 64) 3309) in
    DeserializeAssignmentBody period period_start_utc action body signature (zlen l)
  else
    return_if zlen l <? SETTLEMENT_HEADER_SIZE + 4 + POA_SIGNATURE_SIZE with None ;;
    let period_end_utc := le_val (subspan l 17 8) in
    let evidence_root := arr_of 32 (subspan l 25 32) in
    let count := le_val (subspan l 57 4) in
    return_if (MAX_STORAGE_SETTLEMENT_ENTRIES <? count)
      || ((zlen l - SETTLEMENT_HEADER_SIZE - 4 - POA_SIGNATURE_SIZE) / STORAGE_SETTLEMENT_ENTRY_SIZE <? count) with None ;;
    let? entries := read_entries (Z.to_nat count) l SETTLEMENT_HEADER_SIZE else None ;;
    let offset := SETTLEMENT_HEADER_SIZE + count * STORAGE_SETTLEMENT_ENTRY_SIZE in
    let witnesses := le_val (subspan l offset 4) in
    let offset := offset + 4 in
    return_if ((zlen l - offset - POA_SIGNATURE_SIZE) / 32 <? witnesses)
      || negb (zlen l =? offset + witnesses * 32 + POA_SIGNATURE_SIZE) with None ;;
    let activation_witnesses := read_witnesses (Z.to_nat witnesses) l offset in
    let offset := offset + witnesses * 32 in
    let s := mkSettlement period period_start_utc entries
      (mkSignature (arr_of 64 (subspan l offset 64)) (subspan l (offset + 64) (zlen l - (offset + 64))))
      PAY ZERO ZERO 0 [] [] period_end_utc evidence_root activation_witnesses in
    let? _ := SerializeSettlementBody s else None ;;
    Some s.

Definition ComputeStorageSettlementDigest `{CryptoOps} (network_binding : Hash256) (s : StorageSettlement)
    : option (arr 32) :=
  let? body := SerializeSettlementBody s else None ;;
  return_if IsNull network_binding with None ;;
  ComputeSha256 [str "CYBOU/STORAGE-SETTLEMENT"; arr_val network_binding; body].
