(* ===== verification/Operation.v ===== *)
(** * Protocol operations

    [src/src/cybou/protocol_operation.cpp]: the ten kinds of operation a block
    can carry, their canonical encoding, their identifier and the proofs a
    relay checks before it passes one on. *)

From S2P Require Import Prelude.
From S2P Require Import Bytes.
From S2P Require Import Codec.
From S2P Require Import Params.
From S2P Require Import Crypto.
From S2P Require Import Identity.
From S2P Require Import Names.
From S2P Require Import Payloads.
From S2P Require Import SettlementData.

(** ** Data *)

Definition IDENTITY_OPERATION_AUTH_SIZE : Z := 2565.
Definition AUTHORIZED_PAYMENT_SIZE : Z := IDENTITY_OPERATION_AUTH_SIZE + PAYMENT_PAYLOAD_SIZE.
Definition AUTHORIZED_SYSTEM_LOCK_SIZE : Z := IDENTITY_OPERATION_AUTH_SIZE + SYSTEM_LOCK_PAYLOAD_SIZE.
Definition AUTHORIZED_NAME_COMMIT_SIZE : Z := 2565 + NAME_COMMIT_PAYLOAD_SIZE.
Definition AUTHORIZED_NAME_REVEAL_SIZE : Z := 2565 + NAME_REVEAL_PAYLOAD_SIZE.
Definition AUTHORIZED_REVOKE_PUBLICATION_SIZE : Z := IDENTITY_OPERATION_AUTH_SIZE + REVOKE_PUBLICATION_PAYLOAD_SIZE.
Definition AUTHORIZED_STORAGE_LEASE_SIZE : Z := IDENTITY_OPERATION_AUTH_SIZE + STORAGE_LEASE_PAYLOAD_SIZE.
Definition IDENTITY_ROTATE_SIZE : Z :=
  32 + 32 + 1952 + 32 + 1312 + IDENTITY_KEM_PACKAGE_SIZE + 8 + 8 + 2 * (64 + 3309) + 64 + 2420.

(** [ProtocolOperationKind]: the first byte of an encoded operation. *)
Inductive ProtocolOperationKind : Type :=
| ACCOUNT_CREATE | PAYMENT | IDENTITY_ROTATE | SYSTEM_LOCK | NAME_COMMIT | NAME_REVEAL
| ROOT_PUBLICATION | REVOKE_PUBLICATION | STORAGE_LEASE | STORAGE_SETTLEMENT.
Definition operation_kind_value (k : ProtocolOperationKind) : Z :=
  match k with
  | ACCOUNT_CREATE => 1 | PAYMENT => 2 | IDENTITY_ROTATE => 3 | SYSTEM_LOCK => 4 | NAME_COMMIT => 5
  | NAME_REVEAL => 6 | ROOT_PUBLICATION => 7 | REVOKE_PUBLICATION => 8 | STORAGE_LEASE => 9
  | STORAGE_SETTLEMENT => 10
  end.
Definition operation_kind_of (tag : Z) : option ProtocolOperationKind :=
  if tag =? 1 then Some ACCOUNT_CREATE else if tag =? 2 then Some PAYMENT
  else if tag =? 3 then Some IDENTITY_ROTATE else if tag =? 4 then Some SYSTEM_LOCK
  else if tag =? 5 then Some NAME_COMMIT else if tag =? 6 then Some NAME_REVEAL
  else if tag =? 7 then Some ROOT_PUBLICATION else if tag =? 8 then Some REVOKE_PUBLICATION
  else if tag =? 9 then Some STORAGE_LEASE else if tag =? 10 then Some STORAGE_SETTLEMENT else None.

(** The [std::variant] [ProtocolOperation]. *)
Inductive ProtocolOperation : Type :=
| OpAccountCreate (op : AccountCreateOp)
| OpPayment (op : AuthorizedPayment)
| OpIdentityRotate (op : IdentityRotate)
| OpSystemLock (op : AuthorizedSystemLock)
| OpNameCommit (op : AuthorizedNameCommit)
| OpNameReveal (op : AuthorizedNameReveal)
| OpRootPublication (op : AuthorizedRootPublication)
| OpRevokePublication (op : AuthorizedRevokePublication)
| OpStorageLease (op : AuthorizedStorageLease)
| OpStorageSettlement (op : StorageSettlement).

Section operations.
Context `{CryptoOps}.

(** ** Authorizations *)

Definition SerializeIdentityOperationAuthorization (auth : IdentityOperationAuthorization)
    (expected_kind : IdentityOperationKind) : option bytes :=
  return_if negb (bool_decide (oa_kind auth = expected_kind)) || IsNull (oa_account_id auth)
    || negb (zlen (sig_ml_dsa (oa_signature auth)) =? 2420) || all_zero (arr_val (oa_payload_commitment auth))
    || all_zero (arr_val (sig_ed25519 (oa_signature auth))) || all_zero (sig_ml_dsa (oa_signature auth)) with None ;;
  Some (arr_val (oa_account_id auth) ++ le_bytes 8 (oa_nonce auth) ++ le_bytes 8 (oa_key_epoch auth)
        ++ le_bytes 1 (kind_value (oa_kind auth)) ++ arr_val (oa_payload_commitment auth)
        ++ arr_val (sig_ed25519 (oa_signature auth)) ++ sig_ml_dsa (oa_signature auth)).

Definition DeserializeIdentityOperationAuthorization (l : bytes) (expected_kind : IdentityOperationKind)
    : option IdentityOperationAuthorization :=
  return_if negb (zlen l =? IDENTITY_OPERATION_AUTH_SIZE) with None ;;
  let? account := AccountId_FromBytes (subspan l 0 32) else None ;;
  let nonce := le_val (subspan l 32 8) in
  let key_epoch := le_val (subspan l 40 8) in
  return_if negb (bool_decide (subspan l 48 1 = le_bytes 1 (kind_value expected_kind))) with None ;;
  let commitment := arr_of 32 (subspan l 49 32) in
  let signature := mkSignature (arr_of 64 (subspan l 81 64)) (subspan l 145 (zlen l - 145)) in
  return_if all_zero (arr_val commitment) || all_zero (arr_val (sig_ed25519 signature))
    || all_zero (sig_ml_dsa signature) with None ;;
  Some (mkOpAuth account nonce key_epoch expected_kind commitment signature).

Definition TaggedOperationBytes (kind : ProtocolOperationKind) (body : bytes) : bytes :=
  le_bytes 1 (operation_kind_value kind) ++ body.

(** ** Authorized payloads

    The commitments of the name payloads throw when the hash fails, so every
    payload goes through [outcome]. *)

Definition SerializeAuthorizedPayload {P} (auth : IdentityOperationAuthorization) (kind : IdentityOperationKind)
    (payload : P) (commitment_fn : P -> outcome (option IdentityKeyId)) (serialize_fn : P -> option bytes)
    : outcome (option bytes) :=
  let payload_bytes := serialize_fn payload in
  try! commitment := commitment_fn payload ;;
  let? l := payload_bytes else Ret None ;;
  let? c := commitment else Ret None ;;
  return_if negb (bool_decide (c = oa_payload_commitment auth)) with Ret None ;;
  let? out := SerializeIdentityOperationAuthorization auth kind else Ret None ;;
  Ret (Some (out ++ l)).

(** What the [Deserialize] functions of the authorized payloads share: the
    authorization prefix, the payload and its commitment. *)
Definition DeserializeAuthorizedPayload {P Op} (l : bytes) (kind : IdentityOperationKind)
    (deserialize_fn : bytes -> option P) (commitment_fn : P -> outcome (option IdentityKeyId))
    (build : IdentityOperationAuthorization -> P -> Op) : outcome (option Op) :=
  let auth := DeserializeIdentityOperationAuthorization (subspan l 0 IDENTITY_OPERATION_AUTH_SIZE) kind in
  let payload := deserialize_fn (subspan l IDENTITY_OPERATION_AUTH_SIZE (zlen l - IDENTITY_OPERATION_AUTH_SIZE)) in
  let? a := auth else Ret None ;;
  let? p := payload else Ret None ;;
  try! commitment := commitment_fn p ;;
  return_if negb (bool_decide (commitment = Some (oa_payload_commitment a))) with Ret None ;;
  Ret (Some (build a p)).

Definition payment_commitment p := Ret (ComputePaymentPayloadCommitment p).
Definition system_lock_commitment p := Ret (ComputeSystemLockPayloadCommitment p).
Definition root_publication_commitment p := Ret (ComputeRootPublicationPayloadCommitment p).
Definition revoke_commitment p := Ret (ComputeRevokePublicationPayloadCommitment p).
Definition lease_commitment p := Ret (ComputeStorageLeasePayloadCommitment p).

Definition SerializePayment (op : AuthorizedPayment) : outcome (option bytes) :=
  SerializeAuthorizedPayload (pay_authorization op) KIND_PAYMENT (payment op) payment_commitment SerializePaymentPayload.
Definition DeserializePayment (l : bytes) : outcome (option AuthorizedPayment) :=
  return_if negb (zlen l =? AUTHORIZED_PAYMENT_SIZE) with Ret None ;;
  DeserializeAuthorizedPayload l KIND_PAYMENT DeserializePaymentPayload payment_commitment mkAuthorizedPayment.
Definition SerializeSystemLock (op : AuthorizedSystemLock) : outcome (option bytes) :=
  SerializeAuthorizedPayload (lock_authorization op) KIND_SYSTEM_LOCK (lock op) system_lock_commitment
    SerializeSystemLockPayload.
Definition DeserializeSystemLock (l : bytes) : outcome (option AuthorizedSystemLock) :=
  return_if negb (zlen l =? AUTHORIZED_SYSTEM_LOCK_SIZE) with Ret None ;;
  DeserializeAuthorizedPayload l KIND_SYSTEM_LOCK DeserializeSystemLockPayload system_lock_commitment
    mkAuthorizedSystemLock.
Definition SerializeNameCommit (op : AuthorizedNameCommit) : outcome (option bytes) :=
  SerializeAuthorizedPayload (nc_authorization op) KIND_NAME_COMMIT (nc_commit op) ComputeNameCommitPayloadCommitment
    SerializeNameCommitPayload.
Definition DeserializeNameCommit (l : bytes) : outcome (option AuthorizedNameCommit) :=
  return_if negb (zlen l =? AUTHORIZED_NAME_COMMIT_SIZE) with Ret None ;;
  DeserializeAuthorizedPayload l KIND_NAME_COMMIT DeserializeNameCommitPayload ComputeNameCommitPayloadCommitment
    mkAuthorizedNameCommit.
Definition SerializeNameReveal (op : AuthorizedNameReveal) : outcome (option bytes) :=
  SerializeAuthorizedPayload (nv_authorization op) KIND_NAME_REVEAL (nv_reveal op) ComputeNameRevealPayloadCommitment
    SerializeNameRevealPayload.
Definition DeserializeNameReveal (l : bytes) : outcome (option AuthorizedNameReveal) :=
  return_if negb (zlen l =? AUTHORIZED_NAME_REVEAL_SIZE) with Ret None ;;
  DeserializeAuthorizedPayload l KIND_NAME_REVEAL DeserializeNameRevealPayload ComputeNameRevealPayloadCommitment
    mkAuthorizedNameReveal.
Definition SerializeRootPublicationOperation (op : AuthorizedRootPublication) : outcome (option bytes) :=
  SerializeAuthorizedPayload (rp_authorization op) KIND_ROOT_PUBLICATION (publication op) root_publication_commitment
    SerializeRootPublication.
Definition DeserializeRootPublicationOperation (l : bytes) : outcome (option AuthorizedRootPublication) :=
  return_if (zlen l <? IDENTITY_OPERATION_AUTH_SIZE) || (ROOT_PUBLICATION_MAX_OPERATION_BYTES <? zlen l) with Ret None ;;
  DeserializeAuthorizedPayload l KIND_ROOT_PUBLICATION DeserializeRootPublication root_publication_commitment
    mkAuthorizedRootPublication.
Definition SerializeRevokePublicationOperation (op : AuthorizedRevokePublication) : outcome (option bytes) :=
  SerializeAuthorizedPayload (rev_authorization op) KIND_REVOKE_PUBLICATION (revoke op) revoke_commitment
    SerializeRevokePublicationPayload.
Definition DeserializeRevokePublicationOperation (l : bytes) : outcome (option AuthorizedRevokePublication) :=
  return_if negb (zlen l =? AUTHORIZED_REVOKE_PUBLICATION_SIZE) with Ret None ;;
  DeserializeAuthorizedPayload l KIND_REVOKE_PUBLICATION DeserializeRevokePublicationPayload revoke_commitment
    mkAuthorizedRevokePublication.
Definition SerializeStorageLeaseOperation (op : AuthorizedStorageLease) : outcome (option bytes) :=
  SerializeAuthorizedPayload (lease_authorization op) KIND_STORAGE_LEASE (lease op) lease_commitment
    SerializeStorageLeasePayload.
Definition DeserializeStorageLeaseOperation (l : bytes) : outcome (option AuthorizedStorageLease) :=
  return_if negb (zlen l =? AUTHORIZED_STORAGE_LEASE_SIZE) with Ret None ;;
  DeserializeAuthorizedPayload l KIND_STORAGE_LEASE DeserializeStorageLeasePayload lease_commitment
    mkAuthorizedStorageLease.

(** ** Identity rotation *)

Definition WritePublic (key : IdentityHybridPublicKey) : bytes := arr_val (pk_ed25519 key) ++ pk_ml_dsa key.
Definition WriteSignature (signature : IdentityHybridSignature) : bytes :=
  arr_val (sig_ed25519 signature) ++ sig_ml_dsa signature.

(** The sizes checked first add up to [IDENTITY_ROTATE_SIZE], so the last
    check of the source never fails. *)
Definition SerializeIdentityRotate (op : IdentityRotate) : option bytes :=
  return_if IsNull (rot_account_id op) || negb (bool_decide (purpose (new_recovery_key op) = RECOVERY_ROOT))
    || negb (bool_decide (purpose (new_authorization_key op) = AUTHORIZATION))
    || negb (zlen (pk_ml_dsa (new_recovery_key op)) =? 1952)
    || negb (zlen (pk_ml_dsa (new_authorization_key op)) =? 1312)
    || negb (zlen (sig_ml_dsa (old_recovery_signature op)) =? 3309)
    || negb (zlen (sig_ml_dsa (new_recovery_pop op)) =? 3309)
    || negb (zlen (sig_ml_dsa (new_authorization_pop op)) =? 2420) with None ;;
  let? _ := DecodeIdentityKemPackage (arr_val (new_kem_package op)) else None ;;
  return_if all_zero (arr_val (pk_ed25519 (new_recovery_key op))) || all_zero (pk_ml_dsa (new_recovery_key op))
    || all_zero (arr_val (pk_ed25519 (new_authorization_key op))) || all_zero (pk_ml_dsa (new_authorization_key op))
    || all_zero (arr_val (sig_ed25519 (old_recovery_signature op))) || all_zero (sig_ml_dsa (old_recovery_signature op))
    || all_zero (arr_val (sig_ed25519 (new_recovery_pop op))) || all_zero (sig_ml_dsa (new_recovery_pop op))
    || all_zero (arr_val (sig_ed25519 (new_authorization_pop op))) || all_zero (sig_ml_dsa (new_authorization_pop op))
    with None ;;
  Some (arr_val (rot_account_id op) ++ WritePublic (new_recovery_key op) ++ WritePublic (new_authorization_key op)
        ++ arr_val (new_kem_package op) ++ le_bytes 8 (rot_nonce op) ++ le_bytes 8 (rot_key_epoch op)
        ++ WriteSignature (old_recovery_signature op) ++ WriteSignature (new_recovery_pop op)
        ++ WriteSignature (new_authorization_pop op)).

Definition read_signature (l : bytes) (offset pq_size : Z) : IdentityHybridSignature :=
  mkSignature (arr_of 64 (subspan l offset 64)) (subspan l (offset + 64) pq_size).

(** [offset] runs through [32], [64], [2016], [2048], [3360], [4578], [4586],
    [4594], [7967], [11340] and ends at [13824], the size of the encoding. *)
Definition DeserializeIdentityRotate (l : bytes) : option IdentityRotate :=
  return_if negb (zlen l =? IDENTITY_ROTATE_SIZE) with None ;;
  let? account := AccountId_FromBytes (subspan l 0 32) else None ;;
  let package := arr_of 1218 (subspan l 3360 1218) in
  let? _ := DecodeIdentityKemPackage (arr_val package) else None ;;
  let op := mkIdentityRotate account
    (mkPublicKey RECOVERY_ROOT (arr_of 32 (subspan l 32 32)) (subspan l 64 1952))
    (mkPublicKey AUTHORIZATION (arr_of 32 (subspan l 2016 32)) (subspan l 2048 1312))
    package (le_val (subspan l 4578 8)) (le_val (subspan l 4586 8))
    (read_signature l 4594 3309) (read_signature l 7967 3309) (read_signature l 11340 2420) in
  let? _ := SerializeIdentityRotate op else None ;;
  Some op.

(** ** The operation codec *)

Definition tagged (kind : ProtocolOperationKind) (body : outcome (option bytes)) : outcome (option bytes) :=
  try! o := body ;;
  let? l := o else Ret None ;;
  Ret (Some (TaggedOperationBytes kind l)).
Definition SerializeProtocolOperation (operation : ProtocolOperation) : outcome (option bytes) :=
  match operation with
  | OpAccountCreate op => tagged ACCOUNT_CREATE (Ret (SerializeAccountCreateOp op))
  | OpPayment op => tagged PAYMENT (SerializePayment op)
  | OpIdentityRotate op => tagged IDENTITY_ROTATE (Ret (SerializeIdentityRotate op))
  | OpSystemLock op => tagged SYSTEM_LOCK (SerializeSystemLock op)
  | OpNameCommit op => tagged NAME_COMMIT (SerializeNameCommit op)
  | OpNameReveal op => tagged NAME_REVEAL (SerializeNameReveal op)
  | OpRootPublication op =>
      try! o := SerializeRootPublicationOperation op ;;
      let? body := o else Ret None ;;
      return_if ROOT_PUBLICATION_MAX_OPERATION_BYTES <? zlen body + 1 with Ret None ;;
      Ret (Some (TaggedOperationBytes ROOT_PUBLICATION body))
  | OpRevokePublication op => tagged REVOKE_PUBLICATION (SerializeRevokePublicationOperation op)
  | OpStorageLease op => tagged STORAGE_LEASE (SerializeStorageLeaseOperation op)
  | OpStorageSettlement op => tagged STORAGE_SETTLEMENT (Ret (SerializeStorageSettlement op))
  end.

Definition wrap_op {A} (build : A -> ProtocolOperation) (m : outcome (option A)) : outcome (option ProtocolOperation) :=
  try! o := m ;; Ret (option_map build o).
Definition DeserializeProtocolOperation (l : bytes) : outcome (option ProtocolOperation) :=
  return_if zlen l =? 0 with Ret None ;;
  let body := subspan l 1 (zlen l - 1) in
  let? kind := operation_kind_of (le_val (subspan l 0 1)) else Ret None ;;
  match kind with
  | ACCOUNT_CREATE =>
      return_if negb (zlen l =? 1 + ACCOUNT_CREATE_SIZE) with Ret None ;;
      wrap_op OpAccountCreate (Ret (DeserializeAccountCreateOp body))
  | PAYMENT =>
      return_if negb (zlen l =? 1 + AUTHORIZED_PAYMENT_SIZE) with Ret None ;;
      wrap_op OpPayment (DeserializePayment body)
  | IDENTITY_ROTATE =>
      return_if negb (zlen l =? 1 + IDENTITY_ROTATE_SIZE) with Ret None ;;
      wrap_op OpIdentityRotate (Ret (DeserializeIdentityRotate body))
  | SYSTEM_LOCK =>
      return_if negb (zlen l =? 1 + AUTHORIZED_SYSTEM_LOCK_SIZE) with Ret None ;;
      wrap_op OpSystemLock (DeserializeSystemLock body)
  | NAME_COMMIT =>
      return_if zlen l <? 1 + AUTHORIZED_NAME_COMMIT_SIZE with Ret None ;;
      wrap_op OpNameCommit (DeserializeNameCommit body)
  | NAME_REVEAL =>
      return_if zlen l <? 1 + AUTHORIZED_NAME_REVEAL_SIZE with Ret None ;;
      wrap_op OpNameReveal (DeserializeNameReveal body)
  | ROOT_PUBLICATION =>
      return_if ROOT_PUBLICATION_MAX_OPERATION_BYTES <? zlen l with Ret None ;;
      wrap_op OpRootPublication (DeserializeRootPublicationOperation body)
  | REVOKE_PUBLICATION =>
      return_if negb (zlen l =? 1 + AUTHORIZED_REVOKE_PUBLICATION_SIZE) with Ret None ;;
      wrap_op OpRevokePublication (DeserializeRevokePublicationOperation body)
  | STORAGE_LEASE =>
      return_if negb (zlen l =? 1 + AUTHORIZED_STORAGE_LEASE_SIZE) with Ret None ;;
      wrap_op OpStorageLease (DeserializeStorageLeaseOperation body)
  | STORAGE_SETTLEMENT =>
      return_if MAX_OPERATION_PAYLOAD_BYTES <? zlen l with Ret None ;;
      wrap_op OpStorageSettlement (Ret (DeserializeStorageSettlement body))
  end.

(** ** Identifiers and relay proofs *)

Definition AuthorizingAccount (operation : ProtocolOperation) : option AccountId :=
  match operation with
  | OpAccountCreate _ | OpStorageSettlement _ => None
  | OpIdentityRotate op => Some (rot_account_id op)
  | OpPayment op => Some (oa_account_id (pay_authorization op))
  | OpSystemLock op => Some (oa_account_id (lock_authorization op))
  | OpNameCommit op => Some (oa_account_id (nc_authorization op))
  | OpNameReveal op => Some (oa_account_id (nv_authorization op))
  | OpRootPublication op => Some (oa_account_id (rp_authorization op))
  | OpRevokePublication op => Some (oa_account_id (rev_authorization op))
  | OpStorageLease op => Some (oa_account_id (lease_authorization op))
  end.

Definition ComputeOperationIdBytes (serialized_operation : bytes) : option Hash256 :=
  return_if zlen serialized_operation =? 0 with None ;;
  ComputeSha256 [str "CYBOU/OP-ID"; serialized_operation].
Definition ComputeOperationId (operation : ProtocolOperation) : outcome (option Hash256) :=
  try! o := SerializeProtocolOperation operation ;;
  let? l := o else Ret None ;;
  Ret (ComputeOperationIdBytes l).

(** The last branch of the visitor, shared by the authorized payloads. *)
Definition verify_authorized_payload (network_binding : Hash256) (identities : IdentityRegistry)
    (auth : IdentityOperationAuthorization) (expected_kind : IdentityOperationKind)
    (payload_commitment : outcome (option IdentityKeyId)) : outcome bool :=
  let? record := Find identities (oa_account_id auth) else Ret false ;;
  try! payload_commitment := payload_commitment ;;
  let digest := ComputeIdentityOperationDigest network_binding auth in
  let? c := payload_commitment else Ret false ;;
  return_if negb (bool_decide (oa_kind auth = expected_kind)) with Ret false ;;
  return_if negb (bool_decide (oa_payload_commitment auth = c)) with Ret false ;;
  let? d := digest else Ret false ;;
  Ret (VerifyIdentityMessage (ir_authorization_key record) (oa_signature auth) (arr_val d)).

Definition verify_account_create (network_binding : Hash256) (op : AccountCreateOp) : bool :=
  return_if negb (bool_decide (work_network_binding (ac_work op) = network_binding))
    || negb (bool_decide (work_account_id (ac_work op) = ac_account_id op)) with false ;;
  let? _ := ComputeAuthorizationKeyId (authorization_key (ac_authorization op)) else false ;;
  let? package_id := ComputeIdentityKemPackageCommitment network_binding (ac_account_id op) 0
    (arr_val (ac_kem_package op)) else false ;;
  let commitment := ComputeAccountCreateAuthorizationCommitment (ac_authorization op) package_id in
  let digest := ComputeAccountCreatePopDigest network_binding (ac_account_id op) (ac_authorization op) package_id in
  let? c := commitment else false ;;
  return_if negb (bool_decide (authorization_commitment (ac_work op) = c)) with false ;;
  let? d := digest else false ;;
  VerifyIdentityMessage (recovery_root (ac_authorization op)) (ac_recovery_pop op) (arr_val d)
  && VerifyIdentityMessage (authorization_key (ac_authorization op)) (ac_authorization_pop op) (arr_val d).

Definition verify_identity_rotate (network_binding : Hash256) (identities : IdentityRegistry) (op : IdentityRotate) : bool :=
  let? record := Find identities (rot_account_id op) else false ;;
  let digest := ComputeIdentityRotateDigest network_binding op in
  let package_id := ComputeIdentityKemPackageCommitment network_binding (rot_account_id op) (rot_key_epoch op)
    (arr_val (new_kem_package op)) in
  let? d := digest else false ;;
  let? _ := package_id else false ;;
  let? _ := ComputeRecoveryKeyId (new_recovery_key op) else false ;;
  let? _ := ComputeAuthorizationKeyId (new_authorization_key op) else false ;;
  VerifyIdentityMessage (ir_recovery_key record) (old_recovery_signature op) (arr_val d)
  && VerifyIdentityMessage (new_recovery_key op) (new_recovery_pop op) (arr_val d)
  && VerifyIdentityMessage (new_authorization_key op) (new_authorization_pop op) (arr_val d).

Definition VerifyProtocolOperationRelayProofs (operation : ProtocolOperation) (network_binding : Hash256)
    (identities : IdentityRegistry) : outcome bool :=
  return_if IsNull network_binding with Ret false ;;
  let authorized := verify_authorized_payload network_binding identities in
  match operation with
  | OpAccountCreate op => Ret (verify_account_create network_binding op)
  | OpIdentityRotate op => Ret (verify_identity_rotate network_binding identities op)
  | OpStorageSettlement _ => Ret false
  | OpPayment op => authorized (pay_authorization op) KIND_PAYMENT (payment_commitment (payment op))
  | OpSystemLock op => authorized (lock_authorization op) KIND_SYSTEM_LOCK (system_lock_commitment (lock op))
  | OpNameCommit op =>
      authorized (nc_authorization op) KIND_NAME_COMMIT (ComputeNameCommitPayloadCommitment (nc_commit op))
  | OpNameReveal op =>
      authorized (nv_authorization op) KIND_NAME_REVEAL (ComputeNameRevealPayloadCommitment (nv_reveal op))
  | OpRootPublication op =>
      authorized (rp_authorization op) KIND_ROOT_PUBLICATION (root_publication_commitment (publication op))
  | OpRevokePublication op =>
      authorized (rev_authorization op) KIND_REVOKE_PUBLICATION (revoke_commitment (revoke op))
  | OpStorageLease op =>
      authorized (lease_authorization op) KIND_STORAGE_LEASE (lease_commitment (lease op))
  end.
End operations.
