(* ===== verification/SettlementCodec.v ===== *)
(** * The encoding of settlements

    Round trip and canonicity of [SerializeStorageSettlement] and
    [DeserializeStorageSettlement] of [src/src/cybou/storage_lease.cpp], for
    the three actions. [settlement_layout] is the byte layout of a body; the
    writer produces it, the reader takes it apart. *)

From S2P Require Import Prelude.
From S2P Require Import Bytes.
From S2P Require Import Codec.
From S2P Require Import Params.
From S2P Require Import Crypto.
From S2P Require Import Payloads.
From S2P Require Import StorageAudit.
From S2P Require Import SettlementData.

Lemma IsNull_inv {n} (a : arr n) : IsNull a = true -> a = ZERO.
Proof.
  intros Ha. apply arr_eq. unfold IsNull, all_zero in Ha. rewrite forallb_forall in Ha.
  change (arr_val ZERO) with (resize (N.to_nat n) Byte.x00 []). rewrite resize_nil.
  pose proof (zlen_arr a) as Hl. unfold zlen in Hl. assert (Hn : length (arr_val a) = N.to_nat n) by lia. rewrite <- Hn.
  clear Hl Hn. revert Ha. generalize (arr_val a) as l. induction l as [|b l IH]; intros Ha; [done|]. simpl. f_equal.
  - pose proof (Ha b (or_introl eq_refl)) as Hb. apply Z.eqb_eq in Hb. apply zb_inj. by rewrite Hb.
  - apply IH. intros x Hx. apply Ha. by right.
Qed.

(** ** Layout *)

Definition eligible_bytes (e : StorageSettlementBinding) : bytes :=
  arr_val (sb_storage_id e) ++ le_bytes 4 6344 ++ EncodeStoragePayoutBinding (sb_binding e).
Definition settlement_layout (s : StorageSettlement) : bytes :=
  le_bytes 8 (ss_period s) ++ le_bytes 8 (ss_period_start_utc s) ++ le_bytes 1 (action_value (ss_action s)) ++
  match ss_action s with
  | PREPARE => arr_val (ss_funded_term_id s) ++ le_bytes 8 (ss_assignment_epoch s) ++ le_bytes 4 (zlen (ss_eligible s))
               ++ mjoin (eligible_bytes <$> ss_eligible s)
  | ACTIVATE => arr_val (ss_preparation_id s) ++ le_bytes 4 (zlen (ss_manifest s)) ++ mjoin (arr_val <$> ss_manifest s)
  | PAY => le_bytes 8 (ss_period_end_utc s) ++ arr_val (ss_evidence_root s) ++ le_bytes 4 (zlen (ss_entries s))
           ++ mjoin (entry_bytes <$> ss_entries s) ++ le_bytes 4 (zlen (ss_activation_witnesses s))
           ++ mjoin (arr_val <$> ss_activation_witnesses s)
  end.

(** ** Writing *)

(** A writer that has written [b] within its limit. *)
Definition wrote (limit : Z) (b : bytes) (w : BinaryWriter) : Prop := fits w /\ w_limit w = limit /\ w_bytes w = b.
Lemma wrote_Fixed m b w l w' : wrote m b w -> w_Fixed w l = Ret w' -> wrote m (b ++ l) w'.
Proof. intros (Hf & Hm & Hb) E. apply w_Fixed_inv in E as [-> Hf']; [|done]. split; [done|]. simpl. by rewrite Hb. Qed.
Lemma wrote_int m b n w v w' : wrote m b w -> w_int n w v = Ret w' -> wrote m (b ++ le_bytes n v) w'.
Proof. rewrite w_int_Fixed. apply wrote_Fixed. Qed.
Lemma wrote_U8 m b w v w' : wrote m b w -> w_U8 w v = Ret w' -> wrote m (b ++ le_bytes 1 v) w'.
Proof. intros Hw. rewrite w_U8_Fixed by apply Hw. by apply wrote_Fixed. Qed.
Lemma wrote_Bytes m b w l n w' : wrote m b w -> w_Bytes w l n = Ret w' -> wrote m (b ++ le_bytes 4 (zlen l) ++ l) w'.
Proof.
  intros Hw E. unfold w_Bytes in E. walk_step E. walk_step E. rewrite app_assoc.
  eapply wrote_Fixed; [|exact E]. by eapply wrote_int.
Qed.

Lemma write_eligible_inv m l : forall w prior w' b, wrote m b w -> write_eligible w prior l = Ret (Some w') ->
  wrote m (b ++ mjoin (eligible_bytes <$> l)) w' /\
  Forall (fun e => zlen (EncodeStoragePayoutBinding (sb_binding e)) = 6344 /\
                   is_Some (DecodeStoragePayoutBinding (EncodeStoragePayoutBinding (sb_binding e)))) l.
Proof.
  induction l as [|e l IH]; intros w prior w' b Hw E; cbn [write_eligible] in E.
  { injection E as <-. split; [by rewrite app_nil_r|constructor]. }
  walk_step E. walk_step E. walk_step E. walk_step E. walk_step E. guards.
  pose proof (wrote_Bytes _ _ _ _ _ _ (wrote_Fixed _ _ _ _ _ Hw Hret) Hret0) as Hw2.
  destruct (IH _ _ _ _ Hw2 E) as [B3 A3]. split.
  - rewrite fmap_cons, mjoin_cons. unfold eligible_bytes at 1. rewrite Hif0 in B3. by repeat rewrite <- app_assoc in *.
  - constructor; [|done]. split; [done|]. by eexists.
Qed.
Lemma write_manifest_inv m l : forall w seen w' b, wrote m b w -> write_manifest w seen l = Ret (Some w') ->
  wrote m (b ++ mjoin (arr_val <$> l)) w'.
Proof.
  induction l as [|c l IH]; intros w seen w' b Hw E; cbn [write_manifest] in E.
  { injection E as <-. by rewrite app_nil_r. }
  walk_step E. walk_step E. rewrite fmap_cons, mjoin_cons, app_assoc.
  eapply IH; [|exact E]. by eapply wrote_Fixed.
Qed.
Lemma write_entries_inv l : forall prior b, write_entries prior l = Some b ->
  b = mjoin (entry_bytes <$> l) /\ Forall (fun e => IsNull (se_payout_account e) = false) l.
Proof.
  induction l as [|e l IH]; intros prior b E; cbn [write_entries] in E; [by some_inj E|].
  walk_step E. walk_step E. some_inj E. apply IH in Hopt as [-> Ha]. guards. split; [done|by constructor].
Qed.
Lemma write_witnesses_inv l : forall prior b, write_witnesses prior l = Some b -> b = mjoin (arr_val <$> l).
Proof.
  induction l as [|e l IH]; intros prior b E; cbn [write_witnesses] in E; [by some_inj E|].
  walk_step E. walk_step E. some_inj E. by apply IH in Hopt as ->.
Qed.

(** What an accepted body is: its layout, and the fields its action does not
    use at their defaults. *)
Definition body_shape (s : StorageSettlement) : Prop :=
  match ss_action s with
  | PREPARE => ss_preparation_id s = ZERO /\ ss_manifest s = [] /\ 0 < zlen (ss_eligible s) <= 20 /\ ss_entries s = [] /\
      ss_period_end_utc s = 0 /\ ss_evidence_root s = ZERO /\ ss_activation_witnesses s = [] /\
      Forall (fun e => zlen (EncodeStoragePayoutBinding (sb_binding e)) = 6344 /\
                       is_Some (DecodeStoragePayoutBinding (EncodeStoragePayoutBinding (sb_binding e)))) (ss_eligible s)
  | ACTIVATE => ss_funded_term_id s = ZERO /\ ss_assignment_epoch s = 0 /\ ss_eligible s = [] /\
      0 < zlen (ss_manifest s) <= 3988 /\ ss_entries s = [] /\ ss_period_end_utc s = 0 /\ ss_evidence_root s = ZERO /\
      ss_activation_witnesses s = []
  | PAY => ss_funded_term_id s = ZERO /\ ss_preparation_id s = ZERO /\ ss_assignment_epoch s = 0 /\ ss_eligible s = [] /\
      ss_manifest s = [] /\ zlen (ss_entries s) <= MAX_STORAGE_SETTLEMENT_ENTRIES /\
      zlen (ss_activation_witnesses s) <= MAX_OPERATION_PAYLOAD_BYTES / 32 /\
      Forall (fun e => IsNull (se_payout_account e) = false) (ss_entries s)
  end.
Lemma zlen_entries_bytes l : zlen (mjoin (entry_bytes <$> l)) = 113 * zlen l.
Proof.
  induction l as [|e l IH]; [done|]. rewrite fmap_cons, mjoin_cons, zlen_app, IH, zlen_cons. unfold entry_bytes. len.
Qed.
Lemma zlen_arrs {n} (l : list (arr n)) : zlen (mjoin (arr_val <$> l)) = Z.of_N n * zlen l.
Proof. induction l as [|e l IH]; [unfold zlen; simpl; lia|]. rewrite fmap_cons, mjoin_cons, zlen_app, IH, zlen_cons, zlen_arr. lia. Qed.
Lemma zlen_eligible l : Forall (fun e => zlen (EncodeStoragePayoutBinding (sb_binding e)) = 6344) l ->
  zlen (mjoin (eligible_bytes <$> l)) = 6380 * zlen l.
Proof.
  induction 1 as [|e l He _ IH]; [done|]. rewrite fmap_cons, mjoin_cons, zlen_app, IH, zlen_cons. unfold eligible_bytes. len.
Qed.

Lemma SerializeSettlementBody_inv s b : SerializeSettlementBody s = Some b ->
  b = settlement_layout s /\ body_shape s /\ zlen b <= MAX_OPERATION_PAYLOAD_BYTES - 1 - POA_SIGNATURE_SIZE.
Proof.
  unfold SerializeSettlementBody. intros E. walk_step E. walk_step E.
  - walk_step E. match type of E with default None (catch_none ?m) = _ => destruct m as [o|] eqn:M; [|done] end.
    simpl in E. subst o. walk_step M. walk_step M. walk_step M.
    assert (F0 : wrote (MAX_OPERATION_PAYLOAD_BYTES - 1 - POA_SIGNATURE_SIZE) [] (w_new (MAX_OPERATION_PAYLOAD_BYTES - 1 - POA_SIGNATURE_SIZE))) by done.
    pose proof (wrote_U8 _ _ _ _ _ (wrote_int _ _ _ _ _ _ (wrote_int _ _ _ _ _ _ F0 Hret) Hret0) Hret1) as W3.
    cbn [app] in W3. repeat rewrite <- app_assoc in W3. unfold settlement_layout, body_shape.
    destruct (ss_action s); [| |discriminate M]; walk M; injection M as <-; guards; subst;
      repeat match goal with H : IsNull _ = true |- _ => apply IsNull_inv in H | H : zlen _ = 0 |- _ => apply zlen_0 in H end.
    + pose proof (wrote_int _ _ _ _ _ _ (wrote_int _ _ _ _ _ _ (wrote_Fixed _ _ _ _ _ W3 Hret2) Hret3) Hret4) as W6.
      destruct (write_eligible_inv _ _ _ _ _ _ W6 Hret5) as [(Fw & Lw & Bw) Ha]. pose proof (zlen_nonneg (ss_eligible s)).
      rewrite wrap32_small in Bw by ulia. split_and!; try done; [|lia|destruct Fw; lia].
      rewrite Bw. by repeat rewrite <- app_assoc.
    + pose proof (wrote_int _ _ _ _ _ _ (wrote_Fixed _ _ _ _ _ W3 Hret2) Hret3) as W5.
      destruct (write_manifest_inv _ _ _ _ _ _ W5 Hret4) as (Fw & Lw & Bw). pose proof (zlen_nonneg (ss_manifest s)).
      rewrite wrap32_small in Bw by ulia. split_and!; try done; [|lia|destruct Fw; lia].
      rewrite Bw. by repeat rewrite <- app_assoc.
  - walk E. some_inj E. guards. apply write_entries_inv in Hopt as [-> He]. apply write_witnesses_inv in Hopt0 as ->.
    repeat match goal with H : IsNull _ = true |- _ => apply IsNull_inv in H | H : zlen _ = 0 |- _ => apply zlen_0 in H end.
    match goal with H : ss_action s = PAY |- _ => unfold settlement_layout, body_shape; rewrite H end.
    split_and!; try done. autorewrite with zlen. rewrite zlen_entries_bytes, zlen_arrs.
    unfold SETTLEMENT_HEADER_SIZE, STORAGE_SETTLEMENT_ENTRY_SIZE in *. cbn [Z.of_N Z.of_nat Pos.of_succ_nat Pos.succ] in *. lia.
Qed.

(** ** Reading the parts *)

Definition entry_wf (e : StorageSettlementEntry) : Prop :=
  is_u8 (se_slot e) /\ is_u64 (se_verified_unit_seconds e) /\ is_u64 (se_amount e) /\ IsNull (se_payout_account e) = false.
Lemma subspan_u8 l off : 0 <= off -> off + 1 <= zlen l -> is_u8 (le_val (subspan l off 1)).
Proof.
  intros H1 H2. pose proof (le_val_range (subspan l off 1)) as Hr. rewrite zlen_subspan in Hr by lia.
  change (2 ^ (8 * 1)) with 256 in Hr. ulia.
Qed.

Lemma read_entries_ok es : forall pre post, Forall entry_wf es ->
  read_entries (length es) (pre ++ mjoin (entry_bytes <$> es) ++ post) (zlen pre) = Some es.
Proof.
  induction es as [|e es IH]; intros pre post Hwf; [done|]. apply Forall_cons in Hwf as [(W1 & W2 & W3 & W4) Hwf'].
  cbn [length read_entries]. rewrite fmap_cons, mjoin_cons, <- app_assoc. pose proof (zlen_nonneg pre).
  specialize (IH (pre ++ entry_bytes e) post Hwf'). unfold entry_bytes in *. repeat rewrite <- app_assoc in *.
  replace (zlen pre + STORAGE_SETTLEMENT_ENTRY_SIZE) with (zlen (pre ++ arr_val (se_funding_operation_id e) ++ le_bytes 1 (se_slot e)
    ++ arr_val (se_storage_id e) ++ arr_val (se_payout_account e) ++ le_bytes 8 (se_verified_unit_seconds e) ++ le_bytes 8 (se_amount e)))
    by (unfold STORAGE_SETTLEMENT_ENTRY_SIZE; len).
  cut. rewrite AccountId_FromBytes_arr, W4, IH, !arr_of_arr, !le_val_u64, le_val_u8 by done. by destruct e.
Qed.
Lemma read_entries_inv n l : forall off es, 0 <= off -> off + 113 * Z.of_nat n <= zlen l -> read_entries n l off = Some es ->
  subspan l off (113 * Z.of_nat n) = mjoin (entry_bytes <$> es) /\ length es = n /\ Forall entry_wf es.
Proof.
  induction n as [|n IH]; intros off es H0 Hl E; cbn [read_entries] in E.
  { some_inj E. split_and!; [|done|constructor]. done. }
  walk E. some_inj E. apply AccountId_FromBytes_inv in Hopt as [E1 N1].
  apply IH in Hopt0 as (E2 & L2 & W2); [|unfold STORAGE_SETTLEMENT_ENTRY_SIZE; lia..].
  unfold STORAGE_SETTLEMENT_ENTRY_SIZE in E2. split_and!.
  - rewrite fmap_cons, mjoin_cons, <- E2. unfold entry_bytes at 1.
    cbn [se_funding_operation_id se_slot se_storage_id se_payout_account se_verified_unit_seconds se_amount].
    rewrite <- E1, !(arr_of_subspan 32), !(le_bytes_subspan _ _ 8), !(le_bytes_subspan _ _ 1) by (cbn [Z.of_N Z.of_nat Pos.of_succ_nat Pos.succ]; lia).
    cbn [Z.of_N Z.of_nat Pos.of_succ_nat Pos.succ]. repeat rewrite <- app_assoc. glue. f_equal. lia.
  - simpl. congruence.
  - constructor; [|done]. unfold entry_wf.
    cbn [se_funding_operation_id se_slot se_storage_id se_payout_account se_verified_unit_seconds se_amount].
    split; [apply subspan_u8; lia|]. split; [apply subspan_u64; lia|]. split; [apply subspan_u64; lia|done].
Qed.
Lemma read_witnesses_ok ws : forall pre post,
  read_witnesses (length ws) (pre ++ mjoin (arr_val <$> ws) ++ post) (zlen pre) = ws.
Proof.
  induction ws as [|w ws IH]; intros pre post; [done|]. cbn [length read_witnesses]. rewrite fmap_cons, mjoin_cons, <- app_assoc.
  pose proof (zlen_nonneg pre). f_equal; [cut; by rewrite arr_of_arr|].
  specialize (IH (pre ++ arr_val w) post). rewrite <- app_assoc in IH.
  replace (zlen pre + 32) with (zlen (pre ++ arr_val w)) by len. exact IH.
Qed.
Lemma read_witnesses_inv n l : forall off, 0 <= off -> off + 32 * Z.of_nat n <= zlen l ->
  subspan l off (32 * Z.of_nat n) = mjoin (arr_val <$> read_witnesses n l off) /\ length (read_witnesses n l off) = n.
Proof.
  induction n as [|n IH]; intros off H0 Hl; [done|]. cbn [read_witnesses]. destruct (IH (off + 32)) as [E1 L1]; [lia..|].
  split; [|simpl; congruence]. rewrite fmap_cons, mjoin_cons, <- E1, (arr_of_subspan 32) by (cbn [Z.of_N]; lia).
  cbn [Z.of_N]. glue. f_equal. lia.
Qed.

Lemma r_Bytes_ok r m l y : zlen l <= m -> zlen l <= MAX32 -> at_suffix r (le_bytes 4 (zlen l) ++ l ++ y) ->
  exists r', r_Bytes r m = Ret (l, r') /\ at_suffix r' y.
Proof.
  intros Hm H32 Hr. pose proof (zlen_nonneg l). destruct (r_int_ok 4 _ _ _ Hr) as (r1 & E1 & Hr1).
  { change (2 ^ (8 * Z.of_nat 4)) with 4294967296. ulia. }
  destruct (r_Fixed_ok _ _ _ Hr1) as (r2 & E2 & Hr2). exists r2. split; [|done].
  unfold r_Bytes, r_U32. rewrite E1. cbn [outcome_bind]. by rewrite (proj2 (Z.ltb_ge _ _)).
Qed.
Lemma r_Bytes_inv r z m l r' : at_suffix r z -> r_Bytes r m = Ret (l, r') ->
  exists y, z = le_bytes 4 (zlen l) ++ l ++ y /\ at_suffix r' y /\ zlen l <= m.
Proof.
  intros Hr E. unfold r_Bytes in E. destruct (r_U32 r) as [[size r1]|] eqn:E1; [|done]. cbn [outcome_bind] in E. walk_step E. guards.
  destruct (r_int_inv _ _ _ _ _ Hr E1) as (y1 & -> & B1 & Hr1).
  destruct (r_Fixed_inv _ _ _ _ _ Hr1 (proj1 B1) E) as (y2 & -> & L2 & Hr2). exists y2. subst size. done.
Qed.

Definition binding_wf (e : StorageSettlementBinding) : Prop := zlen (sig_ml_dsa (pb_authorization (sb_binding e))) = 2420.
Lemma binding_decodes e : binding_wf e -> zlen (EncodeStoragePayoutBinding (sb_binding e)) = 6344 ->
  is_Some (DecodeStoragePayoutBinding (EncodeStoragePayoutBinding (sb_binding e))) ->
  DecodeStoragePayoutBinding (EncodeStoragePayoutBinding (sb_binding e)) = Some (sb_binding e).
Proof.
  destruct e as [id [acc [ed ml] proof]]. unfold binding_wf. cbn [sb_binding pb_authorization sig_ml_dsa].
  intros Hs Hl [b Hb]. apply Decode_EncodeStoragePayoutBinding; [|done|].
  - pose proof (DecodeStoragePayoutBinding_inv _ _ Hb) as [_ Hn]. apply Encode_DecodeStoragePayoutBinding in Hb.
    unfold EncodeStoragePayoutBinding in Hb. cbn [pb_payout_account pb_authorization pb_storage_proof sig_ml_dsa sig_ed25519] in *.
    apply app_inj_1 in Hb as [Hb _]; [|pose proof (zlen_arr (pb_payout_account b)) as H1; pose proof (zlen_arr acc) as H2; unfold zlen in *; lia].
    apply arr_eq in Hb. by subst acc.
  - intros Hp. cbn [pb_storage_proof] in Hp. subst proof. unfold EncodeStoragePayoutBinding in Hl.
    cbn [pb_payout_account pb_authorization pb_storage_proof sig_ml_dsa sig_ed25519] in Hl. revert Hl. len.
Qed.
Lemma read_eligible_ok es : forall r y, Forall binding_wf es ->
  Forall (fun e => zlen (EncodeStoragePayoutBinding (sb_binding e)) = 6344 /\
                   is_Some (DecodeStoragePayoutBinding (EncodeStoragePayoutBinding (sb_binding e)))) es ->
  at_suffix r (mjoin (eligible_bytes <$> es) ++ y) ->
  exists r', read_eligible (length es) r = Ret (Some (es, r')) /\ at_suffix r' y.
Proof.
  induction es as [|e es IH]; intros r y Hwf Hok Hr; cbn [length read_eligible]; [by exists r|].
  apply Forall_cons in Hwf as [W1 Hwf], Hok as [[L1 D1] Hok]. rewrite fmap_cons, mjoin_cons in Hr.
  unfold eligible_bytes in Hr at 1. repeat rewrite <- app_assoc in Hr. destruct (r_Arr_ok _ _ _ Hr) as (r1 & E1 & Hr1).
  rewrite <- L1 in Hr1. destruct (r_Bytes_ok r1 6344 (EncodeStoragePayoutBinding (sb_binding e)) (mjoin (eligible_bytes <$> es) ++ y)) as (r2 & E2 & Hr2);
    [lia|ulia|done|].
  destruct (IH _ _ Hwf Hok Hr2) as (r3 & E3 & Hr3). exists r3. split; [|done].
  rewrite E1. cbn [outcome_bind]. rewrite E2. cbn [outcome_bind]. rewrite (binding_decodes _ W1 L1 D1), E3. cbn [outcome_bind].
  by destruct e.
Qed.
(** What the reader has consumed, before the length of the bindings is known. *)
Definition raw_eligible (e : StorageSettlementBinding) : bytes :=
  arr_val (sb_storage_id e) ++ le_bytes 4 (zlen (EncodeStoragePayoutBinding (sb_binding e)))
  ++ EncodeStoragePayoutBinding (sb_binding e).
Lemma raw_eligible_bytes l : Forall (fun e => zlen (EncodeStoragePayoutBinding (sb_binding e)) = 6344) l ->
  raw_eligible <$> l = eligible_bytes <$> l.
Proof.
  induction 1 as [|e l He _ IH]; [done|]. rewrite !fmap_cons, IH. f_equal. unfold raw_eligible, eligible_bytes. by rewrite He.
Qed.
Lemma read_eligible_inv n : forall r z es r', at_suffix r z -> read_eligible n r = Ret (Some (es, r')) ->
  length es = n /\ Forall binding_wf es /\ exists y, z = mjoin (raw_eligible <$> es) ++ y /\ at_suffix r' y.
Proof.
  induction n as [|n IH]; intros r z es r' Hr E; cbn [read_eligible] in E.
  { injection E as <- <-. split_and!; [done|constructor|]. by exists z. }
  destruct (r_Arr 32 r) as [[id r1]|] eqn:E1; [|done]. cbn [outcome_bind] in E.
  destruct (r_Bytes r1 6344) as [[l r2]|] eqn:E2; [|done]. cbn [outcome_bind] in E.
  destruct (DecodeStoragePayoutBinding l) as [b|] eqn:Ed; [|done].
  destruct (read_eligible n r2) as [[[rest r3]|]|] eqn:E3; try done. cbn [outcome_bind] in E. injection E as <- <-.
  destruct (r_Arr_inv _ _ _ _ Hr E1) as (y1 & -> & Hr1). destruct (r_Bytes_inv _ _ _ _ _ Hr1 E2) as (y2 & -> & Hr2 & _).
  destruct (IH _ _ _ _ Hr2 E3) as (L & W & y & -> & Hy). split_and!; [simpl; congruence| |].
  - constructor; [|done]. unfold binding_wf. cbn [sb_binding]. by apply DecodeStoragePayoutBinding_inv in Ed as [? _].
  - exists y. split; [|done]. rewrite fmap_cons, mjoin_cons. unfold raw_eligible at 2. cbn [sb_storage_id sb_binding].
    rewrite (Encode_DecodeStoragePayoutBinding _ _ Ed). by repeat rewrite <- app_assoc.
Qed.
Lemma read_manifest_ok l : forall r y, at_suffix r (mjoin (arr_val <$> l) ++ y) ->
  exists r', read_manifest (length l) r = Ret (l, r') /\ at_suffix r' y.
Proof.
  induction l as [|c l IH]; intros r y Hr; cbn [length read_manifest]; [by exists r|].
  rewrite fmap_cons, mjoin_cons, <- app_assoc in Hr. destruct (r_Arr_ok _ _ _ Hr) as (r1 & E1 & Hr1).
  destruct (IH _ _ Hr1) as (r2 & E2 & Hr2). exists r2. split; [|done]. rewrite E1. cbn [outcome_bind]. by rewrite E2.
Qed.
Lemma read_manifest_inv n : forall r z l r', at_suffix r z -> read_manifest n r = Ret (l, r') ->
  length l = n /\ exists y, z = mjoin (arr_val <$> l) ++ y /\ at_suffix r' y.
Proof.
  induction n as [|n IH]; intros r z l r' Hr E; cbn [read_manifest] in E.
  { injection E as <- <-. split; [done|]. by exists z. }
  destruct (r_Arr 32 r) as [[c r1]|] eqn:E1; [|done]. cbn [outcome_bind] in E.
  destruct (read_manifest n r1) as [[rest r2]|] eqn:E2; [|done]. cbn [outcome_bind] in E. injection E as <- <-.
  destruct (r_Arr_inv _ _ _ _ Hr E1) as (y1 & -> & Hr1). destruct (IH _ _ _ _ Hr1 E2) as (L & y & -> & Hy).
  split; [simpl; congruence|]. exists y. split; [|done]. by rewrite fmap_cons, mjoin_cons, <- app_assoc.
Qed.

(** ** Round trip *)

Definition settlement_wf (s : StorageSettlement) : Prop :=
  is_u64 (ss_period s) /\ is_u64 (ss_period_start_utc s) /\ is_u64 (ss_period_end_utc s) /\
  is_u64 (ss_assignment_epoch s) /\ Forall binding_wf (ss_eligible s) /\
  Forall (fun e => is_u8 (se_slot e) /\ is_u64 (se_verified_unit_seconds e) /\ is_u64 (se_amount e)) (ss_entries s).

Lemma assignment_frame period start act M sig : is_u64 period -> is_u64 start -> is_u8 act -> act <> 3 ->
  zlen (sig_ml_dsa sig) = 3309 -> zlen M <= MAX_OPERATION_PAYLOAD_BYTES - 18 - POA_SIGNATURE_SIZE ->
  DeserializeStorageSettlement ((le_bytes 8 period ++ le_bytes 8 start ++ le_bytes 1 act ++ M)
      ++ arr_val (sig_ed25519 sig) ++ sig_ml_dsa sig)
  = DeserializeAssignmentBody period start act M sig (17 + zlen M + POA_SIGNATURE_SIZE).
Proof.
  intros H1 H2 H3 Hne Hs HM. repeat rewrite <- app_assoc. pose proof (zlen_nonneg M) as HM0.
  unfold DeserializeStorageSettlement. set (l := le_bytes 8 period ++ _).
  assert (Hl : zlen l = 17 + zlen M + POA_SIGNATURE_SIZE) by (unfold l, POA_SIGNATURE_SIZE; len).
  unfold POA_SIGNATURE_SIZE, MAX_OPERATION_PAYLOAD_BYTES in *. rewrite Hl.
  rewrite (proj2 (Z.ltb_ge _ _)), (proj2 (Z.ltb_ge _ _)) by lia. cbn [orb].
  assert (Ha : le_val (subspan l 16 1) = act) by (unfold l; cut; by rewrite le_val_u8).
  rewrite Ha, (proj2 (Z.eqb_neq _ _)) by done. cbn [negb].
  f_equal; try (unfold l; cut; by rewrite ?le_val_u64).
  replace (17 + zlen M + (64 + 3309) - (64 + 3309)) with (17 + zlen M) by lia. unfold l. cut. rewrite arr_of_arr. by destruct sig.
Qed.

Ltac settlement_sizes := unfold POA_SIGNATURE_SIZE, MAX_OPERATION_PAYLOAD_BYTES, MAX_STORAGE_SETTLEMENT_ENTRIES in *.
Ltac int_width := change (2 ^ (8 * Z.of_nat 8)) with 18446744073709551616; change (2 ^ (8 * Z.of_nat 4)) with 4294967296; ulia.

Lemma prepare_decode s b : settlement_wf s -> ss_action s = PREPARE -> SerializeSettlementBody s = Some b ->
  let M := arr_val (ss_funded_term_id s) ++ le_bytes 8 (ss_assignment_epoch s) ++ le_bytes 4 (zlen (ss_eligible s))
             ++ mjoin (eligible_bytes <$> ss_eligible s) in
  DeserializeAssignmentBody (ss_period s) (ss_period_start_utc s) 1 M (ss_poa_signature s) (17 + zlen M + POA_SIGNATURE_SIZE)
  = Some s.
Proof.
  intros (W1 & W2 & W3 & W4 & W5 & W6) Ea Eb. pose proof (SerializeSettlementBody_inv _ _ Eb) as (-> & Sh & Hlen).
  unfold body_shape in Sh. unfold settlement_layout in Hlen. rewrite Ea in Sh, Hlen. cbv zeta.
  destruct Sh as (S1 & S2 & S3 & S4 & S5 & S6 & S7 & S8).
  assert (S8' : Forall (fun e => zlen (EncodeStoragePayoutBinding (sb_binding e)) = 6344) (ss_eligible s))
    by (eapply Forall_impl; [exact S8|by intros ? []]).
  pose proof (zlen_eligible _ S8') as Hz. set (M := arr_val (ss_funded_term_id s) ++ _) in *.
  assert (HM : zlen M = 44 + 6380 * zlen (ss_eligible s)) by (unfold M; len).
  unfold DeserializeAssignmentBody. settlement_sizes. destruct (r_new_ok M (256 * 1024)) as (r & E0 & Hr);
    [lia|done|]. rewrite E0. cbn [outcome_bind].
  rewrite HM, !(proj2 (Z.ltb_ge _ _)) by lia. cbn [Z.eqb Pos.eqb action_value].
  unfold M in Hr. destruct (r_Arr_ok _ _ _ Hr) as (r1 & E1 & Hr1).
  destruct (r_int_ok 8 _ _ _ Hr1) as (r2 & E2 & Hr2); [int_width|].
  destruct (r_int_ok 4 _ _ _ Hr2) as (r3 & E3 & Hr3); [int_width|].
  rewrite <- (app_nil_r (mjoin _)) in Hr3. destruct (read_eligible_ok _ _ _ W5 S8 Hr3) as (r4 & E4 & Hr4).
  rewrite E1. cbn [outcome_bind]. unfold r_U64, r_U32. rewrite E2. cbn [outcome_bind]. rewrite E3. cbn [outcome_bind].
  rewrite (proj2 (Z.eqb_neq _ _)), (proj2 (Z.ltb_ge 20 _)), (proj2 (Z.ltb_ge _ (zlen (ss_eligible s))))
    by (try lia; apply Z.div_le_lower_bound; lia). cbn [orb].
  unfold zlen at 1. rewrite Nat2Z.id, E4. cbn [outcome_bind]. rewrite (proj2 (r_Finish_iff _ _ Hr4) eq_refl). cbn [outcome_bind].
  assert (mkSettlement (ss_period s) (ss_period_start_utc s) [] (ss_poa_signature s) PREPARE (ss_funded_term_id s) ZERO
    (ss_assignment_epoch s) (ss_eligible s) [] 0 ZERO [] = s) as -> by (destruct s; cbn in *; by subst).
  by rewrite Eb.
Qed.
Lemma activate_decode s b : ss_action s = ACTIVATE -> SerializeSettlementBody s = Some b ->
  let M := arr_val (ss_preparation_id s) ++ le_bytes 4 (zlen (ss_manifest s)) ++ mjoin (arr_val <$> ss_manifest s) in
  DeserializeAssignmentBody (ss_period s) (ss_period_start_utc s) 2 M (ss_poa_signature s) (17 + zlen M + POA_SIGNATURE_SIZE)
  = Some s.
Proof.
  intros Ea Eb. pose proof (SerializeSettlementBody_inv _ _ Eb) as (-> & Sh & Hlen).
  unfold body_shape in Sh. unfold settlement_layout in Hlen. rewrite Ea in Sh, Hlen. cbv zeta.
  destruct Sh as (S1 & S2 & S3 & S4 & S5 & S6 & S7 & S8).
  pose proof (zlen_arrs (ss_manifest s)) as Hz. set (M := arr_val (ss_preparation_id s) ++ _) in *. cbn [Z.of_N] in Hz.
  assert (HM : zlen M = 36 + 32 * zlen (ss_manifest s)) by (unfold M; len).
  unfold DeserializeAssignmentBody. settlement_sizes. destruct (r_new_ok M (256 * 1024)) as (r & E0 & Hr);
    [lia|done|]. rewrite E0. cbn [outcome_bind].
  rewrite HM, !(proj2 (Z.ltb_ge _ _)) by lia. cbn [Z.eqb Pos.eqb action_value].
  unfold M in Hr. destruct (r_Arr_ok _ _ _ Hr) as (r1 & E1 & Hr1).
  destruct (r_int_ok 4 _ _ _ Hr1) as (r3 & E3 & Hr3); [int_width|].
  rewrite <- (app_nil_r (mjoin _)) in Hr3. destruct (read_manifest_ok _ _ _ Hr3) as (r4 & E4 & Hr4).
  rewrite E1. cbn [outcome_bind]. unfold r_U32. rewrite E3. cbn [outcome_bind].
  rewrite (proj2 (Z.eqb_neq _ _)), (proj2 (Z.ltb_ge 3988 _)), (proj2 (Z.ltb_ge _ (zlen (ss_manifest s))))
    by (try lia; apply Z.div_le_lower_bound; lia). cbn [orb].
  unfold zlen at 1. rewrite Nat2Z.id, E4. cbn [outcome_bind]. rewrite (proj2 (r_Finish_iff _ _ Hr4) eq_refl). cbn [outcome_bind].
  assert (mkSettlement (ss_period s) (ss_period_start_utc s) [] (ss_poa_signature s) ACTIVATE ZERO (ss_preparation_id s) 0 []
    (ss_manifest s) 0 ZERO [] = s) as -> by (destruct s; cbn in *; by subst).
  by rewrite Eb.
Qed.
Lemma pay_decode s b : settlement_wf s -> ss_action s = PAY -> SerializeSettlementBody s = Some b ->
  zlen (sig_ml_dsa (ss_poa_signature s)) = 3309 ->
  DeserializeStorageSettlement (b ++ arr_val (sig_ed25519 (ss_poa_signature s)) ++ sig_ml_dsa (ss_poa_signature s)) = Some s.
Proof.
  intros (W1 & W2 & W3 & W4 & W5 & W6) Ea Eb Hs. pose proof (SerializeSettlementBody_inv _ _ Eb) as (-> & Sh & Hlen).
  unfold body_shape in Sh. unfold settlement_layout in *. rewrite Ea in *.
  destruct Sh as (S1 & S2 & S3 & S4 & S5 & S6 & S7 & S8).
  assert (Hwf : Forall entry_wf (ss_entries s)).
  { eapply Forall_impl; [exact (proj2 (Forall_and _ _) (conj W6 S8))|]. intros e ((A1 & A2 & A3) & A4). by split_and!; try apply A1; try apply A2; try apply A3. }
  pose proof (zlen_entries_bytes (ss_entries s)) as Hze. pose proof (zlen_arrs (ss_activation_witnesses s)) as Hzw. cbn [Z.of_N] in Hzw.
  pose proof (zlen_nonneg (ss_entries s)) as Ne. pose proof (zlen_nonneg (ss_activation_witnesses s)) as Nw.
  set (n := zlen (ss_entries s)) in *. set (m := zlen (ss_activation_witnesses s)) in *.
  repeat rewrite <- app_assoc. set (l := le_bytes 8 _ ++ _).
  assert (Hl : zlen l = 65 + 113 * n + 32 * m + 3373) by (unfold l; len).
  assert (Hlim : 65 + 113 * n + 32 * m <= MAX_OPERATION_PAYLOAD_BYTES - 1 - POA_SIGNATURE_SIZE) by (revert Hlen; len).
  unfold DeserializeStorageSettlement. settlement_sizes. unfold SETTLEMENT_HEADER_SIZE, STORAGE_SETTLEMENT_ENTRY_SIZE.
  rewrite !Hl, (proj2 (Z.ltb_ge _ (17 + (64 + 3309)))), (proj2 (Z.ltb_ge _ (65 + 113 * n + 32 * m + 3373))) by lia. cbn [orb].
  assert (Ha : le_val (subspan l 16 1) = 3) by (unfold l; cut; by rewrite le_val_u8). rewrite Ha. cbn [negb Z.eqb Pos.eqb action_value].
  rewrite (proj2 (Z.ltb_ge _ _)) by lia. change (256 * 1024 / 32) with 8192 in S7.
  assert (Hn : le_val (subspan l 57 4) = n) by (unfold l; cut; rewrite le_val_u32; [done|ulia]). rewrite Hn.
  rewrite (proj2 (Z.ltb_ge 1024 _)), (proj2 (Z.ltb_ge _ n)) by (try lia; apply Z.div_le_lower_bound; lia). cbn [orb].
  assert (He : read_entries (Z.to_nat n) l (8 + 8 + 1 + 8 + 32 + 4) = Some (ss_entries s)).
  { unfold n, zlen. rewrite Nat2Z.id. fold (zlen (ss_entries s)). fold n.
    pose proof (read_entries_ok (ss_entries s) (le_bytes 8 (ss_period s) ++ le_bytes 8 (ss_period_start_utc s) ++
      le_bytes 1 (action_value PAY) ++ le_bytes 8 (ss_period_end_utc s) ++ arr_val (ss_evidence_root s) ++ le_bytes 4 n)
      (le_bytes 4 m ++ mjoin (arr_val <$> ss_activation_witnesses s) ++ arr_val (sig_ed25519 (ss_poa_signature s))
        ++ sig_ml_dsa (ss_poa_signature s)) Hwf) as R. repeat rewrite <- app_assoc in R.
    etransitivity; [|exact R]. unfold l. f_equal. len. }
  rewrite He.
  assert (Hm : le_val (subspan l (8 + 8 + 1 + 8 + 32 + 4 + n * (32 + 1 + 32 + 32 + 8 + 8)) 4) = m) by (unfold l; cut; rewrite le_val_u32; [done|ulia]).
  rewrite Hm. rewrite (proj2 (Z.ltb_ge _ m)), (proj2 (Z.eqb_eq _ _)) by (try lia; apply Z.div_le_lower_bound; lia). cbn [orb negb].
  assert (Hw : read_witnesses (Z.to_nat m) l (8 + 8 + 1 + 8 + 32 + 4 + n * (32 + 1 + 32 + 32 + 8 + 8) + 4) = ss_activation_witnesses s).
  { unfold m, zlen. rewrite Nat2Z.id. fold (zlen (ss_activation_witnesses s)). fold m.
    pose proof (read_witnesses_ok (ss_activation_witnesses s) (le_bytes 8 (ss_period s) ++ le_bytes 8 (ss_period_start_utc s) ++
      le_bytes 1 (action_value PAY) ++ le_bytes 8 (ss_period_end_utc s) ++ arr_val (ss_evidence_root s) ++ le_bytes 4 n
      ++ mjoin (entry_bytes <$> ss_entries s) ++ le_bytes 4 m)
      (arr_val (sig_ed25519 (ss_poa_signature s)) ++ sig_ml_dsa (ss_poa_signature s))) as R. repeat rewrite <- app_assoc in R.
    etransitivity; [|exact R]. unfold l. f_equal. len. }
  rewrite Hw.
  match goal with |- (match SerializeSettlementBody ?x with _ => _ end) = _ => assert (x = s) as -> end; [|by rewrite Eb].
  replace (le_val (subspan l 0 8)) with (ss_period s) by (unfold l; cut; by rewrite le_val_u64).
  replace (le_val (subspan l 8 8)) with (ss_period_start_utc s) by (unfold l; cut; by rewrite le_val_u64).
  replace (le_val (subspan l 17 8)) with (ss_period_end_utc s) by (unfold l; cut; by rewrite le_val_u64).
  replace (arr_of 32 (subspan l 25 32)) with (ss_evidence_root s) by (unfold l; cut; by rewrite arr_of_arr).
  set (off := 8 + 8 + 1 + 8 + 32 + 4 + n * (32 + 1 + 32 + 32 + 8 + 8) + 4 + m * 32).
  replace (arr_of 64 (subspan l off 64)) with (sig_ed25519 (ss_poa_signature s)) by (unfold l, off; cut; by rewrite arr_of_arr).
  replace (subspan l (off + 64) (65 + 113 * n + 32 * m + 3373 - (off + 64))) with (sig_ml_dsa (ss_poa_signature s)) by (unfold l, off; by cut).
  destruct s as [? ? ? []]. cbn in *. by subst.
Qed.

Lemma settlement_decode s l : settlement_wf s -> SerializeStorageSettlement s = Some l ->
  DeserializeStorageSettlement l = Some s.
Proof.
  intros Hwf E. unfold SerializeStorageSettlement in E. walk E. some_inj E. guards. rename Hopt into Eb, Hif into Hs.
  pose proof (SerializeSettlementBody_inv _ _ Eb) as (Hb & Sh & Hlen). destruct (ss_action s) eqn:Ea; [| |by apply pay_decode].
  all: rewrite Hb in Hlen; subst; unfold settlement_layout in *; rewrite Ea in *; cbn [action_value] in *;
    destruct Hwf as (W1 & W2 & W); rewrite assignment_frame by (done || settlement_sizes; revert Hlen; len).
  - eapply prepare_decode; [by split|done..].
  - by eapply activate_decode.
Qed.

(** ** Canonicity *)

(** A settlement read through the [BinaryReader]: the bytes it came from. *)
Lemma assignment_encode period start act M sig size s :
  DeserializeAssignmentBody period start act M sig size = Some s ->
  ss_period s = period /\ ss_period_start_utc s = start /\ action_value (ss_action s) = act /\ ss_poa_signature s = sig /\
  is_u64 (ss_assignment_epoch s) /\ ss_period_end_utc s = 0 /\ Forall binding_wf (ss_eligible s) /\ ss_entries s = [] /\
  SerializeSettlementBody s = Some (le_bytes 8 period ++ le_bytes 8 start ++ le_bytes 1 act ++ M).
Proof.
  intros E. unfold DeserializeAssignmentBody in E.
  match type of E with default None (catch_none ?m) = _ => destruct m as [o|] eqn:Em; [|done] end. simpl in E. subst o.
  destruct (r_new M (256 * 1024)) as [r|] eqn:E0; [|done]. cbn [outcome_bind] in Em. walk_step Em.
  apply r_new_at in E0 as [Hr _]; [|done]. walk_step Em.
  - walk_step Em. destruct (r_Arr 32 r) as [[id r1]|] eqn:E1; [|done]. cbn [outcome_bind] in Em.
    destruct (r_U64 r1) as [[epoch r2]|] eqn:E2; [|done]. cbn [outcome_bind] in Em.
    destruct (r_U32 r2) as [[count r3]|] eqn:E3; [|done]. cbn [outcome_bind] in Em. walk_step Em.
    destruct (read_eligible (Z.to_nat count) r3) as [[[es r4]|]|] eqn:E4; try done. cbn [outcome_bind] in Em.
    destruct (r_Finish r4) as [[]|] eqn:E5; [|done]. cbn [outcome_bind] in Em.
    destruct (SerializeSettlementBody _) as [b|] eqn:Eb in Em; [|done]. injection Em as <-.
    destruct (r_Arr_inv _ _ _ _ Hr E1) as (y1 & -> & Hr1). destruct (r_int_inv _ _ _ _ _ Hr1 E2) as (y2 & -> & B2 & Hr2).
    destruct (r_int_inv _ _ _ _ _ Hr2 E3) as (y3 & -> & B3 & Hr3).
    destruct (read_eligible_inv _ _ _ _ _ Hr3 E4) as (Hn & Hwf & y & -> & Hr4). apply (r_Finish_iff _ _ Hr4) in E5 as ->.
    change (2 ^ (8 * Z.of_nat 8)) with 18446744073709551616 in B2. rewrite Eb.
    apply SerializeSettlementBody_inv in Eb as (-> & Sh & _). guards.
    unfold body_shape in Sh. cbn [ss_action ss_eligible] in Sh. destruct Sh as (_ & _ & _ & _ & _ & _ & _ & Sh).
    split_and!; try done; try (cbn [ss_assignment_epoch]; ulia). unfold settlement_layout.
    cbn [ss_action ss_period ss_period_start_utc ss_funded_term_id ss_assignment_epoch ss_eligible action_value]. subst act.
    rewrite raw_eligible_bytes by (eapply Forall_impl; [exact Sh|by intros ? []]).
    replace (zlen es) with count by (unfold zlen; rewrite Hn; lia). by rewrite app_nil_r.
  - walk_step Em. destruct (r_Arr 32 r) as [[id r1]|] eqn:E1; [|done]. cbn [outcome_bind] in Em.
    destruct (r_U32 r1) as [[count r3]|] eqn:E3; [|done]. cbn [outcome_bind] in Em. walk_step Em.
    destruct (read_manifest (Z.to_nat count) r3) as [[cs r4]|] eqn:E4; [|done]. cbn [outcome_bind] in Em.
    destruct (r_Finish r4) as [[]|] eqn:E5; [|done]. cbn [outcome_bind] in Em.
    destruct (SerializeSettlementBody _) as [b|] eqn:Eb in Em; [|done]. injection Em as <-.
    destruct (r_Arr_inv _ _ _ _ Hr E1) as (y1 & -> & Hr1). destruct (r_int_inv _ _ _ _ _ Hr1 E3) as (y3 & -> & B3 & Hr3).
    destruct (read_manifest_inv _ _ _ _ _ Hr3 E4) as (Hn & y & -> & Hr4). apply (r_Finish_iff _ _ Hr4) in E5 as ->.
    rewrite Eb. apply SerializeSettlementBody_inv in Eb as (-> & _ & _). guards.
    split_and!; try done; try (cbn [ss_assignment_epoch]; ulia); try constructor. unfold settlement_layout.
    cbn [ss_action ss_period ss_period_start_utc ss_preparation_id ss_manifest action_value]. subst act.
    replace (zlen cs) with count by (unfold zlen; rewrite Hn; lia). by rewrite app_nil_r.
Qed.

Lemma pay_encode s l : 3390 <= zlen l -> le_val (subspan l 16 1) = 3 -> DeserializeStorageSettlement l = Some s ->
  SerializeStorageSettlement s = Some l /\ settlement_wf s.
Proof.
  intros Hmin Ha E. unfold DeserializeStorageSettlement in E. settlement_sizes. unfold SETTLEMENT_HEADER_SIZE in E. walk_step E.
  rewrite Ha in E. cbn [negb Z.eqb Pos.eqb action_value] in E. walk_step E. walk_step E.
  set (n := le_val (subspan l 57 4)) in *. apply Z.ltb_ge in Hif0.
  assert (Hn0 : 0 <= n) by (pose proof (subspan_u32 l 57 ltac:(lia) ltac:(lia)); unfold n; ulia).
  apply orb_false_iff in Hif1 as [Hn1%Z.ltb_ge Hn2%Z.ltb_ge]. unfold STORAGE_SETTLEMENT_ENTRY_SIZE in *.
  assert (Hn3 : 113 * n <= zlen l - 3438).
  { etransitivity; [apply Z.mul_le_mono_nonneg_l; [lia|exact Hn2]|]. etransitivity; [apply Z.mul_div_le; lia|]. lia. }
  destruct (read_entries _ _ _) as [es|] eqn:Ee; [|done].
  apply read_entries_inv in Ee as (Eb & Le & We); [|lia|rewrite Z2Nat.id by done; simpl; lia].
  rewrite Z2Nat.id in Eb by done. cbv zeta in E. change (8 + 8 + 1 + 8 + 32 + 4) with 61 in *. change (32 + 1 + 32 + 32 + 8 + 8) with 113 in *.
  change (64 + 3309) with 3373 in *.
  set (m := le_val (subspan l (61 + n * 113) 4)) in *.
  assert (Hm0 : is_u32 m) by (apply subspan_u32; lia).
  destruct (_ || _) eqn:Hw in E; [done|]. apply orb_false_iff in Hw as [_ Hw]. guards.
  destruct (read_witnesses_inv (Z.to_nat m) l (61 + n * 113 + 4)) as [Ew Lw]; [lia|rewrite Z2Nat.id; ulia|].
  rewrite Z2Nat.id in Ew by ulia. destruct (SerializeSettlementBody _) as [b|] eqn:Es in E; [|done]. injection E as <-.
  split.
  - unfold SerializeStorageSettlement. rewrite Es. cbn [ss_poa_signature sig_ed25519 sig_ml_dsa].
    rewrite zlen_subspan by lia. rewrite (proj2 (Z.eqb_eq _ 3309)) by lia. cbn [negb]. f_equal.
    apply SerializeSettlementBody_inv in Es as (-> & _ & _). unfold settlement_layout.
    cbn [ss_action ss_period ss_period_start_utc ss_period_end_utc ss_evidence_root ss_entries ss_activation_witnesses action_value].
    rewrite <- Eb, <- Ew. replace (zlen es) with n by (unfold zlen; lia).
    replace (zlen (read_witnesses _ _ _)) with m by (unfold zlen; rewrite Lw; ulia).
    assert (En : le_bytes 4 n = subspan l 57 4) by (apply (le_bytes_subspan l 57 4); lia).
    assert (Em' : le_bytes 4 m = subspan l (61 + n * 113) 4) by (apply (le_bytes_subspan l (61 + n * 113) 4); lia).
    assert (E3 : le_bytes 1 3 = subspan l 16 1) by (rewrite <- Ha; apply (le_bytes_subspan l 16 1); lia).
    rewrite En, Em', E3, !(le_bytes_subspan _ _ 8), (arr_of_subspan 64), (arr_of_subspan 32)
      by (cbn [Z.of_N Z.of_nat Pos.of_succ_nat Pos.succ]; ulia).
    cbn [Z.of_N Z.of_nat Pos.of_succ_nat Pos.succ]. repeat rewrite <- app_assoc. clearbody m n. uint_unfold. glue. apply subspan_whole; lia.
  - unfold settlement_wf. cbn [ss_action ss_period ss_period_start_utc ss_period_end_utc ss_entries ss_assignment_epoch ss_eligible].
    split; [apply subspan_u64; lia|]. split; [apply subspan_u64; lia|]. split; [apply subspan_u64; lia|]. split; [ulia|].
    split; [constructor|]. eapply Forall_impl; [exact We|]. intros e (A1 & A2 & A3 & _). by split.
Qed.
Lemma settlement_encode s l : DeserializeStorageSettlement l = Some s ->
  SerializeStorageSettlement s = Some l /\ settlement_wf s.
Proof.
  intros E. pose proof E as E'. unfold DeserializeStorageSettlement in E. walk_step E. settlement_sizes.
  assert (Hmin : 17 + 3373 <= zlen l <= 131071) by (guards; lia). clear Hif. walk_step E.
  - clear E'. apply assignment_encode in E as (P1 & P2 & P3 & P4 & P5 & P6 & P7 & P8 & Eb). split.
    + unfold SerializeStorageSettlement. rewrite Eb, P4. cbn [sig_ed25519 sig_ml_dsa].
      rewrite zlen_subspan by lia. cbn [Z.eqb Pos.eqb negb]. f_equal.
      rewrite !(le_bytes_subspan _ _ 8), (le_bytes_subspan _ _ 1), (arr_of_subspan 64) by (cbn [Z.of_N Z.of_nat Pos.of_succ_nat Pos.succ]; lia).
      cbn [Z.of_N Z.of_nat Pos.of_succ_nat Pos.succ]. repeat rewrite <- app_assoc. glue. apply subspan_whole; lia.
    + unfold settlement_wf. rewrite P1, P2, P6, P8. split_and!; try apply subspan_u64; try lia; try done; try apply P5; ulia.
  - apply pay_encode; [lia| |done]. guards. done.
Qed.
