(* ===== verification/OperationCodec.v ===== *)
(** * The encoding of operations is canonical

    [src/src/cybou/protocol_operation.cpp]: what is written is read back, and
    what is accepted is the only encoding of the operation it decodes to, so
    an operation id names one operation. The payload codecs are an interface,
    [PayloadCodec]; the authorized operations are proved against it. *)

From S2P Require Import Prelude.
From S2P Require Import Bytes.
From S2P Require Import Codec.
From S2P Require Import Params.
From S2P Require Import Crypto.
From S2P Require Import Identity.
From S2P Require Import IdentityCodec.
From S2P Require Import Names.
From S2P Require Import Payloads.
From S2P Require Import SettlementData.
From S2P Require Import SettlementCodec.
From S2P Require Import Operation.

(** A payload encoding that the authorized operations can embed. *)
Class PayloadCodec {P} (serialize : P -> option bytes) (deserialize : bytes -> option P) (wf : P -> Prop) : Prop := {
  payload_decode p l : wf p -> serialize p = Some l -> deserialize l = Some p;
  payload_encode p l : deserialize l = Some p -> serialize p = Some l /\ wf p;
}.
#[export] Instance payment_codec : PayloadCodec SerializePaymentPayload DeserializePaymentPayload (fun p => is_u64 (pay_amount p)).
Proof. split; [apply PaymentPayload_decode_encode|apply PaymentPayload_encode_decode]. Qed.
#[export] Instance system_lock_codec :
  PayloadCodec SerializeSystemLockPayload DeserializeSystemLockPayload (fun p => is_u64 (lock_amount p)).
Proof. split; [apply SystemLockPayload_decode_encode|apply SystemLockPayload_encode_decode]. Qed.
#[export] Instance revoke_codec :
  PayloadCodec SerializeRevokePublicationPayload DeserializeRevokePublicationPayload (fun _ => True).
Proof. split; [by intros p l _ []%RevokePayload_decode_encode|by intros p l ->%RevokePayload_encode_decode]. Qed.
#[export] Instance lease_codec :
  PayloadCodec SerializeStorageLeasePayload DeserializeStorageLeasePayload (fun p => is_u32 (lease_periods p)).
Proof. split; [apply StorageLeasePayload_decode_encode|apply StorageLeasePayload_encode_decode]. Qed.
#[export] Instance name_commit_codec : PayloadCodec SerializeNameCommitPayload DeserializeNameCommitPayload (fun _ => True).
Proof. split; [by intros p l _ []%NameCommitPayload_decode_encode|by intros p l ->%NameCommitPayload_encode_decode]. Qed.
#[export] Instance name_reveal_codec :
  PayloadCodec SerializeNameRevealPayload DeserializeNameRevealPayload (fun p => claim_work_wf (nr_work p)).
Proof. split; [apply NameRevealPayload_decode_encode|apply NameRevealPayload_encode_decode]. Qed.
#[export] Instance publication_codec : PayloadCodec SerializeRootPublication DeserializeRootPublication publication_wf.
Proof. split; [apply RootPublication_decode_encode|apply RootPublication_encode_decode]. Qed.

(** ** Authorizations *)

Definition auth_wf (a : IdentityOperationAuthorization) : Prop := is_u64 (oa_nonce a) /\ is_u64 (oa_key_epoch a).
Lemma SerializeAuthorization_size a k l : SerializeIdentityOperationAuthorization a k = Some l ->
  zlen l = IDENTITY_OPERATION_AUTH_SIZE.
Proof.
  unfold SerializeIdentityOperationAuthorization, IDENTITY_OPERATION_AUTH_SIZE. intros E. walk E. some_inj E. guards. len.
Qed.
Lemma Authorization_decode_encode a k l : auth_wf a -> SerializeIdentityOperationAuthorization a k = Some l ->
  DeserializeIdentityOperationAuthorization l k = Some a.
Proof.
  intros [W1 W2] E. pose proof (SerializeAuthorization_size _ _ _ E) as Hl.
  unfold SerializeIdentityOperationAuthorization in E. walk E. some_inj E. guards.
  unfold DeserializeIdentityOperationAuthorization. rewrite Hl, Z.eqb_refl. cbn [negb]. unfold IDENTITY_OPERATION_AUTH_SIZE in *.
  change (2565 - 145) with 2420. cut. rewrite AccountId_FromBytes_arr.
  repeat match goal with H : IsNull _ = false |- _ => rewrite H end. rewrite !le_val_u64 by done. subst k. rewrite bool_decide_eq_true_2 by done.
  cbn [negb]. rewrite !arr_of_arr. cbn [sig_ed25519 sig_ml_dsa].
  repeat match goal with H : all_zero _ = false |- _ => rewrite H end. by destruct a as [? ? ? ? ? []].
Qed.
Lemma Authorization_encode_decode a k l : DeserializeIdentityOperationAuthorization l k = Some a ->
  SerializeIdentityOperationAuthorization a k = Some l /\ auth_wf a.
Proof.
  unfold DeserializeIdentityOperationAuthorization, IDENTITY_OPERATION_AUTH_SIZE. intros E. walk E. some_inj E. guards.
  apply AccountId_FromBytes_inv in Hopt as [E1 N1]. split; [|split; apply subspan_u64; lia].
  unfold SerializeIdentityOperationAuthorization.
  cbn [oa_kind oa_account_id oa_signature oa_payload_commitment oa_nonce oa_key_epoch sig_ed25519 sig_ml_dsa] in *.
  rewrite bool_decide_eq_true_2, N1 by done. rewrite zlen_subspan by lia.
  repeat match goal with H : context [zlen l - 145] |- _ => rewrite Hif in H end. rewrite Hif.
  change (2565 - 145 =? 2420) with true. cbn [negb orb].
  repeat match goal with H : all_zero _ = false |- _ => rewrite H end. cbn [orb]. f_equal.
  rewrite <- E1, <- Hif0, !(le_bytes_subspan _ _ 8) by len. rewrite (arr_of_subspan 32), (arr_of_subspan 64) by len.
  glue. apply subspan_whole; lia.
Qed.

(** ** Authorized payloads *)

Section authorized.
Context {P Op : Type} {ser : P -> option bytes} {deser : bytes -> option P} {wf : P -> Prop} {C : PayloadCodec ser deser wf}.
Context (commit : P -> outcome (option IdentityKeyId)) (kind : IdentityOperationKind).
Context (build : IdentityOperationAuthorization -> P -> Op).

Lemma authorized_inv auth p l : SerializeAuthorizedPayload auth kind p commit ser = Ret (Some l) ->
  exists a b, SerializeIdentityOperationAuthorization auth kind = Some a /\ ser p = Some b /\ l = a ++ b /\
    commit p = Ret (Some (oa_payload_commitment auth)).
Proof.
  unfold SerializeAuthorizedPayload. intros E. walk E. injection E as <-. guards. subst. eauto 6.
Qed.
Lemma authorized_decode auth p l : auth_wf auth -> wf p ->
  SerializeAuthorizedPayload auth kind p commit ser = Ret (Some l) ->
  DeserializeAuthorizedPayload l kind deser commit build = Ret (Some (build auth p)).
Proof using C.
  intros Ha Hp (a & b & Ea & Eb & -> & Ec)%authorized_inv. pose proof (SerializeAuthorization_size _ _ _ Ea) as Hl.
  unfold DeserializeAuthorizedPayload. pose proof (zlen_nonneg b). rewrite (subspan_at a b) by lia.
  rewrite (subspan_skip a b), subspan_whole by (rewrite ?zlen_app; lia).
  rewrite (Authorization_decode_encode _ _ _ Ha Ea), (payload_decode _ _ Hp Eb), Ec. cbn [outcome_bind].
  by rewrite bool_decide_eq_true_2.
Qed.
Lemma authorized_encode l op : IDENTITY_OPERATION_AUTH_SIZE <= zlen l ->
  DeserializeAuthorizedPayload l kind deser commit build = Ret (Some op) ->
  exists auth p, op = build auth p /\ auth_wf auth /\ wf p /\
    SerializeAuthorizedPayload auth kind p commit ser = Ret (Some l).
Proof using C.
  intros Hl E. unfold DeserializeAuthorizedPayload in E. walk E. injection E as <-. guards.
  apply Authorization_encode_decode in Hopt as [Ea Wa]. apply payload_encode in Hopt0 as [Ep Wp].
  eexists _, _. split; [done|]. split; [done|]. split; [done|]. unfold SerializeAuthorizedPayload.
  rewrite Ep, Hret. cbn [outcome_bind]. subst. rewrite bool_decide_eq_true_2 by done. cbn [negb]. rewrite Ea. do 2 f_equal.
  unfold IDENTITY_OPERATION_AUTH_SIZE in *. glue. apply subspan_whole; lia.
Qed.
End authorized.

Section operation_codec.
Context `{CryptoOps}.

(** ** Identity rotation *)

Definition rotate_wf (op : IdentityRotate) : Prop := is_u64 (rot_nonce op) /\ is_u64 (rot_key_epoch op).
Lemma SerializeIdentityRotate_inv op l : SerializeIdentityRotate op = Some l ->
  IsNull (rot_account_id op) = false /\ purpose (new_recovery_key op) = RECOVERY_ROOT /\
  purpose (new_authorization_key op) = AUTHORIZATION /\
  zlen (pk_ml_dsa (new_recovery_key op)) = 1952 /\ zlen (pk_ml_dsa (new_authorization_key op)) = 1312 /\
  zlen (sig_ml_dsa (old_recovery_signature op)) = 3309 /\ zlen (sig_ml_dsa (new_recovery_pop op)) = 3309 /\
  zlen (sig_ml_dsa (new_authorization_pop op)) = 2420 /\
  is_Some (DecodeIdentityKemPackage (arr_val (new_kem_package op))) /\
  l = arr_val (rot_account_id op) ++ WritePublic (new_recovery_key op) ++ WritePublic (new_authorization_key op)
        ++ arr_val (new_kem_package op) ++ le_bytes 8 (rot_nonce op) ++ le_bytes 8 (rot_key_epoch op)
        ++ WriteSignature (old_recovery_signature op) ++ WriteSignature (new_recovery_pop op)
        ++ WriteSignature (new_authorization_pop op).
Proof.
  unfold SerializeIdentityRotate. intros E. walk_step E. walk_step E. walk_step E. some_inj E. guards.
  by split_and!.
Qed.
Lemma SerializeIdentityRotate_size op l : SerializeIdentityRotate op = Some l -> zlen l = IDENTITY_ROTATE_SIZE.
Proof.
  intros (_ & _ & _ & L1 & L2 & L3 & L4 & L5 & _ & ->)%SerializeIdentityRotate_inv.
  unfold IDENTITY_ROTATE_SIZE, IDENTITY_KEM_PACKAGE_SIZE, XWING_PUBLIC_KEY_SIZE, WritePublic, WriteSignature. len.
Qed.
Lemma IdentityRotate_decode_encode op l : rotate_wf op -> SerializeIdentityRotate op = Some l ->
  DeserializeIdentityRotate l = Some op.
Proof.
  intros [W1 W2] E. pose proof (SerializeIdentityRotate_size _ _ E) as Hl.
  pose proof (SerializeIdentityRotate_inv _ _ E) as (N & P1 & P2 & L1 & L2 & L3 & L4 & L5 & [key Hk] & Hb).
  unfold DeserializeIdentityRotate. rewrite Hl, Z.eqb_refl. cbn [negb].
  unfold IDENTITY_ROTATE_SIZE, IDENTITY_KEM_PACKAGE_SIZE, XWING_PUBLIC_KEY_SIZE in *.
  assert (Hop : mkIdentityRotate (rot_account_id op)
      (mkPublicKey RECOVERY_ROOT (arr_of 32 (subspan l 32 32)) (subspan l 64 1952))
      (mkPublicKey AUTHORIZATION (arr_of 32 (subspan l 2016 32)) (subspan l 2048 1312))
      (arr_of 1218 (subspan l 3360 1218)) (le_val (subspan l 4578 8)) (le_val (subspan l 4586 8))
      (read_signature l 4594 3309) (read_signature l 7967 3309) (read_signature l 11340 2420) = op).
  { rewrite Hb. unfold WritePublic, WriteSignature, read_signature. repeat rewrite <- app_assoc. cut.
    rewrite !arr_of_arr, !le_val_u64 by done.
    destruct op as [? [] [] ? ? ? [] [] []]. cbn in *. by subst. }
  assert (Ha : AccountId_FromBytes (subspan l 0 32) = Some (rot_account_id op)).
  { rewrite Hb. cut. by rewrite AccountId_FromBytes_arr, N. }
  rewrite Ha, Hop, E. replace (arr_of 1218 (subspan l 3360 1218)) with (new_kem_package op) by (by rewrite <- Hop).
  by rewrite Hk.
Qed.
Lemma IdentityRotate_encode_decode op l : DeserializeIdentityRotate l = Some op ->
  SerializeIdentityRotate op = Some l /\ rotate_wf op.
Proof.
  intros E. unfold DeserializeIdentityRotate in E. walk E. some_inj E. guards. rename Hif1 into Es.
  unfold IDENTITY_ROTATE_SIZE, IDENTITY_KEM_PACKAGE_SIZE, XWING_PUBLIC_KEY_SIZE in *.
  pose proof Es as (_ & _ & _ & _ & _ & _ & _ & _ & _ & Hb)%SerializeIdentityRotate_inv.
  apply AccountId_FromBytes_inv in Hopt as [E1 N1].
  split; [|split; apply subspan_u64; simpl in *; lia]. rewrite Es. f_equal. rewrite Hb.
  cbn [rot_account_id new_recovery_key new_authorization_key new_kem_package rot_nonce rot_key_epoch old_recovery_signature
    new_recovery_pop new_authorization_pop].
  unfold WritePublic, WriteSignature, read_signature. cbn [pk_ed25519 pk_ml_dsa sig_ed25519 sig_ml_dsa].
  rewrite <- E1, !(le_bytes_subspan _ _ 8) by (simpl in *; lia).
  rewrite !(arr_of_subspan 32), !(arr_of_subspan 64), !(arr_of_subspan 1218) by (simpl in *; lia).
  repeat rewrite <- app_assoc. glue. apply subspan_whole; simpl in *; lia.
Qed.

(** ** Operations *)

(** The fields of an operation are values of their C++ types; a payout binding
    carries a signature of the size of its algorithm. *)
Definition operation_typed (operation : ProtocolOperation) : Prop :=
  match operation with
  | OpAccountCreate op => work_wf (ac_work op)
  | OpPayment op => auth_wf (pay_authorization op) /\ is_u64 (pay_amount (payment op))
  | OpIdentityRotate op => rotate_wf op
  | OpSystemLock op => auth_wf (lock_authorization op) /\ is_u64 (lock_amount (lock op))
  | OpNameCommit op => auth_wf (nc_authorization op)
  | OpNameReveal op => auth_wf (nv_authorization op) /\ claim_work_wf (nr_work (nv_reveal op))
  | OpRootPublication op => auth_wf (rp_authorization op) /\ publication_wf (publication op)
  | OpRevokePublication op => auth_wf (rev_authorization op)
  | OpStorageLease op => auth_wf (lease_authorization op) /\ is_u32 (lease_periods (lease op))
  | OpStorageSettlement op => settlement_wf op
  end.

(** The body behind the kind byte. *)
Definition operation_body (operation : ProtocolOperation) : outcome (option bytes) :=
  match operation with
  | OpAccountCreate op => Ret (SerializeAccountCreateOp op)
  | OpPayment op => SerializePayment op
  | OpIdentityRotate op => Ret (SerializeIdentityRotate op)
  | OpSystemLock op => SerializeSystemLock op
  | OpNameCommit op => SerializeNameCommit op
  | OpNameReveal op => SerializeNameReveal op
  | OpRootPublication op => SerializeRootPublicationOperation op
  | OpRevokePublication op => SerializeRevokePublicationOperation op
  | OpStorageLease op => SerializeStorageLeaseOperation op
  | OpStorageSettlement op => Ret (SerializeStorageSettlement op)
  end.
Definition operation_kind (operation : ProtocolOperation) : ProtocolOperationKind :=
  match operation with
  | OpAccountCreate _ => ACCOUNT_CREATE | OpPayment _ => PAYMENT | OpIdentityRotate _ => IDENTITY_ROTATE
  | OpSystemLock _ => SYSTEM_LOCK | OpNameCommit _ => NAME_COMMIT | OpNameReveal _ => NAME_REVEAL
  | OpRootPublication _ => ROOT_PUBLICATION | OpRevokePublication _ => REVOKE_PUBLICATION
  | OpStorageLease _ => STORAGE_LEASE | OpStorageSettlement _ => STORAGE_SETTLEMENT
  end.
Lemma SerializeProtocolOperation_inv operation l : SerializeProtocolOperation operation = Ret (Some l) ->
  exists b, operation_body operation = Ret (Some b) /\ l = TaggedOperationBytes (operation_kind operation) b /\
    (operation_kind operation = ROOT_PUBLICATION -> zlen b + 1 <= ROOT_PUBLICATION_MAX_OPERATION_BYTES).
Proof.
  intros E. unfold SerializeProtocolOperation, tagged in E.
  destruct operation; cbn [operation_body operation_kind]; walk E; injection E as <-; guards; eexists;
    (split; [first [eassumption|by f_equal|done]|split; [done|by intros ?]]).
Qed.
Lemma operation_kind_of_value k : operation_kind_of (operation_kind_value k) = Some k.
Proof. by destruct k. Qed.
Lemma tagged_parts k b : let l := TaggedOperationBytes k b in
  zlen l = 1 + zlen b /\ subspan l 1 (zlen l - 1) = b /\ operation_kind_of (le_val (subspan l 0 1)) = Some k.
Proof.
  cbv zeta. unfold TaggedOperationBytes. assert (Hl : zlen (le_bytes 1 (operation_kind_value k) ++ b) = 1 + zlen b) by len.
  rewrite Hl. split; [done|]. split; [cut; done|]. cut. rewrite le_val_u8 by (by destruct k). apply operation_kind_of_value.
Qed.

Lemma authorized_size {P} (ser : P -> option bytes) commit kind auth p b n : 
  (forall l, ser p = Some l -> zlen l = n) -> SerializeAuthorizedPayload auth kind p commit ser = Ret (Some b) ->
  zlen b = IDENTITY_OPERATION_AUTH_SIZE + n.
Proof.
  intros Hn (a & x & Ea & Ep & -> & _)%authorized_inv. rewrite zlen_app, (SerializeAuthorization_size _ _ _ Ea), (Hn _ Ep). lia.
Qed.
Lemma authorized_min {P} (ser : P -> option bytes) commit kind auth p b :
  SerializeAuthorizedPayload auth kind p commit ser = Ret (Some b) -> IDENTITY_OPERATION_AUTH_SIZE <= zlen b.
Proof.
  intros (a & x & Ea & Ep & -> & _)%authorized_inv. rewrite zlen_app, (SerializeAuthorization_size _ _ _ Ea).
  pose proof (zlen_nonneg x). lia.
Qed.

Lemma SerializeNameCommitPayload_size p l : SerializeNameCommitPayload p = Some l -> zlen l = 32.
Proof. by intros [_ ?]%NameCommitPayload_decode_encode. Qed.
Lemma SerializePaymentPayload_size p l : SerializePaymentPayload p = Some l -> zlen l = 40.
Proof. unfold SerializePaymentPayload. intros E. walk E. some_inj E. len. Qed.
Lemma SerializeSystemLockPayload_size p l : SerializeSystemLockPayload p = Some l -> zlen l = 8.
Proof. unfold SerializeSystemLockPayload. intros E. walk E. some_inj E. len. Qed.
Lemma SerializeRevokePayload_size p l : SerializeRevokePublicationPayload p = Some l -> zlen l = 32.
Proof. by intros [_ ?]%RevokePayload_decode_encode. Qed.
Lemma SerializeStorageLeasePayload_size p l : SerializeStorageLeasePayload p = Some l -> zlen l = 36.
Proof. unfold SerializeStorageLeasePayload. intros E. walk E. some_inj E. len. Qed.
Lemma SerializeStorageSettlement_size op l : SerializeStorageSettlement op = Some l -> zlen l <= MAX_OPERATION_PAYLOAD_BYTES - 1.
Proof.
  unfold SerializeStorageSettlement. intros E. walk E. some_inj E. guards.
  apply SerializeSettlementBody_inv in Hopt as (_ & _ & Hl). unfold POA_SIGNATURE_SIZE in *. len.
Qed.

(** The decoder of a kind inverts the encoder of that kind. *)
Lemma authorized_fixed {P Op} (ser : P -> option bytes) deser wf `{!PayloadCodec ser deser wf} commit kind
    (build : IdentityOperationAuthorization -> P -> Op) auth p b n :
  (forall l, ser p = Some l -> zlen l = n) -> auth_wf auth -> wf p ->
  SerializeAuthorizedPayload auth kind p commit ser = Ret (Some b) ->
  zlen b = IDENTITY_OPERATION_AUTH_SIZE + n /\
  DeserializeAuthorizedPayload b kind deser commit build = Ret (Some (build auth p)).
Proof. intros Hn Ha Hp E. split; [by eapply authorized_size|by eapply authorized_decode]. Qed.

(** The sizes of the source, evaluated. *)
Ltac operation_sizes :=
  unfold AUTHORIZED_PAYMENT_SIZE, AUTHORIZED_SYSTEM_LOCK_SIZE, AUTHORIZED_NAME_COMMIT_SIZE, AUTHORIZED_NAME_REVEAL_SIZE,
    AUTHORIZED_REVOKE_PUBLICATION_SIZE, AUTHORIZED_STORAGE_LEASE_SIZE, PAYMENT_PAYLOAD_SIZE, SYSTEM_LOCK_PAYLOAD_SIZE,
    NAME_COMMIT_PAYLOAD_SIZE, NAME_REVEAL_PAYLOAD_SIZE, REVOKE_PUBLICATION_PAYLOAD_SIZE, STORAGE_LEASE_PAYLOAD_SIZE,
    NAME_CLAIM_WORK_SIZE, IDENTITY_OPERATION_AUTH_SIZE in *.
(** Finishes a kind of fixed size from its [authorized_fixed]. *)
Ltac fixed_kind H :=
  let Hz := fresh "Hz" in let Hd := fresh "Hd" in
  destruct H as [Hz Hd]; operation_sizes; rewrite Hz; cbn [Z.add Z.eqb Z.ltb Z.compare Pos.add Pos.succ Pos.add_carry Pos.eqb Pos.compare Pos.compare_cont negb];
  rewrite Hd; simpl; by match goal with op : _ |- Ret (Some (_ (_ _ (_ ?op)))) = _ => destruct op end.

Lemma operation_decode operation l : operation_typed operation ->
  SerializeProtocolOperation operation = Ret (Some l) ->
  DeserializeProtocolOperation l = Ret (Some operation).
Proof.
  intros Ht (b & Hb & -> & Hmax)%SerializeProtocolOperation_inv.
  destruct (tagged_parts (operation_kind operation) b) as (L & B & K). unfold DeserializeProtocolOperation.
  pose proof (zlen_nonneg b). rewrite B, K, L, (proj2 (Z.eqb_neq _ 0)) by lia.
  destruct operation as [op|op|op|op|op|op|op|op|op|op]; cbn [operation_typed operation_body operation_kind] in *.
  - injection Hb as Hb. rewrite (SerializeAccountCreateOp_size _ _ Hb), Z.eqb_refl. cbn [negb].
    by rewrite (Deserialize_SerializeAccountCreateOp _ _ Ht Hb).
  - unfold DeserializePayment. fixed_kind (authorized_fixed SerializePaymentPayload DeserializePaymentPayload _ payment_commitment
      KIND_PAYMENT mkAuthorizedPayment _ _ _ 40 (SerializePaymentPayload_size _) (proj1 Ht) (proj2 Ht) Hb).
  - injection Hb as Hb. rewrite (SerializeIdentityRotate_size _ _ Hb), Z.eqb_refl. cbn [negb].
    by rewrite (IdentityRotate_decode_encode _ _ Ht Hb).
  - unfold DeserializeSystemLock. fixed_kind (authorized_fixed SerializeSystemLockPayload DeserializeSystemLockPayload _
      system_lock_commitment KIND_SYSTEM_LOCK mkAuthorizedSystemLock _ _ _ 8 (SerializeSystemLockPayload_size _) (proj1 Ht) (proj2 Ht) Hb).
  - unfold DeserializeNameCommit. fixed_kind (authorized_fixed SerializeNameCommitPayload DeserializeNameCommitPayload _
      ComputeNameCommitPayloadCommitment KIND_NAME_COMMIT mkAuthorizedNameCommit _ _ _ 32 (SerializeNameCommitPayload_size _) Ht I Hb).
  - unfold DeserializeNameReveal. fixed_kind (authorized_fixed SerializeNameRevealPayload DeserializeNameRevealPayload _
      ComputeNameRevealPayloadCommitment KIND_NAME_REVEAL mkAuthorizedNameReveal _ _ _ 177 (zlen_SerializeNameRevealPayload _)
      (proj1 Ht) (proj2 Ht) Hb).
  - unfold DeserializeRootPublicationOperation. pose proof (authorized_min _ _ _ _ _ _ Hb) as Hmin. specialize (Hmax eq_refl).
    rewrite !(proj2 (Z.ltb_ge _ _)) by lia. cbn [orb].
    rewrite (authorized_decode (ser := SerializeRootPublication) _ _ mkAuthorizedRootPublication _ _ _ (proj1 Ht) (proj2 Ht) Hb).
    by destruct op.
  - unfold DeserializeRevokePublicationOperation. fixed_kind (authorized_fixed SerializeRevokePublicationPayload
      DeserializeRevokePublicationPayload _ revoke_commitment KIND_REVOKE_PUBLICATION mkAuthorizedRevokePublication _ _ _ 32
      (SerializeRevokePayload_size _) Ht I Hb).
  - unfold DeserializeStorageLeaseOperation. fixed_kind (authorized_fixed SerializeStorageLeasePayload DeserializeStorageLeasePayload _
      lease_commitment KIND_STORAGE_LEASE mkAuthorizedStorageLease _ _ _ 36 (SerializeStorageLeasePayload_size _) (proj1 Ht) (proj2 Ht) Hb).
  - injection Hb as Hb. pose proof (SerializeStorageSettlement_size _ _ Hb). rewrite (proj2 (Z.ltb_ge _ _)) by lia.
    by rewrite (settlement_decode _ _ Ht Hb).
Qed.

Lemma operation_kind_of_inv t k : operation_kind_of t = Some k -> t = operation_kind_value k.
Proof. unfold operation_kind_of. intros E. walk E; some_inj E; by guards. Qed.
Lemma tagged_rebuild k l : zlen l <> 0 -> operation_kind_of (le_val (subspan l 0 1)) = Some k ->
  TaggedOperationBytes k (subspan l 1 (zlen l - 1)) = l.
Proof.
  intros Hl Hk%operation_kind_of_inv. pose proof (zlen_nonneg l). unfold TaggedOperationBytes.
  assert (Ht : le_bytes 1 (le_val (subspan l 0 1)) = subspan l 0 1) by (apply (le_bytes_subspan l 0 1); simpl; lia).
  rewrite <- Hk, Ht. glue. apply subspan_whole; lia.
Qed.
Lemma authorized_canonical {P Op} (ser : P -> option bytes) deser wf `{!PayloadCodec ser deser wf} commit kind
    (build : IdentityOperationAuthorization -> P -> Op) b (n : Z) (o : Op) : 0 <= n ->
  (if negb (zlen b =? IDENTITY_OPERATION_AUTH_SIZE + n) then Ret None
   else DeserializeAuthorizedPayload b kind deser commit build) = Ret (Some o) ->
  exists auth p, o = build auth p /\ auth_wf auth /\ wf p /\ SerializeAuthorizedPayload auth kind p commit ser = Ret (Some b).
Proof. intros Hn E. walk_step E. guards. eapply authorized_encode; [lia|done]. Qed.

(** What an accepted body of a kind is. *)
Definition body_canonical (b : bytes) (operation : ProtocolOperation) : Prop :=
  operation_body operation = Ret (Some b) /\ operation_typed operation.

Lemma wrap_op_inv {A} (build : A -> ProtocolOperation) m operation : wrap_op build m = Ret (Some operation) ->
  exists a, m = Ret (Some a) /\ operation = build a.
Proof. unfold wrap_op. intros E. walk_step E. destruct a as [a|]; [|done]. injection E as <-. eauto. Qed.

Lemma decoded_body l operation : DeserializeProtocolOperation l = Ret (Some operation) ->
  (forall op, operation = OpAccountCreate op -> IsNull (work_network_binding (ac_work op)) = false) ->
  zlen l <> 0 /\ operation_kind_of (le_val (subspan l 0 1)) = Some (operation_kind operation) /\
  body_canonical (subspan l 1 (zlen l - 1)) operation /\
  (operation_kind operation = ROOT_PUBLICATION -> zlen l <= ROOT_PUBLICATION_MAX_OPERATION_BYTES).
Proof.
  intros E Hac. unfold DeserializeProtocolOperation in E. walk_step E. apply Z.eqb_neq in Hif. cbv zeta in E.
  destruct (operation_kind_of _) as [k|] eqn:Hk in E; [|done]. split; [done|]. rewrite Hk. set (b := subspan l 1 (zlen l - 1)) in *.
  assert (Hshape : k = operation_kind operation /\ body_canonical b operation /\
    (k = ROOT_PUBLICATION -> zlen l <= ROOT_PUBLICATION_MAX_OPERATION_BYTES)); [|destruct Hshape as (<- & ? & ?); by split].
  destruct k; walk_step E; apply wrap_op_inv in E as (op & E & ->);
    (split; [done|]); (split; [|intros ?; first [done|by guards]]).
  - injection E as E. destruct (Serialize_DeserializeAccountCreateOp _ _ E (Hac _ eq_refl)) as [Es W]. split; [by cbn; f_equal|done].
  - apply (authorized_canonical SerializePaymentPayload DeserializePaymentPayload _ _ _ _ _ 40) in E as (auth & p & -> & Wa & Wp & Es); [|done].
    by split.
  - injection E as E. destruct (IdentityRotate_encode_decode _ _ E) as [Es W]. split; [by cbn; f_equal|done].
  - apply (authorized_canonical SerializeSystemLockPayload DeserializeSystemLockPayload _ _ _ _ _ 8) in E as (auth & p & -> & Wa & Wp & Es); [|done].
    by split.
  - apply (authorized_canonical SerializeNameCommitPayload DeserializeNameCommitPayload _ _ _ _ _ 32) in E as (auth & p & -> & Wa & Wp & Es); [|done].
    by split.
  - apply (authorized_canonical SerializeNameRevealPayload DeserializeNameRevealPayload _ _ _ _ _ 177) in E as (auth & p & -> & Wa & Wp & Es); [|done].
    by split.
  - unfold DeserializeRootPublicationOperation in E. walk_step E. guards.
    apply (authorized_encode (ser := SerializeRootPublication)) in E as (auth & p & -> & Wa & Wp & Es); [|done]. by split.
  - apply (authorized_canonical SerializeRevokePublicationPayload DeserializeRevokePublicationPayload _ _ _ _ _ 32) in E as (auth & p & -> & Wa & Wp & Es); [|done].
    by split.
  - apply (authorized_canonical SerializeStorageLeasePayload DeserializeStorageLeasePayload _ _ _ _ _ 36) in E as (auth & p & -> & Wa & Wp & Es); [|done].
    by split.
  - injection E as E. destruct (settlement_encode _ _ E) as [Es W]. split; [by cbn; f_equal|done].
Qed.

(** An account creation whose proof of work names no network is decoded but
    never encoded. *)
Definition names_network (operation : ProtocolOperation) : Prop :=
  forall op, operation = OpAccountCreate op -> IsNull (work_network_binding (ac_work op)) = false.

Lemma operation_encode l operation : DeserializeProtocolOperation l = Ret (Some operation) ->
  names_network operation ->
  SerializeProtocolOperation operation = Ret (Some l) /\ operation_typed operation.
Proof.
  intros E Hac. destruct (decoded_body _ _ E Hac) as (Hl & Hk & [Hb Ht] & Hmax). split; [|done].
  pose proof (tagged_rebuild _ _ Hl Hk) as Hr. rewrite <- Hr. pose proof (zlen_nonneg l).
  destruct operation; cbn [operation_body operation_kind] in *; unfold SerializeProtocolOperation, tagged; rewrite Hb; try done;
    cbn [outcome_bind].
  specialize (Hmax eq_refl). rewrite (proj2 (Z.ltb_ge _ _)); [done|]. rewrite zlen_subspan; lia.
Qed.

(** C30: every operation that can be encoded is decoded to itself, whatever its
    kind. *)
Theorem ProtocolOperation_roundtrip operation l : operation_typed operation ->
  SerializeProtocolOperation operation = Ret (Some l) ->
  DeserializeProtocolOperation l = Ret (Some operation).
Proof. apply operation_decode. Qed.

(** C31: the encoding is canonical: a byte string that decodes to an operation
    is the one that operation encodes to, so no operation has two ids. The
    exception is an account creation whose proof of work names no network,
    which is decoded but never encoded. *)
Theorem ProtocolOperation_canonical l operation : DeserializeProtocolOperation l = Ret (Some operation) ->
  (forall op, operation = OpAccountCreate op -> IsNull (work_network_binding (ac_work op)) = false) ->
  SerializeProtocolOperation operation = Ret (Some l) /\ operation_typed operation.
Proof. apply operation_encode. Qed.
End operation_codec.
