(* ===== verification/State.v ===== *)
(** * The ledger state

    [src/src/cybou/state.h] and the first half of [state.cpp]: accounts,
    genesis allocations, publications, storage leases with their funded terms,
    the fee destination, the money supply and the validation of a state;
    [ComputeAcceptedStorageCapacity] of [storage_lease.cpp], which the
    validation uses. *)

From S2P Require Import Prelude.
From S2P Require Import Bytes.
From S2P Require Import Codec.
From S2P Require Import Params.
From S2P Require Import StorageEconomy.
From S2P Require Import Crypto.
From S2P Require Import Identity.
From S2P Require Import IdentityCodec.
From S2P Require Import Names.
From S2P Require Import Merkle.

(** ** Data *)

Record AccountState : Type := mkAccount {
  balance : Z;
  system_balance : Z;
  onboarding_system_balance : Z;
  creation_height : Z;
  creation_epoch : Z;
}.
Record GenesisAllocation : Type := mkAllocation {
  alloc_balance : Z;
  alloc_label : bytes;
  claimed_by : option AccountId;
}.
Definition MAX_GENESIS_ALLOCATIONS : Z := 16.

Record PublicationRecord : Type := mkPublicationRecord {
  pr_owner : AccountId;
  pr_chunk_authorization_root : ChunkId;
  pr_chunk_count : Z;
  pr_height : Z;
}.

Record StorageAcceptedBinding : Type := mkAcceptedBinding {
  ab_storage_id : arr 32;
  ab_payout_account : AccountId;
  ab_key_epoch : Z;
  ab_accepted_height : Z;
}.
Record StorageAssignmentDeclaration : Type := mkDeclaration {
  ad_operation_id : Hash256;
  ad_epoch : Z;
  ad_height : Z;
  ad_eligible : list StorageAcceptedBinding;
}.
Record StorageAssignedUnits : Type := mkAssignedUnits {
  au_slot : Z;
  au_storage_id : arr 32;
  au_payout_account : AccountId;
  au_units : Z;
}.
Record StorageAcceptedAssignment : Type := mkAcceptedAssignment {
  aa_operation_id : Hash256;
  aa_preparation_id : Hash256;
  aa_seed : Hash256;
  aa_epoch : Z;
  aa_effective_period : Z;
  aa_allocations : list StorageAssignedUnits;
}.
Record StorageServicePayment : Type := mkServicePayment {
  sp_slot : Z;
  sp_storage_id : arr 32;
  sp_payout_account : AccountId;
  sp_verified_unit_seconds : Z;
  sp_paid : Z;
  sp_closed_epoch_capacity : Z;
}.
Record StorageFundedTerm : Type := mkFundedTerm {
  ft_funding_operation_id : Hash256;
  ft_first_period : Z;
  ft_end_period : Z;
  ft_rate : Z;
  ft_period_seconds : Z;
  ft_replica_share : Z;
  ft_contracted_unit_seconds : Z;
  ft_initial_onboarding : Z;
  ft_initial_locked : Z;
  ft_paid_onboarding : Z;
  ft_paid_locked : Z;
  ft_next_assignment_epoch : Z;
  ft_declarations : list StorageAssignmentDeclaration;
  ft_assignments : list StorageAcceptedAssignment;
  ft_service_payments : list StorageServicePayment;
  ft_refunded_onboarding : Z;
  ft_refunded_locked : Z;
}.
Record StorageLeaseRecord : Type := mkLease {
  lr_payer : AccountId;
  lr_units : Z;
  lr_replicas : Z;
  lr_first_period : Z;
  lr_end_period : Z;
  lr_escrow_onboarding : Z;
  lr_escrow_locked : Z;
  lr_funded_terms : list StorageFundedTerm;
}.
Definition MAX_STORAGE_LEASE_REPLICAS : Z := 16.
Record StorageSettlementCursor : Type := mkCursor {
  next_period : Z;
  next_period_start_utc : Z;
}.
Record CybouState : Type := mkState {
  accounts : gmap AccountId AccountState;
  identities : IdentityRegistry;
  st_names : NameRegistry;
  genesis_allocations : gmap IdentityKeyId GenesisAllocation;
  publications : gmap Hash256 PublicationRecord;
  settlement : StorageSettlementCursor;
  leases : gmap Hash256 StorageLeaseRecord;
}.

(** Assignments to one member. *)
Definition set_accounts (s : CybouState) v := mkState v (identities s) (st_names s) (genesis_allocations s) (publications s) (settlement s) (leases s).
Definition set_identities (s : CybouState) v := mkState (accounts s) v (st_names s) (genesis_allocations s) (publications s) (settlement s) (leases s).
Definition set_names (s : CybouState) v := mkState (accounts s) (identities s) v (genesis_allocations s) (publications s) (settlement s) (leases s).
Definition set_allocations (s : CybouState) v := mkState (accounts s) (identities s) (st_names s) v (publications s) (settlement s) (leases s).
Definition set_publications (s : CybouState) v := mkState (accounts s) (identities s) (st_names s) (genesis_allocations s) v (settlement s) (leases s).
Definition set_settlement (s : CybouState) v := mkState (accounts s) (identities s) (st_names s) (genesis_allocations s) (publications s) v (leases s).
Definition set_leases (s : CybouState) v := mkState (accounts s) (identities s) (st_names s) (genesis_allocations s) (publications s) (settlement s) v.
Definition set_account (s : CybouState) (id : AccountId) (a : AccountState) := set_accounts s (<[id := a]> (accounts s)).

Definition with_balance (a : AccountState) v := mkAccount v (system_balance a) (onboarding_system_balance a) (creation_height a) (creation_epoch a).
Definition with_system_balance (a : AccountState) v := mkAccount (balance a) v (onboarding_system_balance a) (creation_height a) (creation_epoch a).
Definition with_onboarding (a : AccountState) v := mkAccount (balance a) (system_balance a) v (creation_height a) (creation_epoch a).

(** ** The fee destination

    [FindCentralAuthorityAllocation] returns a pointer into the map: here the
    key with the entry. [CentralAuthorityFeeBalance] points at the balance of
    that entry until it is claimed and at the claimant's balance afterwards:
    [FeeSlot] is where it points. *)

Fixpoint find_authority (result : option (IdentityKeyId * GenesisAllocation))
    (l : list (IdentityKeyId * GenesisAllocation)) : option (IdentityKeyId * GenesisAllocation) :=
  match l with
  | [] => result
  | (id, allocation) :: rest =>
      if negb (bool_decide (alloc_label allocation = CENTRAL_AUTHORITY_NAME)) then find_authority result rest
      else match result with Some _ => None | None => find_authority (Some (id, allocation)) rest end
  end.
Definition FindCentralAuthorityAllocation (s : CybouState) : option (IdentityKeyId * GenesisAllocation) :=
  find_authority None (entries (genesis_allocations s)).

Inductive FeeSlot : Type := FeeAllocation (id : IdentityKeyId) | FeeAccount (id : AccountId).

Definition CentralAuthorityFeeBalance (s : CybouState) : option FeeSlot :=
  let? (id, allocation) := FindCentralAuthorityAllocation s else None ;;
  let? owner := claimed_by allocation else Some (FeeAllocation id) ;;
  return_if negb (bool_decide (is_Some (accounts s !! owner))) || negb (bool_decide (is_Some (Find (identities s) owner)))
    with None ;;
  return_if negb (bool_decide (names (st_names s) !! alloc_label allocation = Some owner))
    || negb (bool_decide (account_names (st_names s) !! owner = Some (alloc_label allocation))) with None ;;
  Some (FeeAccount owner).

(** Dereferencing the pointer, and assigning through it. *)
Definition fee_read (s : CybouState) (slot : FeeSlot) : option Z :=
  match slot with
  | FeeAllocation id => alloc_balance <$> genesis_allocations s !! id
  | FeeAccount id => balance <$> accounts s !! id
  end.
Definition fee_write (s : CybouState) (slot : FeeSlot) (v : Z) : CybouState :=
  match slot with
  | FeeAllocation id =>
      set_allocations s (alter (fun a => mkAllocation v (alloc_label a) (claimed_by a)) id (genesis_allocations s))
  | FeeAccount id => set_accounts s (alter (fun a => with_balance a v) id (accounts s))
  end.

(** [TreasuryBalance] is the same pointer. *)
Definition TreasuryBalance (s : CybouState) : option FeeSlot := CentralAuthorityFeeBalance s.

Definition CanCreditCentralAuthorityFee (s : CybouState) (fee : Z) : bool :=
  match CentralAuthorityFeeBalance s with
  | Some slot => match fee_read s slot with Some b => b <=? MAX64 ⊖ fee | None => false end
  | None => false
  end.
Definition CreditCentralAuthorityFee (s : CybouState) (fee : Z) : bool * CybouState :=
  return_if negb (CanCreditCentralAuthorityFee s fee) with (false, s) ;;
  let? slot := CentralAuthorityFeeBalance s else (false, s) ;;
  let? b := fee_read s slot else (false, s) ;;
  (true, fee_write s slot (b ⊕ fee)).

(** [DebitSystemBalance]: the onboarding part is spent first; returns it with
    the account. *)
Definition DebitSystemBalance (account : AccountState) (amount : Z) : Z * AccountState :=
  let onboarding := Z.min (onboarding_system_balance account) amount in
  (onboarding, mkAccount (balance account) (system_balance account ⊖ amount)
                 (onboarding_system_balance account ⊖ onboarding) (creation_height account) (creation_epoch account)).

(** ** The money supply *)

Definition add_total (total : option Z) (value : Z) : option Z :=
  let? t := total else None ;;
  return_if MAX64 ⊖ t <=? value with None ;;
  Some (t ⊕ value).
Definition TotalCybou (s : CybouState) : Z :=
  let total := foldl (fun t kv => match claimed_by kv.2 with Some _ => t | None => add_total t (alloc_balance kv.2) end)
    (Some 0) (entries (genesis_allocations s)) in
  let total := foldl (fun t kv => add_total (add_total t (balance kv.2)) (system_balance kv.2))
    total (entries (accounts s)) in
  let total := foldl (fun t kv => add_total (add_total t (lr_escrow_onboarding kv.2)) (lr_escrow_locked kv.2))
    total (entries (leases s)) in
  default MAX64 total.

(** ** Accepted capacity

    [ComputeAcceptedStorageCapacity]: the unit-seconds a provider can have
    served up to a period, over the assignment epochs that name it. *)

Fixpoint find_units (slot : Z) (storage_id : arr 32) (payout_account : AccountId) (found : option Z)
    (l : list StorageAssignedUnits) : option Z :=
  match l with
  | [] => Some (default 0 found)
  | a :: rest =>
      if negb (au_slot a =? slot) || negb (bool_decide (au_storage_id a = storage_id))
         || negb (bool_decide (au_payout_account a = payout_account))
      then find_units slot storage_id payout_account found rest
      else return_if bool_decide (is_Some found) || (au_units a =? 0) with None ;;
           find_units slot storage_id payout_account (Some (au_units a)) rest
  end.
Fixpoint capacity_loop (term : StorageFundedTerm) (slot : Z) (storage_id : arr 32) (payout_account : AccountId)
    (end_ : Z) (prior : option StorageAcceptedAssignment) (capacity : Z) (l : list StorageAcceptedAssignment) : option Z :=
  match l with
  | [] => Some capacity
  | epoch :: rest =>
      return_if (aa_epoch epoch =? 0) || (aa_effective_period epoch <? ft_first_period term)
        || (ft_end_period term <=? aa_effective_period epoch)
        || match prior with
           | Some p => (aa_epoch epoch <=? aa_epoch p) || (aa_effective_period epoch <? aa_effective_period p)
           | None => false
           end with None ;;
      let? units := find_units slot storage_id payout_account None (aa_allocations epoch) else None ;;
      let epoch_end := match rest with next :: _ => Z.min end_ (aa_effective_period next) | [] => end_ end in
      if (epoch_end <=? aa_effective_period epoch) || (units =? 0)
      then capacity_loop term slot storage_id payout_account end_ (Some epoch) capacity rest
      else
        let? seconds := CheckedMul (epoch_end ⊖ aa_effective_period epoch) (ft_period_seconds term) else None ;;
        let? increment := CheckedMul seconds units else None ;;
        return_if MAX64 ⊖ capacity <? increment with None ;;
        capacity_loop term slot storage_id payout_account end_ (Some epoch) (capacity ⊕ increment) rest
  end.
Definition ComputeAcceptedStorageCapacity (term : StorageFundedTerm) (slot : Z) (storage_id : arr 32)
    (payout_account : AccountId) (through_period closure_period : Z) : option Z :=
  return_if (ft_period_seconds term =? 0) || (ft_end_period term <=? ft_first_period term)
    || IsNull storage_id || IsNull payout_account
    || (through_period <? ft_first_period term) || (closure_period <? ft_first_period term) with None ;;
  let end_ := Z.min (Z.min through_period closure_period) (ft_end_period term) in
  let? capacity := capacity_loop term slot storage_id payout_account end_ None 0 (ft_assignments term) else None ;;
  return_if ft_contracted_unit_seconds term <? capacity with None ;;
  Some capacity.

(** ** Validation

    [ValidateCybouState], one definition per loop of the source; the sets and
    maps a loop fills are its arguments and results. [None] stands for the
    error the loop returns, unless it has several. *)

Inductive StateValidationError : Type :=
| SV_NONE | SV_ACCOUNT_LIMIT_EXCEEDED | SV_ACCOUNT_IDENTITY_COUNT_MISMATCH | SV_MISSING_IDENTITY
| SV_DUPLICATE_RECOVERY_BINDING | SV_BALANCE_OVERFLOW | SV_INVALID_NAME_REGISTRY
| SV_INVALID_RESOURCE_USAGE | SV_INVALID_STORAGE_LEASE.
#[export] Instance StateValidationError_eq_dec : EqDecision StateValidationError.
Proof. solve_decision. Defined.

Definition contains {K V} `{Countable K} (m : gmap K V) (k : K) : bool := bool_decide (is_Some (m !! k)).
(** [std::map::emplace] keeps an entry that is already there. *)
Definition emplace {K V} `{Countable K} (m : gmap K V) (k : K) (v : V) : gmap K V :=
  if contains m k then m else <[k := v]> m.

(** The order of [std::tie(slot, storage_id, payout_account)]. *)
Definition service_key : Type := Z * arr 32 * AccountId.
Definition service_key_lt (a b : service_key) : bool :=
  let '(s1, i1, p1) := a in let '(s2, i2, p2) := b in
  if s1 <? s2 then true else if s2 <? s1 then false
  else if alt i1 i2 then true else if alt i2 i1 then false else alt p1 p2.
Definition units_key (u : StorageAssignedUnits) : service_key := (au_slot u, au_storage_id u, au_payout_account u).
Definition payment_key (e : StorageServicePayment) : service_key := (sp_slot e, sp_storage_id e, sp_payout_account e).

Fixpoint validate_accounts (s : CybouState) (l : list (AccountId * AccountState)) : StateValidationError :=
  match l with
  | [] => SV_NONE
  | (id, account) :: rest =>
      return_if IsNull id || negb (bool_decide (is_Some (Find (identities s) id))) with SV_MISSING_IDENTITY ;;
      return_if system_balance account <? onboarding_system_balance account with SV_BALANCE_OVERFLOW ;;
      validate_accounts s rest
  end.

Fixpoint validate_allocations (s : CybouState) (labels : gset bytes) (claimed : gmap bytes AccountId)
    (l : list (IdentityKeyId * GenesisAllocation)) : option (gmap bytes AccountId) :=
  match l with
  | [] => Some claimed
  | (_, a) :: rest =>
      let validity := ValidateNameLabel (alloc_label a) in
      let named := negb (zlen (alloc_label a) =? 0) in
      return_if named && negb (bool_decide (validity = NV_NONE)) && negb (bool_decide (validity = NV_PROTECTED_NAME))
        with None ;;
      return_if named && bool_decide (alloc_label a ∈ labels) with None ;;
      let labels := if named then {[ alloc_label a ]} ∪ labels else labels in
      return_if match claimed_by a with Some c => negb (contains (accounts s) c) | None => false end with None ;;
      let claimed := match claimed_by a with
                     | Some c => if named then emplace claimed (alloc_label a) c else claimed
                     | None => claimed
                     end in
      validate_allocations s labels claimed rest
  end.

Fixpoint validate_names (s : CybouState) (claimed : gmap bytes AccountId) (l : list (bytes * AccountId)) : bool :=
  match l with
  | [] => true
  | (label, acc) :: rest =>
      let validity := ValidateNameLabel label in
      return_if negb (bool_decide (validity = NV_NONE))
        && negb (bool_decide (validity = NV_PROTECTED_NAME) && bool_decide (claimed !! label = Some acc)) with false ;;
      return_if negb (bool_decide (account_names (st_names s) !! acc = Some label)) with false ;;
      return_if negb (contains (accounts s) acc) with false ;;
      validate_names s claimed rest
  end.
Fixpoint validate_commits (s : CybouState) (committing : gset AccountId) (l : list (Hash256 * NameCommitRecord)) : bool :=
  match l with
  | [] => true
  | (commit, record) :: rest =>
      return_if IsNull commit || negb (contains (accounts s) (cr_account_id record)) with false ;;
      return_if bool_decide (cr_account_id record ∈ committing) with false ;;
      validate_commits s ({[ cr_account_id record ]} ∪ committing) rest
  end.
Definition validate_publications (s : CybouState) (l : list (Hash256 * PublicationRecord)) : bool :=
  forallb (fun kv => negb (IsNull kv.1 || (pr_chunk_count kv.2 =? 0) || negb (contains (accounts s) (pr_owner kv.2)))) l.

(** *** Declarations and assignments of a term *)

Fixpoint validate_eligible (s : CybouState) (payer : AccountId) (height : Z) (prior : option StorageAcceptedBinding)
    (payouts : gset AccountId) (l : list StorageAcceptedBinding) : option (gset AccountId) :=
  match l with
  | [] => Some payouts
  | e :: rest =>
      return_if IsNull (ab_storage_id e) || bool_decide (ab_payout_account e = payer)
        || negb (contains (accounts s) (ab_payout_account e)) with None ;;
      (* the identity exists: every account has one, checked above *)
      let? record := Find (identities s) (ab_payout_account e) else None ;;
      return_if (ir_key_epoch record <? ab_key_epoch e) || negb (ab_accepted_height e =? height)
        || match prior with Some p => negb (alt (ab_storage_id p) (ab_storage_id e)) | None => false end with None ;;
      validate_eligible s payer height (Some e) ({[ ab_payout_account e ]} ∪ payouts) rest
  end.
Fixpoint validate_declarations (s : CybouState) (lease : StorageLeaseRecord) (term : StorageFundedTerm)
    (op_ids declaration_ids : gset Hash256) (prior_epoch prior_height : Z) (l : list StorageAssignmentDeclaration)
    : option (gset Hash256 * Z) :=
  match l with
  | [] => Some (op_ids, prior_epoch)
  | d :: rest =>
      return_if IsNull (ad_operation_id d) || bool_decide (ad_operation_id d ∈ op_ids)
        || bool_decide (ad_operation_id d ∈ declaration_ids) || (ad_epoch d <=? prior_epoch)
        || (ft_next_assignment_epoch term <=? ad_epoch d) || (ad_height d =? 0) || (ad_height d <? prior_height)
        || (2 <? lr_replicas lease) || (zlen (ad_eligible d) =? 0) || (20 <? zlen (ad_eligible d)) with None ;;
      let? payouts := validate_eligible s (lr_payer lease) (ad_height d) None ∅ (ad_eligible d) else None ;;
      return_if Z.of_nat (size payouts) <? lr_replicas lease with None ;;
      validate_declarations s lease term ({[ ad_operation_id d ]} ∪ op_ids) ({[ ad_operation_id d ]} ∪ declaration_ids)
        (ad_epoch d) (ad_height d) rest
  end.

(** [sums[u.slot] += u.units]; the slot is in range, checked just before. *)
Definition add_at (l : list Z) (slot v : Z) (wrap : Z -> Z) : list Z :=
  alter (fun x => wrap (x + v)) (Z.to_nat slot) l.

Fixpoint validate_allocated (lease : StorageLeaseRecord) (d : StorageAssignmentDeclaration)
    (prior : option StorageAssignedUnits) (sums : list Z) (l : list StorageAssignedUnits) : option (list Z) :=
  match l with
  | [] => Some sums
  | u :: rest =>
      return_if (lr_replicas lease <=? au_slot u) || (au_units u =? 0) || (lr_units lease <? au_units u)
        || match prior with Some p => negb (service_key_lt (units_key p) (units_key u)) | None => false end
        || negb (existsb (fun e => bool_decide (ab_storage_id e = au_storage_id u)
                                   && bool_decide (ab_payout_account e = au_payout_account u)) (ad_eligible d))
        with None ;;
      validate_allocated lease d (Some u) (add_at sums (au_slot u) (au_units u) wrap64) rest
  end.
Definition find_declaration (id : Hash256) (l : list StorageAssignmentDeclaration) : option StorageAssignmentDeclaration :=
  List.find (fun d => bool_decide (ad_operation_id d = id)) l.
Fixpoint validate_assignments (s : CybouState) (lease : StorageLeaseRecord) (term : StorageFundedTerm)
    (op_ids activation_ids : gset Hash256) (prior_epoch prior_period : Z) (l : list StorageAcceptedAssignment)
    : option (gset Hash256) :=
  match l with
  | [] => Some op_ids
  | a :: rest =>
      return_if IsNull (aa_operation_id a) || IsNull (aa_seed a) || bool_decide (aa_operation_id a ∈ op_ids)
        || bool_decide (aa_operation_id a ∈ activation_ids) with None ;;
      let? d := find_declaration (aa_preparation_id a) (ft_declarations term) else None ;;
      return_if negb (aa_epoch a =? ad_epoch d) || (aa_epoch a <=? prior_epoch)
        || (aa_effective_period a <? ft_first_period term) || (ft_end_period term <=? aa_effective_period a)
        || (next_period (settlement s) <? aa_effective_period a)
        || (negb (prior_epoch =? 0) && (aa_effective_period a <? prior_period))
        || (zlen (aa_allocations a) =? 0) || (20 * lr_replicas lease <? zlen (aa_allocations a)) with None ;;
      let? sums := validate_allocated lease d None (replicate (Z.to_nat (lr_replicas lease)) 0) (aa_allocations a)
        else None ;;
      return_if existsb (fun sum => negb (sum =? lr_units lease)) sums with None ;;
      validate_assignments s lease term ({[ aa_operation_id a ]} ∪ op_ids) ({[ aa_operation_id a ]} ∪ activation_ids)
        (aa_epoch a) (aa_effective_period a) rest
  end.

(** *** Service payments of a term *)

Definition term_closed (s : CybouState) (lease : StorageLeaseRecord) (term : StorageFundedTerm) : bool :=
  Z.min (ft_end_period term) (lr_end_period lease) <=? next_period (settlement s).

Fixpoint validate_payments (s : CybouState) (lease : StorageLeaseRecord) (term : StorageFundedTerm)
    (budget : AssignedStorageBudget) (prior : option StorageServicePayment) (service : list Z) (paid_sum : Z)
    (l : list StorageServicePayment) : option (list Z * Z) :=
  match l with
  | [] => Some (service, paid_sum)
  | e :: rest =>
      return_if (lr_replicas lease <=? sp_slot e) || (sp_verified_unit_seconds e =? 0)
        || match prior with Some p => negb (service_key_lt (payment_key p) (payment_key e)) | None => false end with None ;;
      let capacity := ComputeAcceptedStorageCapacity term (sp_slot e) (sp_storage_id e) (sp_payout_account e)
        (next_period (settlement s)) (lr_end_period lease) in
      let remainder := ComputeAssignedStoragePayout budget (sp_verified_unit_seconds e) (sp_paid e) in
      let? back := last (ft_assignments term) else None ;;
      let closed_capacity := ComputeAcceptedStorageCapacity term (sp_slot e) (sp_storage_id e) (sp_payout_account e)
        (if term_closed s lease term then next_period (settlement s) else aa_effective_period back)
        (lr_end_period lease) in
      let? capacity := capacity else None ;;
      let? closed := closed_capacity else None ;;
      return_if negb (sp_closed_epoch_capacity e =? closed) || (capacity <? sp_verified_unit_seconds e)
        || negb (bool_decide (remainder = Some 0)) with None ;;
      validate_payments s lease term budget (Some e) (add_at service (sp_slot e) (sp_verified_unit_seconds e) wrap128)
        (wrap128 (paid_sum + sp_paid e)) rest
  end.

(** *** Terms and leases *)

Fixpoint validate_terms (s : CybouState) (lease : StorageLeaseRecord) (funding_ids op_ids : gset Hash256) (end_ : Z)
    (remaining_onboarding remaining_locked : Z) (l : list StorageFundedTerm)
    : option (gset Hash256 * gset Hash256 * Z * Z * Z) :=
  match l with
  | [] => Some (funding_ids, op_ids, end_, remaining_onboarding, remaining_locked)
  | term :: rest =>
      return_if IsNull (ft_funding_operation_id term) || bool_decide (ft_funding_operation_id term ∈ funding_ids)
        || (ft_first_period term <? end_) || (ft_end_period term <=? ft_first_period term) with None ;;
      return_if (ft_initial_onboarding term <? ft_paid_onboarding term) || (ft_initial_locked term <? ft_paid_locked term)
        || (ft_initial_onboarding term ⊖ ft_paid_onboarding term <? ft_refunded_onboarding term)
        || (ft_initial_locked term ⊖ ft_paid_locked term <? ft_refunded_locked term)
        || ((negb (ft_refunded_onboarding term =? 0) || negb (ft_refunded_locked term =? 0))
            && negb (term_closed s lease term)) with None ;;
      let? budget := ComputeAssignedStorageBudget (lr_units lease) (lr_replicas lease)
        (ft_end_period term ⊖ ft_first_period term) (ft_period_seconds term) (ft_rate term) else None ;;
      return_if negb (per_replica budget =? ft_replica_share term)
        || negb (contracted_unit_seconds budget =? ft_contracted_unit_seconds term)
        || negb (wrap128 (ft_initial_onboarding term + ft_initial_locked term) =? total budget)
        || (negb (ft_paid_locked term =? 0) && negb (ft_paid_onboarding term =? ft_initial_onboarding term)) with None ;;
      return_if term_closed s lease term
        && (negb (ft_initial_onboarding term ⊖ ft_paid_onboarding term =? ft_refunded_onboarding term)
            || negb (ft_initial_locked term ⊖ ft_paid_locked term =? ft_refunded_locked term)) with None ;;
      return_if (ft_next_assignment_epoch term =? 0) || (MAX32 <? zlen (ft_declarations term))
        || (MAX32 <? zlen (ft_assignments term)) || (MAX32 <? zlen (ft_service_payments term)) with None ;;
      let? (op_ids, prior_epoch) := validate_declarations s lease term op_ids ∅ 0 0 (ft_declarations term) else None ;;
      return_if ((zlen (ft_declarations term) =? 0) && negb (ft_next_assignment_epoch term =? 1))
        || (negb (zlen (ft_declarations term) =? 0) && negb (ft_next_assignment_epoch term =? prior_epoch ⊕ 1)) with None ;;
      let? op_ids := validate_assignments s lease term op_ids ∅ 0 0 (ft_assignments term) else None ;;
      let? (service, paid_sum) := validate_payments s lease term budget None
        (replicate (Z.to_nat (lr_replicas lease)) 0) 0 (ft_service_payments term) else None ;;
      return_if negb (paid_sum =? wrap128 (ft_paid_onboarding term + ft_paid_locked term))
        || existsb (fun sum => ft_contracted_unit_seconds term <? sum) service with None ;;
      validate_terms s lease ({[ ft_funding_operation_id term ]} ∪ funding_ids) op_ids (ft_end_period term)
        (wrap128 (remaining_onboarding + (ft_initial_onboarding term ⊖ ft_paid_onboarding term ⊖ ft_refunded_onboarding term)))
        (wrap128 (remaining_locked + (ft_initial_locked term ⊖ ft_paid_locked term ⊖ ft_refunded_locked term))) rest
  end.
Fixpoint validate_leases (s : CybouState) (funding_ids op_ids : gset Hash256) (l : list (Hash256 * StorageLeaseRecord)) : bool :=
  match l with
  | [] => true
  | (id, lease) :: rest =>
      return_if IsNull id || negb (contains (accounts s) (lr_payer lease)) || (lr_units lease =? 0)
        || (lr_replicas lease =? 0) || (MAX_STORAGE_LEASE_REPLICAS <? lr_replicas lease)
        || (lr_end_period lease <=? lr_first_period lease)
        || (next_period (settlement s) <? lr_first_period lease) with false ;;
      return_if match publications s !! id with
                | Some p => negb (bool_decide (pr_owner p = lr_payer lease)) || negb (pr_chunk_count p =? lr_units lease)
                | None => false
                end with false ;;
      return_if (zlen (lr_funded_terms lease) =? 0) || (MAX32 <? zlen (lr_funded_terms lease)) with false ;;
      let? (funding_ids, op_ids, end_, remaining_onboarding, remaining_locked) :=
        validate_terms s lease funding_ids op_ids (lr_first_period lease) 0 0 (lr_funded_terms lease) else false ;;
      return_if (end_ <? lr_end_period lease) || negb (lr_escrow_onboarding lease =? remaining_onboarding)
        || negb (lr_escrow_locked lease =? remaining_locked) with false ;;
      validate_leases s funding_ids op_ids rest
  end.

Section validation.
Context `{CryptoOps}.

Fixpoint validate_identities (s : CybouState) (l : list (AccountId * IdentityRecord)) : bool :=
  match l with
  | [] => true
  | (id, record) :: rest =>
      let? root_id := ComputeRecoveryKeyId (ir_recovery_key record) else false ;;
      return_if negb (bool_decide (FindByRecoveryKeyId (identities s) root_id = Some id)) with false ;;
      validate_identities s rest
  end.

Definition ValidateCybouState (s : CybouState) : StateValidationError :=
  return_if MAX_IDENTITY_REGISTRY_ACCOUNTS <? Z.of_nat (size (accounts s)) with SV_ACCOUNT_LIMIT_EXCEEDED ;;
  return_if negb (bool_decide (size (accounts s) = size (m_accounts (identities s))))
    with SV_ACCOUNT_IDENTITY_COUNT_MISMATCH ;;
  let checked := validate_accounts s (entries (accounts s)) in
  return_if negb (bool_decide (checked = SV_NONE)) with checked ;;
  return_if negb (validate_identities s (entries (m_accounts (identities s)))) with SV_DUPLICATE_RECOVERY_BINDING ;;
  return_if negb (bool_decide (size (names (st_names s)) = size (account_names (st_names s))))
    with SV_INVALID_NAME_REGISTRY ;;
  return_if MAX_GENESIS_ALLOCATIONS <? Z.of_nat (size (genesis_allocations s)) with SV_INVALID_NAME_REGISTRY ;;
  let? claimed := validate_allocations s ∅ ∅ (entries (genesis_allocations s)) else SV_INVALID_NAME_REGISTRY ;;
  return_if negb (validate_names s claimed (entries (names (st_names s)))) with SV_INVALID_NAME_REGISTRY ;;
  return_if negb (validate_commits s ∅ (entries (pending_commits (st_names s)))) with SV_INVALID_NAME_REGISTRY ;;
  return_if DEFAULT_MAX_PENDING_NAME_COMMITS <? Z.of_nat (size (pending_commits (st_names s)))
    with SV_INVALID_NAME_REGISTRY ;;
  return_if TotalCybou s =? MAX64 with SV_BALANCE_OVERFLOW ;;
  return_if negb (validate_publications s (entries (publications s))) with SV_INVALID_RESOURCE_USAGE ;;
  return_if negb (validate_leases s ∅ ∅ (entries (leases s))) with SV_INVALID_STORAGE_LEASE ;;
  SV_NONE.
End validation.
