(* ===== verification/Ledger.v ===== *)
(** * Ledger operations

    The state transitions of [src/src/cybou/state.cpp], [payment.cpp] and the
    lease half of [storage_lease.cpp]: each takes the state and returns the
    error with the state it leaves. A transition that can throw is an
    [outcome]; its caller works on a copy of the state that it then drops. *)

From S2P Require Import Prelude.
From S2P Require Import Bytes.
From S2P Require Import Codec.
From S2P Require Import Params.
From S2P Require Import StorageEconomy.
From S2P Require Import Crypto.
From S2P Require Import Identity.
From S2P Require Import IdentityCodec.
From S2P Require Import Names.
From S2P Require Import Payloads.
From S2P Require Import Operation.
From S2P Require Import State.

(** ** Errors *)

Inductive PaymentError : Type :=
| PE_NONE | PE_INVALID_PAYLOAD | PE_INVALID_AUTHORIZATION | PE_SENDER_NOT_FOUND | PE_RECIPIENT_NOT_FOUND
| PE_SELF_PAYMENT | PE_ZERO_AMOUNT | PE_INSUFFICIENT_BALANCE | PE_INSUFFICIENT_SYSTEM_BALANCE
| PE_RECIPIENT_OVERFLOW | PE_FEE_TRANSFER_FAILED | PE_INCONSISTENT_STATE.
Inductive SystemLockError : Type :=
| SL_NONE | SL_INVALID_PAYLOAD | SL_INVALID_AUTHORIZATION | SL_ACCOUNT_NOT_FOUND | SL_ZERO_AMOUNT
| SL_INSUFFICIENT_BALANCE | SL_SYSTEM_BALANCE_OVERFLOW | SL_INCONSISTENT_STATE.
Inductive AccountCreateStateError : Type :=
| CS_NONE | CS_INVALID_CREATE | CS_ACCOUNT_EXISTS | CS_RECOVERY_KEY_EXISTS | CS_ACCOUNT_LIMIT
| CS_INSUFFICIENT_TREASURY | CS_INCONSISTENT_STATE.
Inductive NameCommitError : Type :=
| NC_NONE | NC_INVALID_AUTHORIZATION | NC_ACCOUNT_NOT_FOUND | NC_ACCOUNT_ALREADY_HAS_NAME
| NC_ACCOUNT_HAS_PENDING_COMMIT | NC_COMMITMENT_LIMIT_EXCEEDED | NC_COMMITMENT_EXISTS.
Inductive NameRevealError : Type :=
| NR_NONE | NR_INVALID_AUTHORIZATION | NR_INVALID_LABEL_SYNTAX | NR_ACCOUNT_NOT_FOUND | NR_ACCOUNT_ALREADY_HAS_NAME
| NR_NAME_ALREADY_TAKEN | NR_INVALID_WORK_PROOF | NR_COMMITMENT_NOT_FOUND | NR_COMMITMENT_ACCOUNT_MISMATCH
| NR_INSUFFICIENT_COMMIT_DEPTH | NR_COMMIT_EXPIRED.
Inductive RootPublicationError : Type :=
| RP_NONE | RP_INVALID_PAYLOAD | RP_INVALID_AUTHORIZATION | RP_SENDER_NOT_FOUND | RP_INSUFFICIENT_SYSTEM_BALANCE
| RP_FEE_TRANSFER_FAILED.
Inductive RevokePublicationError : Type :=
| RV_NONE | RV_INVALID_PAYLOAD | RV_INVALID_AUTHORIZATION | RV_SENDER_NOT_FOUND | RV_PUBLICATION_NOT_FOUND
| RV_NOT_OWNER | RV_INSUFFICIENT_SYSTEM_BALANCE | RV_FEE_TRANSFER_FAILED.
Inductive StorageLeaseError : Type :=
| LE_NONE | LE_INVALID_PAYLOAD | LE_INVALID_AUTHORIZATION | LE_SENDER_NOT_FOUND | LE_PUBLICATION_NOT_FOUND
| LE_NOT_OWNER | LE_INSUFFICIENT_SYSTEM_BALANCE | LE_FEE_TRANSFER_FAILED | LE_ESCROW_OVERFLOW.
#[export] Instance PaymentError_eq_dec : EqDecision PaymentError.
Proof. solve_decision. Defined.
#[export] Instance SystemLockError_eq_dec : EqDecision SystemLockError.
Proof. solve_decision. Defined.
#[export] Instance AccountCreateStateError_eq_dec : EqDecision AccountCreateStateError.
Proof. solve_decision. Defined.
#[export] Instance NameCommitError_eq_dec : EqDecision NameCommitError.
Proof. solve_decision. Defined.
#[export] Instance NameRevealError_eq_dec : EqDecision NameRevealError.
Proof. solve_decision. Defined.
#[export] Instance RootPublicationError_eq_dec : EqDecision RootPublicationError.
Proof. solve_decision. Defined.
#[export] Instance RevokePublicationError_eq_dec : EqDecision RevokePublicationError.
Proof. solve_decision. Defined.
#[export] Instance StorageLeaseError_eq_dec : EqDecision StorageLeaseError.
Proof. solve_decision. Defined.

Section ledger.
Context `{CryptoOps}.

(** [state.identities.AuthorizeOperation(...) != NONE]: whether it failed,
    with the state whose registry the call may have changed. *)
Definition authorize (s : CybouState) (auth : IdentityOperationAuthorization) (network_binding : Hash256)
    : bool * CybouState :=
  let (e, reg) := AuthorizeOperation (identities s) auth network_binding in
  (negb (bool_decide (e = IR_NONE)), set_identities s reg).

Definition has_identity (s : CybouState) (id : AccountId) : bool := bool_decide (is_Some (Find (identities s) id)).

(** The fee steps the operations end with: debit the sender's system balance,
    credit the Central Authority (whose result the source ignores). *)
Definition debit_system (s : CybouState) (id : AccountId) (a : AccountState) (amount : Z) : CybouState :=
  set_account s id (DebitSystemBalance a amount).2.
Definition credit_fee (s : CybouState) (fee : Z) : CybouState := (CreditCentralAuthorityFee s fee).2.

(** ** [payment.cpp] *)

Definition ApplyPayment (op : AuthorizedPayment) (network_binding : Hash256) (params : CybouProtocolParameters)
    (s : CybouState) : PaymentError * CybouState :=
  let auth := pay_authorization op in
  let amount := pay_amount (payment op) in
  let recipient_id := recipient (payment op) in
  return_if negb (bool_decide (oa_kind auth = KIND_PAYMENT)) with (PE_INVALID_AUTHORIZATION, s) ;;
  return_if amount =? 0 with (PE_ZERO_AMOUNT, s) ;;
  return_if IsNull recipient_id with (PE_INVALID_PAYLOAD, s) ;;
  return_if negb (bool_decide (ComputePaymentPayloadCommitment (payment op) = Some (oa_payload_commitment auth)))
    with (PE_INVALID_PAYLOAD, s) ;;
  let sender_id := oa_account_id auth in
  return_if bool_decide (sender_id = recipient_id) with (PE_SELF_PAYMENT, s) ;;
  let? sender := accounts s !! sender_id else (PE_SENDER_NOT_FOUND, s) ;;
  let? receiver := accounts s !! recipient_id else (PE_RECIPIENT_NOT_FOUND, s) ;;
  return_if negb (has_identity s sender_id) || negb (has_identity s recipient_id) with (PE_INCONSISTENT_STATE, s) ;;
  return_if balance sender <? amount with (PE_INSUFFICIENT_BALANCE, s) ;;
  return_if system_balance sender <? payment_fee params with (PE_INSUFFICIENT_SYSTEM_BALANCE, s) ;;
  return_if MAX64 ⊖ amount <? balance receiver with (PE_RECIPIENT_OVERFLOW, s) ;;
  return_if negb (CanCreditCentralAuthorityFee s (payment_fee params)) with (PE_FEE_TRANSFER_FAILED, s) ;;
  (* the allocation exists: the check above went through it *)
  let? (_, authority) := FindCentralAuthorityAllocation s else (PE_FEE_TRANSFER_FAILED, s) ;;
  return_if bool_decide (claimed_by authority = Some recipient_id)
    && (MAX64 ⊖ payment_fee params <? balance receiver ⊕ amount) with (PE_FEE_TRANSFER_FAILED, s) ;;
  let (failed, s) := authorize s auth network_binding in
  return_if failed with (PE_INVALID_AUTHORIZATION, s) ;;
  let sender := with_balance sender (balance sender ⊖ amount) in
  let s := debit_system s sender_id sender (payment_fee params) in
  let s := set_account s recipient_id (with_balance receiver (balance receiver ⊕ amount)) in
  (PE_NONE, credit_fee s (payment_fee params)).

Definition ApplySystemLock (op : AuthorizedSystemLock) (network_binding : Hash256) (s : CybouState)
    : SystemLockError * CybouState :=
  let auth := lock_authorization op in
  let amount := lock_amount (lock op) in
  return_if negb (bool_decide (oa_kind auth = KIND_SYSTEM_LOCK)) with (SL_INVALID_AUTHORIZATION, s) ;;
  return_if amount =? 0 with (SL_ZERO_AMOUNT, s) ;;
  return_if negb (bool_decide (ComputeSystemLockPayloadCommitment (lock op) = Some (oa_payload_commitment auth)))
    with (SL_INVALID_PAYLOAD, s) ;;
  let account_id := oa_account_id auth in
  let? account := accounts s !! account_id else (SL_ACCOUNT_NOT_FOUND, s) ;;
  return_if negb (has_identity s account_id) with (SL_INCONSISTENT_STATE, s) ;;
  return_if balance account <? amount with (SL_INSUFFICIENT_BALANCE, s) ;;
  return_if MAX64 ⊖ amount <? system_balance account with (SL_SYSTEM_BALANCE_OVERFLOW, s) ;;
  let (failed, s) := authorize s auth network_binding in
  return_if failed with (SL_INVALID_AUTHORIZATION, s) ;;
  let account := with_balance account (balance account ⊖ amount) in
  let account := with_system_balance account (system_balance account ⊕ amount) in
  (SL_NONE, set_account s account_id account).

(** ** [ApplyAccountCreate] *)

(** The unclaimed genesis allocation the recovery key of the request owns. *)
Definition find_claim (op : AccountCreateOp) (s : CybouState) : option (IdentityKeyId * GenesisAllocation) :=
  let? recovery_id := ComputeRecoveryKeyId (recovery_root (ac_authorization op)) else None ;;
  let? a := genesis_allocations s !! recovery_id else None ;;
  match claimed_by a with Some _ => None | None => Some (recovery_id, a) end.
Definition creation_bonus (params : CybouProtocolParameters) (claim : option (IdentityKeyId * GenesisAllocation)) : Z :=
  let claims_treasury := match claim with
                         | Some (_, a) => bool_decide (alloc_label a = CENTRAL_AUTHORITY_NAME)
                         | None => false
                         end in
  if claims_treasury then 0 else onboarding_bonus params.
(** [!treasury || *treasury < bonus] *)
Definition treasury_short (s : CybouState) (bonus : Z) : bool :=
  match TreasuryBalance s with
  | Some slot => match fee_read s slot with Some b => b <? bonus | None => true end
  | None => true
  end.
(** [*TreasuryBalance(state) -= bonus]; the pointer was checked before. *)
Definition pay_bonus (s : CybouState) (bonus : Z) : CybouState :=
  match TreasuryBalance s with
  | Some slot => match fee_read s slot with Some b => fee_write s slot (b ⊖ bonus) | None => s end
  | None => s
  end.
(** [claim] is an iterator: the entry is read again, after the bonus was paid. *)
Definition take_claim (s : CybouState) (id : IdentityKeyId) (account_id : AccountId) : Z * CybouState :=
  let? a := genesis_allocations s !! id else (0, s) ;;
  let s := set_allocations s (<[id := mkAllocation (alloc_balance a) (alloc_label a) (Some account_id)]>
                               (genesis_allocations s)) in
  (alloc_balance a,
   if negb (zlen (alloc_label a) =? 0)
   then set_names s (mkNameRegistry (emplace (names (st_names s)) (alloc_label a) account_id)
          (emplace (account_names (st_names s)) account_id (alloc_label a)) (pending_commits (st_names s)))
   else s).

Definition ApplyAccountCreate (op : AccountCreateOp) (network_binding : Hash256) (block_height : Z)
    (params : CybouProtocolParameters) (s : CybouState) : AccountCreateStateError * CybouState :=
  return_if negb (bool_decide (size (accounts s) = size (m_accounts (identities s)))) with (CS_INCONSISTENT_STATE, s) ;;
  return_if negb (forallb (fun id => has_identity s id) (keys (accounts s))) with (CS_INCONSISTENT_STATE, s) ;;
  return_if MAX_IDENTITY_REGISTRY_ACCOUNTS <=? Z.of_nat (size (accounts s)) with (CS_ACCOUNT_LIMIT, s) ;;
  return_if contains (accounts s) (ac_account_id op) with (CS_ACCOUNT_EXISTS, s) ;;
  let claim := find_claim op s in
  let bonus := creation_bonus params claim in
  return_if negb (bonus =? 0) && treasury_short s bonus with (CS_INSUFFICIENT_TREASURY, s) ;;
  let (identity_result, reg) := Register (identities s) op network_binding block_height params in
  let s := set_identities s reg in
  match identity_result with
  | IR_NONE =>
      let s := if negb (bonus =? 0) then pay_bonus s bonus else s in
      let (genesis_balance, s) := match claim with
                                  | Some (id, _) => take_claim s id (ac_account_id op)
                                  | None => (0, s)
                                  end in
      (CS_NONE, set_accounts s (emplace (accounts s) (ac_account_id op)
        (mkAccount genesis_balance bonus bonus block_height (EpochForHeight block_height params))))
  | IR_ACCOUNT_EXISTS => (CS_ACCOUNT_EXISTS, s)
  | IR_RECOVERY_KEY_EXISTS => (CS_RECOVERY_KEY_EXISTS, s)
  | _ => (CS_INVALID_CREATE, s)
  end.

(** ** Names *)

Definition ApplyNameCommit (op : AuthorizedNameCommit) (network_binding : Hash256) (block_height : Z)
    (params : CybouProtocolParameters) (s : CybouState) : outcome (NameCommitError * CybouState) :=
  let auth := nc_authorization op in
  let account_id := oa_account_id auth in
  return_if negb (bool_decide (oa_kind auth = KIND_NAME_COMMIT)) with Ret (NC_INVALID_AUTHORIZATION, s) ;;
  try! expected := ComputeNameCommitPayloadCommitment (nc_commit op) ;;
  return_if negb (bool_decide (expected = Some (oa_payload_commitment auth))) with Ret (NC_INVALID_AUTHORIZATION, s) ;;
  return_if negb (contains (accounts s) account_id) with Ret (NC_ACCOUNT_NOT_FOUND, s) ;;
  return_if contains (account_names (st_names s)) account_id with Ret (NC_ACCOUNT_ALREADY_HAS_NAME, s) ;;
  return_if existsb (fun kv => bool_decide (cr_account_id kv.2 = account_id)) (entries (pending_commits (st_names s)))
    with Ret (NC_ACCOUNT_HAS_PENDING_COMMIT, s) ;;
  return_if max_pending_name_commits params <=? Z.of_nat (size (pending_commits (st_names s)))
    with Ret (NC_COMMITMENT_LIMIT_EXCEEDED, s) ;;
  return_if contains (pending_commits (st_names s)) (commitment (nc_commit op)) with Ret (NC_COMMITMENT_EXISTS, s) ;;
  let (failed, s) := authorize s auth network_binding in
  return_if failed with Ret (NC_INVALID_AUTHORIZATION, s) ;;
  Ret (NC_NONE, set_names s (mkNameRegistry (names (st_names s)) (account_names (st_names s))
    (emplace (pending_commits (st_names s)) (commitment (nc_commit op)) (mkNameCommitRecord account_id block_height)))).

Definition ApplyNameReveal (op : AuthorizedNameReveal) (network_binding : Hash256) (block_height : Z)
    (params : CybouProtocolParameters) (s : CybouState) : outcome (NameRevealError * CybouState) :=
  let auth := nv_authorization op in
  let account_id := oa_account_id auth in
  let reveal := nv_reveal op in
  let work := nr_work reveal in
  return_if negb (bool_decide (oa_kind auth = KIND_NAME_REVEAL)) with Ret (NR_INVALID_AUTHORIZATION, s) ;;
  try! expected := ComputeNameRevealPayloadCommitment reveal ;;
  return_if negb (bool_decide (expected = Some (oa_payload_commitment auth))) with Ret (NR_INVALID_AUTHORIZATION, s) ;;
  return_if negb (bool_decide (ValidateNameLabel (nr_label reveal) = NV_NONE)) with Ret (NR_INVALID_LABEL_SYNTAX, s) ;;
  return_if negb (contains (accounts s) account_id) with Ret (NR_ACCOUNT_NOT_FOUND, s) ;;
  return_if contains (account_names (st_names s)) account_id with Ret (NR_ACCOUNT_ALREADY_HAS_NAME, s) ;;
  return_if contains (names (st_names s)) (nr_label reveal)
    || existsb (fun kv => bool_decide (alloc_label kv.2 = nr_label reveal)) (entries (genesis_allocations s))
    with Ret (NR_NAME_ALREADY_TAKEN, s) ;;
  try! expected_commitment := ComputeNameCommitment network_binding account_id (nr_label reveal) (nr_salt reveal) ;;
  return_if negb (bool_decide (ncw_commitment work = expected_commitment)) with Ret (NR_INVALID_WORK_PROOF, s) ;;
  let? record := pending_commits (st_names s) !! expected_commitment else Ret (NR_COMMITMENT_NOT_FOUND, s) ;;
  return_if negb (bool_decide (cr_account_id record = account_id)) with Ret (NR_COMMITMENT_ACCOUNT_MISMATCH, s) ;;
  return_if block_height <? commit_height record ⊕ name_commit_min_depth params
    with Ret (NR_INSUFFICIENT_COMMIT_DEPTH, s) ;;
  return_if commit_height record ⊕ name_commit_max_lifetime params <? block_height with Ret (NR_COMMIT_EXPIRED, s) ;;
  return_if negb (bool_decide (ncw_network_binding work = network_binding))
    || negb (bool_decide (ncw_account_id work = account_id)) with Ret (NR_INVALID_WORK_PROOF, s) ;;
  let current_epoch := EpochForHeight block_height params in
  return_if (current_epoch <? ncw_work_epoch work)
    || (ncw_work_epoch work ⊕ account_creation_epoch_lag params <? current_epoch) with Ret (NR_INVALID_WORK_PROOF, s) ;;
  try! worked := CheckNameClaimWork work (name_claim_work_bits params) ;;
  return_if negb worked with Ret (NR_INVALID_WORK_PROOF, s) ;;
  let (failed, s) := authorize s auth network_binding in
  return_if failed with Ret (NR_INVALID_AUTHORIZATION, s) ;;
  Ret (NR_NONE, set_names s (mkNameRegistry (emplace (names (st_names s)) (nr_label reveal) account_id)
    (emplace (account_names (st_names s)) account_id (nr_label reveal))
    (delete expected_commitment (pending_commits (st_names s))))).

(** ** Leases and publications *)

Definition ComputeStorageLeaseEscrow (params : CybouProtocolParameters) (units replicas periods : Z) : option Z :=
  let? budget := ComputeAssignedStorageBudget units replicas periods (storage_settlement_period_seconds params)
    (storage_rate_per_gib_day_replica params) else None ;;
  Some (total budget).

(** The first period the next term of a lease covers. *)
Definition next_term_start (s : CybouState) (existing : option StorageLeaseRecord) : Z :=
  match existing with
  | None => next_period (settlement s)
  | Some l => Z.max (next_period (settlement s)) (lr_end_period l)
  end.

(** Throws [invalid_argument] on a bad term, [out_of_range] without payer. *)
Definition FundStorageLease (s : CybouState) (publication_id : Hash256) (payer : AccountId)
    (units replicas periods escrow : Z) (params : CybouProtocolParameters) (funding_operation_id : Hash256)
    : outcome CybouState :=
  let existing := leases s !! publication_id in
  let first := next_term_start s existing in
  let? budget := ComputeAssignedStorageBudget units replicas periods (storage_settlement_period_seconds params)
    (storage_rate_per_gib_day_replica params) else Throw ;;
  return_if negb (total budget =? escrow) || IsNull funding_operation_id || (MAX64 ⊖ periods <? first)
    || match existing with
       | Some l => (zlen (lr_funded_terms l) =? 0) || negb (bool_decide (lr_payer l = payer))
                   || negb (lr_units l =? units) || negb (lr_replicas l =? replicas)
                   || existsb (fun t => bool_decide (ft_funding_operation_id t = funding_operation_id)) (lr_funded_terms l)
       | None => false
       end with Throw ;;
  let? account := accounts s !! payer else Throw ;;
  let (onboarding, account) := DebitSystemBalance account escrow in
  let s := set_account s payer account in
  let term := mkFundedTerm funding_operation_id first (first ⊕ periods) (storage_rate_per_gib_day_replica params)
    (storage_settlement_period_seconds params) (per_replica budget) (contracted_unit_seconds budget)
    onboarding (escrow ⊖ onboarding) 0 0 1 [] [] [] 0 0 in
  Ret (set_leases s (<[publication_id :=
    match existing with
    | Some l => mkLease (lr_payer l) (lr_units l) (lr_replicas l) (lr_first_period l) (first ⊕ periods)
        (lr_escrow_onboarding l ⊕ onboarding) (lr_escrow_locked l ⊕ (escrow ⊖ onboarding)) (lr_funded_terms l ++ [term])
    | None => mkLease payer units replicas first (ft_end_period term) onboarding (escrow ⊖ onboarding) [term]
    end]> (leases s))).

Definition ApplyRootPublication (op : AuthorizedRootPublication) (network_binding : Hash256)
    (params : CybouProtocolParameters) (s : CybouState) : outcome (RootPublicationError * CybouState) :=
  let auth := rp_authorization op in
  let p := publication op in
  return_if negb (bool_decide (oa_kind auth = KIND_ROOT_PUBLICATION)) with Ret (RP_INVALID_AUTHORIZATION, s) ;;
  return_if negb (bool_decide (ComputeRootPublicationPayloadCommitment p = Some (oa_payload_commitment auth)))
    with Ret (RP_INVALID_PAYLOAD, s) ;;
  try! operation_bytes := SerializeProtocolOperation (OpRootPublication op) ;;
  let? l := operation_bytes else Ret (RP_INVALID_PAYLOAD, s) ;;
  let? fee := ComputeRootPublicationFee params (zlen l) (pub_chunk_count p) else Ret (RP_INVALID_PAYLOAD, s) ;;
  let? publication_id := ComputeOperationIdBytes l else Ret (RP_INVALID_PAYLOAD, s) ;;
  return_if max_storage_lease_periods params <? pub_lease_periods p with Ret (RP_INVALID_PAYLOAD, s) ;;
  return_if negb (pub_lease_periods p =? 0) && (MAX64 ⊖ pub_lease_periods p <? next_period (settlement s))
    with Ret (RP_INVALID_PAYLOAD, s) ;;
  let? escrow := (if negb (pub_lease_periods p =? 0)
                  then ComputeStorageLeaseEscrow params (pub_chunk_count p) (storage_replica_target params) (pub_lease_periods p)
                  else Some 0) else Ret (RP_INVALID_PAYLOAD, s) ;;
  return_if MAX64 ⊖ fee <? escrow with Ret (RP_INVALID_PAYLOAD, s) ;;
  let account_id := oa_account_id auth in
  let? sender := accounts s !! account_id else Ret (RP_SENDER_NOT_FOUND, s) ;;
  return_if negb (has_identity s account_id) with Ret (RP_SENDER_NOT_FOUND, s) ;;
  return_if system_balance sender <? fee ⊕ escrow with Ret (RP_INSUFFICIENT_SYSTEM_BALANCE, s) ;;
  return_if negb (CanCreditCentralAuthorityFee s fee) with Ret (RP_FEE_TRANSFER_FAILED, s) ;;
  let (failed, s) := authorize s auth network_binding in
  return_if failed with Ret (RP_INVALID_AUTHORIZATION, s) ;;
  let s := credit_fee (debit_system s account_id sender fee) fee in
  if negb (escrow =? 0) then
    try! s := FundStorageLease s publication_id account_id (pub_chunk_count p) (storage_replica_target params)
      (pub_lease_periods p) escrow params publication_id ;;
    Ret (RP_NONE, s)
  else Ret (RP_NONE, s).

Definition RecordPublication (s : CybouState) (publication_id : Hash256) (owner : AccountId)
    (chunk_authorization_root : arr 32) (chunk_count height : Z) : bool * CybouState :=
  return_if IsNull publication_id || (chunk_count =? 0) || contains (publications s) publication_id
    || negb (contains (accounts s) owner) with (false, s) ;;
  (true, set_publications s (emplace (publications s) publication_id
           (mkPublicationRecord owner chunk_authorization_root chunk_count height))).

Definition with_end_period (l : StorageLeaseRecord) v :=
  mkLease (lr_payer l) (lr_units l) (lr_replicas l) (lr_first_period l) v (lr_escrow_onboarding l) (lr_escrow_locked l)
    (lr_funded_terms l).

Definition ApplyRevokePublication (op : AuthorizedRevokePublication) (network_binding : Hash256)
    (params : CybouProtocolParameters) (s : CybouState) : RevokePublicationError * CybouState :=
  let auth := rev_authorization op in
  let id := rev_publication_id (revoke op) in
  return_if negb (bool_decide (oa_kind auth = KIND_REVOKE_PUBLICATION)) with (RV_INVALID_AUTHORIZATION, s) ;;
  return_if negb (bool_decide (ComputeRevokePublicationPayloadCommitment (revoke op) = Some (oa_payload_commitment auth)))
    with (RV_INVALID_PAYLOAD, s) ;;
  let account_id := oa_account_id auth in
  let? sender := accounts s !! account_id else (RV_SENDER_NOT_FOUND, s) ;;
  return_if negb (has_identity s account_id) with (RV_SENDER_NOT_FOUND, s) ;;
  let? record := publications s !! id else (RV_PUBLICATION_NOT_FOUND, s) ;;
  return_if negb (bool_decide (pr_owner record = account_id)) with (RV_NOT_OWNER, s) ;;
  return_if system_balance sender <? payment_fee params with (RV_INSUFFICIENT_SYSTEM_BALANCE, s) ;;
  return_if negb (CanCreditCentralAuthorityFee s (payment_fee params)) with (RV_FEE_TRANSFER_FAILED, s) ;;
  let (failed, s) := authorize s auth network_binding in
  return_if failed with (RV_INVALID_AUTHORIZATION, s) ;;
  let s := set_leases s (alter (fun l => with_end_period l
             (Z.min (lr_end_period l) (Z.max (lr_first_period l) (next_period (settlement s)) ⊕ 1))) id (leases s)) in
  let s := set_publications s (delete id (publications s)) in
  let s := debit_system s account_id sender (payment_fee params) in
  (RV_NONE, credit_fee s (payment_fee params)).

Definition ApplyStorageLease (op : AuthorizedStorageLease) (network_binding : Hash256)
    (params : CybouProtocolParameters) (s : CybouState) : outcome (StorageLeaseError * CybouState) :=
  let auth := lease_authorization op in
  let id := lease_publication_id (lease op) in
  let periods := lease_periods (lease op) in
  return_if negb (bool_decide (oa_kind auth = KIND_STORAGE_LEASE)) with Ret (LE_INVALID_AUTHORIZATION, s) ;;
  return_if negb (bool_decide (ComputeStorageLeasePayloadCommitment (lease op) = Some (oa_payload_commitment auth)))
    || (max_storage_lease_periods params <? periods) with Ret (LE_INVALID_PAYLOAD, s) ;;
  let account_id := oa_account_id auth in
  let? sender := accounts s !! account_id else Ret (LE_SENDER_NOT_FOUND, s) ;;
  return_if negb (has_identity s account_id) with Ret (LE_SENDER_NOT_FOUND, s) ;;
  let? record := publications s !! id else Ret (LE_PUBLICATION_NOT_FOUND, s) ;;
  return_if negb (bool_decide (pr_owner record = account_id)) with Ret (LE_NOT_OWNER, s) ;;
  let existing := leases s !! id in
  let replicas := match existing with Some l => lr_replicas l | None => storage_replica_target params end in
  let? escrow := ComputeStorageLeaseEscrow params (pr_chunk_count record) replicas periods
    else Ret (LE_ESCROW_OVERFLOW, s) ;;
  return_if MAX64 ⊖ payment_fee params <? escrow with Ret (LE_ESCROW_OVERFLOW, s) ;;
  let first := next_term_start s existing in
  try! funding_id := ComputeOperationId (OpStorageLease op) ;;
  let? funding_id := funding_id else Ret (LE_INVALID_PAYLOAD, s) ;;
  return_if match existing with Some l => zlen (lr_funded_terms l) =? 0 | None => false end
    with Ret (LE_INVALID_PAYLOAD, s) ;;
  return_if MAX64 ⊖ periods <? first with Ret (LE_ESCROW_OVERFLOW, s) ;;
  return_if match existing with
            | Some l => (MAX64 ⊖ periods <? lr_end_period l)
                        || (MAX64 ⊖ escrow <? lr_escrow_onboarding l ⊕ lr_escrow_locked l)
            | None => false
            end with Ret (LE_ESCROW_OVERFLOW, s) ;;
  return_if system_balance sender <? escrow ⊕ payment_fee params with Ret (LE_INSUFFICIENT_SYSTEM_BALANCE, s) ;;
  return_if negb (CanCreditCentralAuthorityFee s (payment_fee params)) with Ret (LE_FEE_TRANSFER_FAILED, s) ;;
  let (failed, s) := authorize s auth network_binding in
  return_if failed with Ret (LE_INVALID_AUTHORIZATION, s) ;;
  let s := credit_fee (debit_system s account_id sender (payment_fee params)) (payment_fee params) in
  try! s := FundStorageLease s id account_id (pr_chunk_count record) replicas periods escrow params funding_id ;;
  Ret (LE_NONE, s).
End ledger.
