(* ===== verification/Supply.v ===== *)
(** * The money supply

    [supply] is the exact amount of CYBOU in a state; [TotalCybou] of
    [src/src/cybou/state.cpp] computes it, saturating. The primitive money
    moves of the ledger, the debit of a system balance and the credit of a
    fee, change it by exactly what they move. *)

From S2P Require Import Prelude.
From S2P Require Import Bytes.
From S2P Require Import Codec.
From S2P Require Import Params.
From S2P Require Import Crypto.
From S2P Require Import Identity.
From S2P Require Import Names.
From S2P Require Import State.

(** ** Exact supply *)

Definition account_money (a : AccountState) : Z := balance a + system_balance a.
Definition allocation_money (a : GenesisAllocation) : Z :=
  match claimed_by a with Some _ => 0 | None => alloc_balance a end.
Definition lease_money (l : StorageLeaseRecord) : Z := lr_escrow_onboarding l + lr_escrow_locked l.
Definition supply (s : CybouState) : Z :=
  map_sum allocation_money (genesis_allocations s) + map_sum account_money (accounts s) + map_sum lease_money (leases s).

(** Every amount is a [uint64_t], and the onboarding part of a system balance
    never exceeds it. *)
Definition account_wf (a : AccountState) : Prop :=
  is_u64 (balance a) /\ is_u64 (system_balance a) /\ 0 <= onboarding_system_balance a <= system_balance a.
Record amounts_wf (s : CybouState) : Prop := {
  aw_accounts : map_Forall (fun _ a => account_wf a) (accounts s);
  aw_allocations : map_Forall (fun _ a => is_u64 (alloc_balance a)) (genesis_allocations s);
  aw_leases : map_Forall (fun _ l => is_u64 (lr_escrow_onboarding l) /\ is_u64 (lr_escrow_locked l)) (leases s);
}.
(** A state whose supply fits, as [ValidateCybouState] demands. *)
Definition money_wf (s : CybouState) : Prop := amounts_wf s /\ supply s < MAX64.

Lemma amounts_nonneg s : amounts_wf s ->
  (forall k a, accounts s !! k = Some a -> 0 <= account_money a) /\
  (forall k a, genesis_allocations s !! k = Some a -> 0 <= allocation_money a) /\
  (forall k l, leases s !! k = Some l -> 0 <= lease_money l).
Proof.
  intros [H1 H2 H3]. unfold account_money, allocation_money, lease_money. split_and!; intros k a Hk.
  - pose proof (H1 _ _ Hk) as Ha. unfold account_wf in Ha. ulia.
  - pose proof (H2 _ _ Hk) as Ha. simpl in Ha. destruct (claimed_by a); ulia.
  - pose proof (H3 _ _ Hk) as Ha. simpl in Ha. ulia.
Qed.
Lemma parts_nonneg s : amounts_wf s ->
  0 <= map_sum allocation_money (genesis_allocations s) /\ 0 <= map_sum account_money (accounts s) /\
  0 <= map_sum lease_money (leases s).
Proof. intros (H1 & H2 & H3)%amounts_nonneg. split_and!; by apply map_sum_nonneg. Qed.
Lemma supply_account s id a : amounts_wf s -> accounts s !! id = Some a ->
  0 <= balance a /\ 0 <= system_balance a /\ balance a + system_balance a <= supply s.
Proof.
  intros Hwf Ha. pose proof (parts_nonneg s Hwf). destruct (amounts_nonneg s Hwf) as (Hn & _).
  pose proof (map_sum_lookup_le account_money _ _ _ Hn Ha) as Hle. unfold supply, account_money in *.
  pose proof (aw_accounts _ Hwf _ _ Ha) as Hw. unfold account_wf in Hw. ulia.
Qed.
Lemma supply_lease s id l : amounts_wf s -> leases s !! id = Some l ->
  0 <= lr_escrow_onboarding l /\ 0 <= lr_escrow_locked l /\
  lr_escrow_onboarding l + lr_escrow_locked l <= supply s.
Proof.
  intros Hwf Hl. pose proof (parts_nonneg s Hwf). destruct (amounts_nonneg s Hwf) as (_ & _ & Hn).
  pose proof (map_sum_lookup_le lease_money _ _ _ Hn Hl) as Hle. unfold supply, lease_money in *.
  pose proof (aw_leases _ Hwf _ _ Hl) as Hw. simpl in Hw. ulia.
Qed.
(** Two different accounts together. *)
Lemma supply_two_accounts s i j a b : amounts_wf s -> i <> j ->
  accounts s !! i = Some a -> accounts s !! j = Some b -> account_money a + account_money b <= supply s.
Proof.
  intros Hwf Hne Ha Hb. pose proof (parts_nonneg s Hwf). destruct (amounts_nonneg s Hwf) as (Hn & _).
  unfold supply. rewrite (map_sum_delete account_money _ _ _ Ha).
  assert (account_money b <= map_sum account_money (delete i (accounts s))); [|lia].
  apply map_sum_lookup_le with j; [|by rewrite lookup_delete_ne].
  intros k v [_ Hk]%lookup_delete_Some. eauto.
Qed.

(** ** [TotalCybou] *)

Lemma foldr_entries {K V} `{Countable K, !KeyBytes K} (f : V -> Z) (m : gmap K V) :
  foldr (fun kv acc => f kv.2 + acc) 0 (entries m) = map_sum f m.
Proof.
  unfold map_sum. rewrite map_fold_foldr.
  transitivity (foldr (fun kv acc => f kv.2 + acc) 0 (map_to_list m)).
  - generalize (entries_perm m). generalize (map_to_list m) as k, (entries m) as l.
    induction 1; cbn [foldr]; lia.
  - generalize (map_to_list m) as l. induction l as [|[k v] l IH]; [done|]. cbn [foldr uncurry]. simpl. lia.
Qed.

(** A running total: the sum so far if it stays below the overflow value. *)
Definition capped (z : Z) : option Z := if z <? MAX64 then Some z else None.
Lemma add_total_capped t v : 0 <= t -> is_u64 v -> add_total (capped t) v = capped (t + v).
Proof.
  intros Ht Hv. unfold add_total, capped. destruct (Z.ltb_spec t MAX64).
  - rewrite sub64_small by ulia. destruct (Z.leb_spec (MAX64 - t) v), (Z.ltb_spec (t + v) MAX64); try lia; [done|].
    by rewrite add64_small by ulia.
  - rewrite (proj2 (Z.ltb_ge _ _)) by ulia. done.
Qed.
Lemma foldl_capped {A} (step : option Z -> A -> option Z) (f : A -> Z) l : forall t, 0 <= t ->
  (forall x t, x ∈ l -> 0 <= t -> 0 <= f x /\ step (capped t) x = capped (t + f x)) ->
  foldl step (capped t) l = capped (t + foldr (fun x acc => f x + acc) 0 l) /\
  0 <= foldr (fun x acc => f x + acc) 0 l.
Proof.
  induction l as [|x l IH]; intros t Ht Hstep; cbn [foldl foldr]; [by rewrite Z.add_0_r|].
  destruct (Hstep x t) as [Hx ->]; [by left|done|].
  destruct (IH (t + f x)) as [-> Hl]; [lia|intros y u Hy; apply Hstep; by right|].
  split; [f_equal|]; lia.
Qed.
Lemma foldl_entries {K V} `{Countable K, !KeyBytes K} (step : option Z -> K * V -> option Z) (f : V -> Z) (m : gmap K V) t :
  0 <= t -> (forall k v t, m !! k = Some v -> 0 <= t -> 0 <= f v /\ step (capped t) (k, v) = capped (t + f v)) ->
  foldl step (capped t) (entries m) = capped (t + map_sum f m) /\ 0 <= map_sum f m.
Proof.
  intros Ht Hstep. rewrite <- foldr_entries. apply (foldl_capped step (fun kv => f kv.2)); [done|].
  intros [k v] u Hin%elem_of_entries Hu. by apply Hstep.
Qed.

Lemma TotalCybou_min s : amounts_wf s -> TotalCybou s = Z.min (supply s) MAX64.
Proof.
  intros [H1 H2 H3]. unfold TotalCybou. change (Some 0) with (capped 0).
  destruct (foldl_entries (fun t kv => match claimed_by kv.2 with Some _ => t | None => add_total t (alloc_balance kv.2) end)
    allocation_money (genesis_allocations s) 0) as [-> N1]; [done| |].
  { intros k v t Hk Ht. specialize (H2 _ _ Hk). simpl in *. unfold allocation_money.
    destruct (claimed_by v); [split; [done|by rewrite Z.add_0_r]|]. rewrite add_total_capped by done. split; [ulia|done]. }
  destruct (foldl_entries (fun t kv => add_total (add_total t (balance kv.2)) (system_balance kv.2))
    account_money (accounts s) (0 + map_sum allocation_money (genesis_allocations s))) as [-> N2]; [lia| |].
  { intros k v t Hk Ht. specialize (H1 _ _ Hk) as (B1 & B2 & _). simpl. unfold account_money.
    rewrite !add_total_capped by (done || ulia). split; [ulia|]. f_equal. lia. }
  match goal with |- context [foldl _ (capped ?u) (entries (leases s))] =>
    destruct (foldl_entries (fun t kv => add_total (add_total t (lr_escrow_onboarding kv.2)) (lr_escrow_locked kv.2))
      lease_money (leases s) u) as [-> N3]; [lia| |] end.
  { intros k v t Hk Ht. specialize (H3 _ _ Hk) as (B1 & B2). simpl. unfold lease_money.
    rewrite !add_total_capped by (done || ulia). split; [ulia|]. f_equal. lia. }
  unfold capped, supply. destruct (Z.ltb_spec (0 + map_sum allocation_money (genesis_allocations s)
    + map_sum account_money (accounts s) + map_sum lease_money (leases s)) MAX64); simpl; lia.
Qed.
Lemma TotalCybou_supply s : money_wf s -> TotalCybou s = supply s.
Proof. intros [Hwf Hs]. rewrite TotalCybou_min by done. lia. Qed.

(** [TotalCybou] is the exact sum of every balance, unclaimed genesis
    allocation and escrow of the state when that sum is below [2^64 - 1], and
    the overflow value otherwise. *)
Theorem TotalCybou_exact s : amounts_wf s ->
  TotalCybou s = Z.min (map_sum allocation_money (genesis_allocations s) + map_sum account_money (accounts s)
                        + map_sum lease_money (leases s)) MAX64.
Proof. apply TotalCybou_min. Qed.

(** What validation adds to the types of the fields. *)
Record amounts_typed (s : CybouState) : Prop := {
  at_accounts : map_Forall (fun _ a => is_u64 (balance a) /\ is_u64 (system_balance a) /\
    is_u64 (onboarding_system_balance a)) (accounts s);
  at_allocations : map_Forall (fun _ a => is_u64 (alloc_balance a)) (genesis_allocations s);
  at_leases : map_Forall (fun _ l => is_u64 (lr_escrow_onboarding l) /\ is_u64 (lr_escrow_locked l)) (leases s);
}.
Lemma validate_accounts_onboarding s l : validate_accounts s l = SV_NONE ->
  forall id a, (id, a) ∈ l -> onboarding_system_balance a <= system_balance a.
Proof.
  induction l as [|[i b] l IH]; intros E id a Hin; [by apply elem_of_nil in Hin|]. cbn [validate_accounts] in E.
  walk_step E. walk_step E. guards. apply elem_of_cons in Hin as [[= -> ->]|Hin]; [done|]. by eapply IH.
Qed.
Lemma validated_money `{CryptoOps} s : amounts_typed s -> ValidateCybouState s = SV_NONE -> money_wf s.
Proof.
  intros [H1 H2 H3] E. unfold ValidateCybouState in E. walk E; try (guards; congruence). guards.
  assert (Hwf : amounts_wf s).
  { constructor; [|done..]. intros id a Ha. destruct (H1 _ _ Ha) as (A1 & A2 & A3). unfold account_wf.
    assert (onboarding_system_balance a <= system_balance a); [|ulia].
    eapply validate_accounts_onboarding; [eassumption|]. by apply elem_of_entries. }
  split; [done|]. rewrite (TotalCybou_min s Hwf) in *. lia.
Qed.

(** ** Money moves *)

Lemma supply_set_account s id a a' : accounts s !! id = Some a ->
  supply (set_account s id a') = supply s - account_money a + account_money a'.
Proof. intros Ha. unfold supply. simpl. rewrite (map_sum_insert account_money _ _ _ _ Ha). lia. Qed.
Lemma supply_new_account s id a : accounts s !! id = None ->
  supply (set_account s id a) = supply s + account_money a.
Proof. intros Ha. unfold supply. simpl. rewrite map_sum_insert_new by done. lia. Qed.
Lemma amounts_set_account s id a : amounts_wf s -> account_wf a -> amounts_wf (set_account s id a).
Proof. intros [H1 H2 H3] Ha. constructor; [|done..]. simpl. by apply map_Forall_insert_2. Qed.

Definition same_money (s s' : CybouState) : Prop :=
  accounts s' = accounts s /\ genesis_allocations s' = genesis_allocations s /\ leases s' = leases s.
Lemma same_money_supply s s' : same_money s s' -> supply s' = supply s.
Proof. unfold supply. by intros (-> & -> & ->). Qed.
Lemma same_money_amounts s s' : same_money s s' -> amounts_wf s -> amounts_wf s'.
Proof. intros (E1 & E2 & E3) [H1 H2 H3]. constructor; by rewrite ?E1, ?E2, ?E3. Qed.

(** ** The fee destination *)

Lemma find_authority_elem l : forall r x, find_authority r l = Some x -> r = Some x \/ x ∈ l.
Proof.
  induction l as [|[id a] l IH]; intros r x E; cbn [find_authority] in E; [by left|].
  destruct (negb _); [apply IH in E as [|]; [by left|right; by right]|].
  destruct r; [done|]. apply IH in E as [[= <-]|]; right; [by left|by right].
Qed.
Lemma FindCentralAuthorityAllocation_lookup s id a :
  FindCentralAuthorityAllocation s = Some (id, a) -> genesis_allocations s !! id = Some a.
Proof. intros [|E]%find_authority_elem; [done|]. by apply elem_of_entries. Qed.

(** What a fee slot points at. *)
Lemma fee_slot_inv s slot : CentralAuthorityFeeBalance s = Some slot ->
  match slot with
  | FeeAllocation id => exists a, genesis_allocations s !! id = Some a /\ claimed_by a = None
  | FeeAccount id => is_Some (accounts s !! id)
  end.
Proof.
  unfold CentralAuthorityFeeBalance. intros E. walk E; some_inj E.
  - by guards.
  - apply FindCentralAuthorityAllocation_lookup in Hopt. eauto.
Qed.
Lemma fee_slot_read s slot : CentralAuthorityFeeBalance s = Some slot -> is_Some (fee_read s slot).
Proof.
  intros E%fee_slot_inv. destruct slot; simpl.
  - destruct E as (a & -> & _). by eexists.
  - destruct E as [a ->]. by eexists.
Qed.
Lemma fee_read_le s slot b : amounts_wf s -> CentralAuthorityFeeBalance s = Some slot -> fee_read s slot = Some b ->
  0 <= b <= supply s.
Proof.
  intros Hwf E%fee_slot_inv Hb. destruct slot; simpl in Hb.
  - destruct E as (a & Ha & Hc). rewrite Ha in Hb. injection Hb as <-.
    pose proof (parts_nonneg s Hwf). destruct (amounts_nonneg s Hwf) as (_ & Hn & _).
    pose proof (map_sum_lookup_le allocation_money _ _ _ Hn Ha) as Hle. pose proof (aw_allocations _ Hwf _ _ Ha) as Hu.
    unfold supply, allocation_money in *. rewrite Hc in Hle. simpl in Hu. ulia.
  - destruct E as [a Ha]. rewrite Ha in Hb. injection Hb as <-. pose proof (supply_account s _ _ Hwf Ha). lia.
Qed.
Lemma fee_write_supply s slot b v : CentralAuthorityFeeBalance s = Some slot -> fee_read s slot = Some b ->
  supply (fee_write s slot v) = supply s - b + v.
Proof.
  intros E%fee_slot_inv Hb. unfold supply. destruct slot; simpl in *.
  - destruct E as (a & Ha & Hc). rewrite Ha in Hb. injection Hb as <-. rewrite (alter_insert_id _ _ _ a Ha).
    rewrite (map_sum_insert allocation_money _ _ _ _ Ha). unfold allocation_money at 2 3. simpl. rewrite Hc. lia.
  - destruct E as [a Ha]. rewrite Ha in Hb. injection Hb as <-. rewrite (alter_insert_id _ _ _ a Ha).
    rewrite (map_sum_insert account_money _ _ _ _ Ha). unfold account_money at 2 3. simpl. lia.
Qed.
Lemma fee_write_amounts s slot v : amounts_wf s -> is_u64 v -> amounts_wf (fee_write s slot v).
Proof.
  intros [H1 H2 H3] Hv. destruct slot; constructor; try done; simpl; intros k x Hk;
    (apply lookup_alter_Some in Hk as [(<- & y & Hy & ->)|[_ Hk]]; [|by eapply H1 || by eapply H2]); [done|].
  destruct (H1 _ _ Hy) as (? & ? & ?). by unfold account_wf.
Qed.

(** Where fees go depends on the allocations, the names and on which accounts
    and identities exist, not on any amount. *)
Definition same_fee_frame (s s' : CybouState) : Prop :=
  genesis_allocations s' = genesis_allocations s /\ st_names s' = st_names s /\
  (forall id, is_Some (accounts s' !! id) <-> is_Some (accounts s !! id)) /\
  (forall id, is_Some (accounts s !! id) ->
    (is_Some (Find (identities s') id) <-> is_Some (Find (identities s) id))).
Lemma same_fee_frame_trans a b c : same_fee_frame a b -> same_fee_frame b c -> same_fee_frame a c.
Proof.
  intros (A1 & A2 & A3 & A4) (B1 & B2 & B3 & B4). split_and!; [congruence..| |]; intros id.
  - by rewrite B3, A3.
  - intros Hid. by rewrite B4, A4 by (by rewrite ?A3).
Qed.
Lemma fee_slot_frame s s' : same_fee_frame s s' -> CentralAuthorityFeeBalance s' = CentralAuthorityFeeBalance s.
Proof.
  intros (E1 & E2 & E3 & E4). unfold CentralAuthorityFeeBalance, FindCentralAuthorityAllocation. rewrite E1, E2.
  destruct (find_authority _ _) as [[id a]|]; [|done]. destruct (claimed_by a) as [o|]; [|done].
  rewrite (bool_decide_ext _ _ (E3 o)). destruct (decide (is_Some (accounts s !! o))) as [Ho|Ho].
  - by rewrite (bool_decide_ext _ _ (E4 o Ho)).
  - by rewrite (bool_decide_eq_false_2 _ Ho).
Qed.
Lemma set_account_frame s id a : is_Some (accounts s !! id) -> same_fee_frame s (set_account s id a).
Proof.
  intros Ha. split_and!; [done..| |done]. intros j. simpl. destruct (decide (j = id)) as [->|Hne].
  - rewrite lookup_insert_eq. split; [done|by eexists].
  - by rewrite lookup_insert_ne.
Qed.

(** ** Debits and credits *)

Lemma DebitSystemBalance_spec a amount : account_wf a -> 0 <= amount <= system_balance a ->
  let r := DebitSystemBalance a amount in
  account_wf r.2 /\ balance r.2 = balance a /\ system_balance r.2 = system_balance a - amount /\
  r.1 = Z.min (onboarding_system_balance a) amount /\
  onboarding_system_balance r.2 = onboarding_system_balance a - r.1.
Proof.
  intros (H1 & H2 & H3) Hle. unfold DebitSystemBalance, account_wf. simpl.
  rewrite !sub64_small by ulia. split_and!; ulia.
Qed.

(** Crediting the fee destination always succeeds as long as the money is
    really there. *)
Lemma CreditCentralAuthorityFee_spec s fee : amounts_wf s -> 0 <= fee -> supply s + fee < MAX64 ->
  is_Some (CentralAuthorityFeeBalance s) ->
  let r := CreditCentralAuthorityFee s fee in
  r.1 = true /\ supply r.2 = supply s + fee /\ amounts_wf r.2.
Proof.
  intros Hwf Hf Hs [slot Hslot]. destruct (fee_slot_read _ _ Hslot) as [b Hb].
  pose proof (fee_read_le _ _ _ Hwf Hslot Hb) as Hle. pose proof (parts_nonneg s Hwf).
  unfold CreditCentralAuthorityFee, CanCreditCentralAuthorityFee. rewrite Hslot, Hb.
  rewrite sub64_small by (unfold supply in *; lia). rewrite (proj2 (Z.leb_le _ _)) by lia. cbn [negb fst snd].
  rewrite add64_small by lia. split_and!; [done| |].
  - rewrite (fee_write_supply _ _ b) by done. lia.
  - apply fee_write_amounts; [done|]. ulia.
Qed.

(** What a fee leaves alone. *)
Record fee_keeps (s s' : CybouState) : Prop := {
  fk_identities : identities s' = identities s;
  fk_names : st_names s' = st_names s;
  fk_publications : publications s' = publications s;
  fk_settlement : settlement s' = settlement s;
  fk_leases : leases s' = leases s;
  fk_accounts : forall id, match accounts s !! id with
    | Some a => exists b, accounts s' !! id = Some (with_balance a b)
    | None => accounts s' !! id = None
    end;
  fk_allocations : forall id, match genesis_allocations s !! id with
    | Some a => exists b, genesis_allocations s' !! id = Some (mkAllocation b (alloc_label a) (claimed_by a))
    | None => genesis_allocations s' !! id = None
    end;
}.
Lemma fee_keeps_refl s : fee_keeps s s.
Proof.
  constructor; try done; intros id.
  - destruct (accounts s !! id) as [a|]; [|done]. exists (balance a). by destruct a.
  - destruct (genesis_allocations s !! id) as [a|]; [|done]. exists (alloc_balance a). by destruct a.
Qed.
Lemma fee_write_keeps s slot v : fee_keeps s (fee_write s slot v).
Proof.
  pose proof (fee_keeps_refl s) as Hr. destruct slot as [k|k]; constructor; try done; try apply Hr; intros id; simpl.
  - destruct (decide (k = id)) as [->|Hne]; [rewrite lookup_alter_eq|rewrite lookup_alter_ne by done; apply Hr].
    destruct (genesis_allocations s !! id) as [a|]; [|done]. by exists v.
  - destruct (decide (k = id)) as [->|Hne]; [rewrite lookup_alter_eq|rewrite lookup_alter_ne by done; apply Hr].
    destruct (accounts s !! id) as [a|]; [|done]. by exists v.
Qed.
Lemma CreditCentralAuthorityFee_keeps s fee : fee_keeps s (CreditCentralAuthorityFee s fee).2.
Proof.
  unfold CreditCentralAuthorityFee. repeat case_match; try apply fee_keeps_refl. apply fee_write_keeps.
Qed.
