(* ===== verification/LedgerProofs.v ===== *)
(** * The ledger conserves money

    Every operation of [Ledger] that is accepted leaves the supply of the
    state unchanged, and one that is rejected leaves the whole state
    unchanged. *)

From S2P Require Import Prelude.
From S2P Require Import Bytes.
From S2P Require Import Codec.
From S2P Require Import Params.
From S2P Require Import StorageEconomy.
From S2P Require Import Crypto.
From S2P Require Import Identity.
From S2P Require Import Names.
From S2P Require Import Payloads.
From S2P Require Import Operation.
From S2P Require Import State.
From S2P Require Import Ledger.
From S2P Require Import Supply.

Section ledger_proofs.
Context `{CryptoOps}.

(** ** Authorization *)

Lemma set_identities_id s : set_identities s (identities s) = s.
Proof. by destruct s. Qed.
Lemma authorize_failed s auth nb s' : authorize s auth nb = (true, s') -> s' = s.
Proof.
  unfold authorize. destruct (AuthorizeOperation _ _ _) as [e reg] eqn:E. intros [= Hb <-].
  apply negb_true_iff, bool_decide_eq_false in Hb. rewrite (AuthorizeOperation_error _ _ _ _ _ E Hb).
  apply set_identities_id.
Qed.
Lemma authorize_ok s auth nb s' : authorize s auth nb = (false, s') ->
  exists reg, AuthorizeOperation (identities s) auth nb = (IR_NONE, reg) /\ s' = set_identities s reg.
Proof.
  unfold authorize. destruct (AuthorizeOperation _ _ _) as [e reg] eqn:E. intros [= Hb <-].
  apply negb_false_iff, bool_decide_eq_true in Hb. subst e. eauto.
Qed.
Lemma AuthorizeOperation_dom reg rq nb reg' : AuthorizeOperation reg rq nb = (IR_NONE, reg') ->
  forall id, is_Some (Find reg' id) <-> is_Some (Find reg id).
Proof.
  intros (rec & dg & Hacc & _ & _ & _ & _ & _ & ->)%AuthorizeOperation_inv id. unfold Find. simpl.
  destruct (decide (id = oa_account_id rq)) as [->|Hne].
  - rewrite lookup_insert_eq, Hacc. by split; eexists.
  - by rewrite lookup_insert_ne.
Qed.
Lemma authorize_frame s auth nb s' : authorize s auth nb = (false, s') -> same_fee_frame s s' /\ same_money s s'.
Proof.
  intros (reg & E & ->)%authorize_ok. split; [|done]. split_and!; try done. intros id _. by eapply AuthorizeOperation_dom.
Qed.

(** ** Fees *)

Lemma CanCredit_slot s fee : CanCreditCentralAuthorityFee s fee = true -> is_Some (CentralAuthorityFeeBalance s).
Proof. unfold CanCreditCentralAuthorityFee. by destruct (CentralAuthorityFeeBalance s). Qed.

Lemma debit_system_spec s id a amount : amounts_wf s -> accounts s !! id = Some a -> account_wf a ->
  0 <= amount <= system_balance a ->
  supply (debit_system s id a amount) = supply s - amount /\ amounts_wf (debit_system s id a amount) /\
  same_fee_frame s (debit_system s id a amount).
Proof.
  intros Hwf Ha Hw Hle. destruct (DebitSystemBalance_spec a amount Hw Hle) as (D1 & D2 & D3 & _).
  unfold debit_system. split_and!.
  - rewrite (supply_set_account _ _ a) by done. unfold account_money. lia.
  - by apply amounts_set_account.
  - apply set_account_frame. by eexists.
Qed.

Definition conserves (s s' : CybouState) : Prop := supply s' = supply s /\ amounts_wf s'.

Lemma credit_fee_spec s fee : amounts_wf s -> 0 <= fee -> supply s + fee < MAX64 ->
  is_Some (CentralAuthorityFeeBalance s) -> supply (credit_fee s fee) = supply s + fee /\ amounts_wf (credit_fee s fee).
Proof. intros. by apply CreditCentralAuthorityFee_spec. Qed.

(** A fee paid from a system balance to the fee destination. *)
Lemma fee_transfer s id a fee : money_wf s -> accounts s !! id = Some a ->
  0 <= fee <= system_balance a -> is_Some (CentralAuthorityFeeBalance s) ->
  conserves s (credit_fee (debit_system s id a fee) fee).
Proof.
  intros [Hwf Hs] Ha Hle Hslot.
  destruct (debit_system_spec s id a fee Hwf Ha (aw_accounts _ Hwf _ _ Ha) Hle) as (D1 & D2 & D3).
  destruct (credit_fee_spec (debit_system s id a fee) fee) as [C1 C2]; [done|lia|lia|by rewrite (fee_slot_frame _ _ D3)|].
  split; [lia|done].
Qed.

Lemma same_money_wf s s' : same_money s s' -> money_wf s -> money_wf s'.
Proof.
  intros E [Hwf Hs]. split; [by eapply same_money_amounts|]. by rewrite (same_money_supply _ _ E).
Qed.
Lemma conserves_money s s' : conserves s s' -> money_wf s -> money_wf s'.
Proof. intros [E1 E2] [_ Hs]. split; [done|lia]. Qed.
Lemma conserves_trans a b c : conserves a b -> conserves b c -> conserves a c.
Proof. intros [E1 _] [E2 H2]. split; [lia|done]. Qed.
Lemma same_money_conserves s s' : same_money s s' -> amounts_wf s -> conserves s s'.
Proof. intros E Hwf. split; [by apply same_money_supply|by eapply same_money_amounts]. Qed.

(** ** Payments and locks *)

(** The money moves of a payment: [amount] from one account to another and
    the fee. *)
Definition pay_moves (s : CybouState) (sid rid : AccountId) (a b : AccountState) (amount fee : Z) : CybouState :=
  credit_fee (set_account (debit_system s sid (with_balance a (balance a ⊖ amount)) fee) rid
    (with_balance b (balance b ⊕ amount))) fee.
Lemma pay_moves_conserves s sid rid a b amount fee :
  money_wf s -> sid <> rid -> accounts s !! sid = Some a -> accounts s !! rid = Some b ->
  0 <= amount <= balance a -> 0 <= fee <= system_balance a -> is_Some (CentralAuthorityFeeBalance s) ->
  conserves s (pay_moves s sid rid a b amount fee).
Proof.
  intros [Hwf Hs] Hne Ha Hb Hamt Hfee Hslot. unfold pay_moves.
  pose proof (supply_two_accounts s sid rid a b Hwf Hne Ha Hb) as Htwo. unfold account_money in Htwo.
  destruct (aw_accounts _ Hwf _ _ Ha) as (A1 & A2 & A3). destruct (aw_accounts _ Hwf _ _ Hb) as (B1 & B2 & B3).
  set (a1 := with_balance a (balance a ⊖ amount)). set (b1 := with_balance b (balance b ⊕ amount)).
  assert (W1 : account_wf a1) by (unfold a1, account_wf; simpl; rewrite sub64_small by ulia; split_and!; ulia).
  assert (W2 : account_wf b1) by (unfold b1, account_wf; simpl; rewrite add64_small by ulia; split_and!; ulia).
  destruct (DebitSystemBalance_spec a1 fee W1) as (D1 & D2 & D3 & _); [done|].
  set (s1 := debit_system s sid a1 fee).
  assert (Hb1 : accounts s1 !! rid = Some b) by (unfold s1, debit_system; simpl; by rewrite lookup_insert_ne).
  assert (S1 : supply s1 = supply s - amount - fee).
  { unfold s1, debit_system. rewrite (supply_set_account _ _ a) by done. unfold account_money. rewrite D2, D3.
    unfold a1. simpl. rewrite sub64_small by ulia. lia. }
  assert (S2 : supply (set_account s1 rid b1) = supply s - fee).
  { rewrite (supply_set_account _ _ b) by done. unfold account_money, b1. simpl. rewrite add64_small by ulia. lia. }
  assert (F : same_fee_frame s (set_account s1 rid b1)).
  { apply same_fee_frame_trans with s1; apply set_account_frame; by eexists. }
  destruct (credit_fee_spec (set_account s1 rid b1) fee) as [C1 C2]; [|lia..|by rewrite (fee_slot_frame _ _ F)|].
  - apply amounts_set_account; [|done]. by apply amounts_set_account.
  - split; [lia|done].
Qed.

Lemma ApplyPayment_inv op nb params s s' : ApplyPayment op nb params s = (PE_NONE, s') ->
  let sid := oa_account_id (pay_authorization op) in
  let rid := recipient (payment op) in
  let amount := pay_amount (payment op) in
  exists reg a b, AuthorizeOperation (identities s) (pay_authorization op) nb = (IR_NONE, reg) /\
    ComputePaymentPayloadCommitment (payment op) = Some (oa_payload_commitment (pay_authorization op)) /\
    accounts s !! sid = Some a /\ accounts s !! rid = Some b /\ sid <> rid /\ amount <> 0 /\
    amount <= balance a /\ payment_fee params <= system_balance a /\
    CanCreditCentralAuthorityFee s (payment_fee params) = true /\
    s' = pay_moves (set_identities s reg) sid rid a b amount (payment_fee params).
Proof.
  intros E. unfold ApplyPayment in E. walk E. injection E as <-. destruct b; [done|]. guards.
  apply authorize_ok in Hpair0 as (reg & Er & ->). exists reg, a, a0. by split_and!.
Qed.

Lemma set_identities_frame s auth nb reg : AuthorizeOperation (identities s) auth nb = (IR_NONE, reg) ->
  same_fee_frame s (set_identities s reg) /\ same_money s (set_identities s reg).
Proof. intros E. split; [|done]. split_and!; try done. intros id _. by eapply AuthorizeOperation_dom. Qed.

Lemma ApplyPayment_conserves op nb params s s' :
  params_wf params -> is_u64 (pay_amount (payment op)) -> money_wf s ->
  ApplyPayment op nb params s = (PE_NONE, s') -> conserves s s'.
Proof.
  intros Hp Hamt Hm (reg & a & b & Er & _ & Ha & Hb & Hne & _ & Hle & Hf & Hcan & ->)%ApplyPayment_inv.
  destruct (set_identities_frame _ _ _ _ Er) as [F M]. apply CanCredit_slot in Hcan.
  eapply conserves_trans; [by apply same_money_conserves; [exact M|apply Hm]|].
  unfold params_wf in Hp. apply pay_moves_conserves; [by eapply same_money_wf|done..|ulia|ulia|].
  by rewrite (fee_slot_frame _ _ F).
Qed.

Lemma ApplySystemLock_conserves op nb s s' :
  is_u64 (lock_amount (lock op)) -> money_wf s -> ApplySystemLock op nb s = (SL_NONE, s') -> conserves s s'.
Proof.
  intros Hamt Hm E. unfold ApplySystemLock in E. walk E. injection E as <-. destruct b; [done|]. guards.
  destruct (authorize_frame _ _ _ _ Hpair) as [_ M]. destruct (same_money_wf _ _ M Hm) as [Hwf Hs].
  pose proof M as (Ea & _). rewrite <- Ea in Hopt. pose proof (supply_account _ _ _ Hwf Hopt) as Hsa.
  destruct (aw_accounts _ Hwf _ _ Hopt) as (A1 & A2 & A3).
  eapply conserves_trans; [by apply same_money_conserves; [exact M|apply Hm]|]. simpl.
  rewrite sub64_small, add64_small by ulia. split.
  - rewrite (supply_set_account _ _ a) by done. unfold account_money. simpl. lia.
  - apply amounts_set_account; [done|]. unfold account_wf. simpl. split_and!; ulia.
Qed.

(** ** Leases *)

Lemma supply_set_lease s id l' :
  supply (set_leases s (<[id := l']> (leases s))) =
  supply s - match leases s !! id with Some l => lease_money l | None => 0 end + lease_money l'.
Proof.
  unfold supply. simpl. destruct (leases s !! id) as [l|] eqn:E.
  - rewrite (map_sum_insert lease_money _ _ _ _ E). lia.
  - rewrite map_sum_insert_new by done. lia.
Qed.
Lemma amounts_set_lease s id l : amounts_wf s -> is_u64 (lr_escrow_onboarding l) /\ is_u64 (lr_escrow_locked l) ->
  amounts_wf (set_leases s (<[id := l]> (leases s))).
Proof. intros [H1 H2 H3] Hl. constructor; [done..|]. simpl. by apply map_Forall_insert_2. Qed.

Lemma FundStorageLease_inv s id payer units replicas periods escrow params fid s' :
  FundStorageLease s id payer units replicas periods escrow params fid = Ret s' ->
  exists budget a, ComputeAssignedStorageBudget units replicas periods (storage_settlement_period_seconds params)
      (storage_rate_per_gib_day_replica params) = Some budget /\ total budget = escrow /\
    accounts s !! payer = Some a /\
    let r := DebitSystemBalance a escrow in
    let first := next_term_start s (leases s !! id) in
    let term := mkFundedTerm fid first (first ⊕ periods) (storage_rate_per_gib_day_replica params)
      (storage_settlement_period_seconds params) (per_replica budget) (contracted_unit_seconds budget)
      r.1 (escrow ⊖ r.1) 0 0 1 [] [] [] 0 0 in
    s' = set_leases (set_account s payer r.2) (<[id :=
      match leases s !! id with
      | Some l => mkLease (lr_payer l) (lr_units l) (lr_replicas l) (lr_first_period l) (first ⊕ periods)
          (lr_escrow_onboarding l ⊕ r.1) (lr_escrow_locked l ⊕ (escrow ⊖ r.1)) (lr_funded_terms l ++ [term])
      | None => mkLease payer units replicas first (first ⊕ periods) r.1 (escrow ⊖ r.1) [term]
      end]> (leases s)).
Proof.
  unfold FundStorageLease. intros E. walk E. injection E as <-. guards. exists a, a0. split_and!; try done.
  by rewrite Hpair.
Qed.

Lemma FundStorageLease_conserves s id payer units replicas periods escrow params fid s' a :
  money_wf s -> accounts s !! payer = Some a -> 0 <= escrow <= system_balance a ->
  FundStorageLease s id payer units replicas periods escrow params fid = Ret s' -> conserves s s'.
Proof.
  intros [Hwf Hs] Ha Hle (budget & a' & _ & _ & Ha' & ->)%FundStorageLease_inv.
  assert (a' = a) as -> by congruence. clear Ha'.
  destruct (aw_accounts _ Hwf _ _ Ha) as (A1 & A2 & A3). pose proof (supply_account _ _ _ Hwf Ha) as Hsa.
  destruct (DebitSystemBalance_spec a escrow) as (D1 & D2 & D3 & D4 & _); [done|done|].
  set (r := DebitSystemBalance a escrow) in *. set (s1 := set_account s payer r.2).
  assert (S1 : supply s1 = supply s - escrow) by
    (unfold s1; rewrite (supply_set_account _ _ a) by done; unfold account_money; lia).
  assert (W1 : amounts_wf s1) by by apply amounts_set_account.
  assert (Hb : 0 <= r.1 <= escrow) by lia.
  rewrite (sub64_small escrow r.1) by ulia. change (leases s) with (leases s1). destruct (leases s1 !! id) as [l|] eqn:El.
  - pose proof (supply_lease _ _ _ W1 El) as Hl. destruct (aw_leases _ W1 _ _ El) as [L1 L2].
    rewrite (add64_small _ r.1), (add64_small _ (escrow - r.1)) by ulia. split; [|apply amounts_set_lease; [done|simpl; ulia]].
    rewrite supply_set_lease, El. unfold lease_money. simpl. lia.
  - split; [|apply amounts_set_lease; [done|simpl; ulia]].
    rewrite supply_set_lease, El. unfold lease_money. simpl. lia.
Qed.

(** After the fee was paid, the payer can still pay the escrow. *)
Lemma fee_transfer_account s id a fee : accounts s !! id = Some a -> account_wf a -> 0 <= fee <= system_balance a ->
  exists b, accounts (credit_fee (debit_system s id a fee) fee) !! id = Some b /\
    system_balance b = system_balance a - fee.
Proof.
  intros Ha Hw Hle. destruct (DebitSystemBalance_spec a fee Hw Hle) as (_ & _ & D3 & _).
  pose proof (fk_accounts _ _ (CreditCentralAuthorityFee_keeps (debit_system s id a fee) fee) id) as Hk.
  unfold debit_system in Hk at 1. simpl in Hk. rewrite lookup_insert_eq in Hk.
  destruct Hk as [v Hk]. eexists. split; [exact Hk|]. done.
Qed.

Lemma ComputeRootPublicationFee_nonneg params n chunks fee :
  ComputeRootPublicationFee params n chunks = Some fee -> is_u64 fee.
Proof.
  unfold ComputeRootPublicationFee. intros E. walk E. some_inj E. apply wrap64_range.
Qed.
Lemma ComputeAssignedStorageBudget_u64 u r p ps rate b :
  ComputeAssignedStorageBudget u r p ps rate = Some b -> is_u64 (total b).
Proof.
  unfold ComputeAssignedStorageBudget. intros E. walk E. some_inj E. simpl.
  unfold CheckedMul in Hopt1. walk Hopt1. some_inj Hopt1. apply wrap64_range.
Qed.

Lemma ApplyRootPublication_inv op nb params s s' : ApplyRootPublication op nb params s = Ret (RP_NONE, s') ->
  let id := oa_account_id (rp_authorization op) in
  exists reg a l fee pid escrow,
    AuthorizeOperation (identities s) (rp_authorization op) nb = (IR_NONE, reg) /\
    SerializeProtocolOperation (OpRootPublication op) = Ret (Some l) /\
    ComputeRootPublicationFee params (zlen l) (pub_chunk_count (publication op)) = Some fee /\
    ComputeOperationIdBytes l = Some pid /\
    accounts s !! id = Some a /\ is_u64 fee /\ is_u64 escrow /\ fee + escrow <= system_balance a /\
    CanCreditCentralAuthorityFee s fee = true /\
    let s1 := credit_fee (debit_system (set_identities s reg) id a fee) fee in
    if negb (escrow =? 0)
    then FundStorageLease s1 pid id (pub_chunk_count (publication op)) (storage_replica_target params)
           (pub_lease_periods (publication op)) escrow params pid = Ret s'
    else s' = s1.
Proof.
  intros E id. unfold ApplyRootPublication in E.
  assert (Hesc : forall e, (if negb (pub_lease_periods (publication op) =? 0)
      then ComputeStorageLeaseEscrow params (pub_chunk_count (publication op)) (storage_replica_target params)
             (pub_lease_periods (publication op)) else Some 0) = Some e -> is_u64 e).
  { clear. intros e E1. walk_step E1; [|some_inj E1; ulia]. unfold ComputeStorageLeaseEscrow in E1. walk E1.
    some_inj E1. by eapply ComputeAssignedStorageBudget_u64. }
  walk E; (destruct b; [done|]); specialize (Hesc _ eq_refl); injection E as <-; guards.
  all: apply authorize_ok in Hpair as (reg & Er & ->); pose proof (ComputeRootPublicationFee_nonneg _ _ _ _ Hopt0) as Hfee.
  all: rewrite sub64_small in Hif3 by ulia; rewrite add64_small in Hif5 by ulia.
  all: exists reg, a1, l, z, a0, z0; split_and!; try done.
  - by rewrite (proj2 (Z.eqb_neq _ _)).
  - by rewrite Hif8.
Qed.

Lemma ApplyRootPublication_conserves op nb params s s' : money_wf s ->
  ApplyRootPublication op nb params s = Ret (RP_NONE, s') -> conserves s s'.
Proof.
  intros Hm (reg & a & l & fee & pid & escrow & Er & _ & _ & _ & Ha & Hfee & Hesc & Hle & Hcan & Hs')%ApplyRootPublication_inv.
  destruct (set_identities_frame _ _ _ _ Er) as [F M]. apply CanCredit_slot in Hcan.
  pose proof (same_money_wf _ _ M Hm) as Hm1. set (s1 := set_identities s reg) in *.
  assert (Ha1 : accounts s1 !! oa_account_id (rp_authorization op) = Some a) by done.
  pose proof (aw_accounts _ (proj1 Hm) _ _ Ha) as Hw.
  assert (C : conserves s (credit_fee (debit_system s1 (oa_account_id (rp_authorization op)) a fee) fee)).
  { eapply conserves_trans; [by apply same_money_conserves; [exact M|apply Hm]|].
    apply fee_transfer; [done..|ulia|]. by rewrite (fee_slot_frame _ _ F). }
  destruct (fee_transfer_account s1 _ a fee Ha1 Hw ltac:(ulia)) as (b & Hb & Hsb).
  cbv zeta in Hs'. destruct (Z.eqb_spec escrow 0) as [->|Hne]; cbn [negb] in Hs'; [by subst s'|].
  eapply conserves_trans; [exact C|]. refine (FundStorageLease_conserves _ _ _ _ _ _ _ _ _ _ _ _ Hb _ Hs'); [by eapply conserves_money|ulia].
Qed.

Lemma ApplyStorageLease_inv op nb params s s' : is_u64 (payment_fee params) ->
  ApplyStorageLease op nb params s = Ret (LE_NONE, s') ->
  let id := oa_account_id (lease_authorization op) in
  let pid := lease_publication_id (lease op) in
  let fee := payment_fee params in
  exists reg a record escrow fid,
    AuthorizeOperation (identities s) (lease_authorization op) nb = (IR_NONE, reg) /\
    ComputeOperationId (OpStorageLease op) = Ret (Some fid) /\
    accounts s !! id = Some a /\ publications s !! pid = Some record /\ pr_owner record = id /\
    is_u64 escrow /\ escrow + fee <= system_balance a /\
    CanCreditCentralAuthorityFee s fee = true /\
    FundStorageLease (credit_fee (debit_system (set_identities s reg) id a fee) fee) pid id (pr_chunk_count record)
      (match leases s !! pid with Some l => lr_replicas l | None => storage_replica_target params end)
      (lease_periods (lease op)) escrow params fid = Ret s'.
Proof.
  intros Hfee E. unfold ApplyStorageLease in E. walk E. destruct b; [done|]. injection E as <-.
  assert (He : is_u64 z).
  { unfold ComputeStorageLeaseEscrow in Hopt1. walk Hopt1. some_inj Hopt1. by eapply ComputeAssignedStorageBudget_u64. }
  apply authorize_ok in Hpair as (reg & Er & ->). apply orb_false_iff in Hif0 as [Hif0 _]. guards.
  rewrite sub64_small in Hif3 by ulia. rewrite add64_small in Hif7 by ulia.
  exists reg, a, p, z, a1. subst. by split_and!.
Qed.

Lemma ApplyStorageLease_conserves op nb params s s' : params_wf params -> money_wf s ->
  ApplyStorageLease op nb params s = Ret (LE_NONE, s') -> conserves s s'.
Proof.
  intros Hp Hm E. assert (Hfee : is_u64 (payment_fee params)) by apply Hp.
  destruct (ApplyStorageLease_inv _ _ _ _ _ Hfee E) as (reg & a & record & escrow & fid & Er & _ & Ha & _ & _ & Hesc & Hle & Hcan & Hs').
  clear E. destruct (set_identities_frame _ _ _ _ Er) as [F M]. apply CanCredit_slot in Hcan.
  pose proof (same_money_wf _ _ M Hm) as Hm1. set (s1 := set_identities s reg) in *.
  assert (Ha1 : accounts s1 !! oa_account_id (lease_authorization op) = Some a) by done.
  pose proof (aw_accounts _ (proj1 Hm) _ _ Ha) as Hw.
  assert (C : conserves s (credit_fee (debit_system s1 (oa_account_id (lease_authorization op)) a (payment_fee params)) (payment_fee params))).
  { eapply conserves_trans; [by apply same_money_conserves; [exact M|apply Hm]|].
    apply fee_transfer; [done..|ulia|]. by rewrite (fee_slot_frame _ _ F). }
  destruct (fee_transfer_account s1 _ a (payment_fee params) Ha1 Hw ltac:(ulia)) as (b & Hb & Hsb).
  eapply conserves_trans; [exact C|]. refine (FundStorageLease_conserves _ _ _ _ _ _ _ _ _ _ _ _ Hb _ Hs'); [by eapply conserves_money|ulia].
Qed.

Lemma ApplyRevokePublication_inv op nb params s s' : ApplyRevokePublication op nb params s = (RV_NONE, s') ->
  let id := oa_account_id (rev_authorization op) in
  let pid := rev_publication_id (revoke op) in
  let fee := payment_fee params in
  exists reg a record, AuthorizeOperation (identities s) (rev_authorization op) nb = (IR_NONE, reg) /\
    accounts s !! id = Some a /\ publications s !! pid = Some record /\ pr_owner record = id /\
    fee <= system_balance a /\ CanCreditCentralAuthorityFee s fee = true /\
    s' = credit_fee (debit_system (set_publications (set_leases (set_identities s reg)
           (alter (fun l => with_end_period l
              (Z.min (lr_end_period l) (Z.max (lr_first_period l) (next_period (settlement s)) ⊕ 1))) pid (leases s)))
           (delete pid (publications s))) id a fee) fee.
Proof.
  intros E. unfold ApplyRevokePublication in E. walk E. injection E as <-. destruct b; [done|]. guards.
  apply authorize_ok in Hpair as (reg & Er & ->). exists reg, a, p. by split_and!.
Qed.

(** Closing a lease moves none of its escrow. *)
Lemma close_lease_money s f pid :
  (forall l, lr_escrow_onboarding (f l) = lr_escrow_onboarding l /\ lr_escrow_locked (f l) = lr_escrow_locked l) ->
  amounts_wf s -> conserves s (set_leases s (alter f pid (leases s))).
Proof.
  intros Hf Hwf. destruct (leases s !! pid) as [l|] eqn:El.
  - rewrite (alter_insert_id _ _ _ l El). destruct (Hf l) as [E1 E2]. split.
    + rewrite supply_set_lease, El. unfold lease_money. rewrite E1, E2. lia.
    + apply amounts_set_lease; [done|]. rewrite E1, E2. by apply (aw_leases _ Hwf pid).
  - rewrite alter_none by done. destruct s. done.
Qed.

Lemma ApplyRevokePublication_conserves op nb params s s' : params_wf params -> money_wf s ->
  ApplyRevokePublication op nb params s = (RV_NONE, s') -> conserves s s'.
Proof.
  intros Hp Hm (reg & a & record & Er & Ha & _ & _ & Hle & Hcan & ->)%ApplyRevokePublication_inv.
  destruct (set_identities_frame _ _ _ _ Er) as [F M]. apply CanCredit_slot in Hcan.
  pose proof (same_money_wf _ _ M Hm) as Hm1. set (s1 := set_identities s reg) in *.
  match goal with |- context [set_leases s1 (alter ?f ?pid _)] =>
    pose proof (close_lease_money s1 f pid (fun _ => conj eq_refl eq_refl) (proj1 Hm1)) as C; set (s2 := set_leases s1 _) in * end.
  set (s3 := set_publications s2 _). assert (M3 : same_money s2 s3) by done.
  pose proof (conserves_money _ _ C Hm1) as Hm2. pose proof (same_money_wf _ _ M3 Hm2) as Hm3.
  eapply conserves_trans; [by apply same_money_conserves; [exact M|apply Hm]|].
  eapply conserves_trans; [exact C|]. eapply conserves_trans; [by apply same_money_conserves; [exact M3|apply Hm2]|].
  unfold params_wf in Hp. apply fee_transfer; [done..|ulia|].
  assert (F3 : same_fee_frame s1 s3) by done. by rewrite (fee_slot_frame _ _ F3), (fee_slot_frame _ _ F).
Qed.

(** ** Account creation *)

Lemma contains_false {K V} `{Countable K} (m : gmap K V) k : contains m k = false -> m !! k = None.
Proof. unfold contains. intros Hc. by apply bool_decide_eq_false, eq_None_not_Some in Hc. Qed.
Lemma contains_true {K V} `{Countable K} (m : gmap K V) k : contains m k = true -> is_Some (m !! k).
Proof. unfold contains. intros Hc. by apply bool_decide_eq_true in Hc. Qed.
Lemma emplace_new {K V} `{Countable K} (m : gmap K V) k v : m !! k = None -> emplace m k v = <[k := v]> m.
Proof. intros Hk. unfold emplace, contains. by rewrite bool_decide_eq_false_2 by (rewrite Hk; by intros [? ?]). Qed.

Lemma Register_dom reg op nb h p reg' : Register reg op nb h p = (IR_NONE, reg') ->
  forall id, id <> ac_account_id op -> Find reg' id = Find reg id.
Proof.
  intros (rid & pk & _ & _ & _ & _ & _ & ->)%Register_inv id Hne. unfold Find. simpl. by rewrite lookup_insert_ne.
Qed.
Lemma Register_frame s op nb h p reg : Register (identities s) op nb h p = (IR_NONE, reg) ->
  accounts s !! ac_account_id op = None -> same_fee_frame s (set_identities s reg) /\ same_money s (set_identities s reg).
Proof.
  intros E Hnew. split; [|done]. split_and!; try done. intros id Hid. simpl.
  rewrite (Register_dom _ _ _ _ _ _ E); [done|]. intros ->. rewrite Hnew in Hid. by destruct Hid.
Qed.

Lemma pay_bonus_spec s bonus : amounts_wf s -> 0 <= bonus -> treasury_short s bonus = false ->
  supply (pay_bonus s bonus) = supply s - bonus /\ amounts_wf (pay_bonus s bonus) /\ fee_keeps s (pay_bonus s bonus).
Proof.
  intros Hwf Hb. unfold treasury_short, pay_bonus, TreasuryBalance.
  destruct (CentralAuthorityFeeBalance s) as [slot|] eqn:Hslot; [|done].
  destruct (fee_read s slot) as [b|] eqn:Hr; [|done]. intros Hle%Z.ltb_ge.
  pose proof (fee_read_le _ _ _ Hwf Hslot Hr) as Hbs.
  assert (b <= MAX64).
  { pose proof (fee_slot_inv _ _ Hslot) as Hi. destruct slot; simpl in Hr.
    - destruct Hi as (a & Ha & _). rewrite Ha in Hr. injection Hr as <-. by apply (aw_allocations _ Hwf id).
    - destruct Hi as [a Ha]. rewrite Ha in Hr. injection Hr as <-. by apply (aw_accounts _ Hwf id). }
  rewrite sub64_small by lia. split_and!.
  - rewrite (fee_write_supply _ _ b) by done. lia.
  - apply fee_write_amounts; [done|]. ulia.
  - apply fee_write_keeps.
Qed.

(** The claimed amount leaves the allocations: from now on it is counted in
    the balance of the new account. *)
Lemma take_claim_spec s id a account_id : amounts_wf s -> genesis_allocations s !! id = Some a -> claimed_by a = None ->
  let r := take_claim s id account_id in
  r.1 = alloc_balance a /\ supply r.2 = supply s - alloc_balance a /\ amounts_wf r.2 /\
  accounts r.2 = accounts s /\ leases r.2 = leases s.
Proof.
  intros Hwf Ha Hc. unfold take_claim. rewrite Ha. cbv zeta. set (s1 := set_allocations s _).
  assert (S1 : supply s1 = supply s - alloc_balance a).
  { unfold s1, supply. simpl. rewrite (map_sum_insert allocation_money _ _ _ _ Ha). unfold allocation_money at 2 3.
    rewrite Hc. simpl. lia. }
  assert (W1 : amounts_wf s1).
  { destruct Hwf as [H1 H2 H3]. constructor; [done| |done]. simpl. apply map_Forall_insert_2; [exact (H2 id a Ha)|done]. }
  case_match; cbn [fst snd]; split_and!; try done.
  by apply (same_money_amounts s1).
Qed.

Lemma ApplyAccountCreate_inv op nb h params s s' : ApplyAccountCreate op nb h params s = (CS_NONE, s') ->
  let claim := find_claim op s in
  let bonus := creation_bonus params claim in
  exists reg, Register (identities s) op nb h params = (IR_NONE, reg) /\
    accounts s !! ac_account_id op = None /\ size (accounts s) = size (m_accounts (identities s)) /\
    (bonus <> 0 -> treasury_short s bonus = false) /\
    let s1 := if negb (bonus =? 0) then pay_bonus (set_identities s reg) bonus else set_identities s reg in
    let r := match claim with Some (id, _) => take_claim s1 id (ac_account_id op) | None => (0, s1) end in
    s' = set_accounts r.2 (emplace (accounts r.2) (ac_account_id op)
           (mkAccount r.1 bonus bonus h (EpochForHeight h params))).
Proof.
  intros E. unfold ApplyAccountCreate in E. do 4 walk_step E.
  cbv zeta in E. set (claim := find_claim op s) in *. set (bonus := creation_bonus params claim) in *.
  destruct (_ && _) eqn:Hb in E; [done|]. destruct (Register _ _ _ _ _) as [e reg] eqn:Er.
  destruct e; try done. exists reg. apply contains_false in Hif2. guards. split_and!; try done.
  - intros Hne. destruct (Z.eqb_spec bonus 0); [done|exact Hb].
  - cbv zeta. destruct claim as [[id a]|]; [destruct (take_claim _ _ _) as [g s2]|]; by injection E as <-.
Qed.

Lemma ApplyAccountCreate_conserves op nb h params s s' : params_wf params -> money_wf s ->
  ApplyAccountCreate op nb h params s = (CS_NONE, s') -> conserves s s'.
Proof.
  intros Hp Hm (reg & Er & Hnew & _ & Hshort & ->)%ApplyAccountCreate_inv.
  set (claim := find_claim op s) in *. set (bonus := creation_bonus params claim) in *.
  assert (Hbonus : is_u64 bonus) by (unfold bonus, creation_bonus; case_match; [ulia|apply Hp]).
  destruct (Register_frame _ _ _ _ _ _ Er Hnew) as [F M]. pose proof (same_money_wf _ _ M Hm) as Hm1.
  pose proof (same_money_supply _ _ M) as Es.
  set (s0 := set_identities s reg) in *. cbv zeta. set (s1 := if negb (bonus =? 0) then _ else _).
  assert (B : supply s1 = supply s0 - bonus /\ amounts_wf s1 /\ fee_keeps s0 s1).
  { unfold s1. destruct (Z.eqb_spec bonus 0) as [->|Hne]; simpl.
    - split_and!; [lia|apply Hm1|apply fee_keeps_refl].
    - apply pay_bonus_spec; [apply Hm1|ulia|]. rewrite <- (Hshort Hne). unfold treasury_short, TreasuryBalance.
      by rewrite (fee_slot_frame _ _ F). }
  clearbody s1. destruct B as (B1 & B2 & B3).
  assert (Hnew1 : accounts s1 !! ac_account_id op = None).
  { pose proof (fk_accounts _ _ B3 (ac_account_id op)) as Hk. unfold s0 in Hk. simpl in Hk. by rewrite Hnew in Hk. }
  set (r := match claim with Some (id, _) => _ | None => _ end).
  assert (R : 0 <= r.1 <= MAX64 /\ supply r.2 = supply s1 - r.1 /\ amounts_wf r.2 /\ accounts r.2 = accounts s1).
  { unfold r. destruct claim as [[id a]|] eqn:Ec; simpl; [|split_and!; (done || lia)].
    subst claim. unfold find_claim in Ec. walk Ec. injection Ec as -> ->.
    pose proof (fk_allocations _ _ B3 id) as Hk. unfold s0 in Hk. simpl in Hk. rewrite Hopt0 in Hk.
    destruct Hk as [v Hk]. destruct (take_claim_spec _ _ _ (ac_account_id op) B2 Hk Hif) as (T1 & T2 & T3 & T4 & _).
    pose proof (aw_allocations _ B2 _ _ Hk) as Hu. rewrite T1. split_and!; [apply Hu..|done|done|done]. }
  clearbody r. destruct R as (R1 & R2 & R3 & R4). rewrite emplace_new by by rewrite R4.
  pose proof (parts_nonneg _ R3) as Hn. unfold supply in Hn.
  change (set_accounts r.2 (<[?k := ?v]> _)) with (set_account r.2 k v). split.
  - rewrite supply_new_account by by rewrite R4. unfold account_money. simpl. lia.
  - apply amounts_set_account; [done|]. unfold account_wf. simpl. ulia.
Qed.

(** ** Names and identities move no money *)

Lemma ApplyNameCommit_inv op nb h params s s' : ApplyNameCommit op nb h params s = Ret (NC_NONE, s') ->
  let id := oa_account_id (nc_authorization op) in
  exists reg, AuthorizeOperation (identities s) (nc_authorization op) nb = (IR_NONE, reg) /\
    is_Some (accounts s !! id) /\ account_names (st_names s) !! id = None /\
    (forall c record, pending_commits (st_names s) !! c = Some record -> cr_account_id record <> id) /\
    Z.of_nat (size (pending_commits (st_names s))) < max_pending_name_commits params /\
    pending_commits (st_names s) !! commitment (nc_commit op) = None /\
    s' = set_names (set_identities s reg) (mkNameRegistry (names (st_names s)) (account_names (st_names s))
           (<[commitment (nc_commit op) := mkNameCommitRecord id h]> (pending_commits (st_names s)))).
Proof.
  intros E. unfold ApplyNameCommit in E. walk E. destruct b; [done|]. injection E as <-.
  apply authorize_ok in Hpair as (reg & Er & ->). exists reg.
  apply contains_false in Hif2, Hif5. apply negb_false_iff, contains_true in Hif1.
  split_and!; try done; [|guards; lia|cbn [st_names set_identities]; by rewrite emplace_new].
  intros c record Hc Hid. assert (Ht : existsb (fun kv => bool_decide (cr_account_id kv.2 = oa_account_id (nc_authorization op)))
    (entries (pending_commits (st_names s))) = true); [|congruence].
  apply existsb_exists. exists (c, record). split; [by apply list_elem_of_In, elem_of_entries|by apply bool_decide_eq_true].
Qed.

Lemma ApplyNameReveal_inv op nb h params s s' : ApplyNameReveal op nb h params s = Ret (NR_NONE, s') ->
  let id := oa_account_id (nv_authorization op) in
  let label := nr_label (nv_reveal op) in
  exists reg c record, AuthorizeOperation (identities s) (nv_authorization op) nb = (IR_NONE, reg) /\
    ComputeNameCommitment nb id label (nr_salt (nv_reveal op)) = Ret c /\
    ValidateNameLabel label = NV_NONE /\
    is_Some (accounts s !! id) /\ account_names (st_names s) !! id = None /\ names (st_names s) !! label = None /\
    (forall k a, genesis_allocations s !! k = Some a -> alloc_label a <> label) /\
    pending_commits (st_names s) !! c = Some record /\ cr_account_id record = id /\
    commit_height record ⊕ name_commit_min_depth params <= h <= commit_height record ⊕ name_commit_max_lifetime params /\
    s' = set_names (set_identities s reg) (mkNameRegistry (<[label := id]> (names (st_names s)))
           (<[id := label]> (account_names (st_names s))) (delete c (pending_commits (st_names s)))).
Proof.
  intros E. unfold ApplyNameReveal in E. walk E. destruct b; [done|]. injection E as <-.
  apply authorize_ok in Hpair as (reg & Er & ->). exists reg, a0, n. apply orb_false_iff in Hif4 as [Hfree Hlab]. guards.
  apply contains_false in Hif3, Hfree. apply contains_true in Hif2.
  split_and!; try done; [|cbn [st_names set_identities]; by rewrite !emplace_new].
  intros k al Hk Hl. assert (Ht : existsb (fun kv => bool_decide (alloc_label kv.2 = nr_label (nv_reveal op)))
    (entries (genesis_allocations s)) = true); [|congruence].
  apply existsb_exists. exists (k, al). split; [by apply list_elem_of_In, elem_of_entries|by apply bool_decide_eq_true].
Qed.

(** ** Rejected operations *)

Ltac rejected E :=
  walk E; injection E as <- <-; first [done | by eapply authorize_failed].

Lemma ApplyPayment_rejected op nb params s e s' : ApplyPayment op nb params s = (e, s') -> e <> PE_NONE -> s' = s.
Proof. intros E Hne. unfold ApplyPayment in E. rejected E. Qed.
Lemma ApplySystemLock_rejected op nb s e s' : ApplySystemLock op nb s = (e, s') -> e <> SL_NONE -> s' = s.
Proof. intros E Hne. unfold ApplySystemLock in E. rejected E. Qed.
Lemma ApplyNameCommit_rejected op nb h params s e s' :
  ApplyNameCommit op nb h params s = Ret (e, s') -> e <> NC_NONE -> s' = s.
Proof. intros E Hne. unfold ApplyNameCommit in E. rejected E. Qed.
Lemma ApplyNameReveal_rejected op nb h params s e s' :
  ApplyNameReveal op nb h params s = Ret (e, s') -> e <> NR_NONE -> s' = s.
Proof. intros E Hne. unfold ApplyNameReveal in E. rejected E. Qed.
Lemma ApplyRootPublication_rejected op nb params s e s' :
  ApplyRootPublication op nb params s = Ret (e, s') -> e <> RP_NONE -> s' = s.
Proof. intros E Hne. unfold ApplyRootPublication in E. rejected E. Qed.
Lemma ApplyRevokePublication_rejected op nb params s e s' :
  ApplyRevokePublication op nb params s = (e, s') -> e <> RV_NONE -> s' = s.
Proof. intros E Hne. unfold ApplyRevokePublication in E. rejected E. Qed.
Lemma ApplyStorageLease_rejected op nb params s e s' :
  ApplyStorageLease op nb params s = Ret (e, s') -> e <> LE_NONE -> s' = s.
Proof. intros E Hne. unfold ApplyStorageLease in E. rejected E. Qed.
Lemma ApplyAccountCreate_rejected op nb h params s e s' :
  ApplyAccountCreate op nb h params s = (e, s') -> e <> CS_NONE -> s' = s.
Proof.
  intros E Hne. unfold ApplyAccountCreate in E. do 4 (walk_step E; [by injection E as <- <-|]).
  cbv zeta in E. destruct (_ && _) in E; [by injection E as <- <-|].
  destruct (Register _ _ _ _ _) as [e' reg] eqn:Er.
  assert (Hreg : e' <> IR_NONE -> reg = identities s) by (clear -Er; intros Hne; unfold Register in Er; walk Er; congruence).
  destruct e'; try (injection E as <- <-; rewrite Hreg by done; apply set_identities_id).
  destruct (match find_claim op s with Some _ => _ | None => _ end) as [g s2]. by injection E as <- <-.
Qed.
End ledger_proofs.
