(* ===== verification/Settlement.v ===== *)
(** * Storage settlements

    The proof-of-authority side of [src/src/cybou/storage_lease.cpp]:
    preparing and activating the assignment of a funded term, paying the
    providers for a period, closing the terms that have ended, and the checks
    around them. The source works on a copy of the state that it drops when
    anything fails, so a step returns the error or the new state. *)

From S2P Require Import Prelude.
From S2P Require Import Bytes.
From S2P Require Import Codec.
From S2P Require Import Params.
From S2P Require Import StorageEconomy.
From S2P Require Import Crypto.
From S2P Require Import Identity.
From S2P Require Import Merkle.
From S2P Require Import Assignment.
From S2P Require Import StorageAudit.
From S2P Require Import SettlementData.
From S2P Require Import Operation.
From S2P Require Import State.

Inductive StorageSettlementError : Type :=
| SS_NONE | SS_INVALID_PAYLOAD | SS_INVALID_SIGNATURE | SS_WRONG_PERIOD | SS_WRONG_PERIOD_START | SS_LEASE_NOT_FOUND
| SS_LEASE_NOT_ACTIVE | SS_PAYOUT_ACCOUNT_NOT_FOUND | SS_SELF_PAYOUT | SS_TOO_MANY_PAYOUTS | SS_PAYOUT_EXCEEDS_ESCROW
| SS_BALANCE_OVERFLOW | SS_INVALID_ASSIGNMENT | SS_WRONG_ACTIVATION_HEIGHT.
#[export] Instance StorageSettlementError_eq_dec : EqDecision StorageSettlementError.
Proof. solve_decision. Defined.

(** A step that can also fail with an error code. *)
Abbreviation settling A := (outcome (StorageSettlementError + A)).
Definition fail {A} (e : StorageSettlementError) : settling A := Ret (inl e).
Definition pass {A} (a : A) : settling A := Ret (inr a).
Definition settling_bind {A B} (m : settling A) (k : A -> settling B) : settling B :=
  try! r := m ;; match r with inl e => Ret (inl e) | inr a => k a end.
Notation "'do!' x := m ;; k" := (settling_bind m (fun x => k))
  (at level 10, x pattern, m at level 99, k at level 200, only parsing) : cybou_scope.

(** ** Terms in place

    The source finds a term by scanning every lease and then keeps pointers
    to the lease and the term. *)

Record TermAt : Type := mkTermAt {
  at_publication : Hash256;
  at_lease : StorageLeaseRecord;
  at_index : nat;
  at_term : StorageFundedTerm;
}.
Definition terms_of_lease (kv : Hash256 * StorageLeaseRecord) : list TermAt :=
  imap (fun i t => mkTermAt kv.1 kv.2 i t) (lr_funded_terms kv.2).
Definition all_terms (s : CybouState) : list TermAt := entries (leases s) ≫= terms_of_lease.

(** Writing through the two pointers. *)
Definition with_terms (l : StorageLeaseRecord) ts :=
  mkLease (lr_payer l) (lr_units l) (lr_replicas l) (lr_first_period l) (lr_end_period l)
    (lr_escrow_onboarding l) (lr_escrow_locked l) ts.
Definition with_escrow (l : StorageLeaseRecord) onboarding locked :=
  mkLease (lr_payer l) (lr_units l) (lr_replicas l) (lr_first_period l) (lr_end_period l) onboarding locked
    (lr_funded_terms l).
Definition set_term (s : CybouState) (id : Hash256) (i : nat) (t : StorageFundedTerm) : CybouState :=
  set_leases s (alter (fun l => with_terms l (<[i := t]> (lr_funded_terms l))) id (leases s)).
Definition set_escrow (s : CybouState) (id : Hash256) (onboarding locked : Z) : CybouState :=
  set_leases s (alter (fun l => with_escrow l onboarding locked) id (leases s)).

Definition with_declaration (t : StorageFundedTerm) (d : StorageAssignmentDeclaration) (next_epoch : Z) :=
  mkFundedTerm (ft_funding_operation_id t) (ft_first_period t) (ft_end_period t) (ft_rate t) (ft_period_seconds t)
    (ft_replica_share t) (ft_contracted_unit_seconds t) (ft_initial_onboarding t) (ft_initial_locked t)
    (ft_paid_onboarding t) (ft_paid_locked t) next_epoch (ft_declarations t ++ [d]) (ft_assignments t)
    (ft_service_payments t) (ft_refunded_onboarding t) (ft_refunded_locked t).
Definition with_assignments (t : StorageFundedTerm) (l : list StorageAcceptedAssignment) (p : list StorageServicePayment) :=
  mkFundedTerm (ft_funding_operation_id t) (ft_first_period t) (ft_end_period t) (ft_rate t) (ft_period_seconds t)
    (ft_replica_share t) (ft_contracted_unit_seconds t) (ft_initial_onboarding t) (ft_initial_locked t)
    (ft_paid_onboarding t) (ft_paid_locked t) (ft_next_assignment_epoch t) (ft_declarations t) l p
    (ft_refunded_onboarding t) (ft_refunded_locked t).
Definition with_paid (t : StorageFundedTerm) (onboarding locked : Z) (p : list StorageServicePayment) :=
  mkFundedTerm (ft_funding_operation_id t) (ft_first_period t) (ft_end_period t) (ft_rate t) (ft_period_seconds t)
    (ft_replica_share t) (ft_contracted_unit_seconds t) (ft_initial_onboarding t) (ft_initial_locked t)
    onboarding locked (ft_next_assignment_epoch t) (ft_declarations t) (ft_assignments t) p
    (ft_refunded_onboarding t) (ft_refunded_locked t).
Definition with_refunded (t : StorageFundedTerm) (onboarding locked : Z) (p : list StorageServicePayment) :=
  mkFundedTerm (ft_funding_operation_id t) (ft_first_period t) (ft_end_period t) (ft_rate t) (ft_period_seconds t)
    (ft_replica_share t) (ft_contracted_unit_seconds t) (ft_initial_onboarding t) (ft_initial_locked t)
    (ft_paid_onboarding t) (ft_paid_locked t) (ft_next_assignment_epoch t) (ft_declarations t) (ft_assignments t) p
    onboarding locked.
Definition with_closed (e : StorageServicePayment) v :=
  mkServicePayment (sp_slot e) (sp_storage_id e) (sp_payout_account e) (sp_verified_unit_seconds e) (sp_paid e) v.

(** [e.closed_epoch_capacity = capacity] for every service payment; [None]
    when a capacity cannot be computed. *)
Fixpoint close_epochs (term : StorageFundedTerm) (through closure : Z) (l : list StorageServicePayment)
    : option (list StorageServicePayment) :=
  match l with
  | [] => Some []
  | e :: rest =>
      let? capacity := ComputeAcceptedStorageCapacity term (sp_slot e) (sp_storage_id e) (sp_payout_account e)
        through closure else None ;;
      let? tail := close_epochs term through closure rest else None ;;
      Some (with_closed e capacity :: tail)
  end.

Section settlement.
Context `{CryptoOps}.

(** ** Preparing and activating assignments *)

Definition matching_terms (op : StorageSettlement) (s : CybouState) : list (TermAt * option StorageAssignmentDeclaration) :=
  all_terms s ≫= fun t =>
    match ss_action op with
    | PREPARE => if bool_decide (ft_funding_operation_id (at_term t) = ss_funded_term_id op) then [(t, None)] else []
    | ACTIVATE => (fun d => (t, Some d)) <$>
        filter (fun d => ad_operation_id d = ss_preparation_id op) (ft_declarations (at_term t))
    | PAY => []
    end.

Fixpoint accept_eligible (s : CybouState) (network : Hash256) (payer : AccountId) (height : Z)
    (l : list StorageSettlementBinding) : settling (list StorageAcceptedBinding) :=
  match l with
  | [] => pass []
  | e :: rest =>
      let account := pb_payout_account (sb_binding e) in
      let? identity := Find (identities s) account else fail SS_PAYOUT_ACCOUNT_NOT_FOUND ;;
      return_if negb (contains (accounts s) account) with fail SS_PAYOUT_ACCOUNT_NOT_FOUND ;;
      return_if bool_decide (account = payer) with fail SS_SELF_PAYOUT ;;
      return_if negb (VerifyStoragePayoutBindingStorageKey (sb_binding e) network (sb_storage_id e))
        || negb (bool_decide (purpose (ir_authorization_key identity) = AUTHORIZATION))
        || negb (VerifyIdentityMessage (ir_authorization_key identity) (pb_authorization (sb_binding e))
                  (arr_val (StoragePayoutBindingDigest network (sb_storage_id e) account))) with fail SS_INVALID_ASSIGNMENT ;;
      do! tail := accept_eligible s network payer height rest ;;
      pass (mkAcceptedBinding (sb_storage_id e) account (ir_key_epoch identity) height :: tail)
  end.

Definition apply_prepare (op : StorageSettlement) (network : Hash256) (s : CybouState) (height : Z) (apply : bool)
    (operation_id : option Hash256) (t : TermAt) : settling CybouState :=
  let lease := at_lease t in
  let term := at_term t in
  return_if (2 <? lr_replicas lease) || (ss_assignment_epoch op <? ft_next_assignment_epoch term)
    || (ss_assignment_epoch op =? MAX64) with fail SS_INVALID_ASSIGNMENT ;;
  do! eligible := accept_eligible s network (lr_payer lease) height (ss_eligible op) ;;
  let payouts : gset AccountId := list_to_set (ab_payout_account <$> eligible) in
  return_if Z.of_nat (size payouts) <? lr_replicas lease with fail SS_INVALID_ASSIGNMENT ;;
  if apply then
    try! id := or_throw operation_id ;;
    pass (set_term s (at_publication t) (at_index t)
            (with_declaration term (mkDeclaration id (ss_assignment_epoch op) height eligible) (ss_assignment_epoch op ⊕ 1)))
  else pass s.

(** [++counts[{slot, storage_id, account}]] for the providers of one plan. *)
Fixpoint count_selected (slot : Z) (counts : gmap service_key Z) (l : list StorageAssignmentProvider)
    : settling (gmap service_key Z) :=
  match l with
  | [] => pass counts
  | e :: rest =>
      let? account := AccountId_FromBytes (arr_val (prov_payout_account e)) else fail SS_INVALID_ASSIGNMENT ;;
      let key := (slot, prov_storage_id e, account) in
      count_selected (wrap8 (slot + 1)) (<[key := wrap32 (default 0 (counts !! key) + 1)]> counts) rest
  end.
Fixpoint count_manifest (context : StorageAssignmentContext) (eligible : list StorageAssignmentProvider)
    (counts : gmap service_key Z) (manifest : list ChunkId) : settling (gmap service_key Z) :=
  match manifest with
  | [] => pass counts
  | chunk :: rest =>
      let context := mkContext (ctx_network_binding context) (ctx_publication context) chunk (ctx_finalized_seed context)
        (ctx_payer context) (ctx_epoch context) (ctx_term_start context) (ctx_term_end context) (ctx_replicas context) in
      try! plan := PrepareStorageAssignment context eligible ;;
      let? plan := plan else fail SS_INVALID_ASSIGNMENT ;;
      do! counts := count_selected 0 counts (plan_selected plan) ;;
      count_manifest context eligible counts rest
  end.

(** The iteration order of the map of counts. *)
Definition count_le (a b : service_key * Z) : Prop := service_key_lt b.1 a.1 = false.
#[local] Instance count_le_dec a b : Decision (count_le a b) := bool_eq_dec _ _.
Definition allocations_of (counts : gmap service_key Z) : list StorageAssignedUnits :=
  (fun kv : service_key * Z => let '(slot, storage_id, account) := kv.1 in mkAssignedUnits slot storage_id account kv.2)
  <$> merge_sort count_le (map_to_list counts).

Definition apply_activate (op : StorageSettlement) (network : Hash256) (s : CybouState) (height : Z) (parent : Hash256)
    (apply : bool) (operation_id : option Hash256) (t : TermAt) (declaration : option StorageAssignmentDeclaration)
    (pub : PublicationRecord) : settling CybouState :=
  let lease := at_lease t in
  let term := at_term t in
  let? declaration := declaration else fail SS_WRONG_ACTIVATION_HEIGHT ;;
  return_if negb (bool_decide (ad_operation_id <$> last (ft_declarations term) = Some (ss_preparation_id op)))
    || IsNull parent || (MAX64 ⊖ 2 <? ad_height declaration) || negb (height =? ad_height declaration ⊕ 2)
    with fail SS_WRONG_ACTIVATION_HEIGHT ;;
  return_if match last (ft_assignments term) with Some a => ad_epoch declaration <=? aa_epoch a | None => false end
    with fail SS_INVALID_ASSIGNMENT ;;
  return_if negb (zlen (ss_manifest op) =? lr_units lease) || negb (zlen (ss_manifest op) =? pr_chunk_count pub)
    with fail SS_INVALID_ASSIGNMENT ;;
  let? tree := BuildChunkAuthorizationTree (ss_manifest op) else fail SS_INVALID_ASSIGNMENT ;;
  return_if negb (bool_decide (tree_root tree = pr_chunk_authorization_root pub)) with fail SS_INVALID_ASSIGNMENT ;;
  let context := mkContext network (at_publication t) ZERO parent (lr_payer lease) (ad_epoch declaration)
    (ft_first_period term) (ft_end_period term) (lr_replicas lease) in
  let eligible := (fun e => mkProvider (ab_storage_id e) (ab_payout_account e)) <$> ad_eligible declaration in
  do! counts := count_manifest context eligible ∅ (ss_manifest op) ;;
  if apply then
    try! id := or_throw operation_id ;;
    let accepted := mkAcceptedAssignment id (ss_preparation_id op) parent (ad_epoch declaration) (ss_period op)
      (allocations_of counts) in
    let? payments := close_epochs term (ss_period op) (lr_end_period lease) (ft_service_payments term)
      else fail SS_INVALID_ASSIGNMENT ;;
    pass (set_term s (at_publication t) (at_index t) (with_assignments term (ft_assignments term ++ [accepted]) payments))
  else pass s.

Definition ApplyAssignmentInputs (op : StorageSettlement) (network : Hash256) (s : CybouState) (height : Z)
    (parent : Hash256) (apply : bool) : settling CybouState :=
  let? _ := SerializeSettlementBody op else fail SS_INVALID_PAYLOAD ;;
  return_if IsNull network || (height =? 0) with fail SS_INVALID_PAYLOAD ;;
  return_if negb (ss_period op =? next_period (settlement s)) with fail SS_WRONG_PERIOD ;;
  return_if negb (next_period_start_utc (settlement s) =? 0)
    && negb (next_period_start_utc (settlement s) =? ss_period_start_utc op) with fail SS_WRONG_PERIOD_START ;;
  match matching_terms op s with
  | [] => fail SS_LEASE_NOT_FOUND
  | _ :: _ :: _ => fail SS_INVALID_ASSIGNMENT
  | [(t, declaration)] =>
      let? pub := publications s !! at_publication t else fail SS_LEASE_NOT_ACTIVE ;;
      return_if (ss_period op <? ft_first_period (at_term t)) || (ft_end_period (at_term t) <=? ss_period op)
        || (lr_end_period (at_lease t) <=? ss_period op) with fail SS_LEASE_NOT_ACTIVE ;;
      return_if MAX64 ⊖ ft_period_seconds (at_term t) <? ss_period_start_utc op with fail SS_INVALID_PAYLOAD ;;
      try! operation_id := (if apply then ComputeOperationId (OpStorageSettlement op) else Ret None) ;;
      return_if apply && negb (bool_decide (is_Some operation_id)) with fail SS_INVALID_PAYLOAD ;;
      do! s := (if bool_decide (ss_action op = PREPARE)
                then apply_prepare op network s height apply operation_id t
                else apply_activate op network s height parent apply operation_id t declaration pub) ;;
      pass (if apply && (next_period_start_utc (settlement s) =? 0)
            then set_settlement s (mkCursor (next_period (settlement s)) (ss_period_start_utc op)) else s)
  end.

(** ** Paying a period *)

Definition entry_key (e : StorageSettlementEntry) : service_key := (se_slot e, se_storage_id e, se_payout_account e).

(** [std::lower_bound] on the payments, which are sorted by key: the payments
    before the position and those from it on. *)
Fixpoint lower_bound (key : service_key) (l : list StorageServicePayment)
    : list StorageServicePayment * list StorageServicePayment :=
  match l with
  | [] => ([], [])
  | e :: rest =>
      if service_key_lt (payment_key e) key
      then let (before, after) := lower_bound key rest in (e :: before, after)
      else ([], l)
  end.

(** The loop over the assignment epochs of the term: every epoch that serves
    the entry and has started must be witnessed. *)
Fixpoint check_witnesses (op : StorageSettlement) (entry : StorageSettlementEntry) (lease : StorageLeaseRecord)
    (term : StorageFundedTerm) (used : gset Hash256) (witnessed : bool) (l : list StorageAcceptedAssignment)
    : option (gset Hash256 * bool) :=
  match l with
  | [] => Some (used, witnessed)
  | epoch :: rest =>
      let end_ := Z.min (Z.min (Z.min (ss_period op ⊕ 1) (lr_end_period lease)) (ft_end_period term))
        (match rest with next :: _ => aa_effective_period next | [] => ft_end_period term end) in
      if (end_ <=? aa_effective_period epoch)
         || negb (existsb (fun a => bool_decide (units_key a = entry_key entry)) (aa_allocations epoch))
      then check_witnesses op entry lease term used witnessed rest
      else
        return_if negb (bool_decide (aa_operation_id epoch ∈ ss_activation_witnesses op)) with None ;;
        check_witnesses op entry lease term ({[ aa_operation_id epoch ]} ∪ used) true rest
  end.

Definition slot_service (entry : StorageSettlementEntry) (l : list StorageServicePayment) : Z :=
  foldl (fun acc e => if (sp_slot e =? se_slot entry) && negb (bool_decide (payment_key e = entry_key entry))
                      then wrap128 (acc + sp_verified_unit_seconds e) else acc)
    (se_verified_unit_seconds entry) l.

Definition pay_entry (op : StorageSettlement) (params : CybouProtocolParameters) (s : CybouState) (used : gset Hash256)
    (entry : StorageSettlementEntry) : settling (CybouState * gset Hash256) :=
  match filter (fun t => ft_funding_operation_id (at_term t) = se_funding_operation_id entry) (all_terms s) with
  | [] => fail SS_LEASE_NOT_FOUND
  | _ :: _ :: _ => fail SS_INVALID_PAYLOAD
  | [t] =>
      let lease := at_lease t in
      let term := at_term t in
      return_if (ss_period op <? ft_first_period term) || (ft_end_period term <=? ss_period op)
        || (lr_end_period lease <=? ss_period op)
        || negb (ft_refunded_onboarding term =? 0) || negb (ft_refunded_locked term =? 0) with fail SS_LEASE_NOT_ACTIVE ;;
      let? provider := accounts s !! se_payout_account entry else fail SS_PAYOUT_ACCOUNT_NOT_FOUND ;;
      return_if bool_decide (se_payout_account entry = lr_payer lease) with fail SS_SELF_PAYOUT ;;
      return_if (lr_replicas lease <=? se_slot entry)
        || negb (ft_period_seconds term =? storage_settlement_period_seconds params) with fail SS_INVALID_ASSIGNMENT ;;
      let (before, after) := lower_bound (entry_key entry) (ft_service_payments term) in
      let existing := match after with
                      | e :: _ => if bool_decide (payment_key e = entry_key entry) then Some e else None
                      | [] => None
                      end in
      let prior_service := match existing with Some e => sp_verified_unit_seconds e | None => 0 end in
      let paid := match existing with Some e => sp_paid e | None => 0 end in
      return_if se_verified_unit_seconds entry <=? prior_service with fail SS_INVALID_PAYLOAD ;;
      let? capacity := ComputeAcceptedStorageCapacity term (se_slot entry) (se_storage_id entry)
        (se_payout_account entry) (ss_period op ⊕ 1) (lr_end_period lease) else fail SS_INVALID_ASSIGNMENT ;;
      return_if capacity <? se_verified_unit_seconds entry with fail SS_INVALID_ASSIGNMENT ;;
      let? (used, witnessed) := check_witnesses op entry lease term used false (ft_assignments term)
        else fail SS_INVALID_ASSIGNMENT ;;
      return_if negb witnessed with fail SS_INVALID_ASSIGNMENT ;;
      let budget := mkBudget (ft_replica_share term) (ft_initial_onboarding term ⊕ ft_initial_locked term)
        (ft_contracted_unit_seconds term) in
      let? due := ComputeAssignedStoragePayout budget (se_verified_unit_seconds entry) paid
        else fail SS_PAYOUT_EXCEEDS_ESCROW ;;
      return_if negb (se_amount entry =? due) with fail SS_PAYOUT_EXCEEDS_ESCROW ;;
      return_if ft_contracted_unit_seconds term <? slot_service entry (ft_service_payments term)
        with fail SS_INVALID_ASSIGNMENT ;;
      return_if (ft_initial_onboarding term <? ft_paid_onboarding term) || (ft_initial_locked term <? ft_paid_locked term)
        || (ft_initial_onboarding term ⊖ ft_paid_onboarding term ⊕ ft_initial_locked term ⊖ ft_paid_locked term
            <? se_amount entry) with fail SS_PAYOUT_EXCEEDS_ESCROW ;;
      let onboarding := Z.min (se_amount entry) (ft_initial_onboarding term ⊖ ft_paid_onboarding term) in
      let locked := se_amount entry ⊖ onboarding in
      return_if (lr_escrow_onboarding lease <? onboarding) || (lr_escrow_locked lease <? locked)
        with fail SS_PAYOUT_EXCEEDS_ESCROW ;;
      return_if (MAX64 ⊖ system_balance provider <? onboarding) || (MAX64 ⊖ onboarding_system_balance provider <? onboarding)
        || (MAX64 ⊖ balance provider <? locked) with fail SS_BALANCE_OVERFLOW ;;
      (* at least one epoch was witnessed, so there is a last assignment *)
      let? back := last (ft_assignments term) else Throw ;;
      let? closed_capacity := ComputeAcceptedStorageCapacity term (se_slot entry) (se_storage_id entry)
        (se_payout_account entry) (aa_effective_period back) (lr_end_period lease) else fail SS_INVALID_ASSIGNMENT ;;
      let ledger := mkServicePayment (se_slot entry) (se_storage_id entry) (se_payout_account entry)
        (se_verified_unit_seconds entry) (paid ⊕ se_amount entry) closed_capacity in
      let after := match existing with Some _ => tail after | None => after end in
      let term := with_paid term (ft_paid_onboarding term ⊕ onboarding) (ft_paid_locked term ⊕ locked)
        (before ++ ledger :: after) in
      let s := set_term s (at_publication t) (at_index t) term in
      let s := set_escrow s (at_publication t) (lr_escrow_onboarding lease ⊖ onboarding) (lr_escrow_locked lease ⊖ locked) in
      let s := set_account s (se_payout_account entry)
        (mkAccount (balance provider ⊕ locked) (system_balance provider ⊕ onboarding)
           (onboarding_system_balance provider ⊕ onboarding) (creation_height provider) (creation_epoch provider)) in
      pass (s, used)
  end.

Fixpoint pay_entries (op : StorageSettlement) (params : CybouProtocolParameters) (s : CybouState) (used : gset Hash256)
    (l : list StorageSettlementEntry) : settling (CybouState * gset Hash256) :=
  match l with
  | [] => pass (s, used)
  | entry :: rest =>
      do! (s, used) := pay_entry op params s used entry ;;
      pay_entries op params s used rest
  end.

(** ** Closing terms

    One turn of the loop over the terms of a lease: a term that has ended
    returns what it did not pay to the payer. *)

Definition refund_term (s : CybouState) (id : Hash256) (i : nat) : settling CybouState :=
  try! lease := or_throw (leases s !! id) ;;
  try! term := or_throw (lr_funded_terms lease !! i) ;;
  if next_period (settlement s) <? Z.min (ft_end_period term) (lr_end_period lease) then pass s
  else
    let onboarding := ft_initial_onboarding term ⊖ ft_paid_onboarding term ⊖ ft_refunded_onboarding term in
    let locked := ft_initial_locked term ⊖ ft_paid_locked term ⊖ ft_refunded_locked term in
    try! payer := or_throw (accounts s !! lr_payer lease) ;;
    return_if (lr_escrow_onboarding lease <? onboarding) || (lr_escrow_locked lease <? locked)
      || (MAX64 ⊖ onboarding_system_balance payer <? onboarding) || (MAX64 ⊖ system_balance payer <? onboarding)
      || (MAX64 ⊖ system_balance payer ⊖ onboarding <? locked) with fail SS_BALANCE_OVERFLOW ;;
    let s := set_account s (lr_payer lease)
      (mkAccount (balance payer) (system_balance payer ⊕ (onboarding ⊕ locked))
         (onboarding_system_balance payer ⊕ onboarding) (creation_height payer) (creation_epoch payer)) in
    let s := set_escrow s id (lr_escrow_onboarding lease ⊖ onboarding) (lr_escrow_locked lease ⊖ locked) in
    let? payments := close_epochs term (next_period (settlement s)) (lr_end_period lease) (ft_service_payments term)
      else fail SS_INVALID_ASSIGNMENT ;;
    pass (set_term s id i (with_refunded term (ft_refunded_onboarding term ⊕ onboarding)
                             (ft_refunded_locked term ⊕ locked) payments)).
Fixpoint refund_terms (s : CybouState) (l : list (Hash256 * nat)) : settling CybouState :=
  match l with
  | [] => pass s
  | (id, i) :: rest => do! s := refund_term s id i ;; refund_terms s rest
  end.

Definition ApplyPayInputs (op : StorageSettlement) (params : CybouProtocolParameters) (s : CybouState) : settling CybouState :=
  return_if negb (bool_decide (ss_action op = PAY)) with fail SS_INVALID_PAYLOAD ;;
  let? _ := SerializeSettlementBody op else fail SS_INVALID_PAYLOAD ;;
  return_if negb (ss_period op =? next_period (settlement s)) with fail SS_WRONG_PERIOD ;;
  return_if negb (next_period_start_utc (settlement s) =? 0)
    && negb (ss_period_start_utc op =? next_period_start_utc (settlement s)) with fail SS_WRONG_PERIOD_START ;;
  return_if (storage_settlement_period_seconds params =? 0) || (ss_period op =? MAX64)
    || (MAX64 ⊖ storage_settlement_period_seconds params <? ss_period_start_utc op)
    || negb (ss_period_end_utc op =? ss_period_start_utc op ⊕ storage_settlement_period_seconds params)
    with fail SS_INVALID_PAYLOAD ;;
  do! (s, used) := pay_entries op params s ∅ (ss_entries op) ;;
  return_if negb (Z.of_nat (size used) =? zlen (ss_activation_witnesses op)) with fail SS_INVALID_ASSIGNMENT ;;
  let s := set_settlement s (mkCursor (ss_period op ⊕ 1) (ss_period_end_utc op)) in
  refund_terms s ((fun t => (at_publication t, at_index t)) <$> all_terms s).

(** ** Checking and applying a settlement *)

Definition CheckStorageSettlementInputs (op : StorageSettlement) (params : CybouProtocolParameters) (s : CybouState)
    (network_binding : Hash256) (block_height : Z) (verified_parent_id : Hash256) : outcome StorageSettlementError :=
  if negb (bool_decide (ss_action op = PAY)) then
    try! r := ApplyAssignmentInputs op network_binding s block_height verified_parent_id false ;;
    Ret (match r with inl e => e | inr _ => SS_NONE end)
  else
    try! r := ApplyPayInputs op params s ;;
    match r with
    | inl e => Ret e
    | inr candidate =>
        Ret (if bool_decide (ValidateCybouState candidate = SV_NONE) && (TotalCybou candidate =? TotalCybou s)
             then SS_NONE else SS_INVALID_PAYLOAD)
    end.

Definition ApplyStorageSettlement (op : StorageSettlement) (network_binding : Hash256) (params : CybouProtocolParameters)
    (poa_key : IdentityHybridPublicKey) (s : CybouState) (block_height : Z) (verified_parent_id : Hash256)
    : outcome (StorageSettlementError * CybouState) :=
  let? digest := ComputeStorageSettlementDigest network_binding op else Ret (SS_INVALID_PAYLOAD, s) ;;
  return_if negb (bool_decide (purpose poa_key = POA_FINALIZER))
    || negb (VerifyIdentityMessage poa_key (ss_poa_signature op) (arr_val digest)) with Ret (SS_INVALID_SIGNATURE, s) ;;
  if negb (bool_decide (ss_action op = PAY)) then
    try! r := ApplyAssignmentInputs op network_binding s block_height verified_parent_id true ;;
    match r with
    | inl e => Ret (e, s)
    | inr candidate =>
        return_if negb (bool_decide (ValidateCybouState candidate = SV_NONE)) with Ret (SS_INVALID_ASSIGNMENT, s) ;;
        Ret (SS_NONE, candidate)
    end
  else
    try! r := ApplyPayInputs op params s ;;
    match r with
    | inl e => Ret (e, s)
    | inr candidate =>
        return_if negb (bool_decide (ValidateCybouState candidate = SV_NONE)) || negb (TotalCybou candidate =? TotalCybou s)
          with Ret (SS_INVALID_PAYLOAD, s) ;;
        Ret (SS_NONE, candidate)
    end.
End settlement.
