(* ===== verification/SettlementProofs.v ===== *)
(** * Settlements move money, they do not make it

    Preparing or activating an assignment moves nothing. Paying a period
    moves what the providers earned out of the escrow of the leases, and what
    the ended terms did not pay back to the payers: the checks that
    [src/src/cybou/storage_lease.cpp] makes on the total afterwards never
    fail. *)

From S2P Require Import Prelude.
From S2P Require Import Bytes.
From S2P Require Import Codec.
From S2P Require Import Params.
From S2P Require Import StorageEconomy.
From S2P Require Import Crypto.
From S2P Require Import Identity.
From S2P Require Import Merkle.
From S2P Require Import Assignment.
From S2P Require Import SettlementData.
From S2P Require Import Operation.
From S2P Require Import State.
From S2P Require Import Supply.
From S2P Require Import LedgerProofs.
From S2P Require Import Settlement.

(** ** Walking a step that can fail *)

Lemma settling_bind_inr {A B} (m : settling A) (k : A -> settling B) b :
  settling_bind m k = Ret (inr b) -> exists a, m = Ret (inr a) /\ k a = Ret (inr b).
Proof. unfold settling_bind. destruct m as [[e|a]|]; simpl; try done. by exists a. Qed.

Ltac settle_step H :=
  first
    [ walk_step H
    | lazymatch type of H with
      | settling_bind _ _ = _ =>
          let x := fresh "x" in let E := fresh "Hdo" in apply settling_bind_inr in H as (x & E & H); cbv beta in H
      | fail _ = Ret (inr _) => discriminate H
      end ].
(** [settle H] is [walk H] through the [do!] steps too. *)
Ltac settle H := repeat settle_step H.
Ltac pass_inj H := unfold pass in H; injection H as H.

(** A step that fails says why: [SS_NONE] is not an error it returns. *)
Definition honest {A} (m : settling A) : Prop := m <> Ret (inl SS_NONE).
Lemma honest_fail {A} e : e <> SS_NONE -> honest (A := A) (fail e).
Proof. intros He [= E]. done. Qed.
Lemma honest_pass {A} (a : A) : honest (pass a).
Proof. done. Qed.
Lemma honest_bind {A B} (m : settling A) (k : A -> settling B) :
  honest m -> (forall a, honest (k a)) -> honest (settling_bind m k).
Proof. intros Hm Hk. unfold settling_bind. destruct m as [[e|a]|]; simpl; [by intros [= ->]|by apply Hk|done]. Qed.
Lemma honest_try {A B} (m : outcome A) (k : A -> settling B) : (forall a, honest (k a)) -> honest (outcome_bind m k).
Proof. intros Hk. destruct m; simpl; [apply Hk|done]. Qed.
Lemma honest_throw {A} : honest (A := A) Throw.
Proof. done. Qed.
Create HintDb honest discriminated.
#[export] Hint Resolve honest_pass honest_throw : honest.
Ltac honest_step :=
  cbv beta iota zeta;
  lazymatch goal with
  | |- honest (fail _) => by apply honest_fail
  | |- honest (settling_bind _ _) => apply honest_bind; [|intros ?]
  | |- honest (outcome_bind _ _) => apply honest_try; intros ?
  | |- honest (if ?b then _ else _) => destruct b
  | |- honest (match ?o with Some _ => _ | None => _ end) => destruct o
  | |- honest (match ?p with (_, _) => _ end) => destruct p
  | |- honest (match ?l with [] => _ | _ :: _ => _ end) => destruct l
  | |- honest _ => solve [auto with honest]
  end.
Ltac honesty := repeat honest_step.

(** ** Terms in place *)

Lemma elem_of_all_terms s t : t ∈ all_terms s <->
  leases s !! at_publication t = Some (at_lease t) /\ lr_funded_terms (at_lease t) !! at_index t = Some (at_term t).
Proof.
  unfold all_terms. rewrite list_elem_of_bind. split.
  - intros ([id l] & Ht & Hin). apply elem_of_entries in Hin. unfold terms_of_lease in Ht.
    apply list_elem_of_lookup in Ht as [i Hi]. rewrite list_lookup_imap in Hi.
    simpl in Hi. destruct (lr_funded_terms l !! i) eqn:E; simplify_eq/=. done.
  - destruct t as [id l i t]. simpl. intros [Hl Ht]. exists (id, l). split; [|by apply elem_of_entries].
    unfold terms_of_lease. apply list_elem_of_lookup. exists i. simpl. by rewrite list_lookup_imap, Ht.
Qed.

(** A settlement touches leases, balances and the cursor only. *)
Definition settles (s s' : CybouState) : Prop :=
  identities s' = identities s /\ st_names s' = st_names s /\ genesis_allocations s' = genesis_allocations s /\
  publications s' = publications s /\ (forall id, is_Some (accounts s !! id) -> is_Some (accounts s' !! id)).
#[export] Instance settles_preorder : PreOrder settles.
Proof.
  split; [by intros s; split_and!|]. intros a b c (A1 & A2 & A3 & A4 & A5) (B1 & B2 & B3 & B4 & B5).
  split_and!; [congruence..|eauto].
Qed.
Lemma settles_set_account s id a : settles s (set_account s id a).
Proof.
  split_and!; try done. intros j Hj. simpl. destruct (decide (j = id)) as [->|Hne].
  - rewrite lookup_insert_eq. by eexists.
  - by rewrite lookup_insert_ne.
Qed.

(** The leases a step rewrote in place: same keys, same parties, same escrow. *)
Lemma alter_lease_conserves s f id :
  (forall l, lease_money (f l) = lease_money l /\ lr_escrow_onboarding (f l) = lr_escrow_onboarding l) ->
  amounts_wf s -> conserves s (set_leases s (alter f id (leases s))).
Proof.
  intros Hf. apply close_lease_money. intros l. destruct (Hf l) as [E1 E2]. unfold lease_money in E1. lia.
Qed.
Lemma set_term_conserves s id i t : amounts_wf s -> conserves s (set_term s id i t).
Proof. intros Hwf. by apply alter_lease_conserves. Qed.

Lemma set_escrow_spec s id l onboarding locked : leases s !! id = Some l -> amounts_wf s ->
  is_u64 onboarding -> is_u64 locked ->
  supply (set_escrow s id onboarding locked) = supply s - lease_money l + onboarding + locked /\
  amounts_wf (set_escrow s id onboarding locked).
Proof.
  intros Hl Hwf H1 H2. unfold set_escrow. rewrite (alter_insert_id _ _ _ l Hl). split.
  - rewrite supply_set_lease, Hl. unfold lease_money. simpl. lia.
  - by apply amounts_set_lease.
Qed.

(** The accounts and allocations a lease update leaves alone. *)
Lemma set_term_lease s id i t j : leases (set_term s id i t) !! j =
  if bool_decide (j = id) then (fun l => with_terms l (<[i := t]> (lr_funded_terms l))) <$> leases s !! j else leases s !! j.
Proof.
  unfold set_term. simpl. case_bool_decide as Hj; [subst; by rewrite lookup_alter_eq|by rewrite lookup_alter_ne].
Qed.

Section settlement_proofs.
Context `{CryptoOps}.

(** ** Errors *)

Lemma accept_eligible_honest s nb payer h l : honest (accept_eligible s nb payer h l).
Proof. induction l; cbn [accept_eligible]; honesty; done. Qed.
Lemma count_selected_honest l : forall slot counts, honest (count_selected slot counts l).
Proof. induction l; intros slot counts; cbn [count_selected]; honesty; done. Qed.
#[local] Hint Resolve accept_eligible_honest count_selected_honest : honest.
Lemma count_manifest_honest ctx eligible l : forall counts, honest (count_manifest ctx eligible counts l).
Proof. revert ctx. induction l; intros ctx counts; cbn [count_manifest]; honesty; done. Qed.
#[local] Hint Resolve count_manifest_honest : honest.
Lemma ApplyAssignmentInputs_honest op nb s h parent apply : honest (ApplyAssignmentInputs op nb s h parent apply).
Proof. unfold ApplyAssignmentInputs, apply_prepare, apply_activate. honesty. Qed.
Lemma pay_entry_honest op params s used entry : honest (pay_entry op params s used entry).
Proof. unfold pay_entry. honesty. Qed.
#[local] Hint Resolve pay_entry_honest : honest.
Lemma pay_entries_honest op params l : forall s used, honest (pay_entries op params s used l).
Proof. induction l; intros s used; cbn [pay_entries]; honesty; done. Qed.
Lemma refund_term_honest s id i : honest (refund_term s id i).
Proof. unfold refund_term. honesty. Qed.
#[local] Hint Resolve pay_entries_honest refund_term_honest : honest.
Lemma refund_terms_honest l : forall s, honest (refund_terms s l).
Proof. induction l as [|[id i] l IH]; intros s; cbn [refund_terms]; honesty; done. Qed.
#[local] Hint Resolve refund_terms_honest : honest.
Lemma ApplyPayInputs_honest op params s : honest (ApplyPayInputs op params s).
Proof. unfold ApplyPayInputs. honesty. Qed.

(** ** Assignments *)

Lemma apply_prepare_inv op nb s h apply id t s' : apply_prepare op nb s h apply id t = Ret (inr s') ->
  if apply then exists oid eligible, id = Some oid /\
    s' = set_term s (at_publication t) (at_index t)
           (with_declaration (at_term t) (mkDeclaration oid (ss_assignment_epoch op) h eligible)
              (ss_assignment_epoch op ⊕ 1)) /\
    ft_next_assignment_epoch (at_term t) <= ss_assignment_epoch op /\ ss_assignment_epoch op <> MAX64
  else s' = s.
Proof.
  unfold apply_prepare. intros E. settle E; pass_inj E; subst; [|done].
  unfold or_throw in Hret. case_match; simplify_eq. guards. exists a, x. by split_and!.
Qed.
Lemma apply_activate_inv op nb s h parent apply id t d pub s' :
  apply_activate op nb s h parent apply id t d pub = Ret (inr s') ->
  if apply then exists d0 a payments, d = Some d0 /\ h = ad_height d0 ⊕ 2 /\ aa_seed a = parent /\
    aa_epoch a = ad_epoch d0 /\ aa_effective_period a = ss_period op /\ Some (aa_operation_id a) = id /\
    s' = set_term s (at_publication t) (at_index t) (with_assignments (at_term t) (ft_assignments (at_term t) ++ [a]) payments)
  else s' = s.
Proof.
  unfold apply_activate. intros E. settle E; pass_inj E; subst; [|done].
  unfold or_throw in Hret. case_match; simplify_eq. guards. eexists _, (mkAcceptedAssignment _ _ _ _ _ _), _. by split_and!.
Qed.

Lemma ApplyAssignmentInputs_inv op nb s h parent apply s' :
  ApplyAssignmentInputs op nb s h parent apply = Ret (inr s') ->
  ss_period op = next_period (settlement s) /\
  if apply then exists t term', t ∈ all_terms s /\
    s' = (let s1 := set_term s (at_publication t) (at_index t) term' in
          if next_period_start_utc (settlement s) =? 0
          then set_settlement s1 (mkCursor (next_period (settlement s)) (ss_period_start_utc op)) else s1) /\
    ft_initial_onboarding term' = ft_initial_onboarding (at_term t) /\
    ft_initial_locked term' = ft_initial_locked (at_term t) /\
    ft_paid_onboarding term' = ft_paid_onboarding (at_term t) /\ ft_paid_locked term' = ft_paid_locked (at_term t)
  else s' = s.
Proof.
  unfold ApplyAssignmentInputs. intros E. do 4 walk_step E.
  destruct (matching_terms op s) as [|[t d] [|? ?]] eqn:Em; [discriminate E| |discriminate E].
  settle E. pass_inj E. guards. split; [done|].
  assert (Ht : t ∈ all_terms s).
  { assert (Hin : (t, d) ∈ matching_terms op s) by (rewrite Em; by left).
    unfold matching_terms in Hin. apply list_elem_of_bind in Hin as (t' & Hin & Ht'). destruct (ss_action op); [|..|by apply elem_of_nil in Hin].
    - case_bool_decide; [|by apply elem_of_nil in Hin]. apply list_elem_of_singleton in Hin. by simplify_eq.
    - apply list_elem_of_fmap in Hin as (d' & [= -> ->] & _). done. }
  destruct (bool_decide (ss_action op = PREPARE)).
  - apply apply_prepare_inv in Hdo. destruct apply; [|by subst]. destruct Hdo as (oid & eligible & _ & -> & _).
    eexists t, _. split; [done|]. split; [by symmetry|]. done.
  - apply apply_activate_inv in Hdo. destruct apply; [|by subst].
    destruct Hdo as (d0 & a' & payments & _ & _ & _ & _ & _ & _ & ->).
    eexists t, _. split; [done|]. split; [by symmetry|]. done.
Qed.
Lemma ApplyAssignmentInputs_conserves op nb s h parent apply s' : amounts_wf s ->
  ApplyAssignmentInputs op nb s h parent apply = Ret (inr s') ->
  conserves s s' /\ accounts s' = accounts s /\ settles s s'.
Proof.
  intros Hwf [_ E]%ApplyAssignmentInputs_inv. destruct apply; [|by subst].
  destruct E as (t & term' & Ht & -> & _). cbv zeta.
  pose proof (set_term_conserves s (at_publication t) (at_index t) term' Hwf) as C. case_match; [|by split_and!].
  split; [|by split_and!]. eapply conserves_trans; [exact C|]. apply same_money_conserves; [done|apply C].
Qed.

(** ** Payments *)

(** The three writes of a payment: the term, the escrow, the provider. *)
Definition pay_writes (s : CybouState) (t : TermAt) (term' : StorageFundedTerm) (provider : AccountId) (p : AccountState)
    (onboarding locked : Z) : CybouState :=
  let lease := at_lease t in
  set_account (set_escrow (set_term s (at_publication t) (at_index t) term') (at_publication t)
      (lr_escrow_onboarding lease ⊖ onboarding) (lr_escrow_locked lease ⊖ locked)) provider
    (mkAccount (balance p ⊕ locked) (system_balance p ⊕ onboarding) (onboarding_system_balance p ⊕ onboarding)
       (creation_height p) (creation_epoch p)).

Lemma pay_entry_inv op params s used entry s' used' : is_u64 (se_amount entry) ->
  pay_entry op params s used entry = Ret (inr (s', used')) ->
  exists t term' p onboarding locked,
    t ∈ all_terms s /\ ft_funding_operation_id (at_term t) = se_funding_operation_id entry /\
    accounts s !! se_payout_account entry = Some p /\ se_payout_account entry <> lr_payer (at_lease t) /\
    0 <= onboarding /\ 0 <= locked /\ onboarding + locked = se_amount entry /\
    onboarding <= lr_escrow_onboarding (at_lease t) /\ locked <= lr_escrow_locked (at_lease t) /\
    onboarding <= MAX64 ⊖ system_balance p /\ onboarding <= MAX64 ⊖ onboarding_system_balance p /\
    locked <= MAX64 ⊖ balance p /\
    ft_paid_onboarding term' = ft_paid_onboarding (at_term t) ⊕ onboarding /\
    ft_paid_locked term' = ft_paid_locked (at_term t) ⊕ locked /\
    s' = pay_writes s t term' (se_payout_account entry) p onboarding locked.
Proof.
  intros Hamt E. unfold pay_entry in E.
  destruct (filter _ (all_terms s)) as [|t [|? ?]] eqn:Ef; [discriminate E| |discriminate E].
  assert (Ht : t ∈ filter (fun t => ft_funding_operation_id (at_term t) = se_funding_operation_id entry) (all_terms s))
    by (rewrite Ef; by left).
  apply list_elem_of_filter in Ht as [Hid Ht]. clear Ef.
  settle E. unfold pass in E. injection E as <- <-. guards.
  set (onboarding := Z.min (se_amount entry) (ft_initial_onboarding (at_term t) ⊖ ft_paid_onboarding (at_term t))) in *.
  pose proof (wrap64_range (ft_initial_onboarding (at_term t) - ft_paid_onboarding (at_term t))) as Hr.
  assert (Hon : 0 <= onboarding <= se_amount entry) by (unfold onboarding; ulia).
  assert (Hl : se_amount entry ⊖ onboarding = se_amount entry - onboarding) by (apply sub64_small; ulia).
  rewrite Hl in *. eexists t, _, a, onboarding, (se_amount entry - onboarding).
  split_and!; try done; try lia.
  all: done.
Qed.

Lemma pay_writes_conserves s t term' provider p onboarding locked : amounts_wf s -> t ∈ all_terms s ->
  accounts s !! provider = Some p -> 0 <= onboarding -> 0 <= locked ->
  onboarding <= lr_escrow_onboarding (at_lease t) -> locked <= lr_escrow_locked (at_lease t) ->
  onboarding <= MAX64 ⊖ system_balance p -> onboarding <= MAX64 ⊖ onboarding_system_balance p ->
  locked <= MAX64 ⊖ balance p ->
  conserves s (pay_writes s t term' provider p onboarding locked).
Proof.
  intros Hwf [Hl _]%elem_of_all_terms Hp Ho Hk Eo Ek G1 G2 G3. unfold pay_writes.
  destruct (set_term_conserves s (at_publication t) (at_index t) term' Hwf) as [S1 W1].
  set (s1 := set_term _ _ _ _) in *. destruct (aw_leases _ Hwf _ _ Hl) as [L1 L2].
  destruct (aw_accounts _ Hwf _ _ Hp) as (A1 & A2 & A3). rewrite !(sub64_small MAX64) in * by ulia.
  rewrite !(sub64_small (lr_escrow_onboarding _)), !(sub64_small (lr_escrow_locked _)) by ulia. rewrite !add64_small by ulia.
  assert (Hl1 : leases s1 !! at_publication t = Some (with_terms (at_lease t) (<[at_index t := term']> (lr_funded_terms (at_lease t))))).
  { unfold s1. rewrite set_term_lease, bool_decide_eq_true_2 by done. by rewrite Hl. }
  destruct (set_escrow_spec s1 _ _ (lr_escrow_onboarding (at_lease t) - onboarding) (lr_escrow_locked (at_lease t) - locked) Hl1 W1)
    as [S2 W2]; [ulia..|].
  set (s2 := set_escrow s1 _ _ _) in *. unfold lease_money in S2. simpl in S2. split.
  - rewrite (supply_set_account _ _ p) by done. unfold account_money. simpl. lia.
  - apply amounts_set_account; [done|]. unfold account_wf. simpl. ulia.
Qed.

Lemma pay_entry_conserves op params s used entry s' used' : is_u64 (se_amount entry) -> amounts_wf s ->
  pay_entry op params s used entry = Ret (inr (s', used')) -> conserves s s' /\ settlement s' = settlement s /\ settles s s'.
Proof.
  intros Ha Hwf (t & term' & p & onb & lk & Ht & _ & Hp & _ & H1 & H2 & _ & H3 & H4 & H5 & H6 & H7 & _ & _ & ->)%pay_entry_inv;
    [|done].
  split_and!; [by apply pay_writes_conserves|done|]. etransitivity; [|apply settles_set_account]. by split_and!.
Qed.
Lemma pay_entries_conserves op params l : Forall (fun e => is_u64 (se_amount e)) l -> forall s used s' used', amounts_wf s ->
  pay_entries op params s used l = Ret (inr (s', used')) -> conserves s s' /\ settlement s' = settlement s /\ settles s s'.
Proof.
  induction 1 as [|e l He _ IH]; intros s used s' used' Hwf E; cbn [pay_entries] in E.
  - unfold pass in E. by injection E as <- <-.
  - settle_step E. destruct x as [s1 used1]. destruct (pay_entry_conserves _ _ _ _ _ _ _ He Hwf Hdo) as (C1 & F1 & K1).
    destruct (IH _ _ _ _ (proj2 C1) E) as (C2 & F2 & K2). split_and!; [by eapply conserves_trans|congruence|by etransitivity].
Qed.

(** ** Refunds *)

Lemma refund_term_conserves s id i s' : amounts_wf s -> refund_term s id i = Ret (inr s') ->
  conserves s s' /\ settlement s' = settlement s /\ settles s s'.
Proof.
  intros Hwf E. unfold refund_term in E. settle E; pass_inj E; [by subst|]. unfold or_throw in *.
  destruct (leases s !! id) eqn:Hl; [|done]. simplify_eq Hret. intros ->. clear Hret0.
  destruct (accounts s !! lr_payer a) eqn:Hp; [|done]. simplify_eq Hret1. intros ->. subst s'. guards.
  match goal with |- context [set_account s (lr_payer a) ?v] => pose proof (settles_set_account s (lr_payer a) v) as K end.
  split_and!; [|done|etransitivity; [exact K|by split_and!]]. clear K.
  set (onb := ft_initial_onboarding _ ⊖ _ ⊖ _) in *. set (lk := ft_initial_locked _ ⊖ _ ⊖ _) in *.
  assert (Ho : is_u64 onb) by apply wrap64_range. assert (Hk : is_u64 lk) by apply wrap64_range. clearbody onb lk.
  destruct (aw_leases _ Hwf _ _ Hl) as [L1 L2]. destruct (aw_accounts _ Hwf _ _ Hp) as (A1 & A2 & A3).
  rewrite !(sub64_small MAX64) in * by ulia. rewrite (sub64_small (MAX64 - _)) in * by ulia.
  match goal with |- context [with_refunded ?t ?x ?y ?z] => generalize (with_refunded t x y z) as term' end. intros term'.
  rewrite (add64_small onb lk), !add64_small by ulia.
  rewrite !(sub64_small (lr_escrow_onboarding _)), !(sub64_small (lr_escrow_locked _)) by ulia.
  match goal with |- context [set_account s (lr_payer a) ?v] => set (p' := v) end.
  set (s1 := set_account s (lr_payer a) p') in *.
  assert (S1 : supply s1 = supply s + onb + lk).
  { unfold s1. rewrite (supply_set_account _ _ a1) by done. unfold account_money. simpl. lia. }
  assert (W1 : amounts_wf s1) by (apply amounts_set_account; [done|]; unfold account_wf; simpl; ulia).
  destruct (set_escrow_spec s1 id a (lr_escrow_onboarding a - onb) (lr_escrow_locked a - lk) Hl W1) as [S2 W2]; [ulia..|].
  unfold lease_money in S2. eapply conserves_trans; [|by apply set_term_conserves]. split; [lia|done].
Qed.
Lemma refund_terms_conserves l : forall s s', amounts_wf s -> refund_terms s l = Ret (inr s') ->
  conserves s s' /\ settlement s' = settlement s /\ settles s s'.
Proof.
  induction l as [|[id i] l IH]; intros s s' Hwf E; cbn [refund_terms] in E; [unfold pass in E; by injection E as <-|].
  settle_step E. destruct (refund_term_conserves _ _ _ _ Hwf Hdo) as (C1 & F1 & K1).
  destruct (IH _ _ (proj2 C1) E) as (C2 & F2 & K2). split_and!; [by eapply conserves_trans|congruence|by etransitivity].
Qed.

(** A paid period moves money between escrow and accounts only, and the cursor
    to the next period. *)
Lemma ApplyPayInputs_conserves op params s s' :
  Forall (fun e => is_u64 (se_amount e)) (ss_entries op) -> amounts_wf s ->
  ApplyPayInputs op params s = Ret (inr s') ->
  conserves s s' /\ ss_period op = next_period (settlement s) /\ ss_period op <> MAX64 /\
  settlement s' = mkCursor (ss_period op ⊕ 1) (ss_period_end_utc op) /\ settles s s'.
Proof.
  intros Ha Hwf E. unfold ApplyPayInputs in E. do 5 walk_step E. settle_step E. destruct x as [s1 used]. walk_step E. guards.
  destruct (pay_entries_conserves _ _ _ Ha _ _ _ _ Hwf Hdo) as (C1 & F1 & K1).
  match type of E with refund_terms ?s2 _ = _ => assert (C2 : conserves s1 s2) by (apply same_money_conserves; [done|apply C1]) end.
  destruct (refund_terms_conserves _ _ _ (proj2 C2) E) as (C3 & F3 & K3).
  split; [|split_and!; try done; etransitivity; [exact K1|exact K3]].
  eapply conserves_trans; [exact C1|]. eapply conserves_trans; [exact C2|exact C3].
Qed.
End settlement_proofs.
