(* ===== verification/StateCodec.v ===== *)
(** * The state codec

    [SerializeCybouState], [DeserializeCybouState], [SerializedStateSize] and
    [CybouStateHash] of [src/src/cybou/state.cpp]. The [Reader] of the source
    is the part of the buffer not read yet, as in [IdentityCodec]. *)

From S2P Require Import Prelude.
From S2P Require Import Bytes.
From S2P Require Import Codec.
From S2P Require Import Crypto.
From S2P Require Import Identity.
From S2P Require Import IdentityCodec.
From S2P Require Import Names.
From S2P Require Import State.

Definition STATE_ACCOUNT_SIZE : Z := 32 + 8 * 5.
Definition PUBLICATION_SIZE : Z := 32 + 32 + 32 + 4 + 8.
Definition LEASE_SIZE : Z := 32 + 32 + 4 + 1 + 8 + 8 + 8 + 8 + 4.
Definition FUNDED_TERM_SIZE : Z := 32 + 8 * 13 + 4 + 4 + 4.
Definition GENESIS_ALLOCATION_BASE_SIZE : Z := 32 + 8 + 4 + 1.

(** ** Encoding *)

(** [Write32(out, size)] and the elements of a vector. *)
Definition vec_bytes {A} (f : A -> bytes) (l : list A) : bytes := le_bytes 4 (wrap32 (zlen l)) ++ mjoin (f <$> l).

Definition state_account_bytes (kv : AccountId * AccountState) : bytes :=
  arr_val kv.1 ++ le_bytes 8 (balance kv.2) ++ le_bytes 8 (system_balance kv.2)
  ++ le_bytes 8 (onboarding_system_balance kv.2) ++ le_bytes 8 (creation_height kv.2) ++ le_bytes 8 (creation_epoch kv.2).
Definition allocation_bytes (kv : IdentityKeyId * GenesisAllocation) : bytes :=
  arr_val kv.1 ++ le_bytes 8 (alloc_balance kv.2) ++ le_bytes 4 (wrap32 (zlen (alloc_label kv.2))) ++ alloc_label kv.2
  ++ match claimed_by kv.2 with Some id => le_bytes 1 1 ++ arr_val id | None => le_bytes 1 0 end.
Definition publication_record_bytes (kv : Hash256 * PublicationRecord) : bytes :=
  arr_val kv.1 ++ arr_val (pr_owner kv.2) ++ arr_val (pr_chunk_authorization_root kv.2)
  ++ le_bytes 4 (pr_chunk_count kv.2) ++ le_bytes 8 (pr_height kv.2).
Definition binding_bytes (e : StorageAcceptedBinding) : bytes :=
  arr_val (ab_storage_id e) ++ arr_val (ab_payout_account e) ++ le_bytes 8 (ab_key_epoch e)
  ++ le_bytes 8 (ab_accepted_height e).
Definition declaration_bytes (d : StorageAssignmentDeclaration) : bytes :=
  arr_val (ad_operation_id d) ++ le_bytes 8 (ad_epoch d) ++ le_bytes 8 (ad_height d) ++ vec_bytes binding_bytes (ad_eligible d).
Definition units_bytes (u : StorageAssignedUnits) : bytes :=
  le_bytes 1 (au_slot u) ++ arr_val (au_storage_id u) ++ arr_val (au_payout_account u) ++ le_bytes 4 (au_units u).
Definition assignment_bytes (a : StorageAcceptedAssignment) : bytes :=
  arr_val (aa_operation_id a) ++ arr_val (aa_preparation_id a) ++ arr_val (aa_seed a)
  ++ le_bytes 8 (aa_epoch a) ++ le_bytes 8 (aa_effective_period a) ++ vec_bytes units_bytes (aa_allocations a).
Definition service_payment_bytes (e : StorageServicePayment) : bytes :=
  le_bytes 1 (sp_slot e) ++ arr_val (sp_storage_id e) ++ arr_val (sp_payout_account e)
  ++ le_bytes 8 (sp_verified_unit_seconds e) ++ le_bytes 8 (sp_paid e) ++ le_bytes 8 (sp_closed_epoch_capacity e).
Definition term_bytes (t : StorageFundedTerm) : bytes :=
  arr_val (ft_funding_operation_id t)
  ++ le_bytes 8 (ft_first_period t) ++ le_bytes 8 (ft_end_period t) ++ le_bytes 8 (ft_rate t)
  ++ le_bytes 8 (ft_period_seconds t) ++ le_bytes 8 (ft_replica_share t) ++ le_bytes 8 (ft_contracted_unit_seconds t)
  ++ le_bytes 8 (ft_initial_onboarding t) ++ le_bytes 8 (ft_initial_locked t) ++ le_bytes 8 (ft_paid_onboarding t)
  ++ le_bytes 8 (ft_paid_locked t) ++ le_bytes 8 (ft_next_assignment_epoch t)
  ++ vec_bytes declaration_bytes (ft_declarations t) ++ vec_bytes assignment_bytes (ft_assignments t)
  ++ le_bytes 8 (ft_refunded_onboarding t) ++ le_bytes 8 (ft_refunded_locked t)
  ++ vec_bytes service_payment_bytes (ft_service_payments t).
Definition lease_bytes (kv : Hash256 * StorageLeaseRecord) : bytes :=
  arr_val kv.1 ++ arr_val (lr_payer kv.2) ++ le_bytes 4 (lr_units kv.2) ++ le_bytes 1 (lr_replicas kv.2)
  ++ le_bytes 8 (lr_first_period kv.2) ++ le_bytes 8 (lr_end_period kv.2)
  ++ le_bytes 8 (lr_escrow_onboarding kv.2) ++ le_bytes 8 (lr_escrow_locked kv.2)
  ++ vec_bytes term_bytes (lr_funded_terms kv.2).

(** ** Reading *)

Definition Reader_U8 (r : bytes) : option (Z * bytes) :=
  let? (l, r) := Reader_Read 1 r else None ;; Some (le_val l, r).
(** [reader.Bytes(32)] into a fixed array, and as a non-null [AccountId]. *)
Definition Reader_Hash (r : bytes) : option (arr 32 * bytes) :=
  let? (l, r) := Reader_Read 32 r else None ;; Some (arr_of 32 l, r).
Definition Reader_Account (r : bytes) : option (AccountId * bytes) :=
  let? (l, r) := Reader_Read 32 r else None ;;
  let? id := AccountId_FromBytes l else None ;; Some (id, r).

Section readers.
Context {A : Type} (read : bytes -> option (A * bytes)).
Fixpoint read_loop (count : nat) (r : bytes) : option (list A * bytes) :=
  match count with
  | O => Some ([], r)
  | S count =>
      let? (a, r) := read r else None ;;
      let? (l, r) := read_loop count r else None ;;
      Some (a :: l, r)
  end.
(** A vector: its size, refused above [maximum] or when the elements, of at
    least [item] bytes each, cannot be there. *)
Definition read_vec (maximum item : Z) (r : bytes) : option (list A * bytes) :=
  let? (count, r) := Reader_U32 r else None ;;
  return_if (maximum <? count) || (zlen r / item <? count) with None ;;
  read_loop (Z.to_nat count) r.
End readers.

(** The entries of a map: keys strictly increasing. The source checks the room
    for the entries of every map but the genesis allocations. *)
Fixpoint read_map_loop {V} (read : bytes -> option ((arr 32 * V) * bytes)) (prior : option (arr 32))
    (m : gmap (arr 32) V) (count : nat) (r : bytes) : option (gmap (arr 32) V * bytes) :=
  match count with
  | O => Some (m, r)
  | S count =>
      let? (kv, r) := read r else None ;;
      return_if match prior with Some p => negb (alt p kv.1) | None => false end with None ;;
      read_map_loop read (Some kv.1) (emplace m kv.1 kv.2) count r
  end.
Definition read_map {V} (read : bytes -> option ((arr 32 * V) * bytes)) (maximum : Z) (item : option Z) (r : bytes)
    : option (gmap (arr 32) V * bytes) :=
  let? (count, r) := Reader_U32 r else None ;;
  return_if (maximum <? count) || match item with Some n => zlen r / n <? count | None => false end with None ;;
  read_map_loop read None ∅ (Z.to_nat count) r.

Definition read_account (r : bytes) : option ((AccountId * AccountState) * bytes) :=
  let? (id, r) := Reader_Account r else None ;;
  let? (balance, r) := Reader_U64 r else None ;;
  let? (system, r) := Reader_U64 r else None ;;
  let? (onboarding, r) := Reader_U64 r else None ;;
  let? (height, r) := Reader_U64 r else None ;;
  let? (epoch, r) := Reader_U64 r else None ;;
  Some ((id, mkAccount balance system onboarding height epoch), r).
Definition read_allocation (r : bytes) : option ((IdentityKeyId * GenesisAllocation) * bytes) :=
  let? (id, r) := Reader_Hash r else None ;;
  let? (balance, r) := Reader_U64 r else None ;;
  let? (label_size, r) := Reader_U32 r else None ;;
  return_if NAME_MAX_LABEL_LENGTH <? label_size with None ;;
  let? (label, r) := Reader_Read label_size r else None ;;
  let? (claimed, r) := Reader_U8 r else None ;;
  return_if 1 <? claimed with None ;;
  if negb (claimed =? 0) then
    let? (account, r) := Reader_Account r else None ;;
    Some ((id, mkAllocation balance label (Some account)), r)
  else Some ((id, mkAllocation balance label None), r).
Definition read_publication (r : bytes) : option ((Hash256 * PublicationRecord) * bytes) :=
  let? (id, r) := Reader_Hash r else None ;;
  let? (owner, r) := Reader_Account r else None ;;
  let? (root, r) := Reader_Hash r else None ;;
  let? (chunks, r) := Reader_U32 r else None ;;
  let? (height, r) := Reader_U64 r else None ;;
  Some ((id, mkPublicationRecord owner root chunks height), r).
Definition read_binding (r : bytes) : option (StorageAcceptedBinding * bytes) :=
  let? (storage, r) := Reader_Hash r else None ;;
  let? (account, r) := Reader_Account r else None ;;
  let? (key_epoch, r) := Reader_U64 r else None ;;
  let? (accepted, r) := Reader_U64 r else None ;;
  Some (mkAcceptedBinding storage account key_epoch accepted, r).
Definition read_declaration (r : bytes) : option (StorageAssignmentDeclaration * bytes) :=
  let? (id, r) := Reader_Hash r else None ;;
  let? (epoch, r) := Reader_U64 r else None ;;
  let? (height, r) := Reader_U64 r else None ;;
  let? (eligible, r) := read_vec read_binding 20 80 r else None ;;
  Some (mkDeclaration id epoch height eligible, r).
Definition read_units (r : bytes) : option (StorageAssignedUnits * bytes) :=
  let? (slot, r) := Reader_U8 r else None ;;
  let? (storage, r) := Reader_Hash r else None ;;
  let? (account, r) := Reader_Account r else None ;;
  let? (units, r) := Reader_U32 r else None ;;
  Some (mkAssignedUnits slot storage account units, r).
Definition read_assignment (r : bytes) : option (StorageAcceptedAssignment * bytes) :=
  let? (id, r) := Reader_Hash r else None ;;
  let? (preparation, r) := Reader_Hash r else None ;;
  let? (seed, r) := Reader_Hash r else None ;;
  let? (epoch, r) := Reader_U64 r else None ;;
  let? (period, r) := Reader_U64 r else None ;;
  let? (allocations, r) := read_vec read_units (20 * MAX_STORAGE_LEASE_REPLICAS) 69 r else None ;;
  Some (mkAcceptedAssignment id preparation seed epoch period allocations, r).
Definition read_service_payment (r : bytes) : option (StorageServicePayment * bytes) :=
  let? (slot, r) := Reader_U8 r else None ;;
  let? (storage, r) := Reader_Hash r else None ;;
  let? (account, r) := Reader_Account r else None ;;
  let? (service, r) := Reader_U64 r else None ;;
  let? (paid, r) := Reader_U64 r else None ;;
  let? (closed, r) := Reader_U64 r else None ;;
  Some (mkServicePayment slot storage account service paid closed, r).
Definition read_term (r : bytes) : option (StorageFundedTerm * bytes) :=
  let? (funding, r) := Reader_Hash r else None ;;
  let? (first, r) := Reader_U64 r else None ;;
  let? (end_, r) := Reader_U64 r else None ;;
  let? (rate, r) := Reader_U64 r else None ;;
  let? (seconds, r) := Reader_U64 r else None ;;
  let? (share, r) := Reader_U64 r else None ;;
  let? (contracted, r) := Reader_U64 r else None ;;
  let? (initial_onboarding, r) := Reader_U64 r else None ;;
  let? (initial_locked, r) := Reader_U64 r else None ;;
  let? (paid_onboarding, r) := Reader_U64 r else None ;;
  let? (paid_locked, r) := Reader_U64 r else None ;;
  let? (next_epoch, r) := Reader_U64 r else None ;;
  let? (declarations, r) := read_vec read_declaration MAX32 52 r else None ;;
  let? (assignments, r) := read_vec read_assignment MAX32 116 r else None ;;
  let? (refunded_onboarding, r) := Reader_U64 r else None ;;
  let? (refunded_locked, r) := Reader_U64 r else None ;;
  let? (payments, r) := read_vec read_service_payment MAX32 89 r else None ;;
  Some (mkFundedTerm funding first end_ rate seconds share contracted initial_onboarding initial_locked
          paid_onboarding paid_locked next_epoch declarations assignments payments refunded_onboarding refunded_locked, r).
Definition read_lease (r : bytes) : option ((Hash256 * StorageLeaseRecord) * bytes) :=
  let? (id, r) := Reader_Hash r else None ;;
  let? (payer, r) := Reader_Account r else None ;;
  let? (units, r) := Reader_U32 r else None ;;
  let? (replicas, r) := Reader_U8 r else None ;;
  let? (first, r) := Reader_U64 r else None ;;
  let? (end_, r) := Reader_U64 r else None ;;
  let? (onboarding, r) := Reader_U64 r else None ;;
  let? (locked, r) := Reader_U64 r else None ;;
  let? (terms, r) := read_vec read_term MAX32 FUNDED_TERM_SIZE r else None ;;
  return_if zlen terms =? 0 with None ;;
  Some ((id, mkLease payer units replicas first end_ onboarding locked terms), r).

(** ** The state *)

(** The size the source reserves before writing. *)
Definition term_size (t : StorageFundedTerm) : Z :=
  FUNDED_TERM_SIZE + foldr (fun d acc => 52 + 80 * zlen (ad_eligible d) + acc) 0 (ft_declarations t)
  + foldr (fun a acc => 116 + 69 * zlen (aa_allocations a) + acc) 0 (ft_assignments t)
  + 89 * zlen (ft_service_payments t).
Definition SerializedStateSize (s : CybouState) (identities_ names_ : bytes) : Z :=
  4 + Z.of_nat (size (accounts s)) * STATE_ACCOUNT_SIZE + 4 + zlen identities_ + 4 + zlen names_ + 4
  + foldr (fun kv acc => GENESIS_ALLOCATION_BASE_SIZE + zlen (alloc_label kv.2)
             + match claimed_by kv.2 with Some _ => 32 | None => 0 end + acc) 0 (entries (genesis_allocations s))
  + (4 + Z.of_nat (size (publications s)) * PUBLICATION_SIZE)
  + (8 + 8 + 4 + Z.of_nat (size (leases s)) * LEASE_SIZE)
  + foldr (fun kv acc => foldr (fun t acc => term_size t + acc) 0 (lr_funded_terms kv.2) + acc) 0 (entries (leases s)).

Section state_codec.
Context `{CryptoOps}.

Definition SerializeCybouState (s : CybouState) (validate : bool) : option bytes :=
  return_if validate && negb (bool_decide (ValidateCybouState s = SV_NONE)) with None ;;
  let? ids := SerializeIdentityRegistry (identities s) else None ;;
  return_if MAX32 <? zlen ids with None ;;
  let nms := SerializeNameRegistry (st_names s) in
  return_if MAX32 <? zlen nms with None ;;
  return_if negb (forallb (fun id => negb (IsNull id) && bool_decide (is_Some (Find (identities s) id)))
                    (keys (accounts s))) with None ;;
  Some (vec_bytes state_account_bytes (entries (accounts s))
        ++ le_bytes 4 (wrap32 (zlen ids)) ++ ids ++ le_bytes 4 (wrap32 (zlen nms)) ++ nms
        ++ vec_bytes allocation_bytes (entries (genesis_allocations s))
        ++ vec_bytes publication_record_bytes (entries (publications s))
        ++ le_bytes 8 (next_period (settlement s)) ++ le_bytes 8 (next_period_start_utc (settlement s))
        ++ vec_bytes lease_bytes (entries (leases s))).

Definition DeserializeCybouState (l : bytes) : option CybouState :=
  let? (accounts_, r) := read_map read_account MAX_IDENTITY_REGISTRY_ACCOUNTS (Some STATE_ACCOUNT_SIZE) l else None ;;
  let? (identity_size, r) := Reader_U32 r else None ;;
  let? (identity_bytes, r) := Reader_Read identity_size r else None ;;
  let? identities_ := DeserializeIdentityRegistry identity_bytes else None ;;
  return_if negb (bool_decide (size (m_accounts identities_) = size accounts_)) with None ;;
  return_if negb (forallb (fun id => bool_decide (is_Some (Find identities_ id))) (keys accounts_)) with None ;;
  let? (names_size, r) := Reader_U32 r else None ;;
  let? (names_bytes, r) := Reader_Read names_size r else None ;;
  let? names_ := DeserializeNameRegistry names_bytes else None ;;
  let? (allocations_, r) := read_map read_allocation MAX_GENESIS_ALLOCATIONS None r else None ;;
  let? (publications_, r) := read_map read_publication MAX32 (Some PUBLICATION_SIZE) r else None ;;
  let? (period, r) := Reader_U64 r else None ;;
  let? (start, r) := Reader_U64 r else None ;;
  let? (leases_, r) := read_map read_lease MAX32 (Some LEASE_SIZE) r else None ;;
  return_if negb (zlen r =? 0) with None ;;
  let s := mkState accounts_ identities_ names_ allocations_ publications_ (mkCursor period start) leases_ in
  return_if negb (bool_decide (ValidateCybouState s = SV_NONE)) with None ;;
  Some s.

Definition CybouStateHash (s : CybouState) (validate : bool) : option Hash256 :=
  let? l := SerializeCybouState s validate else None ;;
  ComputeSha256 [str "CYBOU/STATE"; l].
End state_codec.
