(* ===== verification/StateCodecProofs.v ===== *)
(** * The state is read back as it was written

    Each reader of [StateCodec] undoes the writer next to it: an instance of
    [Format], one per record, put together with the vectors and maps. The
    restrictions the readers check hold of every state that passes
    [ValidateCybouState], so a state that is written is read back exactly. *)

From S2P Require Import Prelude.
From S2P Require Import Bytes.
From S2P Require Import Codec.
From S2P Require Import Params.
From S2P Require Import StorageEconomy.
From S2P Require Import Crypto.
From S2P Require Import Identity.
From S2P Require Import IdentityCodec.
From S2P Require Import Names.
From S2P Require Import State.
From S2P Require Import StateCodec.
From S2P Require Import LedgerProofs.

(** A reader that gives back what the writer wrote, for the values that are
    [ok], each of which takes at least [item] bytes. *)
Class Format {A} (read : bytes -> option (A * bytes)) (write : A -> bytes) (ok : A -> Prop) (item : Z) : Prop := {
  format_read a rest : ok a -> read (write a ++ rest) = Some (a, rest);
  format_size a : ok a -> item <= zlen (write a);
}.

(** ** Primitive readers *)

Lemma Reader_U32_app v rest : is_u32 v -> Reader_U32 (le_bytes 4 v ++ rest) = Some (v, rest).
Proof. intros. unfold Reader_U32. rewrite Reader_Read_app by len. by rewrite le_val_u32. Qed.
Lemma Reader_U8_app v rest : is_u8 v -> Reader_U8 (le_bytes 1 v ++ rest) = Some (v, rest).
Proof.
  intros Hv. unfold Reader_U8. rewrite Reader_Read_app by len. rewrite le_val_le_bytes. change (2 ^ _) with 256.
  by rewrite Z.mod_small by ulia.
Qed.
Lemma Reader_Hash_app (a : arr 32) rest : Reader_Hash (arr_val a ++ rest) = Some (a, rest).
Proof. unfold Reader_Hash. rewrite Reader_Read_app by len. by rewrite arr_of_arr. Qed.
Lemma Reader_Account_app (a : AccountId) rest : IsNull a = false -> Reader_Account (arr_val a ++ rest) = Some (a, rest).
Proof. intros Ha. unfold Reader_Account. rewrite Reader_Read_app by len. by rewrite AccountId_FromBytes_arr, Ha. Qed.

(** [decode] runs a reader over the concatenation of the fields it reads. *)
Create Rewrite HintDb decode.
#[export] Hint Rewrite Reader_Hash_app : decode.
Ltac decode :=
  repeat rewrite <- app_assoc;
  repeat first
    [ rewrite Reader_Hash_app
    | rewrite Reader_Account_app by done
    | rewrite Reader_U64_app by done
    | rewrite Reader_U32_app by done
    | rewrite Reader_U8_app by done ].

(** ** Vectors and maps *)

Section collections.
Context {A : Type} {read : bytes -> option (A * bytes)} {write : A -> bytes} {ok : A -> Prop} {item : Z}.
Context {F : Format read write ok item}.

Lemma zlen_vec_lower l : Forall ok l -> item * zlen l <= zlen (mjoin (write <$> l)).
Proof using F.
  induction 1 as [|a l Ha _ IH]; [unfold zlen; simpl; lia|]. rewrite fmap_cons, mjoin_cons, zlen_app, zlen_cons.
  pose proof (format_size a Ha). lia.
Qed.
Lemma read_loop_ok l rest : Forall ok l ->
  read_loop read (length l) (mjoin (write <$> l) ++ rest) = Some (l, rest).
Proof using F.
  induction 1 as [|a l Ha _ IH]; [done|]. rewrite fmap_cons, mjoin_cons, <- app_assoc. cbn [length read_loop].
  rewrite (format_read a) by done. by rewrite IH.
Qed.
Lemma read_vec_ok maximum l rest : 0 < item -> Forall ok l -> zlen l <= maximum -> zlen l <= MAX32 ->
  read_vec read maximum item (vec_bytes write l ++ rest) = Some (l, rest).
Proof using F.
  intros Hi Hok Hmax H32. unfold read_vec, vec_bytes. pose proof (zlen_nonneg l). pose proof (zlen_nonneg rest).
  rewrite wrap32_small by ulia. rewrite <- app_assoc, Reader_U32_app by ulia.
  pose proof (zlen_vec_lower l Hok). rewrite (proj2 (Z.ltb_ge _ _)) by done.
  rewrite (proj2 (Z.ltb_ge _ _)) by (rewrite zlen_app; apply Z.div_le_lower_bound; lia). cbn [orb].
  unfold zlen at 1. rewrite Nat2Z.id. by apply read_loop_ok.
Qed.
End collections.

Section maps.
Context {V : Type} {read : bytes -> option ((arr 32 * V) * bytes)} {write : arr 32 * V -> bytes}.
Context {ok : arr 32 * V -> Prop} {item : Z} {F : Format read write ok item}.

Lemma read_map_loop_ok l rest : forall prior m, Forall ok l -> increasing_from prior l ->
  (forall k, k ∈ l.*1 -> m !! k = None) -> NoDup l.*1 ->
  read_map_loop read prior m (length l) (mjoin (write <$> l) ++ rest) = Some (emplace_all m l, rest).
Proof using F.
  induction l as [|[k v] l IH]; intros prior m Hok Hinc Hm Hnd; [done|].
  inversion_clear Hok as [|? ? H1 H2]. destruct Hinc as [Hp Hinc]. cbn [fst] in Hp. rewrite fmap_cons in Hm, Hnd.
  apply NoDup_cons in Hnd as [Hn Hnd]. rewrite fmap_cons, mjoin_cons, <- app_assoc. cbn [length read_map_loop].
  rewrite (format_read (k, v)) by done. cbn [fst snd].
  replace (match prior with Some p => negb (alt p k) | None => false end) with false
    by (destruct prior as [p|]; [|done]; change (alt p k) with (klt p k); by rewrite (Hp p)).
  rewrite emplace_new by (apply Hm; left). rewrite IH; [done|done|done| |done].
  intros j Hj. rewrite lookup_insert_ne by (intros <-; done). apply Hm. by right.
Qed.
Lemma read_map_ok maximum room (m : gmap (arr 32) V) rest :
  match room with Some n => n = item | None => True end -> 0 < item ->
  (forall k v, m !! k = Some v -> ok (k, v)) -> Z.of_nat (size m) <= maximum -> Z.of_nat (size m) <= MAX32 ->
  read_map read maximum room (vec_bytes write (entries m) ++ rest) = Some (m, rest).
Proof using F.
  intros Hroom Hi Hok Hmax H32. unfold read_map, vec_bytes.
  assert (Hall : Forall ok (entries m)) by (apply Forall_forall; intros [k v] Hin%elem_of_entries; by apply Hok).
  assert (Hz : zlen (entries m) = Z.of_nat (size m)) by (unfold zlen; by rewrite length_entries).
  rewrite wrap32_small by (rewrite Hz; ulia). rewrite <- app_assoc, Reader_U32_app by (rewrite Hz; ulia).
  pose proof (zlen_vec_lower _ Hall). pose proof (zlen_nonneg rest).
  rewrite (proj2 (Z.ltb_ge _ _)) by lia.
  replace (match room with Some n => _ | None => false end) with false.
  - cbn [orb]. unfold zlen at 1. rewrite Nat2Z.id. rewrite read_map_loop_ok; [|done| | |apply NoDup_keys].
    + by rewrite emplace_all_empty, list_to_map_entries by apply NoDup_keys.
    + by apply sorted_increasing_from; [apply strictly_sorted_entries|].
    + intros. apply lookup_empty.
  - destruct room as [n|]; [subst n|done]. symmetry. apply Z.ltb_ge. rewrite zlen_app. apply Z.div_le_lower_bound; lia.
Qed.
End maps.

(** ** The records

    [*_ok]: the fields are in range, the account ids are not null and the
    vectors are within the limits of the reader. *)

Definition state_account_ok (kv : AccountId * AccountState) : Prop :=
  IsNull kv.1 = false /\ is_u64 (balance kv.2) /\ is_u64 (system_balance kv.2) /\
  is_u64 (onboarding_system_balance kv.2) /\ is_u64 (creation_height kv.2) /\ is_u64 (creation_epoch kv.2).
Definition allocation_ok (kv : IdentityKeyId * GenesisAllocation) : Prop :=
  is_u64 (alloc_balance kv.2) /\ zlen (alloc_label kv.2) <= NAME_MAX_LABEL_LENGTH /\
  match claimed_by kv.2 with Some id => IsNull id = false | None => True end.
Definition publication_ok (kv : Hash256 * PublicationRecord) : Prop :=
  IsNull (pr_owner kv.2) = false /\ is_u32 (pr_chunk_count kv.2) /\ is_u64 (pr_height kv.2).
Definition binding_ok (e : StorageAcceptedBinding) : Prop :=
  IsNull (ab_payout_account e) = false /\ is_u64 (ab_key_epoch e) /\ is_u64 (ab_accepted_height e).
Definition declaration_ok (d : StorageAssignmentDeclaration) : Prop :=
  is_u64 (ad_epoch d) /\ is_u64 (ad_height d) /\ Forall binding_ok (ad_eligible d) /\ zlen (ad_eligible d) <= 20.
Definition units_ok (u : StorageAssignedUnits) : Prop :=
  is_u8 (au_slot u) /\ IsNull (au_payout_account u) = false /\ is_u32 (au_units u).
Definition assignment_ok (a : StorageAcceptedAssignment) : Prop :=
  is_u64 (aa_epoch a) /\ is_u64 (aa_effective_period a) /\ Forall units_ok (aa_allocations a) /\
  zlen (aa_allocations a) <= 20 * MAX_STORAGE_LEASE_REPLICAS.
Definition service_payment_ok (e : StorageServicePayment) : Prop :=
  is_u8 (sp_slot e) /\ IsNull (sp_payout_account e) = false /\ is_u64 (sp_verified_unit_seconds e) /\
  is_u64 (sp_paid e) /\ is_u64 (sp_closed_epoch_capacity e).
Definition term_numbers_ok (t : StorageFundedTerm) : Prop :=
  is_u64 (ft_first_period t) /\ is_u64 (ft_end_period t) /\ is_u64 (ft_rate t) /\ is_u64 (ft_period_seconds t) /\
  is_u64 (ft_replica_share t) /\ is_u64 (ft_contracted_unit_seconds t) /\ is_u64 (ft_initial_onboarding t) /\
  is_u64 (ft_initial_locked t) /\ is_u64 (ft_paid_onboarding t) /\ is_u64 (ft_paid_locked t) /\
  is_u64 (ft_next_assignment_epoch t) /\ is_u64 (ft_refunded_onboarding t) /\ is_u64 (ft_refunded_locked t).
Definition term_ok (t : StorageFundedTerm) : Prop :=
  term_numbers_ok t /\
  (Forall declaration_ok (ft_declarations t) /\ zlen (ft_declarations t) <= MAX32) /\
  (Forall assignment_ok (ft_assignments t) /\ zlen (ft_assignments t) <= MAX32) /\
  (Forall service_payment_ok (ft_service_payments t) /\ zlen (ft_service_payments t) <= MAX32).
Definition lease_numbers_ok (l : StorageLeaseRecord) : Prop :=
  is_u32 (lr_units l) /\ is_u8 (lr_replicas l) /\ is_u64 (lr_first_period l) /\ is_u64 (lr_end_period l) /\
  is_u64 (lr_escrow_onboarding l) /\ is_u64 (lr_escrow_locked l).
Definition lease_ok (kv : Hash256 * StorageLeaseRecord) : Prop :=
  IsNull (lr_payer kv.2) = false /\ lease_numbers_ok kv.2 /\ Forall term_ok (lr_funded_terms kv.2) /\
  lr_funded_terms kv.2 <> [] /\ zlen (lr_funded_terms kv.2) <= MAX32.

Ltac project :=
  cbn [fst snd balance system_balance onboarding_system_balance creation_height creation_epoch alloc_balance alloc_label
    claimed_by pr_owner pr_chunk_authorization_root pr_chunk_count pr_height ab_storage_id ab_payout_account ab_key_epoch
    ab_accepted_height ad_operation_id ad_epoch ad_height ad_eligible au_slot au_storage_id au_payout_account au_units
    aa_operation_id aa_preparation_id aa_seed aa_epoch aa_effective_period aa_allocations sp_slot sp_storage_id
    sp_payout_account sp_verified_unit_seconds sp_paid sp_closed_epoch_capacity ft_funding_operation_id ft_first_period
    ft_end_period ft_rate ft_period_seconds ft_replica_share ft_contracted_unit_seconds ft_initial_onboarding
    ft_initial_locked ft_paid_onboarding ft_paid_locked ft_next_assignment_epoch ft_declarations ft_assignments
    ft_service_payments ft_refunded_onboarding ft_refunded_locked lr_payer lr_units lr_replicas lr_first_period
    lr_end_period lr_escrow_onboarding lr_escrow_locked lr_funded_terms].
Ltac split_ands := repeat match goal with H : _ /\ _ |- _ => destruct H end.
#[export] Instance account_format : Format read_account state_account_bytes state_account_ok STATE_ACCOUNT_SIZE.
Proof.
  split; intros [k [b s o h e]]; unfold state_account_ok, state_account_bytes, read_account; project.
  - intros rest Hok. split_ands. by decode.
  - intros _. unfold STATE_ACCOUNT_SIZE. len.
Qed.
#[export] Instance publication_format : Format read_publication publication_record_bytes publication_ok PUBLICATION_SIZE.
Proof.
  split; intros [k [o r c h]]; unfold publication_ok, publication_record_bytes, read_publication; project.
  - intros rest Hok. split_ands. by decode.
  - intros _. unfold PUBLICATION_SIZE. len.
Qed.
#[export] Instance binding_format : Format read_binding binding_bytes binding_ok 80.
Proof.
  split; intros [i p k h]; unfold binding_ok, binding_bytes, read_binding; project.
  - intros rest Hok. split_ands. by decode.
  - intros _. len.
Qed.
#[export] Instance units_format : Format read_units units_bytes units_ok 69.
Proof.
  split; intros [s i p u]; unfold units_ok, units_bytes, read_units; project.
  - intros rest Hok. split_ands. by decode.
  - intros _. len.
Qed.
#[export] Instance service_payment_format : Format read_service_payment service_payment_bytes service_payment_ok 89.
Proof.
  split; intros [s i p v d c]; unfold service_payment_ok, service_payment_bytes, read_service_payment; project.
  - intros rest Hok. split_ands. by decode.
  - intros _. len.
Qed.
Lemma zlen_vec_bytes {A} (f : A -> bytes) l : zlen (vec_bytes f l) = 4 + zlen (mjoin (f <$> l)).
Proof. unfold vec_bytes. len. Qed.
Lemma vec_bytes_room {A} (f : A -> bytes) l : 4 <= zlen (vec_bytes f l).
Proof. rewrite zlen_vec_bytes. pose proof (zlen_nonneg (mjoin (f <$> l))). lia. Qed.

#[export] Instance declaration_format : Format read_declaration declaration_bytes declaration_ok 52.
Proof.
  split; intros [i e h l]; unfold declaration_ok, declaration_bytes, read_declaration; project.
  - intros rest Hok. split_ands. decode. by rewrite (read_vec_ok 20 l rest) by (done || ulia).
  - intros _. pose proof (vec_bytes_room binding_bytes l). len.
Qed.
#[export] Instance assignment_format : Format read_assignment assignment_bytes assignment_ok 116.
Proof.
  split; intros [i p s e h l]; unfold assignment_ok, assignment_bytes, read_assignment; project.
  - intros rest Hok. split_ands. decode.
    by rewrite (read_vec_ok (20 * MAX_STORAGE_LEASE_REPLICAS) l rest) by (done || unfold MAX_STORAGE_LEASE_REPLICAS in *; ulia).
  - intros _. pose proof (vec_bytes_room units_bytes l). len.
Qed.
#[export] Instance term_format : Format read_term term_bytes term_ok FUNDED_TERM_SIZE.
Proof.
  split; intros [i n1 n2 n3 n4 n5 n6 n7 n8 n9 n10 n11 ds asg sps n12 n13];
    unfold term_ok, term_numbers_ok, term_bytes, read_term; project.
  - intros rest Hok. split_ands. decode. rewrite read_vec_ok by done. rewrite read_vec_ok by done. decode.
    by rewrite read_vec_ok by done.
  - intros _. pose proof (vec_bytes_room declaration_bytes ds). pose proof (vec_bytes_room assignment_bytes asg).
    pose proof (vec_bytes_room service_payment_bytes sps). unfold FUNDED_TERM_SIZE. len.
Qed.
#[export] Instance lease_format : Format read_lease lease_bytes lease_ok LEASE_SIZE.
Proof.
  split; intros [k [p u r f e o l ts]]; unfold lease_ok, lease_numbers_ok, lease_bytes, read_lease; project.
  - intros rest Hok. split_ands. decode. rewrite read_vec_ok by done.
    destruct ts as [|t ts]; [done|]. by rewrite zlen_cons, (proj2 (Z.eqb_neq _ _)) by (pose proof (zlen_nonneg ts); lia).
  - intros _. pose proof (vec_bytes_room term_bytes ts). unfold LEASE_SIZE. len.
Qed.
#[export] Instance allocation_format : Format read_allocation allocation_bytes allocation_ok GENESIS_ALLOCATION_BASE_SIZE.
Proof.
  split; intros [k [b label c]]; unfold allocation_ok, allocation_bytes, read_allocation; project.
  - intros rest (Hb & Hl & Hc). pose proof (zlen_nonneg label). unfold NAME_MAX_LABEL_LENGTH in *.
    assert (is_u32 (zlen label)) by ulia. rewrite wrap32_small by done. decode. rewrite (proj2 (Z.ltb_ge _ _)) by done. rewrite Reader_Read_app by done.
    destruct c as [id|]; repeat rewrite <- app_assoc; rewrite Reader_U8_app by done; cbn [Z.ltb Z.compare Z.eqb negb Pos.compare Pos.compare_cont]; by decode.
  - intros _. pose proof (zlen_nonneg label). unfold GENESIS_ALLOCATION_BASE_SIZE. destruct c; len.
Qed.

(** ** What validation guarantees

    The readers refuse null account ids, long vectors and long labels;
    [ValidateCybouState] accepts none of these either. *)

(** The fields are values of their C++ types, and the counts of the maps fit
    the 32 bits they are written in. *)
Definition declaration_typed (d : StorageAssignmentDeclaration) : Prop :=
  is_u64 (ad_epoch d) /\ is_u64 (ad_height d) /\
  Forall (fun e => is_u64 (ab_key_epoch e) /\ is_u64 (ab_accepted_height e)) (ad_eligible d).
Definition assignment_typed (a : StorageAcceptedAssignment) : Prop :=
  is_u64 (aa_epoch a) /\ is_u64 (aa_effective_period a) /\
  Forall (fun u => is_u8 (au_slot u) /\ is_u32 (au_units u)) (aa_allocations a).
Definition service_payment_typed (e : StorageServicePayment) : Prop :=
  is_u8 (sp_slot e) /\ is_u64 (sp_verified_unit_seconds e) /\ is_u64 (sp_paid e) /\ is_u64 (sp_closed_epoch_capacity e).
Definition term_typed (t : StorageFundedTerm) : Prop :=
  term_numbers_ok t /\ Forall declaration_typed (ft_declarations t) /\ Forall assignment_typed (ft_assignments t) /\
  Forall service_payment_typed (ft_service_payments t).
Record state_typed (s : CybouState) : Prop := {
  ty_accounts : map_Forall (fun _ a => is_u64 (balance a) /\ is_u64 (system_balance a) /\
    is_u64 (onboarding_system_balance a) /\ is_u64 (creation_height a) /\ is_u64 (creation_epoch a)) (accounts s);
  ty_allocations : map_Forall (fun _ a => is_u64 (alloc_balance a)) (genesis_allocations s);
  ty_publications : map_Forall (fun _ p => is_u32 (pr_chunk_count p) /\ is_u64 (pr_height p)) (publications s);
  ty_leases : map_Forall (fun _ l => lease_numbers_ok l /\ Forall term_typed (lr_funded_terms l)) (leases s);
  ty_commits : map_Forall (fun _ r => is_u64 (commit_height r)) (pending_commits (st_names s));
  ty_cursor : is_u64 (next_period (settlement s)) /\ is_u64 (next_period_start_utc (settlement s));
  ty_counts : Z.of_nat (size (names (st_names s))) <= MAX32 /\ Z.of_nat (size (publications s)) <= MAX32 /\
    Z.of_nat (size (leases s)) <= MAX32;
}.

Section validated.
Context `{CryptoOps}.
Context (s : CybouState).

(** An account that exists has an id that is not null. *)
Definition live (id : AccountId) : Prop := is_Some (accounts s !! id).

Lemma validate_accounts_keys l : validate_accounts s l = SV_NONE -> Forall (fun kv => IsNull kv.1 = false) l.
Proof.
  induction l as [|[id a] l IH]; [constructor|]. intros E. cbn [validate_accounts] in E. walk_step E. walk_step E. guards.
  constructor; [done|by apply IH].
Qed.
Lemma validate_allocations_all l : forall labels claimed r, validate_allocations s labels claimed l = Some r ->
  Forall (fun kv => zlen (alloc_label kv.2) <= NAME_MAX_LABEL_LENGTH /\
                    match claimed_by kv.2 with Some id => live id | None => True end) l.
Proof.
  induction l as [|[k a] l IH]; [constructor|]. intros labels claimed r E. cbn [validate_allocations] in E. do 3 walk_step E.
  constructor; [|by eapply IH]. cbn [snd]. split.
  - destruct (Z.eqb_spec (zlen (alloc_label a)) 0); [unfold NAME_MAX_LABEL_LENGTH; lia|]. cbn [negb andb] in Hif.
    apply label_storable_length. unfold label_storable. apply andb_false_iff in Hif as [Hif|Hif]; guards; tauto.
  - destruct (claimed_by a); [|done]. apply contains_true. by apply negb_false_iff.
Qed.
Lemma validate_names_all claimed l : validate_names s claimed l = true ->
  Forall (fun kv => label_storable kv.1 /\ live kv.2 /\ account_names (st_names s) !! kv.2 = Some kv.1) l.
Proof.
  induction l as [|[label acc] l IH]; [constructor|]. intros E. cbn [validate_names] in E. do 3 walk_step E.
  constructor; [|by apply IH]. cbn [fst snd]. guards. split_and!; [|by apply contains_true|done].
  unfold label_storable. apply andb_false_iff in Hif as [Hif|Hif]; guards; tauto.
Qed.
Lemma validate_commits_all l : forall seen, validate_commits s seen l = true ->
  Forall (fun kv => IsNull kv.1 = false /\ live (cr_account_id kv.2)) l.
Proof.
  induction l as [|[c r] l IH]; [constructor|]. intros seen E. cbn [validate_commits] in E. do 2 walk_step E.
  constructor; [|by eapply IH]. cbn [fst snd]. guards. split; [done|by apply contains_true].
Qed.
Lemma validate_eligible_all payer h l : forall prior payouts r, validate_eligible s payer h prior payouts l = Some r ->
  Forall (fun e => live (ab_payout_account e)) l.
Proof.
  induction l as [|e l IH]; [constructor|]. intros prior payouts r E. cbn [validate_eligible] in E. do 3 walk_step E.
  constructor; [|by eapply IH]. guards. by apply contains_true.
Qed.
Lemma validate_declarations_all lease term l : forall op_ids ids pe ph r,
  validate_declarations s lease term op_ids ids pe ph l = Some r ->
  Forall (fun d => zlen (ad_eligible d) <= 20 /\ Forall (fun e => live (ab_payout_account e)) (ad_eligible d)) l.
Proof.
  induction l as [|d l IH]; [constructor|]. intros op_ids ids pe ph r E. cbn [validate_declarations] in E. do 3 walk_step E.
  constructor; [|by eapply IH]. guards. split; [done|]. by eapply validate_eligible_all.
Qed.
Lemma validate_allocated_all lease d l : forall prior sums r, validate_allocated lease d prior sums l = Some r ->
  Forall (fun u => exists e, e ∈ ad_eligible d /\ ab_payout_account e = au_payout_account u) l.
Proof.
  induction l as [|u l IH]; [constructor|]. intros prior sums r E. cbn [validate_allocated] in E. walk_step E.
  constructor; [|by eapply IH]. guards.
  match goal with Hx : existsb _ _ = true |- _ => apply existsb_exists in Hx as (e & Hin & He) end. guards.
  exists e. split; [by apply list_elem_of_In|done].
Qed.
Lemma validate_assignments_all lease term l : lr_replicas lease <= MAX_STORAGE_LEASE_REPLICAS ->
  Forall (fun d => zlen (ad_eligible d) <= 20 /\ Forall (fun e => live (ab_payout_account e)) (ad_eligible d)) (ft_declarations term) ->
  forall op_ids ids pe pp r, validate_assignments s lease term op_ids ids pe pp l = Some r ->
  Forall (fun a => zlen (aa_allocations a) <= 20 * MAX_STORAGE_LEASE_REPLICAS /\
                   Forall (fun u => live (au_payout_account u)) (aa_allocations a)) l.
Proof.
  intros Hrep Hdecl. induction l as [|a l IH]; [constructor|]. intros op_ids ids pe pp r E.
  cbn [validate_assignments] in E. do 5 walk_step E. constructor; [|by eapply IH]. guards. split; [lia|].
  apply validate_allocated_all in Hopt0. eapply Forall_impl; [exact Hopt0|]. intros u (e & He & Hp). rewrite <- Hp.
  unfold find_declaration in Hopt. apply List.find_some in Hopt as [Hin _]. apply list_elem_of_In in Hin.
  rewrite Forall_forall in Hdecl. destruct (Hdecl _ Hin) as [_ Hel]. rewrite Forall_forall in Hel. by apply Hel.
Qed.
Lemma capacity_account term slot id acc through closure c :
  ComputeAcceptedStorageCapacity term slot id acc through closure = Some c -> IsNull acc = false.
Proof. unfold ComputeAcceptedStorageCapacity. intros E. walk_step E. by guards. Qed.
Lemma validate_payments_all lease term budget l : forall prior service sum r,
  validate_payments s lease term budget prior service sum l = Some r ->
  Forall (fun e => IsNull (sp_payout_account e) = false) l.
Proof.
  induction l as [|e l IH]; [constructor|]. intros prior service sum r E. cbn [validate_payments] in E. do 5 walk_step E.
  constructor; [|by eapply IH]. by eapply capacity_account.
Qed.

Definition term_checked (t : StorageFundedTerm) : Prop :=
  zlen (ft_declarations t) <= MAX32 /\ zlen (ft_assignments t) <= MAX32 /\ zlen (ft_service_payments t) <= MAX32 /\
  Forall (fun d => zlen (ad_eligible d) <= 20 /\ Forall (fun e => live (ab_payout_account e)) (ad_eligible d)) (ft_declarations t) /\
  Forall (fun a => zlen (aa_allocations a) <= 20 * MAX_STORAGE_LEASE_REPLICAS /\
                   Forall (fun u => live (au_payout_account u)) (aa_allocations a)) (ft_assignments t) /\
  Forall (fun e => IsNull (sp_payout_account e) = false) (ft_service_payments t).
Lemma validate_terms_all lease l : lr_replicas lease <= MAX_STORAGE_LEASE_REPLICAS -> forall fids oids e ro rl r,
  validate_terms s lease fids oids e ro rl l = Some r -> Forall term_checked l.
Proof.
  intros Hrep. induction l as [|t l IH]; [constructor|]. intros fids oids e ro rl r E. cbn [validate_terms] in E. walk E.
  constructor; [|by eapply IH]. guards.
  match goal with Hd : validate_declarations _ _ _ _ _ _ _ _ = _ |- _ => apply validate_declarations_all in Hd end.
  match goal with Hp : validate_payments _ _ _ _ _ _ _ _ = _ |- _ => apply validate_payments_all in Hp end.
  match goal with Ha : validate_assignments _ _ _ _ _ _ _ _ = _ |- _ => apply validate_assignments_all in Ha; [|done..] end.
  unfold term_checked. by split_and!.
Qed.
Lemma validate_leases_all l : forall fids oids, validate_leases s fids oids l = true ->
  Forall (fun kv => live (lr_payer kv.2) /\ lr_funded_terms kv.2 <> [] /\ zlen (lr_funded_terms kv.2) <= MAX32 /\
                    Forall term_checked (lr_funded_terms kv.2)) l.
Proof.
  induction l as [|[k lease] l IH]; [constructor|]. intros fids oids E. cbn [validate_leases] in E. walk E.
  constructor; [|by eapply IH]. cbn [snd]. guards. split_and!; [by apply contains_true| |done|by eapply validate_terms_all].
  intros Hnil. rewrite Hnil in *. done.
Qed.

Lemma term_typed_ok t : (forall id, live id -> IsNull id = false) -> term_typed t -> term_checked t -> term_ok t.
Proof.
  intros Hlive (T1 & T2 & T3 & T4) (C1 & C2 & C3 & C4 & C5 & C6). unfold term_ok. split_and!; try done.
  - eapply Forall_impl; [exact (proj2 (Forall_and _ _) (conj T2 C4))|]. intros d [(D1 & D2 & D3) [D4 D5]].
    unfold declaration_ok. split_and!; try done; try apply D1; try apply D2.
    eapply Forall_impl; [exact (proj2 (Forall_and _ _) (conj D3 D5))|]. intros b [(B1 & B2) B3]. unfold binding_ok.
    by split_and!; [apply Hlive|..]; try apply B1; try apply B2.
  - eapply Forall_impl; [exact (proj2 (Forall_and _ _) (conj T3 C5))|]. intros a [(D1 & D2 & D3) [D4 D5]].
    unfold assignment_ok. split; [done|]. split; [done|]. split; [|done].
    eapply Forall_impl; [exact (proj2 (Forall_and _ _) (conj D3 D5))|]. intros u [(B1 & B2) B3]. unfold units_ok.
    split; [done|]. split; [by apply Hlive|done].
  - eapply Forall_impl; [exact (proj2 (Forall_and _ _) (conj T4 C6))|]. intros e [(D1 & D2 & D3 & D4) D5].
    unfold service_payment_ok. by split; [|split; [|split; [|split]]].
Qed.

(** Two maps of the same size, one the inverse of the other one way. *)
Lemma inverse_maps (m : gmap bytes AccountId) (n : gmap AccountId bytes) : size m = size n ->
  (forall l a, m !! l = Some a -> n !! a = Some l) -> forall l a, m !! l = Some a <-> n !! a = Some l.
Proof.
  intros Hsz Hf l a. split; [apply Hf|]. intros Hn.
  set (sw := prod_swap <$> map_to_list m).
  assert (Hin : forall a l, (a, l) ∈ sw <-> m !! l = Some a).
  { intros b k. unfold sw. rewrite list_elem_of_fmap. split.
    - intros ([k' b'] & [= -> ->] & Hx). by apply elem_of_map_to_list.
    - intros Hk. exists (k, b). split; [done|]. by apply elem_of_map_to_list. }
  assert (Hnd : NoDup sw.*1).
  { apply NoDup_fmap_fst.
    - intros x y1 y2 Hx%Hin%Hf Hy%Hin%Hf. congruence.
    - apply NoDup_fmap; [apply _|]. apply NoDup_map_to_list. }
  assert (E : list_to_map sw = n).
  { apply map_subseteq_size_eq.
    - apply map_subseteq_spec. intros b k Hb%elem_of_list_to_map_2. by apply Hf, Hin.
    - rewrite <- Hsz. rewrite <- (length_map_to_list (list_to_map sw : gmap AccountId bytes)), map_to_list_to_map by done.
      unfold sw. rewrite length_fmap. by rewrite length_map_to_list. }
  rewrite <- E in Hn. apply Hin. by apply elem_of_list_to_map_2.
Qed.
End validated.

Section roundtrip.
Context `{CryptoOps}.

Record state_ok (s : CybouState) : Prop := {
  ok_accounts : forall k v, accounts s !! k = Some v -> state_account_ok (k, v);
  ok_allocations : forall k v, genesis_allocations s !! k = Some v -> allocation_ok (k, v);
  ok_publications : forall k v, publications s !! k = Some v -> publication_ok (k, v);
  ok_leases : forall k v, leases s !! k = Some v -> lease_ok (k, v);
  ok_names : names_wf (st_names s);
  ok_sizes : Z.of_nat (size (accounts s)) <= MAX_IDENTITY_REGISTRY_ACCOUNTS /\
    Z.of_nat (size (genesis_allocations s)) <= MAX_GENESIS_ALLOCATIONS /\
    Z.of_nat (size (pending_commits (st_names s))) <= DEFAULT_MAX_PENDING_NAME_COMMITS;
}.
Lemma Forall_entries {K V} `{Countable K, !KeyBytes K} (P : K * V -> Prop) (m : gmap K V) k v :
  Forall P (entries m) -> m !! k = Some v -> P (k, v).
Proof. rewrite Forall_forall. intros HP Hk. apply HP. by apply elem_of_entries. Qed.

Lemma validated_ok s : state_typed s -> ValidateCybouState s = SV_NONE -> state_ok s.
Proof.
  intros [T1 T2 T3 T4 T5 T6 T7] E. unfold ValidateCybouState in E. walk E; try (guards; congruence). guards.
  pose proof (validate_accounts_keys s _ ltac:(eassumption)) as Hkeys.
  assert (Hlive : forall id, live s id -> IsNull id = false).
  { intros id [a Ha]. exact (Forall_entries _ _ _ _ Hkeys Ha). }
  pose proof (validate_allocations_all s _ _ _ _ Hopt) as Halloc.
  pose proof (validate_names_all s _ _ ltac:(eassumption)) as Hnames.
  pose proof (validate_commits_all s _ _ ltac:(eassumption)) as Hcommits.
  pose proof (validate_leases_all s _ _ _ ltac:(eassumption)) as Hleases.
  constructor; [..|by split_and!].
  - intros k v Hk. pose proof (T1 _ _ Hk) as Ht. split; [by apply Hlive; eexists|exact Ht].
  - intros k v Hk. destruct (Forall_entries _ _ _ _ Halloc Hk) as [H1 H2]. split; [exact (T2 _ _ Hk)|]. split; [done|].
    cbn [snd] in *. destruct (claimed_by v); [by apply Hlive|done].
  - intros k v Hk. split; [|exact (T3 _ _ Hk)]. cbn [snd]. unfold validate_publications in *.
    match goal with Hp : forallb _ (entries (publications s)) = true |- _ => rewrite forallb_forall in Hp;
      specialize (Hp (k, v) (proj1 (list_elem_of_In _ _) (proj2 (elem_of_entries _ _ _) Hk))) end.
    cbn [fst snd] in *. guards. by apply Hlive, contains_true.
  - intros k v Hk. destruct (T4 _ _ Hk) as [N1 N2]. destruct (Forall_entries _ _ _ _ Hleases Hk) as (L1 & L2 & L3 & L4).
    split; [by apply Hlive|]. split; [done|]. split; [|by split]. cbn [snd] in *.
    eapply Forall_impl; [exact (proj2 (Forall_and _ _) (conj N2 L4))|]. intros t [Ht Hc]. by eapply term_typed_ok.
  - constructor.
    + apply inverse_maps; [done|]. intros l a Hl. by destruct (Forall_entries _ _ _ _ Hnames Hl) as (_ & _ & ?).
    + intros l a Hl. destruct (Forall_entries _ _ _ _ Hnames Hl) as (? & ? & _). split; [done|by apply Hlive].
    + intros c r Hc. destruct (Forall_entries _ _ _ _ Hcommits Hc) as (? & ?). split_and!; [done|by apply Hlive|].
      all: pose proof (T5 _ _ Hc) as Hu; apply Hu.
Qed.

(** ** Sizes *)

Lemma zlen_entries {K V} `{Countable K, !KeyBytes K} (m : gmap K V) : zlen (entries m) = Z.of_nat (size m).
Proof. unfold zlen. by rewrite length_entries. Qed.

Lemma zlen_mjoin_fmap {A} (f : A -> bytes) l : zlen (mjoin (f <$> l)) = foldr (fun x acc => zlen (f x) + acc) 0 l.
Proof. induction l as [|x l IH]; [done|]. rewrite fmap_cons, mjoin_cons, zlen_app, IH. done. Qed.
Lemma foldr_ext_in {A} (f g : A -> Z) l : (forall x, x ∈ l -> f x = g x) ->
  foldr (fun x acc => f x + acc) 0 l = foldr (fun x acc => g x + acc) 0 l.
Proof.
  induction l as [|x l IH]; intros Hx; [done|]. simpl. rewrite Hx, IH; [done| |by left]. intros y Hy. apply Hx. by right.
Qed.
Lemma foldr_const {A} c (l : list A) : foldr (fun _ acc => c + acc) 0 l = c * zlen l.
Proof. induction l as [|x l IH]; [unfold zlen; simpl; lia|]. rewrite zlen_cons. simpl. lia. Qed.
Lemma foldr_bound {A} (f : A -> Z) c l : (forall x, x ∈ l -> f x <= c) -> foldr (fun x acc => f x + acc) 0 l <= c * zlen l.
Proof.
  induction l as [|x l IH]; intros Hx; [unfold zlen; simpl; lia|]. rewrite zlen_cons. simpl.
  pose proof (Hx x ltac:(by left)). pose proof (IH (fun y Hy => Hx y ltac:(by right))). lia.
Qed.
Lemma foldr_scaled {A} c d (f : A -> Z) l :
  foldr (fun x acc => c + d * f x + acc) 0 l = c * zlen l + d * foldr (fun x acc => f x + acc) 0 l.
Proof. induction l as [|x l IH]; [unfold zlen; simpl; lia|]. rewrite zlen_cons. simpl. lia. Qed.

Lemma zlen_declaration d : zlen (declaration_bytes d) = 52 + 80 * zlen (ad_eligible d).
Proof.
  unfold declaration_bytes. autorewrite with zlen. rewrite zlen_vec_bytes, zlen_mjoin_fmap.
  rewrite (foldr_ext_in _ (fun _ => 80)), foldr_const by (intros; unfold binding_bytes; len). lia.
Qed.
Lemma zlen_assignment a : zlen (assignment_bytes a) = 116 + 69 * zlen (aa_allocations a).
Proof.
  unfold assignment_bytes. autorewrite with zlen. rewrite zlen_vec_bytes, zlen_mjoin_fmap.
  rewrite (foldr_ext_in _ (fun _ => 69)), foldr_const by (intros; unfold units_bytes; len). lia.
Qed.
Lemma zlen_term t : zlen (term_bytes t) = term_size t.
Proof.
  unfold term_bytes, term_size, FUNDED_TERM_SIZE. autorewrite with zlen. rewrite !zlen_vec_bytes, !zlen_mjoin_fmap.
  rewrite (foldr_ext_in _ _ (ft_declarations t) (fun d _ => zlen_declaration d)).
  rewrite (foldr_ext_in _ _ (ft_assignments t) (fun a _ => zlen_assignment a)).
  rewrite (foldr_ext_in _ (fun _ => 89) (ft_service_payments t)), foldr_const by (intros; unfold service_payment_bytes; len).
  simpl. lia.
Qed.
Lemma zlen_lease kv :
  zlen (lease_bytes kv) = LEASE_SIZE + foldr (fun t acc => term_size t + acc) 0 (lr_funded_terms kv.2).
Proof.
  unfold lease_bytes, LEASE_SIZE. autorewrite with zlen. rewrite zlen_vec_bytes, zlen_mjoin_fmap.
  rewrite (foldr_ext_in _ _ _ (fun t _ => zlen_term t)). simpl. lia.
Qed.

(** The size the writer reserves is exactly the size of what it writes. *)
Theorem SerializedStateSize_exact s validate l : SerializeCybouState s validate = Some l ->
  exists ids, SerializeIdentityRegistry (identities s) = Some ids /\
    zlen l = SerializedStateSize s ids (SerializeNameRegistry (st_names s)).
Proof.
  unfold SerializeCybouState. intros E. walk E. some_inj E. rename l0 into ids. exists ids. split; [done|].
  unfold SerializedStateSize. autorewrite with zlen. rewrite !zlen_vec_bytes, !zlen_mjoin_fmap.
  rewrite (foldr_ext_in _ (fun _ => STATE_ACCOUNT_SIZE) (entries (accounts s))), foldr_const
    by (intros; unfold state_account_bytes, STATE_ACCOUNT_SIZE; len).
  rewrite (foldr_ext_in _ (fun _ => PUBLICATION_SIZE) (entries (publications s))), foldr_const
    by (intros; unfold publication_record_bytes, PUBLICATION_SIZE; len).
  rewrite (foldr_ext_in _ _ (entries (leases s)) (fun kv _ => zlen_lease kv)).
  rewrite (foldr_ext_in _ (fun kv => GENESIS_ALLOCATION_BASE_SIZE + zlen (alloc_label kv.2)
    + match claimed_by kv.2 with Some _ => 32 | None => 0 end) (entries (genesis_allocations s)))
    by (intros; unfold allocation_bytes, GENESIS_ALLOCATION_BASE_SIZE; case_match; len).
  assert (Hl : forall (g : Hash256 * StorageLeaseRecord -> Z) (l : list (Hash256 * StorageLeaseRecord)),
    foldr (fun x acc => LEASE_SIZE + g x + acc) 0 l = zlen l * LEASE_SIZE + foldr (fun x acc => g x + acc) 0 l).
  { clear. intros g l. induction l as [|x l IH]; [unfold zlen; simpl; lia|]. rewrite zlen_cons. simpl. lia. }
  rewrite Hl, !zlen_entries. lia.
Qed.

(** ** Reading back *)

Lemma identities_length reg l : registry_wf reg -> SerializeIdentityRegistry reg = Some l -> zlen l <= MAX32.
Proof.
  unfold SerializeIdentityRegistry. intros Hwf E. walk E. some_inj E. guards. autorewrite with zlen.
  rewrite zlen_mjoin_fmap. pose proof (foldr_bound (fun a => zlen (account_bytes a)) ACCOUNT_SIZE (entries (m_accounts reg))) as Hb.
  rewrite zlen_entries in Hb. unfold MAX_IDENTITY_REGISTRY_ACCOUNTS in *.
  assert (forall x, x ∈ entries (m_accounts reg) -> zlen (account_bytes x) <= ACCOUNT_SIZE) as Hx.
  { intros [id rec] Hin%elem_of_entries.
    destruct (rw_account _ Hwf _ _ Hin) as (_ & _ & _ & [aid A] & rid & R & _).
    destruct (key_usable_inv _ _ (ComputeRecoveryKeyId_usable _ _ R)) as (_ & L1 & _).
    destruct (key_usable_inv _ _ (ComputeAuthorizationKeyId_usable _ _ A)) as (_ & L2 & _).
    unfold account_bytes, WritePublic. change (PublicSize RECOVERY_ROOT) with 1952 in L1.
    change (PublicSize AUTHORIZATION) with 1312 in L2.
    unfold ACCOUNT_SIZE, RECOVERY_PUBLIC_SIZE, AUTHORIZATION_PUBLIC_SIZE. len. }
  specialize (Hb Hx). unfold ACCOUNT_SIZE, RECOVERY_PUBLIC_SIZE, AUTHORIZATION_PUBLIC_SIZE, ROOT_PQ_SIZE, AUTHORIZATION_PQ_SIZE in *.
  simpl in *. ulia.
Qed.
Lemma names_length reg : names_wf reg -> Z.of_nat (size (names reg)) <= MAX_IDENTITY_REGISTRY_ACCOUNTS ->
  Z.of_nat (size (pending_commits reg)) <= DEFAULT_MAX_PENDING_NAME_COMMITS -> zlen (SerializeNameRegistry reg) <= MAX32.
Proof.
  intros Hwf H1 H2. unfold SerializeNameRegistry. autorewrite with zlen. rewrite !zlen_mjoin_fmap.
  pose proof (foldr_bound (fun a => zlen (name_bytes a)) 65 (entries (names reg))) as Hn.
  pose proof (foldr_bound (fun a => zlen (commit_bytes a)) 72 (entries (pending_commits reg))) as Hc.
  rewrite zlen_entries in Hn. rewrite zlen_entries in Hc. unfold MAX_IDENTITY_REGISTRY_ACCOUNTS, DEFAULT_MAX_PENDING_NAME_COMMITS in *.
  assert (Hx : forall x, x ∈ entries (names reg) -> zlen (name_bytes x) <= 65).
  { intros [label acc] Hin%elem_of_entries. destruct (nw_name _ Hwf _ _ Hin) as [Hl _].
    pose proof (label_storable_length _ Hl). unfold name_bytes. cbn [fst snd]. len. }
  assert (Hy : forall x, x ∈ entries (pending_commits reg) -> zlen (commit_bytes x) <= 72) by (intros; unfold commit_bytes; len).
  specialize (Hn Hx). specialize (Hc Hy). ulia.
Qed.
Lemma names_bounded s : state_ok s -> (forall id, is_Some (account_names (st_names s) !! id) -> is_Some (accounts s !! id)) ->
  Z.of_nat (size (names (st_names s))) = Z.of_nat (size (account_names (st_names s))) ->
  Z.of_nat (size (names (st_names s))) <= MAX_IDENTITY_REGISTRY_ACCOUNTS.
Proof.
  intros Hok Hacc ->. destruct (ok_sizes _ Hok) as (Hs & _ & _).
  assert (size (account_names (st_names s)) <= size (accounts s))%nat; [|lia].
  rewrite <- !size_dom. apply subseteq_size. intros id. rewrite !elem_of_dom. apply Hacc.
Qed.

Lemma validated_identities s : ValidateCybouState s = SV_NONE ->
  size (m_accounts (identities s)) = size (accounts s) /\
  (forall id, is_Some (accounts s !! id) -> IsNull id = false /\ is_Some (Find (identities s) id)) /\
  size (names (st_names s)) = size (account_names (st_names s)) /\
  (forall label acc, names (st_names s) !! label = Some acc -> is_Some (accounts s !! acc)).
Proof.
  intros E. unfold ValidateCybouState in E. walk E; try (guards; congruence). guards. split_and!; try done.
  - match goal with Hv : validate_accounts _ _ = SV_NONE |- _ => revert Hv end. clear. intros Hv id [a Ha].
    apply elem_of_entries in Ha. revert Hv Ha. generalize (entries (accounts s)) as l.
    induction l as [|[i b] l IH]; [by intros _ ?%elem_of_nil|]. cbn [validate_accounts]. intros E Hin.
    walk_step E. walk_step E. guards. apply elem_of_cons in Hin as [[= <- <-]|Hin]; [done|by apply IH].
  - intros label acc Hl. pose proof (validate_names_all s _ _ ltac:(eassumption)) as Hn.
    by destruct (Forall_entries _ _ _ _ Hn Hl) as (_ & ? & _).
Qed.

Lemma state_reads_back s : state_typed s -> registry_wf (identities s) ->
  (forall id rec, m_accounts (identities s) !! id = Some rec -> has_nonzero (arr_val (ir_kem_package_id rec)) = true) ->
  ValidateCybouState s = SV_NONE ->
  exists l, SerializeCybouState s true = Some l /\ DeserializeCybouState l = Some s.
Proof.
  intros Ht Hreg Hkem Hv. pose proof (validated_ok s Ht Hv) as Hok.
  destruct (validated_identities s Hv) as (V1 & V2 & V3 & V4). pose proof (ok_names _ Hok) as Hnw.
  assert (Hnames : Z.of_nat (size (names (st_names s))) <= MAX_IDENTITY_REGISTRY_ACCOUNTS).
  { apply names_bounded; [done| |lia]. intros id [label Hl]. apply (nw_inverse _ Hnw) in Hl. by eapply V4. }
  destruct (ok_sizes _ Hok) as (S1 & S2 & S3).
  destruct (IdentityRegistry_reads_back _ Hreg) as (ids & Ei & Di); [by rewrite V1|done|].
  pose proof (identities_length _ _ Hreg Ei) as Li. pose proof (names_length _ Hnw Hnames S3) as Ln.
  assert (Dn : DeserializeNameRegistry (SerializeNameRegistry (st_names s)) = Some (st_names s)).
  { apply NameRegistry_reads_back; [done|unfold MAX_IDENTITY_REGISTRY_ACCOUNTS in *; ulia|
      unfold DEFAULT_MAX_PENDING_NAME_COMMITS in *; ulia]. }
  set (nms := SerializeNameRegistry (st_names s)) in *. eexists. split.
  - unfold SerializeCybouState. fold nms. rewrite bool_decide_eq_true_2, Ei by done. cbn [negb andb].
    rewrite !(proj2 (Z.ltb_ge _ _)) by done. rewrite (proj2 (forallb_forall _ _)); [done|].
    intros id Hin%list_elem_of_In. unfold keys in Hin. apply list_elem_of_fmap in Hin as ([id' a] & -> & Hin%elem_of_entries).
    destruct (V2 id') as [N F]; [by eexists|]. cbn [fst]. by rewrite N, bool_decide_eq_true_2.
  - destruct Ht as [_ _ _ _ _ [C1 C2] (_ & C3 & C4)]. pose proof (zlen_nonneg ids). pose proof (zlen_nonneg nms).
    unfold MAX_IDENTITY_REGISTRY_ACCOUNTS, MAX_GENESIS_ALLOCATIONS in *.
    unfold DeserializeCybouState. rewrite read_map_ok; [|done|done|apply Hok|done|ulia].
    rewrite Reader_U32_app by (rewrite wrap32_small; ulia). rewrite wrap32_small by ulia. rewrite Reader_Read_app by done.
    rewrite Di. rewrite bool_decide_eq_true_2 by done. cbn [negb].
    rewrite (proj2 (forallb_forall _ _)).
    2: { intros id Hin%list_elem_of_In. unfold keys in Hin. apply list_elem_of_fmap in Hin as ([id' a] & -> & Hin%elem_of_entries).
         destruct (V2 id') as [_ F]; [by eexists|]. by apply bool_decide_eq_true_2. }
    cbn [negb]. rewrite Reader_U32_app by (rewrite wrap32_small; ulia). rewrite wrap32_small by ulia.
    rewrite Reader_Read_app by done. rewrite Dn.
    rewrite read_map_ok; [|done|done|apply Hok|done|ulia]. rewrite read_map_ok; [|done|done|apply Hok|done|done].
    rewrite !Reader_U64_app by done.
    rewrite <- (app_nil_r (vec_bytes lease_bytes _)). rewrite read_map_ok; [|done|done|apply Hok|done|done].
    cbn [zlen length Z.of_nat Z.eqb negb].
    assert (mkState (accounts s) (identities s) (st_names s) (genesis_allocations s) (publications s)
      (mkCursor (next_period (settlement s)) (next_period_start_utc (settlement s))) (leases s) = s) as ->
      by (destruct s as [? ? ? ? ? [? ?] ?]; done).
    by rewrite bool_decide_eq_true_2.
Qed.

(** C29: every valid state is written, and what is written is read back as
    exactly that state, through validation and all. Beside validity this needs
    what every state of the running program has: fields that are values of
    their types, with counts of 32 bits ([state_typed]), a registry whose index
    and records agree, and package ids that are not zero. *)
Theorem CybouState_roundtrip s : state_typed s -> registry_wf (identities s) ->
  (forall id rec, m_accounts (identities s) !! id = Some rec -> has_nonzero (arr_val (ir_kem_package_id rec)) = true) ->
  ValidateCybouState s = SV_NONE ->
  exists l, SerializeCybouState s true = Some l /\ DeserializeCybouState l = Some s.
Proof. apply state_reads_back. Qed.
End roundtrip.
