(* ===== verification/Executor.v ===== *)
(** * Block execution

    [src/src/cybou/block_executor.cpp]: the executor applies the operations of
    a block to a copy of the parent state and validates the result. *)

From S2P Require Import Prelude.
From S2P Require Import Bytes.
From S2P Require Import Codec.
From S2P Require Import Params.
From S2P Require Import Crypto.
From S2P Require Import Identity.
From S2P Require Import Names.
From S2P Require Import Payloads.
From S2P Require Import Operation.
From S2P Require Import State.
From S2P Require Import StateCodec.
From S2P Require Import Ledger.
From S2P Require Import Settlement.

(** [BlockExecutionError], each kind of rejection with the detail that the
    source stores in a field of its own. *)
Inductive BlockExecutionError : Type :=
| BE_NONE | BE_TOO_MANY_ACCOUNT_CREATES
| BE_INVALID_ACCOUNT_CREATE (e : AccountCreateStateError) | BE_INVALID_PAYMENT (e : PaymentError)
| BE_INVALID_IDENTITY_ROTATE (e : IdentityRegistryError) | BE_INVALID_SYSTEM_LOCK (e : SystemLockError)
| BE_INVALID_NAME_COMMIT (e : NameCommitError) | BE_INVALID_NAME_REVEAL (e : NameRevealError)
| BE_INVALID_ROOT_PUBLICATION (e : RootPublicationError) | BE_INVALID_REVOKE_PUBLICATION (e : RevokePublicationError)
| BE_INVALID_STORAGE_LEASE (e : StorageLeaseError) | BE_INVALID_STORAGE_SETTLEMENT (e : StorageSettlementError)
| BE_SUPPLY_CHANGED | BE_INVALID_STATE.
#[export] Instance BlockExecutionError_eq_dec : EqDecision BlockExecutionError.
Proof. solve_decision. Defined.

Record BlockExecutionResult : Type := mkResult {
  res_error : BlockExecutionError;
  failed_operation_index : Z;
  res_state : option CybouState;
  res_state_root : option Hash256;
}.
Definition error_result (e : BlockExecutionError) : BlockExecutionResult := mkResult e 0 None None.

Record BlockExecutor : Type := mkExecutor {
  m_parent : CybouState;
  m_candidate : CybouState;
  m_network_binding : Hash256;
  m_block_height : Z;
  m_verified_parent_id : Hash256;
  m_initial_supply : Z;
  m_account_creates : Z;
  m_params : CybouProtocolParameters;
  m_poa_key : option IdentityHybridPublicKey;
  m_valid : bool;
  m_init_error : BlockExecutionError;
}.
Definition with_candidate (x : BlockExecutor) (s : CybouState) (creates : Z) (valid : bool) : BlockExecutor :=
  mkExecutor (m_parent x) s (m_network_binding x) (m_block_height x) (m_verified_parent_id x) (m_initial_supply x) creates
    (m_params x) (m_poa_key x) valid (m_init_error x).

Section executor.
Context `{CryptoOps}.

(** The constructor drops the name commitments that have expired. *)
Definition commit_expired (params : CybouProtocolParameters) (height : Z) (record : NameCommitRecord) : bool :=
  (commit_height record <? height) && (name_commit_max_lifetime params <? height ⊖ commit_height record).
Definition purge_commits (params : CybouProtocolParameters) (height : Z) (s : CybouState) : CybouState :=
  if 0 <? name_commit_max_lifetime params then
    set_names s (mkNameRegistry (names (st_names s)) (account_names (st_names s))
      (filter (fun kv => commit_expired params height kv.2 = false) (pending_commits (st_names s))))
  else s.
Definition new_executor (parent : CybouState) (network_binding : Hash256) (block_height : Z)
    (params : CybouProtocolParameters) (poa_key : option IdentityHybridPublicKey) (verified_parent_id : Hash256)
    : BlockExecutor :=
  if negb (bool_decide (ValidateCybouState parent = SV_NONE))
  then mkExecutor parent parent network_binding block_height verified_parent_id 0 0 params poa_key false BE_INVALID_STATE
  else mkExecutor parent (purge_commits params block_height parent) network_binding block_height verified_parent_id
         (TotalCybou parent) 0 params poa_key true BE_NONE.

(** The [if ... else if] chain over the alternatives of the operation: the
    error of the operation and the candidate it leaves. *)
Definition apply_to_candidate (x : BlockExecutor) (operation : ProtocolOperation)
    : outcome (BlockExecutionError * CybouState) :=
  let s := m_candidate x in
  let nb := m_network_binding x in
  let h := m_block_height x in
  let params := m_params x in
  match operation with
  | OpAccountCreate op =>
      return_if max_account_creates_per_block params <=? m_account_creates x with Ret (BE_TOO_MANY_ACCOUNT_CREATES, s) ;;
      let (e, s) := ApplyAccountCreate op nb h params s in
      Ret (if bool_decide (e = CS_NONE) then BE_NONE else BE_INVALID_ACCOUNT_CREATE e, s)
  | OpPayment op =>
      let (e, s) := ApplyPayment op nb params s in
      Ret (if bool_decide (e = PE_NONE) then BE_NONE else BE_INVALID_PAYMENT e, s)
  | OpIdentityRotate op =>
      let (e, reg) := RotateIdentity (identities s) op nb in
      Ret (if bool_decide (e = IR_NONE) then BE_NONE else BE_INVALID_IDENTITY_ROTATE e, set_identities s reg)
  | OpSystemLock op =>
      let (e, s) := ApplySystemLock op nb s in
      Ret (if bool_decide (e = SL_NONE) then BE_NONE else BE_INVALID_SYSTEM_LOCK e, s)
  | OpNameCommit op =>
      try! (e, s) := ApplyNameCommit op nb h params s ;;
      Ret (if bool_decide (e = NC_NONE) then BE_NONE else BE_INVALID_NAME_COMMIT e, s)
  | OpNameReveal op =>
      try! (e, s) := ApplyNameReveal op nb h params s ;;
      Ret (if bool_decide (e = NR_NONE) then BE_NONE else BE_INVALID_NAME_REVEAL e, s)
  | OpRootPublication op =>
      try! (e, s) := ApplyRootPublication op nb params s ;;
      return_if negb (bool_decide (e = RP_NONE)) with Ret (BE_INVALID_ROOT_PUBLICATION e, s) ;;
      try! id := ComputeOperationId operation ;;
      let? id := id else Ret (BE_INVALID_STATE, s) ;;
      let (recorded, s) := RecordPublication s id (oa_account_id (rp_authorization op))
        (pub_chunk_authorization_root (publication op)) (pub_chunk_count (publication op)) h in
      Ret (if recorded then BE_NONE else BE_INVALID_STATE, s)
  | OpRevokePublication op =>
      let (e, s) := ApplyRevokePublication op nb params s in
      Ret (if bool_decide (e = RV_NONE) then BE_NONE else BE_INVALID_REVOKE_PUBLICATION e, s)
  | OpStorageLease op =>
      try! (e, s) := ApplyStorageLease op nb params s ;;
      Ret (if bool_decide (e = LE_NONE) then BE_NONE else BE_INVALID_STORAGE_LEASE e, s)
  | OpStorageSettlement op =>
      let? poa_key := m_poa_key x else Ret (BE_INVALID_STORAGE_SETTLEMENT SS_INVALID_SIGNATURE, s) ;;
      try! (e, s) := ApplyStorageSettlement op nb params poa_key s h (m_verified_parent_id x) ;;
      Ret (if bool_decide (e = SS_NONE) then BE_NONE else BE_INVALID_STORAGE_SETTLEMENT e, s)
  end.

Definition is_create (operation : ProtocolOperation) : bool :=
  match operation with OpAccountCreate _ => true | _ => false end.

Definition ApplyOperation (x : BlockExecutor) (operation : ProtocolOperation)
    : outcome (BlockExecutionResult * BlockExecutor) :=
  return_if negb (m_valid x) with
    Ret (error_result (m_init_error x), with_candidate x (m_candidate x) (m_account_creates x) false) ;;
  try! (e, s) := apply_to_candidate x operation ;;
  if bool_decide (e = BE_NONE)
  then Ret (error_result BE_NONE,
            with_candidate x s (if is_create operation then m_account_creates x + 1 else m_account_creates x) true)
  else Ret (error_result e, with_candidate x s (m_account_creates x) false).

Definition CanFinalize (x : BlockExecutor) : bool :=
  return_if negb (m_valid x) with false ;;
  return_if negb (bool_decide (ValidateCybouState (m_candidate x) = SV_NONE)) with false ;;
  TotalCybou (m_candidate x) =? m_initial_supply x.

(** Both overloads of [Finalize]: the rvalue one moves the candidate out. *)
Definition Finalize (x : BlockExecutor) : BlockExecutionResult :=
  return_if negb (m_valid x) with error_result (m_init_error x) ;;
  return_if negb (bool_decide (ValidateCybouState (m_candidate x) = SV_NONE)) with error_result BE_INVALID_STATE ;;
  return_if negb (TotalCybou (m_candidate x) =? m_initial_supply x) with error_result BE_SUPPLY_CHANGED ;;
  let? root := CybouStateHash (m_candidate x) false else error_result BE_INVALID_STATE ;;
  mkResult BE_NONE 0 (Some (m_candidate x)) (Some root).

Definition StorageAssignmentSeed (x : BlockExecutor) (preparation_height : Z) : option Hash256 :=
  return_if negb (m_valid x) || IsNull (m_verified_parent_id x) || (MAX64 ⊖ 2 <? preparation_height)
    || negb (m_block_height x =? preparation_height ⊕ 2) with None ;;
  Some (m_verified_parent_id x).

Fixpoint execute_loop (x : BlockExecutor) (i : Z) (operations : list ProtocolOperation) : outcome BlockExecutionResult :=
  match operations with
  | [] => Ret (Finalize x)
  | operation :: rest =>
      try! (result, x) := ApplyOperation x operation ;;
      return_if negb (bool_decide (res_error result = BE_NONE))
        with Ret (mkResult (res_error result) i (res_state result) (res_state_root result)) ;;
      execute_loop x (i + 1) rest
  end.
Definition ExecuteBlockOperations (parent : CybouState) (operations : list ProtocolOperation) (network_binding : Hash256)
    (block_height : Z) (params : CybouProtocolParameters) (poa_key : option IdentityHybridPublicKey)
    (verified_parent_id : Hash256) : outcome BlockExecutionResult :=
  return_if max_account_creates_per_block params <? zlen (List.filter is_create operations)
    with Ret (error_result BE_TOO_MANY_ACCOUNT_CREATES) ;;
  let x := new_executor parent network_binding block_height params poa_key verified_parent_id in
  return_if negb (m_valid x) with Ret (error_result (m_init_error x)) ;;
  execute_loop x 0 operations.
End executor.
