(* ===== verification/ExecutorProofs.v ===== *)
(** * What a block can do to the ledger

    [ledger_step] is one accepted operation, or the purge of the expired name
    commitments at the start of a block; a chain of blocks is a sequence of
    such steps. Along every sequence the money supply is constant, a name
    belongs to one account and no authorization is accepted twice. *)

From S2P Require Import Prelude.
From S2P Require Import Bytes.
From S2P Require Import Codec.
From S2P Require Import Params.
From S2P Require Import Crypto.
From S2P Require Import Identity.
From S2P Require Import Names.
From S2P Require Import Payloads.
From S2P Require Import SettlementData.
From S2P Require Import Operation.
From S2P Require Import State.
From S2P Require Import Ledger.
From S2P Require Import Supply.
From S2P Require Import LedgerProofs.
From S2P Require Import Settlement.
From S2P Require Import SettlementProofs.
From S2P Require Import StateCodec.
From S2P Require Import Executor.

(** The amounts of an operation are [uint64_t] fields. *)
Definition operation_wf (operation : ProtocolOperation) : Prop :=
  match operation with
  | OpPayment op => is_u64 (pay_amount (payment op))
  | OpSystemLock op => is_u64 (lock_amount (lock op))
  | OpStorageSettlement op => Forall (fun e => is_u64 (se_amount e)) (ss_entries op)
  | _ => True
  end.

(** The authorization an operation carries, if any. *)
Definition operation_authorization (operation : ProtocolOperation) : option IdentityOperationAuthorization :=
  match operation with
  | OpPayment op => Some (pay_authorization op)
  | OpSystemLock op => Some (lock_authorization op)
  | OpNameCommit op => Some (nc_authorization op)
  | OpNameReveal op => Some (nv_authorization op)
  | OpRootPublication op => Some (rp_authorization op)
  | OpRevokePublication op => Some (rev_authorization op)
  | OpStorageLease op => Some (lease_authorization op)
  | OpAccountCreate _ | OpIdentityRotate _ | OpStorageSettlement _ => None
  end.

Section executor_proofs.
Context `{CryptoOps}.

(** ** Settlements *)

Lemma ApplyStorageSettlement_inv op nb params key s h parent s' :
  ApplyStorageSettlement op nb params key s h parent = Ret (SS_NONE, s') ->
  purpose key = POA_FINALIZER /\ ValidateCybouState s' = SV_NONE /\
  if bool_decide (ss_action op = PAY) then ApplyPayInputs op params s = Ret (inr s')
  else ApplyAssignmentInputs op nb s h parent true = Ret (inr s').
Proof.
  intros E. unfold ApplyStorageSettlement in E. walk_step E. walk_step E. guards.
  destruct (bool_decide (ss_action op = PAY)); cbn [negb] in E; walk_step E; destruct a0 as [e|s1];
    [injection E as -> ->| |injection E as -> ->|].
  - by apply ApplyPayInputs_honest in Hret.
  - walk_step E. injection E as <-. guards. by split_and!.
  - by apply ApplyAssignmentInputs_honest in Hret.
  - walk_step E. injection E as <-. guards. by split_and!.
Qed.
Lemma ApplyStorageSettlement_rejected op nb params key s h parent e s' :
  ApplyStorageSettlement op nb params key s h parent = Ret (e, s') -> e <> SS_NONE -> s' = s.
Proof.
  intros E Hne. unfold ApplyStorageSettlement in E. walk E; try destruct (a0 : _ + _); walk E; by injection E as <- <-.
Qed.
Lemma ApplyStorageSettlement_conserves op nb params key s h parent s' : amounts_wf s ->
  Forall (fun e => is_u64 (se_amount e)) (ss_entries op) ->
  ApplyStorageSettlement op nb params key s h parent = Ret (SS_NONE, s') -> conserves s s' /\ settles s s'.
Proof.
  intros Hwf Ha (_ & _ & E)%ApplyStorageSettlement_inv. case_bool_decide.
  - by destruct (ApplyPayInputs_conserves _ _ _ _ Ha Hwf E) as (C & _ & _ & _ & K).
  - by destruct (ApplyAssignmentInputs_conserves _ _ _ _ _ _ _ Hwf E) as (C & _ & K).
Qed.

(** ** One operation *)

Lemma RecordPublication_spec s id owner root count h b s' : RecordPublication s id owner root count h = (b, s') ->
  if b then publications s !! id = None /\ is_Some (accounts s !! owner) /\ count <> 0 /\
    s' = set_publications s (<[id := mkPublicationRecord owner root count h]> (publications s))
  else s' = s.
Proof.
  unfold RecordPublication. intros E. walk_step E; injection E as <- <-; [done|]. guards.
  match goal with Hc : contains (publications s) id = false |- _ => apply contains_false in Hc; rewrite emplace_new by done end.
  split_and!; try done. by apply contains_true.
Qed.

(** What an accepted operation is, for each kind. *)
Lemma apply_none x operation s' : apply_to_candidate x operation = Ret (BE_NONE, s') ->
  let s := m_candidate x in
  match operation with
  | OpAccountCreate op => ApplyAccountCreate op (m_network_binding x) (m_block_height x) (m_params x) s = (CS_NONE, s')
  | OpPayment op => ApplyPayment op (m_network_binding x) (m_params x) s = (PE_NONE, s')
  | OpIdentityRotate op => exists reg, RotateIdentity (identities s) op (m_network_binding x) = (IR_NONE, reg) /\ s' = set_identities s reg
  | OpSystemLock op => ApplySystemLock op (m_network_binding x) s = (SL_NONE, s')
  | OpNameCommit op => ApplyNameCommit op (m_network_binding x) (m_block_height x) (m_params x) s = Ret (NC_NONE, s')
  | OpNameReveal op => ApplyNameReveal op (m_network_binding x) (m_block_height x) (m_params x) s = Ret (NR_NONE, s')
  | OpRootPublication op => exists s1 id, ApplyRootPublication op (m_network_binding x) (m_params x) s = Ret (RP_NONE, s1) /\
      ComputeOperationId operation = Ret (Some id) /\
      RecordPublication s1 id (oa_account_id (rp_authorization op)) (pub_chunk_authorization_root (publication op))
        (pub_chunk_count (publication op)) (m_block_height x) = (true, s')
  | OpRevokePublication op => ApplyRevokePublication op (m_network_binding x) (m_params x) s = (RV_NONE, s')
  | OpStorageLease op => ApplyStorageLease op (m_network_binding x) (m_params x) s = Ret (LE_NONE, s')
  | OpStorageSettlement op => exists key, m_poa_key x = Some key /\
      ApplyStorageSettlement op (m_network_binding x) (m_params x) key s (m_block_height x) (m_verified_parent_id x)
        = Ret (SS_NONE, s')
  end.
Proof.
  intros E. unfold apply_to_candidate in E. destruct operation; cbv beta iota zeta in E; cbv zeta.
  all: repeat first [walk_step E | case_bool_decide; [|discriminate E]].
  all: injection E as E; subst; eauto.
  destruct b; [|done]. guards. subst. eauto.
Qed.

(** A rejected operation leaves the candidate alone. The one exception is an
    accepted publication whose record cannot be added, [BE_INVALID_STATE]. *)
Lemma apply_rejected x operation e s' : apply_to_candidate x operation = Ret (e, s') -> e <> BE_NONE ->
  e <> BE_INVALID_STATE -> s' = m_candidate x.
Proof.
  intros E Hne Hni. unfold apply_to_candidate in E. destruct operation; cbv beta iota zeta in E.
  all: repeat first [walk_step E | case_bool_decide]; injection E as <- <-; try done.
  all: eauto using ApplyAccountCreate_rejected, ApplyPayment_rejected, ApplySystemLock_rejected, ApplyNameCommit_rejected,
    ApplyNameReveal_rejected, ApplyRootPublication_rejected, ApplyRevokePublication_rejected, ApplyStorageLease_rejected,
    ApplyStorageSettlement_rejected.
  - assert (i0 = identities (m_candidate x)) as -> by (unfold RotateIdentity in Hpair; walk Hpair; congruence).
    apply set_identities_id.
  - by destruct b.
Qed.

Lemma apply_conserves x operation s' : params_wf (m_params x) -> operation_wf operation -> money_wf (m_candidate x) ->
  apply_to_candidate x operation = Ret (BE_NONE, s') -> conserves (m_candidate x) s'.
Proof.
  intros Hp Ho Hm E%apply_none. cbv zeta in E. destruct operation; simpl in Ho.
  - by eapply ApplyAccountCreate_conserves.
  - by eapply ApplyPayment_conserves.
  - destruct E as (reg & _ & ->). apply same_money_conserves; [done|apply Hm].
  - by eapply ApplySystemLock_conserves.
  - apply ApplyNameCommit_inv in E as (reg & _ & _ & _ & _ & _ & _ & ->). apply same_money_conserves; [done|apply Hm].
  - apply ApplyNameReveal_inv in E as (reg & ? & ? & _ & _ & _ & _ & _ & _ & _ & _ & _ & _ & ->).
    apply same_money_conserves; [done|apply Hm].
  - destruct E as (s1 & id & E1 & _ & (_ & _ & _ & ->)%RecordPublication_spec).
    pose proof (ApplyRootPublication_conserves _ _ _ _ _ Hm E1) as C. eapply conserves_trans; [exact C|].
    apply same_money_conserves; [done|apply C].
  - by eapply ApplyRevokePublication_conserves.
  - by eapply ApplyStorageLease_conserves.
  - destruct E as (key & _ & E). eapply ApplyStorageSettlement_conserves; [apply Hm|done..].
Qed.

(** Every kind goes through the registry: one that carries an authorization
    presents it, the others register, rotate or leave it alone. *)
Lemma credit_fee_identities s fee : identities (credit_fee s fee) = identities s.
Proof. apply (fk_identities _ _ (CreditCentralAuthorityFee_keeps s fee)). Qed.
Lemma FundStorageLease_identities s id payer units replicas periods escrow params fid s' :
  FundStorageLease s id payer units replicas periods escrow params fid = Ret s' -> identities s' = identities s.
Proof. intros (b & a & _ & _ & _ & ->)%FundStorageLease_inv. done. Qed.

Lemma apply_authorized x operation auth s' : is_u64 (payment_fee (m_params x)) ->
  operation_authorization operation = Some auth -> apply_to_candidate x operation = Ret (BE_NONE, s') ->
  AuthorizeOperation (identities (m_candidate x)) auth (m_network_binding x) = (IR_NONE, identities s').
Proof.
  intros Hfee Ha E%apply_none. cbv zeta in E. destruct operation; simpl in Ha; try done; some_inj Ha.
  - apply ApplyPayment_inv in E as (reg & a & b & Er & _ & _ & _ & _ & _ & _ & _ & _ & ->). unfold pay_moves.
    by rewrite credit_fee_identities.
  - unfold ApplySystemLock in E. walk E. injection E as <-. destruct b; [done|].
    by apply authorize_ok in Hpair as (reg & Er & ->).
  - by apply ApplyNameCommit_inv in E as (reg & Er & _ & _ & _ & _ & _ & ->).
  - by apply ApplyNameReveal_inv in E as (reg & ? & ? & Er & _ & _ & _ & _ & _ & _ & _ & _ & _ & ->).
  - destruct E as (s1 & id & E1 & _ & (_ & _ & _ & ->)%RecordPublication_spec).
    apply ApplyRootPublication_inv in E1 as (reg & a & l & fee & pid & escrow & Er & _ & _ & _ & _ & _ & _ & _ & _ & E1).
    cbv zeta in E1. simpl. case_match; [apply FundStorageLease_identities in E1|]; by rewrite E1, credit_fee_identities.
  - apply ApplyRevokePublication_inv in E as (reg & a & r & Er & _ & _ & _ & _ & _ & ->). by rewrite credit_fee_identities.
  - apply ApplyStorageLease_inv in E as (reg & a & r & escrow & fid & Er & _ & _ & _ & _ & _ & _ & _ & E); [|done].
    apply FundStorageLease_identities in E. by rewrite E, credit_fee_identities.
Qed.

Lemma apply_registry x operation s' : is_u64 (payment_fee (m_params x)) -> operation_wf operation ->
  amounts_wf (m_candidate x) -> apply_to_candidate x operation = Ret (BE_NONE, s') ->
  rtc registry_step (identities (m_candidate x)) (identities s').
Proof.
  intros Hfee Ho Hwf E. destruct (operation_authorization operation) as [auth|] eqn:Ea.
  - apply rtc_once. eapply step_authorize. by eapply apply_authorized.
  - apply apply_none in E. cbv zeta in E. destruct operation; try discriminate Ea.
    + apply ApplyAccountCreate_inv in E as (reg & Er & _ & _ & _ & ->). cbv zeta.
      assert (Hreg : forall s1 : CybouState, identities s1 = reg ->
        identities (match find_claim op (m_candidate x) with
                    | Some (id, _) => take_claim s1 id (ac_account_id op) | None => (0, s1) end).2 = reg).
      { intros s1 <-. destruct (find_claim _ _) as [[id a]|]; [|done]. unfold take_claim.
        destruct (genesis_allocations s1 !! id); [|done]. by case_match. }
      cbn [identities set_accounts]. rewrite Hreg; [apply rtc_once; by eapply step_register|].
      match goal with |- identities (if ?b then _ else _) = _ => destruct b end; [|done]. unfold pay_bonus.
      destruct (TreasuryBalance _); [|done]. destruct (fee_read _ _); [|done].
      by rewrite (fk_identities _ _ (fee_write_keeps _ _ _)).
    + destruct E as (reg & Er & ->). apply rtc_once. by eapply step_rotate.
    + destruct E as (key & _ & E). destruct (ApplyStorageSettlement_conserves _ _ _ _ _ _ _ _ Hwf Ho E) as [_ (-> & _)]. done.
Qed.

(** ** Sequences of steps *)

Inductive ledger_step : CybouState -> CybouState -> Prop :=
| step_purge params height s : ledger_step s (purge_commits params height s)
| step_apply x operation s' : params_wf (m_params x) -> operation_wf operation ->
    apply_to_candidate x operation = Ret (BE_NONE, s') -> ledger_step (m_candidate x) s'.

Lemma purge_same_money params h s : same_money s (purge_commits params h s).
Proof. unfold purge_commits. by case_match. Qed.
Lemma ledger_step_conserves s s' : ledger_step s s' -> money_wf s -> conserves s s'.
Proof.
  intros [params h ?|x op ? Hp Ho E] Hm; [apply same_money_conserves; [apply purge_same_money|apply Hm]|].
  by eapply apply_conserves.
Qed.
Lemma ledger_steps_conserve s s' : rtc ledger_step s s' -> money_wf s -> conserves s s'.
Proof.
  induction 1 as [s|s s1 s' Hs _ IH]; intros Hm; [split; [done|apply Hm]|].
  pose proof (ledger_step_conserves _ _ Hs Hm) as C. eapply conserves_trans; [exact C|].
  apply IH. by eapply conserves_money.
Qed.
Lemma ledger_steps_registry s s' : rtc ledger_step s s' -> money_wf s -> rtc registry_step (identities s) (identities s').
Proof.
  induction 1 as [s|s s1 s' Hs _ IH]; intros Hm; [done|].
  pose proof (conserves_money _ _ (ledger_step_conserves _ _ Hs Hm) Hm) as Hm1. etransitivity; [|by apply IH].
  destruct Hs as [params h ?|x op ? Hp Ho E]; [unfold purge_commits; by case_match|].
  eapply apply_registry; [apply Hp|done|apply Hm|done].
Qed.

(** C1: no sequence of accepted operations, of whatever kinds and blocks,
    changes the money total: it equals the genesis total for ever, and no
    balance or escrow leaves its 64-bit range. *)
Theorem ledger_supply_constant s s' : money_wf s -> rtc ledger_step s s' ->
  TotalCybou s' = TotalCybou s /\ money_wf s'.
Proof.
  intros Hm Hs. pose proof (ledger_steps_conserve _ _ Hs Hm) as C. pose proof (conserves_money _ _ C Hm) as Hm'.
  split; [|done]. rewrite !TotalCybou_supply by done. apply C.
Qed.

(** C2: no replay: once an operation that carries an authorization has been
    accepted, no later state of the ledger, whatever operations came in
    between, accepts an operation with that authorization again. *)
Theorem ledger_no_replay x op auth s1 y op' e s2 :
  registry_wf (identities (m_candidate x)) -> money_wf (m_candidate x) ->
  params_wf (m_params x) -> params_wf (m_params y) -> operation_wf op ->
  operation_authorization op = Some auth -> operation_authorization op' = Some auth ->
  apply_to_candidate x op = Ret (BE_NONE, s1) -> rtc ledger_step s1 (m_candidate y) ->
  apply_to_candidate y op' = Ret (e, s2) -> e <> BE_NONE.
Proof.
  intros Hr Hm Hp Hp' Ho Ha Ha' E Hs E' ->.
  pose proof (conserves_money _ _ (apply_conserves _ _ _ Hp Ho Hm E) Hm) as Hm1.
  pose proof (apply_authorized _ _ _ _ (params_wf_fee _ Hp) Ha E) as A1.
  pose proof (apply_authorized _ _ _ _ (params_wf_fee _ Hp') Ha' E') as A2.
  apply AuthorizeOperation_nonce_inc in A1 as Hn; [|done]. destruct Hn as (rec1 & H1 & Hlt).
  destruct (registry_steps_nonce _ _ _ _ (AuthorizeOperation_wf _ _ _ _ _ Hr A1) (ledger_steps_registry _ _ Hs Hm1) H1)
    as (rec2 & H2 & Hle).
  apply AuthorizeOperation_inv in A2 as (rec & dg & Hacc & Hn & _).
  assert (rec = rec2) as -> by congruence. lia.
Qed.

(** ** Blocks *)

(** What an executor carries from operation to operation. *)
Record executor_ok (parent : CybouState) (x : BlockExecutor) : Prop := {
  eo_valid : m_valid x = true;
  eo_supply : m_initial_supply x = TotalCybou parent;
  eo_steps : rtc ledger_step parent (m_candidate x);
  eo_params : params_wf (m_params x);
  eo_init : m_init_error x = BE_NONE;
}.
Lemma new_executor_ok parent nb h params key pid : params_wf params -> ValidateCybouState parent = SV_NONE ->
  executor_ok parent (new_executor parent nb h params key pid).
Proof.
  intros Hp E. unfold new_executor. rewrite bool_decide_eq_true_2 by done. constructor; try done.
  apply rtc_once, step_purge.
Qed.
Lemma ApplyOperation_ok parent x op r x' : executor_ok parent x -> operation_wf op ->
  ApplyOperation x op = Ret (r, x') ->
  if bool_decide (res_error r = BE_NONE) then executor_ok parent x'
  else m_valid x' = false /\ m_init_error x' = BE_NONE /\ res_state r = None /\ res_error r <> BE_SUPPLY_CHANGED.
Proof.
  intros [E1 E2 E3 E4 E5] Ho E. unfold ApplyOperation in E. rewrite E1 in E. cbn [negb] in E. walk_step E. destruct a as [e s1].
  case_bool_decide as He.
  - subst e. injection E as <- <-. simpl. constructor; try done. simpl. eapply rtc_r; [exact E3|]. by eapply step_apply.
  - injection E as <- <-. cbn [res_error error_result]. rewrite bool_decide_eq_false_2 by done. split_and!; try done.
    cbn. intros ->. clear -Hret. unfold apply_to_candidate in Hret. destruct op; cbv beta iota zeta in Hret.
    all: repeat first [walk_step Hret | case_bool_decide; [discriminate Hret|]]; try discriminate Hret.
    all: try (injection Hret as ?; repeat case_match; discriminate).
Qed.

Lemma execute_loop_spec parent ops : forall x i r, executor_ok parent x -> money_wf parent -> Forall operation_wf ops ->
  execute_loop x i ops = Ret r ->
  res_error r <> BE_SUPPLY_CHANGED /\
  (res_error r = BE_NONE -> exists s', res_state r = Some s' /\ rtc ledger_step parent s' /\
     ValidateCybouState s' = SV_NONE /\ res_state_root r = CybouStateHash s' false).
Proof.
  induction ops as [|op ops IH]; intros x i r Hx Hm Ho E; cbn [execute_loop] in E.
  - injection E as <-. unfold Finalize. rewrite (eo_valid _ _ Hx). cbn [negb].
    case_bool_decide as Hv; cbn [negb]; [|done].
    pose proof (ledger_steps_conserve _ _ (eo_steps _ _ Hx) Hm) as C.
    assert (TotalCybou (m_candidate x) = m_initial_supply x) as ->.
    { rewrite (eo_supply _ _ Hx), !TotalCybou_supply; [apply C|done|by eapply conserves_money]. }
    rewrite Z.eqb_refl. cbn [negb]. destruct (CybouStateHash (m_candidate x) false) as [root|] eqn:Eh; [|done].
    split; [done|]. intros _. exists (m_candidate x). split_and!; try done. apply Hx.
  - inversion_clear Ho as [|? ? Ho1 Ho2]. walk_step E. destruct a as [res x1].
    pose proof (ApplyOperation_ok _ _ _ _ _ Hx Ho1 Hret) as Hn. case_bool_decide as He; cbn [negb] in E.
    + by eapply IH.
    + injection E as <-. simpl. split; [apply Hn|done].
Qed.

(** C8: executing a block on a parent state either refuses it or produces a
    state that passes validation, that only accepted operations lead to, that
    holds exactly the parent's money, and whose root is returned; the final
    supply check never fires. *)
Theorem ExecuteBlockOperations_correct parent ops nb h params key pid r :
  amounts_typed parent -> params_wf params -> Forall operation_wf ops ->
  ExecuteBlockOperations parent ops nb h params key pid = Ret r ->
  res_error r <> BE_SUPPLY_CHANGED /\
  (res_error r = BE_NONE -> exists s', res_state r = Some s' /\ res_state_root r = CybouStateHash s' false /\
     rtc ledger_step parent s' /\ ValidateCybouState s' = SV_NONE /\ TotalCybou s' = TotalCybou parent).
Proof.
  intros Ht Hp Ho E. unfold ExecuteBlockOperations in E. walk_step E; [by injection E as <-|].
  destruct (decide (ValidateCybouState parent = SV_NONE)) as [Hv|Hv].
  - pose proof (new_executor_ok parent nb h params key pid Hp Hv) as Hx. rewrite (eo_valid _ _ Hx) in E. cbn [negb] in E.
    pose proof (validated_money _ Ht Hv) as Hm.
    destruct (execute_loop_spec _ _ _ _ _ Hx Hm Ho E) as [R1 R2]. split; [done|].
    intros (s' & H1 & H2 & H3 & H4)%R2. exists s'. split_and!; try done.
    pose proof (ledger_steps_conserve _ _ H2 Hm) as C. rewrite !TotalCybou_supply; [apply C|done|by eapply conserves_money].
  - unfold new_executor in E. rewrite bool_decide_eq_false_2 in E by done. simpl in E. by injection E as <-.
Qed.

(** Once an operation has been refused, the executor is dead but reports
    success: a further [ApplyOperation] and [Finalize] both return the error
    code [NONE], with no state, because the constructor's error code is all
    they have to report. *)
Theorem failed_executor_reports_none x op r x' op2 :
  m_valid x = true -> m_init_error x = BE_NONE -> ApplyOperation x op = Ret (r, x') -> res_error r <> BE_NONE ->
  (exists x2, ApplyOperation x' op2 = Ret (error_result BE_NONE, x2)) /\
  Finalize x' = error_result BE_NONE /\ CanFinalize x' = false.
Proof.
  intros Hv Hi E Hne. unfold ApplyOperation in E. rewrite Hv in E. cbn [negb] in E. walk_step E. destruct a as [e s1].
  case_bool_decide as He; injection E as <- <-; [done|].
  unfold ApplyOperation, Finalize, CanFinalize. simpl. rewrite Hi. split; [by eexists|done].
Qed.
End executor_proofs.

(** * Who owns a name

    The two maps of the name registry, by label and by account, stay inverse
    to each other along every sequence of ledger steps; a label that genesis
    reserves is never given to anyone but the claimant of its allocation. *)

(** What the names see of an allocation. *)
Definition tag (a : GenesisAllocation) : bytes * option AccountId := (alloc_label a, claimed_by a).

Record names_inv (s : CybouState) : Prop := {
  ni_inverse : forall label id, names (st_names s) !! label = Some id <-> account_names (st_names s) !! id = Some label;
  ni_accounts : forall id, is_Some (account_names (st_names s) !! id) -> is_Some (accounts s !! id);
  ni_reserved : forall k label, tag <$> genesis_allocations s !! k = Some (label, None) -> label <> [] ->
    names (st_names s) !! label = None;
  ni_claimed : forall k label id, tag <$> genesis_allocations s !! k = Some (label, Some id) -> label <> [] ->
    names (st_names s) !! label = Some id;
  ni_distinct : forall k1 k2 label c1 c2, tag <$> genesis_allocations s !! k1 = Some (label, c1) ->
    tag <$> genesis_allocations s !! k2 = Some (label, c2) -> label <> [] -> k1 = k2;
}.

(** A step that leaves the names, and what they see, alone. *)
Record names_frame (s s' : CybouState) : Prop := {
  nf_names : names (st_names s') = names (st_names s);
  nf_account_names : account_names (st_names s') = account_names (st_names s);
  nf_tags : forall k, tag <$> genesis_allocations s' !! k = tag <$> genesis_allocations s !! k;
  nf_accounts : forall id, is_Some (accounts s !! id) -> is_Some (accounts s' !! id);
}.
#[export] Instance names_frame_preorder : PreOrder names_frame.
Proof.
  split; [by intros s; constructor|]. intros a b c [A1 A2 A3 A4] [B1 B2 B3 B4].
  constructor; [congruence..| |eauto]. intros k. by rewrite B3, A3.
Qed.
Lemma names_frame_inv s s' : names_frame s s' -> names_inv s -> names_inv s'.
Proof.
  intros [F1 F2 F3 F4] [I1 I2 I3 I4 I5]. constructor; rewrite ?F1, ?F2; try done.
  - eauto.
  - intros k label. rewrite F3. apply I3.
  - intros k label id. rewrite F3. apply I4.
  - intros k1 k2 label c1 c2. rewrite !F3. apply I5.
Qed.

Lemma fee_keeps_frame s s' : fee_keeps s s' -> names_frame s s'.
Proof.
  intros [K1 K2 K3 K4 K5 K6 K7]. constructor; rewrite ?K2; try done.
  - intros k. specialize (K7 k). destruct (genesis_allocations s !! k) as [a|]; [destruct K7 as [v ->]|rewrite K7]; done.
  - intros id. specialize (K6 id). destruct (accounts s !! id) as [a|]; [|by intros [? ?]].
    destruct K6 as [v ->]. by eexists.
Qed.
Lemma settles_frame s s' : settles s s' -> names_frame s s'.
Proof. intros (_ & E2 & E3 & _ & E5). constructor; [by rewrite E2..|by intros k; rewrite E3|done]. Qed.
Lemma set_account_names s id a : names_frame s (set_account s id a).
Proof. apply settles_frame, settles_set_account. Qed.
Lemma debit_credit_frame s id a fee amount : names_frame s (credit_fee (debit_system s id a amount) fee).
Proof. etransitivity; [apply set_account_names|]. apply fee_keeps_frame, CreditCentralAuthorityFee_keeps. Qed.

Section name_proofs.
Context `{CryptoOps}.

Lemma FundStorageLease_frame s id payer units replicas periods escrow params fid s' :
  FundStorageLease s id payer units replicas periods escrow params fid = Ret s' -> names_frame s s'.
Proof.
  intros (b & a & _ & _ & _ & ->)%FundStorageLease_inv. constructor; [done..|].
  exact (nf_accounts _ _ (set_account_names s payer (DebitSystemBalance a escrow).2)).
Qed.

(** The operations that have nothing to do with names. *)
Lemma apply_frame x operation s' : params_wf (m_params x) -> operation_wf operation -> money_wf (m_candidate x) ->
  apply_to_candidate x operation = Ret (BE_NONE, s') ->
  match operation with OpAccountCreate _ | OpNameReveal _ => True | _ => names_frame (m_candidate x) s' end.
Proof.
  intros Hp Ho Hm E%apply_none. cbv zeta in E. destruct operation; try done.
  - apply ApplyPayment_inv in E as (reg & a & b & Er & _ & _ & _ & _ & _ & _ & _ & _ & ->). unfold pay_moves.
    etransitivity; [|apply fee_keeps_frame, CreditCentralAuthorityFee_keeps]. etransitivity; [|apply set_account_names].
    etransitivity; [|apply set_account_names]. by constructor.
  - destruct E as (reg & _ & ->). by constructor.
  - unfold ApplySystemLock in E. walk E. injection E as <-. destruct b; [done|].
    apply authorize_ok in Hpair as (reg & Er & ->). etransitivity; [|apply set_account_names]. by constructor.
  - apply ApplyNameCommit_inv in E as (reg & _ & _ & _ & _ & _ & _ & ->). by constructor.
  - destruct E as (s1 & id & E1 & _ & (_ & _ & _ & ->)%RecordPublication_spec).
    apply ApplyRootPublication_inv in E1 as (reg & a & l & fee & pid & escrow & _ & _ & _ & _ & _ & _ & _ & _ & _ & E1).
    cbv zeta in E1. transitivity s1; [|by constructor]. transitivity (set_identities (m_candidate x) reg); [by constructor|].
    destruct (negb (escrow =? 0)); [apply FundStorageLease_frame in E1|subst s1]; [etransitivity; [|exact E1]|];
      apply debit_credit_frame.
  - apply ApplyRevokePublication_inv in E as (reg & a & r & _ & _ & _ & _ & _ & _ & ->).
    etransitivity; [|apply debit_credit_frame]. by constructor.
  - apply ApplyStorageLease_inv in E as (reg & a & r & escrow & fid & _ & _ & _ & _ & _ & _ & _ & _ & E); [|by apply params_wf_fee].
    apply FundStorageLease_frame in E. etransitivity; [|exact E]. etransitivity; [|apply debit_credit_frame]. by constructor.
  - destruct E as (key & _ & E). apply settles_frame. eapply ApplyStorageSettlement_conserves; [apply Hm|exact Ho|exact E].
Qed.

(** Giving a free label to an account that has none. *)
Lemma add_name_inv s s' label id :
  names_inv s -> names (st_names s) !! label = None -> account_names (st_names s) !! id = None ->
  names (st_names s') = <[label := id]> (names (st_names s)) ->
  account_names (st_names s') = <[id := label]> (account_names (st_names s)) ->
  (forall j, is_Some (accounts s !! j) \/ j = id -> is_Some (accounts s' !! j)) ->
  (forall k l c, tag <$> genesis_allocations s' !! k = Some (l, c) -> l <> [] ->
     (l = label /\ c = Some id /\ exists c', tag <$> genesis_allocations s !! k = Some (l, c')) \/
     (l <> label /\ tag <$> genesis_allocations s !! k = Some (l, c))) ->
  names_inv s'.
Proof.
  intros [I1 I2 I3 I4 I5] Hl Hi E1 E2 Ha Ht. constructor; rewrite ?E1, ?E2.
  - intros l j. destruct (decide (l = label)) as [->|Hne].
    + rewrite lookup_insert_eq. destruct (decide (j = id)) as [->|Hj]; [by rewrite lookup_insert_eq|].
      rewrite lookup_insert_ne, <- I1, Hl by done. split; [by intros [= ->]|done].
    + rewrite lookup_insert_ne, I1 by done. destruct (decide (j = id)) as [->|Hj]; [|by rewrite lookup_insert_ne].
      rewrite lookup_insert_eq, Hi. split; [done|by intros [= ->]].
  - intros j. destruct (decide (j = id)) as [->|Hj]; [by auto|]. rewrite lookup_insert_ne by done. auto.
  - intros k l Hk Hne. destruct (Ht _ _ _ Hk Hne) as [(_ & ? & _)|[Hll Hk']]; [done|]. rewrite lookup_insert_ne by done. eauto.
  - intros k l j Hk Hne. destruct (Ht _ _ _ Hk Hne) as [(-> & [= ->] & _)|[Hll Hk']]; [by rewrite lookup_insert_eq|].
    rewrite lookup_insert_ne by done. eauto.
  - intros k1 k2 l c1 c2 H1 H2 Hne.
    destruct (Ht _ _ _ H1 Hne) as [(_ & _ & d1 & D1)|[_ D1]], (Ht _ _ _ H2 Hne) as [(_ & _ & d2 & D2)|[_ D2]]; eauto.
Qed.

Lemma ApplyNameReveal_names op nb h params s s' : names_inv s -> ApplyNameReveal op nb h params s = Ret (NR_NONE, s') ->
  names_inv s'.
Proof.
  intros Hi (reg & c & record & _ & _ & _ & Hacc & Hnone & Hfree & Hres & _ & _ & _ & ->)%ApplyNameReveal_inv.
  eapply add_name_inv; [exact Hi|exact Hfree|exact Hnone|done|done| |].
  - intros j [Hj| ->]; done.
  - simpl. intros k l cl Hk Hne. right. split; [|done]. destruct (genesis_allocations s !! k) as [a|] eqn:Ea; [|done].
    simpl in Hk. injection Hk as <- <-. by eapply Hres.
Qed.

Lemma pay_bonus_frame s bonus : names_frame s (pay_bonus s bonus).
Proof.
  unfold pay_bonus. destruct (TreasuryBalance s); [|done]. destruct (fee_read _ _); [|done]. apply fee_keeps_frame, fee_write_keeps.
Qed.
Lemma new_account_frame s id a : names_frame s (set_accounts s (emplace (accounts s) id a)).
Proof.
  constructor; try done. intros j Hj. simpl. unfold emplace. case_match; [done|].
  destruct (decide (j = id)) as [->|Hne]; [rewrite lookup_insert_eq; by eexists|by rewrite lookup_insert_ne].
Qed.

(** Taking an unclaimed allocation, its label with it. *)
Lemma take_claim_names s k a id acc : names_inv s -> genesis_allocations s !! k = Some a -> claimed_by a = None ->
  account_names (st_names s) !! id = None ->
  names_inv (let r := take_claim s k id in set_accounts r.2 (emplace (accounts r.2) id acc)).
Proof.
  intros Hi Ha Hc Hn. pose proof Hi as [I1 I2 I3 I4 I5]. cbv zeta. unfold take_claim. rewrite Ha. cbv zeta. cbn [snd].
  set (s1 := set_allocations s _).
  assert (Hk : tag <$> genesis_allocations s !! k = Some (alloc_label a, None)) by (rewrite Ha; simpl; unfold tag; by rewrite Hc).
  assert (Hall : forall j l c, tag <$> genesis_allocations s1 !! j = Some (l, c) ->
    (j = k /\ l = alloc_label a /\ c = Some id) \/ (j <> k /\ tag <$> genesis_allocations s !! j = Some (l, c))).
  { intros j l c. unfold s1. simpl. destruct (decide (j = k)) as [->|Hj].
    - rewrite lookup_insert_eq. simpl. intros [= <- <-]. by left.
    - rewrite lookup_insert_ne by done. by right. }
  assert (Hacc : forall (m : gmap AccountId AccountState) j, is_Some (m !! j) \/ j = id -> is_Some (emplace m id acc !! j)).
  { intros m j Hj. unfold emplace, contains. case_bool_decide as Hm; [by destruct Hj as [| ->]|].
    destruct (decide (j = id)) as [->|Hne]; [rewrite lookup_insert_eq; by eexists|rewrite lookup_insert_ne by done; by destruct Hj]. }
  destruct (Z.eqb_spec (zlen (alloc_label a)) 0) as [Hz|Hz]; cbn [negb].
  - assert (alloc_label a = []) as Hnil by (unfold zlen in Hz; destruct (alloc_label a); [done|simpl in Hz; lia]).
    constructor; cbn [st_names set_accounts s1 set_allocations].
    + done.
    + intros j Hj. apply Hacc. left. apply I2, Hj.
    + intros j l Hj Hne. destruct (Hall _ _ _ Hj) as [(_ & _ & ?)|[_ Hj']]; [done|]. eauto.
    + intros j l i Hj Hne. destruct (Hall _ _ _ Hj) as [(_ & -> & _)|[_ Hj']]; [done|]. eauto.
    + intros j1 j2 l c1 c2 H1 H2 Hne.
      destruct (Hall _ _ _ H1) as [(_ & -> & _)|[_ H1']]; [done|]. destruct (Hall _ _ _ H2) as [(_ & -> & _)|[_ H2']]; [done|]. eauto.
  - assert (Hne : alloc_label a <> []) by (intros E; rewrite E in Hz; by apply Hz).
    eapply (add_name_inv s _ (alloc_label a) id); [done|by eapply I3|done| | | |].
    + simpl. rewrite emplace_new; [done|]. by eapply I3.
    + simpl. by rewrite emplace_new.
    + intros j Hj. simpl. by apply Hacc.
    + intros j l c Hj Hl. destruct (Hall _ _ _ Hj) as [(-> & -> & ->)|[Hjk Hj']]; [left; eauto|]. right. split; [|done].
      intros ->. apply Hjk. by eapply I5.
Qed.

Lemma ApplyAccountCreate_names op nb h params s s' : names_inv s -> ApplyAccountCreate op nb h params s = (CS_NONE, s') ->
  names_inv s'.
Proof.
  intros Hi (reg & _ & Hnew & _ & _ & ->)%ApplyAccountCreate_inv. cbv zeta.
  set (bonus := creation_bonus _ _). set (s1 := if negb (bonus =? 0) then _ else _).
  assert (F : names_frame s s1).
  { transitivity (set_identities s reg); [by constructor|]. unfold s1. case_match; [apply pay_bonus_frame|done]. }
  pose proof (names_frame_inv _ _ F Hi) as Hi1. clearbody s1.
  destruct (find_claim op s) as [[k a]|] eqn:Ec; [|by eapply names_frame_inv; [apply new_account_frame|]].
  unfold find_claim in Ec. walk Ec. injection Ec as -> ->.
  pose proof (nf_tags _ _ F k) as Ht. rewrite Hopt0 in Ht. destruct (genesis_allocations s1 !! k) as [a1|] eqn:Ea; [|done].
  unfold tag in Ht. simpl in Ht. injection Ht as Hlabel Hclaim.
  apply (take_claim_names s1 k a1); [done|done|congruence|]. rewrite (nf_account_names _ _ F).
  destruct (account_names (st_names s) !! ac_account_id op) eqn:En; [|done].
  pose proof (ni_accounts _ Hi (ac_account_id op)) as Hacc. rewrite En, Hnew in Hacc. by destruct (Hacc (ex_intro _ _ eq_refl)).
Qed.

(** C14: along every sequence of ledger steps each name has one owner and each
    account at most one name, the two maps being inverse to each other; every
    named account exists; a label reserved at genesis is free until its
    allocation is claimed and then belongs to the claimant. *)
Theorem names_invariant s s' : names_inv s -> money_wf s -> rtc ledger_step s s' -> names_inv s'.
Proof.
  intros Hi Hm Hs. revert Hi Hm. induction Hs as [s|s s1 s' H1 _ IH]; [done|]. intros Hi Hm.
  apply IH; [|by eapply conserves_money, Hm; eapply ledger_step_conserves].
  destruct H1 as [params h s|x op s1 Hp Ho E].
  - apply (names_frame_inv s); [|done]. unfold purge_commits. case_match; by constructor.
  - pose proof (apply_frame x op s1 Hp Ho Hm E) as F. pose proof (apply_none _ _ _ E) as En. cbv zeta in En.
    destruct op; try (by eapply names_frame_inv; [exact F|]).
    + by eapply ApplyAccountCreate_names.
    + by eapply ApplyNameReveal_names.
Qed.
End name_proofs.
