(* ===== verification/Transfers.v ===== *)
(** * What an accepted transfer does

    The exact effect of an accepted payment and of a paid settlement entry on
    every account, next to the conservation theorems: who loses, who gains, to
    the unit, and that nobody else is touched. *)

From S2P Require Import Prelude.
From S2P Require Import Bytes.
From S2P Require Import Codec.
From S2P Require Import Params.
From S2P Require Import StorageEconomy.
From S2P Require Import Crypto.
From S2P Require Import Identity.
From S2P Require Import Payloads.
From S2P Require Import SettlementData.
From S2P Require Import Operation.
From S2P Require Import State.
From S2P Require Import Supply.
From S2P Require Import Ledger.
From S2P Require Import LedgerProofs.
From S2P Require Import Settlement.
From S2P Require Import SettlementProofs.
From S2P Require Import Executor.
From S2P Require Import ExecutorProofs.

#[export] Instance FeeSlot_eq_dec : EqDecision FeeSlot.
Proof. solve_decision. Defined.

(** [amount when the condition holds]. *)
Definition when (P : Prop) `{Decision P} (amount : Z) : Z := if decide P then amount else 0.

Lemma when_true (P : Prop) `{Decision P} v : P -> when P v = v.
Proof. intros. unfold when. by rewrite decide_True. Qed.
Lemma when_false (P : Prop) `{Decision P} v : ~ P -> when P v = 0.
Proof. intros. unfold when. by rewrite decide_False. Qed.

(** Where a credited fee goes. *)
Lemma credit_fee_effect s fee slot : amounts_wf s -> 0 <= fee -> supply s + fee < MAX64 ->
  CentralAuthorityFeeBalance s = Some slot ->
  (forall id a, accounts s !! id = Some a ->
     accounts (credit_fee s fee) !! id = Some (with_balance a (balance a + when (slot = FeeAccount id) fee))) /\
  (forall k a, genesis_allocations s !! k = Some a ->
     genesis_allocations (credit_fee s fee) !! k =
       Some (mkAllocation (alloc_balance a + when (slot = FeeAllocation k) fee) (alloc_label a) (claimed_by a))).
Proof.
  intros Hwf Hf Hs Hslot. destruct (fee_slot_read _ _ Hslot) as [b Hb].
  pose proof (fee_read_le _ _ _ Hwf Hslot Hb) as Hle.
  unfold credit_fee, CreditCentralAuthorityFee, CanCreditCentralAuthorityFee. rewrite Hslot, Hb.
  rewrite sub64_small by lia. rewrite (proj2 (Z.leb_le _ _)) by lia. cbn [negb fst snd]. rewrite add64_small by lia.
  destruct slot as [k|j]; simpl in *; split; intros i a Hi.
  - rewrite when_false by done. rewrite Z.add_0_r. by destruct a.
  - destruct (decide (k = i)) as [->|Hne].
    + rewrite lookup_alter_eq, Hi, when_true by done. rewrite Hi in Hb. by injection Hb as <-.
    + rewrite lookup_alter_ne, Hi, when_false by congruence. rewrite Z.add_0_r. by destruct a.
  - destruct (decide (j = i)) as [->|Hne].
    + rewrite lookup_alter_eq, Hi, when_true by done. rewrite Hi in Hb. by injection Hb as <-.
    + rewrite lookup_alter_ne, Hi, when_false by congruence. rewrite Z.add_0_r. by destruct a.
  - rewrite when_false by done. rewrite Z.add_0_r. by destruct a.
Qed.

Section transfers.
Context `{CryptoOps}.

(** C11: an accepted payment moves exactly the amount from the sender's balance
    to the recipient's and exactly the fee from the sender's system balance,
    its onboarding part first, to the fee destination, which is the Central
    Authority's allocation or the account that claimed it; every other
    balance, lease and publication is as before, and the sender's
    authorization was valid for the next nonce. *)
Theorem ApplyPayment_effect op nb params s s' slot :
  params_wf params -> is_u64 (pay_amount (payment op)) -> money_wf s ->
  CentralAuthorityFeeBalance s = Some slot -> ApplyPayment op nb params s = (PE_NONE, s') ->
  let from := oa_account_id (pay_authorization op) in
  let to := recipient (payment op) in
  let amount := pay_amount (payment op) in
  let fee := payment_fee params in
  from <> to /\
  (forall id a, accounts s !! id = Some a -> exists a', accounts s' !! id = Some a' /\
     balance a' = balance a - when (id = from) amount + when (id = to) amount + when (slot = FeeAccount id) fee /\
     system_balance a' = system_balance a - when (id = from) fee /\
     onboarding_system_balance a' =
       onboarding_system_balance a - when (id = from) (Z.min (onboarding_system_balance a) fee)) /\
  (forall k a, genesis_allocations s !! k = Some a ->
     genesis_allocations s' !! k =
       Some (mkAllocation (alloc_balance a + when (slot = FeeAllocation k) fee) (alloc_label a) (claimed_by a))) /\
  leases s' = leases s /\ publications s' = publications s /\ st_names s' = st_names s /\
  AuthorizeOperation (identities s) (pay_authorization op) nb = (IR_NONE, identities s').
Proof.
  intros Hp Hamt Hm Hslot (reg & a & b & Er & _ & Ha & Hb & Hne & _ & Hle & Hf & _ & ->)%ApplyPayment_inv. cbv zeta.
  set (from := oa_account_id _) in *. set (to := recipient _) in *. set (amount := pay_amount _) in *.
  set (fee := payment_fee params) in *. destruct (set_identities_frame _ _ _ _ Er) as [F M].
  destruct (same_money_wf _ _ M Hm) as [Hwf Hs]. set (s0 := set_identities s reg) in *. clear M.
  pose proof (supply_two_accounts s0 from to a b Hwf Hne Ha Hb) as Htwo. unfold account_money in Htwo.
  destruct (aw_accounts _ Hwf _ _ Ha) as (A1 & A2 & A3). destruct (aw_accounts _ Hwf _ _ Hb) as (B1 & B2 & B3).
  pose proof (params_wf_fee _ Hp) as Hfee. fold fee in Hfee. unfold pay_moves.
  rewrite (sub64_small (balance a)), (add64_small (balance b)) by ulia.
  set (a1 := with_balance a (balance a - amount)). set (b1 := with_balance b (balance b + amount)).
  destruct (DebitSystemBalance_spec a1 fee) as (D1 & D2 & D3 & D4 & D5); [unfold account_wf; simpl; ulia|simpl; ulia|].
  unfold debit_system. set (d := DebitSystemBalance a1 fee) in *. clearbody d.
  set (s1 := set_account s0 from d.2). set (s2 := set_account s1 to b1).
  assert (Hb1 : accounts s1 !! to = Some b) by (unfold s1; simpl; by rewrite lookup_insert_ne).
  assert (Hwf2 : amounts_wf s2).
  { apply amounts_set_account; [by apply amounts_set_account|]. unfold account_wf. simpl. ulia. }
  assert (S2 : supply s2 = supply s - fee).
  { unfold s2. rewrite (supply_set_account _ _ b) by done. unfold s1. rewrite (supply_set_account _ _ a) by done.
    unfold account_money, b1. simpl in *. change (supply s0) with (supply s). lia. }
  assert (Fr : same_fee_frame s s2).
  { eapply same_fee_frame_trans; [exact F|]. apply same_fee_frame_trans with s1; apply set_account_frame; by eexists. }
  destruct Hm as [_ Hms]. destruct (credit_fee_effect s2 fee slot) as [Cacc Call]; [done|ulia|lia|by rewrite (fee_slot_frame _ _ Fr)|].
  pose proof (CreditCentralAuthorityFee_keeps s2 fee) as [K1 K2 K3 K4 K5 _ _]. fold (credit_fee s2 fee) in *.
  split_and!; [done| |exact Call|by rewrite K5|by rewrite K3|by rewrite K2|by rewrite K1].
  intros id x Hx. destruct (decide (id = to)) as [->|Hto]; [|destruct (decide (id = from)) as [->|Hfrom]].
  - assert (x = b) as -> by congruence. eexists. split; [apply Cacc; unfold s2; simpl; by rewrite lookup_insert_eq|].
    rewrite !(when_false (to = from)), (when_true (to = to)) by congruence. simpl. lia.
  - assert (x = a) as -> by congruence.
    eexists. split; [apply Cacc; unfold s2, s1; simpl; rewrite lookup_insert_ne by congruence; by rewrite lookup_insert_eq|].
    rewrite !(when_true (from = from)), (when_false (from = to)) by congruence.
    cbn [balance system_balance onboarding_system_balance with_balance]. rewrite D2, D3, D5, D4. simpl. lia.
  - eexists. split; [apply Cacc; unfold s2, s1; simpl; by rewrite !lookup_insert_ne by congruence|].
    rewrite !(when_false (id = from)), (when_false (id = to)) by congruence. simpl. lia.
Qed.

(** ** Settlement entries *)

(** What the ledger has already recorded for the provider of an entry. *)
Definition prior_payment (term : StorageFundedTerm) (entry : StorageSettlementEntry) : option StorageServicePayment :=
  match (lower_bound (entry_key entry) (ft_service_payments term)).2 with
  | e :: _ => if bool_decide (payment_key e = entry_key entry) then Some e else None
  | [] => None
  end.
Lemma pay_entry_checks op params s used entry s' used' t :
  filter (fun t => ft_funding_operation_id (at_term t) = se_funding_operation_id entry) (all_terms s) = [t] ->
  pay_entry op params s used entry = Ret (inr (s', used')) ->
  let term := at_term t in
  let prior := prior_payment term entry in
  (exists capacity, ComputeAcceptedStorageCapacity term (se_slot entry) (se_storage_id entry) (se_payout_account entry)
      (ss_period op ⊕ 1) (lr_end_period (at_lease t)) = Some capacity /\ se_verified_unit_seconds entry <= capacity) /\
  match prior with Some e => sp_verified_unit_seconds e | None => 0 end < se_verified_unit_seconds entry /\
  ComputeAssignedStoragePayout (mkBudget (ft_replica_share term) (ft_initial_onboarding term ⊕ ft_initial_locked term)
      (ft_contracted_unit_seconds term)) (se_verified_unit_seconds entry)
    (match prior with Some e => sp_paid e | None => 0 end) = Some (se_amount entry).
Proof.
  intros Ef E. unfold pay_entry in E. rewrite Ef in E. cbv zeta. unfold prior_payment.
  settle E. unfold pass in E. injection E as _ _. guards. cbn [snd]. subst.
  split_and!; [by eexists|lia|]. congruence.
Qed.

(** C12: an accepted settlement entry pays the provider exactly the pro-rata
    payout of its newly verified service less what it was paid before, never
    beyond the capacity that the accepted assignments gave it; the amount
    leaves the escrow of that one lease, onboarding part first, and enters
    that one account. *)
Theorem pay_entry_effect op params s used entry s' used' : amounts_wf s -> is_u64 (se_amount entry) ->
  pay_entry op params s used entry = Ret (inr (s', used')) ->
  exists t onboarding locked, t ∈ all_terms s /\ ft_funding_operation_id (at_term t) = se_funding_operation_id entry /\
    0 <= onboarding /\ 0 <= locked /\ onboarding + locked = se_amount entry /\
    (let prior := prior_payment (at_term t) entry in
     (exists capacity, ComputeAcceptedStorageCapacity (at_term t) (se_slot entry) (se_storage_id entry)
        (se_payout_account entry) (ss_period op ⊕ 1) (lr_end_period (at_lease t)) = Some capacity /\
        se_verified_unit_seconds entry <= capacity) /\
     match prior with Some e => sp_verified_unit_seconds e | None => 0 end < se_verified_unit_seconds entry /\
     ComputeAssignedStoragePayout (mkBudget (ft_replica_share (at_term t))
         (ft_initial_onboarding (at_term t) ⊕ ft_initial_locked (at_term t)) (ft_contracted_unit_seconds (at_term t)))
       (se_verified_unit_seconds entry) (match prior with Some e => sp_paid e | None => 0 end) = Some (se_amount entry)) /\
    (forall id a, accounts s !! id = Some a -> exists a', accounts s' !! id = Some a' /\
       balance a' = balance a + when (id = se_payout_account entry) locked /\
       system_balance a' = system_balance a + when (id = se_payout_account entry) onboarding /\
       onboarding_system_balance a' = onboarding_system_balance a + when (id = se_payout_account entry) onboarding) /\
    (forall id l, leases s !! id = Some l -> exists l', leases s' !! id = Some l' /\
       lr_escrow_onboarding l' = lr_escrow_onboarding l - when (id = at_publication t) onboarding /\
       lr_escrow_locked l' = lr_escrow_locked l - when (id = at_publication t) locked).
Proof.
  intros Hwf Hamt E.
  destruct (filter (fun t => ft_funding_operation_id (at_term t) = se_funding_operation_id entry) (all_terms s)) as [|t0 [|? ?]] eqn:Ef;
    [unfold pay_entry in E; rewrite Ef in E; discriminate E| |unfold pay_entry in E; rewrite Ef in E; discriminate E].
  pose proof (pay_entry_checks _ _ _ _ _ _ _ _ Ef E) as Hchecks.
  apply pay_entry_inv in E as (t & term' & p & onb & lk & Ht & Hid & Hp & _ & H1 & H2 & Hsum & H3 & H4 & H5 & H6 & H7 & _ & _ & ->); [|done].
  assert (t0 = t) as ->.
  { assert (Hin : t ∈ [t0]) by (rewrite <- Ef; by apply list_elem_of_filter). by apply list_elem_of_singleton in Hin. }
  exists t, onb, lk. do 5 (split; [done|]). split; [exact Hchecks|]. split.
  - destruct (aw_accounts _ Hwf _ _ Hp) as (A1 & A2 & A3). rewrite !(sub64_small MAX64) in * by ulia.
    unfold pay_writes. rewrite !add64_small by ulia. intros id a Ha. simpl.
    destruct (decide (id = se_payout_account entry)) as [->|Hne].
    + rewrite lookup_insert_eq. assert (a = p) as -> by congruence. eexists. split; [done|]. rewrite !when_true by done. done.
    + rewrite lookup_insert_ne by done. eexists. split; [done|]. rewrite !when_false by done. lia.
  - apply elem_of_all_terms in Ht as [Hl _]. destruct (aw_leases _ Hwf _ _ Hl) as [L1 L2].
    unfold pay_writes, set_account, set_escrow. rewrite !sub64_small by ulia. intros id l Hl'.
    cbn [leases set_leases set_accounts]. destruct (decide (at_publication t = id)) as [<-|Hne].
    + rewrite lookup_alter_eq, set_term_lease, bool_decide_eq_true_2, Hl by done. assert (l = at_lease t) as -> by congruence.
      simpl. eexists. split; [done|]. rewrite !when_true by done. done.
    + rewrite lookup_alter_ne, set_term_lease, bool_decide_eq_false_2 by congruence. eexists. split; [done|].
      rewrite !when_false by congruence. lia.
Qed.

(** ** Periods *)

Lemma credit_fee_settlement s fee : settlement (credit_fee s fee) = settlement s.
Proof. apply (fk_settlement _ _ (CreditCentralAuthorityFee_keeps s fee)). Qed.
Lemma pay_bonus_settlement s bonus : settlement (pay_bonus s bonus) = settlement s.
Proof.
  unfold pay_bonus. destruct (TreasuryBalance s); [|done]. destruct (fee_read _ _); [|done].
  apply (fk_settlement _ _ (fee_write_keeps _ _ _)).
Qed.
Lemma FundStorageLease_settlement s id payer units replicas periods escrow params fid s' :
  FundStorageLease s id payer units replicas periods escrow params fid = Ret s' -> settlement s' = settlement s.
Proof. by intros (b & a & _ & _ & _ & ->)%FundStorageLease_inv. Qed.
Lemma ApplyAccountCreate_settlement op nb h params s s' : ApplyAccountCreate op nb h params s = (CS_NONE, s') ->
  settlement s' = settlement s.
Proof.
  intros (reg & _ & _ & _ & _ & ->)%ApplyAccountCreate_inv. cbv zeta. set (s1 := if negb _ then _ else _).
  transitivity (settlement s1); [|unfold s1; case_match; [by rewrite pay_bonus_settlement|done]].
  destruct (find_claim op s) as [[k a]|]; [|done]. unfold take_claim. destruct (genesis_allocations s1 !! k); [|done]. by case_match.
Qed.
Lemma apply_cursor x operation s' : params_wf (m_params x) -> operation_wf operation ->
  amounts_wf (m_candidate x) -> apply_to_candidate x operation = Ret (BE_NONE, s') ->
  match operation with
  | OpStorageSettlement op => ss_period op = next_period (settlement (m_candidate x)) /\
      next_period (settlement s') =
        if bool_decide (ss_action op = PAY) then next_period (settlement (m_candidate x)) ⊕ 1
        else next_period (settlement (m_candidate x))
  | _ => settlement s' = settlement (m_candidate x)
  end.
Proof.
  intros Hp Ho Hwf E%apply_none. cbv zeta in E. destruct operation.
  - by eapply ApplyAccountCreate_settlement.
  - apply ApplyPayment_inv in E as (reg & a & b & _ & _ & _ & _ & _ & _ & _ & _ & _ & ->). unfold pay_moves. by rewrite credit_fee_settlement.
  - by destruct E as (reg & _ & ->).
  - unfold ApplySystemLock in E. walk E. injection E as <-. destruct b; [done|].
    by apply authorize_ok in Hpair as (reg & Er & ->).
  - by apply ApplyNameCommit_inv in E as (reg & _ & _ & _ & _ & _ & _ & ->).
  - by apply ApplyNameReveal_inv in E as (reg & ? & ? & _ & _ & _ & _ & _ & _ & _ & _ & _ & _ & ->).
  - destruct E as (s1 & id & E1 & _ & (_ & _ & _ & ->)%RecordPublication_spec).
    apply ApplyRootPublication_inv in E1 as (reg & a & l & fee & pid & escrow & _ & _ & _ & _ & _ & _ & _ & _ & _ & E1).
    cbv zeta in E1. simpl. case_match; [apply FundStorageLease_settlement in E1|]; by rewrite E1, credit_fee_settlement.
  - apply ApplyRevokePublication_inv in E as (reg & a & r & _ & _ & _ & _ & _ & _ & ->). by rewrite credit_fee_settlement.
  - apply ApplyStorageLease_inv in E as (reg & a & r & escrow & fid & _ & _ & _ & _ & _ & _ & _ & _ & E); [|by apply params_wf_fee].
    apply FundStorageLease_settlement in E. by rewrite E, credit_fee_settlement.
  - destruct E as (key & _ & (_ & _ & E)%ApplyStorageSettlement_inv). case_bool_decide.
    + destruct (ApplyPayInputs_conserves _ _ _ _ Ho Hwf E) as (_ & -> & _ & -> & _). done.
    + apply ApplyAssignmentInputs_inv in E as [-> (t & term' & _ & -> & _)]. split; [done|]. by case_match.
Qed.

Lemma ledger_steps_cursor s s' : rtc ledger_step s s' -> money_wf s -> is_u64 (next_period (settlement s)) ->
  next_period (settlement s) <= next_period (settlement s') /\ is_u64 (next_period (settlement s')).
Proof.
  induction 1 as [s|s s1 s' H1 _ IH]; intros Hm Hu; [done|].
  pose proof (conserves_money _ _ (ledger_step_conserves _ _ H1 Hm) Hm) as Hm1.
  assert (Hc : next_period (settlement s) <= next_period (settlement s1) /\ is_u64 (next_period (settlement s1)));
    [|destruct Hc as [Hc1 Hc2]; destruct (IH Hm1 Hc2); split; [lia|done]].
  destruct H1 as [params h s|x op s1 Hp Ho E]; [unfold purge_commits; by case_match|].
  pose proof (apply_cursor _ _ _ Hp Ho (proj1 Hm) E) as Hc. destruct op; try (by rewrite Hc).
  destruct Hc as [Hper ->]. case_bool_decide as Hpay; [|done].
  apply apply_none in E as (key & _ & (_ & _ & E)%ApplyStorageSettlement_inv).
  rewrite bool_decide_eq_true_2 in E by done.
  destruct (ApplyPayInputs_conserves _ _ _ _ Ho (proj1 Hm) E) as (_ & _ & Hmax & _). rewrite add64_small by ulia. ulia.
Qed.

(** C27: storage periods are paid in order and at most once: after a period has
    been paid, every settlement that any later state accepts is for a later
    period. *)
Theorem settlement_periods_increase x op s1 y op' s2 :
  money_wf (m_candidate x) -> is_u64 (next_period (settlement (m_candidate x))) ->
  params_wf (m_params x) -> params_wf (m_params y) ->
  operation_wf (OpStorageSettlement op) -> operation_wf (OpStorageSettlement op') -> ss_action op = PAY ->
  apply_to_candidate x (OpStorageSettlement op) = Ret (BE_NONE, s1) -> rtc ledger_step s1 (m_candidate y) ->
  apply_to_candidate y (OpStorageSettlement op') = Ret (BE_NONE, s2) ->
  ss_period op < ss_period op'.
Proof.
  intros Hm Hu Hp Hp' Ho Ho' Hpay E Hs E'.
  pose proof (step_apply _ _ _ Hp Ho E) as H1.
  pose proof (conserves_money _ _ (ledger_step_conserves _ _ H1 Hm) Hm) as Hm1.
  destruct (ledger_steps_cursor _ _ (rtc_once _ _ H1) Hm Hu) as [_ Hu1].
  destruct (ledger_steps_cursor _ _ Hs Hm1 Hu1) as [Hle _].
  pose proof (conserves_money _ _ (ledger_steps_conserve _ _ Hs Hm1) Hm1) as Hmy.
  destruct (apply_cursor _ _ _ Hp Ho (proj1 Hm) E) as [P1 P2]. rewrite bool_decide_eq_true_2 in P2 by done.
  destruct (apply_cursor _ _ _ Hp' Ho' (proj1 Hmy) E') as [P3 _].
  apply apply_none in E as (key & _ & (_ & _ & E)%ApplyStorageSettlement_inv). rewrite bool_decide_eq_true_2 in E by done.
  destruct (ApplyPayInputs_conserves _ _ _ _ Ho (proj1 Hm) E) as (_ & _ & Hmax & _).
  rewrite add64_small in P2 by ulia. lia.
Qed.
End transfers.
