(* ===== verification/Block.v ===== *)
(** * Blocks and finality certificates

    [src/src/cybou/block.cpp] and [poa_finality.cpp]: the commitments of a
    block, the certificate the finalizer signs over it, and the binary forms
    both are stored and relayed in. *)

From S2P Require Import Prelude.
From S2P Require Import Bytes.
From S2P Require Import Codec.
From S2P Require Import Crypto.
From S2P Require Import Operation.
From S2P Require Import OperationCodec.

(** ** Data *)

Record CybouBlock : Type := mkBlock {
  blk_parent_block_id : Hash256;
  blk_height : Z;
  blk_operations : list ProtocolOperation;
  blk_resulting_state_root : Hash256;
}.
Record CybouBlockHeader : Type := mkHeader {
  hdr_parent_block_id : Hash256;
  hdr_height : Z;
  hdr_operations_root : Hash256;
  hdr_resulting_state_root : Hash256;
}.
Record PoaFinalityCertificate : Type := mkCertificate {
  cert_network_binding : Hash256;
  cert_block_id : Hash256;
  cert_height : Z;
  cert_parent_block_id : Hash256;
  cert_signature : IdentityHybridSignature;
}.
Record FinalizedBlock : Type := mkFinalizedBlock {
  fin_block : CybouBlock;
  fin_certificate : PoaFinalityCertificate;
}.
#[export] Instance PoaFinalityCertificate_eq_dec : EqDecision PoaFinalityCertificate.
Proof. solve_decision. Defined.

Definition POA_FINALITY_CERTIFICATE_SIZE : Z := 32 + 32 + 8 + 32 + 64 + 3309.
Definition MAX_FINALIZER_SERIALIZED_BLOCK_BYTES : Z := 32 * 1024 * 1024.

Section block.
Context `{CryptoOps}.

(** ** Commitments *)

Definition ComputeOperationsRootFromHashes (hashes : list Hash256) : outcome Hash256 :=
  Sha256 [str "CYBOU/OPS-ROOT"; le_bytes 4 (zlen hashes); mjoin (arr_val <$> hashes)].

(** The loop that hashes each operation; one that cannot be serialized is
    skipped. *)
Fixpoint operation_hashes (operations : list ProtocolOperation) : outcome (list Hash256) :=
  match operations with
  | [] => Ret []
  | op :: rest =>
      try! serialized := SerializeProtocolOperation op ;;
      let? serialized := serialized else operation_hashes rest ;;
      try! op_hash := Sha256 [serialized] ;;
      try! hashes := operation_hashes rest ;;
      Ret (op_hash :: hashes)
  end.
Definition ComputeOperationsRoot (operations : list ProtocolOperation) : outcome Hash256 :=
  try! hashes := operation_hashes operations ;;
  ComputeOperationsRootFromHashes hashes.

Definition ComputeBlockHeaderId (header : CybouBlockHeader) : outcome Hash256 :=
  Sha256 [str "CYBOU/BLOCK"; arr_val (hdr_parent_block_id header); le_bytes 8 (hdr_height header);
          arr_val (hdr_operations_root header); arr_val (hdr_resulting_state_root header)].
Definition ExtractBlockHeader (block : CybouBlock) : outcome CybouBlockHeader :=
  try! operations_root := ComputeOperationsRoot (blk_operations block) ;;
  Ret (mkHeader (blk_parent_block_id block) (blk_height block) operations_root (blk_resulting_state_root block)).
Definition ComputeBlockId (block : CybouBlock) : outcome Hash256 :=
  try! header := ExtractBlockHeader block ;;
  ComputeBlockHeaderId header.

(** ** Block encoding *)

Fixpoint serialize_operations (operations : list ProtocolOperation) : outcome (option (list bytes)) :=
  match operations with
  | [] => Ret (Some [])
  | op :: rest =>
      try! serialized_op := SerializeProtocolOperation op ;;
      let? serialized_op := serialized_op else Ret None ;;
      try! serialized_operations := serialize_operations rest ;;
      let? serialized_operations := serialized_operations else Ret None ;;
      Ret (Some (serialized_op :: serialized_operations))
  end.

(** [AppendUint32LE] of the size, cast to 32 bits, and the bytes. *)
Definition sized (l : bytes) : bytes := le_bytes 4 (wrap32 (zlen l)) ++ l.

Definition SerializeBlock (block : CybouBlock) : outcome (option bytes) :=
  try! serialized_operations := serialize_operations (blk_operations block) ;;
  let? serialized_operations := serialized_operations else Ret None ;;
  Ret (Some (arr_val (blk_parent_block_id block) ++ le_bytes 8 (blk_height block)
    ++ arr_val (blk_resulting_state_root block) ++ le_bytes 4 (wrap32 (zlen (blk_operations block)))
    ++ mjoin (sized <$> serialized_operations))).

(** The loop over [op_count], from [offset]: the operations and the final
    offset. *)
Fixpoint read_operations (l : bytes) (op_count : nat) (offset : Z) : outcome (option (list ProtocolOperation * Z)) :=
  match op_count with
  | O => Ret (Some ([], offset))
  | S n =>
      return_if zlen l <? offset ⊕ 4 with Ret None ;;
      let op_len := le_val (subspan l offset 4) in
      let offset := offset ⊕ 4 in
      return_if zlen l <? offset ⊕ op_len with Ret None ;;
      try! op := DeserializeProtocolOperation (subspan l offset op_len) ;;
      let? op := op else Ret None ;;
      try! rest := read_operations l n (offset ⊕ op_len) ;;
      let? (operations, offset) := rest else Ret None ;;
      Ret (Some (op :: operations, offset))
  end.
Definition DeserializeBlock (l : bytes) : outcome (option CybouBlock) :=
  return_if zlen l <? 76 with Ret None ;;
  let op_count := le_val (subspan l 72 4) in
  return_if (zlen l - 76) / 4 <? op_count with Ret None ;;
  try! read := read_operations l (Z.to_nat op_count) 76 ;;
  let? (operations, offset) := read else Ret None ;;
  return_if negb (offset =? zlen l) with Ret None ;;
  Ret (Some (mkBlock (arr_of 32 (subspan l 0 32)) (le_val (subspan l 32 8)) operations
    (arr_of 32 (subspan l 40 32)))).

(** ** Finality certificates *)

Definition ValidFields (certificate : PoaFinalityCertificate) : bool :=
  negb (IsNull (cert_network_binding certificate)) && negb (IsNull (cert_block_id certificate))
  && negb (cert_height certificate =? 0) && negb (IsNull (cert_parent_block_id certificate))
  && (zlen (sig_ml_dsa (cert_signature certificate)) =? 3309)
  && has_nonzero (arr_val (sig_ed25519 (cert_signature certificate)))
  && has_nonzero (sig_ml_dsa (cert_signature certificate)).

Definition ComputePoaFinalityDigest (network_binding block_id : Hash256) (height : Z) (parent_block_id : Hash256)
    : outcome Hash256 :=
  Sha256 [str "CYBOU/POA-FINALITY"; arr_val network_binding; arr_val block_id; le_bytes 8 height;
          arr_val parent_block_id].

Definition VerifyPoaFinalityCertificate (certificate : PoaFinalityCertificate)
    (genesis_finalizer_key : IdentityHybridPublicKey) (expected_network_binding expected_block_id : Hash256)
    (expected_height : Z) (expected_parent_block_id : Hash256) : outcome bool :=
  return_if negb (ValidFields certificate)
    || negb (bool_decide (purpose genesis_finalizer_key = POA_FINALIZER))
    || negb (zlen (pk_ml_dsa genesis_finalizer_key) =? 1952)
    || negb (has_nonzero (arr_val (pk_ed25519 genesis_finalizer_key)))
    || negb (has_nonzero (pk_ml_dsa genesis_finalizer_key))
    || negb (bool_decide (cert_network_binding certificate = expected_network_binding))
    || negb (bool_decide (cert_block_id certificate = expected_block_id))
    || negb (cert_height certificate =? expected_height)
    || negb (bool_decide (cert_parent_block_id certificate = expected_parent_block_id)) with Ret false ;;
  try! digest := ComputePoaFinalityDigest (cert_network_binding certificate) (cert_block_id certificate)
    (cert_height certificate) (cert_parent_block_id certificate) ;;
  Ret (VerifyIdentityMessage genesis_finalizer_key (cert_signature certificate) (arr_val digest)).

Definition VerifyPoaCertificateForBlock (certificate : PoaFinalityCertificate)
    (genesis_finalizer_key : IdentityHybridPublicKey) (expected_network_binding : Hash256) (block : CybouBlock)
    : outcome bool :=
  try! serialized := SerializeBlock block ;;
  let? _ := serialized else Ret false ;;
  try! block_id := ComputeBlockId block ;;
  return_if IsNull block_id with Ret false ;;
  VerifyPoaFinalityCertificate certificate genesis_finalizer_key expected_network_binding block_id
    (blk_height block) (blk_parent_block_id block).

Definition SerializePoaFinalityCertificate (certificate : PoaFinalityCertificate) : option bytes :=
  return_if negb (ValidFields certificate) with None ;;
  Some (arr_val (cert_network_binding certificate) ++ arr_val (cert_block_id certificate)
    ++ le_bytes 8 (cert_height certificate) ++ arr_val (cert_parent_block_id certificate)
    ++ arr_val (sig_ed25519 (cert_signature certificate)) ++ sig_ml_dsa (cert_signature certificate)).
Definition DeserializePoaFinalityCertificate (l : bytes) : option PoaFinalityCertificate :=
  return_if negb (zlen l =? POA_FINALITY_CERTIFICATE_SIZE) with None ;;
  let certificate := mkCertificate (arr_of 32 (subspan l 0 32)) (arr_of 32 (subspan l 32 32))
    (le_val (subspan l 64 8)) (arr_of 32 (subspan l 72 32))
    (mkSignature (arr_of 64 (subspan l 104 64)) (subspan l 168 (zlen l - 168))) in
  return_if negb (ValidFields certificate) with None ;;
  Some certificate.

(** ** Finalized blocks *)

Definition SerializeFinalizedBlock (finalized_block : FinalizedBlock) : outcome (option bytes) :=
  try! serialized_block := SerializeBlock (fin_block finalized_block) ;;
  let? serialized_block := serialized_block else Ret None ;;
  let? serialized_cert := SerializePoaFinalityCertificate (fin_certificate finalized_block) else Ret None ;;
  Ret (Some (sized serialized_block ++ sized serialized_cert)).
Definition DeserializeFinalizedBlock (l : bytes) : outcome (option FinalizedBlock) :=
  return_if zlen l <? 8 with Ret None ;;
  let block_len := le_val (subspan l 0 4) in
  return_if zlen l <? 4 ⊕ block_len with Ret None ;;
  try! block := DeserializeBlock (subspan l 4 block_len) ;;
  let? block := block else Ret None ;;
  let offset := 4 ⊕ block_len in
  return_if zlen l <? offset ⊕ 4 with Ret None ;;
  let cert_len := le_val (subspan l offset 4) in
  let offset := offset ⊕ 4 in
  return_if negb (offset ⊕ cert_len =? zlen l) with Ret None ;;
  let? cert := DeserializePoaFinalityCertificate (subspan l offset cert_len) else Ret None ;;
  Ret (Some (mkFinalizedBlock block cert)).
End block.

(** * Block encodings are canonical and block ids are binding

    The encodings of [Block] are read back to what was written, and the bytes
    accepted are the ones that are written. A block id determines the block,
    up to a collision of SHA-256, so a finality certificate can only be
    verified against one block. *)

Section block_proofs.
Context `{CryptoOps}.


Definition block_typed (block : CybouBlock) : Prop :=
  is_u64 (blk_height block) /\ Forall operation_typed (blk_operations block).

(** ** Operation lists *)

Lemma length_subspan l off n : 0 <= off -> off + Z.of_nat n <= zlen l -> length (subspan l off (Z.of_nat n)) = n.
Proof. intros. apply Nat2Z.inj. change (Z.of_nat (length ?l)) with (zlen l). apply zlen_subspan; lia. Qed.
Lemma is_u32_at l off : 0 <= off -> off + 4 <= zlen l -> is_u32 (le_val (subspan l off 4)).
Proof. intros. apply is_u32_le_val. apply (length_subspan l off 4); lia. Qed.
Lemma is_u64_at l off : 0 <= off -> off + 8 <= zlen l -> is_u64 (le_val (subspan l off 8)).
Proof. intros. apply is_u64_le_val. apply (length_subspan l off 8); lia. Qed.

Lemma serialize_operations_Forall2 operations ls :
  serialize_operations operations = Ret (Some ls) <->
  Forall2 (fun op l => SerializeProtocolOperation op = Ret (Some l)) operations ls.
Proof.
  revert ls. induction operations as [|op rest IH]; intros ls; simpl; split.
  - by intros [= <-].
  - by intros ->%Forall2_nil_inv_l.
  - intros E. walk E. injection E as <-. constructor; [done|]. by apply IH.
  - intros (l & ls' & E & Hls%IH & ->)%Forall2_cons_inv_l. by rewrite E; simpl; rewrite Hls.
Qed.

Lemma zlen_sized l : zlen (sized l) = 4 + zlen l.
Proof. unfold sized. len. Qed.
Hint Rewrite zlen_sized : zlen.

Lemma length_mjoin_sized ls : zlen ls * 4 <= zlen (mjoin (sized <$> ls)).
Proof.
  induction ls as [|l ls IH]; [done|]. rewrite fmap_cons, mjoin_cons, zlen_cons, zlen_app, zlen_sized.
  pose proof (zlen_nonneg l). lia.
Qed.

(** The size field and the body of the next operation of a buffer. *)
Lemma sized_at p l y : zlen l <= MAX32 ->
  le_val (subspan (p ++ sized l ++ y) (zlen p) 4) = zlen l /\
  subspan (p ++ sized l ++ y) (zlen p + 4) (zlen l) = l.
Proof.
  intros Hl. pose proof (zlen_nonneg l). unfold sized. rewrite <- !app_assoc.
  split; cut; [|done]. by rewrite wrap32_small, le_val_u32 by ulia.
Qed.

Lemma read_operations_ok operations : forall ls p,
  Forall2 (fun op l => SerializeProtocolOperation op = Ret (Some l)) operations ls ->
  Forall operation_typed operations -> zlen (p ++ mjoin (sized <$> ls)) <= MAX32 ->
  read_operations (p ++ mjoin (sized <$> ls)) (length operations) (zlen p)
  = Ret (Some (operations, zlen (p ++ mjoin (sized <$> ls)))).
Proof.
  induction operations as [|op rest IH]; intros ls p Hls Ht Hz.
  - apply Forall2_nil_inv_l in Hls as ->. simpl. by rewrite app_nil_r.
  - apply Forall2_cons_inv_l in Hls as (l & ls' & Hop & Hls & ->).
    apply Forall_cons in Ht as [Hop' Ht]. rewrite fmap_cons, mjoin_cons in *.
    assert (Hb : zlen p + 4 + zlen l + zlen (mjoin (sized <$> ls')) <= MAX32).
    { rewrite !zlen_app, zlen_sized in Hz. lia. }
    pose proof (zlen_nonneg p). pose proof (zlen_nonneg l). pose proof (zlen_nonneg (mjoin (sized <$> ls'))).
    destruct (sized_at p l (mjoin (sized <$> ls')) ltac:(lia)) as [Hsize Hbody].
    cbn [length read_operations]. cbv zeta. rewrite Hsize, (add64_small (zlen p) 4), add64_small by ulia.
    rewrite Hbody, !zlen_app, zlen_sized, !(proj2 (Z.ltb_ge _ _)) by lia.
    rewrite (operation_decode _ _ Hop' Hop). cbn [outcome_bind].
    specialize (IH ls' (p ++ sized l) Hls Ht). rewrite <- !app_assoc, !zlen_app, zlen_sized in IH.
    replace (zlen p + 4 + zlen l) with (zlen p + (4 + zlen l)) by lia.
    rewrite IH by lia. cbn [outcome_bind]. done.
Qed.

Lemma read_operations_inv l n : forall offset operations offset',
  read_operations l n offset = Ret (Some (operations, offset')) ->
  zlen l <= MAX32 -> 0 <= offset <= zlen l -> Forall names_network operations ->
  exists ls, Forall2 (fun op l => SerializeProtocolOperation op = Ret (Some l)) operations ls /\
    length operations = n /\ Forall operation_typed operations /\ offset <= offset' <= zlen l /\
    subspan l offset (offset' - offset) = mjoin (sized <$> ls).
Proof.
  induction n as [|n IH]; intros offset operations offset' E Hl Ho Hn; cbn [read_operations] in E; cbv zeta in E.
  - simplify_eq. exists []. split_and!; [done..|lia|lia|]. by rewrite Z.sub_diag.
  - walk_step E. rewrite (add64_small offset 4) in Hif, E by ulia.
    set (k := le_val (subspan l offset 4)) in *.
    pose proof (is_u32_at l offset ltac:(lia) ltac:(lia) : is_u32 k) as Hk.
    rewrite add64_small in E by ulia. walk E. simplify_eq. apply Forall_cons in Hn as [Hn Hns]. guards.
    apply IH in Hret0 as (ls & Hls & <- & Ht & Hr & Hs); [|done|ulia|done].
    destruct (operation_encode _ _ Hret Hn) as [Hop Hopt].
    assert (Hz : zlen (subspan l (offset + 4) k) = k) by (apply zlen_subspan; ulia).
    eexists (_ :: ls). split_and!; [by constructor|done|by constructor|ulia|lia|].
    rewrite fmap_cons, mjoin_cons, <- Hs. unfold sized. rewrite Hz, wrap32_small by done.
    replace (le_bytes 4 k) with (subspan l offset 4) by (symmetry; apply (le_bytes_subspan l offset 4); lia).
    rewrite <- app_assoc. clearbody k. uint_unfold. glue. f_equal. lia.
Qed.

(** ** Blocks *)

Definition block_prefix (block : CybouBlock) : bytes :=
  arr_val (blk_parent_block_id block) ++ le_bytes 8 (blk_height block) ++ arr_val (blk_resulting_state_root block)
  ++ le_bytes 4 (wrap32 (zlen (blk_operations block))).
Lemma zlen_block_prefix block : zlen (block_prefix block) = 76.
Proof. unfold block_prefix. len. Qed.

Lemma SerializeBlock_inv block l : SerializeBlock block = Ret (Some l) ->
  exists ls, Forall2 (fun op l => SerializeProtocolOperation op = Ret (Some l)) (blk_operations block) ls /\
    l = block_prefix block ++ mjoin (sized <$> ls).
Proof.
  intros E. unfold SerializeBlock in E. walk E. injection E as <-. apply serialize_operations_Forall2 in Hret.
  eexists. split; [done|]. unfold block_prefix. by rewrite <- !app_assoc.
Qed.

Lemma block_decode block l : block_typed block -> zlen l <= MAX32 ->
  SerializeBlock block = Ret (Some l) -> DeserializeBlock l = Ret (Some block).
Proof.
  intros [Hh Ht] Hl (ls & Hls & ->)%SerializeBlock_inv.
  pose proof (length_mjoin_sized ls) as Hlow. pose proof (Forall2_length _ _ _ Hls) as Hlen.
  pose proof (zlen_block_prefix block) as Hp.
  assert (Hn : zlen (blk_operations block) = zlen ls) by (unfold zlen; lia).
  pose proof (zlen_nonneg ls). pose proof (read_operations_ok _ ls (block_prefix block) Hls Ht Hl) as Hread.
  rewrite zlen_app, Hp in Hl. set (l := block_prefix block ++ mjoin (sized <$> ls)) in *.
  assert (Hz : zlen l = 76 + zlen (mjoin (sized <$> ls))) by (unfold l; rewrite zlen_app; lia).
  assert (Hc : le_val (subspan l 72 4) = zlen (blk_operations block)).
  { unfold l, block_prefix. rewrite <- !app_assoc. cut. rewrite wrap32_small, le_val_u32 by ulia. done. }
  unfold DeserializeBlock. rewrite Hc, (proj2 (Z.ltb_ge _ 76)) by lia. cbv zeta.
  rewrite (proj2 (Z.ltb_ge _ (zlen _))) by (apply Z.div_le_lower_bound; lia).
  rewrite Hp in Hread. unfold zlen at 1. rewrite Nat2Z.id, Hread. cbn [outcome_bind].
  rewrite Z.eqb_refl. cbn [negb]. do 2 f_equal. destruct block as [parent height operations root].
  unfold l, block_prefix. cbn [blk_parent_block_id blk_height blk_operations blk_resulting_state_root] in *.
  rewrite <- !app_assoc. cut. by rewrite !arr_of_arr, le_val_u64.
Qed.

Lemma block_encode block l : zlen l <= MAX32 -> Forall names_network (blk_operations block) ->
  DeserializeBlock l = Ret (Some block) -> SerializeBlock block = Ret (Some l) /\ block_typed block.
Proof.
  intros Hl Hn E. unfold DeserializeBlock in E. walk_step E. cbv zeta in E. walk E. guards. simplify_eq.
  cbn [blk_operations] in Hn. apply read_operations_inv in Hret as (ls & Hls & Hlen & Ht & Hr & Hs); [|done|lia|done].
  assert (Hcount : zlen l0 = le_val (subspan l 72 4)).
  { unfold zlen at 1. rewrite Hlen. pose proof (le_val_range (subspan l 72 4)). lia. }
  assert (Hu : is_u32 (zlen l0)).
  { rewrite Hcount. apply is_u32_at; lia. }
  split.
  - unfold SerializeBlock. cbn [blk_parent_block_id blk_height blk_operations blk_resulting_state_root].
    apply serialize_operations_Forall2 in Hls. rewrite Hls. cbn [outcome_bind]. do 2 f_equal.
    rewrite <- Hs, wrap32_small, Hcount by done.
    rewrite !(arr_of_subspan 32), (le_bytes_subspan _ _ 8), (le_bytes_subspan _ _ 4) by len.
    glue. apply subspan_all. lia.
  - split; [|done]. cbn [blk_height]. apply is_u64_at; lia.
Qed.

(** ** Certificates *)

Lemma certificate_decode certificate l : is_u64 (cert_height certificate) ->
  SerializePoaFinalityCertificate certificate = Some l ->
  DeserializePoaFinalityCertificate l = Some certificate /\ zlen l = POA_FINALITY_CERTIFICATE_SIZE.
Proof.
  intros Hh E. unfold SerializePoaFinalityCertificate in E. walk E. some_inj E. guards.
  destruct certificate as [net id height parent [ed ml]]. pose proof Hif as V. unfold ValidFields in V.
  cbn [cert_network_binding cert_block_id cert_height cert_parent_block_id cert_signature sig_ed25519 sig_ml_dsa] in *.
  guards. set (l := _ ++ _).
  assert (Hz : zlen l = 3477) by (unfold l; autorewrite with zlen; lia). split; [|done].
  unfold DeserializePoaFinalityCertificate. rewrite Hz. cbn [negb Z.eqb]. unfold POA_FINALITY_CERTIFICATE_SIZE. simpl negb.
  replace (mkCertificate _ _ _ _ _) with (mkCertificate net id height parent (mkSignature ed ml)).
  - cbv zeta. by rewrite Hif.
  - unfold l. cut. by rewrite !arr_of_arr, le_val_u64.
Qed.
Lemma certificate_encode certificate l : DeserializePoaFinalityCertificate l = Some certificate ->
  SerializePoaFinalityCertificate certificate = Some l /\ is_u64 (cert_height certificate).
Proof.
  intros E. unfold DeserializePoaFinalityCertificate in E. walk_step E. cbv zeta in E. walk E. some_inj E. guards.
  unfold POA_FINALITY_CERTIFICATE_SIZE in Hif. split.
  - unfold SerializePoaFinalityCertificate. rewrite Hif0. cbn [negb]. f_equal.
    cbn [cert_network_binding cert_block_id cert_height cert_parent_block_id cert_signature sig_ed25519 sig_ml_dsa].
    rewrite !(arr_of_subspan 32), (arr_of_subspan 64), (le_bytes_subspan _ _ 8) by len.
    glue. apply subspan_all. lia.
  - cbn [cert_height]. apply is_u64_at; lia.
Qed.

(** ** Finalized blocks *)

Definition finalized_typed (f : FinalizedBlock) : Prop :=
  block_typed (fin_block f) /\ is_u64 (cert_height (fin_certificate f)).

Lemma finalized_decode f l : finalized_typed f -> zlen l <= MAX32 ->
  SerializeFinalizedBlock f = Ret (Some l) -> DeserializeFinalizedBlock l = Ret (Some f).
Proof.
  intros [Hb Hh] Hl E. unfold SerializeFinalizedBlock in E. walk E.
  apply (inj Ret), (inj Some) in E as <-.
  rewrite zlen_app, !zlen_sized in Hl. rename l0 into lb, l1 into lc.
  pose proof (zlen_nonneg lb). pose proof (zlen_nonneg lc).
  pose proof (block_decode _ lb Hb ltac:(lia) Hret) as Db. destruct (certificate_decode _ _ Hh Hopt0) as [Dc _].
  destruct (sized_at [] lb (sized lc) ltac:(lia)) as [Sb Bb].
  destruct (sized_at (sized lb) lc [] ltac:(lia)) as [Sc Bc].
  rewrite app_nil_r, zlen_sized in Sc, Bc. change (zlen []) with 0 in Sb, Bb. rewrite app_nil_l in Sb, Bb.
  unfold DeserializeFinalizedBlock. rewrite Sb. cbv zeta. change (0 + 4) with 4 in Bb.
  rewrite (add64_small 4) by ulia. rewrite Bb, Db. cbn [outcome_bind]. rewrite (add64_small (4 + _) 4), Sc by ulia.
  rewrite add64_small by ulia. rewrite Bc, Dc, zlen_app, !zlen_sized.
  rewrite !(proj2 (Z.ltb_ge _ _)), (proj2 (Z.eqb_eq _ _)) by lia. by destruct f.
Qed.

Lemma sized_rebuild l off : 0 <= off -> off + 4 <= zlen l ->
  off + 4 + le_val (subspan l off 4) <= zlen l ->
  sized (subspan l (off + 4) (le_val (subspan l off 4))) = subspan l off (4 + le_val (subspan l off 4)).
Proof.
  intros H1 H2 H3.
  pose proof (is_u32_at l off H1 H2) as Hk.
  unfold sized. rewrite zlen_subspan, wrap32_small by ulia.
  rewrite (le_bytes_subspan _ _ 4) by len. by rewrite (subspan_glue l off 4) by ulia.
Qed.

Lemma finalized_encode f l : zlen l <= MAX32 -> Forall names_network (blk_operations (fin_block f)) ->
  DeserializeFinalizedBlock l = Ret (Some f) -> SerializeFinalizedBlock f = Ret (Some l) /\ finalized_typed f.
Proof.
  intros Hl Hn E. unfold DeserializeFinalizedBlock in E. walk_step E. cbv zeta in E. guards.
  pose proof (sized_rebuild l 0 ltac:(lia) ltac:(lia)) as R1. change (0 + 4) with 4 in R1.
  set (k := le_val (subspan l 0 4)) in *.
  pose proof (is_u32_at l 0 ltac:(lia) ltac:(lia) : is_u32 k) as Hk.
  rewrite (add64_small 4 k) in E by ulia. walk_step E. walk_step E. walk_step E. guards.
  rewrite (add64_small (4 + k) 4) in E by ulia. walk_step E. guards.
  pose proof (sized_rebuild l (4 + k) ltac:(ulia) ltac:(lia)) as R2.
  set (m := le_val (subspan l (4 + k) 4)) in *.
  pose proof (is_u32_at l (4 + k) ltac:(ulia) ltac:(lia) : is_u32 m) as Hm.
  rewrite (add64_small _ m) in E by ulia. walk E. guards. injection E as <-. cbn [fin_block] in Hn.
  assert (Hz : zlen (subspan l 4 k) <= MAX32) by (rewrite zlen_subspan; ulia).
  destruct (block_encode _ _ Hz Hn Hret) as [Eb Tb]. destruct (certificate_encode _ _ Hopt0) as [Ec Tc].
  split; [|by split]. unfold SerializeFinalizedBlock. cbn [fin_block fin_certificate]. rewrite Eb. cbn [outcome_bind].
  rewrite Ec. do 2 f_equal. rewrite R1, R2 by lia. clearbody k m. uint_unfold. glue. apply subspan_whole; lia.
Qed.

(** ** Block ids

    Two byte strings with one SHA-256 digest: what an attacker who has two
    blocks with one id has found. *)

Definition sha256_collision : Prop := exists x y h, x <> y /\ evp_sha256 x = Some h /\ evp_sha256 y = Some h.

Lemma Sha256_binding xs ys h : Sha256 xs = Ret h -> Sha256 ys = Ret h -> mjoin xs = mjoin ys \/ sha256_collision.
Proof.
  unfold Sha256, ComputeSha256, or_throw. intros Ex Ey.
  destruct (evp_sha256 (mjoin xs)) eqn:Hx; [|done]. destruct (evp_sha256 (mjoin ys)) eqn:Hy; [|done]. simplify_eq.
  destruct (decide (mjoin xs = mjoin ys)); [by left|]. right. by exists (mjoin xs), (mjoin ys), h.
Qed.

(** Splits an equation between two concatenations into its fields. *)
Ltac split_fields E :=
  repeat (let Ef := fresh "Ef" in
    apply app_inj_1 in E as [Ef E]; [|apply Nat2Z.inj; change (Z.of_nat (length ?l)) with (zlen l); len];
    try apply arr_eq in Ef).

Lemma zlen_mjoin_arr {n} (a : list (arr n)) : zlen (mjoin (arr_val <$> a)) = zlen a * Z.of_N n.
Proof. induction a as [|x a IH]; [done|]. rewrite fmap_cons, mjoin_cons, zlen_app, zlen_cons, zlen_arr, IH. lia. Qed.
Lemma mjoin_arr_inj {n} (a b : list (arr n)) : (0 < n)%N -> mjoin (arr_val <$> a) = mjoin (arr_val <$> b) -> a = b.
Proof.
  intros Hn. revert b. induction a as [|x a IH]; intros [|y b] E; [done|..].
  1,2: apply (f_equal zlen) in E; rewrite !zlen_mjoin_arr, zlen_cons, (zlen_nil (A := arr n)) in E;
    match type of E with context [zlen ?l] => pose proof (zlen_nonneg l) end; nia.
  rewrite !fmap_cons, !mjoin_cons in E. apply app_inj_1 in E as [E1%arr_eq E2%IH]; [by subst|].
  pose proof (zlen_arr x). pose proof (zlen_arr y). unfold zlen in *. lia.
Qed.

Lemma operation_hashes_binding ops1 : forall ops2 ls1 ls2 hashes,
  Forall2 (fun op l => SerializeProtocolOperation op = Ret (Some l)) ops1 ls1 ->
  Forall2 (fun op l => SerializeProtocolOperation op = Ret (Some l)) ops2 ls2 ->
  Forall operation_typed ops1 -> Forall operation_typed ops2 ->
  operation_hashes ops1 = Ret hashes -> operation_hashes ops2 = Ret hashes -> ops1 = ops2 \/ sha256_collision.
Proof.
  induction ops1 as [|op1 ops1 IH]; intros [|op2 ops2] ls1 ls2 hashes S1 S2 T1 T2 E1 E2; [by left|..].
  - apply Forall2_cons_inv_l in S2 as (l & ls & Hl & _ & ->). simpl in *. rewrite Hl in E2. simplify_eq. simpl in E2.
    by walk E2.
  - apply Forall2_cons_inv_l in S1 as (l & ls & Hl & _ & ->). simpl in *. rewrite Hl in E1. simplify_eq. simpl in E1.
    by walk E1.
  - apply Forall2_cons_inv_l in S1 as (l1 & ls1' & H1 & S1 & ->).
    apply Forall2_cons_inv_l in S2 as (l2 & ls2' & H2 & S2 & ->).
    apply Forall_cons in T1 as [T1 Ts1], T2 as [T2 Ts2].
    cbn [operation_hashes] in E1, E2. rewrite H1 in E1. rewrite H2 in E2. cbn [outcome_bind] in E1, E2.
    walk E1. walk E2. simplify_eq.
    destruct (Sha256_binding _ _ _ Hret Hret1) as [E|]; [|by right]. cbn in E. rewrite !app_nil_r in E. subst l2.
    destruct (IH _ _ _ _ S1 S2 Ts1 Ts2 eq_refl Hret2) as [->|]; [|by right]. left. f_equal.
    apply operation_decode in H1, H2; [congruence|done..].
Qed.

Lemma block_id_binding b1 b2 l1 l2 id : block_typed b1 -> block_typed b2 ->
  SerializeBlock b1 = Ret (Some l1) -> SerializeBlock b2 = Ret (Some l2) ->
  ComputeBlockId b1 = Ret id -> ComputeBlockId b2 = Ret id -> b1 = b2 \/ sha256_collision.
Proof.
  intros [Hh1 T1] [Hh2 T2] (ls1 & S1 & _)%SerializeBlock_inv (ls2 & S2 & _)%SerializeBlock_inv E1 E2.
  unfold ComputeBlockId, ExtractBlockHeader, ComputeOperationsRoot in E1, E2.
  destruct b1 as [p1 h1 ops1 r1], b2 as [p2 h2 ops2 r2].
  cbn [blk_parent_block_id blk_height blk_operations blk_resulting_state_root] in *.
  destruct (operation_hashes ops1) as [hs1|] eqn:Eh1; [|done]. destruct (operation_hashes ops2) as [hs2|] eqn:Eh2; [|done].
  cbn [outcome_bind] in E1, E2.
  destruct (ComputeOperationsRootFromHashes hs1) as [root1|] eqn:R1; [|done].
  destruct (ComputeOperationsRootFromHashes hs2) as [root2|] eqn:R2; [|done]. cbn [outcome_bind] in E1, E2.
  destruct (Sha256_binding _ _ _ E1 E2) as [E|]; [|by right].
  rewrite !mjoin_cons in E. cbn [hdr_parent_block_id hdr_height hdr_operations_root hdr_resulting_state_root] in E.
  split_fields E. subst.
  match goal with E : le_bytes 8 _ = _ |- _ => apply (f_equal le_val) in E; rewrite !le_val_u64 in E by done end. subst.
  destruct (Sha256_binding _ _ _ R1 R2) as [Er|]; [|by right]. rewrite !mjoin_cons, !app_nil_r in Er.
  split_fields Er. apply mjoin_arr_inj in Er; [|done]. subst.
  destruct (operation_hashes_binding _ _ _ _ _ S1 S2 T1 T2 Eh1 Eh2) as [->|]; [by left|by right].
Qed.

(** Two blocks with one id have one height, whatever they hold. *)
Lemma block_id_height b1 b2 id : is_u64 (blk_height b1) -> is_u64 (blk_height b2) ->
  ComputeBlockId b1 = Ret id -> ComputeBlockId b2 = Ret id -> blk_height b1 = blk_height b2 \/ sha256_collision.
Proof.
  intros H1 H2 E1 E2. unfold ComputeBlockId, ExtractBlockHeader in E1, E2.
  destruct (ComputeOperationsRoot (blk_operations b1)) as [r1|]; [|done].
  destruct (ComputeOperationsRoot (blk_operations b2)) as [r2|]; [|done].
  cbn [outcome_bind] in *. destruct (Sha256_binding _ _ _ E1 E2) as [E|]; [left|by right].
  rewrite !mjoin_cons in E. cbn [hdr_parent_block_id hdr_height hdr_operations_root hdr_resulting_state_root] in E.
  split_fields E. match goal with E : le_bytes 8 _ = _ |- _ => apply (f_equal le_val) in E; by rewrite !le_val_u64 in E by done end.
Qed.

(** ** Certificates for blocks *)

Lemma VerifyPoaFinalityCertificate_true c key net id height parent :
  VerifyPoaFinalityCertificate c key net id height parent = Ret true <->
  ValidFields c = true /\ key_usable POA_FINALIZER key = true /\
  c = mkCertificate net id height parent (cert_signature c) /\
  exists digest, ComputePoaFinalityDigest net id height parent = Ret digest /\
    VerifyIdentityMessage key (cert_signature c) (arr_val digest) = true.
Proof.
  unfold VerifyPoaFinalityCertificate, key_usable. destruct c as [n i h p s].
  cbn [cert_network_binding cert_block_id cert_height cert_parent_block_id cert_signature].
  change (PublicSize POA_FINALIZER) with 1952. split.
  - intros E. walk E. guards. subst. split_and!; [done| |done|].
    + rewrite !andb_true_iff, bool_decide_eq_true, Z.eqb_eq. done.
    + exists a. split; [done|congruence].
  - intros (V & K & Ec & digest & Ed & Es). injection Ec as -> -> -> ->.
    rewrite !andb_true_iff in K. destruct K as [[[K1 K2] K3] K4].
    rewrite V, K1, K2, K3, K4, !bool_decide_true, Z.eqb_refl by done. cbn [negb orb]. rewrite Ed. cbn [outcome_bind].
    by rewrite Es.
Qed.

Lemma VerifyPoaCertificateForBlock_true c key net block :
  VerifyPoaCertificateForBlock c key net block = Ret true ->
  exists l id, SerializeBlock block = Ret (Some l) /\ ComputeBlockId block = Ret id /\
    VerifyPoaFinalityCertificate c key net id (blk_height block) (blk_parent_block_id block) = Ret true.
Proof. unfold VerifyPoaCertificateForBlock. intros E. walk E. eauto. Qed.

(** ** Properties *)

(** A finalized block, certificate included, is read back from its
    encoding, whatever operations it carries. *)
Theorem FinalizedBlock_roundtrip f l : finalized_typed f -> zlen l <= MAX32 ->
  SerializeFinalizedBlock f = Ret (Some l) -> DeserializeFinalizedBlock l = Ret (Some f).
Proof. apply finalized_decode. Qed.

(** Bytes that decode to a finalized block are the ones it encodes to, so
    a stored or relayed block has one form. *)
Theorem FinalizedBlock_canonical f l : zlen l <= MAX32 -> Forall names_network (blk_operations (fin_block f)) ->
  DeserializeFinalizedBlock l = Ret (Some f) -> SerializeFinalizedBlock f = Ret (Some l) /\ finalized_typed f.
Proof. apply finalized_encode. Qed.

(** C13: a finality certificate certifies one block: when it verifies for two
    blocks they are the same block, operation for operation, or a collision of
    SHA-256 has been found. *)
Theorem certificate_certifies_one_block c key1 key2 net1 net2 b1 b2 : block_typed b1 -> block_typed b2 ->
  VerifyPoaCertificateForBlock c key1 net1 b1 = Ret true -> VerifyPoaCertificateForBlock c key2 net2 b2 = Ret true ->
  b1 = b2 \/ sha256_collision.
Proof.
  intros T1 T2 (l1 & id1 & S1 & I1 & V1)%VerifyPoaCertificateForBlock_true
    (l2 & id2 & S2 & I2 & V2)%VerifyPoaCertificateForBlock_true.
  apply VerifyPoaFinalityCertificate_true in V1 as (_ & _ & C1 & _), V2 as (_ & _ & C2 & _).
  assert (id1 = id2) as <- by congruence. by eapply block_id_binding.
Qed.

(** A certificate is accepted for a block exactly when the block can be
    encoded and has a non-zero id, the certificate repeats that id, the
    height, the parent and the network, has no empty field, and both halves of
    its signature verify over the finality digest under a usable finalizer
    key. *)
Theorem VerifyPoaCertificateForBlock_iff c key net block :
  VerifyPoaCertificateForBlock c key net block = Ret true <->
  exists l id digest, SerializeBlock block = Ret (Some l) /\ ComputeBlockId block = Ret id /\ IsNull id = false /\
    ValidFields c = true /\ key_usable POA_FINALIZER key = true /\
    c = mkCertificate net id (blk_height block) (blk_parent_block_id block) (cert_signature c) /\
    ComputePoaFinalityDigest net id (blk_height block) (blk_parent_block_id block) = Ret digest /\
    VerifyIdentityMessage key (cert_signature c) (arr_val digest) = true.
Proof.
  split.
  - intros E. unfold VerifyPoaCertificateForBlock in E. walk E.
    apply VerifyPoaFinalityCertificate_true in E as (V & K & Ec & digest & Ed & Es).
    subst. eexists _, _, digest. split_and!; done.
  - intros (l & id & digest & S & I & N & V & K & Ec & Ed & Es).
    unfold VerifyPoaCertificateForBlock. rewrite S. cbn [outcome_bind]. rewrite I. cbn [outcome_bind]. rewrite N.
    apply VerifyPoaFinalityCertificate_true. split_and!; [done..|]. eauto.
Qed.
End block_proofs.
