(* ===== verification/WireTypes.v ===== *)
(** * What arrives from the wire is well typed

    The theorems on the ledger take amounts, nonces and heights to be values
    of their C++ types. Decoded bytes are: whatever a peer sends, an operation
    or a block that decodes has every field in its type. *)

From S2P Require Import Prelude.
From S2P Require Import Bytes.
From S2P Require Import Codec.
From S2P Require Import Params.
From S2P Require Import Crypto.
From S2P Require Import Identity.
From S2P Require Import IdentityCodec.
From S2P Require Import Payloads.
From S2P Require Import SettlementData.
From S2P Require Import SettlementCodec.
From S2P Require Import Operation.
From S2P Require Import OperationCodec.
From S2P Require Import State.
From S2P Require Import Executor.
From S2P Require Import ExecutorProofs.
From S2P Require Import Block.

Section wire.
Context `{CryptoOps}.

Lemma account_create_typed l op : DeserializeAccountCreateOp l = Some op -> work_wf (ac_work op).
Proof.
  unfold DeserializeAccountCreateOp. intros E. walk E. some_inj E. guards.
  unfold OFFSET_AUTH_POP_ML, OFFSET_AUTH_POP_ED, OFFSET_RECOVERY_POP_ML, OFFSET_RECOVERY_POP_ED, OFFSET_WORK, OFFSET_KEM, OFFSET_AUTH,
    ACCOUNT_CREATE_SIZE, IDENTITY_AUTHORIZATION_SIZE, IDENTITY_KEM_PACKAGE_SIZE, ACCOUNT_CREATE_WORK_SIZE, XWING_PUBLIC_KEY_SIZE,
    ROOT_SIG_SIZE, AUTHORIZATION_SIG_SIZE in *.
  split; cbn [ac_work work_epoch work_nonce]; apply is_u64_at; lia.
Qed.
Lemma operation_typed_wf operation : operation_typed operation -> operation_wf operation.
Proof.
  destruct operation; cbn; try tauto. intros (_ & _ & _ & _ & _ & He). eapply Forall_impl; [exact He|]. cbn. tauto.
Qed.
Lemma decoded_operation_typed l operation : DeserializeProtocolOperation l = Ret (Some operation) -> operation_typed operation.
Proof.
  intros E. assert (Hkind : (exists op body, operation = OpAccountCreate op /\ DeserializeAccountCreateOp body = Some op) \/ names_network operation).
  { unfold DeserializeProtocolOperation in E. walk_step E. cbv zeta in E. destruct (operation_kind_of _) as [k|]; [|done].
    destruct k; walk_step E; apply wrap_op_inv in E as (op & E & ->); [left; injection E as E; eauto|right; by intros ?..]. }
  destruct Hkind as [(op & body & -> & Eb)|Hn]; [by apply account_create_typed in Eb|by apply (operation_encode _ _ E Hn)].
Qed.
Lemma read_operations_typed l n : forall offset operations offset', read_operations l n offset = Ret (Some (operations, offset')) ->
  Forall operation_typed operations.
Proof.
  induction n as [|n IH]; intros offset operations offset' E; cbn [read_operations] in E; cbv zeta in E; [by injection E as <- _|].
  walk E. simplify_eq. constructor; [by eapply decoded_operation_typed|by eapply IH].
Qed.
Lemma decoded_block_typed l block : DeserializeBlock l = Ret (Some block) -> block_typed block.
Proof.
  intros E. unfold DeserializeBlock in E. walk_step E. cbv zeta in E. walk E. guards. simplify_eq.
  split; [cbn [blk_height]; apply is_u64_at; lia|by eapply read_operations_typed].
Qed.

Lemma decoded_finalized_typed l f : DeserializeFinalizedBlock l = Ret (Some f) -> finalized_typed f.
Proof.
  intros E. unfold DeserializeFinalizedBlock in E. walk_step E. cbv zeta in E. walk E. injection E as <-.
  apply decoded_block_typed in Hret. split; [done|by eapply certificate_encode].
Qed.

(** A finalized block that decodes, whatever the
    bytes, has a height and a certificate height of 64 bits and operations
    whose amounts, nonces, epochs, terms and counts are all values of their
    types, so they are operations as the theorems on the ledger expect them;
    the same holds of a single operation that a peer submits. *)
Lemma decoded_is_typed :
  (forall l f, DeserializeFinalizedBlock l = Ret (Some f) -> finalized_typed f /\ Forall operation_wf (blk_operations (fin_block f))) /\
  (forall l operation, DeserializeProtocolOperation l = Ret (Some operation) -> operation_typed operation /\ operation_wf operation).
Proof.
  split.
  - intros l f E%decoded_finalized_typed. split; [done|]. eapply Forall_impl; [apply (proj1 E)|exact operation_typed_wf].
  - intros l operation E%decoded_operation_typed. split; [done|by apply operation_typed_wf].
Qed.
End wire.
