(* ===== verification/KVStore.v ===== *)
(** * The key-value store

    [src/src/cybou/kv_store.h] and [kv_store.cpp]: the local record codecs and
    the typed reads and writes of [KVStore] on top of LevelDB. LevelDB itself
    is the interface [LevelDB]: a map of byte strings whose reads and writes
    can fail, and what a crash can leave of it. *)

From S2P Require Import Prelude.
From S2P Require Import Bytes.
From S2P Require Import Codec.

(** ** Local records *)

Definition MAX_COMPACT_SIZE : Z := 0x02000000.

(** [AppendCompactSize]: the bytes it appends. *)
Definition AppendCompactSize (value : Z) : bytes :=
  if value <? 253 then le_bytes 1 value
  else if value <=? MAX16 then le_bytes 1 253 ++ le_bytes 2 value
  else if value <=? MAX32 then le_bytes 1 254 ++ le_bytes 4 value
  else le_bytes 1 255 ++ le_bytes 8 value.

(** [ReadCompactSize]: the value and the new offset. *)
Definition ReadCompactSize (l : bytes) (offset : Z) : option (Z * Z) :=
  return_if zlen l <=? offset with None ;;
  let marker := le_val (subspan l offset 1) in
  let offset := offset + 1 in
  return_if marker <? 253 with Some (marker, offset) ;;
  let width := if marker =? 253 then 2 else if marker =? 254 then 4 else 8 in
  return_if zlen l - offset <? width with None ;;
  let value := le_val (subspan l offset width) in
  return_if negb ((negb (width =? 2) || (253 <=? value)) && (negb (width =? 4) || (0x10000 <=? value))
    && (negb (width =? 8) || (0x100000000 <=? value)) && (value <=? MAX_COMPACT_SIZE)) with None ;;
  Some (value, offset + width).

(** [LocalRecordCodec<T>]. *)
Class LocalRecord (T : Type) : Type := {
  rec_Encode : T -> bytes;
  rec_Decode : bytes -> option T;
}.

(** [std::string] and [std::vector<unsigned char>] have the same codec. *)
Definition EncodeBytes (value : bytes) : bytes := AppendCompactSize (zlen value) ++ value.
Definition DecodeBytes (l : bytes) : option bytes :=
  let? (size, offset) := ReadCompactSize l 0 else None ;;
  return_if zlen l - offset <? size with None ;;
  Some (subspan l offset size).
#[export] Instance bytes_record : LocalRecord bytes := {| rec_Encode := EncodeBytes; rec_Decode := DecodeBytes |}.

Definition DecodeU64 (l : bytes) : option Z :=
  return_if zlen l <? 8 with None ;;
  Some (le_val (subspan l 0 8)).
#[export] Instance u64_record : LocalRecord Z := {| rec_Encode := le_bytes 8; rec_Decode := DecodeU64 |}.

Definition DecodeHash256 (l : bytes) : option Hash256 :=
  return_if zlen l <? 32 with None ;;
  Some (arr_of 32 (subspan l 0 32)).
#[export] Instance hash_record : LocalRecord Hash256 := {| rec_Encode := arr_val; rec_Decode := DecodeHash256 |}.

(** ** LevelDB *)

Inductive BatchEntry : Type := Put (key value : bytes) | Delete (key : bytes).
Definition apply_entry (m : gmap bytes bytes) (e : BatchEntry) : gmap bytes bytes :=
  match e with Put k v => <[k := v]> m | Delete k => delete k m end.
Definition apply_batch (m : gmap bytes bytes) (batch : list BatchEntry) : gmap bytes bytes := foldl apply_entry m batch.
Definition batch_keys (batch : list BatchEntry) : list bytes :=
  (fun e => match e with Put k _ | Delete k => k end) <$> batch.

(** The records from [first] on, in the order of their keys. *)
Definition records_from (first : bytes) (m : gmap bytes bytes) : list (bytes * bytes) :=
  List.filter (fun kv => negb (blt kv.1 first)) (entries m).

(** The calls the store makes: [Get] throws or answers; [Write] reports
    whether the status was ok; [Iterator] is what an iterator visits from
    [Seek] on, and [Status] whether its status is ok at the position of a
    number, where it may end. [contents] is what [Get] sees and [durable] the
    contents that reopening the database after a crash can find. *)
Class LevelDB : Type := {
  db : Type;
  contents : db -> gmap bytes bytes;
  durable : db -> gmap bytes bytes -> Prop;
  db_Get : db -> bytes -> outcome (option bytes);
  db_Write : db -> list BatchEntry -> bool -> bool * db;
  db_Iterator : db -> bytes -> list (bytes * bytes);
  db_Status : db -> bytes -> nat -> bool;
}.

(** What LevelDB documents of them ([leveldb/doc/index.md]: atomic batches,
    synchronous writes): a read returns the stored value; a write that
    succeeds applies its batch, one that fails leaves what reads see alone;
    after a successful synchronous write nothing written before it can be
    lost; other writes, failed ones included, can be found or not; while its
    status is ok an iterator has missed nothing. *)
Class LevelDBLaws (L : LevelDB) : Prop := {
  get_contents d k v : db_Get d k = Ret v -> v = contents d !! k;
  write_ok d b sync d' : db_Write d b sync = (true, d') -> contents d' = apply_batch (contents d) b;
  write_failed d b sync d' : db_Write d b sync = (false, d') -> contents d' = contents d;
  durable_sync d b d' m : db_Write d b true = (true, d') -> durable d' m -> m = contents d';
  durable_write d b sync ok d' m : db_Write d b sync = (ok, d') -> durable d' m ->
    durable d m \/ m = apply_batch (contents d) b;
  iterator_ok d first n : db_Status d first n = true ->
    take (S n) (db_Iterator d first) = take (S n) (records_from first (contents d));
}.

(** [d'] is the database after a crash or a shutdown, opened again. *)
Definition reopened `{LevelDB} (d d' : db) : Prop :=
  durable d (contents d') /\ forall m, durable d' m -> m = contents d'.

(** ** [KVStore] *)

Section kv.
Context `{LevelDB}.

Definition ReadRaw (d : db) (key : bytes) : outcome (option bytes) := db_Get d key.
Definition kv_Read {T} `{LocalRecord T} (d : db) (key : bytes) : outcome (option T) :=
  try! raw := ReadRaw d (rec_Encode key) ;;
  let? l := raw else Ret None ;;
  Ret (rec_Decode l).
Definition kv_Exists (d : db) (key : bytes) : outcome bool :=
  try! raw := ReadRaw d (rec_Encode key) ;;
  Ret (bool_decide (is_Some raw)).
(** [Batch::Write] and [Batch::Erase]: the entry they add. *)
Definition batch_Write {T} `{LocalRecord T} (key : bytes) (value : T) : BatchEntry := Put (rec_Encode key) (rec_Encode value).
Definition batch_Erase (key : bytes) : BatchEntry := Delete (rec_Encode key).
(** [WriteBatch] and [Write]: [false] when they throw. *)
Definition kv_WriteBatch (d : db) (batch : list BatchEntry) (sync : bool) : bool * db := db_Write d batch sync.
Definition kv_Write {T} `{LocalRecord T} (d : db) (key : bytes) (value : T) (sync : bool) : bool * db :=
  kv_WriteBatch d [batch_Write key value] sync.
Definition kv_Erase (d : db) (key : bytes) (sync : bool) : bool * db := kv_WriteBatch d [batch_Erase key] sync.

(** *** Iteration

    A visitor takes and returns a state of its own, which can hold the
    database; the iterator goes over the database it was made on. *)

Fixpoint has_prefix (p l : bytes) : bool :=
  match p, l with
  | [], _ => true
  | a :: p, b :: l => bool_decide (a = b) && has_prefix p l
  | _ :: _, [] => false
  end.
(** The loop: how many records were visited, unless something threw. *)
Fixpoint visit_prefix {St} (decode : bytes -> option bytes) (visitor : St -> bytes -> bytes -> outcome unit * St)
    (serialized_prefix : bytes) (l : list (bytes * bytes)) (n : nat) (s : St) : outcome nat * St :=
  match l with
  | [] => (Ret n, s)
  | (key, value) :: rest =>
      return_if negb (has_prefix serialized_prefix key) with (Ret n, s) ;;
      match DecodeBytes key, decode value with
      | Some key, Some value =>
          let (r, s) := visitor s key value in
          match r with
          | Throw => (Throw, s)
          | Ret _ => visit_prefix decode visitor serialized_prefix rest (S n) s
          end
      | _, _ => (Throw, s)
      end
  end.
Definition for_each_prefix {St} (decode : bytes -> option bytes) (d : db) (prefix : bytes) (key_size : Z)
    (visitor : St -> bytes -> bytes -> outcome unit * St) (s : St) : outcome unit * St :=
  return_if key_size <? zlen prefix with (Throw, s) ;;
  let serialized_prefix := AppendCompactSize key_size ++ prefix in
  let (n, s) := visit_prefix decode visitor serialized_prefix (db_Iterator d serialized_prefix) 0 s in
  (try! n := n ;; if db_Status d serialized_prefix n then Ret tt else Throw, s).
Definition ForEachStringPrefix {St} := for_each_prefix (St := St) DecodeBytes.
Definition ForEachStringPrefixRaw {St} := for_each_prefix (St := St) Some.

Fixpoint visit_range {St} (visitor : St -> bytes -> bytes -> outcome bool * St) (high : bytes) (l : list (bytes * bytes))
    (n : nat) (s : St) : outcome nat * St :=
  match l with
  | [] => (Ret n, s)
  | (key, value) :: rest =>
      return_if blt high key with (Ret n, s) ;;
      match DecodeBytes key, DecodeBytes value with
      | Some key, Some value =>
          let (r, s) := visitor s key value in
          match r with
          | Throw => (Throw, s)
          | Ret true => visit_range visitor high rest (S n) s
          | Ret false => (Ret n, s)
          end
      | _, _ => (Throw, s)
      end
  end.
Definition ForEachStringRange {St} (d : db) (first last : bytes) (visitor : St -> bytes -> bytes -> outcome bool * St) (s : St)
    : outcome unit * St :=
  return_if negb (zlen first =? zlen last) || blt last first with (Throw, s) ;;
  let low := EncodeBytes first in
  let (n, s) := visit_range visitor (EncodeBytes last) (db_Iterator d low) 0 s in
  (try! n := n ;; if db_Status d low n then Ret tt else Throw, s).
End kv.

(** ** Records are read back *)

Lemma ReadCompactSize_Append v y : 0 <= v <= MAX_COMPACT_SIZE ->
  ReadCompactSize (AppendCompactSize v ++ y) 0 = Some (v, zlen (AppendCompactSize v)).
Proof.
  unfold AppendCompactSize, ReadCompactSize, MAX_COMPACT_SIZE. intros Hv. pose proof (zlen_nonneg y).
  destruct (Z.ltb_spec v 253) as [H1|H1].
  - rewrite (proj2 (Z.leb_gt _ 0)) by len. cut. rewrite le_val_le_bytes, Z.mod_small by (simpl; lia).
    rewrite (proj2 (Z.ltb_lt v 253)) by lia. by rewrite zlen_le_bytes.
  - destruct (Z.leb_spec v MAX16) as [H2|H2]; unfold MAX16, MAX32 in *.
    + rewrite (proj2 (Z.leb_gt _ 0)) by len. rewrite <- app_assoc. cut. change (le_val (le_bytes 1 253)) with 253. constants.
      rewrite (proj2 (Z.ltb_ge _ 2)) by len. cut. rewrite le_val_le_bytes, Z.mod_small by (simpl; lia).
      rewrite (proj2 (Z.leb_le 253 v)), (proj2 (Z.leb_le v _)) by lia. done.
    + rewrite (proj2 (Z.leb_le v _)) by lia. rewrite (proj2 (Z.leb_gt _ 0)) by len. rewrite <- app_assoc. cut.
      change (le_val (le_bytes 1 254)) with 254. constants. rewrite (proj2 (Z.ltb_ge _ 4)) by len. cut.
      rewrite le_val_le_bytes, Z.mod_small by (simpl; lia).
      rewrite (proj2 (Z.leb_le 65536 v)), (proj2 (Z.leb_le v _)) by lia. done.
Qed.

Lemma ReadCompactSize_large v y : MAX_COMPACT_SIZE < v <= MAX64 -> ReadCompactSize (AppendCompactSize v ++ y) 0 = None.
Proof.
  unfold AppendCompactSize, ReadCompactSize, MAX_COMPACT_SIZE. intros Hv. pose proof (zlen_nonneg y). unfold MAX64, MAX16, MAX32 in *.
  rewrite (proj2 (Z.ltb_ge v 253)), (proj2 (Z.leb_gt v 65535)) by lia.
  destruct (Z.leb_spec v 4294967295) as [H2|H2]; rewrite (proj2 (Z.leb_gt _ 0)) by len; rewrite <- app_assoc; cut.
  - change (le_val (le_bytes 1 254)) with 254. constants. rewrite (proj2 (Z.ltb_ge _ 4)) by len. cut.
    rewrite le_val_le_bytes, Z.mod_small by (simpl; lia). rewrite (proj2 (Z.leb_gt v 33554432)) by lia.
    by rewrite !andb_false_r.
  - change (le_val (le_bytes 1 255)) with 255. constants. rewrite (proj2 (Z.ltb_ge _ 8)) by len. cut.
    rewrite le_val_le_bytes, Z.mod_small by (simpl; lia). rewrite (proj2 (Z.leb_gt v 33554432)) by lia.
    by rewrite !andb_false_r.
Qed.

Lemma DecodeBytes_Encode v : zlen v <= MAX_COMPACT_SIZE -> DecodeBytes (EncodeBytes v) = Some v.
Proof.
  intros Hv. unfold DecodeBytes, EncodeBytes. pose proof (zlen_nonneg v). rewrite ReadCompactSize_Append by lia.
  rewrite zlen_app, (proj2 (Z.ltb_ge _ _)) by lia. f_equal. rewrite subspan_skip by lia. apply subspan_whole; lia.
Qed.
(** The marker fixes the width of the size, so no two keys have one encoding. *)
Definition compact_marker (v : Z) : Z := if v <? 253 then v else if v <=? MAX16 then 253 else if v <=? MAX32 then 254 else 255.
Definition compact_tail (v : Z) : bytes :=
  if v <? 253 then [] else if v <=? MAX16 then le_bytes 2 v else if v <=? MAX32 then le_bytes 4 v else le_bytes 8 v.
Lemma AppendCompactSize_split v : AppendCompactSize v = bz (compact_marker v) :: compact_tail v.
Proof. unfold AppendCompactSize, compact_marker, compact_tail. by repeat case_match. Qed.
Lemma compact_tail_length a b : 0 <= a -> 0 <= b -> compact_marker a = compact_marker b ->
  length (compact_tail a) = length (compact_tail b).
Proof. unfold compact_marker, compact_tail. intros Ha Hb E. repeat case_match; try done; lia. Qed.
#[export] Instance EncodeBytes_inj : Inj (=) (=) EncodeBytes.
Proof.
  intros k1 k2 E. unfold EncodeBytes in E. rewrite !AppendCompactSize_split in E. injection E as Em E.
  pose proof (zlen_nonneg k1). pose proof (zlen_nonneg k2). apply (f_equal zb) in Em. rewrite !zb_bz in Em.
  assert (Hr : forall v, 0 <= v -> 0 <= compact_marker v < 256) by (unfold compact_marker; intros; repeat case_match; lia).
  unfold wrap8 in Em. rewrite !Z.mod_small in Em by (by apply Hr).
  apply app_inj_1 in E as [_ ?]; [done|]. by apply compact_tail_length.
Qed.
Lemma DecodeHash256_arr h : DecodeHash256 (arr_val h) = Some h.
Proof. unfold DecodeHash256. rewrite zlen_arr. simpl. by rewrite subspan_all, arr_of_arr by exact (zlen_arr h). Qed.

(** A record longer than 32 MiB is written, but never read back. *)
Lemma DecodeBytes_Encode_large v : MAX_COMPACT_SIZE < zlen v <= MAX64 -> DecodeBytes (EncodeBytes v) = None.
Proof. intros Hv. unfold DecodeBytes, EncodeBytes. by rewrite ReadCompactSize_large. Qed.

(** ** Reads and writes see the contents *)

Lemma apply_batch_other m batch k : k ∉ batch_keys batch -> apply_batch m batch !! k = m !! k.
Proof.
  unfold apply_batch. revert m. induction batch as [|e batch IH]; intros m Hk; [done|].
  cbn [foldl]. unfold batch_keys in Hk. rewrite fmap_cons in Hk. apply not_elem_of_cons in Hk as [Hne Hk].
  rewrite IH by done. destruct e; simpl in *; [by rewrite lookup_insert_ne|by rewrite lookup_delete_ne].
Qed.

(** The record of type [T] at a key. *)
Definition stored {T} `{LocalRecord T} (m : gmap bytes bytes) (key : bytes) : option T :=
  let? raw := m !! EncodeBytes key else None ;;
  rec_Decode raw.

Section kv_laws.
Context {L : LevelDB} {Laws : LevelDBLaws L}.
#[local] Set Default Proof Using "Type + Laws".

Lemma kv_Read_stored {T} `{LocalRecord T} d k (v : option T) : kv_Read d k = Ret v -> v = stored (contents d) k.
Proof.
  intros E. unfold kv_Read, ReadRaw in E. walk_step E. apply get_contents in Hret. unfold stored.
  cbn [rec_Encode bytes_record] in Hret. rewrite <- Hret. destruct a; by injection E as <-.
Qed.
Lemma kv_Read_contents d k (v : bytes) : kv_Read d k = Ret (Some v) ->
  exists raw, contents d !! EncodeBytes k = Some raw /\ DecodeBytes raw = Some v.
Proof. intros E%kv_Read_stored. unfold stored in E. destruct (contents d !! _) as [raw|]; [by exists raw|done]. Qed.
Lemma kv_Exists_contents d k b : kv_Exists d k = Ret b -> b = bool_decide (is_Some (contents d !! EncodeBytes k)).
Proof.
  intros E. unfold kv_Exists, ReadRaw in E. walk E. injection E as <-. by apply get_contents in Hret as ->.
Qed.
Lemma kv_Write_contents {T} `{LocalRecord T} d k (v : T) sync d' : kv_Write d k v sync = (true, d') ->
  contents d' = <[EncodeBytes k := rec_Encode v]> (contents d).
Proof. intros E. by apply write_ok in E. Qed.
Lemma stored_exists {T} `{LocalRecord T} (m : gmap bytes bytes) k (v : T) : stored m k = Some v -> is_Some (m !! EncodeBytes k).
Proof. unfold stored. by destruct (m !! EncodeBytes k). Qed.
(** A read of what is stored answers, unless it throws. *)
Lemma kv_Read_answers {T} `{LocalRecord T} d k (v : T) : stored (contents d) k = Some v ->
  kv_Read d k = Ret (Some v) \/ kv_Read (T := T) d k = Throw.
Proof.
  intros E. destruct (kv_Read d k) as [o|] eqn:Er; [|by right]. left. apply kv_Read_stored in Er. congruence.
Qed.
Lemma kv_Exists_answers d k : is_Some (contents d !! EncodeBytes k) -> kv_Exists d k = Ret true \/ kv_Exists d k = Throw.
Proof.
  intros E. destruct (kv_Exists d k) as [b|] eqn:Er; [|by right]. left. apply kv_Exists_contents in Er as ->.
  by rewrite bool_decide_eq_true_2.
Qed.
End kv_laws.
