(* ===== verification/Journal.v ===== *)
(** * The finality signing journal and the finalizer

    [src/src/cybou/poa_signing_journal.cpp]: the durable record of the last
    block the finalizer prepared to sign, and [poa_finalizer.cpp], which signs
    only what the journal lets through. The store is shared by reference: an
    operation takes the database and returns it. *)

From S2P Require Import Prelude.
From S2P Require Import Bytes.
From S2P Require Import Codec.
From S2P Require Import Crypto.
From S2P Require Import SettlementData.
From S2P Require Import Block.
From S2P Require Import KVStore.

(** ** Data *)

Record PoaJournalHead : Type := mkJournalHead {
  jh_height : Z;
  jh_parent_block_id : Hash256;
  jh_block_id : Hash256;
}.
#[export] Instance PoaJournalHead_eq_dec : EqDecision PoaJournalHead.
Proof. solve_decision. Defined.

Inductive PoaJournalStatus : Type :=
| JS_NONE | JS_ALREADY_PREPARED | JS_INVALID_REQUEST | JS_HISTORY_NOT_VERIFIED | JS_HISTORY_MISMATCH
| JS_HEIGHT_MISMATCH | JS_PARENT_MISMATCH | JS_EQUIVOCATION | JS_JOURNAL_HALTED | JS_STORAGE_ERROR.
#[export] Instance PoaJournalStatus_eq_dec : EqDecision PoaJournalStatus.
Proof. solve_decision. Defined.
Definition journal_status_value (s : PoaJournalStatus) : Z :=
  match s with
  | JS_NONE => 0 | JS_ALREADY_PREPARED => 1 | JS_INVALID_REQUEST => 2 | JS_HISTORY_NOT_VERIFIED => 3
  | JS_HISTORY_MISMATCH => 4 | JS_HEIGHT_MISMATCH => 5 | JS_PARENT_MISMATCH => 6 | JS_EQUIVOCATION => 7
  | JS_JOURNAL_HALTED => 8 | JS_STORAGE_ERROR => 9
  end.

Record PoaSigningJournal : Type := mkJournal {
  j_network_binding : Hash256;
  j_genesis_anchor : Hash256;
  j_finalizer_key_id : IdentityKeyId;
  j_prefix : bytes;
  j_head : PoaJournalHead;
  j_verified_height : Z;
  j_verified_tip : Hash256;
  j_history_verified : bool;
  j_halted : bool;
}.
Definition set_head (j : PoaSigningJournal) (head : PoaJournalHead) :=
  mkJournal (j_network_binding j) (j_genesis_anchor j) (j_finalizer_key_id j) (j_prefix j) head
    (j_verified_height j) (j_verified_tip j) (j_history_verified j) (j_halted j).
Definition set_verified (j : PoaSigningJournal) (height : Z) (tip : Hash256) :=
  mkJournal (j_network_binding j) (j_genesis_anchor j) (j_finalizer_key_id j) (j_prefix j) (j_head j)
    height tip true (j_halted j).
(** [m_halted = true; m_history_verified = false]. *)
Definition set_halted (j : PoaSigningJournal) :=
  mkJournal (j_network_binding j) (j_genesis_anchor j) (j_finalizer_key_id j) (j_prefix j) (j_head j)
    (j_verified_height j) (j_verified_tip j) false true.

(** ** Encodings *)

Definition JOURNAL_HEAD_SIZE : Z := 8 + 32 + 32.
Definition EncodeHead (head : PoaJournalHead) : bytes :=
  le_bytes 8 (jh_height head) ++ arr_val (jh_parent_block_id head) ++ arr_val (jh_block_id head).
Definition DecodeHead (l : bytes) : option PoaJournalHead :=
  return_if negb (zlen l =? JOURNAL_HEAD_SIZE) with None ;;
  let head := mkJournalHead (le_val (subspan l 0 8)) (arr_of 32 (subspan l 8 32)) (arr_of 32 (subspan l 40 32)) in
  return_if IsNull (jh_block_id head) || ((jh_height head =? 0) && negb (IsNull (jh_parent_block_id head)))
    || (negb (jh_height head =? 0) && IsNull (jh_parent_block_id head)) with None ;;
  Some head.

Definition journal_prefix (network_binding : Hash256) : bytes :=
  str "poa-finalizer-journal/" ++ GetHex network_binding ++ str "/".
Definition metadata_key (network_binding : Hash256) : bytes := journal_prefix network_binding ++ str "metadata".
Definition head_key (network_binding : Hash256) : bytes := journal_prefix network_binding ++ str "head".
Definition halt_key (network_binding : Hash256) : bytes := journal_prefix network_binding ++ str "halt".

Section journal.
Context `{CryptoOps} `{LevelDB}.

(** [a || b] over calls that can throw. *)
Definition or_else (a b : outcome bool) : outcome bool := try! v := a ;; if v then Ret true else b.

(** ** The constructor *)

(** The branch for an existing journal: it only reads. *)
Definition load_journal (d : db) (network_binding genesis_anchor : Hash256) (key_id : IdentityKeyId)
    (metadata expected_metadata : bytes) : outcome PoaSigningJournal :=
  return_if negb (bool_decide (metadata = expected_metadata)) with Throw ;;
  try! encoded_head := kv_Read (T := bytes) d (head_key network_binding) ;;
  let? encoded_head := encoded_head else Throw ;;
  let? head := DecodeHead encoded_head else Throw ;;
  return_if (jh_height head =? 0) && negb (bool_decide (jh_block_id head = genesis_anchor)) with Throw ;;
  try! halt := kv_Read (T := bytes) d (halt_key network_binding) ;;
  let journal halted := mkJournal network_binding genesis_anchor key_id (journal_prefix network_binding) head 0 ZERO false halted in
  match halt with
  | Some halt =>
      return_if negb (bool_decide (halt = [bz (journal_status_value JS_HISTORY_MISMATCH)])
        || bool_decide (halt = [bz (journal_status_value JS_EQUIVOCATION)])) with Throw ;;
      Ret (journal true)
  | None =>
      try! corrupt := kv_Exists d (halt_key network_binding) ;;
      return_if corrupt with Throw ;;
      Ret (journal false)
  end.

Definition open_journal (d : db) (network_binding genesis_anchor : Hash256) (finalizer_key : IdentityHybridPublicKey)
    : outcome PoaSigningJournal * db :=
  let? key_id := ComputePoaFinalizerKeyId finalizer_key else (Throw, d) ;;
  return_if IsNull network_binding || IsNull genesis_anchor with (Throw, d) ;;
  let expected_metadata := arr_val network_binding ++ arr_val key_id ++ arr_val genesis_anchor in
  match kv_Read (T := bytes) d (metadata_key network_binding) with
  | Throw => (Throw, d)
  | Ret (Some metadata) => (load_journal d network_binding genesis_anchor key_id metadata expected_metadata, d)
  | Ret None =>
      match or_else (kv_Exists d (metadata_key network_binding))
              (or_else (kv_Exists d (head_key network_binding)) (kv_Exists d (halt_key network_binding))) with
      | Throw | Ret true => (Throw, d)
      | Ret false =>
          let head := mkJournalHead 0 ZERO genesis_anchor in
          let (ok, d) := kv_WriteBatch d [batch_Write (metadata_key network_binding) expected_metadata;
                                          batch_Write (head_key network_binding) (EncodeHead head)] true in
          (if ok then Ret (mkJournal network_binding genesis_anchor key_id (journal_prefix network_binding) head 0 ZERO false false)
           else Throw, d)
      end
  end.

(** ** Operations *)

Definition PersistHalt (j : PoaSigningJournal) (d : db) (reason : PoaJournalStatus) : bool * PoaSigningJournal * db :=
  let j := set_halted j in
  let (ok, d) := kv_Write d (j_prefix j ++ str "halt") [bz (journal_status_value reason)] true in
  (ok, j, d).

Definition CheckCanonicalTip (j : PoaSigningJournal) (d : db) (finalized_height : Z) (finalized_tip : Hash256)
    : PoaJournalStatus * PoaSigningJournal * db :=
  return_if j_halted j with (JS_JOURNAL_HALTED, j, d) ;;
  let matches :=
    if jh_height (j_head j) =? 0 then
      (finalized_height =? 0) && bool_decide (finalized_tip = j_genesis_anchor j)
    else if finalized_height =? jh_height (j_head j) then bool_decide (finalized_tip = jh_block_id (j_head j))
    else if negb (finalized_height =? MAX64) && (finalized_height ⊕ 1 =? jh_height (j_head j))
    then bool_decide (finalized_tip = jh_parent_block_id (j_head j))
    else false in
  if negb matches then
    let '(ok, j, d) := PersistHalt j d JS_HISTORY_MISMATCH in
    (if ok then JS_HISTORY_MISMATCH else JS_STORAGE_ERROR, j, d)
  else (JS_NONE, set_verified j finalized_height finalized_tip, d).

Definition PrepareToSign (j : PoaSigningJournal) (d : db) (height : Z) (parent_block_id block_id : Hash256)
    : PoaJournalStatus * PoaSigningJournal * db :=
  return_if j_halted j with (JS_JOURNAL_HALTED, j, d) ;;
  return_if negb (j_history_verified j) with (JS_HISTORY_NOT_VERIFIED, j, d) ;;
  return_if (height =? 0) || IsNull parent_block_id || IsNull block_id with (JS_INVALID_REQUEST, j, d) ;;
  let head := j_head j in
  if height =? jh_height head then
    return_if bool_decide (parent_block_id = jh_parent_block_id head) && bool_decide (block_id = jh_block_id head)
      with (JS_ALREADY_PREPARED, j, d) ;;
    let '(ok, j, d) := PersistHalt j d JS_EQUIVOCATION in
    (if ok then JS_EQUIVOCATION else JS_STORAGE_ERROR, j, d)
  else
    return_if (jh_height head =? MAX64) || negb (height =? jh_height head ⊕ 1) with (JS_HEIGHT_MISMATCH, j, d) ;;
    return_if negb (j_verified_height j =? jh_height head) || negb (bool_decide (j_verified_tip j = jh_block_id head))
      with (JS_HISTORY_NOT_VERIFIED, j, d) ;;
    return_if negb (bool_decide (parent_block_id = jh_block_id head)) with (JS_PARENT_MISMATCH, j, d) ;;
    let next := mkJournalHead height parent_block_id block_id in
    let (ok, d) := kv_Write d (j_prefix j ++ str "head") (EncodeHead next) true in
    if ok then (JS_NONE, set_head j next, d) else (JS_STORAGE_ERROR, set_halted j, d).

(** ** [PoaFinalizer] *)

(** The interface [PoaSigner]: an external device or an in-memory key. *)
Record PoaSigner : Type := mkSigner {
  signer_PublicKey : option IdentityHybridPublicKey;
  signer_Sign : bytes -> option IdentityHybridSignature;
}.
Inductive PoaSigningStatus : Type := PS_SIGNED | PS_ALREADY_PREPARED | PS_JOURNAL_REJECTED | PS_SIGNING_FAILED.
Record PoaSigningResult : Type := mkSigningResult {
  sr_status : PoaSigningStatus;
  sr_journal_status : PoaJournalStatus;
  sr_certificate : option PoaFinalityCertificate;
}.
Record PoaFinalizer : Type := mkFinalizer {
  f_network_binding : Hash256;
  f_public_key : IdentityHybridPublicKey;
  f_signer : option PoaSigner;
  f_journal : PoaSigningJournal;
}.
Definition set_journal (f : PoaFinalizer) (j : PoaSigningJournal) :=
  mkFinalizer (f_network_binding f) (f_public_key f) (f_signer f) j.

Definition open_finalizer (d : db) (network_binding genesis_anchor : Hash256) (genesis_finalizer_key : IdentityHybridPublicKey)
    : outcome PoaFinalizer * db :=
  let (j, d) := open_journal d network_binding genesis_anchor genesis_finalizer_key in
  (try! j := j ;;
   return_if negb (bool_decide (purpose genesis_finalizer_key = POA_FINALIZER))
     || negb (zlen (pk_ml_dsa genesis_finalizer_key) =? 1952) with Throw ;;
   Ret (mkFinalizer network_binding genesis_finalizer_key None j), d).

Definition EnableSigner (f : PoaFinalizer) (signer : option PoaSigner) : bool * PoaFinalizer :=
  let? signer := signer else (false, f) ;;
  let? key := signer_PublicKey signer else (false, f) ;;
  return_if negb (bool_decide (key = f_public_key f)) with (false, f) ;;
  (true, mkFinalizer (f_network_binding f) (f_public_key f) (Some signer) (f_journal f)).
Definition DisableSigner (f : PoaFinalizer) : PoaFinalizer :=
  mkFinalizer (f_network_binding f) (f_public_key f) None (f_journal f).

Definition CreateCertificate (signature : IdentityHybridSignature) (network_binding block_id : Hash256) (height : Z)
    (parent_block_id : Hash256) : option PoaFinalityCertificate :=
  return_if IsNull network_binding || IsNull block_id || (height =? 0) || IsNull parent_block_id with None ;;
  let certificate := mkCertificate network_binding block_id height parent_block_id signature in
  let? _ := SerializePoaFinalityCertificate certificate else None ;;
  Some certificate.

(** What [SignFinality] does once the journal has answered [NONE] or
    [ALREADY_PREPARED]; the digest can throw. *)
Definition sign_prepared (f : PoaFinalizer) (signer : PoaSigner) (journal_status : PoaJournalStatus) (block : CybouBlock)
    (block_id : Hash256) : outcome PoaSigningResult :=
  let failed := mkSigningResult PS_SIGNING_FAILED journal_status None in
  try! digest := ComputePoaFinalityDigest (f_network_binding f) block_id (blk_height block) (blk_parent_block_id block) ;;
  let? signature := signer_Sign signer (arr_val digest) else Ret failed ;;
  return_if negb (VerifyIdentityMessage (f_public_key f) signature (arr_val digest)) with Ret failed ;;
  let? certificate := CreateCertificate signature (f_network_binding f) block_id (blk_height block) (blk_parent_block_id block)
    else Ret failed ;;
  Ret (mkSigningResult (if bool_decide (journal_status = JS_ALREADY_PREPARED) then PS_ALREADY_PREPARED else PS_SIGNED)
         journal_status (Some certificate)).

Definition SignFinality (f : PoaFinalizer) (d : db) (finalized_height : Z) (finalized_tip : Hash256) (block : CybouBlock)
    : outcome PoaSigningResult * PoaFinalizer * db :=
  let failed := mkSigningResult PS_SIGNING_FAILED JS_NONE None in
  match SerializeBlock block with
  | Throw => (Throw, f, d)
  | Ret None => (Ret failed, f, d)
  | Ret (Some _) =>
      match ComputeBlockId block with
      | Throw => (Throw, f, d)
      | Ret block_id =>
          return_if IsNull block_id with (Ret failed, f, d) ;;
          let? signer := f_signer f else (Ret failed, f, d) ;;
          return_if j_halted (f_journal f) with (Ret failed, f, d) ;;
          let '(history_status, j, d) := CheckCanonicalTip (f_journal f) d finalized_height finalized_tip in
          let f := set_journal f j in
          return_if negb (bool_decide (history_status = JS_NONE))
            with (Ret (mkSigningResult PS_JOURNAL_REJECTED history_status None), f, d) ;;
          let '(journal_status, j, d) := PrepareToSign (f_journal f) d (blk_height block) (blk_parent_block_id block) block_id in
          let f := set_journal f j in
          return_if negb (bool_decide (journal_status = JS_NONE)) && negb (bool_decide (journal_status = JS_ALREADY_PREPARED))
            with (Ret (mkSigningResult PS_JOURNAL_REJECTED journal_status None), f, d) ;;
          (sign_prepared f signer journal_status block block_id, f, d)
      end
  end.

Definition SignStorageSettlement (f : PoaFinalizer) (settlement : StorageSettlement) : bool * StorageSettlement :=
  let? digest := ComputeStorageSettlementDigest (f_network_binding f) settlement else (false, settlement) ;;
  return_if j_halted (f_journal f) with (false, settlement) ;;
  let? signer := f_signer f else (false, settlement) ;;
  let? signature := signer_Sign signer (arr_val digest) else (false, settlement) ;;
  return_if negb (VerifyIdentityMessage (f_public_key f) signature (arr_val digest)) with (false, settlement) ;;
  (true, mkSettlement (ss_period settlement) (ss_period_start_utc settlement) (ss_entries settlement) signature
     (ss_action settlement) (ss_funded_term_id settlement) (ss_preparation_id settlement) (ss_assignment_epoch settlement)
     (ss_eligible settlement) (ss_manifest settlement) (ss_period_end_utc settlement) (ss_evidence_root settlement)
     (ss_activation_witnesses settlement)).
End journal.

(** * The finalizer never equivocates

    A finalizer node as a transition system: it opens its journal, checks the
    canonical tip, signs blocks, loses and regains its signer, crashes and
    starts again, on a store whose writes can fail and that other components
    write to. At no height are two different blocks ever certified. *)

Lemma DecodeHead_Encode head : is_u64 (jh_height head) -> IsNull (jh_block_id head) = false ->
  IsNull (jh_parent_block_id head) = (jh_height head =? 0) -> DecodeHead (EncodeHead head) = Some head.
Proof.
  intros Hh Hb Hp. destruct head as [h p b]. cbn [jh_height jh_parent_block_id jh_block_id] in *.
  unfold DecodeHead, EncodeHead, JOURNAL_HEAD_SIZE. cbn [jh_height jh_parent_block_id jh_block_id].
  rewrite (proj2 (Z.eqb_eq _ _)) by len. cbn [negb]. cut. rewrite !arr_of_arr, le_val_u64, Hb, Hp by done.
  cbn [orb]. by destruct (h =? 0).
Qed.
Lemma DecodeHead_range l head : DecodeHead l = Some head -> is_u64 (jh_height head).
Proof.
  unfold DecodeHead, JOURNAL_HEAD_SIZE. intros E. walk_step E. cbv zeta in E. walk E. some_inj E. guards.
  apply is_u64_at; lia.
Qed.

(** ** Keys *)

Lemma journal_key_inj net s1 s2 : EncodeBytes (journal_prefix net ++ s1) = EncodeBytes (journal_prefix net ++ s2) -> s1 = s2.
Proof. by intros E%(inj EncodeBytes)%(inj (app _)). Qed.
Lemma head_not_metadata net : EncodeBytes (head_key net) <> EncodeBytes (metadata_key net).
Proof. intros E. by pose proof (journal_key_inj net (str "head") (str "metadata") E). Qed.
Lemma head_not_halt net : EncodeBytes (head_key net) <> EncodeBytes (halt_key net).
Proof. intros E. by pose proof (journal_key_inj net (str "head") (str "halt") E). Qed.
Lemma metadata_not_halt net : EncodeBytes (metadata_key net) <> EncodeBytes (halt_key net).
Proof. intros E. by pose proof (journal_key_inj net (str "metadata") (str "halt") E). Qed.

(** The store as the journal sees it. *)
Definition stored_head (net : Hash256) (m : gmap bytes bytes) : option PoaJournalHead :=
  let? raw := m !! EncodeBytes (head_key net) else None ;;
  let? l := DecodeBytes raw else None ;;
  DecodeHead l.
Definition has_metadata (net : Hash256) (m : gmap bytes bytes) : Prop := is_Some (m !! EncodeBytes (metadata_key net)).

Lemma zlen_EncodeHead head : zlen (EncodeHead head) = 72.
Proof. unfold EncodeHead. len. Qed.
Lemma stored_head_insert net m head : is_u64 (jh_height head) -> IsNull (jh_block_id head) = false ->
  IsNull (jh_parent_block_id head) = (jh_height head =? 0) ->
  stored_head net (<[EncodeBytes (head_key net) := EncodeBytes (EncodeHead head)]> m) = Some head.
Proof.
  intros H1 H2 H3. unfold stored_head. rewrite lookup_insert_eq, DecodeBytes_Encode; [by apply DecodeHead_Encode|].
  rewrite zlen_EncodeHead. done.
Qed.
(** The journal's records are not touched by other keys. *)
Definition same_records (net : Hash256) (m m' : gmap bytes bytes) : Prop :=
  m' !! EncodeBytes (metadata_key net) = m !! EncodeBytes (metadata_key net) /\
  m' !! EncodeBytes (head_key net) = m !! EncodeBytes (head_key net).
Lemma same_records_head net m m' : same_records net m m' -> stored_head net m' = stored_head net m.
Proof. intros [_ E]. unfold stored_head. by rewrite E. Qed.
Lemma same_records_metadata net m m' : same_records net m m' -> has_metadata net m -> has_metadata net m'.
Proof. intros [E _]. unfold has_metadata. by rewrite E. Qed.

Section node.
Context `{CryptoOps} {L : LevelDB} {Laws : LevelDBLaws L}.
Context (net anchor : Hash256) (key : IdentityHybridPublicKey).
#[local] Set Default Proof Using "Type + Laws".

(** ** The node *)

Record Node : Type := mkNode {
  n_db : db;
  n_finalizer : option PoaFinalizer;
  n_issued : list PoaFinalityCertificate;
}.
Definition issued_by (r : outcome PoaSigningResult) : list PoaFinalityCertificate :=
  match r with Ret res => option_list (sr_certificate res) | Throw => [] end.
Definition journal_keys : list bytes :=
  [EncodeBytes (metadata_key net); EncodeBytes (head_key net); EncodeBytes (halt_key net)].

Inductive node_step : Node -> Node -> Prop :=
| node_open d f d' issued : open_finalizer d net anchor key = (f, d') ->
    node_step (mkNode d None issued) (mkNode d' (match f with Ret f => Some f | Throw => None end) issued)
| node_check d f issued height tip status j d' : CheckCanonicalTip (f_journal f) d height tip = (status, j, d') ->
    node_step (mkNode d (Some f) issued) (mkNode d' (Some (set_journal f j)) issued)
| node_sign d f issued height tip block r f' d' : SignFinality f d height tip block = (r, f', d') ->
    node_step (mkNode d (Some f) issued) (mkNode d' (Some f') (issued_by r ++ issued))
| node_enable d f issued signer : node_step (mkNode d (Some f) issued) (mkNode d (Some (EnableSigner f signer).2) issued)
| node_disable d f issued : node_step (mkNode d (Some f) issued) (mkNode d (Some (DisableSigner f)) issued)
| node_other d f issued batch sync ok d' : (forall k, k ∈ journal_keys -> k ∉ batch_keys batch) ->
    db_Write d batch sync = (ok, d') -> node_step (mkNode d f issued) (mkNode d' f issued)
| node_crash d f issued d' : reopened d d' -> node_step (mkNode d f issued) (mkNode d' None issued).

(** A node that starts on a database that has just been opened. *)
Definition node_initial (n : Node) : Prop :=
  n_finalizer n = None /\ n_issued n = [] /\ forall m, durable (n_db n) m -> m = contents (n_db n).

(** ** The invariant *)

Definition head_of (c : PoaFinalityCertificate) : PoaJournalHead :=
  mkJournalHead (cert_height c) (cert_parent_block_id c) (cert_block_id c).
Definition at_or_before (a b : PoaJournalHead) : Prop := jh_height a < jh_height b \/ a = b.
(** [m] holds a journal whose head is [head] or a later block. *)
Definition ahead (m : gmap bytes bytes) (head : PoaJournalHead) : Prop :=
  has_metadata net m /\ exists h, stored_head net m = Some h /\ at_or_before head h.

(** Whatever a crash leaves is not behind what the journal has shown. *)
Definition not_behind (d : db) : Prop := forall m head, durable d m ->
  has_metadata net (contents d) -> stored_head net (contents d) = Some head -> ahead m head.
Definition live (d : db) (j : PoaSigningJournal) : Prop := j_prefix j = journal_prefix net /\
  (j_halted j = false -> has_metadata net (contents d) /\ stored_head net (contents d) = Some (j_head j) /\
    is_u64 (jh_height (j_head j))).

Record node_inv (n : Node) : Prop := {
  ni_behind : not_behind (n_db n);
  ni_issued : Forall (fun c => ahead (contents (n_db n)) (head_of c)) (n_issued n);
  ni_live : forall f, n_finalizer n = Some f -> live (n_db n) (f_journal f);
  ni_once : forall c1 c2, c1 ∈ n_issued n -> c2 ∈ n_issued n -> cert_height c1 = cert_height c2 -> head_of c1 = head_of c2;
}.

Lemma ahead_same m m' head : same_records net m m' -> ahead m head -> ahead m' head.
Proof.
  intros Hs (Hm & h & Eh & Hh). split; [by eapply same_records_metadata|]. exists h. by rewrite (same_records_head _ _ _ Hs).
Qed.
Lemma ahead_trans m a b : ahead m b -> at_or_before a b -> ahead m a.
Proof.
  intros (Hm & h & Eh & Hh) Hab. split; [done|]. exists h. split; [done|].
  destruct Hab as [Hab| ->], Hh as [Hh| ->]; [left; lia|by left|by left|by right].
Qed.
Lemma ahead_refl m head : has_metadata net m -> stored_head net m = Some head -> ahead m head.
Proof. intros. split; [done|]. exists head. split; [done|by right]. Qed.

(** A write that leaves the metadata and the head alone. *)
Lemma write_other d batch sync ok d' : EncodeBytes (metadata_key net) ∉ batch_keys batch ->
  EncodeBytes (head_key net) ∉ batch_keys batch -> db_Write d batch sync = (ok, d') ->
  same_records net (contents d) (contents d') /\ (not_behind d -> not_behind d').
Proof.
  intros Hm Hh E.
  assert (Hb : same_records net (contents d) (apply_batch (contents d) batch)) by (split; by apply apply_batch_other).
  assert (Hs : same_records net (contents d) (contents d')).
  { destruct ok; [by rewrite (write_ok _ _ _ _ E)|]. rewrite (write_failed _ _ _ _ E). done. }
  split; [done|]. intros Hn m head Hd Hmeta Ehead. rewrite (same_records_head _ _ _ Hs) in Ehead.
  assert (Hmeta' : has_metadata net (contents d)) by (destruct Hs as [Hs _]; unfold has_metadata in *; by rewrite Hs in Hmeta).
  destruct (durable_write _ _ _ _ _ _ E Hd) as [Hd'| ->]; [by apply Hn|].
  eapply ahead_same; [done|]. by apply ahead_refl.
Qed.

Lemma live_same d d' j : same_records net (contents d) (contents d') -> live d j -> live d' j.
Proof.
  intros Hs [Hp Hl]. split; [done|]. intros Hh. destruct (Hl Hh) as (Hm & Hhd & Hu).
  split_and!; [by eapply same_records_metadata|by rewrite (same_records_head _ _ _ Hs)|done..].
Qed.
Lemma live_halted d j : j_prefix j = journal_prefix net -> live d (set_halted j).
Proof. intros Hp. by split. Qed.

(** ** The journal's operations *)

(** What an operation of the journal does to the store and to the journal. *)
Definition journal_effect (d : db) (j : PoaSigningJournal) (d' : db) (j' : PoaSigningJournal) : Prop :=
  (not_behind d -> not_behind d') /\ live d' j' /\ (forall head, ahead (contents d) head -> ahead (contents d') head).

Lemma PersistHalt_effect j d reason ok j' d' : live d j -> PersistHalt j d reason = (ok, j', d') ->
  journal_effect d j d' j' /\ j_halted j' = true.
Proof.
  intros [Hp _] E. unfold PersistHalt in E. destruct (kv_Write _ _ _ _) as [ok1 d1] eqn:Ew. injection E as <- <- <-.
  unfold kv_Write, kv_WriteBatch, batch_Write in Ew. cbn [rec_Encode bytes_record j_prefix set_halted] in Ew. rewrite Hp in Ew.
  change (journal_prefix net ++ str "halt") with (halt_key net) in Ew.
  apply write_other in Ew as [Hs Hn];
    [|by intros ?%list_elem_of_singleton%metadata_not_halt|by intros ?%list_elem_of_singleton%head_not_halt].
  split; [|done].
  split_and!; [done|by apply live_halted|]. intros head. by apply ahead_same.
Qed.

Lemma CheckCanonicalTip_effect j d height tip status j' d' : live d j ->
  CheckCanonicalTip j d height tip = (status, j', d') ->
  journal_effect d j d' j' /\ (status = JS_NONE -> d' = d /\ j_head j' = j_head j /\ j_halted j' = false).
Proof.
  intros Hl E. unfold CheckCanonicalTip in E. destruct (j_halted j) eqn:Hh; [injection E as <- <- <-; done|].
  cbv zeta in E. destruct (negb _).
  - destruct (PersistHalt _ _ _) as [[ok j1] d1] eqn:Ep. injection E as <- <- <-.
    destruct (PersistHalt_effect _ _ _ _ _ _ Hl Ep) as [He _]. split; [done|]. by destruct ok.
  - injection E as <- <- <-. split; [|done]. split_and!; [done| |done]. destruct Hl as [Hp Hl]. split; [done|].
    intros _. by apply Hl.
Qed.

Lemma journal_effect_refl d j : live d j -> journal_effect d j d j.
Proof. done. Qed.

(** The synchronous write of the next head. *)
Lemma write_head d j next ok d' : live d j -> j_halted j = false ->
  jh_height next = jh_height (j_head j) + 1 -> is_u64 (jh_height next) -> IsNull (jh_block_id next) = false ->
  IsNull (jh_parent_block_id next) = false ->
  kv_Write d (j_prefix j ++ str "head") (EncodeHead next) true = (ok, d') ->
  journal_effect d j d' (if ok then set_head j next else set_halted j) /\ (ok = true -> ahead (contents d') next).
Proof.
  intros [Hp Hl] Hh Hinc Hu Hb Hpar E. destruct (Hl Hh) as (Hm & Hhd & Hr).
  unfold kv_Write, kv_WriteBatch, batch_Write in E. cbn [rec_Encode bytes_record] in E. rewrite Hp in E.
  change (journal_prefix net ++ str "head") with (head_key net) in E.
  set (m' := apply_batch (contents d) [Put (EncodeBytes (head_key net)) (EncodeBytes (EncodeHead next))]) in *.
  assert (Hnext : stored_head net m' = Some next).
  { apply stored_head_insert; [done..|]. rewrite Hpar. symmetry. apply Z.eqb_neq. ulia. }
  assert (Hmeta : has_metadata net m').
  { unfold has_metadata, m', apply_batch. cbn [foldl apply_entry]. rewrite lookup_insert_ne by apply head_not_metadata. done. }
  assert (Hahead : ahead m' next) by by apply ahead_refl.
  assert (Hstep : forall head, ahead (contents d) head -> ahead m' head).
  { intros head (_ & h & Eh & Hle). assert (h = j_head j) as -> by congruence. apply (ahead_trans _ _ next); [done|].
    left. destruct Hle as [Hlt| ->]; lia. }
  destruct ok.
  - pose proof (write_ok _ _ _ _ E) as Ec. fold m' in Ec. rewrite <- Ec in *. split; [|done]. split_and!; [|split; [done|]|done].
    + intros _ m head Hd _ Eh. rewrite (durable_sync _ _ _ _ E Hd). by apply ahead_refl.
    + intros _. split; [done|split; [done|exact Hu]].
  - pose proof (write_failed _ _ _ _ E) as Ec. split; [|done]. split_and!; [|by apply live_halted|by rewrite Ec].
    intros Hn m head Hd. rewrite Ec. intros Hmd Eh.
    destruct (durable_write _ _ _ _ _ _ E Hd) as [Hd'| ->]; [by apply Hn|]. apply Hstep. by apply ahead_refl.
Qed.

Lemma PrepareToSign_effect j d height parent id status j' d' : live d j ->
  PrepareToSign j d height parent id = (status, j', d') ->
  journal_effect d j d' j' /\
  (status = JS_NONE \/ status = JS_ALREADY_PREPARED ->
   let head := mkJournalHead height parent id in
   ahead (contents d') head /\ (forall c, ahead (contents d) c -> jh_height c = height -> c = head)).
Proof.
  intros Hlive E. unfold PrepareToSign in E.
  repeat (walk_step E; [injection E as <- <- <-; split; [by apply journal_effect_refl|by intros []]|]).
  pose proof Hlive as [Hp Hl]. destruct (Hl Hif) as (Hm & Hhd & Hu). guards.
  assert (Hbefore : forall c, ahead (contents d) c -> jh_height c <= jh_height (j_head j) /\
    (jh_height c = jh_height (j_head j) -> c = j_head j)).
  { intros c (_ & h & Eh & Hle). assert (h = j_head j) as -> by congruence. destruct Hle as [Hlt| ->]; [lia|done]. }
  walk_step E; guards.
  - walk_step E; guards.
    + injection E as <- <- <-. split; [by apply journal_effect_refl|]. intros _ head.
      assert (head = j_head j) as -> by (unfold head; destruct (j_head j); simpl in *; congruence).
      split; [by apply ahead_refl|]. intros c Hc He. apply Hbefore; [done|congruence].
    + destruct (PersistHalt _ _ _) as [[ok j1] d1] eqn:Ep. injection E as <- <- <-.
      destruct (PersistHalt_effect _ _ _ _ _ _ Hlive Ep) as [He _]. split; [done|]. destruct ok; by intros [].
  - repeat (walk_step E; [injection E as <- <- <-; split; [by apply journal_effect_refl|by intros []]|]). guards.
    destruct (kv_Write _ _ _ _) as [ok d1] eqn:Ew.
    assert (Hinc : height = jh_height (j_head j) + 1) by (rewrite add64_small in * by ulia; done).
    eapply write_head in Ew; [|done|done|done|cbn; ulia|done|done]. destruct Ew as [He Ha].
    destruct ok; injection E as <- <- <-; (split; [done|]); [|by intros []].
    intros _ head. split; [by apply Ha|]. intros c Hc Hh. destruct (Hbefore c Hc). lia.
Qed.

(** ** Opening *)

Lemma load_journal_live d key_id metadata expected j : load_journal d net anchor key_id metadata expected = Ret j ->
  has_metadata net (contents d) -> live d j.
Proof.
  intros E Hm. unfold load_journal in E. walk_step E. walk_step E. walk_step E. walk_step E. walk_step E. walk_step E.
  cbv zeta in E. subst. apply kv_Read_contents in Hret as (raw & Hraw & Hdec).
  assert (Hs : stored_head net (contents d) = Some p).
  { unfold stored_head. by rewrite Hraw, Hdec. }
  pose proof (DecodeHead_range _ _ Hopt0) as Hu.
  destruct a0 as [halt|]; walk E; injection E as <-; split; done.
Qed.

Lemma open_journal_effect d r d' : not_behind d -> open_journal d net anchor key = (r, d') ->
  not_behind d' /\ (forall head, ahead (contents d) head -> ahead (contents d') head) /\ (forall j, r = Ret j -> live d' j).
Proof.
  intros Hn E. unfold open_journal in E.
  walk_step E; [|by injection E as <- <-]. walk_step E; [by injection E as <- <-|]. cbv zeta in E.
  destruct (kv_Read d (metadata_key net)) as [[metadata|]|] eqn:Er.
  - injection E as <- <-. split_and!; [done..|]. intros j Hj. eapply load_journal_live; [done|].
    apply kv_Read_contents in Er as (raw & Hraw & _). by exists raw.
  - destruct (or_else _ _) as [[]|] eqn:Ee; [by injection E as <- <-| |by injection E as <- <-].
    unfold or_else in Ee. walk Ee. apply kv_Exists_contents in Hret.
    assert (Hnone : contents d !! EncodeBytes (metadata_key net) = None) by (symmetry in Hret; by guards).
    assert (Hno : ~ has_metadata net (contents d)) by (unfold has_metadata; rewrite Hnone; by intros []).
    destruct (kv_WriteBatch _ _ _) as [ok d1] eqn:Ew. injection E as <- <-. unfold kv_WriteBatch, batch_Write in Ew.
    cbn [rec_Encode bytes_record] in Ew. destruct ok.
    + pose proof (write_ok _ _ _ _ Ew) as Ec. guards.
      assert (Hs : stored_head net (contents d1) = Some (mkJournalHead 0 ZERO anchor)).
      { rewrite Ec. unfold apply_batch. cbn [foldl apply_entry]. apply stored_head_insert; [done|done|]. apply IsNull_ZERO. }
      assert (Hm : has_metadata net (contents d1)).
      { rewrite Ec. unfold has_metadata, apply_batch. cbn [foldl apply_entry].
        rewrite lookup_insert_ne by apply head_not_metadata. by rewrite lookup_insert_eq. }
      split_and!.
      * intros m head Hd _ Eh. rewrite (durable_sync _ _ _ _ Ew Hd). by apply ahead_refl.
      * by intros head [? _].
      * intros j [= <-]. by split.
    + pose proof (write_failed _ _ _ _ Ew) as Ec. split_and!; [|by rewrite Ec|done].
      intros m head _. by rewrite Ec.
  - by injection E as <- <-.
Qed.

(** ** Signing *)

Lemma sign_prepared_certificate f signer status block id r c : sign_prepared f signer status block id = r ->
  c ∈ issued_by r -> head_of c = mkJournalHead (blk_height block) (blk_parent_block_id block) id.
Proof.
  intros <- Hc. unfold sign_prepared in Hc. cbv zeta in Hc.
  destruct (ComputePoaFinalityDigest _ _ _ _) as [digest|]; cbn [outcome_bind] in Hc; [|by apply elem_of_nil in Hc].
  destruct (signer_Sign _ _) as [s|]; [|by apply elem_of_nil in Hc].
  destruct (negb _); [by apply elem_of_nil in Hc|].
  destruct (CreateCertificate _ _ _ _ _) as [c'|] eqn:E; [|by apply elem_of_nil in Hc].
  unfold CreateCertificate in E. walk_step E. cbv zeta in E. walk E. some_inj E.
  by apply list_elem_of_singleton in Hc as ->.
Qed.

(** An early return of [SignFinality]. *)
Ltac nothing_issued E := injection E as <- <- <-; split; [done|]; intros ? []%elem_of_nil.

Lemma SignFinality_effect f d height tip block r f' d' : live d (f_journal f) ->
  SignFinality f d height tip block = (r, f', d') ->
  journal_effect d (f_journal f) d' (f_journal f') /\
  forall c, c ∈ issued_by r -> ahead (contents d') (head_of c) /\
    (forall h, ahead (contents d) h -> jh_height h = cert_height c -> h = head_of c).
Proof.
  intros Hl E. unfold SignFinality in E.
  destruct (SerializeBlock block) as [[lb|]|]; [|nothing_issued E..].
  destruct (ComputeBlockId block) as [id|]; [|nothing_issued E].
  destruct (IsNull id); [nothing_issued E|].
  destruct (f_signer f) as [signer|]; [|nothing_issued E].
  destruct (j_halted (f_journal f)); [nothing_issued E|].
  destruct (CheckCanonicalTip _ _ _ _) as [[st1 j1] d1] eqn:Ec. cbv zeta in E. cbn [f_journal set_journal] in E.
  destruct (CheckCanonicalTip_effect _ _ _ _ _ _ _ Hl Ec) as [He1 Hnone].
  case_bool_decide as Hs1; cbn [negb] in E; [|nothing_issued E].
  destruct (Hnone Hs1) as (-> & _ & _). clear Hnone.
  destruct (PrepareToSign _ _ _ _ _) as [[st2 j2] d2] eqn:Ep. cbn [f_journal set_journal] in E.
  assert (Hl1 : live d j1) by apply He1.
  destruct (PrepareToSign_effect _ _ _ _ _ _ _ _ Hl1 Ep) as [He2 Hprep].
  destruct (negb _ && negb _) eqn:Hst.
  { nothing_issued E. }
  injection E as <- <- <-. split; [done|]. intros c Hc. apply (sign_prepared_certificate _ _ _ _ _ _ _ eq_refl) in Hc as Ehead.
  destruct Hprep as [H1 H2].
  { apply andb_false_iff in Hst as [Hst|Hst]; apply negb_false_iff, bool_decide_eq_true in Hst; auto. }
  rewrite Ehead. split; [done|]. intros h Hh Hhh. apply H2; [done|]. rewrite Hhh. by injection Ehead as ->.
Qed.

(** ** Preservation *)

Lemma initial_inv n : node_initial n -> node_inv n.
Proof.
  destruct n as [d f issued]. intros (Ef & Ei & Hd). cbn in *. subst. constructor; cbn; [|constructor|done|].
  - intros m head Hm Hmeta Eh. rewrite (Hd m Hm). by apply ahead_refl.
  - by intros c1 c2 []%elem_of_nil.
Qed.

(** A step that issues nothing and keeps what the store has shown. *)
Lemma node_inv_keep d f issued d' f' : node_inv (mkNode d f issued) -> not_behind d' ->
  (forall head, ahead (contents d) head -> ahead (contents d') head) ->
  (forall g, f' = Some g -> live d' (f_journal g)) -> node_inv (mkNode d' f' issued).
Proof.
  intros [Hb Hi _ Ho] Hb' Hkeep Hl. constructor; cbn in *; [done| |done|done].
  eapply Forall_impl; [exact Hi|]. cbn. auto.
Qed.

Lemma node_step_inv n n' : node_step n n' -> node_inv n -> node_inv n'.
Proof.
  intros [d f d' issued E|d f issued height tip status j d' E|d f issued height tip block r f' d' E
         |d f issued signer|d f issued|d f issued batch sync ok d' Hk E|d f issued d' [Hr1 Hr2]] Hinv;
    pose proof Hinv as [Hb Hi Hl Ho]; cbn [n_db n_finalizer n_issued] in *.
  - unfold open_finalizer in E. destruct (open_journal _ _ _ _) as [j d1] eqn:Ej. injection E as <- <-.
    destruct (open_journal_effect _ _ _ Hb Ej) as (H1 & H2 & H3). eapply node_inv_keep; [done..|].
    intros g. destruct j as [j|]; cbn [outcome_bind]; [|done]. destruct (_ || _); [done|]. intros [= <-]. by apply H3.
  - destruct (CheckCanonicalTip_effect _ _ _ _ _ _ _ (Hl f eq_refl) E) as [(H1 & H2 & H3) _].
    eapply node_inv_keep; [done|auto|done|]. by intros g [= <-].
  - destruct (SignFinality_effect _ _ _ _ _ _ _ _ (Hl f eq_refl) E) as [(H1 & H2 & H3) Hc].
    constructor; cbn; [auto| |by intros g [= <-]|].
    + apply Forall_app. split; [apply Forall_forall; intros c; apply Hc|]. eapply Forall_impl; [exact Hi|]. cbn. auto.
    + assert (Hnew : forall c1 c2, c1 ∈ issued_by r -> c2 ∈ issued -> cert_height c1 = cert_height c2 -> head_of c1 = head_of c2).
      { intros c1 c2 H1' H2' Eh. symmetry. apply (Hc c1 H1'); [by apply (proj1 (Forall_forall _ _) Hi)|done]. }
      assert (Hone : forall c1 c2, c1 ∈ issued_by r -> c2 ∈ issued_by r -> c1 = c2).
      { intros c1 c2 H1' H2'. unfold issued_by in *. destruct r as [res|]; [|by apply elem_of_nil in H1'].
        destruct (sr_certificate res) as [c|]; [|by apply elem_of_nil in H1'].
        apply list_elem_of_singleton in H1' as ->, H2' as ->. done. }
      intros c1 c2 [H1'|H1']%elem_of_app [H2'|H2']%elem_of_app Eh.
      * by rewrite (Hone c1 c2).
      * by apply Hnew.
      * symmetry. by apply Hnew.
      * by apply Ho.
  - eapply node_inv_keep; [done..|]. intros g [= <-]. unfold EnableSigner.
    repeat case_match; cbn; exact (Hl f eq_refl).
  - eapply node_inv_keep; [done..|]. intros g [= <-]. exact (Hl f eq_refl).
  - apply write_other in E as [Hs Hn]; [|apply Hk; by left|apply Hk; by right; left].
    eapply node_inv_keep; [done|auto| |].
    + intros head. by apply ahead_same.
    + intros g Hg. eapply live_same; [done|]. by apply Hl.
  - constructor; cbn; [| |done|done].
    + intros m head Hm Hmeta Eh. rewrite (Hr2 m Hm). by apply ahead_refl.
    + eapply Forall_impl; [exact Hi|]. cbn. intros c (Hm & h & Eh & Hle).
      eapply ahead_trans; [|exact Hle]. by apply Hb.
Qed.

Lemma reachable_inv n n' : node_initial n -> rtc node_step n n' -> node_inv n'.
Proof.
  intros H0%initial_inv Hs. induction Hs as [|n1 n2 n3 Hs _ IH]; [done|]. apply IH. by eapply node_step_inv.
Qed.

(** C3: the finalizer never certifies two blocks at one height: over any run
    of the node, through failed and uncertain writes, crashes, restarts and a
    store that other components write to, the certificates it has issued for
    one height all name the same block and the same parent. *)
Theorem finalizer_never_equivocates n n' c1 c2 : node_initial n -> rtc node_step n n' ->
  c1 ∈ n_issued n' -> c2 ∈ n_issued n' -> cert_height c1 = cert_height c2 ->
  cert_block_id c1 = cert_block_id c2 /\ cert_parent_block_id c1 = cert_parent_block_id c2.
Proof.
  intros H0 Hs H1 H2 Hh. pose proof (ni_once _ (reachable_inv _ _ H0 Hs) _ _ H1 H2 Hh) as E.
  by injection E as _ -> ->.
Qed.
End node.

(** ** What is signed *)

Section signing.
Context `{CryptoOps} `{LevelDB}.

(** A certificate that [SignFinality] returns is accepted by every node:
    it verifies for the very block it was asked to sign, under the finalizer's
    public key and network. *)
Theorem SignFinality_certificate_verifies f d height tip block r f' d' c :
  key_usable POA_FINALIZER (f_public_key f) = true -> SignFinality f d height tip block = (r, f', d') -> c ∈ issued_by r ->
  VerifyPoaCertificateForBlock c (f_public_key f) (f_network_binding f) block = Ret true.
Proof.
  intros Hk E Hc. unfold SignFinality in E.
  destruct (SerializeBlock block) as [[lb|]|] eqn:Es; [|injection E as <- <- <-; by apply elem_of_nil in Hc..].
  destruct (ComputeBlockId block) as [id|] eqn:Ei; [|injection E as <- <- <-; by apply elem_of_nil in Hc].
  destruct (IsNull id) eqn:En; [injection E as <- <- <-; by apply elem_of_nil in Hc|].
  destruct (f_signer f) as [signer|]; [|injection E as <- <- <-; by apply elem_of_nil in Hc].
  destruct (j_halted _); [injection E as <- <- <-; by apply elem_of_nil in Hc|].
  destruct (CheckCanonicalTip _ _ _ _) as [[st1 j1] d1]. cbv zeta in E.
  destruct (negb _); [injection E as <- <- <-; by apply elem_of_nil in Hc|].
  destruct (PrepareToSign _ _ _ _ _) as [[st2 j2] d2].
  destruct (negb _ && negb _); [injection E as <- <- <-; by apply elem_of_nil in Hc|].
  injection E as <- <- <-. unfold sign_prepared in Hc. cbv zeta in Hc. cbn [f_network_binding f_public_key set_journal] in Hc.
  destruct (ComputePoaFinalityDigest _ _ _ _) as [digest|] eqn:Ed; cbn [outcome_bind] in Hc; [|by apply elem_of_nil in Hc].
  destruct (signer_Sign _ _) as [s|]; [|by apply elem_of_nil in Hc].
  destruct (VerifyIdentityMessage _ _ _) eqn:Ev; cbn [negb] in Hc; [|by apply elem_of_nil in Hc].
  destruct (CreateCertificate _ _ _ _ _) as [c'|] eqn:E; [|by apply elem_of_nil in Hc].
  unfold CreateCertificate in E. walk_step E. cbv zeta in E. walk E. some_inj E. apply list_elem_of_singleton in Hc as ->.
  unfold VerifyPoaCertificateForBlock. rewrite Es. cbn [outcome_bind]. rewrite Ei. cbn [outcome_bind]. rewrite En.
  apply VerifyPoaFinalityCertificate_true. unfold SerializePoaFinalityCertificate in Hif0. walk Hif0. guards.
  split_and!; [done..|]. by exists digest.
Qed.

(** The block can be signed: it has its encoding and its id, and the signer
    answers its digest with a signature that verifies. *)
Record signable (f : PoaFinalizer) (block : CybouBlock) (id : Hash256) (signature : IdentityHybridSignature) : Prop := {
  sg_bytes : exists l, SerializeBlock block = Ret (Some l);
  sg_id : ComputeBlockId block = Ret id;
  sg_bound : IsNull (f_network_binding f) = false /\ IsNull id = false /\ IsNull (blk_parent_block_id block) = false;
  sg_height : 0 < blk_height block <= MAX64;
  sg_answer : exists signer digest, f_signer f = Some signer /\
    ComputePoaFinalityDigest (f_network_binding f) id (blk_height block) (blk_parent_block_id block) = Ret digest /\
    signer_Sign signer (arr_val digest) = Some signature /\ VerifyIdentityMessage (f_public_key f) signature (arr_val digest) = true;
  sg_purpose : purpose (f_public_key f) = POA_FINALIZER;
  sg_parts : has_nonzero (arr_val (sig_ed25519 signature)) = true /\ has_nonzero (sig_ml_dsa signature) = true;
}.
Lemma sign_prepared_signs f block id signature : signable f block id signature ->
  exists signer c, f_signer f = Some signer /\
    (forall j status, sign_prepared (set_journal f j) signer status block id
     = Ret (mkSigningResult (if bool_decide (status = JS_ALREADY_PREPARED) then PS_ALREADY_PREPARED else PS_SIGNED) status (Some c))) /\
    cert_block_id c = id /\ head_of c = mkJournalHead (blk_height block) (blk_parent_block_id block) id.
Proof.
  intros [_ _ (Hnet & En & Hpn) Hh (signer & digest & Hs & Ed & Esig & Ev) Hpurpose [Hn1 Hn2]].
  exists signer, (mkCertificate (f_network_binding f) id (blk_height block) (blk_parent_block_id block) signature).
  split; [done|]. split; [|done]. intros j status. unfold sign_prepared. cbn [f_network_binding f_public_key set_journal].
  rewrite Ed. cbn [outcome_bind]. rewrite Esig, Ev. cbn [negb]. unfold CreateCertificate.
  rewrite Hnet, En, Hpn, (proj2 (Z.eqb_neq _ 0)) by lia. cbn [orb]. unfold SerializePoaFinalityCertificate, ValidFields.
  cbn [cert_network_binding cert_block_id cert_height cert_parent_block_id cert_signature].
  assert (Hsize : zlen (sig_ml_dsa signature) = 3309).
  { unfold VerifyIdentityMessage in Ev. rewrite Hpurpose in Ev. walk_step Ev. guards. done. }
  by rewrite Hnet, En, Hpn, Hn1, Hn2, Hsize, (proj2 (Z.eqb_neq _ 0)) by lia.
Qed.
(** [SignFinality] once the canonical tip has been accepted. *)
Lemma SignFinality_at_tip f d height tip block id signature : signable f block id signature -> j_halted (f_journal f) = false ->
  CheckCanonicalTip (f_journal f) d height tip = (JS_NONE, set_verified (f_journal f) height tip, d) ->
  exists signer, f_signer f = Some signer /\
    SignFinality f d height tip block =
    (let '(status, j, d) := PrepareToSign (set_verified (f_journal f) height tip) d (blk_height block) (blk_parent_block_id block) id in
     if negb (bool_decide (status = JS_NONE)) && negb (bool_decide (status = JS_ALREADY_PREPARED))
     then (Ret (mkSigningResult PS_JOURNAL_REJECTED status None), set_journal f j, d)
     else (sign_prepared (set_journal f j) signer status block id, set_journal f j, d)).
Proof.
  intros [(l & Eb) Ei (_ & En & _) _ (signer & _ & Hs & _) _ _] Hh Ec. exists signer. split; [done|].
  unfold SignFinality. rewrite Eb, Ei, En, Hs, Hh, Ec. cbv zeta. rewrite bool_decide_true by done. cbn [negb f_journal set_journal].
  destruct (PrepareToSign _ _ _ _ _) as [[status j] d1]. by destruct (_ && _).
Qed.

(** The journal stands at the canonical tip. *)
Lemma SignFinality_level f d block id signature d' : signable f block id signature -> j_halted (f_journal f) = false ->
  blk_height block = jh_height (j_head (f_journal f)) + 1 -> blk_parent_block_id block = jh_block_id (j_head (f_journal f)) ->
  (jh_height (j_head (f_journal f)) = 0 -> jh_block_id (j_head (f_journal f)) = j_genesis_anchor (f_journal f)) ->
  kv_Write d (j_prefix (f_journal f) ++ str "head")
    (EncodeHead (mkJournalHead (blk_height block) (blk_parent_block_id block) id)) true = (true, d') ->
  exists f' c, SignFinality f d (blk_height block - 1) (blk_parent_block_id block) block
      = (Ret (mkSigningResult PS_SIGNED JS_NONE (Some c)), f', d') /\
    cert_block_id c = id /\ j_head (f_journal f') = head_of c /\ j_halted (f_journal f') = false.
Proof.
  intros Hs Hh Hb Hp Hg Ew. pose proof (sg_height _ _ _ _ Hs) as Hr. pose proof (sg_bound _ _ _ _ Hs) as (_ & En & Hpn).
  assert (Ec : CheckCanonicalTip (f_journal f) d (blk_height block - 1) (blk_parent_block_id block)
    = (JS_NONE, set_verified (f_journal f) (blk_height block - 1) (blk_parent_block_id block), d)).
  { unfold CheckCanonicalTip. rewrite Hh, Hb, Z.add_simpl_r, Hp, Z.eqb_refl.
    destruct (Z.eqb_spec (jh_height (j_head (f_journal f))) 0) as [Ez|]; [|by rewrite bool_decide_true].
    by rewrite Ez, (bool_decide_true _ (Hg Ez)). }
  destruct (SignFinality_at_tip f d _ _ block id signature Hs Hh Ec) as (signer & Hsig & ->).
  destruct (sign_prepared_signs f block id signature Hs) as (signer' & c & Es & Ep & C1 & C2). rewrite Hsig in Es. injection Es as <-.
  unfold PrepareToSign, set_verified. cbn [j_halted j_history_verified j_head j_verified_height j_verified_tip j_prefix].
  rewrite Hh, Hpn, En, (proj2 (Z.eqb_neq (blk_height block) 0)), (proj2 (Z.eqb_neq (blk_height block) (jh_height _))) by lia.
  rewrite (proj2 (Z.eqb_neq _ MAX64)), add64_small, <- Hb, Z.eqb_refl by lia.
  rewrite (proj2 (Z.eqb_eq (blk_height block - 1) _)) by lia. cbn [orb negb].
  rewrite !bool_decide_true by done. cbn [orb negb]. rewrite Ew, bool_decide_true by done. cbn [negb andb].
  eexists _, c. split; [by rewrite Ep|]. by rewrite C2.
Qed.
(** The journal is one ahead of the canonical tip. *)
Lemma SignFinality_ahead f d block id signature : signable f block id signature -> j_halted (f_journal f) = false ->
  jh_height (j_head (f_journal f)) = blk_height block -> jh_parent_block_id (j_head (f_journal f)) = blk_parent_block_id block ->
  (jh_block_id (j_head (f_journal f)) = id ->
   exists f' c, SignFinality f d (blk_height block - 1) (blk_parent_block_id block) block
       = (Ret (mkSigningResult PS_ALREADY_PREPARED JS_ALREADY_PREPARED (Some c)), f', d) /\
     cert_block_id c = id /\ j_head (f_journal f') = head_of c /\ j_halted (f_journal f') = false) /\
  (jh_block_id (j_head (f_journal f)) <> id ->
   exists status f' d', SignFinality f d (blk_height block - 1) (blk_parent_block_id block) block
       = (Ret (mkSigningResult PS_JOURNAL_REJECTED status None), f', d') /\ j_halted (f_journal f') = true).
Proof.
  intros Hs Hh Hb Hp. pose proof (sg_height _ _ _ _ Hs) as Hr. pose proof (sg_bound _ _ _ _ Hs) as (_ & En & Hpn).
  assert (Ec : CheckCanonicalTip (f_journal f) d (blk_height block - 1) (blk_parent_block_id block)
    = (JS_NONE, set_verified (f_journal f) (blk_height block - 1) (blk_parent_block_id block), d)).
  { unfold CheckCanonicalTip. rewrite Hh, Hb, Hp, (proj2 (Z.eqb_neq (blk_height block) 0)), (proj2 (Z.eqb_neq (_ - 1) (blk_height block))),
      (proj2 (Z.eqb_neq _ MAX64)), add64_small, Z.sub_add, Z.eqb_refl by ulia. by rewrite bool_decide_true. }
  destruct (SignFinality_at_tip f d _ _ block id signature Hs Hh Ec) as (signer & Hsig & ->).
  destruct (sign_prepared_signs f block id signature Hs) as (signer' & c & Es & Ep & C1 & C2). rewrite Hsig in Es. injection Es as <-.
  unfold PrepareToSign, set_verified. cbn [j_halted j_history_verified j_head j_verified_height j_verified_tip j_prefix].
  rewrite Hh, Hpn, En, Hb, Hp, (proj2 (Z.eqb_neq (blk_height block) 0)), Z.eqb_refl by lia. cbn [orb negb].
  rewrite (bool_decide_true (blk_parent_block_id block = _)) by done. cbn [andb]. split; intros Hid.
  - rewrite bool_decide_true by done. rewrite (bool_decide_false (JS_ALREADY_PREPARED = JS_NONE)), bool_decide_true by done. cbn [negb andb].
    eexists _, c. split; [by rewrite Ep|]. rewrite C1, C2, <- Hb, <- Hp. split_and!; [done| |done]. rewrite <- Hid. cbn.
    by destruct (j_head (f_journal f)).
  - rewrite bool_decide_false by done. unfold PersistHalt. cbv zeta. destruct (kv_Write _ _ _ _) as [ok d1].
    destruct ok; by eexists _, _, _.
Qed.

(** C36: progress. While the journal is not halted, a block that can be signed
    is signed in the two situations the journal and the canonical tip can be
    in. The journal stands at the tip, and the block extends it: the block is
    signed as soon as the store accepts the write, and the journal then stands
    at the block, ready for the next. The journal is one ahead of the tip, since
    a block it prepared was not committed: that block is signed again, as
    already prepared, without a write; any other block of that height and parent
    is refused, and the journal halts. *)
Theorem SignFinality_progress f d block id signature : signable f block id signature -> j_halted (f_journal f) = false ->
  (forall d', blk_height block = jh_height (j_head (f_journal f)) + 1 ->
     blk_parent_block_id block = jh_block_id (j_head (f_journal f)) ->
     (jh_height (j_head (f_journal f)) = 0 -> jh_block_id (j_head (f_journal f)) = j_genesis_anchor (f_journal f)) ->
     kv_Write d (j_prefix (f_journal f) ++ str "head")
       (EncodeHead (mkJournalHead (blk_height block) (blk_parent_block_id block) id)) true = (true, d') ->
     exists f' c, SignFinality f d (blk_height block - 1) (blk_parent_block_id block) block
         = (Ret (mkSigningResult PS_SIGNED JS_NONE (Some c)), f', d') /\
       cert_block_id c = id /\ j_head (f_journal f') = head_of c /\ j_halted (f_journal f') = false) /\
  (jh_height (j_head (f_journal f)) = blk_height block -> jh_parent_block_id (j_head (f_journal f)) = blk_parent_block_id block ->
     (jh_block_id (j_head (f_journal f)) = id ->
      exists f' c, SignFinality f d (blk_height block - 1) (blk_parent_block_id block) block
          = (Ret (mkSigningResult PS_ALREADY_PREPARED JS_ALREADY_PREPARED (Some c)), f', d) /\
        cert_block_id c = id /\ j_head (f_journal f') = head_of c /\ j_halted (f_journal f') = false) /\
     (jh_block_id (j_head (f_journal f)) <> id ->
      exists status f' d', SignFinality f d (blk_height block - 1) (blk_parent_block_id block) block
          = (Ret (mkSigningResult PS_JOURNAL_REJECTED status None), f', d') /\ j_halted (f_journal f') = true)).
Proof.
  intros Hs Hh. split; [|exact (SignFinality_ahead f d block id signature Hs Hh)].
  intros d'. exact (SignFinality_level f d block id signature d' Hs Hh).
Qed.
End signing.
