(* ===== verification/Detector.v ===== *)
(** * The conflict detector

    [src/src/cybou/poa_conflict_detector.cpp]: every node records the first
    certificate it sees for a height and parent, and turns a second one into
    durable evidence of equivocation and a choice of the smaller block id. *)

From S2P Require Import Prelude.
From S2P Require Import Bytes.
From S2P Require Import Codec.
From S2P Require Import Utf8.
From S2P Require Import Crypto.
From S2P Require Import Block.
From S2P Require Import KVStore.
From S2P Require Import Journal.

(** ** Data *)

Inductive PoaConflictStatus : Type :=
| PC_OBSERVED | PC_ALREADY_OBSERVED | PC_SAFETY_CONFLICT | PC_COMPETING_NON_CANONICAL | PC_CANONICAL_REORG_REQUIRED
| PC_INVALID_CERTIFICATE | PC_ALREADY_HALTED | PC_CORRUPT_STORAGE | PC_STORAGE_ERROR.
#[export] Instance PoaConflictStatus_eq_dec : EqDecision PoaConflictStatus.
Proof. solve_decision. Defined.
Inductive PoaEvidenceReadStatus : Type := ER_NOT_HALTED | ER_EQUIVOCATION | ER_HALTED_CORRUPT_STORAGE | ER_UNAVAILABLE.

Record PoaEquivocationEvidence : Type := mkEvidence {
  ev_first : PoaFinalityCertificate;
  ev_second : PoaFinalityCertificate;
}.
Record PoaEvidenceReadResult : Type := mkEvidenceResult {
  er_status : PoaEvidenceReadStatus;
  er_equivocation : option PoaEquivocationEvidence;
}.
Record PoaConflictDetector : Type := mkDetector {
  pd_network_binding : Hash256;
  pd_key : IdentityHybridPublicKey;
  pd_prefix : bytes;
  pd_halted : bool;
}.
Definition halt_detector (p : PoaConflictDetector) :=
  mkDetector (pd_network_binding p) (pd_key p) (pd_prefix p) true.

(** ** Keys and records *)

Definition HALT_CORRUPT_STORAGE : Z := 1.
Definition HALT_EQUIVOCATION : Z := 2.
Definition EQUIVOCATION_RECORD_SIZE : Z := 1 + 2 * POA_FINALITY_CERTIFICATE_SIZE.

Definition Hex (l : bytes) : bytes :=
  mjoin ((fun b => [hex_digit (Z.shiftr (zb b) 4); hex_digit (Z.land (zb b) 15)]) <$> l).
Definition ObservationKey (prefix : bytes) (certificate : PoaFinalityCertificate) : bytes :=
  prefix ++ str "observed/" ++ Hex (le_bytes 8 (cert_height certificate)) ++ str "/"
  ++ Hex (arr_val (cert_parent_block_id certificate)).
Definition detector_prefix (network_binding : Hash256) (key_id : IdentityKeyId) : bytes :=
  str "poa-conflict-detector/" ++ Hex (arr_val network_binding) ++ str "/" ++ Hex (arr_val key_id) ++ str "/".

Section detector.
Context `{CryptoOps} `{LevelDB}.

(** [a && b] over calls that can throw. *)
Definition and_then (a b : outcome bool) : outcome bool := try! v := a ;; if v then b else Ret false.

Definition ValidConflictRecord (record : bytes) (network_binding : Hash256) (finalizer_key : IdentityHybridPublicKey)
    : outcome bool :=
  return_if negb (zlen record =? EQUIVOCATION_RECORD_SIZE) || negb (le_val (subspan record 0 1) =? HALT_EQUIVOCATION)
    with Ret false ;;
  let cert_size := POA_FINALITY_CERTIFICATE_SIZE in
  let first := DeserializePoaFinalityCertificate (subspan record 1 cert_size) in
  let second := DeserializePoaFinalityCertificate (subspan record (1 + cert_size) cert_size) in
  let? first := first else Ret false ;;
  let? second := second else Ret false ;;
  return_if negb (bool_decide (cert_network_binding first = network_binding)
    && bool_decide (cert_network_binding second = network_binding) && (cert_height first =? cert_height second)
    && bool_decide (cert_parent_block_id first = cert_parent_block_id second)
    && negb (bool_decide (cert_block_id first = cert_block_id second))) with Ret false ;;
  and_then (VerifyPoaFinalityCertificate first finalizer_key network_binding (cert_block_id first) (cert_height first)
              (cert_parent_block_id first))
           (VerifyPoaFinalityCertificate second finalizer_key network_binding (cert_block_id second) (cert_height second)
              (cert_parent_block_id second)).

(** ** The constructor *)

Definition load_detector (d : db) (network_binding : Hash256) (key : IdentityHybridPublicKey) (key_id : IdentityKeyId)
    (metadata expected_metadata : bytes) : outcome PoaConflictDetector :=
  let prefix := detector_prefix network_binding key_id in
  return_if negb (bool_decide (metadata = expected_metadata)) with Throw ;;
  try! halt := kv_Read (T := bytes) d (prefix ++ str "halt") ;;
  match halt with
  | Some halt =>
      let valid_reason_only := bool_decide (halt = [bz HALT_CORRUPT_STORAGE]) in
      try! valid := (if valid_reason_only then Ret true else ValidConflictRecord halt network_binding key) ;;
      return_if negb valid with Throw ;;
      Ret (mkDetector network_binding key prefix valid_reason_only)
  | None =>
      try! corrupt := kv_Exists d (prefix ++ str "halt") ;;
      return_if corrupt with Throw ;;
      Ret (mkDetector network_binding key prefix false)
  end.
Definition open_detector (d : db) (network_binding : Hash256) (key : IdentityHybridPublicKey)
    : outcome PoaConflictDetector * db :=
  let? key_id := ComputePoaFinalizerKeyId key else (Throw, d) ;;
  return_if IsNull network_binding with (Throw, d) ;;
  let prefix := detector_prefix network_binding key_id in
  let expected_metadata := arr_val network_binding ++ arr_val key_id in
  match kv_Read (T := bytes) d (prefix ++ str "metadata") with
  | Throw => (Throw, d)
  | Ret (Some metadata) => (load_detector d network_binding key key_id metadata expected_metadata, d)
  | Ret None =>
      match or_else (kv_Exists d (prefix ++ str "metadata")) (kv_Exists d (prefix ++ str "halt")) with
      | Throw | Ret true => (Throw, d)
      | Ret false =>
          let (ok, d) := kv_Write d (prefix ++ str "metadata") expected_metadata true in
          (if ok then Ret (mkDetector network_binding key prefix false) else Throw, d)
      end
  end.

(** ** Operations *)

Definition PersistHaltRecord (p : PoaConflictDetector) (d : db) (record : bytes) : bool * PoaConflictDetector * db :=
  let p := halt_detector p in
  let (ok, d) := kv_Write d (pd_prefix p ++ str "halt") record true in
  (ok, p, d).

(** The two places that find a damaged record. *)
Definition corrupt_storage (p : PoaConflictDetector) (d : db) : outcome PoaConflictStatus * PoaConflictDetector * db :=
  let '(ok, p, d) := PersistHaltRecord p d [bz HALT_CORRUPT_STORAGE] in
  (Ret (if ok then PC_CORRUPT_STORAGE else PC_STORAGE_ERROR), p, d).

(** The record found at the key is the certificate it should be. *)
Definition previous_ok (p : PoaConflictDetector) (certificate previous : PoaFinalityCertificate) : outcome bool :=
  return_if negb (bool_decide (cert_network_binding previous = pd_network_binding p))
    || negb (cert_height previous =? cert_height certificate)
    || negb (bool_decide (cert_parent_block_id previous = cert_parent_block_id certificate)) with Ret false ;;
  VerifyPoaFinalityCertificate previous (pd_key p) (pd_network_binding p) (cert_block_id previous) (cert_height previous)
    (cert_parent_block_id previous).

(** Evidence first, then the smaller block id becomes the observation. *)
Definition record_conflict (p : PoaConflictDetector) (d : db) (observation_key previous_bytes encoded : bytes)
    (certificate previous : PoaFinalityCertificate) : outcome PoaConflictStatus * PoaConflictDetector * db :=
  let evidence := [bz HALT_EQUIVOCATION] ++ previous_bytes ++ encoded in
  let (ok, d) := kv_Write d (pd_prefix p ++ str "halt") evidence true in
  return_if negb ok with (Ret PC_STORAGE_ERROR, halt_detector p, d) ;;
  if alt (cert_block_id certificate) (cert_block_id previous) then
    let (ok, d) := kv_Write d observation_key encoded true in
    return_if negb ok with (Ret PC_STORAGE_ERROR, halt_detector p, d) ;;
    (Ret PC_CANONICAL_REORG_REQUIRED, p, d)
  else (Ret PC_COMPETING_NON_CANONICAL, p, d).

Definition Observe (p : PoaConflictDetector) (d : db) (certificate : PoaFinalityCertificate) (block : CybouBlock)
    : outcome PoaConflictStatus * PoaConflictDetector * db :=
  let? encoded := SerializePoaFinalityCertificate certificate else (Ret PC_INVALID_CERTIFICATE, p, d) ;;
  match VerifyPoaCertificateForBlock certificate (pd_key p) (pd_network_binding p) block with
  | Throw => (Throw, p, d)
  | Ret false => (Ret PC_INVALID_CERTIFICATE, p, d)
  | Ret true =>
      return_if pd_halted p with (Ret PC_ALREADY_HALTED, p, d) ;;
      let observation_key := ObservationKey (pd_prefix p) certificate in
      match kv_Read (T := bytes) d observation_key with
      | Throw => (Throw, p, d)
      | Ret None =>
          match kv_Exists d observation_key with
          | Throw => (Throw, p, d)
          | Ret true => corrupt_storage p d
          | Ret false =>
              let (ok, d) := kv_Write d observation_key encoded true in
              if ok then (Ret PC_OBSERVED, p, d) else (Ret PC_STORAGE_ERROR, halt_detector p, d)
          end
      | Ret (Some previous_bytes) =>
          match DeserializePoaFinalityCertificate previous_bytes with
          | None => corrupt_storage p d
          | Some previous =>
              match previous_ok p certificate previous with
              | Throw => (Throw, p, d)
              | Ret false => corrupt_storage p d
              | Ret true =>
                  return_if bool_decide (cert_block_id previous = cert_block_id certificate)
                    with (Ret PC_ALREADY_OBSERVED, p, d) ;;
                  record_conflict p d observation_key previous_bytes encoded certificate previous
              end
          end
      end
  end.

(** A read that throws is caught here; the signature checks are not. *)
Definition ReadSafetyEvidence (p : PoaConflictDetector) (d : db) : outcome PoaEvidenceReadResult * PoaConflictDetector :=
  let unavailable := mkEvidenceResult ER_UNAVAILABLE None in
  match kv_Read (T := bytes) d (pd_prefix p ++ str "halt") with
  | Throw => (Ret unavailable, p)
  | Ret None =>
      match or_else (Ret (pd_halted p)) (kv_Exists d (pd_prefix p ++ str "halt")) with
      | Throw | Ret true => (Ret unavailable, p)
      | Ret false => (Ret (mkEvidenceResult ER_NOT_HALTED None), p)
      end
  | Ret (Some record) =>
      return_if bool_decide (record = [bz HALT_CORRUPT_STORAGE])
        with (Ret (mkEvidenceResult ER_HALTED_CORRUPT_STORAGE None), halt_detector p) ;;
      match ValidConflictRecord record (pd_network_binding p) (pd_key p) with
      | Throw => (Throw, p)
      | Ret false => (Ret unavailable, halt_detector p)
      | Ret true =>
          let cert_size := POA_FINALITY_CERTIFICATE_SIZE in
          let first := DeserializePoaFinalityCertificate (subspan record 1 cert_size) in
          let second := DeserializePoaFinalityCertificate (subspan record (1 + cert_size) cert_size) in
          match first, second with
          | Some first, Some second => (Ret (mkEvidenceResult ER_EQUIVOCATION (Some (mkEvidence first second))), p)
          | _, _ => (Ret unavailable, halt_detector p)
          end
      end
  end.
End detector.

(** * What the conflict detector guarantees

    Over any sequence of certificates a detector keeps, for every height and
    parent, the certificate of the smallest block id, so two nodes that saw
    the same certificates choose the same block; evidence of equivocation is
    written before the choice and cannot be read unless it is real. *)

(** ** Keys *)

Lemma Hex_inj a b : Hex a = Hex b -> a = b.
Proof. intros E%(f_equal hex_pairs). unfold Hex in E. rewrite !hex_pairs_GetHex in E. by some_inj E. Qed.
Lemma zlen_Hex l : zlen (Hex l) = 2 * zlen l.
Proof.
  induction l as [|b l IH]; [done|]. unfold Hex in *. rewrite fmap_cons, mjoin_cons, zlen_app, IH, !zlen_cons, (zlen_nil (A := byte)). lia.
Qed.
(** The key of an observation names its height and parent. *)
Definition slot : Type := Z * Hash256.
Definition slot_of (c : PoaFinalityCertificate) : slot := (cert_height c, cert_parent_block_id c).
Definition slot_key (prefix : bytes) (s : slot) : bytes :=
  prefix ++ str "observed/" ++ Hex (le_bytes 8 s.1) ++ str "/" ++ Hex (arr_val s.2).
Lemma zlen_slot_key prefix s : zlen (slot_key prefix s) = zlen prefix + 90.
Proof. unfold slot_key. rewrite !zlen_app, !zlen_Hex, zlen_le_bytes, zlen_arr. done. Qed.
Lemma slot_key_inj prefix s1 s2 : is_u64 s1.1 -> is_u64 s2.1 -> slot_key prefix s1 = slot_key prefix s2 -> s1 = s2.
Proof.
  destruct s1 as [h1 p1], s2 as [h2 p2]. cbn [fst snd]. intros H1 H2 E. unfold slot_key in E. cbn [fst snd] in E.
  apply (inj (app _)), (inj (app _)), app_inj_1 in E as [Eh E].
  - apply Hex_inj in Eh. apply (f_equal le_val) in Eh. rewrite !le_val_u64 in Eh by done. subst. f_equal.
    apply (inj (app _)) in E. by apply Hex_inj, arr_eq in E.
  - apply Nat2Z.inj. change (zlen (Hex (le_bytes 8 h1)) = zlen (Hex (le_bytes 8 h2))). by rewrite !zlen_Hex, !zlen_le_bytes.
Qed.
Lemma slot_key_not_halt prefix s : slot_key prefix s <> prefix ++ str "halt".
Proof. intros E. apply (f_equal zlen) in E. rewrite zlen_slot_key, zlen_app in E. change (zlen (str "halt")) with 4 in E. lia. Qed.

(** ** The detector's state *)

(** The certificate held for a slot. *)
Definition observed (p : PoaConflictDetector) (m : gmap bytes bytes) (s : slot) : option PoaFinalityCertificate :=
  let? l := stored (T := bytes) m (slot_key (pd_prefix p) s) else None ;;
  DeserializePoaFinalityCertificate l.

(** The certificate a detector should hold after it saw [c]. *)
Definition pick (old : option PoaFinalityCertificate) (c : PoaFinalityCertificate) : PoaFinalityCertificate :=
  match old with
  | None => c
  | Some o => if alt (cert_block_id c) (cert_block_id o) then c else o
  end.
Definition accepted (s : PoaConflictStatus) : bool :=
  match s with
  | PC_OBSERVED | PC_ALREADY_OBSERVED | PC_COMPETING_NON_CANONICAL | PC_CANONICAL_REORG_REQUIRED => true
  | _ => false
  end.

Definition conflict (s : PoaConflictStatus) : bool :=
  match s with PC_COMPETING_NON_CANONICAL | PC_CANONICAL_REORG_REQUIRED => true | _ => false end.

Section proofs.
Context `{CryptoOps} {L : LevelDB} {Laws : LevelDBLaws L}.
#[local] Set Default Proof Using "Type + Laws".

(** Writing the evidence or the observation of one slot. *)
Lemma observed_write_slot p d s c l sync d' : is_u64 s.1 ->
  DeserializePoaFinalityCertificate l = Some c -> zlen l = POA_FINALITY_CERTIFICATE_SIZE ->
  kv_Write d (slot_key (pd_prefix p) s) l sync = (true, d') ->
  observed p (contents d') s = Some c /\
  forall s', is_u64 s'.1 -> s' <> s -> observed p (contents d') s' = observed p (contents d) s'.
Proof.
  intros Hs Hl Hz E. apply kv_Write_contents in E. rewrite E. unfold observed, stored. split.
  - rewrite lookup_insert_eq. cbn [rec_Encode rec_Decode bytes_record]. rewrite DecodeBytes_Encode; [done|].
    rewrite Hz. done.
  - intros s' Hs' Hne. rewrite lookup_insert_ne; [done|]. intros Ek%(inj EncodeBytes). apply slot_key_inj in Ek; done.
Qed.
Lemma observed_write_halt p d l sync d' : kv_Write d (pd_prefix p ++ str "halt") (l : bytes) sync = (true, d') ->
  forall s, observed p (contents d') s = observed p (contents d) s.
Proof.
  intros E s. apply kv_Write_contents in E. rewrite E. unfold observed, stored. rewrite lookup_insert_ne; [done|].
  intros Ek%(inj EncodeBytes). by apply eq_sym, slot_key_not_halt in Ek.
Qed.

(** One accepted certificate. *)
Lemma Observe_pick p d c block status p' d' : is_u64 (cert_height c) ->
  Observe p d c block = (Ret status, p', d') -> accepted status = true ->
  p' = p /\ observed p (contents d') (slot_of c) = Some (pick (observed p (contents d) (slot_of c)) c) /\
  forall s, is_u64 s.1 -> s <> slot_of c -> observed p (contents d') s = observed p (contents d) s.
Proof.
  intros Hu E Ha. unfold Observe in E. walk_step E; [|by injection E as <- <- <-].
  destruct (VerifyPoaCertificateForBlock _ _ _ _) as [[]|]; [|by injection E as <- <- <-|done].
  walk_step E; [by injection E as <- <- <-|]. cbv zeta in E.
  assert (Hkey : ObservationKey (pd_prefix p) c = slot_key (pd_prefix p) (slot_of c)) by done. rewrite Hkey in E.
  destruct (certificate_decode c l Hu Hopt) as [Hdec Hsize].
  assert (Hcorrupt : forall st q e, corrupt_storage p d = (Ret st, q, e) -> accepted st = false).
  { intros st q e Ec. unfold corrupt_storage in Ec. destruct (PersistHaltRecord _ _ _) as [[[] ?] ?]; by injection Ec as <- <- <-. }
  destruct (kv_Read d _) as [[lp|]|] eqn:Er; [| |done]; apply kv_Read_stored in Er.
  - destruct (DeserializePoaFinalityCertificate lp) as [o|] eqn:Ed; [|by apply Hcorrupt in E; rewrite E in Ha].
    assert (Ho : observed p (contents d) (slot_of c) = Some o) by (unfold observed; by rewrite <- Er).
    rewrite Ho. cbn [pick].
    destruct (previous_ok _ _ _) as [[]|]; [|by apply Hcorrupt in E; rewrite E in Ha|done].
    walk_step E; guards; [injection E as <- <- <-; split_and!; [done| |done]; by rewrite Ho, <- Hif0; unfold alt; rewrite blt_irrefl|].
    unfold record_conflict in E. cbv zeta in E.
    destruct (kv_Write _ _ _ _) as [[] d1] eqn:Ew; cbn [negb] in E; [|by injection E as <- <- <-].
    pose proof (observed_write_halt _ _ _ _ _ Ew) as Hh. walk_step E.
    + destruct (kv_Write d1 _ _ _) as [[] d2] eqn:Ew2; cbn [negb] in E; [|by injection E as <- <- <-].
      injection E as <- <- <-. destruct (observed_write_slot p d1 (slot_of c) c l true d2) as [H1 H2]; [done..|].
      split_and!; [done|done|]. intros s Hs Hne. rewrite H2 by done. apply Hh.
    + injection E as <- <- <-. split_and!; [done|by rewrite Hh|]. intros s _ _. apply Hh.
  - destruct (kv_Exists _ _) as [[]|] eqn:Ee; [by apply Hcorrupt in E; rewrite E in Ha| |done]. apply kv_Exists_contents in Ee.
    symmetry in Ee. guards.
    assert (Ho : observed p (contents d) (slot_of c) = None) by (unfold observed; by rewrite <- Er).
    rewrite Ho. cbn [pick].
    destruct (kv_Write _ _ _ _) as [[] d1] eqn:Ew; injection E as <- <- <-; [|done].
    destruct (observed_write_slot p d (slot_of c) c l true d1) as [H1 H2]; [done..|]. done.
Qed.

(** What each accepted answer says about the record found. *)
Lemma Observe_status p d c block status p' d' : Observe p d c block = (Ret status, p', d') ->
  let old := observed p (contents d) (slot_of c) in
  match status with
  | PC_OBSERVED => old = None
  | PC_ALREADY_OBSERVED => cert_block_id <$> old = Some (cert_block_id c)
  | PC_COMPETING_NON_CANONICAL => exists o, old = Some o /\ alt (cert_block_id c) (cert_block_id o) = false
  | PC_CANONICAL_REORG_REQUIRED => exists o, old = Some o /\ alt (cert_block_id c) (cert_block_id o) = true
  | _ => True
  end.
Proof.
  intros E. cbv zeta. unfold Observe in E. walk_step E; [|by injection E as <- <- <-].
  destruct (VerifyPoaCertificateForBlock _ _ _ _) as [[]|]; [|by injection E as <- <- <-|done].
  walk_step E; [by injection E as <- <- <-|]. cbv zeta in E.
  assert (Hcorrupt : forall st q e, corrupt_storage p d = (Ret st, q, e) -> st = PC_CORRUPT_STORAGE \/ st = PC_STORAGE_ERROR).
  { intros st q e Ec. unfold corrupt_storage in Ec. destruct (PersistHaltRecord _ _ _) as [[[] ?] ?]; injection Ec as <- <- <-; auto. }
  destruct (kv_Read d _) as [[lp|]|] eqn:Er; [| |done]; apply kv_Read_stored in Er.
  - destruct (DeserializePoaFinalityCertificate lp) as [o|] eqn:Ed; [|by destruct (Hcorrupt _ _ _ E) as [-> | ->]].
    assert (Ho : observed p (contents d) (slot_of c) = Some o)
      by (unfold observed; change (slot_key _ _) with (ObservationKey (pd_prefix p) c); by rewrite <- Er).
    destruct (previous_ok _ _ _) as [[]|]; [|by destruct (Hcorrupt _ _ _ E) as [-> | ->]|done].
    rewrite Ho. walk_step E; guards; [injection E as <- <- <-; by rewrite <- Hif0|].
    unfold record_conflict in E. cbv zeta in E.
    destruct (kv_Write _ _ _ _) as [[] d1]; cbn [negb] in E; [|by injection E as <- <- <-]. walk_step E.
    + destruct (kv_Write d1 _ _ _) as [[] d2]; cbn [negb] in E; injection E as <- <- <-; eauto.
    + injection E as <- <- <-. eauto.
  - destruct (kv_Exists _ _) as [[]|] eqn:Ee; [by destruct (Hcorrupt _ _ _ E) as [-> | ->]| |done].
    destruct (kv_Write _ _ _ _) as [[] d1]; injection E as <- <- <-; [|done].
    unfold observed. change (slot_key _ _) with (ObservationKey (pd_prefix p) c). by rewrite <- Er.
Qed.

(** Whatever happens, the record of a slot never becomes a larger id. *)
Lemma halt_write_keeps p d l sync ok d' s : kv_Write d (pd_prefix p ++ str "halt") (l : bytes) sync = (ok, d') ->
  observed p (contents d') s = observed p (contents d) s.
Proof. destruct ok; [intros E; by eapply observed_write_halt in E|]. intros E. by apply write_failed in E as ->. Qed.
Lemma corrupt_storage_keeps p d r p' d' s : corrupt_storage p d = (r, p', d') ->
  observed p (contents d') s = observed p (contents d) s.
Proof.
  intros E. unfold corrupt_storage, PersistHaltRecord in E. destruct (kv_Write _ _ _ _) as [ok d1] eqn:Ew. injection E as <- <- <-.
  exact (halt_write_keeps p d _ _ _ _ s Ew).
Qed.
Lemma Observe_monotone p d c block r p' d' s o : is_u64 (cert_height c) -> is_u64 s.1 -> Observe p d c block = (r, p', d') ->
  observed p (contents d) s = Some o ->
  exists o', observed p (contents d') s = Some o' /\ alt (cert_block_id o) (cert_block_id o') = false.
Proof.
  intros Hu Hs E Ho.
  assert (Hkeep : observed p (contents d') s = observed p (contents d) s ->
    exists o', observed p (contents d') s = Some o' /\ alt (cert_block_id o) (cert_block_id o') = false).
  { intros ->. exists o. split; [done|apply blt_irrefl]. }
  destruct r as [status|]; [destruct (accepted status) eqn:Ha|].
  - destruct (Observe_pick _ _ _ _ _ _ _ Hu E Ha) as (_ & Hslot & Hother). destruct (decide (s = slot_of c)) as [->|Hne]; [|auto].
    rewrite Hslot, Ho. eexists. split; [done|]. cbn [pick]. case_match; [by apply blt_asym|apply blt_irrefl].
  - apply Hkeep. unfold Observe in E. walk_step E; [|by injection E as <- <- <-].
    destruct (VerifyPoaCertificateForBlock _ _ _ _) as [[]|]; [|by injection E as <- <- <-|done].
    walk_step E; [by injection E as <- <- <-|]. cbv zeta in E.
    destruct (kv_Read d _) as [[lp|]|]; [| |done].
    + destruct (DeserializePoaFinalityCertificate lp); [|by eapply corrupt_storage_keeps].
      destruct (previous_ok _ _ _) as [[]|]; [|by eapply corrupt_storage_keeps|done].
      walk_step E; [by injection E as <- <- <-|]. unfold record_conflict in E. cbv zeta in E.
      destruct (kv_Write _ _ _ _) as [[] d1] eqn:Ew; apply (halt_write_keeps _ _ _ _ _ _ s) in Ew; cbn [negb] in E;
        [|by injection E as <- <- <-].
      walk_step E; [|by injection E as <- <- <-].
      destruct (kv_Write d1 _ _ _) as [[] d2] eqn:Ew2; injection E as <- <- <-; [done|]. apply write_failed in Ew2. by rewrite Ew2.
    + destruct (kv_Exists _ _) as [[]|]; [by eapply corrupt_storage_keeps| |done].
      destruct (kv_Write _ _ _ _) as [[] d1] eqn:Ew; injection E as <- <- <-; [done|]. apply write_failed in Ew. by rewrite Ew.
  - apply Hkeep. unfold Observe in E. walk_step E. destruct (VerifyPoaCertificateForBlock _ _ _ _) as [[]|]; [|done|by injection E as <- <-].
    walk_step E. cbv zeta in E. destruct (kv_Read d _) as [[lp|]|]; [| |by injection E as <- <-].
    + destruct (DeserializePoaFinalityCertificate lp); [|by eapply corrupt_storage_keeps].
      destruct (previous_ok _ _ _) as [[]|]; [|by eapply corrupt_storage_keeps|by injection E as <- <-].
      walk_step E. unfold record_conflict in E. cbv zeta in E. destruct (kv_Write _ _ _ _) as [[] d1]; [|done].
      cbn [negb] in E. destruct (alt _ _); [|done]. by destruct (kv_Write d1 _ _ _) as [[] d2].
    + destruct (kv_Exists _ _) as [[]|]; [by eapply corrupt_storage_keeps| |by injection E as <- <-].
      by destruct (kv_Write _ _ _ _) as [[] d1].
Qed.

(** ** Sequences of certificates *)

(** Every certificate is observed in turn and none is refused. *)
Fixpoint observe_run (p : PoaConflictDetector) (d : db) (l : list (PoaFinalityCertificate * CybouBlock))
    : option (PoaConflictDetector * db) :=
  match l with
  | [] => Some (p, d)
  | (c, block) :: l =>
      match Observe p d c block with
      | (Ret status, p, d) => if accepted status then observe_run p d l else None
      | _ => None
      end
  end.
Definition certificates_for (s : slot) (l : list (PoaFinalityCertificate * CybouBlock)) : list PoaFinalityCertificate :=
  filter (fun c => slot_of c = s) l.*1.
Definition choice (o : option PoaFinalityCertificate) (l : list PoaFinalityCertificate) : option PoaFinalityCertificate :=
  foldl (fun o c => Some (pick o c)) o l.
Definition heights_typed (l : list (PoaFinalityCertificate * CybouBlock)) : Prop :=
  Forall (fun e => is_u64 (cert_height e.1)) l.

Lemma observe_run_choice l : forall p d p' d', heights_typed l -> observe_run p d l = Some (p', d') ->
  p' = p /\ forall s, is_u64 s.1 ->
    observed p (contents d') s = choice (observed p (contents d) s) (certificates_for s l).
Proof.
  induction l as [|[c block] l IH]; intros p d p' d' Ht E; cbn [observe_run] in E.
  - injection E as <- <-. done.
  - apply Forall_cons in Ht as [Hc Ht]. cbn [fst] in Hc.
    destruct (Observe p d c block) as [[[status|] p1] d1] eqn:Eo; [|done]. destruct (accepted status) eqn:Ea; [|done].
    destruct (Observe_pick _ _ _ _ _ _ _ Hc Eo Ea) as (-> & Hs & Hother).
    destruct (IH _ _ _ _ Ht E) as [-> IHs]. split; [done|]. intros s Hu. rewrite IHs by done.
    unfold certificates_for. rewrite fmap_cons, filter_cons. cbn [fst]. case_decide as Hd.
    + by rewrite <- Hd, Hs.
    + by rewrite Hother.
Qed.

Lemma alt_ge_trans {n} (a b c : arr n) : alt b a = false -> alt c b = false -> alt c a = false.
Proof.
  unfold alt. intros Hba Hcb. destruct (blt (arr_val c) (arr_val a)) eqn:Hca; [|done].
  destruct (decide (arr_val b = arr_val a)) as [E|Hne]; [by rewrite E in Hcb; rewrite Hcb in Hca|].
  apply blt_total in Hba; [|done]. by rewrite (blt_trans _ _ _ Hca Hba) in Hcb.
Qed.
Lemma alt_antisym {n} (a b : arr n) : alt a b = false -> alt b a = false -> a = b.
Proof.
  unfold alt. intros Hab Hba. apply arr_eq. destruct (decide (arr_val a = arr_val b)) as [|Hne]; [done|].
  by rewrite (blt_total _ _ Hne Hab) in Hba.
Qed.

(** [choice] is a minimum. *)
Definition least (c : PoaFinalityCertificate) (l : list PoaFinalityCertificate) : Prop :=
  c ∈ l /\ forall c', c' ∈ l -> alt (cert_block_id c') (cert_block_id c) = false.
Lemma choice_least l : forall c0, exists c, choice (Some c0) l = Some c /\ least c (c0 :: l).
Proof.
  induction l as [|x l IH]; intros c0.
  - exists c0. split; [done|]. split; [apply list_elem_of_here|]. intros c ->%list_elem_of_singleton. apply blt_irrefl.
  - destruct (IH (pick (Some c0) x)) as (c & Ec & Hin & Hmin). exists c. split; [exact Ec|].
    assert (H0 : alt (cert_block_id (pick (Some c0) x)) (cert_block_id c) = false) by (apply Hmin, list_elem_of_here).
    assert (Hpick : (pick (Some c0) x = c0 \/ pick (Some c0) x = x) /\ alt (cert_block_id c0) (cert_block_id (pick (Some c0) x)) = false
      /\ alt (cert_block_id x) (cert_block_id (pick (Some c0) x)) = false).
    { cbn [pick]. destruct (alt (cert_block_id x) (cert_block_id c0)) eqn:Hlt; split_and!;
        [by right|by apply blt_asym|by apply blt_irrefl|by left|by apply blt_irrefl|done]. }
    destruct Hpick as (Hpick & Hp1 & Hp2). split.
    + rewrite !elem_of_cons in *. destruct Hin as [->|?]; [destruct Hpick as [-> | ->]|]; auto.
    + intros c'. rewrite !elem_of_cons. intros [->|[->|Hc']]; [by eapply alt_ge_trans|by eapply alt_ge_trans|].
      apply Hmin, elem_of_cons. by right.
Qed.
Lemma choice_none l : match choice None l with None => l = [] | Some c => least c l end.
Proof. destruct l as [|x l]; [done|]. cbn. destruct (choice_least l x) as (c & E & Hc). unfold choice in E. by rewrite E. Qed.

(** Nodes that saw the same certificates agree on the canonical block:
    whatever the order in which two detectors observed them, and whatever else
    they observed, for a height and parent at which they saw the same block
    ids both hold the same block, the smallest id seen. *)
Theorem detectors_converge p1 d1 l1 p1' d1' p2 d2 l2 p2' d2' s :
  is_u64 s.1 ->
  observed p1 (contents d1) s = None -> observed p2 (contents d2) s = None -> heights_typed l1 -> heights_typed l2 ->
  observe_run p1 d1 l1 = Some (p1', d1') -> observe_run p2 d2 l2 = Some (p2', d2') ->
  (forall id, id ∈ cert_block_id <$> certificates_for s l1 <-> id ∈ cert_block_id <$> certificates_for s l2) ->
  cert_block_id <$> observed p1' (contents d1') s = cert_block_id <$> observed p2' (contents d2') s /\
  forall c, observed p1' (contents d1') s = Some c -> least c (certificates_for s l1).
Proof.
  intros Hu Ho1 Ho2 Ht1 Ht2 E1 E2 Hids.
  destruct (observe_run_choice _ _ _ _ _ Ht1 E1) as [-> H1], (observe_run_choice _ _ _ _ _ Ht2 E2) as [-> H2].
  rewrite H1, H2, Ho1, Ho2 by done.
  pose proof (choice_none (certificates_for s l1)) as M1. pose proof (choice_none (certificates_for s l2)) as M2.
  assert (Hle : forall a b la lb, least a la -> least b lb -> (forall id, id ∈ cert_block_id <$> lb -> id ∈ cert_block_id <$> la) ->
    alt (cert_block_id b) (cert_block_id a) = false).
  { intros a b la lb [_ Ha] [Hb _] Hsub. destruct (proj1 (list_elem_of_fmap _ _ _) (Hsub _ (list_elem_of_fmap_2 _ _ _ Hb))) as (x & -> & Hx).
    by apply Ha. }
  destruct (choice None (certificates_for s l1)) as [c1|], (choice None (certificates_for s l2)) as [c2|].
  - split; [|by intros c [= <-]]. cbn [fmap option_fmap option_map]. f_equal. apply alt_antisym; (eapply Hle; [done..|]);
      intros id; apply Hids.
  - rewrite M2 in Hids. destruct M1 as [Hin _]. by apply (list_elem_of_fmap_2 cert_block_id), Hids, elem_of_nil in Hin.
  - rewrite M1 in Hids. destruct M2 as [Hin _]. by apply (list_elem_of_fmap_2 cert_block_id), Hids, elem_of_nil in Hin.
  - done.
Qed.

(** ** Evidence *)

Definition verifies (p : PoaConflictDetector) (c : PoaFinalityCertificate) : Prop :=
  VerifyPoaFinalityCertificate c (pd_key p) (pd_network_binding p) (cert_block_id c) (cert_height c) (cert_parent_block_id c)
  = Ret true.
Definition equivocation (p : PoaConflictDetector) (ev : PoaEquivocationEvidence) : Prop :=
  verifies p (ev_first ev) /\ verifies p (ev_second ev) /\ slot_of (ev_first ev) = slot_of (ev_second ev) /\
  cert_block_id (ev_first ev) <> cert_block_id (ev_second ev).

Lemma ValidConflictRecord_spec p c1 c2 l1 l2 : DeserializePoaFinalityCertificate l1 = Some c1 ->
  DeserializePoaFinalityCertificate l2 = Some c2 -> zlen l1 = POA_FINALITY_CERTIFICATE_SIZE ->
  zlen l2 = POA_FINALITY_CERTIFICATE_SIZE -> equivocation p (mkEvidence c1 c2) ->
  ValidConflictRecord ([bz HALT_EQUIVOCATION] ++ l1 ++ l2) (pd_network_binding p) (pd_key p) = Ret true.
Proof.
  intros E1 E2 Z1 Z2 (V1 & V2 & Hs & Hne). cbn [ev_first ev_second] in *. unfold POA_FINALITY_CERTIFICATE_SIZE in *.
  unfold ValidConflictRecord, EQUIVOCATION_RECORD_SIZE, POA_FINALITY_CERTIFICATE_SIZE.
  assert (Hone : zlen [bz HALT_EQUIVOCATION] = 1) by done.
  rewrite (proj2 (Z.eqb_eq (zlen (_ ++ _)) _)) by (rewrite !zlen_app, Hone; lia). cbn [negb orb].
  rewrite (subspan_at _ _ 0 1) by done. change (le_val [bz HALT_EQUIVOCATION] =? HALT_EQUIVOCATION) with true. cbn [negb]. cbv zeta.
  rewrite (subspan_skip [_] _ 1) by (rewrite Hone; lia). rewrite Hone, (subspan_at l1) by lia.
  rewrite (subspan_skip [_]) by (rewrite Hone; lia). rewrite Hone, (subspan_skip l1) by lia.
  rewrite (subspan_whole l2) by lia. rewrite E1, E2. injection Hs as Hh Hp.
  pose proof (proj1 (VerifyPoaFinalityCertificate_true _ _ _ _ _ _) V1) as (_ & _ & C1 & _).
  pose proof (proj1 (VerifyPoaFinalityCertificate_true _ _ _ _ _ _) V2) as (_ & _ & C2 & _).
  apply (f_equal cert_network_binding) in C1, C2. cbn [cert_network_binding] in C1, C2.
  rewrite !bool_decide_true, bool_decide_false, (proj2 (Z.eqb_eq _ _)) by done. cbn [negb andb].
  unfold and_then. rewrite V1. exact V2.
Qed.

Lemma ValidConflictRecord_sound record p ev :
  ValidConflictRecord record (pd_network_binding p) (pd_key p) = Ret true ->
  DeserializePoaFinalityCertificate (subspan record 1 POA_FINALITY_CERTIFICATE_SIZE) = Some (ev_first ev) ->
  DeserializePoaFinalityCertificate (subspan record (1 + POA_FINALITY_CERTIFICATE_SIZE) POA_FINALITY_CERTIFICATE_SIZE)
  = Some (ev_second ev) -> equivocation p ev.
Proof.
  intros E E1 E2. unfold ValidConflictRecord in E. walk_step E. cbv zeta in E. rewrite E1, E2 in E. walk_step E.
  unfold and_then in E. walk_step E. walk_step E. apply negb_false_iff, andb_true_iff in Hif0 as [Hif0 Hne].
  guards. split_and!; [exact Hret|exact E| |done]. unfold slot_of. congruence.
Qed.

Lemma ReadSafetyEvidence_equivocation p d ev p' :
  ReadSafetyEvidence p d = (Ret (mkEvidenceResult ER_EQUIVOCATION (Some ev)), p') -> equivocation p ev.
Proof.
  intros E. unfold ReadSafetyEvidence in E. cbv zeta in E.
  destruct (kv_Read d _) as [[record|]|]; [| |done]; cycle 1.
  { by destruct (or_else _ _) as [[]|]. }
  walk_step E. destruct (ValidConflictRecord record _ _) as [[]|] eqn:Ev; [|done..].
  destruct (DeserializePoaFinalityCertificate _) as [c1|] eqn:E1; [|done].
  destruct (DeserializePoaFinalityCertificate (subspan record (1 + _) _)) as [c2|] eqn:E2; [|done].
  injection E as <- <-. by eapply ValidConflictRecord_sound.
Qed.

(** Evidence is never made up: whatever the store holds, the equivocation
    that [ReadSafetyEvidence] reports is two certificates that both verify
    under the finalizer's key, for the same height and parent, and name
    different blocks; so it never holds two certificates that one finalizer,
    through crashes and restarts, has issued from its journal. *)
Theorem ReadSafetyEvidence_sound p d ev p' :
  ReadSafetyEvidence p d = (Ret (mkEvidenceResult ER_EQUIVOCATION (Some ev)), p') ->
  equivocation p ev /\
  forall net anchor key n n', node_initial n -> rtc (node_step net anchor key) n n' ->
    ev_first ev ∈ n_issued n' -> ev_second ev ∈ n_issued n' -> False.
Proof.
  intros E%ReadSafetyEvidence_equivocation. split; [done|]. intros net anchor key n n' Hi Hs H1 H2.
  destruct E as (_ & _ & Eslot & Hne). injection Eslot as Eh _.
  pose proof (ni_once _ _ (reachable_inv net anchor key _ _ Hi Hs) _ _ H1 H2 Eh) as Ehead. by injection Ehead.
Qed.

(** Reading back the evidence that was written. *)
Lemma ReadSafetyEvidence_stored p d c1 c2 l1 l2 : DeserializePoaFinalityCertificate l1 = Some c1 ->
  DeserializePoaFinalityCertificate l2 = Some c2 -> zlen l1 = POA_FINALITY_CERTIFICATE_SIZE ->
  zlen l2 = POA_FINALITY_CERTIFICATE_SIZE -> equivocation p (mkEvidence c1 c2) ->
  kv_Read d (pd_prefix p ++ str "halt") = Ret (Some ([bz HALT_EQUIVOCATION] ++ l1 ++ l2)) ->
  ReadSafetyEvidence p d = (Ret (mkEvidenceResult ER_EQUIVOCATION (Some (mkEvidence c1 c2))), p).
Proof.
  intros E1 E2 Z1 Z2 Hev Er. unfold ReadSafetyEvidence. cbv zeta. rewrite Er.
  rewrite (ValidConflictRecord_spec p c1 c2) by done. rewrite bool_decide_false by done.
  assert (Hone : zlen [bz HALT_EQUIVOCATION] = 1) by done.
  rewrite (subspan_skip [_] _ 1) by (rewrite Hone; lia). rewrite Hone, (subspan_at l1) by done.
  unfold POA_FINALITY_CERTIFICATE_SIZE in *.
  rewrite (subspan_skip [_]) by (rewrite Hone; lia). rewrite Hone, (subspan_skip l1) by lia.
  rewrite (subspan_whole l2) by lia. by rewrite E1, E2.
Qed.

Lemma kv_Read_written d k (v : bytes) : zlen v <= MAX_COMPACT_SIZE ->
  contents d !! EncodeBytes k = Some (EncodeBytes v) -> db_Get d (EncodeBytes k) <> Throw -> kv_Read d k = Ret (Some v).
Proof.
  intros Hv Hc Hg. unfold kv_Read, ReadRaw. cbn [rec_Encode bytes_record].
  destruct (db_Get d (EncodeBytes k)) as [o|] eqn:Eg; [|done]. apply get_contents in Eg as ->. rewrite Hc.
  cbn [outcome_bind]. f_equal. by apply DecodeBytes_Encode.
Qed.

(** What a reported conflict has written. *)
Lemma Observe_conflict p d c block status p' d' : is_u64 (cert_height c) ->
  Observe p d c block = (Ret status, p', d') -> conflict status = true ->
  exists l previous lp d1, p' = p /\ SerializePoaFinalityCertificate c = Some l /\
    DeserializePoaFinalityCertificate lp = Some previous /\ observed p (contents d) (slot_of c) = Some previous /\
    equivocation p (mkEvidence previous c) /\
    kv_Write d (pd_prefix p ++ str "halt") ([bz HALT_EQUIVOCATION] ++ lp ++ l) true = (true, d1) /\
    (d' = d1 \/ kv_Write d1 (slot_key (pd_prefix p) (slot_of c)) l true = (true, d')).
Proof.
  intros Hu E Hs. unfold Observe in E. walk_step E; [|by injection E as <- <- <-].
  destruct (VerifyPoaCertificateForBlock _ _ _ _) as [[]|] eqn:Ev; [|by injection E as <- <- <-|done].
  walk_step E; [by injection E as <- <- <-|]. cbv zeta in E.
  assert (Hcorrupt : forall st q e, corrupt_storage p d = (Ret st, q, e) -> conflict st = false).
  { intros st q e Ec. unfold corrupt_storage in Ec. destruct (PersistHaltRecord _ _ _) as [[[] ?] ?]; by injection Ec as <- <- <-. }
  destruct (kv_Read d _) as [[lp|]|] eqn:Er; [| |done]; cycle 1.
  { destruct (kv_Exists _ _) as [[]|]; [by apply Hcorrupt in E; rewrite E in Hs| |done].
    destruct (kv_Write _ _ _ _) as [[] ?]; by injection E as <- <- <-. }
  destruct (DeserializePoaFinalityCertificate lp) as [o|] eqn:Ed; [|by apply Hcorrupt in E; rewrite E in Hs].
  destruct (previous_ok p c o) as [[]|] eqn:Eprev; [|by apply Hcorrupt in E; rewrite E in Hs|done].
  walk_step E; [by injection E as <- <- <-|]. guards. apply kv_Read_stored in Er.
  unfold previous_ok in Eprev. walk_step Eprev. guards.
  apply VerifyPoaCertificateForBlock_true in Ev as (lb & id & _ & _ & Ev).
  assert (Hv : verifies p c).
  { pose proof (proj1 (VerifyPoaFinalityCertificate_true _ _ _ _ _ _) Ev) as (_ & _ & Ec & _). unfold verifies.
    destruct c as [cn ci ch cp cs]. injection Ec as -> -> -> ->. exact Ev. }
  unfold record_conflict in E. cbv zeta in E.
  destruct (kv_Write _ _ _ _) as [[] d1] eqn:Ew; cbn [negb] in E; [|by injection E as <- <- <-].
  assert (Hev : equivocation p (mkEvidence o c)) by (split_and!; [done|done| |done]; unfold slot_of; cbn; congruence).
  assert (Hob : observed p (contents d) (slot_of c) = Some o)
    by (unfold observed; change (slot_key _ _) with (ObservationKey (pd_prefix p) c); by rewrite <- Er).
  exists l, o, lp, d1.
  walk_step E; [destruct (kv_Write d1 _ _ _) as [[] d2] eqn:Ew2; cbn [negb] in E|];
    injection E as <- <- <-; try discriminate Hs; split_and!; auto.
Qed.

(** No equivocation escapes: when [Observe] reports a second block for a
    height and parent, the two certificates are already in the store as
    evidence, and reading them back reports the equivocation. *)
Theorem Observe_conflict_evidence p d c block status p' d' : is_u64 (cert_height c) ->
  Observe p d c block = (Ret status, p', d') -> conflict status = true ->
  db_Get d' (EncodeBytes (pd_prefix p ++ str "halt")) <> Throw ->
  exists previous, observed p (contents d) (slot_of c) = Some previous /\
    cert_block_id previous <> cert_block_id c /\
    ReadSafetyEvidence p' d' = (Ret (mkEvidenceResult ER_EQUIVOCATION (Some (mkEvidence previous c))), p').
Proof.
  intros Hu E Hs Hget.
  destruct (Observe_conflict _ _ _ _ _ _ _ Hu E Hs) as (l & o & lp & d1 & -> & El & Ed & Ho & Hev & Ew & Hlast).
  destruct (certificate_decode _ _ Hu El) as [Hdec Hsize].
  destruct (certificate_encode _ _ Ed) as [Eo Huo]. destruct (certificate_decode _ _ Huo Eo) as [_ Hsize'].
  exists o. split_and!; [done|apply Hev|]. eapply ReadSafetyEvidence_stored; [done..|].
  apply kv_Read_written; [rewrite !zlen_app, Hsize, Hsize'; done| |done].
  apply kv_Write_contents in Ew. assert (H1 : contents d1 !! EncodeBytes (pd_prefix p ++ str "halt")
    = Some (EncodeBytes ([bz HALT_EQUIVOCATION] ++ lp ++ l))) by by rewrite Ew, lookup_insert_eq.
  destruct Hlast as [->|Ew2]; [done|]. apply kv_Write_contents in Ew2. rewrite Ew2.
  rewrite lookup_insert_ne; [done|]. intros Ek%(inj EncodeBytes). by apply slot_key_not_halt in Ek.
Qed.
End proofs.
