(* ===== verification/NetworkGenesis.v ===== *)
(** * The signed network genesis

    [src/src/cybou/network_genesis.cpp]: the immutable genesis of a network,
    its canonical encoding, its digest (the anchor of the chain), the network
    binding and the checks that turn it into a [VerifiedNetworkGenesis]. *)

From S2P Require Import Prelude.
From S2P Require Import Bytes.
From S2P Require Import Codec.
From S2P Require Import Params.
From S2P Require Import Crypto.
From S2P Require Import IdentityCodec.
From S2P Require Import Payloads.
From S2P Require Import StateCodec.
From S2P Require Import StateCodecProofs.
From S2P Require Import Block.

(** ** Keys

    The decoder casts any byte to [IdentityKeyPurpose], so a key of an
    unverified genesis carries the purpose as a byte. *)

Record GenesisKey : Type := mkGenesisKey {
  gk_purpose : Z;
  gk_ed25519 : arr 32;
  gk_ml_dsa : bytes;
}.
Definition purpose_byte (p : IdentityKeyPurpose) : Z :=
  match p with RECOVERY_ROOT => 1 | AUTHORIZATION => 2 | POA_FINALIZER => 7 | STORAGE => 8 | NETWORK_ROOT => 9 end.
Definition raw_key (key : IdentityHybridPublicKey) : GenesisKey :=
  mkGenesisKey (purpose_byte (purpose key)) (pk_ed25519 key) (pk_ml_dsa key).
Definition as_key (p : IdentityKeyPurpose) (key : GenesisKey) : IdentityHybridPublicKey :=
  mkPublicKey p (gk_ed25519 key) (gk_ml_dsa key).

Definition CanonicalSerializeHybridPublicKey (key : GenesisKey) : bytes :=
  le_bytes 1 (gk_purpose key) ++ arr_val (gk_ed25519 key) ++ le_bytes 4 (wrap32 (zlen (gk_ml_dsa key))) ++ gk_ml_dsa key.

(** The [switch]: the ML-DSA key size of a purpose. *)
Definition expected_ml_dsa_size (purpose : Z) : option Z :=
  if (purpose =? 2) || (purpose =? 8) then Some 1312
  else if (purpose =? 1) || (purpose =? 7) || (purpose =? 9) then Some 1952
  else None.
Definition CanonicalDeserializeHybridPublicKey (l : bytes) (expected_purpose : option IdentityKeyPurpose)
    : option GenesisKey :=
  return_if zlen l <? 1 + 32 + 4 with None ;;
  let purpose := le_val (subspan l 0 1) in
  return_if match expected_purpose with Some p => negb (purpose =? purpose_byte p) | None => false end with None ;;
  let? expected_ml_dsa_size := expected_ml_dsa_size purpose else None ;;
  let ml_dsa_len := le_val (subspan l 33 4) in
  return_if negb (37 + ml_dsa_len =? zlen l) with None ;;
  return_if negb (ml_dsa_len =? expected_ml_dsa_size) with None ;;
  Some (mkGenesisKey purpose (arr_of 32 (subspan l 1 32)) (subspan l 37 ml_dsa_len)).
Definition CanonicalSerializeNetworkPublicKey := CanonicalSerializeHybridPublicKey.
Definition CanonicalDeserializeNetworkPublicKey (l : bytes) := CanonicalDeserializeHybridPublicKey l (Some NETWORK_ROOT).

(** ** The genesis *)

Record NetworkGenesis : Type := mkGenesis {
  ng_network_public_key : GenesisKey;
  ng_genesis_state_root : Hash256;
  ng_poa_finalizer_public_key : GenesisKey;
  ng_protocol_parameters : CybouProtocolParameters;
  ng_signature : IdentityHybridSignature;
}.
Inductive NetworkGenesisError : Type :=
| NG_NONE | NG_INVALID_NETWORK_KEY | NG_NULL_GENESIS_STATE_ROOT | NG_INVALID_POA_KEY
| NG_INVALID_PROTOCOL_PARAMETERS | NG_INVALID_SIGNATURE.
#[export] Instance NetworkGenesisError_eq_dec : EqDecision NetworkGenesisError.
Proof. solve_decision. Defined.

Definition params_bytes (p : CybouProtocolParameters) : bytes :=
  le_bytes 4 (account_creation_work_bits p) ++ le_bytes 8 (account_creation_epoch_lag p)
  ++ le_bytes 4 (max_account_creates_per_block p) ++ le_bytes 8 (onboarding_bonus p) ++ le_bytes 8 (epoch_blocks p)
  ++ le_bytes 8 (payment_fee p) ++ le_bytes 8 (root_publication_fee_per_started_kib p)
  ++ le_bytes 8 (root_publication_fee_per_chunk p) ++ le_bytes 4 (name_claim_work_bits p)
  ++ le_bytes 8 (name_commit_min_depth p) ++ le_bytes 8 (name_commit_max_lifetime p)
  ++ le_bytes 4 (max_pending_name_commits p) ++ le_bytes 1 (if identity_kem_xwing_enabled p then 1 else 0)
  ++ le_bytes 8 (storage_rate_per_gib_day_replica p) ++ le_bytes 1 (storage_replica_target p)
  ++ le_bytes 8 (storage_settlement_period_seconds p) ++ le_bytes 4 (max_storage_lease_periods p).
Definition SerializeNetworkGenesisPayload (genesis : NetworkGenesis) : bytes :=
  let net_key_bytes := CanonicalSerializeNetworkPublicKey (ng_network_public_key genesis) in
  let poa_key_bytes := CanonicalSerializeHybridPublicKey (ng_poa_finalizer_public_key genesis) in
  le_bytes 4 (wrap32 (zlen net_key_bytes)) ++ net_key_bytes ++ arr_val (ng_genesis_state_root genesis)
  ++ poa_key_bytes ++ params_bytes (ng_protocol_parameters genesis).
Definition SerializeSignedNetworkGenesis (genesis : NetworkGenesis) : bytes :=
  SerializeNetworkGenesisPayload genesis ++ arr_val (sig_ed25519 (ng_signature genesis))
  ++ le_bytes 4 (wrap32 (zlen (sig_ml_dsa (ng_signature genesis)))) ++ sig_ml_dsa (ng_signature genesis).

(** The reads of the parameters, from what is left of the input. *)
Definition read_params (r : bytes) : option (CybouProtocolParameters * bytes) :=
  let? (work_bits, r) := Reader_U32 r else None ;;
  let? (epoch_lag, r) := Reader_U64 r else None ;;
  let? (max_creates, r) := Reader_U32 r else None ;;
  let? (bonus, r) := Reader_U64 r else None ;;
  let? (blocks, r) := Reader_U64 r else None ;;
  let? (fee, r) := Reader_U64 r else None ;;
  let? (per_kib, r) := Reader_U64 r else None ;;
  let? (per_chunk, r) := Reader_U64 r else None ;;
  let? (name_work, r) := Reader_U32 r else None ;;
  let? (name_min_depth, r) := Reader_U64 r else None ;;
  let? (name_max_life, r) := Reader_U64 r else None ;;
  let? (max_pending_names, r) := Reader_U32 r else None ;;
  let? (kem_xwing, r) := Reader_U8 r else None ;;
  let? (storage_rate, r) := Reader_U64 r else None ;;
  let? (storage_replicas, r) := Reader_U8 r else None ;;
  let? (settlement_period, r) := Reader_U64 r else None ;;
  let? (max_lease_periods, r) := Reader_U32 r else None ;;
  return_if 1 <? kem_xwing with None ;;
  Some (mkParams work_bits epoch_lag max_creates bonus blocks fee per_kib per_chunk name_work name_min_depth name_max_life
          max_pending_names (kem_xwing =? 1) storage_rate storage_replicas settlement_period max_lease_periods, r).
(** The PoA key, read field by field: its purpose and size are not checked. *)
Definition read_poa_key (r : bytes) : option (GenesisKey * bytes) :=
  let? (poa_purpose, r) := Reader_U8 r else None ;;
  let? (ed25519, r) := Reader_Hash r else None ;;
  let? (poa_ml_dsa_len, r) := Reader_U32 r else None ;;
  let? (ml_dsa, r) := Reader_Read poa_ml_dsa_len r else None ;;
  Some (mkGenesisKey poa_purpose ed25519 ml_dsa, r).
Definition DeserializeSignedNetworkGenesis (l : bytes) : option NetworkGenesis :=
  let? (net_key_len, r) := Reader_U32 l else None ;;
  let? (net_key, r) := Reader_Read net_key_len r else None ;;
  let? net_key := CanonicalDeserializeNetworkPublicKey net_key else None ;;
  let? (state_root, r) := Reader_Hash r else None ;;
  let? (poa_key, r) := read_poa_key r else None ;;
  let? (p, r) := read_params r else None ;;
  return_if zlen r <? 64 + 4 with None ;;
  let? (ed25519, r) := Reader_Read 64 r else None ;;
  let? (sig_ml_dsa_len, r) := Reader_U32 r else None ;;
  return_if negb (zlen r =? sig_ml_dsa_len) with None ;;
  Some (mkGenesis net_key state_root poa_key p (mkSignature (arr_of 64 ed25519) r)).

(** ** Parameter checks *)

(** The divisor of the rent check, at 64 bits. *)
Definition rent_divisor (p : CybouProtocolParameters) : Z :=
  MAX_PUBLICATION_CHUNKS ⊗ storage_replica_target p ⊗ storage_settlement_period_seconds p ⊗ max_storage_lease_periods p.
(** A division by zero does not return: [Throw]. *)
Definition div64 (a b : Z) : outcome Z := if b =? 0 then Throw else Ret (a / b).

Definition ValidateProtocolParameters (p : CybouProtocolParameters) : outcome bool :=
  return_if 256 <? account_creation_work_bits p with Ret false ;;
  return_if max_account_creates_per_block p =? 0 with Ret false ;;
  return_if epoch_blocks p =? 0 with Ret false ;;
  return_if (storage_rate_per_gib_day_replica p =? 0) || (storage_replica_target p =? 0)
    || (16 <? storage_replica_target p) || (storage_settlement_period_seconds p =? 0)
    || (366 * 86400 <? storage_settlement_period_seconds p) || (max_storage_lease_periods p =? 0) with Ret false ;;
  try! limit := div64 MAX64 (rent_divisor p) ;;
  return_if limit <? storage_rate_per_gib_day_replica p with Ret false ;;
  let max_fee_kib := (ROOT_PUBLICATION_MAX_OPERATION_BYTES + 1023) / 1024 in
  let per_kib := root_publication_fee_per_started_kib p in
  let per_chunk := root_publication_fee_per_chunk p in
  return_if (negb (per_kib =? 0) && (MAX64 / per_kib <? max_fee_kib))
    || (negb (per_chunk =? 0) && (MAX64 / per_chunk <? MAX_PUBLICATION_CHUNKS)) with Ret false ;;
  let max_byte_fee := max_fee_kib ⊗ per_kib in
  let max_chunk_fee := MAX_PUBLICATION_CHUNKS ⊗ per_chunk in
  return_if MAX64 ⊖ max_byte_fee <? max_chunk_fee with Ret false ;;
  return_if (256 <? name_claim_work_bits p) || (name_commit_min_depth p =? 0)
    || (name_commit_max_lifetime p <? name_commit_min_depth p) || (max_pending_name_commits p =? 0)
    || (DEFAULT_MAX_PENDING_NAME_COMMITS <? max_pending_name_commits p) with Ret false ;;
  Ret true.

(** ** Verification *)

Record VerifiedNetworkGenesis : Type := mkVerifiedGenesis {
  vg_genesis : NetworkGenesis;
  vg_network_id_bytes : bytes;
  vg_genesis_digest : Hash256;
}.
Definition GetGenesisAnchor (g : VerifiedNetworkGenesis) : Hash256 := vg_genesis_digest g.
Definition GetGenesisStateRoot (g : VerifiedNetworkGenesis) : Hash256 := ng_genesis_state_root (vg_genesis g).
Definition GetNetworkPublicKey (g : VerifiedNetworkGenesis) : GenesisKey := ng_network_public_key (vg_genesis g).
Definition GetPoaPublicKey (g : VerifiedNetworkGenesis) : IdentityHybridPublicKey :=
  as_key POA_FINALIZER (ng_poa_finalizer_public_key (vg_genesis g)).
Definition GetProtocolParameters (g : VerifiedNetworkGenesis) : CybouProtocolParameters :=
  ng_protocol_parameters (vg_genesis g).

Section genesis.
Context `{CryptoOps}.

Definition ComputeNetworkBinding (network_public_key : GenesisKey) : outcome Hash256 :=
  Sha256 [str "CYBOU/NETWORK-ID"; CanonicalSerializeNetworkPublicKey network_public_key].
Definition ComputeNetworkGenesisDigest (genesis : NetworkGenesis) : outcome Hash256 :=
  Sha256 [str "CYBOU/GENESIS"; SerializeNetworkGenesisPayload genesis].

Definition VerifySignedNetworkGenesis (genesis : NetworkGenesis) : outcome NetworkGenesisError :=
  let network := ng_network_public_key genesis in
  let poa := ng_poa_finalizer_public_key genesis in
  return_if negb (gk_purpose network =? purpose_byte NETWORK_ROOT) || negb (zlen (gk_ml_dsa network) =? 1952)
    || all_zero (arr_val (gk_ed25519 network)) with Ret NG_INVALID_NETWORK_KEY ;;
  return_if IsNull (ng_genesis_state_root genesis) with Ret NG_NULL_GENESIS_STATE_ROOT ;;
  return_if negb (gk_purpose poa =? purpose_byte POA_FINALIZER) || negb (zlen (gk_ml_dsa poa) =? 1952)
    || all_zero (arr_val (gk_ed25519 poa)) with Ret NG_INVALID_POA_KEY ;;
  try! valid := ValidateProtocolParameters (ng_protocol_parameters genesis) ;;
  return_if negb valid with Ret NG_INVALID_PROTOCOL_PARAMETERS ;;
  try! digest := ComputeNetworkGenesisDigest genesis ;;
  return_if negb (VerifyIdentityMessage (as_key NETWORK_ROOT network) (ng_signature genesis) (arr_val digest))
    with Ret NG_INVALID_SIGNATURE ;;
  Ret NG_NONE.

(** [VerifiedNetworkGenesis::Create]. *)
Definition Create (genesis : NetworkGenesis) : outcome (option VerifiedNetworkGenesis) :=
  try! error := VerifySignedNetworkGenesis genesis ;;
  return_if negb (bool_decide (error = NG_NONE)) with Ret None ;;
  try! digest := ComputeNetworkGenesisDigest genesis ;;
  Ret (Some (mkVerifiedGenesis genesis (CanonicalSerializeNetworkPublicKey (ng_network_public_key genesis)) digest)).
End genesis.

(** * The genesis is canonical and its parameters are safe

    The signed genesis has one encoding; parameters that pass validation make
    every publication fee computable; and two ways in which the check of the
    storage rent goes wrong at 64 bits. *)

(** ** Encoding *)

Definition key_typed (key : GenesisKey) : Prop := is_u8 (gk_purpose key) /\ zlen (gk_ml_dsa key) <= MAX32.
(** The widths of the C++ fields, and a network key of the right shape. *)
Record genesis_typed (g : NetworkGenesis) : Prop := {
  gt_network : gk_purpose (ng_network_public_key g) = purpose_byte NETWORK_ROOT /\ zlen (gk_ml_dsa (ng_network_public_key g)) = 1952;
  gt_poa : key_typed (ng_poa_finalizer_public_key g);
  gt_params : params_wf (ng_protocol_parameters g);
  gt_signature : zlen (sig_ml_dsa (ng_signature g)) <= MAX32;
}.

Lemma zlen_key key : zlen (CanonicalSerializeHybridPublicKey key) = 37 + zlen (gk_ml_dsa key).
Proof. unfold CanonicalSerializeHybridPublicKey. len. Qed.

(** Keys of the network are read back from exactly their encoding. *)
Lemma network_key_decode key : gk_purpose key = 9 -> zlen (gk_ml_dsa key) = 1952 ->
  CanonicalDeserializeNetworkPublicKey (CanonicalSerializeHybridPublicKey key) = Some key.
Proof.
  intros Hp Hz. destruct key as [p ed ml]. cbn [gk_purpose gk_ml_dsa] in *. subst p.
  set (l := CanonicalSerializeHybridPublicKey _).
  assert (El : l = le_bytes 1 9 ++ arr_val ed ++ le_bytes 4 1952 ++ ml)
    by (unfold l, CanonicalSerializeHybridPublicKey; cbn [gk_purpose gk_ed25519 gk_ml_dsa]; by rewrite Hz).
  assert (E1 : zlen l = 1989) by (rewrite El; len).
  assert (E2 : le_val (subspan l 0 1) = 9) by (rewrite El; cut; by rewrite le_val_u8).
  assert (E3 : le_val (subspan l 33 4) = 1952) by (rewrite El; cut; by rewrite le_val_u32).
  assert (E4 : arr_of 32 (subspan l 1 32) = ed) by (rewrite El; cut; by rewrite arr_of_arr).
  assert (E5 : subspan l 37 1952 = ml) by (rewrite El; by cut).
  clearbody l. unfold CanonicalDeserializeNetworkPublicKey, CanonicalDeserializeHybridPublicKey.
  rewrite E1, E2. simpl. by rewrite E3, E4, E5.
Qed.
Lemma network_key_encode l key : CanonicalDeserializeNetworkPublicKey l = Some key ->
  CanonicalSerializeHybridPublicKey key = l /\ gk_purpose key = 9 /\ zlen (gk_ml_dsa key) = 1952.
Proof.
  intros E. unfold CanonicalDeserializeNetworkPublicKey, CanonicalDeserializeHybridPublicKey in E. walk E. some_inj E. guards.
  cbn [purpose_byte] in *. rewrite Hif0 in Hopt. unfold expected_ml_dsa_size in Hopt. cbn in Hopt. some_inj Hopt.
  cbn [gk_purpose gk_ml_dsa]. split_and!; [|done|rewrite zlen_subspan; lia].
  unfold CanonicalSerializeHybridPublicKey. cbn [gk_purpose gk_ed25519 gk_ml_dsa]. rewrite zlen_subspan by lia.
  rewrite wrap32_small by (rewrite Hif2; done).
  rewrite (le_bytes_subspan _ _ 1), (le_bytes_subspan _ _ 4), (arr_of_subspan 32) by len. rewrite Hif2. glue. apply subspan_all. lia.
Qed.

Ltac reads := repeat first
  [ rewrite Reader_U64_app by done | rewrite Reader_U32_app by done | rewrite Reader_U8_app by done | rewrite Reader_Hash_app ].
Lemma read_params_app p rest : params_wf p -> read_params (params_bytes p ++ rest) = Some (p, rest).
Proof.
  unfold params_wf. intros Hp. destruct_and?. unfold read_params, params_bytes. repeat rewrite <- app_assoc.
  destruct p as [x1 x2 x3 x4 x5 x6 x7 x8 x9 x10 x11 x12 xwing x13 x14 x15 x16].
  cbn [account_creation_work_bits account_creation_epoch_lag max_account_creates_per_block onboarding_bonus epoch_blocks payment_fee
    root_publication_fee_per_started_kib root_publication_fee_per_chunk name_claim_work_bits name_commit_min_depth
    name_commit_max_lifetime max_pending_name_commits identity_kem_xwing_enabled storage_rate_per_gib_day_replica
    storage_replica_target storage_settlement_period_seconds max_storage_lease_periods] in *.
  assert (is_u8 (if xwing then 1 else 0)) by (destruct xwing; done).
  reads. by destruct xwing.
Qed.
Lemma read_poa_key_app key rest : key_typed key ->
  read_poa_key (CanonicalSerializeHybridPublicKey key ++ rest) = Some (key, rest).
Proof.
  intros [Hp Hz]. pose proof (zlen_nonneg (gk_ml_dsa key)). unfold read_poa_key, CanonicalSerializeHybridPublicKey.
  repeat rewrite <- app_assoc. assert (is_u32 (wrap32 (zlen (gk_ml_dsa key)))) by apply wrap32_range. reads.
  rewrite wrap32_small, Reader_Read_app by ulia. by destruct key.
Qed.

Lemma genesis_decode g : genesis_typed g -> DeserializeSignedNetworkGenesis (SerializeSignedNetworkGenesis g) = Some g.
Proof.
  intros [[Hn1 Hn2] Hp Hps Hs]. unfold DeserializeSignedNetworkGenesis, SerializeSignedNetworkGenesis, SerializeNetworkGenesisPayload.
  cbv zeta. pose proof (zlen_nonneg (sig_ml_dsa (ng_signature g))). unfold CanonicalSerializeNetworkPublicKey.
  repeat rewrite <- app_assoc. rewrite (zlen_key (ng_network_public_key g)), Hn2. change (wrap32 (37 + 1952)) with 1989.
  reads. rewrite Reader_Read_app by (rewrite zlen_key, Hn2; done). rewrite network_key_decode by done. reads.
  rewrite read_poa_key_app, read_params_app by done. rewrite (proj2 (Z.ltb_ge _ _)) by len.
  rewrite Reader_Read_app by (exact (zlen_arr (sig_ed25519 (ng_signature g)))).
  assert (is_u32 (wrap32 (zlen (sig_ml_dsa (ng_signature g))))) by apply wrap32_range. reads.
  rewrite wrap32_small, Z.eqb_refl by ulia. cbn [negb]. rewrite arr_of_arr. by destruct g as [? ? ? ? []].
Qed.

(** Readers give back the bytes they took. *)
Lemma Reader_U32_inv r v rest : Reader_U32 r = Some (v, rest) -> r = le_bytes 4 v ++ rest /\ is_u32 v.
Proof.
  unfold Reader_U32. intros E. walk E. injection E as <- <-. apply Reader_Read_inv in Hopt as [-> Hz]; [|done].
  assert (Hl : length l = 4%nat) by (unfold zlen in Hz; lia). rewrite le_bytes_inv by done. split; [done|].
  rewrite <- (subspan_all l 4 Hz). apply is_u32_at; lia.
Qed.
Lemma Reader_U8_inv r v rest : Reader_U8 r = Some (v, rest) -> r = le_bytes 1 v ++ rest /\ is_u8 v.
Proof.
  unfold Reader_U8. intros E. walk E. injection E as <- <-. apply Reader_Read_inv in Hopt as [-> Hz]; [|done].
  assert (Hl : length l = 1%nat) by (unfold zlen in Hz; lia). rewrite le_bytes_inv by done. split; [done|].
  destruct l as [|b [|]]; [done| |done]. unfold is_u8, MAX8. rewrite le_val_sum. cbn [le_sum]. pose proof (zb_range b). lia.
Qed.
Lemma Reader_Hash_inv r h rest : Reader_Hash r = Some (h, rest) -> r = arr_val h ++ rest.
Proof.
  unfold Reader_Hash. intros E. walk E. injection E as <- <-. apply Reader_Read_inv in Hopt as [-> Hz]; [|done].
  by rewrite arr_of_val.
Qed.
Ltac unread :=
  repeat match goal with
  | E : Reader_U64 _ = Some _ |- _ => apply Reader_U64_inv in E as [-> ?]
  | E : Reader_U32 _ = Some _ |- _ => apply Reader_U32_inv in E as [-> ?]
  | E : Reader_U8 _ = Some _ |- _ => apply Reader_U8_inv in E as [-> ?]
  | E : Reader_Hash _ = Some _ |- _ => apply Reader_Hash_inv in E as ->
  end.

Lemma read_params_inv r p rest : read_params r = Some (p, rest) -> r = params_bytes p ++ rest.
Proof.
  unfold read_params. intros E. walk E. injection E as <- <-. unread. unfold params_bytes.
  cbn [account_creation_work_bits account_creation_epoch_lag max_account_creates_per_block onboarding_bonus epoch_blocks payment_fee
    root_publication_fee_per_started_kib root_publication_fee_per_chunk name_claim_work_bits name_commit_min_depth
    name_commit_max_lifetime max_pending_name_commits identity_kem_xwing_enabled storage_rate_per_gib_day_replica
    storage_replica_target storage_settlement_period_seconds max_storage_lease_periods]. repeat rewrite <- app_assoc.
  match goal with Hx : (1 <? ?x) = false, Hu : is_u8 ?x |- _ =>
    replace (if x =? 1 then 1 else 0) with x by (guards; destruct (Z.eqb_spec x 1); ulia) end.
  reflexivity.
Qed.
Lemma read_poa_key_inv r key rest : read_poa_key r = Some (key, rest) -> r = CanonicalSerializeHybridPublicKey key ++ rest.
Proof.
  unfold read_poa_key. intros E. walk E. injection E as <- <-. unread.
  match goal with E : Reader_Read _ _ = Some _ |- _ => apply Reader_Read_inv in E as [-> <-]; [|ulia] end.
  unfold CanonicalSerializeHybridPublicKey. cbn [gk_purpose gk_ed25519 gk_ml_dsa]. rewrite wrap32_small by done.
  by repeat rewrite <- app_assoc.
Qed.
Lemma genesis_encode l g : DeserializeSignedNetworkGenesis l = Some g -> SerializeSignedNetworkGenesis g = l.
Proof.
  unfold DeserializeSignedNetworkGenesis. intros E. walk E. some_inj E. guards. unread.
  repeat match goal with E : Reader_Read _ _ = Some _ |- _ => apply Reader_Read_inv in E as [-> ?]; [|ulia] end.
  match goal with E : read_params _ = _ |- _ => apply read_params_inv in E as -> end.
  match goal with E : read_poa_key _ = _ |- _ => apply read_poa_key_inv in E as -> end.
  match goal with E : CanonicalDeserializeNetworkPublicKey _ = _ |- _ => apply network_key_encode in E as (<- & _ & _) end.
  unfold SerializeSignedNetworkGenesis, SerializeNetworkGenesisPayload. cbv zeta.
  cbn [ng_network_public_key ng_genesis_state_root ng_poa_finalizer_public_key ng_protocol_parameters ng_signature sig_ed25519 sig_ml_dsa].
  rewrite !wrap32_small by (unfold CanonicalSerializeNetworkPublicKey; congruence || (subst; done)). unfold CanonicalSerializeNetworkPublicKey.
  rewrite arr_of_val by done. subst. by repeat rewrite <- app_assoc.
Qed.

(** The signed genesis of a network has exactly one encoding: it is read
    back from its encoding whatever its parameters, and any bytes that are
    accepted are the encoding of what they are read as. *)
Theorem NetworkGenesis_roundtrip : 
  (forall g, genesis_typed g -> DeserializeSignedNetworkGenesis (SerializeSignedNetworkGenesis g) = Some g) /\
  (forall l g, DeserializeSignedNetworkGenesis l = Some g -> SerializeSignedNetworkGenesis g = l).
Proof. split; [exact genesis_decode|exact genesis_encode]. Qed.

(** ** Parameters *)

Lemma quotient_guard w k : 0 < w -> (MAX64 / w <? k) = false <-> w * k <= MAX64.
Proof.
  intros Hw. rewrite Z.ltb_ge. split; intros E; [|by apply Z.div_le_lower_bound].
  transitivity (w * (MAX64 / w)); [nia|]. by apply Z.mul_div_le.
Qed.
Lemma fee_guard_iff a k : 0 <= a -> (negb (a =? 0) && (MAX64 / a <? k)) = false <-> k * a <= MAX64.
Proof.
  intros Ha. destruct (Z.eqb_spec a 0) as [->|Hne]; cbn [negb andb]; [by rewrite Z.mul_0_r|].
  rewrite quotient_guard by lia. by rewrite Z.mul_comm.
Qed.

(** What valid parameters are, by the values they have and not by 64-bit
    arithmetic, except that the worst-case rent of one day's rate is judged
    with the divisor [w]. *)
Definition general_ok (p : CybouProtocolParameters) : Prop :=
  account_creation_work_bits p <= 256 /\ max_account_creates_per_block p <> 0 /\ epoch_blocks p <> 0.
Definition rent_ok (p : CybouProtocolParameters) : Prop :=
  storage_rate_per_gib_day_replica p <> 0 /\ 0 < storage_replica_target p <= 16 /\
  0 < storage_settlement_period_seconds p <= 366 * 86400 /\ max_storage_lease_periods p <> 0.
Definition fees_ok (p : CybouProtocolParameters) : Prop :=
  (ROOT_PUBLICATION_MAX_OPERATION_BYTES + 1023) / 1024 * root_publication_fee_per_started_kib p
  + MAX_PUBLICATION_CHUNKS * root_publication_fee_per_chunk p <= MAX64.
Definition names_ok (p : CybouProtocolParameters) : Prop :=
  name_claim_work_bits p <= 256 /\ 0 < name_commit_min_depth p <= name_commit_max_lifetime p /\
  0 < max_pending_name_commits p <= DEFAULT_MAX_PENDING_NAME_COMMITS.
Definition valid_with (w : Z) (p : CybouProtocolParameters) : Prop :=
  general_ok p /\ rent_ok p /\ w * storage_rate_per_gib_day_replica p <= MAX64 /\ fees_ok p /\ names_ok p.
(** The largest chunks, replicas, seconds and periods of a lease. *)
Definition largest_lease (p : CybouProtocolParameters) : Z :=
  MAX_PUBLICATION_CHUNKS * storage_replica_target p * storage_settlement_period_seconds p * max_storage_lease_periods p.

Lemma rent_divisor_wraps p : rent_divisor p = largest_lease p mod 2 ^ 64.
Proof.
  unfold rent_divisor, largest_lease, wrap64. change (2 ^ 64) with 18446744073709551616.
  by rewrite (Zmult_mod_idemp_l (_ * storage_replica_target p)), Zmult_mod_idemp_l.
Qed.
Lemma fees_guard p : params_wf p ->
  let k := (ROOT_PUBLICATION_MAX_OPERATION_BYTES + 1023) / 1024 in
  let x := root_publication_fee_per_started_kib p in
  let y := root_publication_fee_per_chunk p in
  fees_ok p <->
  (negb (x =? 0) && (MAX64 / x <? k) || negb (y =? 0) && (MAX64 / y <? MAX_PUBLICATION_CHUNKS)) = false /\
  (MAX64 ⊖ (k ⊗ x) <? MAX_PUBLICATION_CHUNKS ⊗ y) = false.
Proof.
  intros Hp. cbv zeta. unfold fees_ok. set (k := _ / 1024). assert (Hk : k = 144) by reflexivity. clearbody k. subst k.
  assert (Hx : 0 <= root_publication_fee_per_started_kib p) by (unfold params_wf, is_u64 in Hp; lia).
  assert (Hy : 0 <= root_publication_fee_per_chunk p) by (unfold params_wf, is_u64 in Hp; lia).
  rewrite orb_false_iff, !fee_guard_iff by (done || (unfold MAX_PUBLICATION_CHUNKS; lia)).
  unfold MAX_PUBLICATION_CHUNKS. split.
  - intros E. split; [lia|]. rewrite !mul64_small, sub64_small by ulia. lia.
  - intros [[E1 E2] E]. rewrite !mul64_small, sub64_small in E by ulia. lia.
Qed.
(** The next check of the validation. *)
Ltac next_check E := match goal with |- context [if ?b then Ret false else _] => destruct b eqn:E end.
Lemma ValidateProtocolParameters_decides p : params_wf p ->
  (ValidateProtocolParameters p = Throw <-> general_ok p /\ rent_ok p /\ rent_divisor p = 0) /\
  (ValidateProtocolParameters p = Ret true <-> rent_divisor p <> 0 /\ valid_with (rent_divisor p) p).
Proof.
  intros Hp. pose proof (fees_guard p Hp) as Hf. cbv zeta in Hf. unfold valid_with. rewrite Hf. clear Hf.
  assert (Hd : 0 <= rent_divisor p) by (rewrite rent_divisor_wraps; by apply Z.mod_pos_bound).
  assert (Hp' : 0 <= max_account_creates_per_block p /\ 0 <= storage_rate_per_gib_day_replica p /\ 0 <= storage_replica_target p /\
    0 <= storage_settlement_period_seconds p /\ 0 <= name_commit_min_depth p /\ 0 <= max_pending_name_commits p).
  { unfold params_wf, is_u8, is_u32, is_u64 in Hp. lia. }
  clear Hp. unfold ValidateProtocolParameters, general_ok, rent_ok, names_ok. cbv zeta.
  next_check G1; [split; (split; [done|lia])|].
  next_check G2; [split; (split; [done|lia])|].
  next_check G3; [split; (split; [done|lia])|].
  next_check G4; [split; (split; [done|lia])|].
  unfold div64. destruct (rent_divisor p =? 0) eqn:G5; cbn [outcome_bind]; [split; [split; [intros _; lia|done]|split; [done|lia]]|].
  pose proof (quotient_guard (rent_divisor p) (storage_rate_per_gib_day_replica p) ltac:(lia)) as Hq.
  destruct (MAX64 / rent_divisor p <? storage_rate_per_gib_day_replica p) eqn:G6.
  { split; [split; [done|lia]|split; [done|]]. intros (_ & _ & _ & E & _). by apply Hq in E. }
  next_check G7; [split; [split; [done|lia]|split; [done|by intros (_ & _ & _ & _ & [] & _)]]|].
  next_check G8; [split; [split; [done|lia]|split; [done|by intros (_ & _ & _ & _ & [] & _)]]|].
  next_check G9; [split; (split; [done|lia])|].
  split; [split; [done|lia]|split; [intros _|done]]. split; [lia|]. split_and!; try done; try lia.
Qed.
(** Parameters that pass validation are safe for fees: no publication
    within the protocol's limits has a fee that cannot be computed, and the
    fee is the exact one. *)
Theorem ValidateProtocolParameters_fees p n chunks : params_wf p -> ValidateProtocolParameters p = Ret true ->
  0 < n <= ROOT_PUBLICATION_MAX_OPERATION_BYTES -> 0 < chunks <= MAX_PUBLICATION_CHUNKS ->
  ComputeRootPublicationFee p n chunks =
    Some ((n + 1023) / 1024 * root_publication_fee_per_started_kib p + chunks * root_publication_fee_per_chunk p).
Proof.
  unfold ROOT_PUBLICATION_MAX_OPERATION_BYTES, MAX_PUBLICATION_CHUNKS. intros Hp E Hn Hc.
  apply (ValidateProtocolParameters_decides p Hp) in E as (_ & _ & _ & _ & E & _). unfold fees_ok, MAX_PUBLICATION_CHUNKS in E.
  change ((ROOT_PUBLICATION_MAX_OPERATION_BYTES + 1023) / 1024) with 144 in E.
  rewrite publication_fee by (done || ulia). cbv zeta. rewrite decide_True; [done|].
  assert (Hx : 0 <= root_publication_fee_per_started_kib p) by (unfold params_wf, is_u64 in Hp; lia).
  assert (Hy : 0 <= root_publication_fee_per_chunk p) by (unfold params_wf, is_u64 in Hp; lia).
  assert (Hk : 0 <= (n + 1023) / 1024 <= 144) by dlia. split_and!; [lia..|]. nia.
Qed.

(** C39: what the validation of the protocol parameters decides. Parameters of
    their C++ types are accepted exactly when they are in range, no publication
    fee and no name limit is out of range, and the rate times the divisor of the
    storage check fits 64 bits; the divisor is the largest lease modulo 2^64,
    and validation throws, by a division by zero, exactly when it is zero. So
    as long as the largest lease fits 64 bits, validation always returns, and
    accepts exactly the parameters whose worst-case rent and fees fit. *)
Theorem ValidateProtocolParameters_correct p : params_wf p ->
  (ValidateProtocolParameters p = Throw <-> general_ok p /\ rent_ok p /\ largest_lease p mod 2 ^ 64 = 0) /\
  (ValidateProtocolParameters p = Ret true <->
     largest_lease p mod 2 ^ 64 <> 0 /\ valid_with (largest_lease p mod 2 ^ 64) p) /\
  (largest_lease p <= MAX64 -> exists valid, ValidateProtocolParameters p = Ret valid /\ (valid = true <-> valid_with (largest_lease p) p)).
Proof.
  intros Hp. destruct (ValidateProtocolParameters_decides p Hp) as [D1 D2]. rewrite rent_divisor_wraps in D1, D2. split_and!; [done|done|].
  assert (Hnn : 0 <= largest_lease p /\ (rent_ok p -> 0 < largest_lease p)).
  { unfold rent_ok, largest_lease, params_wf, is_u8, is_u32, is_u64, MAX_PUBLICATION_CHUNKS in *. split; [|intros Hr]; destruct_and? Hp;
      repeat first [apply Z.mul_nonneg_nonneg|apply Z.mul_pos_pos]; lia. }
  destruct Hnn as [Hnn Hpos]. intros Hs. rewrite Z.mod_small in D1, D2 by (change (2 ^ 64) with (MAX64 + 1); lia).
  destruct (ValidateProtocolParameters p) as [valid|].
  - exists valid. split; [done|]. split; [intros ->; by apply D2|]. intros Hv. assert (E : Ret valid = Ret true); [|by injection E].
    apply D2. split; [|done]. destruct Hv as (_ & Hr & _). specialize (Hpos Hr). lia.
  - destruct (proj1 D1 eq_refl) as (_ & Hr & Ez). specialize (Hpos Hr). lia.
Qed.

(** Parameters of the largest replicas and period. *)
Definition rent_params (periods rate : Z) : CybouProtocolParameters :=
  mkParams 25 1 100 20000 1024 1 4 4 16 1 1000 10000 true rate 16 16777216 periods.
(** The rent check multiplies its divisor at 64 bits, where the product
    wraps: with 65536 periods the divisor is zero and validation divides by
    it; with 65537 periods it is small, and a rate passes whose worst-case
    rent does not fit 64 bits. *)
Lemma rent_check_wraps :
  (params_wf (rent_params 65536 5) /\ ValidateProtocolParameters (rent_params 65536 5) = Throw) /\
  (let p := rent_params 65537 65535 in params_wf p /\ ValidateProtocolParameters p = Ret true /\
   MAX64 < MAX_PUBLICATION_CHUNKS * storage_replica_target p * storage_settlement_period_seconds p * max_storage_lease_periods p
           * storage_rate_per_gib_day_replica p).
Proof. split; [|cbv zeta]; split_and!; first [reflexivity|unfold params_wf; cbn; ulia]. Qed.
