(* ===== verification/StateStore.v ===== *)
(** * The state store

    [src/src/cybou/state_store.cpp] with the index writes of
    [finalized_event_index.cpp]: the owner of the canonical state, of the
    finalized blocks and of their indexes. The database is shared with the
    other components, so every operation takes it and returns it; the object
    itself keeps the verified genesis, the conflict detector and the snapshot
    of the state in memory. *)

From stdpp Require Import pretty.
From S2P Require Import Prelude.
From S2P Require Import Bytes.
From S2P Require Import Codec.
From S2P Require Import Params.
From S2P Require Import Crypto.
From S2P Require Import Identity.
From S2P Require Import Names.
From S2P Require Import Payloads.
From S2P Require Import Operation.
From S2P Require Import State.
From S2P Require Import StateCodec.
From S2P Require Import Ledger.
From S2P Require Import Executor.
From S2P Require Import Block.
From S2P Require Import NetworkGenesis.
From S2P Require Import KVStore.
From S2P Require Import Journal.
From S2P Require Import Detector.

(** ** Data *)

Record FinalizedHead : Type := mkFinalizedHead {
  fh_block_id : Hash256;
  fh_height : Z;
}.
#[export] Instance FinalizedHead_eq_dec : EqDecision FinalizedHead.
Proof. solve_decision. Defined.
Definition EncodeFinalizedHead (head : FinalizedHead) : bytes := arr_val (fh_block_id head) ++ le_bytes 8 (fh_height head).
Definition DecodeFinalizedHead (l : bytes) : option FinalizedHead :=
  return_if zlen l <? 32 + 8 with None ;;
  let? block_id := DecodeHash256 (subspan l 0 32) else None ;;
  let? height := DecodeU64 (subspan l 32 (zlen l - 32)) else None ;;
  Some (mkFinalizedHead block_id height).
#[export] Instance head_record : LocalRecord FinalizedHead :=
  {| rec_Encode := EncodeFinalizedHead; rec_Decode := DecodeFinalizedHead |}.

Inductive StateLoadError : Type := SE_NONE | SE_NOT_FOUND | SE_CORRUPT | SE_NETWORK_MISMATCH.
#[export] Instance StateLoadError_eq_dec : EqDecision StateLoadError.
Proof. solve_decision. Defined.
(** [StateLoadResult] and [StateSnapshotResult]: an error or a state. *)
Definition StateLoadResult : Type := StateLoadError + CybouState.
Inductive GenesisInitError : Type := GI_NONE | GI_ALREADY_INITIALIZED | GI_GENESIS_STATE_MISMATCH.
Inductive BlockTransitionError : Type :=
| BT_NONE | BT_INVALID_BLOCK_ID | BT_STATE_NOT_INITIALIZED | BT_NETWORK_MISMATCH | BT_CORRUPT_STATE
| BT_PARENT_MISMATCH | BT_BLOCK_ALREADY_APPLIED | BT_INVALID_HEIGHT | BT_CORRUPT_HEAD | BT_INVALID_OPERATION
| BT_TOO_MANY_ACCOUNT_CREATES | BT_INVALID_CERTIFICATE | BT_STATE_ROOT_MISMATCH | BT_POA_EQUIVOCATION_DETECTED
| BT_POA_SAFETY_HALTED.
#[export] Instance BlockTransitionError_eq_dec : EqDecision BlockTransitionError.
Proof. solve_decision. Defined.
Record BlockTransitionResult : Type := mkTransition {
  bt_error : BlockTransitionError;
  bt_op_result : BlockExecutionResult;
}.
Definition transition (e : BlockTransitionError) : BlockTransitionResult := mkTransition e (error_result BE_NONE).

Record CybouStateStore : Type := mkStore {
  ss_network_genesis : VerifiedNetworkGenesis;
  ss_network_binding : Hash256;
  ss_detector : PoaConflictDetector;
  ss_state_snapshot : option CybouState;
}.
Definition set_snapshot (s : CybouStateStore) (state : CybouState) :=
  mkStore (ss_network_genesis s) (ss_network_binding s) (ss_detector s) (Some state).
Definition set_detector (s : CybouStateStore) (detector : PoaConflictDetector) :=
  mkStore (ss_network_genesis s) (ss_network_binding s) detector (ss_state_snapshot s).

(** ** Keys *)

(** [std::to_string] of an unsigned number. *)
Definition to_string (v : Z) : bytes := str (pretty (Z.to_N v)).
Definition STATE_KEY : bytes := str "cybou/state".
Definition HASH_KEY : bytes := str "cybou/hash".
Definition HEAD_KEY : bytes := str "cybou/head".
Definition NETWORK_ID_KEY : bytes := str "cybou/network-id".
Definition BlockKey (block_id : Hash256) : bytes := str "cybou/block/" ++ GetHex block_id.
Definition BlockHeightKey (height : Z) : bytes := str "cybou/block-height/" ++ to_string height.
Definition OperationKey (op_id : Hash256) : bytes := str "cybou/operation/" ++ GetHex op_id.
Definition StateHeightKey (height : Z) : bytes := str "cybou/state-height/" ++ to_string height.

Definition EVENTS_HEAD : bytes := str "cybou/events/head".
Definition EVENTS_OPS : bytes := str "cybou/events/op/".
Definition EVENTS_KEM : bytes := str "cybou/events/kem/".
Definition EVENTS_PUBLICATIONS : bytes := str "cybou/events/publication/".
(** [OrderedNumber]: sixteen hexadecimal digits, the highest first. *)
Definition OrderedNumber (number : Z) : bytes :=
  (fun i => hex_digit (Z.land (Z.shiftr number (4 * (15 - Z.of_nat i))) 15)) <$> seq 0 16.
Definition KemKey (account : AccountId) (epoch : Z) : bytes :=
  EVENTS_KEM ++ GetHex account ++ str "/" ++ OrderedNumber epoch.

(** ** The event index *)

Record FinalizedEventLocation : Type := mkEventLocation {
  el_height : Z;
  el_operation_index : Z;
  el_block_id : Hash256;
}.
Definition EncodeLocation (location : FinalizedEventLocation) : bytes :=
  le_bytes 8 (el_height location) ++ le_bytes 4 (el_operation_index location) ++ arr_val (el_block_id location).
Definition DecodeLocation (value : bytes) : option FinalizedEventLocation :=
  return_if negb (zlen value =? 44) with None ;;
  Some (mkEventLocation (le_val (subspan value 0 8)) (le_val (subspan value 8 4)) (arr_of 32 (subspan value 12 32))).

Section store.
Context `{CryptoOps} `{LevelDB}.

(** The key package an operation publishes. *)
Definition kem_key (operation : ProtocolOperation) : option bytes :=
  match operation with
  | OpAccountCreate create => Some (KemKey (ac_account_id create) 0)
  | OpIdentityRotate rotate => Some (KemKey (rot_account_id rotate) (rot_key_epoch rotate))
  | _ => None
  end.
Definition is_publication (operation : ProtocolOperation) : bool :=
  match operation with OpRootPublication _ => true | _ => false end.
(** [batch.Erase(key)] or [batch.Write(key, value)]. *)
Definition event_row (erase : bool) (key value : bytes) : BatchEntry :=
  if erase then batch_Erase key else batch_Write key value.
Fixpoint write_event_rows (erase : bool) (height : Z) (block_id : Hash256) (i : Z) (operations : list ProtocolOperation)
    : outcome (list BatchEntry) :=
  match operations with
  | [] => Ret []
  | operation :: rest =>
      try! id := ComputeOperationId operation ;;
      let? id := id else Throw ;;
      let value := EncodeLocation (mkEventLocation height (wrap32 i) block_id) in
      let kem := match kem_key operation with Some key => [event_row erase key value] | None => [] end in
      try! rows := write_event_rows erase height block_id (i + 1) rest ;;
      Ret (event_row erase (EVENTS_OPS ++ GetHex id) value :: kem ++ rows)
  end.
(** [WriteEvents]: the rows it adds to the batch. *)
Definition WriteEvents (finalized : FinalizedBlock) (erase : bool) : outcome (list BatchEntry) :=
  let block := fin_block finalized in
  try! block_id := ComputeBlockId block ;;
  try! rows := write_event_rows erase (blk_height block) block_id 0 (blk_operations block) ;;
  let key := EVENTS_PUBLICATIONS ++ OrderedNumber (blk_height block) in
  Ret (rows ++ [if erase || negb (existsb is_publication (blk_operations block)) then batch_Erase key
                else batch_Write key (EncodeLocation (mkEventLocation (blk_height block) 0 block_id))]).
Definition AppendFinalizedEvents (d : db) (block : FinalizedBlock) (previous : FinalizedHead)
    (replaced : option FinalizedBlock) : outcome (list BatchEntry) :=
  try! erased := match replaced with Some replaced => WriteEvents replaced true | None => Ret [] end ;;
  try! written := WriteEvents block false ;;
  try! marker := kv_Read (T := bytes) d EVENTS_HEAD ;;
  if bool_decide (marker = Some (EncodeFinalizedHead previous)) then
    try! block_id := ComputeBlockId (fin_block block) ;;
    Ret (erased ++ written ++
         [batch_Write EVENTS_HEAD (EncodeFinalizedHead (mkFinalizedHead block_id (blk_height (fin_block block))))])
  else Ret (erased ++ written).

(** ** Construction and genesis *)

Definition open_store (d : db) (network_genesis : VerifiedNetworkGenesis) : outcome CybouStateStore * db :=
  match ComputeNetworkBinding (GetNetworkPublicKey network_genesis) with
  | Throw => (Throw, d)
  | Ret network_binding =>
      let (detector, d) := open_detector d network_binding (GetPoaPublicKey network_genesis) in
      (try! detector := detector ;; Ret (mkStore network_genesis network_binding detector None), d)
  end.

Definition PoaSafetyHalted (s : CybouStateStore) : bool := pd_halted (ss_detector s).

Definition InitializeGenesis (s : CybouStateStore) (d : db) (genesis_state : CybouState) (sync : bool)
    : outcome GenesisInitError * CybouStateStore * db :=
  match or_else (kv_Exists d STATE_KEY) (or_else (kv_Exists d HASH_KEY)
          (or_else (kv_Exists d HEAD_KEY) (kv_Exists d NETWORK_ID_KEY))) with
  | Throw => (Throw, s, d)
  | Ret true => (Ret GI_ALREADY_INITIALIZED, s, d)
  | Ret false =>
      let? state_hash := CybouStateHash genesis_state true else (Ret GI_GENESIS_STATE_MISMATCH, s, d) ;;
      return_if negb (bool_decide (state_hash = GetGenesisStateRoot (ss_network_genesis s)))
        with (Ret GI_GENESIS_STATE_MISMATCH, s, d) ;;
      let? serialized_state := SerializeCybouState genesis_state true else (Ret GI_GENESIS_STATE_MISMATCH, s, d) ;;
      let initial_head := mkFinalizedHead (GetGenesisAnchor (ss_network_genesis s)) 0 in
      let (ok, d) := kv_WriteBatch d [batch_Write STATE_KEY serialized_state; batch_Write HASH_KEY state_hash;
        batch_Write HEAD_KEY initial_head; batch_Write NETWORK_ID_KEY (ss_network_binding s);
        batch_Write (StateHeightKey 0) serialized_state; batch_Write EVENTS_HEAD (EncodeFinalizedHead initial_head)] sync in
      if ok then (Ret GI_NONE, set_snapshot s genesis_state, d) else (Throw, s, d)
  end.

(** ** Reads *)

Definition GetStateRoot (d : db) : outcome (option Hash256) := kv_Read d HASH_KEY.
Definition GetFinalizedHead (d : db) : outcome (option FinalizedHead) := kv_Read d HEAD_KEY.
Definition GetStoredNetworkBinding (d : db) : outcome (option Hash256) := kv_Read d NETWORK_ID_KEY.

Definition LoadStateLocked (s : CybouStateStore) (d : db) : outcome StateLoadResult :=
  try! state_exists := kv_Exists d STATE_KEY ;;
  try! hash_exists := kv_Exists d HASH_KEY ;;
  try! head_exists := kv_Exists d HEAD_KEY ;;
  try! network_exists := kv_Exists d NETWORK_ID_KEY ;;
  return_if negb state_exists && negb hash_exists && negb head_exists && negb network_exists with Ret (inl SE_NOT_FOUND) ;;
  return_if negb state_exists || negb hash_exists || negb head_exists || negb network_exists with Ret (inl SE_CORRUPT) ;;
  try! stored_network_binding := GetStoredNetworkBinding d ;;
  let? stored_network_binding := stored_network_binding else Ret (inl SE_CORRUPT) ;;
  return_if negb (bool_decide (stored_network_binding = ss_network_binding s)) with Ret (inl SE_NETWORK_MISMATCH) ;;
  try! l := kv_Read (T := bytes) d STATE_KEY ;;
  let? l := l else Ret (inl SE_CORRUPT) ;;
  try! stored_hash := kv_Read (T := Hash256) d HASH_KEY ;;
  let? stored_hash := stored_hash else Ret (inl SE_CORRUPT) ;;
  let? state := DeserializeCybouState l else Ret (inl SE_CORRUPT) ;;
  let? computed_hash := CybouStateHash state true else Ret (inl SE_CORRUPT) ;;
  return_if negb (bool_decide (computed_hash = stored_hash)) with Ret (inl SE_CORRUPT) ;;
  Ret (inr state).

(** [GetStateSnapshot] and [GetStateSnapshotLocked]: the snapshot is kept. *)
Definition GetStateSnapshot (s : CybouStateStore) (d : db) : outcome StateLoadResult * CybouStateStore :=
  match ss_state_snapshot s with
  | Some snapshot => (Ret (inr snapshot), s)
  | None =>
      match LoadStateLocked s d with
      | Throw => (Throw, s)
      | Ret (inl e) => (Ret (inl e), s)
      | Ret (inr state) => (Ret (inr state), set_snapshot s state)
      end
  end.

Definition GetBlock (d : db) (block_id : Hash256) : outcome (option FinalizedBlock) :=
  try! l := kv_Read (T := bytes) d (BlockKey block_id) ;;
  let? l := l else Ret None ;;
  DeserializeFinalizedBlock l.

(** The block stored under its own id at its own height. *)
Definition checked_block (d : db) (block_id : Hash256) (height : Z) : outcome (option FinalizedBlock) :=
  try! block := GetBlock d block_id ;;
  let? block := block else Ret None ;;
  return_if negb (blk_height (fin_block block) =? height) with Ret None ;;
  try! id := ComputeBlockId (fin_block block) ;;
  return_if negb (bool_decide (id = block_id)) with Ret None ;;
  Ret (Some block).
(** The loop from the head down, [n] blocks. *)
Fixpoint walk_back (d : db) (n : nat) (cursor : Z) (block_id : Hash256) : outcome (option Hash256) :=
  match n with
  | O => Ret (Some block_id)
  | S n =>
      try! ancestor := checked_block d block_id cursor ;;
      let? ancestor := ancestor else Ret None ;;
      walk_back d n (cursor - 1) (blk_parent_block_id (fin_block ancestor))
  end.
Definition GetBlockAtHeight (d : db) (height : Z) : outcome (option FinalizedBlock) :=
  return_if height =? 0 with Ret None ;;
  try! block_id := kv_Read (T := Hash256) d (BlockHeightKey height) ;;
  match block_id with
  | Some block_id => checked_block d block_id height
  | None =>
      try! head := GetFinalizedHead d ;;
      let? head := head else Ret None ;;
      return_if fh_height head <? height with Ret None ;;
      try! block_id := walk_back d (Z.to_nat (fh_height head - height)) (fh_height head) (fh_block_id head) ;;
      let? block_id := block_id else Ret None ;;
      checked_block d block_id height
  end.

Fixpoint contains_operation (op_id : Hash256) (operations : list ProtocolOperation) : outcome bool :=
  match operations with
  | [] => Ret false
  | operation :: rest =>
      try! id := ComputeOperationId operation ;;
      if bool_decide (id = Some op_id) then Ret true else contains_operation op_id rest
  end.
Definition GetFinalizedOperationHeight (s : CybouStateStore) (d : db) (op_id : Hash256) : outcome (option Z) :=
  return_if IsNull op_id with Ret None ;;
  try! block_id := kv_Read (T := Hash256) d (OperationKey op_id) ;;
  let? block_id := block_id else Ret None ;;
  try! head := GetFinalizedHead d ;;
  try! finalized := GetBlock d block_id ;;
  let? head := head else Ret None ;;
  let? finalized := finalized else Ret None ;;
  let block := fin_block finalized in
  let certificate := fin_certificate finalized in
  return_if (blk_height block =? 0) || (fh_height head <? blk_height block) with Ret None ;;
  try! id := ComputeBlockId block ;;
  return_if negb (bool_decide (id = block_id)) || negb (bool_decide (cert_block_id certificate = block_id))
    || negb (cert_height certificate =? blk_height block)
    || negb (bool_decide (cert_network_binding certificate = ss_network_binding s)) with Ret None ;;
  try! found := contains_operation op_id (blk_operations block) ;;
  return_if negb found with Ret None ;;
  Ret (Some (blk_height block)).
Definition HasIndexedFinalizedOperation (s : CybouStateStore) (d : db) (op_id : Hash256) : outcome bool :=
  try! height := GetFinalizedOperationHeight s d op_id ;;
  Ret (bool_decide (is_Some height)).

(** ** Execution *)

(** [explicit operator bool] of an execution, with what it then provides. *)
Definition executed (result : BlockExecutionResult) : option (CybouState * Hash256) :=
  return_if negb (bool_decide (res_error result = BE_NONE)) with None ;;
  let? state := res_state result else None ;;
  let? root := res_state_root result else None ;;
  Some (state, root).
Definition execution_failed (result : BlockExecutionResult) : BlockTransitionResult :=
  if bool_decide (res_error result = BE_TOO_MANY_ACCOUNT_CREATES) then transition BT_TOO_MANY_ACCOUNT_CREATES
  else mkTransition BT_INVALID_OPERATION result.
Definition expires_name (params : CybouProtocolParameters) (height : Z) (state : CybouState) : bool :=
  existsb (fun item => (0 <? name_commit_max_lifetime params) && (commit_height item.2 <? height)
                       && (name_commit_max_lifetime params <? height ⊖ commit_height item.2))
    (entries (pending_commits (st_names state))).

Definition ComputeCandidateStateRoot (s : CybouStateStore) (d : db) (operations : list ProtocolOperation) (height : Z)
    : outcome (option Hash256) * CybouStateStore :=
  let '(loaded, s) := GetStateSnapshot s d in
  (try! loaded := loaded ;;
   try! head := GetFinalizedHead d ;;
   match loaded, head with
   | inr state, Some head =>
       return_if negb (height =? fh_height head ⊕ 1) || (height =? 0) with Ret None ;;
       let params := GetProtocolParameters (ss_network_genesis s) in
       return_if bool_decide (operations = []) && negb (expires_name params height state) with GetStateRoot d ;;
       try! execution := ExecuteBlockOperations state operations (ss_network_binding s) height params
         (Some (GetPoaPublicKey (ss_network_genesis s))) (fh_block_id head) ;;
       Ret (snd <$> executed execution)
   | _, _ => Ret None
   end, s).

(** ** Commit *)

(** The index rows of the operations, where a missing id is skipped ... *)
Fixpoint operation_rows (row : Hash256 -> BatchEntry) (operations : list ProtocolOperation) : outcome (list BatchEntry) :=
  match operations with
  | [] => Ret []
  | operation :: rest =>
      try! op_id := ComputeOperationId operation ;;
      try! rows := operation_rows row rest ;;
      match op_id with
      | Some op_id => Ret (if IsNull op_id then rows else row op_id :: rows)
      | None => Ret rows
      end
  end.
(** ... and where it refuses the block. *)
Fixpoint checked_operation_rows (row : Hash256 -> BatchEntry) (operations : list ProtocolOperation)
    : outcome (option (list BatchEntry)) :=
  match operations with
  | [] => Ret (Some [])
  | operation :: rest =>
      try! op_id := ComputeOperationId operation ;;
      let? op_id := op_id else Ret None ;;
      return_if IsNull op_id with Ret None ;;
      try! rows := checked_operation_rows row rest ;;
      let? rows := rows else Ret None ;;
      Ret (Some (row op_id :: rows))
  end.

(** What a branch of the commit decides: an early return, or the batch to
    write and the snapshot to keep. *)
Definition commit_plan : Type := BlockTransitionResult + list BatchEntry * CybouState.

(** The branch that replaces the head by a smaller block id. *)
Definition plan_reorg (s : CybouStateStore) (d : db) (finalized_block : FinalizedBlock) (block_id : Hash256)
    (head : FinalizedHead) : outcome commit_plan :=
  let block := fin_block finalized_block in
  return_if negb (fh_height head =? blk_height block) with Ret (inl (transition BT_INVALID_HEIGHT)) ;;
  try! old_block := GetBlockAtHeight d (blk_height block) ;;
  let? old_block := old_block else Ret (inl (transition BT_PARENT_MISMATCH)) ;;
  return_if negb (bool_decide (blk_parent_block_id (fin_block old_block) = blk_parent_block_id block))
    with Ret (inl (transition BT_PARENT_MISMATCH)) ;;
  try! parent_state_bytes := kv_Read (T := bytes) d (StateHeightKey (blk_height block ⊖ 1)) ;;
  let? parent_state_bytes := parent_state_bytes else Ret (inl (transition BT_CORRUPT_STATE)) ;;
  let? parent_state := DeserializeCybouState parent_state_bytes else Ret (inl (transition BT_CORRUPT_STATE)) ;;
  try! execution := ExecuteBlockOperations parent_state (blk_operations block) (ss_network_binding s) (blk_height block)
    (GetProtocolParameters (ss_network_genesis s)) (Some (GetPoaPublicKey (ss_network_genesis s)))
    (blk_parent_block_id block) ;;
  let? (state, state_root) := executed execution else Ret (inl (execution_failed execution)) ;;
  return_if negb (bool_decide (state_root = blk_resulting_state_root block))
    with Ret (inl (transition BT_STATE_ROOT_MISMATCH)) ;;
  try! erased := operation_rows (fun op_id => batch_Erase (OperationKey op_id)) (blk_operations (fin_block old_block)) ;;
  let? state_bytes := SerializeCybouState state false else Ret (inl (transition BT_CORRUPT_STATE)) ;;
  try! serialized_finalized := SerializeFinalizedBlock finalized_block ;;
  let? serialized_finalized := serialized_finalized else Ret (inl (transition BT_CORRUPT_STATE)) ;;
  try! indexed := operation_rows (fun op_id => batch_Write (OperationKey op_id) block_id) (blk_operations block) ;;
  try! events := AppendFinalizedEvents d finalized_block head (Some old_block) ;;
  Ret (inr (erased ++ [batch_Write STATE_KEY state_bytes; batch_Write HASH_KEY state_root;
              batch_Write (StateHeightKey (blk_height block)) state_bytes;
              batch_Write HEAD_KEY (mkFinalizedHead block_id (blk_height block));
              batch_Write (BlockKey block_id) serialized_finalized;
              batch_Write (BlockHeightKey (blk_height block)) block_id] ++ indexed ++ events, state)).

(** The candidate root and the next state; an empty block that expires no name
    keeps both. *)
Definition next_root (s : CybouStateStore) (d : db) (block : CybouBlock) (state : CybouState)
    : outcome (BlockTransitionResult + Hash256 * option CybouState) :=
  let params := GetProtocolParameters (ss_network_genesis s) in
  if bool_decide (blk_operations block = []) && negb (expires_name params (blk_height block) state) then
    try! current_root := GetStateRoot d ;;
    let? current_root := current_root else Ret (inl (transition BT_CORRUPT_STATE)) ;;
    Ret (inr (current_root, None))
  else
    try! execution := ExecuteBlockOperations state (blk_operations block) (ss_network_binding s) (blk_height block) params
      (Some (GetPoaPublicKey (ss_network_genesis s))) (blk_parent_block_id block) ;;
    let? (next_state, root) := executed execution else Ret (inl (execution_failed execution)) ;;
    Ret (inr (root, Some next_state)).

(** The branch that extends the head. *)
Definition plan_next (s : CybouStateStore) (d : db) (finalized_block : FinalizedBlock) (block_id : Hash256)
    (head : FinalizedHead) (state : CybouState) : outcome commit_plan :=
  let block := fin_block finalized_block in
  return_if negb (bool_decide (fh_block_id head = blk_parent_block_id block))
    with Ret (inl (transition BT_PARENT_MISMATCH)) ;;
  return_if (fh_height head =? MAX64) || negb (blk_height block =? fh_height head ⊕ 1)
    with Ret (inl (transition BT_INVALID_HEIGHT)) ;;
  try! candidate := next_root s d block state ;;
  match candidate with
  | inl result => Ret (inl result)
  | inr (candidate_root, next_state) =>
      return_if negb (bool_decide (candidate_root = blk_resulting_state_root block))
        with Ret (inl (transition BT_STATE_ROOT_MISMATCH)) ;;
      let? state_bytes := SerializeCybouState (default state next_state) false
        else Ret (inl (transition BT_CORRUPT_STATE)) ;;
      let state_rows := match next_state with
        | Some _ => [batch_Write STATE_KEY state_bytes; batch_Write HASH_KEY candidate_root;
                     batch_Write (StateHeightKey (blk_height block)) state_bytes]
        | None => [batch_Write (StateHeightKey (blk_height block)) state_bytes]
        end in
      try! serialized_finalized := SerializeFinalizedBlock finalized_block ;;
      let? serialized_finalized := serialized_finalized else Ret (inl (transition BT_CORRUPT_STATE)) ;;
      try! indexed := checked_operation_rows (fun op_id => batch_Write (OperationKey op_id) block_id)
        (blk_operations block) ;;
      let? indexed := indexed else Ret (inl (transition BT_INVALID_OPERATION)) ;;
      let dropped := if 16 <? blk_height block then [batch_Erase (StateHeightKey (blk_height block - 16))] else [] in
      try! events := AppendFinalizedEvents d finalized_block head None ;;
      Ret (inr (state_rows ++ [batch_Write HEAD_KEY (mkFinalizedHead block_id (blk_height block));
                  batch_Write (BlockKey block_id) serialized_finalized;
                  batch_Write (BlockHeightKey (blk_height block)) block_id] ++ indexed ++ dropped ++ events,
                default state next_state))
  end.

(** The checks before the detector is asked: the id and the head. *)
Definition check_block (s : CybouStateStore) (d : db) (finalized_block : FinalizedBlock)
    : outcome (BlockTransitionResult + Hash256 * FinalizedHead) :=
  let block := fin_block finalized_block in
  let cert := fin_certificate finalized_block in
  return_if PoaSafetyHalted s with Ret (inl (transition BT_POA_SAFETY_HALTED)) ;;
  try! block_id := ComputeBlockId block ;;
  return_if IsNull block_id with Ret (inl (transition BT_INVALID_BLOCK_ID)) ;;
  try! head := GetFinalizedHead d ;;
  let? head := head else Ret (inl (transition BT_CORRUPT_HEAD)) ;;
  return_if bool_decide (fh_block_id head = block_id) with Ret (inl (transition BT_BLOCK_ALREADY_APPLIED)) ;;
  return_if negb (bool_decide (cert_network_binding cert = ss_network_binding s))
    || negb (bool_decide (cert_block_id cert = block_id)) || negb (cert_height cert =? blk_height block)
    || negb (bool_decide (cert_parent_block_id cert = blk_parent_block_id block))
    with Ret (inl (transition BT_INVALID_CERTIFICATE)) ;;
  try! verified := VerifyPoaCertificateForBlock cert (GetPoaPublicKey (ss_network_genesis s)) (ss_network_binding s) block ;;
  return_if negb verified with Ret (inl (transition BT_INVALID_CERTIFICATE)) ;;
  Ret (inr (block_id, head)).

(** What the detector's answer means: refuse, replace the head or extend it. *)
Definition observation_plan (s : CybouStateStore) (d : db) (finalized_block : FinalizedBlock) (block_id : Hash256)
    (head : FinalizedHead) (state : CybouState) (observation : PoaConflictStatus) : outcome commit_plan :=
  match observation with
  | PC_SAFETY_CONFLICT | PC_COMPETING_NON_CANONICAL => Ret (inl (transition BT_POA_EQUIVOCATION_DETECTED))
  | PC_ALREADY_HALTED | PC_CORRUPT_STORAGE | PC_STORAGE_ERROR => Ret (inl (transition BT_POA_SAFETY_HALTED))
  | PC_INVALID_CERTIFICATE => Ret (inl (transition BT_INVALID_CERTIFICATE))
  | PC_CANONICAL_REORG_REQUIRED => plan_reorg s d finalized_block block_id head
  | PC_OBSERVED | PC_ALREADY_OBSERVED => plan_next s d finalized_block block_id head state
  end.

(** [m_db.WriteBatch(batch, sync); m_state_snapshot.store(snapshot)]. *)
Definition write_plan (s : CybouStateStore) (d : db) (plan : outcome commit_plan) (sync : bool)
    : outcome BlockTransitionResult * CybouStateStore * db :=
  match plan with
  | Throw => (Throw, s, d)
  | Ret (inl result) => (Ret result, s, d)
  | Ret (inr (batch, snapshot)) =>
      let (ok, d) := kv_WriteBatch d batch sync in
      if ok then (Ret (transition BT_NONE), set_snapshot s snapshot, d) else (Throw, s, d)
  end.

Definition load_failed (e : StateLoadError) : BlockTransitionResult :=
  match e with
  | SE_NETWORK_MISMATCH => transition BT_NETWORK_MISMATCH
  | SE_CORRUPT => transition BT_CORRUPT_STATE
  | SE_NONE | SE_NOT_FOUND => transition BT_STATE_NOT_INITIALIZED
  end.
Definition CommitFinalizedBlock (s : CybouStateStore) (d : db) (finalized_block : FinalizedBlock) (sync : bool)
    : outcome BlockTransitionResult * CybouStateStore * db :=
  let '(loaded, s) := GetStateSnapshot s d in
  match loaded with
  | Throw => (Throw, s, d)
  | Ret (inl e) => (Ret (load_failed e), s, d)
  | Ret (inr state) =>
      match check_block s d finalized_block with
      | Throw => (Throw, s, d)
      | Ret (inl result) => (Ret result, s, d)
      | Ret (inr (block_id, head)) =>
          let '(observation, detector, d) :=
            Observe (ss_detector s) d (fin_certificate finalized_block) (fin_block finalized_block) in
          let s := set_detector s detector in
          match observation with
          | Throw => (Throw, s, d)
          | Ret observation =>
              write_plan s d (observation_plan s d finalized_block block_id head state observation) sync
          end
      end
  end.
End store.
