(* ===== verification/StateStoreProofs.v ===== *)
(** * What a commit writes

    The batch of a committed block, key by key; the keys of the store never
    collide with each other or with the detector's. *)

From stdpp Require Import pretty.
From S2P Require Import Prelude.
From S2P Require Import Bytes.
From S2P Require Import Codec.
From S2P Require Import Utf8.
From S2P Require Import Params.
From S2P Require Import Crypto.
From S2P Require Import Operation.
From S2P Require Import State.
From S2P Require Import StateCodec.
From S2P Require Import Executor.
From S2P Require Import Block.
From S2P Require Import NetworkGenesis.
From S2P Require Import KVStore.
From S2P Require Import Journal.
From S2P Require Import Detector.
From S2P Require Import StateStore.

(** ** Keys *)

(** The families of keys differ in their first twelve bytes. *)
Definition tag (k : bytes) : bytes := take 12 k.
Definition DETECTOR_TAG : bytes := str "poa-conflict".
Definition OPERATION_TAG : bytes := str "cybou/operat".
Definition BLOCK_TAG : bytes := str "cybou/block/".
Definition HEIGHT_TAG : bytes := str "cybou/block-".
Definition STATE_HEIGHT_TAG : bytes := str "cybou/state-".
Definition EVENTS_TAG : bytes := str "cybou/events".

Lemma tag_ne k1 k2 : tag k1 <> tag k2 -> EncodeBytes k1 <> EncodeBytes k2.
Proof. intros Hne E%(inj EncodeBytes). by subst. Qed.
Lemma BlockKey_inj a b : BlockKey a = BlockKey b -> a = b.
Proof.
  intros E%(inj (app _)). destruct (FromHex_GetHex a) as [_ Ha], (FromHex_GetHex b) as [_ Hb]. rewrite E, Hb in Ha. by some_inj Ha.
Qed.
Lemma str_inj a b : str a = str b -> a = b.
Proof. intros E%(f_equal String.string_of_list_byte). unfold str in E. by rewrite !String.string_of_list_byte_of_string in E. Qed.
Lemma to_string_inj a b : 0 <= a -> 0 <= b -> to_string a = to_string b -> a = b.
Proof. intros Ha Hb E%str_inj%(inj pretty). lia. Qed.
Lemma BlockHeightKey_inj a b : 0 <= a -> 0 <= b -> BlockHeightKey a = BlockHeightKey b -> a = b.
Proof. intros Ha Hb E%(inj (app _)). by apply to_string_inj. Qed.
Lemma StateHeightKey_inj a b : 0 <= a -> 0 <= b -> StateHeightKey a = StateHeightKey b -> a = b.
Proof. intros Ha Hb E%(inj (app _)). by apply to_string_inj. Qed.

(** The keys of a batch all belong to the given families. *)
Definition batch_in (tags : list bytes) (batch : list BatchEntry) : Prop :=
  Forall (fun k => exists x, k = EncodeBytes x /\ tag x ∈ tags) (batch_keys batch).
Lemma batch_in_nil tags : batch_in tags [].
Proof. constructor. Qed.
Lemma batch_in_app tags b1 b2 : batch_in tags b1 -> batch_in tags b2 -> batch_in tags (b1 ++ b2).
Proof. unfold batch_in, batch_keys. rewrite fmap_app. apply Forall_app_2. Qed.
Lemma batch_in_Write {T} `{LocalRecord T} tags k (v : T) batch : tag k ∈ tags -> batch_in tags batch ->
  batch_in tags (batch_Write k v :: batch).
Proof. intros Hk Hb. constructor; [by exists k|done]. Qed.
Lemma batch_in_Erase tags k batch : tag k ∈ tags -> batch_in tags batch -> batch_in tags (batch_Erase k :: batch).
Proof. intros Hk Hb. constructor; [by exists k|done]. Qed.
Lemma batch_in_other tags m batch k : batch_in tags batch -> tag k ∉ tags ->
  apply_batch m batch !! EncodeBytes k = m !! EncodeBytes k.
Proof.
  intros Hb Hk. apply apply_batch_other. intros Hin. apply (proj1 (Forall_forall _ _) Hb) in Hin as (x & E%(inj EncodeBytes) & Hx).
  by subst.
Qed.
Lemma apply_batch_app m b1 b2 : apply_batch m (b1 ++ b2) = apply_batch (apply_batch m b1) b2.
Proof. apply foldl_app. Qed.
Lemma apply_batch_Write {T} `{LocalRecord T} m k (v : T) batch :
  apply_batch m (batch_Write k v :: batch) = apply_batch (<[EncodeBytes k := rec_Encode v]> m) batch.
Proof. done. Qed.
Lemma apply_batch_nil m : apply_batch m [] = m.
Proof. done. Qed.

(** Decides a membership between concrete tags. *)
Ltac tags := solve [repeat first [apply list_elem_of_here | apply list_elem_of_further]].

Section rows.
Context `{CryptoOps} `{LevelDB}.

Lemma event_row_in tags erase k v batch : tag k ∈ tags -> batch_in tags batch -> batch_in tags (event_row erase k v :: batch).
Proof. destruct erase; [apply batch_in_Erase|apply batch_in_Write]. Qed.
Lemma write_event_rows_in erase h id ops : forall i rows, write_event_rows erase h id i ops = Ret rows ->
  batch_in [EVENTS_TAG] rows.
Proof.
  induction ops as [|op ops IH]; intros i rows E; cbn [write_event_rows] in E; [injection E as <-; apply batch_in_nil|].
  walk E. injection E as <-. apply event_row_in; [tags|]. apply batch_in_app; [|by eapply IH].
  destruct op; cbn [kem_key]; try apply batch_in_nil; (apply event_row_in; [tags|apply batch_in_nil]).
Qed.
Lemma WriteEvents_in f erase rows : WriteEvents f erase = Ret rows -> batch_in [EVENTS_TAG] rows.
Proof.
  intros E. unfold WriteEvents in E. walk E. injection E as <-. apply batch_in_app; [by eapply write_event_rows_in|].
  case_match; [apply batch_in_Erase|apply batch_in_Write]; try apply batch_in_nil; tags.
Qed.
Lemma AppendFinalizedEvents_in d f head old rows : AppendFinalizedEvents d f head old = Ret rows -> batch_in [EVENTS_TAG] rows.
Proof.
  intros E. unfold AppendFinalizedEvents in E. walk_step E. walk_step E.
  assert (Hr : batch_in [EVENTS_TAG] (a ++ a0)).
  { apply batch_in_app; [|by eapply WriteEvents_in]. destruct old; [by eapply WriteEvents_in|injection Hret as <-; apply batch_in_nil]. }
  walk_step E. walk_step E; [walk_step E; injection E as <-; rewrite app_assoc|by injection E as <-].
  apply batch_in_app; [done|]. apply batch_in_Write; [tags|apply batch_in_nil].
Qed.
Lemma operation_rows_in row ops rows : (forall id, exists x, batch_keys [row id] = [EncodeBytes x] /\ tag x = OPERATION_TAG) ->
  operation_rows row ops = Ret rows -> batch_in [OPERATION_TAG] rows.
Proof.
  intros Hrow. revert rows. induction ops as [|op ops IH]; intros rows E; cbn [operation_rows] in E; [injection E as <-; apply batch_in_nil|].
  walk_step E. walk_step E. pose proof (IH _ eq_refl) as Hr.
  destruct a as [id|]; [destruct (IsNull id)|]; injection E as <-; try done.
  apply (batch_in_app _ [row id]); [|done]. unfold batch_in. destruct (Hrow id) as (x & -> & Hx).
  constructor; [|constructor]. exists x. rewrite Hx. split; [done|tags].
Qed.
Lemma checked_operation_rows_in id ops rows :
  checked_operation_rows (fun op_id => batch_Write (OperationKey op_id) (id : Hash256)) ops = Ret (Some rows) ->
  batch_in [OPERATION_TAG] rows.
Proof.
  revert rows. induction ops as [|op ops IH]; intros rows E; cbn [checked_operation_rows] in E;
    [injection E as <-; apply batch_in_nil|].
  walk E. injection E as <-. apply batch_in_Write; [tags|by apply IH].
Qed.
End rows.

(** ** The effect of a committed batch *)

Lemma batch_in_weaken t1 t2 batch : (forall t, t ∈ t1 -> t ∈ t2) -> batch_in t1 batch -> batch_in t2 batch.
Proof. intros Ht Hb. eapply Forall_impl; [exact Hb|]. intros k (x & -> & Hx). exists x. auto. Qed.
(** Decides that a concrete tag is not among concrete tags. *)
Ltac other_tag := solve [let H := fresh in repeat (intros [H|H]%elem_of_cons; [vm_compute in H; discriminate H|revert H]);
                         intros []%elem_of_nil].
Ltac read_key :=
  repeat first
    [ rewrite lookup_insert_eq
    | rewrite lookup_insert_ne by (apply tag_ne; let E := fresh in intros E; vm_compute in E; discriminate E) ].

Section effect.
Context `{CryptoOps}.
Context (fb : FinalizedBlock) (id : Hash256).
#[local] Abbreviation block := (fin_block fb).

(** What [m'] holds after the block [fb] with id [id] was committed to [m],
    whose state was [st], and the snapshot became [st']. *)
Record commit_effect (st st' : CybouState) (m m' : gmap bytes bytes) : Prop := {
  ce_head : m' !! EncodeBytes HEAD_KEY = Some (EncodeFinalizedHead (mkFinalizedHead id (blk_height block)));
  ce_network : m' !! EncodeBytes NETWORK_ID_KEY = m !! EncodeBytes NETWORK_ID_KEY;
  ce_block : exists l, SerializeFinalizedBlock fb = Ret (Some l) /\ m' !! EncodeBytes (BlockKey id) = Some (EncodeBytes l);
  ce_height : m' !! EncodeBytes (BlockHeightKey (blk_height block)) = Some (arr_val id);
  ce_blocks i : i <> id -> m' !! EncodeBytes (BlockKey i) = m !! EncodeBytes (BlockKey i);
  ce_heights h : BlockHeightKey h <> BlockHeightKey (blk_height block) ->
    m' !! EncodeBytes (BlockHeightKey h) = m !! EncodeBytes (BlockHeightKey h);
  ce_state_height : exists l, SerializeCybouState st' false = Some l /\
    m' !! EncodeBytes (StateHeightKey (blk_height block)) = Some (EncodeBytes l);
  ce_state : (exists l, SerializeCybouState st' false = Some l /\
      m' !! EncodeBytes STATE_KEY = Some (EncodeBytes l) /\
      m' !! EncodeBytes HASH_KEY = Some (arr_val (blk_resulting_state_root block))) \/
    (st' = st /\ m' !! EncodeBytes STATE_KEY = m !! EncodeBytes STATE_KEY /\
      m' !! EncodeBytes HASH_KEY = m !! EncodeBytes HASH_KEY);
  ce_detector k : tag k = DETECTOR_TAG -> m' !! EncodeBytes k = m !! EncodeBytes k;
}.

(** The rows that both branches write. *)
Definition core_rows (lf : bytes) : list BatchEntry :=
  [batch_Write HEAD_KEY (mkFinalizedHead id (blk_height block)); batch_Write (BlockKey id) lf;
   batch_Write (BlockHeightKey (blk_height block)) id].
Definition state_rows (l : bytes) : list BatchEntry :=
  [batch_Write STATE_KEY l; batch_Write HASH_KEY (blk_resulting_state_root block);
   batch_Write (StateHeightKey (blk_height block)) l].
(** Index rows, and snapshots of other heights. *)
Definition index_key (x : bytes) : Prop :=
  tag x ∈ [OPERATION_TAG; EVENTS_TAG] \/ (tag x = STATE_HEIGHT_TAG /\ x <> StateHeightKey (blk_height block)).
Definition index_rows (batch : list BatchEntry) : Prop :=
  Forall (fun k => exists x, k = EncodeBytes x /\ index_key x) (batch_keys batch).
Lemma index_rows_app b1 b2 : index_rows b1 -> index_rows b2 -> index_rows (b1 ++ b2).
Proof. unfold index_rows, batch_keys. rewrite fmap_app. apply Forall_app_2. Qed.
Lemma index_rows_in tags batch : (forall t, t ∈ tags -> t ∈ [OPERATION_TAG; EVENTS_TAG]) -> batch_in tags batch -> index_rows batch.
Proof. intros Ht Hb. eapply Forall_impl; [exact Hb|]. intros k (x & -> & Hx). exists x. split; [done|]. left. auto. Qed.
Lemma index_rows_other m batch k : index_rows batch -> ~ index_key k -> apply_batch m batch !! EncodeBytes k = m !! EncodeBytes k.
Proof.
  intros Hb Hk. apply apply_batch_other. intros Hin. apply (proj1 (Forall_forall _ _) Hb) in Hin as (x & E%(inj EncodeBytes) & Hx).
  by subst.
Qed.
Lemma not_index_key k : tag k ∉ [OPERATION_TAG; EVENTS_TAG; STATE_HEIGHT_TAG] -> ~ index_key k.
Proof. intros Hk [Ht|[Ht _]]; apply Hk; [|rewrite Ht; tags]. rewrite !elem_of_cons in *. tauto. Qed.
Lemma own_snapshot_not_index : ~ index_key (StateHeightKey (blk_height block)).
Proof. intros [Hk|[_ ?]]; [|done]. revert Hk. other_tag. Qed.

(** Reads one key of [front ++ rows ++ tail]. *)
Ltac row Hf Ht :=
  rewrite ?apply_batch_app; rewrite (index_rows_other _ _ _ Ht) by ((apply not_index_key; other_tag) || apply own_snapshot_not_index);
  unfold state_rows, core_rows; rewrite ?apply_batch_Write, ?apply_batch_nil;
  cbn [rec_Encode bytes_record head_record hash_record]; read_key;
  rewrite ?(batch_in_other _ _ _ _ Hf) by other_tag.
Lemma not_same_tag k t : tag k = t -> t ∉ [OPERATION_TAG; EVENTS_TAG; STATE_HEIGHT_TAG] -> ~ index_key k.
Proof. intros <-. apply not_index_key. Qed.

Lemma core_effect (m m0 : gmap bytes bytes) lf tail : index_rows tail ->
  (forall k, tag k ∈ [DETECTOR_TAG; BLOCK_TAG; HEIGHT_TAG; tag NETWORK_ID_KEY] -> m0 !! EncodeBytes k = m !! EncodeBytes k) ->
  let m' := apply_batch m0 (core_rows lf ++ tail) in
  m' !! EncodeBytes HEAD_KEY = Some (EncodeFinalizedHead (mkFinalizedHead id (blk_height block))) /\
  m' !! EncodeBytes NETWORK_ID_KEY = m !! EncodeBytes NETWORK_ID_KEY /\
  m' !! EncodeBytes (BlockKey id) = Some (EncodeBytes lf) /\
  m' !! EncodeBytes (BlockHeightKey (blk_height block)) = Some (arr_val id) /\
  (forall i, i <> id -> m' !! EncodeBytes (BlockKey i) = m !! EncodeBytes (BlockKey i)) /\
  (forall h, BlockHeightKey h <> BlockHeightKey (blk_height block) ->
    m' !! EncodeBytes (BlockHeightKey h) = m !! EncodeBytes (BlockHeightKey h)) /\
  (forall k, tag k = DETECTOR_TAG -> m' !! EncodeBytes k = m !! EncodeBytes k).
Proof.
  intros Ht H0 m'. unfold m'. split_and!; intros; rewrite ?apply_batch_app;
    rewrite (index_rows_other _ _ _ Ht) by first [apply not_index_key; other_tag | by eapply not_same_tag; [eassumption|other_tag]];
    unfold core_rows; rewrite ?apply_batch_Write, ?apply_batch_nil; cbn [rec_Encode bytes_record head_record hash_record]; read_key.
  all: try done.
  - apply H0. tags.
  - rewrite lookup_insert_ne by (intros E%(inj EncodeBytes)%BlockKey_inj; congruence). read_key. apply H0. tags.
  - rewrite lookup_insert_ne by (intros E%(inj EncodeBytes); congruence). read_key. apply H0. tags.
  - rename select (tag _ = DETECTOR_TAG) into Hk.
    rewrite !lookup_insert_ne by (apply tag_ne; rewrite Hk; intros E; vm_compute in E; discriminate E).
    apply H0. rewrite Hk. tags.
Qed.

(** With a new state: [front] erases the index of the replaced block. *)
Lemma rows_effect st0 st m front l lf tail : batch_in [OPERATION_TAG] front -> index_rows tail ->
  SerializeFinalizedBlock fb = Ret (Some lf) -> SerializeCybouState st false = Some l ->
  commit_effect st0 st m (apply_batch m (front ++ state_rows l ++ core_rows lf ++ tail)).
Proof.
  intros Hf Ht Elf El. rewrite apply_batch_app, apply_batch_app.
  destruct (core_effect m (apply_batch (apply_batch m front) (state_rows l)) lf tail Ht) as (C1 & C2 & C3 & C4 & C5 & C6 & C7).
  { intros k Hk. unfold state_rows. rewrite ?apply_batch_Write, ?apply_batch_nil.
    rewrite !lookup_insert_ne by (apply tag_ne; intros E; rewrite <- E in Hk; revert Hk; other_tag).
    apply (batch_in_other _ _ _ _ Hf). intros Hin%list_elem_of_singleton. rewrite Hin in Hk. revert Hk. other_tag. }
  constructor; [done|done|by exists lf|done|done|done| | |done].
  - exists l. split; [done|]. row Hf Ht. done.
  - left. exists l. split; [done|]. split; row Hf Ht; done.
Qed.

(** An empty block keeps the state and writes its snapshot only. *)
Lemma noop_effect st m l lf tail : index_rows tail -> SerializeFinalizedBlock fb = Ret (Some lf) ->
  SerializeCybouState st false = Some l ->
  commit_effect st st m (apply_batch m ([batch_Write (StateHeightKey (blk_height block)) l] ++ core_rows lf ++ tail)).
Proof.
  intros Ht Elf El. pose proof (batch_in_nil [OPERATION_TAG]) as Hf. rewrite apply_batch_app.
  destruct (core_effect m (apply_batch m [batch_Write (StateHeightKey (blk_height block)) l]) lf tail Ht)
    as (C1 & C2 & C3 & C4 & C5 & C6 & C7).
  { intros k Hk. rewrite apply_batch_Write, apply_batch_nil.
    rewrite !lookup_insert_ne by (apply tag_ne; intros E; rewrite <- E in Hk; revert Hk; other_tag). done. }
  constructor; [done|done|by exists lf|done|done|done| | |done].
  - exists l. split; [done|]. row Hf Ht. done.
  - right. split; [done|]. split; row Hf Ht; done.
Qed.
End effect.
