(* ===== verification/StateCommit.v ===== *)
(** * Committing blocks

    A committed block is executed on the state it extends; the snapshot in
    memory is what the disk holds; a refused block changes nothing but the
    detector's records. *)

From S2P Require Import Prelude.
From S2P Require Import Bytes.
From S2P Require Import Codec.
From S2P Require Import Params.
From S2P Require Import Crypto.
From S2P Require Import Identity.
From S2P Require Import Names.
From S2P Require Import Operation.
From S2P Require Import State.
From S2P Require Import StateCodec.
From S2P Require Import StateCodecProofs.
From S2P Require Import Ledger.
From S2P Require Import Executor.
From S2P Require Import Block.
From S2P Require Import NetworkGenesis.
From S2P Require Import KVStore.
From S2P Require Import Journal.
From S2P Require Import Detector.
From S2P Require Import StateStore.
From S2P Require Import StateStoreProofs.

(** ** Execution *)

Section execution.
Context `{CryptoOps}.

Lemma Serialize_validate st : ValidateCybouState st = SV_NONE -> SerializeCybouState st true = SerializeCybouState st false.
Proof. intros E. unfold SerializeCybouState. by rewrite bool_decide_eq_true_2. Qed.
Lemma CybouStateHash_validate st : ValidateCybouState st = SV_NONE -> CybouStateHash st true = CybouStateHash st false.
Proof. intros E. unfold CybouStateHash. by rewrite Serialize_validate. Qed.
Lemma CybouStateHash_valid st root : CybouStateHash st true = Some root -> ValidateCybouState st = SV_NONE.
Proof. unfold CybouStateHash, SerializeCybouState. intros E. case_bool_decide; [done|]. done. Qed.

Lemma executed_Finalize x st root : executed (Finalize x) = Some (st, root) ->
  ValidateCybouState st = SV_NONE /\ CybouStateHash st true = Some root.
Proof.
  unfold Finalize. destruct (m_valid x); cbn [negb]; [|by unfold executed; case_match].
  case_bool_decide as Hv; cbn [negb]; [|done]. destruct (_ =? _); cbn [negb]; [|done].
  destruct (CybouStateHash _ _) as [r|] eqn:Eh; [|done]. intros [= <- <-].
  split; [done|]. by rewrite CybouStateHash_validate.
Qed.
Lemma execute_loop_executed ops : forall x i r st root, execute_loop x i ops = Ret r -> executed r = Some (st, root) ->
  ValidateCybouState st = SV_NONE /\ CybouStateHash st true = Some root.
Proof.
  induction ops as [|op ops IH]; intros x i r st root E Ee; cbn [execute_loop] in E.
  - injection E as <-. by eapply executed_Finalize.
  - walk_step E. destruct a as [res x1]. walk_step E; [|by eapply IH]. injection E as <-.
    unfold executed in Ee. cbn [res_error] in Ee. by rewrite Hif in Ee.
Qed.
Lemma ExecuteBlockOperations_executed parent ops nb h params key pid r st root :
  ExecuteBlockOperations parent ops nb h params key pid = Ret r -> executed r = Some (st, root) ->
  ValidateCybouState st = SV_NONE /\ CybouStateHash st true = Some root.
Proof.
  intros E Ee. unfold ExecuteBlockOperations in E. walk_step E; [by injection E as <-|]. cbv zeta in E.
  walk_step E; [|by eapply execute_loop_executed]. injection E as <-.
  unfold new_executor in Ee. case_match; cbn in Ee; done.
Qed.

(** The shortcut for an empty block that expires no name agrees with
    execution. *)
Lemma purge_nothing params h st : expires_name params h st = false -> purge_commits params h st = st.
Proof.
  intros E. unfold purge_commits. destruct (0 <? _) eqn:Hl; [|done].
  rewrite map_filter_id; [by destruct st as [? ? [] ? ? ? ?]|].
  intros k r Hk. unfold expires_name in E. rewrite Hl in E. cbn [andb] in E. unfold commit_expired.
  destruct (_ && _) eqn:Hx; [|done]. apply not_true_iff_false in E. exfalso. apply E, existsb_exists. exists (k, r).
  split; [|done]. by apply list_elem_of_In, elem_of_entries.
Qed.
Lemma empty_block_executes st nb h params key pid root : 0 <= max_account_creates_per_block params ->
  expires_name params h st = false -> CybouStateHash st true = Some root ->
  exists r, ExecuteBlockOperations st [] nb h params key pid = Ret r /\ executed r = Some (st, root).
Proof.
  intros Hp He Eh. pose proof (CybouStateHash_valid _ _ Eh) as Hv. unfold ExecuteBlockOperations.
  rewrite (proj2 (Z.ltb_ge _ _)) by done. unfold new_executor. rewrite bool_decide_eq_true_2 by done. cbn [negb m_valid].
  rewrite purge_nothing by done. cbn [execute_loop]. eexists. split; [done|]. unfold Finalize.
  cbn [m_valid m_candidate m_initial_supply negb]. rewrite bool_decide_eq_true_2, Z.eqb_refl by done. cbn [negb].
  rewrite <- CybouStateHash_validate, Eh by done. done.
Qed.
End execution.

(** ** The branches *)

Section plans.
Context `{CryptoOps} {L : LevelDB} {Laws : LevelDBLaws L}.
#[local] Set Default Proof Using "Type + Laws".

(** The block executes on [st] and gives [st'] with the root it names. *)
Definition executes (s : CybouStateStore) (block : CybouBlock) (st st' : CybouState) : Prop :=
  exists r, ExecuteBlockOperations st (blk_operations block) (ss_network_binding s) (blk_height block)
      (GetProtocolParameters (ss_network_genesis s)) (Some (GetPoaPublicKey (ss_network_genesis s))) (blk_parent_block_id block) = Ret r /\
    executed r = Some (st', blk_resulting_state_root block).
Lemma executes_valid s block st st' : executes s block st st' ->
  ValidateCybouState st' = SV_NONE /\ CybouStateHash st' true = Some (blk_resulting_state_root block).
Proof. intros (r & E & Er). by eapply ExecuteBlockOperations_executed. Qed.

Lemma next_root_inv s d block st root next : next_root s d block st = Ret (inr (root, next)) ->
  match next with
  | Some st' => exists r, ExecuteBlockOperations st (blk_operations block) (ss_network_binding s) (blk_height block)
      (GetProtocolParameters (ss_network_genesis s)) (Some (GetPoaPublicKey (ss_network_genesis s))) (blk_parent_block_id block) = Ret r /\
      executed r = Some (st', root)
  | None => blk_operations block = [] /\ expires_name (GetProtocolParameters (ss_network_genesis s)) (blk_height block) st = false /\
      stored (contents d) HASH_KEY = Some root
  end.
Proof.
  intros E. unfold next_root in E. walk_step E.
  - walk E. injection E as <- <-. guards. split_and!; [done..|]. symmetry. by apply kv_Read_stored in Hret.
  - walk E. injection E as <- <-. exists a. done.
Qed.

Lemma plan_next_inv s d fb id head st batch st' : is_u64 (blk_height (fin_block fb)) -> is_u64 (fh_height head) ->
  plan_next s d fb id head st = Ret (inr (batch, st')) ->
  fh_block_id head = blk_parent_block_id (fin_block fb) /\ blk_height (fin_block fb) = fh_height head + 1 /\
  (executes s (fin_block fb) st st' \/
    st' = st /\ blk_operations (fin_block fb) = [] /\
    expires_name (GetProtocolParameters (ss_network_genesis s)) (blk_height (fin_block fb)) st = false /\
    stored (contents d) HASH_KEY = Some (blk_resulting_state_root (fin_block fb))) /\
  forall m, commit_effect fb id st st' m (apply_batch m batch).
Proof.
  intros Hu Hh E. unfold plan_next in E. cbv zeta in E. walk_step E. walk_step E. walk_step E.
  destruct a as [|[root next]]; [done|]. walk_step E. walk_step E. walk_step E. walk_step E. walk_step E. walk_step E. walk_step E.
  apply (inj Ret), (inj inr) in E. injection E as <- <-. guards. subst root.
  rewrite add64_small in * by ulia. split_and!; [done|done| |].
  - apply next_root_inv in Hret. destruct next as [st'|]; [by left|]. right. by destruct Hret as (? & ? & ?).
  - intros m.
    assert (Ht : index_rows fb (l1 ++ (if 16 <? blk_height (fin_block fb)
      then [batch_Erase (StateHeightKey (blk_height (fin_block fb) - 16))] else []) ++ a1)).
    { apply index_rows_app; [|apply index_rows_app].
      - eapply index_rows_in; [|by eapply checked_operation_rows_in]. intros t ->%list_elem_of_singleton. tags.
      - case_match; [|constructor]. constructor; [|constructor].
        exists (StateHeightKey (blk_height (fin_block fb) - 16)). split; [done|]. right. split; [done|].
        intros E. apply StateHeightKey_inj in E; ulia.
      - eapply index_rows_in; [|by eapply AppendFinalizedEvents_in]. intros t ->%list_elem_of_singleton. tags. }
    destruct next as [st'|].
    + exact (rows_effect fb id st st' m [] l l0 _ (batch_in_nil _) Ht Hret0 Hopt).
    + exact (noop_effect fb id st m l l0 _ Ht Hret0 Hopt).
Qed.

(** The replaced block is the one stored at the height. *)
Lemma plan_reorg_inv s d fb id head st batch st' : plan_reorg s d fb id head = Ret (inr (batch, st')) ->
  fh_height head = blk_height (fin_block fb) /\
  (exists old, GetBlockAtHeight d (blk_height (fin_block fb)) = Ret (Some old) /\
    blk_parent_block_id (fin_block old) = blk_parent_block_id (fin_block fb)) /\
  (exists l parent_state, stored (contents d) (StateHeightKey (blk_height (fin_block fb) ⊖ 1)) = Some l /\
    DeserializeCybouState l = Some parent_state /\ executes s (fin_block fb) parent_state st') /\
  forall m, commit_effect fb id st st' m (apply_batch m batch).
Proof.
  intros E. unfold plan_reorg in E. cbv zeta in E. do 17 walk_step E.
  apply (inj Ret), (inj inr) in E. injection E as <- <-. guards. subst.
  split_and!; [done|by eexists| |].
  - exists l, c. split_and!; [by apply kv_Read_stored in Hret0|done|by exists a1].
  - intros m. apply (rows_effect fb id st c0 m a3 l0 l1); [| |done|done].
    + eapply operation_rows_in; [|exact Hret2]. intros op. by exists (OperationKey op).
    + apply index_rows_app.
      * eapply (index_rows_in _ [OPERATION_TAG]); [intros t ->%list_elem_of_singleton; tags|].
        eapply operation_rows_in; [|exact Hret4]. intros op. by exists (OperationKey op).
      * eapply (index_rows_in _ [EVENTS_TAG]); [intros t ->%list_elem_of_singleton; tags|]. by eapply AppendFinalizedEvents_in.
Qed.

Lemma execution_failed_error r : bt_error (execution_failed r) <> BT_NONE.
Proof. unfold execution_failed. by case_bool_decide. Qed.
Lemma plan_next_refused s d fb id head st res : plan_next s d fb id head st = Ret (inl res) -> bt_error res <> BT_NONE.
Proof.
  intros E. unfold plan_next in E. cbv zeta in E. walk_step E; [by injection E as <-|]. walk_step E; [by injection E as <-|].
  walk_step E. destruct a as [res'|[root next]].
  - injection E as <-. unfold next_root in Hret. walk_step Hret; walk Hret; injection Hret as <-; try done.
    apply execution_failed_error.
  - walk E; by injection E as <-.
Qed.
Lemma plan_reorg_refused s d fb id head res : plan_reorg s d fb id head = Ret (inl res) -> bt_error res <> BT_NONE.
Proof. intros E. unfold plan_reorg in E. cbv zeta in E. walk E; injection E as <-; try done. apply execution_failed_error. Qed.
Lemma observation_plan_refused s d fb id head st obs res :
  observation_plan s d fb id head st obs = Ret (inl res) -> bt_error res <> BT_NONE.
Proof.
  destruct obs; cbn; try (by injection 1 as <-); [by apply plan_next_refused|by apply plan_next_refused|by apply plan_reorg_refused].
Qed.
Lemma check_block_refused s d fb res : check_block s d fb = Ret (inl res) -> bt_error res <> BT_NONE.
Proof. intros E. unfold check_block in E. cbv zeta in E. walk E; by injection E as <-. Qed.

(** ** The detector's keys *)

(** Two contents that agree on everything but the detector's records. *)
Definition same_store (m m' : gmap bytes bytes) : Prop :=
  forall k, tag k <> DETECTOR_TAG -> m' !! EncodeBytes k = m !! EncodeBytes k.
Lemma same_store_refl m : same_store m m.
Proof. done. Qed.
Lemma same_store_trans m1 m2 m3 : same_store m1 m2 -> same_store m2 m3 -> same_store m1 m3.
Proof. intros H1 H2 k Hk. by rewrite H2, H1. Qed.
Lemma same_store_stored {T} `{LocalRecord T} m m' k : same_store m m' -> tag k <> DETECTOR_TAG ->
  stored m' k = (stored m k : option T).
Proof. intros Hs Hk. unfold stored. by rewrite (Hs k Hk). Qed.

(** No observation was lost or replaced by a larger id. *)
Definition observations_kept (p : PoaConflictDetector) (m m' : gmap bytes bytes) : Prop :=
  forall sl o, is_u64 sl.1 -> observed p m sl = Some o ->
    exists o', observed p m' sl = Some o' /\ alt (cert_block_id o) (cert_block_id o') = false.
Lemma observations_kept_refl p m : observations_kept p m m.
Proof. intros sl o _ Ho. exists o. split; [done|apply blt_irrefl]. Qed.

(** The detector's keys start with its own prefix. *)
Definition detector_tagged (p : PoaConflictDetector) : Prop := forall x, tag (pd_prefix p ++ x) = DETECTOR_TAG.
Lemma kv_Write_same {T} `{LocalRecord T} d k (v : T) sync ok d' : tag k = DETECTOR_TAG ->
  kv_Write d k v sync = (ok, d') -> same_store (contents d) (contents d').
Proof.
  intros Hk E k' Hk'. destruct ok; [apply kv_Write_contents in E|by apply write_failed in E as ->].
  rewrite E, lookup_insert_ne; [done|]. apply tag_ne. congruence.
Qed.
Lemma PersistHaltRecord_same p d r ok p' d' : detector_tagged p -> PersistHaltRecord p d r = (ok, p', d') ->
  same_store (contents d) (contents d') /\ pd_prefix p' = pd_prefix p.
Proof.
  intros Ht E. unfold PersistHaltRecord in E. destruct (kv_Write _ _ _ _) as [ok1 d1] eqn:Ew. injection E as <- <- <-.
  split; [|done]. eapply (kv_Write_same (T := bytes)); [|exact Ew]. apply Ht.
Qed.
Lemma corrupt_storage_same p d r p' d' : detector_tagged p -> corrupt_storage p d = (r, p', d') ->
  same_store (contents d) (contents d') /\ pd_prefix p' = pd_prefix p.
Proof.
  intros Ht E. unfold corrupt_storage in E. destruct (PersistHaltRecord _ _ _) as [[ok p1] d1] eqn:Ep. injection E as <- <- <-.
  by eapply PersistHaltRecord_same.
Qed.
Lemma record_conflict_same p d key l1 l2 c o r p' d' : detector_tagged p -> tag key = DETECTOR_TAG ->
  record_conflict p d key l1 l2 c o = (r, p', d') -> same_store (contents d) (contents d') /\ pd_prefix p' = pd_prefix p.
Proof.
  intros Ht Hk E. unfold record_conflict in E. cbv zeta in E. destruct (kv_Write d _ _ _) as [ok d1] eqn:Ew.
  apply (kv_Write_same (T := bytes)) in Ew; [|apply Ht]. destruct ok; cbn [negb] in E; [|by injection E as <- <- <-].
  walk_step E; [|by injection E as <- <- <-]. destruct (kv_Write d1 _ _ _) as [ok2 d2] eqn:Ew2.
  apply (kv_Write_same (T := bytes)) in Ew2; [|done]. destruct ok2; injection E as <- <- <-; (split; [by eapply same_store_trans|done]).
Qed.
Lemma Observe_same p d c b r p' d' : detector_tagged p -> Observe p d c b = (r, p', d') ->
  same_store (contents d) (contents d') /\ pd_prefix p' = pd_prefix p.
Proof.
  intros Ht E. assert (Hk : tag (ObservationKey (pd_prefix p) c) = DETECTOR_TAG) by apply Ht. unfold Observe in E.
  walk_step E; [|by injection E as <- <- <-].
  destruct (VerifyPoaCertificateForBlock _ _ _ _) as [[]|]; [|by injection E as <- <- <-..].
  walk_step E; [by injection E as <- <- <-|]. cbv zeta in E.
  destruct (kv_Read d _) as [[lp|]|]; [| |by injection E as <- <- <-].
  - destruct (DeserializePoaFinalityCertificate lp) as [o|]; [|by eapply corrupt_storage_same].
    destruct (previous_ok _ _ _) as [[]|]; [|by eapply corrupt_storage_same|by injection E as <- <- <-].
    walk_step E; [by injection E as <- <- <-|]. by eapply record_conflict_same.
  - destruct (kv_Exists _ _) as [[]|]; [by eapply corrupt_storage_same| |by injection E as <- <- <-].
    destruct (kv_Write _ _ _ _) as [ok d1] eqn:Ew. apply (kv_Write_same (T := bytes)) in Ew; [|done].
    destruct ok; by injection E as <- <- <-.
Qed.

(** ** The snapshot is what the disk holds *)

(** A state the local codec can carry: its fields have their C++ widths and
    its encoding is at most 32 MiB. *)
Record storable (st : CybouState) : Prop := {
  so_typed : state_typed st;
  so_registry : registry_wf (identities st);
  so_kem : forall id rec, m_accounts (identities st) !! id = Some rec -> has_nonzero (arr_val (ir_kem_package_id rec)) = true;
  so_size : forall l, SerializeCybouState st true = Some l -> zlen l <= MAX_COMPACT_SIZE;
}.

(** What reading the state from the contents [m] needs. *)
Record on_disk (s : CybouStateStore) (m : gmap bytes bytes) (st : CybouState) : Prop := {
  od_hash : exists root, CybouStateHash st true = Some root /\ stored m HASH_KEY = Some root;
  od_network : stored m NETWORK_ID_KEY = Some (ss_network_binding s);
  od_head : is_Some (m !! EncodeBytes HEAD_KEY);
  od_state : is_Some (m !! EncodeBytes STATE_KEY);
  od_bytes : storable st -> exists l, stored m STATE_KEY = Some l /\ DeserializeCybouState l = Some st;
}.
Definition coherent (s : CybouStateStore) (m : gmap bytes bytes) : Prop :=
  forall st, ss_state_snapshot s = Some st -> on_disk s m st.

Lemma on_disk_same s m m' st : same_store m m' -> on_disk s m st -> on_disk s m' st.
Proof.
  intros Hs [H1 H2 H3 H4 H5]. constructor; rewrite ?(Hs HEAD_KEY), ?(Hs STATE_KEY) by done; try done;
    rewrite (same_store_stored m m') by done; done.
Qed.

Lemma LoadStateLocked_on_disk s d st : LoadStateLocked s d = Ret (inr st) -> on_disk s (contents d) st.
Proof.
  intros E. unfold LoadStateLocked, GetStoredNetworkBinding in E. walk E. injection E as <-. guards. subst.
  repeat match goal with Hr : kv_Read _ _ = Ret _ |- _ => apply kv_Read_stored in Hr end.
  repeat match goal with Hr : kv_Exists _ _ = Ret _ |- _ => apply kv_Exists_contents in Hr; symmetry in Hr end. guards.
  constructor; eauto.
Qed.
(** Goes on after a read that has answered. *)
Ltac answered E Ht := destruct E as [E|E]; rewrite E in Ht |- *; [cbn [outcome_bind negb andb orb] in Ht |- *|done].
Lemma on_disk_LoadStateLocked s d st : on_disk s (contents d) st -> storable st -> LoadStateLocked s d <> Throw ->
  LoadStateLocked s d = Ret (inr st).
Proof.
  intros [(root & Er & Eh) En Hh Hl Hb] Hs Ht. destruct (Hb Hs) as (l & El & Ed).
  unfold LoadStateLocked, GetStoredNetworkBinding in *.
  pose proof (kv_Exists_answers d STATE_KEY Hl) as E1. answered E1 Ht.
  pose proof (kv_Exists_answers d HASH_KEY (stored_exists _ _ _ Eh)) as E2. answered E2 Ht.
  pose proof (kv_Exists_answers d HEAD_KEY Hh) as E3. answered E3 Ht.
  pose proof (kv_Exists_answers d NETWORK_ID_KEY (stored_exists _ _ _ En)) as E4. answered E4 Ht.
  pose proof (kv_Read_answers d _ _ En) as E5. answered E5 Ht. rewrite bool_decide_eq_true_2 in Ht |- * by done. cbn [negb] in Ht |- *.
  pose proof (kv_Read_answers d _ _ El) as E6. answered E6 Ht.
  pose proof (kv_Read_answers d _ _ Eh) as E7. answered E7 Ht.
  rewrite Ed, Er in Ht |- *. by rewrite bool_decide_eq_true_2.
Qed.

Lemma GetStateSnapshot_inv s d r s1 : coherent s (contents d) -> GetStateSnapshot s d = (r, s1) ->
  coherent s1 (contents d) /\ (forall st, r = Ret (inr st) -> ss_state_snapshot s1 = Some st) /\
  ss_network_genesis s1 = ss_network_genesis s /\ ss_network_binding s1 = ss_network_binding s /\ ss_detector s1 = ss_detector s.
Proof.
  intros Hc E. unfold GetStateSnapshot in E. destruct (ss_state_snapshot s) as [st|] eqn:Es.
  { injection E as <- <-. split_and!; try done. by intros st' [= <-]. }
  destruct (LoadStateLocked s d) as [[e|st]|] eqn:El; injection E as <- <-; (split_and!; try done).
  - intros st' [= <-]. by apply LoadStateLocked_on_disk in El as [].
  - by intros st' [= <-].
Qed.

(** A committed batch leaves the new snapshot on disk. *)
Lemma commit_effect_on_disk s fb id st st' m m' : commit_effect fb id st st' m m' ->
  ValidateCybouState st' = SV_NONE -> CybouStateHash st' true = Some (blk_resulting_state_root (fin_block fb)) ->
  on_disk s m st -> on_disk s m' st'.
Proof.
  intros [C1 C2 _ _ _ _ _ C8 _] Hv Hh [H1 H2 H3 H4 H5].
  constructor; [|unfold stored in *; by rewrite C2|by rewrite C1| |].
  - destruct C8 as [(l & _ & _ & Eh)|(-> & _ & Eh)]; [|unfold stored in *; by rewrite Eh].
    eexists. split; [done|]. unfold stored. rewrite Eh. apply DecodeHash256_arr.
  - destruct C8 as [(l & _ & El & _)|(_ & El & _)]; rewrite El; [by eexists|done].
  - intros Hs. destruct C8 as [(l & E & El & _)|(-> & El & _)]; [|unfold stored in *; rewrite El; by apply H5].
    destruct (state_reads_back st' (so_typed _ Hs) (so_registry _ Hs) (so_kem _ Hs) Hv) as (l' & E' & D').
    pose proof (so_size _ Hs l' E') as Hz. rewrite Serialize_validate, E in E' by done. some_inj E'.
    exists l'. split; [|done]. unfold stored. rewrite El. by apply DecodeBytes_Encode.
Qed.

(** ** A commit *)

Definition store_ok (s : CybouStateStore) : Prop :=
  detector_tagged (ss_detector s) /\ params_wf (GetProtocolParameters (ss_network_genesis s)).
Definition same_object (s s' : CybouStateStore) : Prop :=
  ss_network_genesis s' = ss_network_genesis s /\ ss_network_binding s' = ss_network_binding s /\
  pd_prefix (ss_detector s') = pd_prefix (ss_detector s).

Lemma DecodeFinalizedHead_range l head : DecodeFinalizedHead l = Some head -> is_u64 (fh_height head).
Proof.
  unfold DecodeFinalizedHead, DecodeU64. intros E. walk E. some_inj E. walk Hopt0. some_inj Hopt0. cbn [fh_height]. guards.
  apply is_u64_at; lia.
Qed.

Lemma check_block_inv s d fb id head : check_block s d fb = Ret (inr (id, head)) ->
  VerifyPoaCertificateForBlock (fin_certificate fb) (GetPoaPublicKey (ss_network_genesis s)) (ss_network_binding s) (fin_block fb)
    = Ret true /\
  ComputeBlockId (fin_block fb) = Ret id /\ stored (contents d) HEAD_KEY = Some head /\ is_u64 (fh_height head) /\
  fh_block_id head <> id.
Proof.
  intros E. unfold check_block, GetFinalizedHead in E. cbv zeta in E. walk E. injection E as <- <-. guards. subst.
  apply kv_Read_stored in Hret0. split_and!; [done|done|done| |done]. unfold stored in Hret0.
  destruct (contents d !! _); [|done]. symmetry in Hret0. by eapply DecodeFinalizedHead_range.
Qed.

(** Both branches execute the block, on the head's state or on its parent's. *)
Definition extends (s : CybouStateStore) (d : db) (fb : FinalizedBlock) (head : FinalizedHead) (st st' : CybouState)
    (obs : PoaConflictStatus) : Prop :=
  (obs = PC_OBSERVED \/ obs = PC_ALREADY_OBSERVED) /\
    fh_block_id head = blk_parent_block_id (fin_block fb) /\ blk_height (fin_block fb) = fh_height head + 1 /\
    executes s (fin_block fb) st st' \/
  obs = PC_CANONICAL_REORG_REQUIRED /\ fh_height head = blk_height (fin_block fb) /\
    (exists old, GetBlockAtHeight d (blk_height (fin_block fb)) = Ret (Some old) /\
      blk_parent_block_id (fin_block old) = blk_parent_block_id (fin_block fb)) /\
    exists l parent_state, stored (contents d) (StateHeightKey (blk_height (fin_block fb) ⊖ 1)) = Some l /\
      DeserializeCybouState l = Some parent_state /\ executes s (fin_block fb) parent_state st'.
Lemma extends_valid s d fb head st st' obs : extends s d fb head st st' obs ->
  ValidateCybouState st' = SV_NONE /\ CybouStateHash st' true = Some (blk_resulting_state_root (fin_block fb)).
Proof. intros [(_ & _ & _ & E)|(_ & _ & _ & l & ps & _ & _ & E)]; by eapply executes_valid. Qed.

Lemma plan_next_extends s d fb id head st obs batch st' : obs = PC_OBSERVED \/ obs = PC_ALREADY_OBSERVED ->
  is_u64 (blk_height (fin_block fb)) -> is_u64 (fh_height head) -> params_wf (GetProtocolParameters (ss_network_genesis s)) ->
  on_disk s (contents d) st -> plan_next s d fb id head st = Ret (inr (batch, st')) ->
  extends s d fb head st st' obs /\ forall m, commit_effect fb id st st' m (apply_batch m batch).
Proof.
  intros Hobs Hu Hh Hp Hd E. apply plan_next_inv in E as (H1 & H2 & H3 & H4); [|done..]. split; [|done]. left.
  split_and!; [done..|]. destruct H3 as [H3|(-> & Eops & Hx & Eh)]; [done|]. destruct Hd as [(root & Er & Eh') _ _ _ _].
  rewrite Eh in Eh'. some_inj Eh'. unfold executes. rewrite Eops. apply empty_block_executes; [|done..].
  unfold params_wf in Hp. ulia.
Qed.
Lemma observation_plan_inv s d fb id head st obs batch st' :
  is_u64 (blk_height (fin_block fb)) -> is_u64 (fh_height head) -> params_wf (GetProtocolParameters (ss_network_genesis s)) ->
  on_disk s (contents d) st -> observation_plan s d fb id head st obs = Ret (inr (batch, st')) ->
  extends s d fb head st st' obs /\ forall m, commit_effect fb id st st' m (apply_batch m batch).
Proof.
  intros Hu Hh Hp Hd E. destruct obs; cbn [observation_plan] in E; try done.
  - apply plan_next_extends; auto.
  - apply plan_next_extends; auto.
  - eapply plan_reorg_inv in E as (H1 & H2 & H3 & H4). split; [|exact H4]. by right.
Qed.

(** What a commit that succeeds has done: [st] was the snapshot before. *)
Record committed (s : CybouStateStore) (d : db) (fb : FinalizedBlock) (s' : CybouStateStore) (d' : db) : Prop := {
  cm_certificate : VerifyPoaCertificateForBlock (fin_certificate fb) (GetPoaPublicKey (ss_network_genesis s))
    (ss_network_binding s) (fin_block fb) = Ret true;
  cm_rest : exists id head obs d1 st st', ComputeBlockId (fin_block fb) = Ret id /\
    stored (contents d) HEAD_KEY = Some head /\ fh_block_id head <> id /\
    Observe (ss_detector s) d (fin_certificate fb) (fin_block fb) = (Ret obs, ss_detector s', d1) /\
    GetStateSnapshot s d = (Ret (inr st), mkStore (ss_network_genesis s) (ss_network_binding s) (ss_detector s) (Some st)) /\
    ss_state_snapshot s' = Some st' /\ commit_effect fb id st st' (contents d1) (contents d') /\
    extends s d1 fb head st st' obs;
}.

(** What a commit that does not succeed leaves. *)
Definition refused (s : CybouStateStore) (d : db) (r : outcome BlockTransitionResult) (d' : db) : Prop :=
  (forall res, r = Ret res -> bt_error res <> BT_NONE) /\ same_store (contents d) (contents d') /\
  observations_kept (ss_detector s) (contents d) (contents d').
Lemma refused_unchanged s d r : (forall res, r = Ret res -> bt_error res <> BT_NONE) -> refused s d r d.
Proof. intros Hr. split_and!; [done|done|apply observations_kept_refl]. Qed.

Lemma certificate_height c key net block : VerifyPoaCertificateForBlock c key net block = Ret true ->
  cert_height c = blk_height block.
Proof.
  intros (l & id & _ & _ & (_ & _ & E & _)%VerifyPoaFinalityCertificate_true)%VerifyPoaCertificateForBlock_true.
  by rewrite E.
Qed.
Lemma commit_spec s d fb sync r s' d' : store_ok s -> coherent s (contents d) -> is_u64 (blk_height (fin_block fb)) ->
  CommitFinalizedBlock s d fb sync = (r, s', d') ->
  same_object s s' /\ coherent s' (contents d') /\
  (refused s d r d' \/ r = Ret (transition BT_NONE) /\ committed s d fb s' d').
Proof.
  intros [Htag Hparams] Hcoh Hu E. unfold CommitFinalizedBlock in E.
  destruct (GetStateSnapshot s d) as [loaded s1] eqn:Eg. pose proof Eg as Eg'.
  apply GetStateSnapshot_inv in Eg as (Hc1 & Hsnap & G1 & G2 & G3); [|done].
  assert (Hobj : same_object s s1) by (split_and!; congruence).
  destruct loaded as [[e|st]|]; [injection E as <- <- <-|..|injection E as <- <- <-].
  { split_and!; [done|done|]. left. apply refused_unchanged. intros res [= <-]. by destruct e. }
  2: { split_and!; [done|done|]. left. by apply refused_unchanged. }
  destruct (check_block s1 d fb) as [[res|[id head]]|] eqn:Ecb; [injection E as <- <- <-| |injection E as <- <- <-].
  { split_and!; [done|done|]. left. apply refused_unchanged. intros res' [= <-]. by eapply check_block_refused. }
  2: { split_and!; [done|done|]. left. by apply refused_unchanged. }
  apply check_block_inv in Ecb as (Hv & Eid & Ehead & Hhu & Hne).
  destruct (Observe _ d _ _) as [[obs p1] d1] eqn:Eo. rewrite G3 in Eo. rewrite G1, G2 in Hv.
  destruct (Observe_same _ _ _ _ _ _ _ Htag Eo) as [Hsame Hpre].
  assert (Hkept : observations_kept (ss_detector s) (contents d) (contents d1)).
  { intros sl o Hsl Ho. eapply Observe_monotone; [|exact Hsl|exact Eo|exact Ho]. by rewrite (certificate_height _ _ _ _ Hv). }
  set (s2 := set_detector s1 p1) in *.
  assert (Hobj2 : same_object s s2) by (split_and!; [exact G1|exact G2|exact Hpre]).
  assert (Hc2 : coherent s2 (contents d1)).
  { intros st0 Hst0. eapply on_disk_same; [exact Hsame|]. destruct (Hc1 st0 Hst0). by constructor. }
  destruct obs as [obs|]; [|injection E as <- <- <-; split_and!; [done|done|]; by left].
  unfold write_plan in E. destruct (observation_plan s2 d1 fb id head st obs) as [[res|[batch st']]|] eqn:Ep; cycle 2.
  { injection E as <- <- <-. split_and!; [done|done|]. by left. }
  { injection E as <- <- <-. split_and!; [done|done|]. left. split_and!; [|done|done]. intros res' [= <-].
    by eapply observation_plan_refused. }
  destruct (kv_WriteBatch d1 batch sync) as [[] d2] eqn:Ew; injection E as <- <- <-; cycle 1.
  { apply write_failed in Ew. split_and!; [done|by rewrite Ew|]. left. split_and!; [done|by rewrite Ew|by rewrite Ew]. }
  apply write_ok in Ew.
  assert (Hst : ss_state_snapshot s1 = Some st) by (by apply Hsnap).
  destruct (observation_plan_inv s2 d1 fb id head st obs batch st') as [Hext Heff]; [done|done| |by apply Hc2|done|].
  { cbn [ss_network_genesis set_detector s2]. by rewrite G1. }
  specialize (Heff (contents d1)). rewrite <- Ew in Heff. destruct (extends_valid _ _ _ _ _ _ _ Hext) as [Hval Hroot].
  split_and!; [done| |right; split; [done|]].
  - intros st0 [= <-]. eapply commit_effect_on_disk; [exact Heff|done..|]. by destruct (Hc2 st Hst).
  - constructor; [done|]. exists id, head, obs, d1, st, st'. split_and!; [done..| |done|done|].
    + rewrite Eg'. f_equal. destruct s1; cbn in *. congruence.
    + unfold extends, executes in *. cbn [ss_network_binding ss_network_genesis set_detector s2] in Hext. by rewrite G1, G2 in Hext.
Qed.
End plans.
