(* ===== verification/StateChain.v ===== *)
(** * The store implements a chain

    The abstract specification of the store is a list of block ids that only
    grows at its end, or has its last id replaced by a smaller one. The records
    in the database represent such a list, and every commit, whatever its
    outcome, is a step of it. *)

From S2P Require Import Prelude.
From S2P Require Import Bytes.
From S2P Require Import Codec.
From S2P Require Import Params.
From S2P Require Import Crypto.
From S2P Require Import State.
From S2P Require Import StateCodec.
From S2P Require Import StateCodecProofs.
From S2P Require Import Executor.
From S2P Require Import Block.
From S2P Require Import KVStore.
From S2P Require Import Journal.
From S2P Require Import Detector.
From S2P Require Import NetworkGenesis.
From S2P Require Import StateStore.
From S2P Require Import StateStoreProofs.
From S2P Require Import StateCommit.

(** ** The specification *)

(** The ids of the blocks at heights 1, 2, ... *)
Inductive chain_step : list Hash256 -> list Hash256 -> Prop :=
| chain_extend chain id : chain_step chain (chain ++ [id])
| chain_replace chain old id : alt id old = true -> chain_step (chain ++ [old]) (chain ++ [id]).

Section chain.
Context `{CryptoOps} {L : LevelDB} {Laws : LevelDBLaws L}.
#[local] Set Default Proof Using "Type + Laws".

(** ** The representation *)

Definition tip (anchor : Hash256) (chain : list Hash256) : Hash256 := default anchor (last chain).
Lemma tip_snoc anchor chain id : tip anchor (chain ++ [id]) = id.
Proof. unfold tip. by rewrite last_snoc. Qed.

(** A finalized block that the local codec can carry. *)
Definition block_storable (fb : FinalizedBlock) : Prop :=
  finalized_typed fb /\ forall l, SerializeFinalizedBlock fb = Ret (Some l) -> zlen l <= MAX_COMPACT_SIZE.
Definition stored_block (m : gmap bytes bytes) (id : Hash256) (fb : FinalizedBlock) : Prop :=
  block_storable fb /\ ComputeBlockId (fin_block fb) = Ret id /\
  exists l, SerializeFinalizedBlock fb = Ret (Some l) /\ m !! EncodeBytes (BlockKey id) = Some (EncodeBytes l).

Record represents (anchor : Hash256) (p : PoaConflictDetector) (m : gmap bytes bytes) (chain : list Hash256) : Prop := {
  rp_head : stored m HEAD_KEY = Some (mkFinalizedHead (tip anchor chain) (zlen chain));
  rp_blocks front id back : chain = front ++ id :: back -> exists fb, stored_block m id fb /\
    blk_height (fin_block fb) = zlen front + 1 /\ blk_parent_block_id (fin_block fb) = tip anchor front /\
    stored m (BlockHeightKey (zlen front + 1)) = Some id;
  rp_observed front id : chain = front ++ [id] -> exists c, observed p m (zlen chain, tip anchor front) = Some c /\
    alt id (cert_block_id c) = false;
}.

Lemma represents_head_u64 anchor p m chain : represents anchor p m chain -> is_u64 (zlen chain).
Proof.
  intros [Hh _ _]. unfold stored in Hh. destruct (m !! _); [|done]. apply DecodeFinalizedHead_range in Hh. done.
Qed.
Lemma stored_block_same m m' id fb : m' !! EncodeBytes (BlockKey id) = m !! EncodeBytes (BlockKey id) ->
  stored_block m id fb -> stored_block m' id fb.
Proof. unfold stored_block. by intros ->. Qed.

(** The detector's writes keep the representation while the record it holds
    for the head does not grow. *)
Lemma represents_same anchor p m m' chain : represents anchor p m chain -> same_store m m' ->
  (forall front id c, chain = front ++ [id] -> observed p m (zlen chain, tip anchor front) = Some c ->
     exists c', observed p m' (zlen chain, tip anchor front) = Some c' /\ alt (cert_block_id c) (cert_block_id c') = false) ->
  represents anchor p m' chain.
Proof.
  intros [R1 R2 R3] Hs Ho. constructor.
  - rewrite (same_store_stored m) by done. done.
  - intros front id back Ec. destruct (R2 _ _ _ Ec) as (fb & Hfb & Hh & Hp & Hi). exists fb. split_and!; [|done|done|].
    + eapply stored_block_same; [|done]. by apply Hs.
    + rewrite (same_store_stored m) by done. done.
  - intros front id Ec. destruct (R3 _ _ Ec) as (c & Hc & Hle). destruct (Ho _ _ _ Ec Hc) as (c' & Hc' & Hle').
    exists c'. split; [done|]. by eapply alt_ge_trans.
Qed.


Lemma DecodeFinalizedHead_Encode head : is_u64 (fh_height head) -> DecodeFinalizedHead (EncodeFinalizedHead head) = Some head.
Proof.
  destruct head as [id h]. cbn [fh_height]. intros Hh. unfold DecodeFinalizedHead, EncodeFinalizedHead, DecodeU64, DecodeHash256.
  cbn [fh_block_id fh_height]. rewrite zlen_app, zlen_arr, zlen_le_bytes. change (Z.of_N 32 + Z.of_nat 8) with 40. constants.
  rewrite (subspan_at (arr_val id) _ 0 32) by (done || exact (zlen_arr id)). rewrite zlen_arr. constants.
  rewrite (subspan_whole (arr_val id) 0 32) by (done || exact (zlen_arr id)). rewrite arr_of_arr.
  rewrite (subspan_skip (arr_val id) _ 32) by (rewrite zlen_arr; simpl; lia). rewrite zlen_arr.
  rewrite (subspan_whole (le_bytes 8 h)) by (rewrite ?zlen_le_bytes; done). rewrite zlen_le_bytes. constants.
  rewrite (subspan_whole (le_bytes 8 h)) by (rewrite ?zlen_le_bytes; done). by rewrite le_val_u64.
Qed.

Lemma observed_effect fb id st st' m m' p s : commit_effect fb id st st' m m' -> detector_tagged p ->
  observed p m' s = observed p m s.
Proof. intros C Ht. unfold observed, stored. rewrite (ce_detector _ _ _ _ _ _ C); [done|]. apply Ht. Qed.
Lemma observed_prefix p p' m s : pd_prefix p' = pd_prefix p -> observed p' m s = observed p m s.
Proof. unfold observed. by intros ->. Qed.

(** The new head after a kept part of the chain. *)
Lemma represents_append anchor p m m' front rest fb id st st' c : represents anchor p m (front ++ rest) -> id ∉ front ->
  commit_effect fb id st st' m m' -> block_storable fb -> ComputeBlockId (fin_block fb) = Ret id -> is_u64 (blk_height (fin_block fb)) ->
  blk_height (fin_block fb) = zlen front + 1 -> blk_parent_block_id (fin_block fb) = tip anchor front -> detector_tagged p ->
  observed p m (blk_height (fin_block fb), blk_parent_block_id (fin_block fb)) = Some c -> alt id (cert_block_id c) = false ->
  represents anchor p m' (front ++ [id]).
Proof.
  intros [_ R2 _] Hnin C Hfb Eid Hu Hh Hp Ht Hc Hle. constructor.
  - unfold stored. rewrite (ce_head _ _ _ _ _ _ C). rewrite tip_snoc, zlen_app. change (zlen [id]) with 1. rewrite <- Hh.
    by apply DecodeFinalizedHead_Encode.
  - intros f i back E. destruct back as [|x back _] using rev_ind.
    + apply app_inj_tail in E as [<- <-]. exists fb. split_and!; [|done|done|].
      * split_and!; [done|done|]. destruct (ce_block _ _ _ _ _ _ C) as (l & El & Em). eauto.
      * rewrite <- Hh. unfold stored. rewrite (ce_height _ _ _ _ _ _ C). apply DecodeHash256_arr.
    + change (i :: back ++ [x]) with ((i :: back) ++ [x]) in E. rewrite app_assoc in E. apply app_inj_tail in E as [-> _].
      rewrite <- app_assoc in R2. destruct (R2 f i (back ++ rest) eq_refl) as (fb' & Hfb' & Hh' & Hp' & Hi').
      exists fb'. split_and!; [|done|done|].
      * eapply stored_block_same; [|done]. apply (ce_blocks _ _ _ _ _ _ C). intros ->. apply Hnin. set_solver.
      * rewrite <- Hi'. unfold stored. rewrite (ce_heights _ _ _ _ _ _ C); [done|].
        intros Ek. apply BlockHeightKey_inj in Ek; [|pose proof (zlen_nonneg f); lia|ulia].
        rewrite Hh, zlen_app, zlen_cons in Ek. pose proof (zlen_nonneg back). lia.
  - intros f i [<- <-]%app_inj_tail. exists c. split; [|done]. rewrite (observed_effect _ _ _ _ _ _ _ _ C Ht), zlen_app.
    change (zlen [id]) with 1. by rewrite <- Hh, <- Hp.
Qed.

Lemma fresh_id anchor p m chain fb id : represents anchor p m chain -> is_u64 (blk_height (fin_block fb)) ->
  ComputeBlockId (fin_block fb) = Ret id ->
  (forall front back, chain = front ++ id :: back -> zlen front + 1 <> blk_height (fin_block fb)) ->
  id ∉ chain \/ sha256_collision.
Proof.
  intros R Hu Eid Hne. destruct (decide (id ∈ chain)) as [Hin|]; [|by left]. right.
  apply list_elem_of_split in Hin as (front & back & E). destruct (rp_blocks _ _ _ _ R _ _ _ E) as (fb' & (Hs & Eid' & _) & Hh & _).
  destruct (block_id_height _ _ _ (proj1 (proj1 (proj1 Hs))) Hu Eid' Eid) as [Eh|]; [|done]. exfalso. apply (Hne _ _ E). congruence.
Qed.

(** ** The simulation *)

Lemma certificate_slot c key net block : VerifyPoaCertificateForBlock c key net block = Ret true ->
  slot_of c = (blk_height block, blk_parent_block_id block) /\ forall id, ComputeBlockId block = Ret id -> cert_block_id c = id.
Proof.
  intros (l & id & _ & Ei & (_ & _ & E & _)%VerifyPoaFinalityCertificate_true)%VerifyPoaCertificateForBlock_true.
  rewrite E. split; [done|]. intros id' E'. rewrite Ei in E'. by injection E' as <-.
Qed.

(** The block found at the height of the head is the head. *)
Lemma head_block anchor p d front old fb : represents anchor p (contents d) (front ++ [old]) ->
  GetBlockAtHeight d (zlen front + 1) = Ret (Some fb) -> blk_parent_block_id (fin_block fb) = tip anchor front.
Proof.
  intros R E. destruct (rp_blocks _ _ _ _ R front old [] eq_refl) as (fb' & (Hs & Eid & l & El & Em) & Hh & Hp & Hi).
  unfold GetBlockAtHeight in E. pose proof (zlen_nonneg front). rewrite (proj2 (Z.eqb_neq _ _)) in E by lia.
  walk_step E. apply kv_Read_stored in Hret. rewrite Hi in Hret. subst a. unfold checked_block, GetBlock in E.
  walk_step E. walk_step Hret. apply kv_Read_stored in Hret0. unfold stored in Hret0. rewrite Em in Hret0.
  destruct Hs as [Ht Hz]. cbn [rec_Decode bytes_record] in Hret0. rewrite DecodeBytes_Encode in Hret0 by (by apply Hz). subst.
  rewrite (finalized_decode fb' l) in Hret; [|done|by pose proof (Hz _ El); unfold MAX_COMPACT_SIZE in *; ulia|done].
  injection Hret as <-. walk E. by injection E as <-.
Qed.

Lemma represents_kept anchor p p' m m' chain : represents anchor p m chain -> same_store m m' -> pd_prefix p' = pd_prefix p ->
  observations_kept p m m' -> represents anchor p' m' chain.
Proof.
  intros R Hs Hpre Hk. apply represents_same with m; [|done|].
  - destruct R as [R1 R2 R3]. constructor; [done|done|]. intros f i E. rewrite (observed_prefix p) by done. by apply R3.
  - intros front id c E. rewrite !(observed_prefix p p') by done. apply Hk. by eapply represents_head_u64.
Qed.

(** A block that may be committed is the one the detector now holds. *)
Lemma Observe_records p d c b obs p' d1 : Observe p d c b = (Ret obs, p', d1) -> is_u64 (cert_height c) ->
  obs = PC_OBSERVED \/ obs = PC_ALREADY_OBSERVED \/ obs = PC_CANONICAL_REORG_REQUIRED ->
  exists c', observed p (contents d1) (slot_of c) = Some c' /\ cert_block_id c' = cert_block_id c.
Proof.
  intros E Hu Hobs. pose proof (Observe_status _ _ _ _ _ _ _ E) as Hst. cbv zeta in Hst.
  destruct (Observe_pick _ _ _ _ _ _ _ Hu E) as (_ & Hp & _); [by destruct Hobs as [-> |[-> | ->]]|].
  eexists. split; [exact Hp|]. destruct Hobs as [-> |[-> | ->]].
  - by rewrite Hst.
  - destruct (observed p (contents d) (slot_of c)) as [o|]; [|done]. cbn in Hst. injection Hst as Hst. cbn [pick].
    unfold alt. by rewrite Hst, blt_irrefl.
  - destruct Hst as (o & -> & Hlt). cbn [pick]. by rewrite Hlt.
Qed.

(** The branches, once the detector has recorded the block. *)
Section branch.
Context (anchor : Hash256) (p : PoaConflictDetector) (d : db) (fb : FinalizedBlock) (id : Hash256) (st st' : CybouState)
  (c : PoaFinalityCertificate) (m' : gmap bytes bytes).
Hypothesis Htag : detector_tagged p.
Hypothesis Hfb : block_storable fb.
Hypothesis Hu : is_u64 (blk_height (fin_block fb)).
Hypothesis Eid : ComputeBlockId (fin_block fb) = Ret id.
Hypothesis Ceff : commit_effect fb id st st' (contents d) m'.
Hypothesis Hc : observed p (contents d) (blk_height (fin_block fb), blk_parent_block_id (fin_block fb)) = Some c.
Hypothesis Hcid : cert_block_id c = id.

Lemma own_observation : alt id (cert_block_id c) = false.
Proof using Hcid. rewrite Hcid. apply blt_irrefl. Qed.
Lemma extend_represents chain : represents anchor p (contents d) chain -> tip anchor chain = blk_parent_block_id (fin_block fb) ->
  blk_height (fin_block fb) = zlen chain + 1 -> sha256_collision \/ represents anchor p m' (chain ++ [id]).
Proof using All.
  intros R Ht Hh. destruct (fresh_id _ _ _ _ _ _ R Hu Eid) as [Hnin|]; [| |by left].
  - intros front back -> E. rewrite zlen_app, zlen_cons in Hh. pose proof (zlen_nonneg back). lia.
  - right. eapply (represents_append _ _ (contents d) _ _ []); [by rewrite app_nil_r|done..|apply own_observation].
Qed.
Lemma replace_represents front old : represents anchor p (contents d) (front ++ [old]) ->
  blk_parent_block_id (fin_block fb) = tip anchor front -> blk_height (fin_block fb) = zlen front + 1 -> old <> id ->
  sha256_collision \/ represents anchor p m' (front ++ [id]).
Proof using All.
  intros R Ht Hh Hne. destruct (fresh_id _ _ _ _ _ _ R Hu Eid) as [Hnin|]; [| |by left].
  - intros f back E Ef. rewrite Hh in Ef. apply app_inj_1 in E as [_ E]; [congruence|]. unfold zlen in Ef. lia.
  - right. eapply (represents_append _ _ (contents d)); [exact R|set_solver|done..|apply own_observation].
Qed.
End branch.

Lemma commit_represents anchor chain s d fb sync r s' d' : store_ok s -> coherent s (contents d) -> block_storable fb ->
  represents anchor (ss_detector s) (contents d) chain -> CommitFinalizedBlock s d fb sync = (r, s', d') ->
  sha256_collision \/ exists chain', represents anchor (ss_detector s') (contents d') chain' /\
    (chain' = chain \/ r = Ret (transition BT_NONE) /\ chain_step chain chain' /\
      exists id, ComputeBlockId (fin_block fb) = Ret id /\ last chain' = Some id).
Proof.
  intros Hok Hcoh Hfb R E. pose proof (proj1 (proj1 (proj1 Hfb)) : is_u64 (blk_height (fin_block fb))) as Hu.
  destruct (commit_spec _ _ _ _ _ _ _ Hok Hcoh Hu E) as ((_ & _ & Hpre) & _ & [(_ & Hs & Hk)|(-> & Hv & C)]).
  { right. exists chain. split; [|by left]. by eapply represents_kept. }
  destruct C as (id & head & obs & d1 & st & st' & Eid & Ehead & Hne & Eo & _ & _ & Ceff & Hext).
  destruct (certificate_slot _ _ _ _ Hv) as [Hslot Hcid]. specialize (Hcid id Eid).
  assert (Hcu : is_u64 (cert_height (fin_certificate fb))) by (by rewrite (certificate_height _ _ _ _ Hv)).
  destruct (Observe_same _ _ _ _ _ _ _ (proj1 Hok) Eo) as [Hs1 _].
  assert (R1 : represents anchor (ss_detector s) (contents d1) chain).
  { eapply represents_kept; [exact R|done|done|]. intros sl o Hsl Ho. by eapply Observe_monotone. }
  assert (Ehead' : head = mkFinalizedHead (tip anchor chain) (zlen chain)) by (rewrite (rp_head _ _ _ _ R) in Ehead; by some_inj Ehead).
  subst head. cbn [fh_block_id fh_height] in *.
  destruct (Observe_records _ _ _ _ _ _ _ Eo Hcu) as (c & Hc & Hcc).
  { destruct Hext as [([-> | ->] & _)|[-> _]]; auto. }
  rewrite Hslot in Hc. rewrite Hcid in Hcc.
  assert (Hdone : forall chain', chain_step chain chain' -> last chain' = Some id ->
    sha256_collision \/ represents anchor (ss_detector s) (contents d') chain' ->
    sha256_collision \/ exists chain', represents anchor (ss_detector s') (contents d') chain' /\
      (chain' = chain \/ Ret (transition BT_NONE) = Ret (transition BT_NONE) /\ chain_step chain chain' /\
        exists id, ComputeBlockId (fin_block fb) = Ret id /\ last chain' = Some id)).
  { intros chain' Hstep Hlast [?|R']; [by left|]. right. exists chain'. split; [|by eauto 10].
    by eapply represents_kept; [exact R'|done|done|apply observations_kept_refl]. }
  destruct Hext as [(_ & Htip & Hh & _)|(-> & Hh & (old & Eold & Hpar) & _)].
  - apply (Hdone (chain ++ [id])); [constructor|apply last_snoc|]. by eapply extend_represents; [apply Hok|..].
  - destruct chain as [|old_id front _] using rev_ind.
    { rewrite <- Hh in Eold. done. }
    cbn [fh_height] in Hh. rewrite zlen_app in Hh. change (zlen [old_id]) with 1 in Hh. rewrite tip_snoc in Hne.
    apply (Hdone (front ++ [id])); [|apply last_snoc|].
    + apply chain_replace. pose proof (Observe_status _ _ _ _ _ _ _ Eo) as (o & Ho & Hlt). rewrite Hslot in Ho.
      destruct (rp_observed _ _ _ _ R front old_id eq_refl) as (o' & Ho' & Hle). rewrite zlen_app in Ho'. change (zlen [old_id]) with 1 in Ho'.
      rewrite <- Hh in Eold. rewrite <- Hpar, (head_block _ _ _ _ _ _ R1 Eold), <- Hh, Ho' in Ho. some_inj Ho.
      match goal with |- ?a = true => destruct a eqn:E'; [done|] end. by rewrite (alt_ge_trans _ _ _ Hle E') in Hlt.
    + rewrite <- Hh in Eold. eapply replace_represents; [apply Hok|done..| |by rewrite <- Hh|done].
      rewrite <- Hpar. by eapply head_block.
Qed.

(** ** Genesis *)

Lemma InitializeGenesis_inv s d st sync s' d' : InitializeGenesis s d st sync = (Ret GI_NONE, s', d') ->
  s' = set_snapshot s st /\ on_disk s (contents d') st /\
  stored (contents d') HEAD_KEY = Some (mkFinalizedHead (GetGenesisAnchor (ss_network_genesis s)) 0).
Proof.
  intros E. unfold InitializeGenesis in E. destruct (or_else _ _) as [[]|]; [done| |done]. do 3 walk_step E. cbv zeta in E. destruct (kv_WriteBatch _ _ _) as [[] d1] eqn:Ew; [|done]. injection E as <- <-.
  apply write_ok in Ew. rewrite !apply_batch_Write, apply_batch_nil in Ew. cbn [rec_Encode bytes_record head_record hash_record] in Ew.
  pose proof (CybouStateHash_valid _ _ Hopt) as Hv.
  split_and!; [done| |unfold stored; rewrite Ew; read_key; by apply DecodeFinalizedHead_Encode].
  constructor; unfold stored; rewrite Ew; read_key.
  - eexists. split; [done|apply DecodeHash256_arr].
  - apply DecodeHash256_arr.
  - by eexists.
  - by eexists.
  - intros Hs. destruct (state_reads_back st (so_typed _ Hs) (so_registry _ Hs) (so_kem _ Hs) Hv) as (l' & E' & D').
    pose proof (so_size _ Hs l' E') as Hz. rewrite E' in Hopt0. some_inj Hopt0. eexists. split; [|done]. by apply DecodeBytes_Encode.
Qed.
Lemma genesis_represents s d st sync s' d' : InitializeGenesis s d st sync = (Ret GI_NONE, s', d') ->
  represents (GetGenesisAnchor (ss_network_genesis s)) (ss_detector s') (contents d') [].
Proof.
  intros (_ & _ & Hh)%InitializeGenesis_inv. constructor; [done|by intros [] ? ?|by intros [] ?].
Qed.

(** ** Sequences of commits *)

(** The outcome of each commit is not looked at: refused blocks, failed writes
    and exceptions are steps like the others. *)
Fixpoint commit_all (s : CybouStateStore) (d : db) (blocks : list (FinalizedBlock * bool)) : CybouStateStore * db :=
  match blocks with
  | [] => (s, d)
  | (fb, sync) :: rest => let '(_, s, d) := CommitFinalizedBlock s d fb sync in commit_all s d rest
  end.

Lemma same_object_ok s s' : same_object s s' -> store_ok s -> store_ok s'.
Proof. intros (G1 & _ & G3) [H1 H2]. unfold store_ok, detector_tagged. by rewrite G1, G3. Qed.

Lemma commit_all_represents anchor blocks : forall s d chain s' d', store_ok s -> coherent s (contents d) ->
  Forall (fun b => block_storable b.1) blocks -> represents anchor (ss_detector s) (contents d) chain ->
  commit_all s d blocks = (s', d') ->
  sha256_collision \/ exists chain', represents anchor (ss_detector s') (contents d') chain' /\ rtc chain_step chain chain'.
Proof.
  induction blocks as [|[fb sync] blocks IH]; intros s d chain s' d' Hok Hcoh Hb R E; cbn [commit_all] in E.
  { injection E as <- <-. right. exists chain. split; [done|constructor]. }
  apply Forall_cons in Hb as [Hfb Hb]. destruct (CommitFinalizedBlock s d fb sync) as [[r s1] d1] eqn:Ec.
  destruct (commit_spec _ _ _ _ _ _ _ Hok Hcoh (proj1 (proj1 (proj1 Hfb))) Ec) as (Hobj & Hcoh1 & _).
  destruct (commit_represents _ _ _ _ _ _ _ _ _ Hok Hcoh Hfb R Ec) as [|(chain1 & R1 & Hstep)]; [by left|].
  destruct (IH _ _ _ _ _ (same_object_ok _ _ Hobj Hok) Hcoh1 Hb R1 E) as [|(chain' & R' & Hs)]; [by left|].
  right. exists chain'. split; [done|]. destruct Hstep as [->|(_ & Hstep & _)]; [done|]. by eapply rtc_l.
Qed.

(** C7: the store implements a chain: from genesis on, after any sequence of
    commits, whatever blocks are offered, refused or fail to be written, the
    database holds, under its head, heights and block ids, a list of blocks
    each the parent of the next, that has grown only at its end or had its last
    block replaced by one of smaller id (unless someone has found a SHA-256
    collision). *)
Theorem store_refines_chain s d genesis sync s1 d1 blocks s' d' : store_ok s -> coherent s (contents d) ->
  InitializeGenesis s d genesis sync = (Ret GI_NONE, s1, d1) -> Forall (fun b => block_storable b.1) blocks ->
  commit_all s1 d1 blocks = (s', d') ->
  sha256_collision \/ exists chain,
    represents (GetGenesisAnchor (ss_network_genesis s)) (ss_detector s') (contents d') chain /\ rtc chain_step [] chain.
Proof.
  intros Hok Hcoh Eg Hb E. pose proof (genesis_represents _ _ _ _ _ _ Eg) as R.
  apply InitializeGenesis_inv in Eg as (-> & Hd & _). eapply commit_all_represents; [..|exact R|exact E]; [done| |done].
  intros st [= <-]. by destruct Hd.
Qed.

Lemma kv_Read_gets {T} `{LocalRecord T} d k (v : T) : (forall k, db_Get d k <> Throw) -> stored (contents d) k = Some v ->
  kv_Read d k = Ret (Some v).
Proof.
  intros Hg Hs. destruct (kv_Read_answers d k v Hs) as [|E]; [done|]. unfold kv_Read, ReadRaw in E.
  destruct (db_Get d _) as [[]|] eqn:Eg; [done..|]. by apply Hg in Eg.
Qed.
Lemma GetBlock_stored d id fb : (forall k, db_Get d k <> Throw) -> stored_block (contents d) id fb ->
  GetBlock d id = Ret (Some fb).
Proof.
  intros Hg ((Ht & Hz) & _ & l & El & Em). unfold GetBlock. rewrite (kv_Read_gets d _ l Hg).
  - cbn [outcome_bind]. apply finalized_decode; [done| |done]. pose proof (Hz _ El). unfold MAX_COMPACT_SIZE in *. ulia.
  - unfold stored. rewrite Em. by apply DecodeBytes_Encode, Hz.
Qed.
Lemma GetBlockAtHeight_stored d id fb : (forall k, db_Get d k <> Throw) -> stored_block (contents d) id fb ->
  blk_height (fin_block fb) <> 0 -> stored (contents d) (BlockHeightKey (blk_height (fin_block fb))) = Some id ->
  GetBlockAtHeight d (blk_height (fin_block fb)) = Ret (Some fb).
Proof.
  intros Hg Hfb Hh Hi. unfold GetBlockAtHeight. rewrite (proj2 (Z.eqb_neq _ _)), (kv_Read_gets d _ id Hg) by done.
  cbn [outcome_bind]. unfold checked_block. rewrite (GetBlock_stored _ _ _ Hg Hfb). cbn [outcome_bind].
  rewrite Z.eqb_refl. cbn [negb]. destruct Hfb as (_ & -> & _). cbn [outcome_bind]. by rewrite bool_decide_true.
Qed.
Lemma GetStateSnapshot_source s d st s1 : GetStateSnapshot s d = (Ret (inr st), s1) ->
  ss_state_snapshot s = Some st \/ LoadStateLocked s d = Ret (inr st).
Proof.
  unfold GetStateSnapshot. destruct (ss_state_snapshot s); [intros [= ->]; by left|].
  destruct (LoadStateLocked s d) as [[]|]; intros [=]; subst; auto.
Qed.

(** C15: what is committed is read back: after a commit that succeeds the head
    is the block, the block is found by its id and by its height, the state
    root is the one it names, and the snapshot is what executing it gives on
    the state before it (on its parent's state when it replaces the head). *)
Theorem CommitFinalizedBlock_reads_back s d fb sync res s' d' : store_ok s -> coherent s (contents d) -> block_storable fb ->
  CommitFinalizedBlock s d fb sync = (Ret res, s', d') -> bt_error res = BT_NONE ->
  (forall k, db_Get d' k <> Throw) ->
  exists id st st', ComputeBlockId (fin_block fb) = Ret id /\
    GetFinalizedHead d' = Ret (Some (mkFinalizedHead id (blk_height (fin_block fb)))) /\
    GetBlock d' id = Ret (Some fb) /\ GetBlockAtHeight d' (blk_height (fin_block fb)) = Ret (Some fb) /\
    GetStateRoot d' = Ret (Some (blk_resulting_state_root (fin_block fb))) /\
    ss_state_snapshot s' = Some st' /\ executes s (fin_block fb) st st' /\
    (ss_state_snapshot s = Some st \/ LoadStateLocked s d = Ret (inr st) \/
     exists l, stored (contents d) (StateHeightKey (blk_height (fin_block fb) ⊖ 1)) = Some l /\ DeserializeCybouState l = Some st).
Proof.
  intros Hok Hcoh Hfb E Hres Hg. pose proof (proj1 (proj1 (proj1 Hfb)) : is_u64 (blk_height (fin_block fb))) as Hu.
  destruct (commit_spec _ _ _ _ _ _ _ Hok Hcoh Hu E) as (_ & Hcoh' & [(Hr & _)|(_ & Hv & C)]); [by apply Hr in Hres|].
  destruct C as (id & head & obs & d1 & st & st' & Eid & _ & _ & Eo & Eg & Es' & Ceff & Hext).
  destruct (extends_valid _ _ _ _ _ _ _ Hext) as [_ Hroot]. destruct (Hcoh' _ Es') as [(root & Er & Hd) _ _ _ _].
  assert (Hsb : stored_block (contents d') id fb).
  { split_and!; [done|done|]. destruct (ce_block _ _ _ _ _ _ Ceff) as (l & El & Em). eauto. }
  assert (Hh : blk_height (fin_block fb) <> 0).
  { rewrite <- (certificate_height _ _ _ _ Hv). apply VerifyPoaCertificateForBlock_true in Hv as (? & ? & _ & _ & Hv).
    apply VerifyPoaFinalityCertificate_true in Hv as (Hf & _). unfold ValidFields in Hf. guards. done. }
  destruct (Observe_same _ _ _ _ _ _ _ (proj1 Hok) Eo) as [Hs1 _].
  assert (Hst : exists st0, executes s (fin_block fb) st0 st' /\ (ss_state_snapshot s = Some st0 \/ LoadStateLocked s d = Ret (inr st0) \/
    exists l, stored (contents d) (StateHeightKey (blk_height (fin_block fb) ⊖ 1)) = Some l /\ DeserializeCybouState l = Some st0)).
  { destruct Hext as [(_ & _ & _ & He)|(_ & _ & _ & l & ps & Hl & Hps & He)].
    - exists st. split; [done|]. apply GetStateSnapshot_source in Eg. tauto.
    - exists ps. split; [done|]. right; right. exists l. split; [|done]. rewrite <- Hl. symmetry. by apply same_store_stored. }
  destruct Hst as (st0 & He & Hsrc). exists id, st0, st'. split_and!; [done| | | | |done..].
  - apply kv_Read_gets; [done|]. unfold stored. rewrite (ce_head _ _ _ _ _ _ Ceff). by apply DecodeFinalizedHead_Encode.
  - by apply GetBlock_stored.
  - eapply GetBlockAtHeight_stored; [done..|]. unfold stored. rewrite (ce_height _ _ _ _ _ _ Ceff). apply DecodeHash256_arr.
  - apply kv_Read_gets; [done|]. congruence.
Qed.

(** C16: a commit that is refused, fails to be written or throws leaves the
    chain as it was: every record outside the detector's is unchanged, and
    whatever snapshot the store keeps is still the state on disk. *)
Theorem CommitFinalizedBlock_refused s d fb sync r s' d' : store_ok s -> coherent s (contents d) ->
  is_u64 (blk_height (fin_block fb)) -> CommitFinalizedBlock s d fb sync = (r, s', d') -> r <> Ret (transition BT_NONE) ->
  (forall k, tag k <> DETECTOR_TAG -> contents d' !! EncodeBytes k = contents d !! EncodeBytes k) /\
  (forall st, ss_state_snapshot s' = Some st -> on_disk s' (contents d') st) /\
  (forall res, r = Ret res -> bt_error res <> BT_NONE).
Proof.
  intros Hok Hcoh Hu E Hr. destruct (commit_spec _ _ _ _ _ _ _ Hok Hcoh Hu E) as (_ & Hc & [(H1 & H2 & _)|[-> _]]); [|done].
  split_and!; done.
Qed.

(** C22: a reorganisation that was interrupted after the detector recorded the
    new block, and before the batch was written, can never be completed: the
    block is refused on every later attempt, although its id is the smaller
    one. *)
Theorem interrupted_reorg_never_completes s d fb p1 d1 s2 d2 sync r s' d' :
  Observe (ss_detector s) d (fin_certificate fb) (fin_block fb) = (Ret PC_CANONICAL_REORG_REQUIRED, p1, d1) ->
  is_u64 (cert_height (fin_certificate fb)) ->
  (exists head, stored (contents d2) HEAD_KEY = Some head /\ fh_height head = blk_height (fin_block fb)) ->
  contents d2 = contents d1 -> pd_prefix (ss_detector s2) = pd_prefix (ss_detector s) ->
  store_ok s2 -> coherent s2 (contents d2) -> is_u64 (blk_height (fin_block fb)) ->
  CommitFinalizedBlock s2 d2 fb sync = (r, s', d') -> refused s2 d2 r d'.
Proof.
  intros Eo Hcu (head & Eh & Hh) Hd Hpre Hok Hcoh Hu E.
  destruct (commit_spec _ _ _ _ _ _ _ Hok Hcoh Hu E) as (_ & _ & [?|(_ & Hv & C)]); [done|exfalso].
  destruct C as (id & head' & obs & d3 & st & st' & Eid & Eh' & _ & Eo2 & _ & _ & _ & Hext).
  rewrite Eh in Eh'. some_inj Eh'. destruct (Observe_records _ _ _ _ _ _ _ Eo Hcu) as (c & Hc & Hcc); [by auto|].
  destruct Hext as [(_ & _ & Hn & _)|(-> & _)]; [lia|].
  pose proof (Observe_status _ _ _ _ _ _ _ Eo2) as (o & Ho & Hlt). rewrite (observed_prefix (ss_detector s)), Hd, Hc in Ho by done.
  some_inj Ho. rewrite Hcc in Hlt. unfold alt in Hlt. by rewrite blt_irrefl in Hlt.
Qed.
End chain.

(** * A node's store through restarts

    The store object and its database as a transition system: it is opened,
    initialised, read and committed to, other components write their own keys,
    the process stops or crashes and starts again. The state it serves from
    memory is always the state that a restart would load from disk. *)

Section node.
Context `{CryptoOps} {L : LevelDB} {Laws : LevelDBLaws L}.
Context (genesis : VerifiedNetworkGenesis).
#[local] Set Default Proof Using "Type + Laws".

Definition state_keys : list bytes := [STATE_KEY; HASH_KEY; HEAD_KEY; NETWORK_ID_KEY].

Inductive store_step : option CybouStateStore * db -> option CybouStateStore * db -> Prop :=
| store_open d r d' : open_store d genesis = (r, d') ->
    store_step (None, d) (match r with Ret s => Some s | Throw => None end, d')
| store_init s d st sync r s' d' : InitializeGenesis s d st sync = (r, s', d') -> store_step (Some s, d) (Some s', d')
| store_snapshot s d r s' : GetStateSnapshot s d = (r, s') -> store_step (Some s, d) (Some s', d)
| store_commit s d fb sync r s' d' : is_u64 (blk_height (fin_block fb)) -> CommitFinalizedBlock s d fb sync = (r, s', d') ->
    store_step (Some s, d) (Some s', d')
| store_other s d batch sync ok d' : (forall k, k ∈ state_keys -> EncodeBytes k ∉ batch_keys batch) ->
    db_Write d batch sync = (ok, d') -> store_step (s, d) (s, d')
| store_stop s d : store_step (s, d) (None, d)
| store_crash s d d' : reopened d d' -> store_step (s, d) (None, d').

Definition store_inv (n : option CybouStateStore * db) : Prop :=
  forall s, n.1 = Some s -> store_ok s /\ coherent s (contents n.2).

Lemma open_detector_prefix d net key p d' : open_detector d net key = (Ret p, d') -> exists id, pd_prefix p = detector_prefix net id.
Proof.
  intros E. unfold open_detector in E. walk_step E. walk_step E. cbv zeta in E. exists a.
  assert (Hload : forall m e, load_detector d net key a m e = Ret p -> pd_prefix p = detector_prefix net a).
  { intros m e El. unfold load_detector in El. cbv zeta in El. walk_step El. walk_step El. destruct a0.
    - walk_step El. walk_step El. by injection El as <-.
    - walk_step El. walk_step El. by injection El as <-. }
  destruct (kv_Read d _) as [[m|]|]; [injection E as E _; by eapply Hload| |done].
  destruct (or_else _ _) as [[]|]; [done| |done]. destruct (kv_Write _ _ _ _) as [[] d1]; [|done]. by injection E as <- _.
Qed.
Lemma open_store_ok d s d' : params_wf (GetProtocolParameters genesis) -> open_store d genesis = (Ret s, d') ->
  store_ok s /\ ss_state_snapshot s = None.
Proof.
  intros Hp E. unfold open_store in E. destruct (ComputeNetworkBinding _) as [net|]; [|done].
  destruct (open_detector d net _) as [[p|] d1] eqn:Ed; [|done]. injection E as <- <-. split; [|done]. split; [|done].
  apply open_detector_prefix in Ed as [id Hpre]. intros x. cbn [ss_detector]. by rewrite Hpre.
Qed.

Lemma InitializeGenesis_coherent s d st sync r s' d' : store_ok s -> coherent s (contents d) ->
  InitializeGenesis s d st sync = (r, s', d') -> store_ok s' /\ coherent s' (contents d').
Proof.
  intros Hok Hcoh E.
  assert (Hcase : r = Ret GI_NONE \/ s' = s /\ contents d' = contents d).
  { unfold InitializeGenesis in E. destruct (or_else _ _) as [[]|]; [by injection E as <- <- <-; auto| |by injection E as <- <- <-; auto].
    destruct (CybouStateHash st true); [|by injection E as <- <- <-; auto].
    destruct (negb _); [by injection E as <- <- <-; auto|].
    destruct (SerializeCybouState st true); [|by injection E as <- <- <-; auto]. cbv zeta in E.
    destruct (kv_WriteBatch _ _ _) as [[] d1] eqn:Ew; injection E as <- <- <-; [by left|right].
    split; [done|]. by apply write_failed in Ew. }
  destruct Hcase as [->|[-> ->]]; [|done]. apply InitializeGenesis_inv in E as (-> & Hd & _). split; [done|].
  intros st' [= <-]. by destruct Hd.
Qed.

Lemma on_disk_frame s m m' st : (forall k, k ∈ state_keys -> m' !! EncodeBytes k = m !! EncodeBytes k) ->
  on_disk s m st -> on_disk s m' st.
Proof.
  intros Hk [H1 H2 H3 H4 H5]. unfold stored in *. constructor; unfold stored; rewrite !Hk by tags; done.
Qed.

Lemma store_step_inv n n' : params_wf (GetProtocolParameters genesis) -> store_step n n' -> store_inv n -> store_inv n'.
Proof.
  intros Hp Hs Hinv.
  destruct Hs as [d r d' E|s d st sync r s' d' E|s d r s' E|s d fb sync r s' d' Hu E|s d batch sync ok d' Hk E|s d|s d d' Hr];
    intros s0 Hs0; cbn [fst snd] in *; try done.
  - destruct r as [s1|]; [|done]. injection Hs0 as <-. apply open_store_ok in E as [Hok Hn]; [|done]. split; [done|].
    intros st. by rewrite Hn.
  - injection Hs0 as <-. destruct (Hinv s eq_refl) as [Hok Hcoh]. by eapply InitializeGenesis_coherent.
  - injection Hs0 as <-. destruct (Hinv s eq_refl) as [Hok Hcoh]. apply GetStateSnapshot_inv in E as (Hc & _ & G1 & G2 & G3); [|done].
    split; [|done]. eapply same_object_ok; [|done]. by split_and!; [| |rewrite G3].
  - injection Hs0 as <-. destruct (Hinv s eq_refl) as [Hok Hcoh].
    destruct (commit_spec _ _ _ _ _ _ _ Hok Hcoh Hu E) as (Hobj & Hc & _). split; [by eapply same_object_ok|done].
  - destruct (Hinv s0 Hs0) as [Hok Hcoh]. split; [done|]. intros st Hst. eapply on_disk_frame; [|by apply Hcoh].
    intros k Hin. destruct ok; [rewrite (write_ok _ _ _ _ E)|by rewrite (write_failed _ _ _ _ E)].
    apply apply_batch_other. by apply Hk.
Qed.

(** C9: the state in memory is the state on disk: on any run of a node,
    through failed writes, exceptions, crashes, restarts and the writes of
    other components to other keys, a snapshot the store serves, if the local
    codec can carry it ([storable]: its fields have their widths and its
    encoding is at most 32 MiB), is exactly what loading the state from the
    database at that moment gives, unless that load throws. A longer state is
    written but never read back ([DecodeBytes_Encode_large]). *)
Theorem snapshot_is_on_disk d0 s d st s1 : params_wf (GetProtocolParameters genesis) ->
  rtc store_step (None, d0) (Some s, d) -> GetStateSnapshot s d = (Ret (inr st), s1) -> storable st ->
  LoadStateLocked s d <> Throw -> LoadStateLocked s d = Ret (inr st).
Proof.
  intros Hp Hs Eg Hst Ht. assert (Hinv : store_inv (Some s, d)).
  { assert (H0 : store_inv (None, d0)) by done. revert H0. induction Hs as [|n1 n2 n3 H12 _ IH]; [done|].
    intros H1. by eapply IH, store_step_inv. }
  destruct (Hinv s eq_refl) as [_ Hcoh]. pose proof Eg as (_ & Hsnap & _)%GetStateSnapshot_inv; [|done].
  unfold GetStateSnapshot in Eg. destruct (ss_state_snapshot s) as [st'|] eqn:Es.
  - injection Eg as <- _. by apply on_disk_LoadStateLocked; [apply Hcoh|..].
  - destruct (LoadStateLocked s d) as [[]|]; [done| |done]. by injection Eg as <- _.
Qed.
End node.
