(* ===== verification/KVIteration.v ===== *)
(** * Iterating over a prefix

    What [ForEachStringPrefix] and [ForEachStringPrefixRaw] of [KVStore] visit
    when they end without throwing: every record under the prefix, once, in
    the order of the keys; and what a visitor leaves that erases the records
    it is shown. *)

From S2P Require Import Prelude.
From S2P Require Import Bytes.
From S2P Require Import Codec.
From S2P Require Import Utf8.
From S2P Require Import KVStore.

(** ** Prefixes and the order of keys *)

Lemma has_prefix_app p l : has_prefix p (p ++ l) = true.
Proof. induction p as [|a p IH]; [done|]. cbn. by rewrite bool_decide_true. Qed.
Lemma has_prefix_split p l : has_prefix p l = true <-> exists rest, l = p ++ rest.
Proof.
  split; [|intros [rest ->]; apply has_prefix_app].
  revert l. induction p as [|a p IH]; intros [|b l]; cbn; intros E; try done; [by exists []|by exists (b :: l)|].
  apply andb_true_iff in E as [->%bool_decide_eq_true [rest ->]%IH]. by exists rest.
Qed.
Lemma has_prefix_not_below p l : has_prefix p l = true -> blt l p = false.
Proof.
  intros [rest ->]%has_prefix_split. induction p as [|a p IH]; [by destruct rest|]. cbn. by rewrite Z.ltb_irrefl.
Qed.
(** The keys with a prefix follow each other. *)
Lemma has_prefix_convex p a b : blt a p = false -> has_prefix p a = false -> blt a b = true -> has_prefix p b = false.
Proof.
  revert a b. induction p as [|x p IH]; intros [|y a] [|z b]; cbn; try done. intros H1 H2 H3.
  destruct (bool_decide_reflect (x = z)) as [<-|]; [|done]. cbn [andb].
  destruct (Z.ltb_spec (zb y) (zb x)); [done|]. destruct (Z.ltb_spec (zb x) (zb y)); [done|].
  assert (x = y) as -> by (apply zb_inj; lia). rewrite bool_decide_true in H2 by done. by apply (IH a b).
Qed.

(** The records of the map whose key has the prefix. *)
Definition prefix_rows (p : bytes) (m : gmap bytes bytes) : list (bytes * bytes) :=
  List.filter (fun kv => has_prefix p kv.1) (entries m).
Lemma elem_of_prefix_rows p m k v : (k, v) ∈ prefix_rows p m <-> has_prefix p k = true /\ m !! k = Some v.
Proof.
  unfold prefix_rows. rewrite list_elem_of_In, filter_In, <- list_elem_of_In, elem_of_entries. tauto.
Qed.

Lemma filter_filter_sub {A} (f g : A -> bool) l : (forall x, f x = true -> g x = true) ->
  List.filter f (List.filter g l) = List.filter f l.
Proof.
  intros Hfg. induction l as [|x l IH]; [done|]. cbn. destruct (g x) eqn:Eg; cbn; rewrite IH; [done|].
  destruct (f x) eqn:Ef; [|done]. by rewrite (Hfg _ Ef) in Eg.
Qed.
Lemma filter_none {A} (f : A -> bool) l : Forall (fun x => f x = false) l -> List.filter f l = [].
Proof. induction 1 as [|x l E _ IH]; [done|]. cbn. by rewrite E. Qed.
Lemma filter_all {A} (f : A -> bool) l : Forall (fun x => f x = true) l -> List.filter f l = l.
Proof. induction 1 as [|x l E _ IH]; [done|]. cbn. by rewrite E, IH. Qed.

Lemma sorted_filter (f : bytes * bytes -> bool) l : strictly_sorted l -> strictly_sorted (List.filter f l).
Proof.
  unfold strictly_sorted. induction 1 as [|x l _ IH Hx]; [constructor|]. cbn. destruct (f x); [|done]. constructor; [done|].
  apply Forall_forall. intros y [Hy _]%list_elem_of_In%filter_In. rewrite Forall_forall in Hx. by apply Hx, list_elem_of_In.
Qed.
Lemma prefix_rows_from p m : List.filter (fun kv => has_prefix p kv.1) (records_from p m) = prefix_rows p m.
Proof. apply filter_filter_sub. intros kv E. by rewrite has_prefix_not_below. Qed.

(** The records from the prefix on start with those that have it. *)
Lemma records_from_rows p m rows rest : records_from p m = rows ++ rest ->
  Forall (fun kv => has_prefix p kv.1 = true) rows ->
  match rest with [] => True | kv :: _ => has_prefix p kv.1 = false end -> rows = prefix_rows p m.
Proof.
  intros E Hrows Hrest. rewrite <- prefix_rows_from, E, List.filter_app, (filter_all _ rows) by done.
  rewrite filter_none, app_nil_r; [done|].
  assert (Hs : strictly_sorted (rows ++ rest)) by (rewrite <- E; apply sorted_filter, strictly_sorted_entries).
  destruct rest as [|kv rest]; [constructor|]. constructor; [done|].
  assert (Hk : blt kv.1 p = false).
  { assert (Hin : kv ∈ records_from p m) by (rewrite E; set_solver).
    apply list_elem_of_In, filter_In in Hin as [_ Hin]. by apply negb_true_iff in Hin. }
  apply StronglySorted_app in Hs as (_ & _ & Hs). apply StronglySorted_inv in Hs as [_ Hs].
  eapply Forall_impl; [exact Hs|]. intros x Hx. by apply (has_prefix_convex p kv.1).
Qed.

(** ** The loop *)

Section visits.
Context {St : Type} (decode : bytes -> option bytes) (visitor : St -> bytes -> bytes -> outcome unit * St).

(** The visitor was called on every row, in order, and never threw. *)
Inductive visits : list (bytes * bytes) -> St -> St -> Prop :=
| visits_nil s : visits [] s s
| visits_cons raw_key raw_value key value rows s s1 s2 : DecodeBytes raw_key = Some key -> decode raw_value = Some value ->
    visitor s key value = (Ret tt, s1) -> visits rows s1 s2 -> visits ((raw_key, raw_value) :: rows) s s2.

Lemma visit_prefix_run p l : forall n s n' s', visit_prefix decode visitor p l n s = (Ret n', s') ->
  exists rows rest, l = rows ++ rest /\ n' = (n + length rows)%nat /\ Forall (fun kv => has_prefix p kv.1 = true) rows /\
    match rest with [] => True | kv :: _ => has_prefix p kv.1 = false end /\ visits rows s s'.
Proof.
  induction l as [|[k v] l IH]; intros n s n' s' E; cbn [visit_prefix] in E.
  - injection E as <- <-. exists [], []. split_and!; [done|cbn; lia|constructor|done|constructor].
  - destruct (has_prefix p k) eqn:Ep; cbn [negb] in E.
    + destruct (DecodeBytes k) as [key|] eqn:Ek; [|done]. destruct (decode v) as [value|] eqn:Ev; [|done].
      destruct (visitor s key value) as [[[]|] s1] eqn:Evis; [|done].
      apply IH in E as (rows & rest & -> & -> & Hrows & Hrest & Hv). exists ((k, v) :: rows), rest.
      split_and!; [done|cbn; lia|by constructor|done|by econstructor].
    + injection E as <- <-. exists [], ((k, v) :: l). split_and!; [done|cbn; lia|constructor|done|constructor].
Qed.

(** An invariant of the visitor holds after the loop. *)
Lemma visits_invariant (I : list (bytes * bytes) -> St -> Prop) :
  (forall done_ raw_key raw_value key value s s1, I done_ s -> DecodeBytes raw_key = Some key -> decode raw_value = Some value ->
     visitor s key value = (Ret tt, s1) -> I (done_ ++ [(raw_key, raw_value)]) s1) ->
  forall rows done_ s s', visits rows s s' -> I done_ s -> I (done_ ++ rows) s'.
Proof.
  intros Hstep rows done_ s s' V. revert done_. induction V as [|raw_key raw_value key value rows s s1 s2 Hk Hv E V IH]; intros done_ HI.
  - by rewrite app_nil_r.
  - specialize (IH (done_ ++ [(raw_key, raw_value)])). rewrite <- app_assoc in IH. apply IH. by eapply Hstep.
Qed.
End visits.

Section iteration.
Context {L : LevelDB} {Laws : LevelDBLaws L}.
#[local] Set Default Proof Using "Type + Laws".

Lemma for_each_prefix_visits {St} decode visitor d prefix size (s s' : St) :
  for_each_prefix decode d prefix size visitor s = (Ret tt, s') ->
  visits decode visitor (prefix_rows (AppendCompactSize size ++ prefix) (contents d)) s s'.
Proof.
  intros E. unfold for_each_prefix in E. destruct (size <? zlen prefix); [done|]. cbv zeta in E.
  set (p := AppendCompactSize size ++ prefix) in *.
  destruct (visit_prefix decode visitor p (db_Iterator d p) 0 s) as [[n|] s1] eqn:Ev; [|done].
  cbn [outcome_bind] in E. destruct (db_Status d p n) eqn:Es; [|done]. injection E as <-.
  apply visit_prefix_run in Ev as (rows & rest & El & -> & Hrows & Hrest & V). cbn [Nat.add] in Es.
  apply iterator_ok in Es. rewrite El in Es.
  destruct rest as [|kv rest].
  - rewrite app_nil_r, take_ge in Es by lia. rewrite <- (records_from_rows p (contents d) rows []); [done| |done|done].
    rewrite app_nil_r. apply (f_equal length) in Es as Hlen. rewrite length_take in Hlen.
    rewrite Es, take_ge; [done|]. lia.
  - replace (rows ++ kv :: rest) with ((rows ++ [kv]) ++ rest) in Es by by rewrite <- app_assoc.
    rewrite take_app_le, take_ge in Es by (rewrite ?length_app; cbn; lia).
    rewrite <- (records_from_rows p (contents d) rows (kv :: drop (S (length rows)) (records_from p (contents d)))); [done| |done|done].
    transitivity ((rows ++ [kv]) ++ drop (S (length rows)) (records_from p (contents d))).
    + rewrite Es. by rewrite take_drop.
    + by rewrite <- app_assoc.
Qed.

(** Where nothing fails, the loop ends. *)
Lemma visit_prefix_runs {St} decode (visitor : St -> bytes -> bytes -> outcome unit * St) p l :
  (forall k v, (k, v) ∈ l -> has_prefix p k = true -> exists key value, DecodeBytes k = Some key /\ decode v = Some value /\
     forall s, exists s', visitor s key value = (Ret tt, s')) ->
  forall n s, exists n' s', visit_prefix decode visitor p l n s = (Ret n', s').
Proof using.
  induction l as [|[k v] l IH]; intros Hl n s; cbn [visit_prefix]; [by eexists _, _|].
  destruct (has_prefix p k) eqn:Ep; cbn [negb]; [|by eexists _, _].
  destruct (Hl k v ltac:(left) Ep) as (key & value & -> & -> & Hv). destruct (Hv s) as [s' ->]. apply IH. intros. apply Hl; [by right|done].
Qed.
Lemma for_each_prefix_runs {St} decode visitor d prefix size (s : St) : zlen prefix <= size ->
  (forall n, db_Status d (AppendCompactSize size ++ prefix) n = true) ->
  (forall k v, (k, v) ∈ prefix_rows (AppendCompactSize size ++ prefix) (contents d) -> exists key value,
     DecodeBytes k = Some key /\ decode v = Some value /\ forall s, exists s', visitor s key value = (Ret tt, s')) ->
  exists s', for_each_prefix decode d prefix size visitor s = (Ret tt, s').
Proof.
  intros Hz Hstatus Hrows. unfold for_each_prefix. rewrite (proj2 (Z.ltb_ge _ _)) by done. cbv zeta. set (p := AppendCompactSize size ++ prefix) in *.
  assert (Hit : db_Iterator d p = records_from p (contents d)).
  { pose proof (iterator_ok d p (length (db_Iterator d p) + length (records_from p (contents d))) (Hstatus _)) as E.
    rewrite !take_ge in E by lia. done. }
  rewrite Hit. destruct (visit_prefix_runs decode visitor p (records_from p (contents d))) with (n := 0%nat) (s := s) as (n' & s' & ->).
  - intros k v Hin Hp. apply Hrows. apply elem_of_prefix_rows. split; [done|]. apply list_elem_of_In, filter_In in Hin as [Hin _].
    by apply list_elem_of_In, elem_of_entries in Hin.
  - cbn [outcome_bind]. rewrite Hstatus. by eexists.
Qed.

(** ** Keys of one width under a prefix *)

(** The serialized key is that of a string of [size] bytes with the prefix. *)
Definition sized_key (prefix : bytes) (size : Z) (raw_key : bytes) : bool :=
  has_prefix (AppendCompactSize size ++ prefix) raw_key && (zlen raw_key =? zlen (AppendCompactSize size) + size).

Lemma sized_key_spec prefix size raw_key : zlen prefix <= size ->
  sized_key prefix size raw_key = true <-> exists rest, raw_key = EncodeBytes (prefix ++ rest) /\ zlen (prefix ++ rest) = size.
Proof using.
  intros Hsize. unfold sized_key, EncodeBytes. split.
  - intros [[rest ->]%has_prefix_split Hlen%Z.eqb_eq]%andb_true_iff. exists rest. rewrite <- app_assoc in *.
    rewrite zlen_app in Hlen. assert (E : zlen (prefix ++ rest) = size) by lia. by rewrite E.
  - intros (rest & -> & E). rewrite E. apply andb_true_iff. split; [|rewrite zlen_app, E; lia].
    apply has_prefix_split. exists rest. by rewrite <- app_assoc.
Qed.
(** What a decoded key tells: the string, unless bytes follow it. *)
Lemma decoded_key prefix size raw_key key : 0 <= size <= MAX_COMPACT_SIZE -> zlen prefix <= size ->
  has_prefix (AppendCompactSize size ++ prefix) raw_key = true -> DecodeBytes raw_key = Some key ->
  sized_key prefix size (EncodeBytes key) = true /\ (sized_key prefix size raw_key = true -> raw_key = EncodeBytes key).
Proof using.
  intros Hs Hp [rest ->]%has_prefix_split E. rewrite <- app_assoc in *. unfold DecodeBytes in E.
  rewrite ReadCompactSize_Append in E by lia.
  rewrite zlen_app in E. destruct (Z.ltb_spec (zlen (AppendCompactSize size) + zlen (prefix ++ rest) - zlen (AppendCompactSize size)) size) as [|Hlen];
    [done|]. injection E as E. rewrite subspan_skip in E by lia. rewrite Z.sub_diag in E.
  assert (Hr : exists r, key = prefix ++ r /\ zlen key = size /\ (zlen (prefix ++ rest) = size -> key = prefix ++ rest)).
  { exists (take (Z.to_nat size - length prefix) rest). unfold subspan in E. rewrite drop_0 in E.
    pose proof (f_equal zlen E) as El. unfold zlen in *. rewrite length_take, length_app in El. rewrite length_app in *.
    split_and!; [|lia|].
    - rewrite <- E, take_app. f_equal. apply take_ge. lia.
    - intros Hz. rewrite <- E. apply take_ge. rewrite length_app. lia. }
  destruct Hr as (r & -> & Hz & Heq). split.
  - apply sized_key_spec; [done|]. by exists r.
  - intros (rest' & E' & Hz')%sized_key_spec; [|done]. unfold EncodeBytes in *. rewrite Hz' in E'.
    apply (inj (app _)) in E'. rewrite E' in Heq. rewrite Hz, Heq by done. by rewrite E'.
Qed.
Lemma DecodeBytes_sized prefix size raw_key : size <= MAX_COMPACT_SIZE -> zlen prefix <= size ->
  sized_key prefix size raw_key = true -> exists key, DecodeBytes raw_key = Some key /\ raw_key = EncodeBytes key.
Proof using.
  intros Hs Hp (rest & -> & Hz)%sized_key_spec; [|done]. exists (prefix ++ rest). split; [|done].
  apply DecodeBytes_Encode. lia.
Qed.
End iteration.

(** * Databases made of rows

    The records of a component are rows of a few kinds: a type of rows, the
    key of each, and what it holds. [holds] says that the contents of a
    database are exactly the rows of a function; batches of rows change the
    function, and the iteration over a prefix visits the rows of one kind. *)

(** ** Hex keys *)

#[export] Instance GetHex_inj : Inj (=) (=) GetHex.
Proof.
  intros a b E. destruct (FromHex_GetHex a) as [_ Ha], (FromHex_GetHex b) as [_ Hb]. rewrite E, Hb in Ha. by some_inj Ha.
Qed.
Lemma zlen_GetHex h : zlen (GetHex h) = 64.
Proof. unfold zlen. by rewrite length_GetHex. Qed.

Lemma fmap_mjoin {A B C} (f : B -> C) (g : A -> list B) l : f <$> mjoin (g <$> l) = mjoin ((fun a => f <$> g a) <$> l).
Proof. induction l as [|a l IH]; [done|]. by rewrite !fmap_cons, !mjoin_cons, fmap_app, IH. Qed.
Lemma mjoin_single {A B} (f : A -> B) l : mjoin ((fun a => [f a]) <$> l) = f <$> l.
Proof. induction l as [|a l IH]; [done|]. by rewrite !fmap_cons, mjoin_cons, IH. Qed.

Section rows.
Context {row : Type} `{EqDecision row} (row_bytes : row -> bytes) `{Hinj : !Inj (=) (=) row_bytes}.
Hypothesis zlen_row_small : forall x, zlen (row_bytes x) <= MAX_COMPACT_SIZE.

Lemma DecodeBytes_row x : DecodeBytes (EncodeBytes (row_bytes x)) = Some (row_bytes x).
Proof using Type zlen_row_small. by apply DecodeBytes_Encode. Qed.

(** ** Writing *)

Definition holds (m : gmap bytes bytes) (f : row -> option bytes) : Prop :=
  (forall x, m !! EncodeBytes (row_bytes x) = f x) /\ (forall raw, is_Some (m !! raw) -> exists x, raw = EncodeBytes (row_bytes x)).
Definition set_row (f : row -> option bytes) (e : row * option bytes) : row -> option bytes :=
  fun y => if bool_decide (y = e.1) then e.2 else f y.
Definition row_entry (e : row * option bytes) : BatchEntry :=
  match e.2 with Some v => Put (EncodeBytes (row_bytes e.1)) v | None => Delete (EncodeBytes (row_bytes e.1)) end.

Lemma holds_entry m f e : holds m f -> holds (apply_entry m (row_entry e)) (set_row f e).
Proof using Type Hinj.
  intros [H1 H2]. destruct e as [x [v|]]; unfold row_entry, set_row; cbn [fst snd apply_entry]; split.
  - intros y. case_bool_decide as E; [subst; apply lookup_insert_eq|]. rewrite lookup_insert_ne; [apply H1|].
    intros E'%(inj EncodeBytes)%(inj row_bytes). by subst.
  - intros raw. destruct (decide (EncodeBytes (row_bytes x) = raw)) as [<-|]; [by eauto|]. rewrite lookup_insert_ne by done. apply H2.
  - intros y. case_bool_decide as E; [subst; apply lookup_delete_eq|]. rewrite lookup_delete_ne; [apply H1|].
    intros E'%(inj EncodeBytes)%(inj row_bytes). by subst.
  - intros raw Hr. apply H2. destruct (decide (EncodeBytes (row_bytes x) = raw)) as [<-|].
    + rewrite lookup_delete_eq in Hr. by destruct Hr.
    + by rewrite lookup_delete_ne in Hr.
Qed.
Lemma holds_batch entries : forall m f, holds m f -> holds (apply_batch m (row_entry <$> entries)) (foldl set_row f entries).
Proof using Type Hinj.
  induction entries as [|e entries IH]; intros m f Hf; [done|]. rewrite fmap_cons. cbn [foldl]. apply IH. by apply holds_entry.
Qed.
Lemma holds_ext m f g : (forall x, f x = g x) -> holds m f -> holds m g.
Proof. intros E [H1 H2]. split; [|done]. intros x. by rewrite <- E. Qed.
Lemma set_rows_ext entries : forall f g, (forall x, f x = g x) -> forall x, foldl set_row f entries x = foldl set_row g entries x.
Proof.
  induction entries as [|e entries IH]; intros f g E x; [by cbn|]. cbn [foldl]. apply IH. intros y. unfold set_row. by rewrite E.
Qed.

(** ** Reading *)

Section read.
Context {A : Type} (C : A -> row) `{HC : !Inj (=) (=) C} (p : bytes).
Hypothesis prefix_spec : forall x, has_prefix p (EncodeBytes (row_bytes x)) = true <-> exists a, x = C a.
Definition raw_row (av : A * bytes) : bytes * bytes := (EncodeBytes (row_bytes (C av.1)), av.2).

Lemma prefix_rows_holds m f : holds m f ->
  exists l, prefix_rows p m = raw_row <$> l /\ NoDup l.*1 /\ forall a v, (a, v) ∈ l <-> f (C a) = Some v.
Proof using Type Hinj HC prefix_spec.
  intros [H1 H2].
  assert (Hl : exists l, prefix_rows p m = raw_row <$> l).
  { assert (Hall : forall kv, kv ∈ prefix_rows p m -> exists av, kv = raw_row av).
    { intros [k v] [Hp Hk]%elem_of_prefix_rows. destruct (H2 k) as [x ->]; [by eexists|]. apply prefix_spec in Hp as [a ->]. by exists (a, v). }
    induction (prefix_rows p m) as [|kv rows IH]; [by exists []|]. destruct (Hall kv) as [av ->]; [left|].
    destruct IH as [l ->]; [intros; apply Hall; by right|]. by exists (av :: l). }
  destruct Hl as [l El]. exists l. split_and!; [done|..].
  - assert (Hnd : NoDup (prefix_rows p m).*1).
    { unfold prefix_rows. pose proof (NoDup_keys m) as Hm. induction (entries m) as [|kv rows IH]; [constructor|]. cbn.
      rewrite fmap_cons in Hm. apply NoDup_cons in Hm as [Hn Hm]. case_match; [|by apply IH]. rewrite fmap_cons. constructor; [|by apply IH].
      intros ([k v] & E & [Hin _]%list_elem_of_In%filter_In)%list_elem_of_fmap. apply Hn. rewrite E. apply list_elem_of_fmap.
      exists (k, v). split; [done|]. by apply list_elem_of_In. }
    rewrite El in Hnd. rewrite <- list_fmap_compose in Hnd.
    apply (NoDup_fmap_1 (fun a => EncodeBytes (row_bytes (C a)))). rewrite <- list_fmap_compose. exact Hnd.
  - intros a v. rewrite <- H1. transitivity (raw_row (a, v) ∈ raw_row <$> l).
    + split; [intros; by apply list_elem_of_fmap_2|]. intros ([a' v'] & E & Hin)%list_elem_of_fmap.
      injection E as E1%(inj EncodeBytes)%(inj row_bytes)%(inj C) ->. by subst.
    + rewrite <- El. unfold raw_row at 1. rewrite elem_of_prefix_rows. cbn [fst snd]. split; [by intros []|]. intros E. split; [|done]. apply prefix_spec. eauto.
Qed.

(** A visitor whose calls that do not throw take a step. *)
Lemma visits_fold_value {St} decode (visitor : St -> bytes -> bytes -> outcome unit * St) step :
  (forall a raw v s s', decode raw = Some v -> visitor s (row_bytes (C a)) v = (Ret tt, s') -> s' = step s (a, raw)) ->
  forall l s s', visits decode visitor (raw_row <$> l) s s' -> s' = foldl step s l.
Proof using Type zlen_row_small.
  intros Hstep. induction l as [|[a raw] l IH]; intros s s' V; [by inversion V|].
  rewrite fmap_cons in V. inversion V as [|? ? key value ? ? s1 ? Hk Hv E Hrest]; subst. rewrite DecodeBytes_row in Hk. injection Hk as <-.
  apply IH in Hrest as ->. cbn [foldl]. f_equal. by eapply Hstep.
Qed.
Lemma visits_fold {St} decode (visitor : St -> bytes -> bytes -> outcome unit * St) step :
  (forall a s v s', visitor s (row_bytes (C a)) v = (Ret tt, s') -> s' = step s a) ->
  forall l s s', visits decode visitor (raw_row <$> l) s s' -> s' = foldl step s l.*1.
Proof using Type zlen_row_small.
  intros Hstep l s s' V. apply (visits_fold_value _ _ (fun s av => step s av.1)) in V as ->; [|intros; by eapply Hstep].
  clear Hstep. revert s. induction l as [|av l IH]; intros s; [done|]. cbn [foldl fmap list_fmap]. apply IH.
Qed.
(** A visitor that appends what it sees. *)
Lemma visits_append {B} decode (visitor : list B -> bytes -> bytes -> outcome unit * list B) g :
  (forall s k v, visitor s k v = (Ret tt, s ++ g k v)) -> forall l s s', visits decode visitor (raw_row <$> l) s s' ->
  s' = s ++ mjoin ((fun av => g (row_bytes (C av.1)) (default [] (decode av.2))) <$> l).
Proof using Type zlen_row_small.
  intros Hg. induction l as [|[a v] l IH]; intros s s' V.
  - inversion V; subst. cbn. by rewrite app_nil_r.
  - rewrite fmap_cons in V. inversion V as [|? ? key value ? ? s1 ? Hk Hv E Hrest]; subst. rewrite DecodeBytes_row in Hk. injection Hk as <-.
    rewrite Hg in E. injection E as <-. apply IH in Hrest as ->. cbn [fmap list_fmap fst snd]. rewrite mjoin_cons, <- app_assoc.
    f_equal. f_equal. cbn [raw_row snd] in Hv. by rewrite Hv.
Qed.
End read.
End rows.
