(* ===== verification/DbWrites.v ===== *)
(** * Who writes what

    The store, its detector, the index and the finality journal share one
    database. Every operation reaches its database through writes to its own
    families of keys, whatever fails on the way; two components with different
    families leave each other's records alone. *)

From S2P Require Import Prelude.
From S2P Require Import Bytes.
From S2P Require Import Codec.
From S2P Require Import Crypto.
From S2P Require Import Operation.
From S2P Require Import State.
From S2P Require Import StateCodec.
From S2P Require Import Executor.
From S2P Require Import Block.
From S2P Require Import NetworkGenesis.
From S2P Require Import KVStore.
From S2P Require Import Journal.
From S2P Require Import Detector.
From S2P Require Import StateStore.
From S2P Require Import StateStoreProofs.
From S2P Require Import StateCommit.

Definition JOURNAL_TAG : bytes := str "poa-finalize".
(** The families of the store with its detector and its index. *)
Definition STORE_TAGS : list bytes :=
  [DETECTOR_TAG; OPERATION_TAG; BLOCK_TAG; HEIGHT_TAG; STATE_HEIGHT_TAG; EVENTS_TAG; STATE_KEY; HASH_KEY; HEAD_KEY; tag NETWORK_ID_KEY].

Section writes.
Context `{CryptoOps} {L : LevelDB} {Laws : LevelDBLaws L}.
#[local] Set Default Proof Using "Type + Laws".

(** A sequence of writes, each of which can fail, to keys of these families. *)
Definition write_step (tags : list bytes) (d d' : db) : Prop :=
  exists batch sync ok, batch_in tags batch /\ db_Write d batch sync = (ok, d').
Definition wrote (tags : list bytes) : db -> db -> Prop := rtc (write_step tags).

Lemma wrote_refl tags d : wrote tags d d.
Proof. constructor. Qed.
Lemma wrote_trans tags d1 d2 d3 : wrote tags d1 d2 -> wrote tags d2 d3 -> wrote tags d1 d3.
Proof. apply rtc_trans. Qed.
Lemma wrote_weaken t1 t2 d d' : (forall t, t ∈ t1 -> t ∈ t2) -> wrote t1 d d' -> wrote t2 d d'.
Proof.
  intros Ht Hw. induction Hw as [|d1 d2 d3 (batch & sync & ok & Hb & E) _ IH]; [constructor|]. econstructor; [|exact IH].
  exists batch, sync, ok. split; [by eapply batch_in_weaken|done].
Qed.
Lemma wrote_batch tags d batch sync ok d' : batch_in tags batch -> kv_WriteBatch d batch sync = (ok, d') -> wrote tags d d'.
Proof. intros Hb E. apply rtc_once. by exists batch, sync, ok. Qed.
Lemma wrote_Write {T} `{LocalRecord T} tags d k (v : T) sync ok d' : tag k ∈ tags -> kv_Write d k v sync = (ok, d') -> wrote tags d d'.
Proof. intros Hk. apply wrote_batch. apply batch_in_Write; [done|apply batch_in_nil]. Qed.
Lemma wrote_Erase tags d k sync ok d' : tag k ∈ tags -> kv_Erase d k sync = (ok, d') -> wrote tags d d'.
Proof. intros Hk. apply wrote_batch. apply batch_in_Erase; [done|apply batch_in_nil]. Qed.

(** Keys of other families keep their records. *)
Lemma wrote_other tags d d' k : wrote tags d d' -> tag k ∉ tags -> contents d' !! EncodeBytes k = contents d !! EncodeBytes k.
Proof.
  intros Hw Hk. induction Hw as [|d1 d2 d3 (batch & sync & ok & Hb & E) _ IH]; [done|]. rewrite IH.
  destruct ok; [rewrite (write_ok _ _ _ _ E)|by rewrite (write_failed _ _ _ _ E)]. by eapply batch_in_other.
Qed.
Lemma wrote_stored {T} `{LocalRecord T} tags d d' k : wrote tags d d' -> tag k ∉ tags -> stored (contents d') k = (stored (contents d) k : option T).
Proof. intros Hw Hk. unfold stored. by rewrite (wrote_other _ _ _ _ Hw Hk). Qed.

(** ** The journal *)

Definition journal_tagged (j : PoaSigningJournal) : Prop := forall x, tag (j_prefix j ++ x) = JOURNAL_TAG.
Lemma journal_prefix_tag net x : tag (journal_prefix net ++ x) = JOURNAL_TAG.
Proof. reflexivity. Qed.

Lemma PersistHalt_wrote j d reason ok j' d' : journal_tagged j -> PersistHalt j d reason = (ok, j', d') ->
  wrote [JOURNAL_TAG] d d' /\ j_prefix j' = j_prefix j.
Proof.
  intros Ht E. unfold PersistHalt in E. destruct (kv_Write _ _ _ _) as [ok1 d1] eqn:Ew. injection E as <- <- <-. split; [|done].
  eapply (wrote_Write (T := bytes)); [|exact Ew]. cbn [j_prefix set_halted]. rewrite Ht. tags.
Qed.
Lemma CheckCanonicalTip_wrote j d height tip status j' d' : journal_tagged j -> CheckCanonicalTip j d height tip = (status, j', d') ->
  wrote [JOURNAL_TAG] d d' /\ j_prefix j' = j_prefix j.
Proof.
  intros Ht E. unfold CheckCanonicalTip in E. cbv zeta in E. destruct (j_halted j); [injection E as <- <- <-; split; [constructor|done]|].
  destruct (negb _); [|injection E as <- <- <-; split; [constructor|done]].
  destruct (PersistHalt _ _ _) as [[ok j1] d1] eqn:Ep. injection E as <- <- <-. by eapply PersistHalt_wrote.
Qed.
Lemma PrepareToSign_wrote j d height parent id status j' d' : journal_tagged j ->
  PrepareToSign j d height parent id = (status, j', d') -> wrote [JOURNAL_TAG] d d' /\ j_prefix j' = j_prefix j.
Proof.
  intros Ht E. unfold PrepareToSign in E.
  repeat (walk_step E; [injection E as <- <- <-; split; [constructor|done]|]). walk_step E.
  - walk_step E; [injection E as <- <- <-; split; [constructor|done]|].
    destruct (PersistHalt _ _ _) as [[ok j1] d1] eqn:Ep. injection E as <- <- <-. by eapply PersistHalt_wrote.
  - repeat (walk_step E; [injection E as <- <- <-; split; [constructor|done]|]).
    destruct (kv_Write _ _ _ _) as [ok d1] eqn:Ew. apply (wrote_Write (T := bytes) [JOURNAL_TAG]) in Ew; [|rewrite Ht; tags].
    destruct ok; injection E as <- <- <-; done.
Qed.
Lemma SignFinality_wrote f d height tip block r f' d' : journal_tagged (f_journal f) ->
  SignFinality f d height tip block = (r, f', d') ->
  wrote [JOURNAL_TAG] d d' /\ j_prefix (f_journal f') = j_prefix (f_journal f) /\ f_public_key f' = f_public_key f /\
  f_network_binding f' = f_network_binding f.
Proof.
  intros Ht E. unfold SignFinality in E.
  destruct (SerializeBlock block) as [[lb|]|]; [|injection E as <- <- <-; split; [constructor|done]..].
  destruct (ComputeBlockId block) as [id|]; [|injection E as <- <- <-; split; [constructor|done]].
  walk_step E; [injection E as <- <- <-; split; [constructor|done]|].
  destruct (f_signer f) as [signer|]; [|injection E as <- <- <-; split; [constructor|done]].
  walk_step E; [injection E as <- <- <-; split; [constructor|done]|].
  destruct (CheckCanonicalTip _ _ _ _) as [[st1 j1] d1] eqn:Ec. cbv zeta in E. cbn [f_journal set_journal] in E.
  apply CheckCanonicalTip_wrote in Ec as [Hw1 Hp1]; [|done]. walk_step E; [injection E as <- <- <-; done|].
  destruct (PrepareToSign _ _ _ _ _) as [[st2 j2] d2] eqn:Ep. cbn [f_journal set_journal] in E.
  apply PrepareToSign_wrote in Ep as [Hw2 Hp2]; [|intros x; by rewrite Hp1].
  assert (Hw : wrote [JOURNAL_TAG] d d2) by by eapply wrote_trans.
  walk_step E; injection E as <- <- <-; (split_and!; [done|cbn; congruence|done..]).
Qed.
Lemma open_finalizer_wrote d net anchor key r d' : open_finalizer d net anchor key = (r, d') ->
  wrote [JOURNAL_TAG] d d' /\ forall f, r = Ret f -> journal_tagged (f_journal f) /\ f_public_key f = key /\ f_network_binding f = net.
Proof.
  intros E. unfold open_finalizer in E. destruct (open_journal d net anchor key) as [j d1] eqn:Ej. injection E as <- <-.
  assert (Hj : wrote [JOURNAL_TAG] d d1 /\ forall j0, j = Ret j0 -> journal_tagged j0).
  { unfold open_journal in Ej. walk_step Ej; [|injection Ej as <- <-; split; [constructor|done]].
    walk_step Ej; [injection Ej as <- <-; split; [constructor|done]|]. cbv zeta in Ej.
    destruct (kv_Read d (metadata_key net)) as [[metadata|]|]; [| |injection Ej as <- <-; split; [constructor|done]].
    - injection Ej as <- <-. split; [constructor|]. intros j0 E. unfold load_journal in E. cbv zeta in E. do 6 walk_step E.
      destruct a0; walk E; injection E as <-; intros x; apply journal_prefix_tag.
    - destruct (or_else _ _) as [[]|]; [injection Ej as <- <-; split; [constructor|done]| |injection Ej as <- <-; split; [constructor|done]].
      destruct (kv_WriteBatch _ _ _) as [ok d2] eqn:Ew. injection Ej as <- <-.
      apply (wrote_batch [JOURNAL_TAG]) in Ew; [split; [done|]|].
      + destruct ok; [|done]. intros j0 [= <-] x. apply journal_prefix_tag.
      + apply batch_in_Write; [tags|]. apply batch_in_Write; [tags|apply batch_in_nil]. }
  destruct Hj as [Hw Ht]. split; [done|]. intros f Ef. destruct j as [j0|]; [|done]. cbn [outcome_bind] in Ef. walk_step Ef.
  injection Ef as <-. split_and!; [by apply Ht|done..].
Qed.

(** ** The detector *)

Ltac no_write E := injection E as <- <- <-; constructor.
Lemma record_conflict_wrote p d key l1 l2 c o r p' d' : detector_tagged p -> tag key = DETECTOR_TAG ->
  record_conflict p d key l1 l2 c o = (r, p', d') -> wrote [DETECTOR_TAG] d d'.
Proof.
  intros Ht Hk E. unfold record_conflict in E. cbv zeta in E. destruct (kv_Write d _ _ _) as [ok d1] eqn:Ew.
  apply (wrote_Write (T := bytes) [DETECTOR_TAG]) in Ew; [|rewrite Ht; tags]. destruct ok; cbn [negb] in E; [|by injection E as <- <- <-].
  walk_step E; [|by injection E as <- <- <-]. destruct (kv_Write d1 _ _ _) as [ok2 d2] eqn:Ew2.
  apply (wrote_Write (T := bytes) [DETECTOR_TAG]) in Ew2; [|rewrite Hk; tags].
  destruct ok2; injection E as <- <- <-; by eapply wrote_trans.
Qed.
Lemma corrupt_storage_wrote p d r p' d' : detector_tagged p -> corrupt_storage p d = (r, p', d') -> wrote [DETECTOR_TAG] d d'.
Proof.
  intros Ht E. unfold corrupt_storage, PersistHaltRecord in E. destruct (kv_Write _ _ _ _) as [ok1 d1] eqn:Ew.
  apply (wrote_Write (T := bytes) [DETECTOR_TAG]) in Ew; [|cbn [pd_prefix halt_detector]; rewrite Ht; tags]. by injection E as <- <- <-.
Qed.
Lemma Observe_wrote p d c b r p' d' : detector_tagged p -> Observe p d c b = (r, p', d') -> wrote [DETECTOR_TAG] d d'.
Proof.
  intros Ht E. assert (Hk : tag (ObservationKey (pd_prefix p) c) = DETECTOR_TAG) by apply Ht. unfold Observe in E.
  walk_step E; [|no_write E]. destruct (VerifyPoaCertificateForBlock _ _ _ _) as [[]|]; [|no_write E..].
  walk_step E; [no_write E|]. cbv zeta in E. destruct (kv_Read d _) as [[lp|]|]; [| |no_write E].
  - destruct (DeserializePoaFinalityCertificate lp) as [o|]; [|by eapply corrupt_storage_wrote].
    destruct (previous_ok _ _ _) as [[]|]; [|by eapply corrupt_storage_wrote|no_write E].
    walk_step E; [no_write E|]. by eapply record_conflict_wrote.
  - destruct (kv_Exists _ _) as [[]|]; [by eapply corrupt_storage_wrote| |no_write E].
    destruct (kv_Write _ _ _ _) as [ok d1] eqn:Ew. apply (wrote_Write (T := bytes) [DETECTOR_TAG]) in Ew; [|rewrite Hk; tags].
    destruct ok; by injection E as <- <- <-.
Qed.

(** ** The store *)

Lemma store_tags_in t : t ∈ [OPERATION_TAG] \/ t ∈ [EVENTS_TAG] -> t ∈ STORE_TAGS.
Proof. intros [->%list_elem_of_singleton| ->%list_elem_of_singleton]; tags. Qed.
Ltac rows := repeat first [apply batch_in_app | apply batch_in_Write; [tags|] | apply batch_in_Erase; [tags|] | apply batch_in_nil].
Lemma plan_next_in s d fb id head st batch st' : plan_next s d fb id head st = Ret (inr (batch, st')) -> batch_in STORE_TAGS batch.
Proof.
  intros E. unfold plan_next in E. cbv zeta in E. walk_step E. walk_step E. walk_step E.
  destruct a as [|[root next]]; [done|]. walk_step E. walk_step E. walk_step E. walk_step E. walk_step E. walk_step E. walk_step E.
  apply (inj Ret), (inj inr) in E. injection E as <- <-.
  assert (H1 : batch_in STORE_TAGS l1) by (eapply batch_in_weaken; [|by eapply checked_operation_rows_in]; intros t Ht; apply store_tags_in; by left).
  assert (H2 : batch_in STORE_TAGS a1) by (eapply batch_in_weaken; [|by eapply AppendFinalizedEvents_in]; intros t Ht; apply store_tags_in; by right).
  rows; try done; [destruct next; rows|case_match; rows].
Qed.
Lemma plan_reorg_in s d fb id head batch st' : plan_reorg s d fb id head = Ret (inr (batch, st')) -> batch_in STORE_TAGS batch.
Proof.
  intros E. unfold plan_reorg in E. cbv zeta in E. do 17 walk_step E.
  apply (inj Ret), (inj inr) in E. injection E as <- <-.
  assert (Hrows : forall row ops rows, (forall op, exists x, batch_keys [row op] = [EncodeBytes x] /\ tag x = OPERATION_TAG) ->
    operation_rows row ops = Ret rows -> batch_in STORE_TAGS rows).
  { intros row ops rows Hrow Er. eapply batch_in_weaken; [|by eapply operation_rows_in]. intros t Ht. apply store_tags_in. by left. }
  apply Hrows in Hret2; [|intros op; by exists (OperationKey op)]. apply Hrows in Hret4; [|intros op; by exists (OperationKey op)].
  apply AppendFinalizedEvents_in in Hret5. eapply batch_in_weaken in Hret5; [|intros t Ht; apply store_tags_in; by right].
  rows; done.
Qed.
Lemma CommitFinalizedBlock_wrote s d fb sync r s' d' : detector_tagged (ss_detector s) ->
  CommitFinalizedBlock s d fb sync = (r, s', d') -> wrote STORE_TAGS d d'.
Proof.
  intros Ht E. unfold CommitFinalizedBlock in E. destruct (GetStateSnapshot s d) as [loaded s1] eqn:Eg.
  assert (Hd : ss_detector s1 = ss_detector s).
  { unfold GetStateSnapshot in Eg. destruct (ss_state_snapshot s); [by injection Eg as _ <-|]. destruct (LoadStateLocked s d) as [[]|]; by injection Eg as _ <-. }
  destruct loaded as [[e|st]|]; [injection E as _ _ <-; constructor| |injection E as _ _ <-; constructor].
  destruct (check_block s1 d fb) as [[res|[id head]]|]; [injection E as _ _ <-; constructor| |injection E as _ _ <-; constructor].
  destruct (Observe _ d _ _) as [[obs p1] d1] eqn:Eo. rewrite Hd in Eo. apply Observe_wrote in Eo; [|done].
  assert (H1 : wrote STORE_TAGS d d1) by (eapply wrote_weaken; [|exact Eo]; intros t ->%list_elem_of_singleton; tags).
  destruct obs as [obs|]; [|by injection E as _ _ <-]. unfold write_plan in E.
  destruct (observation_plan _ d1 fb id head st obs) as [[res|[batch st']]|] eqn:Ep; [by injection E as _ _ <-| |by injection E as _ _ <-].
  assert (Hb : batch_in STORE_TAGS batch).
  { destruct obs; cbn [observation_plan] in Ep; try discriminate Ep; [by eapply plan_next_in|by eapply plan_next_in|by eapply plan_reorg_in]. }
  destruct (kv_WriteBatch d1 batch sync) as [ok d2] eqn:Ew. apply (wrote_batch STORE_TAGS) in Ew; [|done].
  eapply wrote_trans; [exact H1|]. destruct ok; by injection E as _ _ <-.
Qed.
Lemma InitializeGenesis_wrote s d st sync r s' d' : InitializeGenesis s d st sync = (r, s', d') -> wrote STORE_TAGS d d'.
Proof.
  intros E. unfold InitializeGenesis in E. destruct (or_else _ _) as [[]|]; [injection E as _ _ <-; constructor| |injection E as _ _ <-; constructor].
  walk_step E; [|injection E as _ _ <-; constructor]. walk_step E; [injection E as _ _ <-; constructor|].
  walk_step E; [|injection E as _ _ <-; constructor]. cbv zeta in E.
  destruct (kv_WriteBatch d _ sync) as [ok d1] eqn:Ew. apply (wrote_batch STORE_TAGS) in Ew; [|rows].
  destruct ok; by injection E as _ _ <-.
Qed.
Lemma open_store_wrote d genesis r d' : open_store d genesis = (r, d') -> wrote [DETECTOR_TAG] d d'.
Proof.
  intros E. unfold open_store in E. destruct (ComputeNetworkBinding _) as [net|]; [|injection E as _ <-; constructor].
  destruct (open_detector d net _) as [p d1] eqn:Ed. injection E as _ <-. unfold open_detector in Ed.
  walk_step Ed; [|injection Ed as _ <-; constructor]. walk_step Ed; [injection Ed as _ <-; constructor|]. cbv zeta in Ed.
  destruct (kv_Read d _) as [[m|]|]; [injection Ed as _ <-; constructor| |injection Ed as _ <-; constructor].
  destruct (or_else _ _) as [[]|]; [injection Ed as _ <-; constructor| |injection Ed as _ <-; constructor].
  destruct (kv_Write d _ _ true) as [ok d2] eqn:Ew. injection Ed as _ <-.
  apply (wrote_Write (T := bytes) [DETECTOR_TAG]) in Ew; [done|]. unfold detector_prefix. tags.
Qed.
End writes.

(** ** The journal does not see the store's writes *)

Section journal.
Context `{CryptoOps} {L : LevelDB} {Laws : LevelDBLaws L}.
Context (net anchor : Hash256) (key : IdentityHybridPublicKey).
#[local] Set Default Proof Using "Type + Laws".

Lemma journal_key_tag tags batch k : batch_in tags batch -> JOURNAL_TAG ∉ tags -> k ∈ journal_keys net -> k ∉ batch_keys batch.
Proof.
  intros Hb Ht Hk Hin. apply (proj1 (Forall_forall _ _) Hb) in Hin as (x & -> & Hx). apply Ht.
  assert (E : tag x = JOURNAL_TAG); [|by rewrite <- E].
  unfold journal_keys in Hk. rewrite !elem_of_cons, elem_of_nil in Hk.
  destruct Hk as [Hk%(inj EncodeBytes)|[Hk%(inj EncodeBytes)|[Hk%(inj EncodeBytes)|[]]]]; subst x; apply journal_prefix_tag.
Qed.
Lemma wrote_node tags d d' f issued : JOURNAL_TAG ∉ tags -> wrote tags d d' ->
  rtc (node_step net anchor key) (mkNode d f issued) (mkNode d' f issued).
Proof.
  intros Ht Hw. induction Hw as [|d1 d2 d3 (batch & sync & ok & Hb & E) _ IH]; [constructor|]. econstructor; [|exact IH].
  eapply node_other; [|exact E]. intros k. by eapply journal_key_tag.
Qed.
End journal.
