(* ===== verification/EventIndex.v ===== *)
(** * The index of finalized events

    [src/src/cybou/finalized_event_index.cpp]: where every finalized operation,
    key package and publication is. The index can be rebuilt from the stored
    blocks and is, whenever its marker does not name the head or a lookup
    finds it wrong; a location is checked against the block before it is
    given out. *)

From S2P Require Import Prelude.
From S2P Require Import Bytes.
From S2P Require Import Codec.
From S2P Require Import Crypto.
From S2P Require Import Identity.
From S2P Require Import Payloads.
From S2P Require Import Operation.
From S2P Require Import Block.
From S2P Require Import KVStore.
From S2P Require Import Journal.
From S2P Require Import Detector.
From S2P Require Import NetworkGenesis.
From S2P Require Import StateStore.
From S2P Require Import StateStoreProofs.
From S2P Require Import StateCommit.
From S2P Require Import StateChain.
From S2P Require Import KVIteration.
From S2P Require Import DbWrites.

(** ** Data *)

Record FinalizedEventLookup : Type := mkLookup {
  lk_available : bool;
  lk_location : option FinalizedEventLocation;
}.
(** [return {}]. *)
Definition no_lookup : FinalizedEventLookup := mkLookup false None.
Record FinalizedPublicationScan : Type := mkScan {
  sc_heights : list Z;
  sc_scanned_height : Z;
}.

(** [std::from_chars] in base 16: the value of the digits, if all are. *)
Definition hex_value (b : byte) : option Z :=
  let v := zb b in
  if (48 <=? v) && (v <=? 57) then Some (v - 48)
  else if (97 <=? v) && (v <=? 102) then Some (v - 87)
  else if (65 <=? v) && (v <=? 70) then Some (v - 55)
  else None.
Fixpoint from_hex_chars (acc : Z) (l : bytes) : option Z :=
  match l with
  | [] => Some acc
  | b :: l => let? v := hex_value b else None ;; from_hex_chars (16 * acc + v) l
  end.

Section index.
Context `{CryptoOps} `{LevelDB}.

(** ** Rebuilding *)

(** The prefixes and the widths of what follows them. *)
Definition event_prefixes : list (bytes * Z) := [(EVENTS_OPS, 64); (EVENTS_KEM, 81); (EVENTS_PUBLICATIONS, 16)].

(** The erasing visitor: the database, the batch and its count. *)
Definition erase_visitor (s : db * list BatchEntry * Z) (key _value : bytes) : outcome unit * (db * list BatchEntry * Z) :=
  let '(d, erase, count) := s in
  let erase := erase ++ [batch_Erase key] in
  let count := count + 1 in
  if count =? 256 then
    let (ok, d) := kv_WriteBatch d erase false in
    if ok then (Ret tt, (d, [], 0)) else (Throw, (d, erase, count))
  else (Ret tt, (d, erase, count)).
Definition erase_prefix (d : db) (prefix : bytes) (width : Z) : outcome unit * db :=
  let '(r, (d, erase, _)) := ForEachStringPrefixRaw d prefix (zlen prefix + width) erase_visitor (d, [], 0) in
  match r with
  | Throw => (Throw, d)
  | Ret _ => let (ok, d) := kv_WriteBatch d erase false in (if ok then Ret tt else Throw, d)
  end.
Fixpoint erase_prefixes (d : db) (prefixes : list (bytes * Z)) : outcome unit * db :=
  match prefixes with
  | [] => (Ret tt, d)
  | (prefix, width) :: rest =>
      let (r, d) := erase_prefix d prefix width in
      match r with Throw => (Throw, d) | Ret _ => erase_prefixes d rest end
  end.

(** The loop over the heights, [n] blocks from [height]: the id of the last
    one, or [None] when the stored chain is broken. *)
Fixpoint rebuild_loop (s : CybouStateStore) (d : db) (n : nat) (height : Z) (previous : Hash256)
    : outcome (option Hash256) * db :=
  match n with
  | O => (Ret (Some previous), d)
  | S n =>
      match GetBlockAtHeight d height with
      | Throw => (Throw, d)
      | Ret None => (Ret None, d)
      | Ret (Some block) =>
          return_if negb (bool_decide (blk_parent_block_id (fin_block block) = previous)) with (Ret None, d) ;;
          match VerifyPoaCertificateForBlock (fin_certificate block) (GetPoaPublicKey (ss_network_genesis s))
                  (ss_network_binding s) (fin_block block) with
          | Throw => (Throw, d)
          | Ret false => (Ret None, d)
          | Ret true =>
              match WriteEvents block false with
              | Throw => (Throw, d)
              | Ret batch =>
                  let (ok, d) := kv_WriteBatch d batch false in
                  return_if negb ok with (Throw, d) ;;
                  match ComputeBlockId (fin_block block) with
                  | Throw => (Throw, d)
                  | Ret previous => rebuild_loop s d n (height + 1) previous
                  end
              end
          end
      end
  end.

Definition rebuild_index (s : CybouStateStore) (d : db) (head : FinalizedHead) : outcome bool * db :=
  let (ok, d) := kv_Erase d EVENTS_HEAD false in
  return_if negb ok with (Throw, d) ;;
  let (r, d) := erase_prefixes d event_prefixes in
  match r with
  | Throw => (Throw, d)
  | Ret _ =>
      let (previous, d) := rebuild_loop s d (Z.to_nat (fh_height head)) 1 (GetGenesisAnchor (ss_network_genesis s)) in
      match previous with
      | Throw => (Throw, d)
      | Ret None => (Ret false, d)
      | Ret (Some previous) =>
          return_if negb (bool_decide (previous = fh_block_id head)) with (Ret false, d) ;;
          let (ok, d) := kv_Write (T := bytes) d EVENTS_HEAD (EncodeFinalizedHead head) true in
          (if ok then Ret true else Throw, d)
      end
  end.
Definition EnsureFinalizedEventsLocked (s : CybouStateStore) (d : db) (force : bool) : outcome bool * db :=
  match GetFinalizedHead d with
  | Throw => (Throw, d)
  | Ret None => (Ret false, d)
  | Ret (Some head) =>
      match (if force then Ret None else kv_Read (T := bytes) d EVENTS_HEAD) with
      | Throw => (Throw, d)
      | Ret marker =>
          return_if bool_decide (marker = Some (EncodeFinalizedHead head)) with (Ret true, d) ;;
          rebuild_index s d head
      end
  end.
Definition RebuildFinalizedEventIndex (s : CybouStateStore) (d : db) : outcome bool * db := EnsureFinalizedEventsLocked s d true.

(** ** Lookups *)

(** The id of the parent of the block at a height. *)
Definition parent_at (s : CybouStateStore) (d : db) (height : Z) : outcome (option Hash256) :=
  if 1 <? height then kv_Read (T := Hash256) d (BlockHeightKey (height - 1))
  else Ret (Some (GetGenesisAnchor (ss_network_genesis s))).
Definition ValidateFinalizedEvent (s : CybouStateStore) (d : db) (location : FinalizedEventLocation) : outcome bool :=
  try! head := GetFinalizedHead d ;;
  try! block := GetBlockAtHeight d (el_height location) ;;
  let? head := head else Ret false ;;
  return_if (el_height location =? 0) || (fh_height head <? el_height location) with Ret false ;;
  let? block := block else Ret false ;;
  try! block_id := ComputeBlockId (fin_block block) ;;
  return_if negb (bool_decide (block_id = el_block_id location))
    || (zlen (blk_operations (fin_block block)) <=? el_operation_index location) with Ret false ;;
  try! parent := parent_at s d (el_height location) ;;
  let? parent := parent else Ret false ;;
  return_if negb (bool_decide (blk_parent_block_id (fin_block block) = parent)) with Ret false ;;
  VerifyPoaCertificateForBlock (fin_certificate block) (GetPoaPublicKey (ss_network_genesis s)) (ss_network_binding s)
    (fin_block block).
(** A row holds a location that passes [ValidateFinalizedEvent], and what it
    then names: [block->block.operations[location->operation_index]]. *)
Definition operation_at (s : CybouStateStore) (d : db) (row : bytes)
    : outcome (option (FinalizedEventLocation * ProtocolOperation)) :=
  let? location := DecodeLocation row else Ret None ;;
  try! valid := ValidateFinalizedEvent s d location ;;
  return_if negb valid with Ret None ;;
  try! block := GetBlockAtHeight d (el_height location) ;;
  let? block := block else Ret None ;;
  let? operation := blk_operations (fin_block block) !! Z.to_nat (el_operation_index location) else Throw ;;
  Ret (Some (location, operation)).

(** One attempt of a lookup: its answer, or none when the next one is due. *)
Definition find_operation (s : CybouStateStore) (d : db) (id : Hash256) : outcome (option FinalizedEventLookup) :=
  try! row := kv_Read (T := bytes) d (EVENTS_OPS ++ GetHex id) ;;
  match row with
  | Some row =>
      try! found := operation_at s d row ;;
      let? (location, operation) := found else Ret None ;;
      try! operation_id := ComputeOperationId operation ;;
      Ret (if bool_decide (operation_id = Some id) then Some (mkLookup true (Some location)) else None)
  | None =>
      try! exists_ := kv_Exists d (OperationKey id) ;;
      Ret (if exists_ then None else Some (mkLookup true None))
  end.
(** The operation publishes the key package of [account] for [epoch]. *)
Definition is_kem_event (account : AccountId) (epoch : Z) (operation : ProtocolOperation) : bool :=
  match operation with
  | OpAccountCreate create => (epoch =? 0) && bool_decide (ac_account_id create = account)
  | OpIdentityRotate rotate => (rot_key_epoch rotate =? epoch) && bool_decide (rot_account_id rotate = account)
  | _ => false
  end.
Definition find_kem (s : CybouStateStore) (d : db) (account : AccountId) (epoch : Z) (last_attempt : bool)
    : outcome (option FinalizedEventLookup) :=
  try! row := kv_Read (T := bytes) d (KemKey account epoch) ;;
  let? row := row else Ret (if last_attempt then Some (mkLookup true None) else None) ;;
  try! found := operation_at s d row ;;
  let? (location, operation) := found else Ret None ;;
  Ret (if is_kem_event account epoch operation then Some (mkLookup true (Some location)) else None).

(** The loop of two attempts, the second one on a rebuilt index. *)
Definition two_attempts {A} (s : CybouStateStore) (d : db) (unavailable : A) (attempt : db -> bool -> outcome (option A))
    : outcome A * db :=
  let (ready, d) := EnsureFinalizedEventsLocked s d false in
  match ready with
  | Throw => (Throw, d)
  | Ret false => (Ret unavailable, d)
  | Ret true =>
      match attempt d false with
      | Throw => (Throw, d)
      | Ret (Some answer) => (Ret answer, d)
      | Ret None =>
          let (ready, d) := EnsureFinalizedEventsLocked s d true in
          match ready with
          | Throw => (Throw, d)
          | Ret false => (Ret unavailable, d)
          | Ret true => (try! answer := attempt d true ;; Ret (default unavailable answer), d)
          end
      end
  end.
Definition FindIndexedOperation (s : CybouStateStore) (d : db) (id : Hash256) : outcome FinalizedEventLookup * db :=
  two_attempts s d no_lookup (fun d _ => find_operation s d id).
Definition FindIndexedKem (s : CybouStateStore) (d : db) (account : AccountId) (epoch : Z) : outcome FinalizedEventLookup * db :=
  two_attempts s d no_lookup (fun d last => find_kem s d account epoch last).

(** ** Publications *)

Record Scanning : Type := mkScanning {
  sn_heights : list Z;
  sn_scanned : Z;
  sn_valid : bool;
  sn_limited : bool;
}.
(** What the visitor needs to see in a row: the height it names. *)
Definition publication_row (s : CybouStateStore) (d : db) (key value : bytes) : outcome (option Z) :=
  return_if negb (zlen key =? zlen EVENTS_PUBLICATIONS + 16) with Ret None ;;
  let? height := from_hex_chars 0 (subspan key (zlen EVENTS_PUBLICATIONS) 16) else Ret None ;;
  let? location := DecodeLocation value else Ret None ;;
  return_if negb (el_height location =? height) with Ret None ;;
  try! valid := ValidateFinalizedEvent s d location ;;
  return_if negb valid with Ret None ;;
  try! block := GetBlockAtHeight d height ;;
  let? block := block else Throw ;;
  Ret (if existsb is_publication (blk_operations (fin_block block)) then Some height else None).
Definition publication_visitor (s : CybouStateStore) (d : db) (limit : Z) (scan : Scanning) (key value : bytes)
    : outcome bool * Scanning :=
  match publication_row s d key value with
  | Throw => (Throw, scan)
  | Ret None => (Ret false, mkScanning (sn_heights scan) (sn_scanned scan) false (sn_limited scan))
  | Ret (Some height) =>
      let heights := sn_heights scan ++ [height] in
      let limited := limit <=? zlen heights in
      (Ret (negb limited), mkScanning heights height (sn_valid scan) limited)
  end.
Definition scan_publications (s : CybouStateStore) (d : db) (after through max_blocks : Z)
    : outcome (option (option FinalizedPublicationScan)) :=
  try! head := GetFinalizedHead d ;;
  let? head := head else Ret (Some None) ;;
  return_if fh_height head <? through with Ret (Some None) ;;
  return_if (through <=? after) || (max_blocks =? 0) with Ret (Some (Some (mkScan [] after))) ;;
  let limit := Z.min max_blocks 256 in
  let (r, scan) := ForEachStringRange d (EVENTS_PUBLICATIONS ++ OrderedNumber (after ⊕ 1))
    (EVENTS_PUBLICATIONS ++ OrderedNumber through) (publication_visitor s d limit) (mkScanning [] after true false) in
  try! _ := r ;;
  Ret (if sn_valid scan
       then Some (Some (mkScan (sn_heights scan) (if sn_limited scan then sn_scanned scan else through)))
       else None).
Definition ScanPublicationHeights (s : CybouStateStore) (d : db) (after through max_blocks : Z)
    : outcome (option FinalizedPublicationScan) * db :=
  two_attempts s d None (fun d _ => scan_publications s d after through max_blocks).
End index.

(** * The index of finalized events is right

    A rebuild leaves exactly the rows of the finalized chain, whatever the
    index held before; an operation on the index writes nothing but index
    rows; and a location that a lookup gives out is one of the chain. *)

(** ** Batches *)

Lemma apply_batch_at m m' batch k : m !! k = m' !! k -> apply_batch m batch !! k = apply_batch m' batch !! k.
Proof.
  unfold apply_batch. revert m m'. induction batch as [|e batch IH]; intros m m' E; [done|]. cbn [foldl]. apply IH.
  destruct e as [k' v|k']; cbn [apply_entry]; destruct (decide (k' = k)) as [->|].
  - by rewrite !lookup_insert_eq.
  - by rewrite !lookup_insert_ne by done.
  - by rewrite !lookup_delete_eq.
  - by rewrite !lookup_delete_ne by done.
Qed.
Lemma insert_batch_delete m batch k v : <[k := v]> (apply_batch (delete k m) batch) = <[k := v]> (apply_batch m batch).
Proof.
  apply map_eq. intros x. destruct (decide (k = x)) as [->|]; [by rewrite !lookup_insert_eq|].
  rewrite !lookup_insert_ne by done. apply apply_batch_at. by rewrite lookup_delete_ne.
Qed.

(** ** What the index is *)

(** The keys of its rows, and a database without them. *)
Definition event_row_key (raw_key : bytes) : bool :=
  existsb (fun pw => sized_key pw.1 (zlen pw.1 + pw.2) raw_key) event_prefixes.
Definition without_events (m : gmap bytes bytes) : gmap bytes bytes := filter (fun kv => event_row_key kv.1 = false) m.
Arguments event_row_key : simpl never.
(** The two databases differ in rows of the index and its marker at most. *)
Definition events_only (m m' : gmap bytes bytes) : Prop :=
  forall k, tag k <> EVENTS_TAG -> m' !! EncodeBytes k = m !! EncodeBytes k.

Lemma events_only_refl m : events_only m m.
Proof. done. Qed.
Lemma events_only_trans m1 m2 m3 : events_only m1 m2 -> events_only m2 m3 -> events_only m1 m3.
Proof. intros H1 H2 k Hk. rewrite (H2 k Hk). by apply H1. Qed.
Lemma events_only_sym m m' : events_only m m' -> events_only m' m.
Proof. intros E k Hk. symmetry. by apply E. Qed.
Lemma events_only_stored {T} `{LocalRecord T} m m' k : events_only m m' -> tag k <> EVENTS_TAG -> stored m' k = stored (T := T) m k.
Proof. intros E Hk. unfold stored. by rewrite (E k Hk). Qed.
Lemma events_only_batch m batch : batch_in [EVENTS_TAG] batch -> events_only m (apply_batch m batch).
Proof. intros Hb k Hk. apply (batch_in_other _ _ _ _ Hb). by intros ?%list_elem_of_singleton. Qed.

Lemma take_prefix {A} (n : nat) (p l : list A) : (n <= length p)%nat -> take n (p ++ l) = take n p.
Proof. apply take_app_le. Qed.
(** The keys under the three prefixes are keys of the index. *)
Lemma event_prefix_tag prefix width rest : (prefix, width) ∈ event_prefixes -> tag (prefix ++ rest) = EVENTS_TAG.
Proof.
  unfold event_prefixes. rewrite !elem_of_cons, elem_of_nil.
  intros [[= -> ->]|[[= -> ->]|[[= -> ->]|[]]]]; unfold tag; (rewrite take_prefix; [done|apply Nat.leb_le; done]).
Qed.
Lemma event_prefix_sizes prefix width : (prefix, width) ∈ event_prefixes ->
  0 <= zlen prefix + width <= MAX_COMPACT_SIZE /\ zlen prefix <= zlen prefix + width.
Proof.
  unfold event_prefixes. rewrite !elem_of_cons, elem_of_nil. unfold MAX_COMPACT_SIZE.
  intros [[= -> ->]|[[= -> ->]|[[= -> ->]|[]]]]; by vm_compute.
Qed.

(** The keys the visitor erases for a list of records. *)
Definition erased_keys (rows : list (bytes * bytes)) : list bytes := omap (fun kv => EncodeBytes <$> DecodeBytes kv.1) rows.
Definition delete_all (m : gmap bytes bytes) (l : list bytes) : gmap bytes bytes := foldl (fun m k => delete k m) m l.

Lemma delete_all_lookup l : forall m k, delete_all m l !! k = if bool_decide (k ∈ l) then None else m !! k.
Proof.
  induction l as [|x l IH]; intros m k; [done|]. unfold delete_all in *. cbn [foldl]. rewrite IH.
  destruct (decide (x = k)) as [->|Hne].
  - rewrite lookup_delete_eq. rewrite (bool_decide_true (k ∈ k :: l)) by set_solver. by case_bool_decide.
  - rewrite lookup_delete_ne by done. apply (f_equal (fun b : bool => if b then None else m !! k)), bool_decide_ext. rewrite elem_of_cons. split; [by right|]. by intros [->|].
Qed.

Lemma elem_of_erased (prefix : bytes) (width : Z) (m : gmap bytes bytes) (k : bytes) : (prefix, width) ∈ event_prefixes -> is_Some (m !! k) ->
  k ∈ erased_keys (prefix_rows (AppendCompactSize (zlen prefix + width) ++ prefix) m) <->
  sized_key prefix (zlen prefix + width) k = true.
Proof.
  intros [Hs Hp]%event_prefix_sizes [v Hk]. unfold erased_keys. rewrite list_elem_of_omap. split.
  - intros ([raw_key raw_value] & [Hpre _]%elem_of_prefix_rows & E). cbn [fst] in E.
    destruct (DecodeBytes raw_key) as [key|] eqn:Ed; [|done]. injection E as <-.
    by apply (decoded_key _ _ raw_key).
  - intros Hz. destruct (DecodeBytes_sized _ _ _ (proj2 Hs) Hp Hz) as (key & Ed & ->). exists (EncodeBytes key, v). split.
    + apply elem_of_prefix_rows. split; [|done]. unfold sized_key in Hz. by apply andb_true_iff in Hz as [? _].
    + cbn [fst]. by rewrite Ed.
Qed.
Lemma without_events_only m : events_only m (without_events m).
Proof.
  intros k Hk. unfold without_events. rewrite map_lookup_filter. destruct (m !! EncodeBytes k) as [v|]; [|done]. cbn.
  rewrite option_guard_True; [done|]. apply not_true_is_false. intros ([prefix width] & Hin%list_elem_of_In & Hz)%existsb_exists.
  cbn [fst snd] in Hz. apply sized_key_spec in Hz as (rest & E%(inj EncodeBytes) & _); [|by apply event_prefix_sizes].
  subst. by apply Hk, (event_prefix_tag _ width).
Qed.

Lemma visit_prefix_keeps {St} decode (visitor : St -> bytes -> bytes -> outcome unit * St) p (I : St -> Prop) :
  (forall s raw_key key value, I s -> has_prefix p raw_key = true -> DecodeBytes raw_key = Some key -> I (visitor s key value).2) ->
  forall l n s, I s -> I (visit_prefix decode visitor p l n s).2.
Proof.
  intros Hstep. induction l as [|[k v] l IH]; intros n s HI; cbn [visit_prefix]; [done|].
  destruct (has_prefix p k) eqn:Ep; cbn [negb]; [|done].
  destruct (DecodeBytes k) as [key|] eqn:Ek; [|done]. destruct (decode v) as [value|]; [|done].
  pose proof (Hstep s k key value HI Ep Ek) as Hn. destruct (visitor s key value) as [[]]; [|done]. by apply IH.
Qed.
Section events.
Context `{CryptoOps} {L : LevelDB} {Laws : LevelDBLaws L}.
#[local] Set Default Proof Using "Type + Laws".

(** ** Erasing *)

Lemma kv_WriteBatch_contents (d : db) batch ok d' : kv_WriteBatch d batch false = (ok, d') ->
  contents d' = if ok then apply_batch (contents d) batch else contents d.
Proof. intros E. destruct ok; [by apply write_ok in E|by apply write_failed in E]. Qed.

Lemma erase_prefix_deletes d prefix width d' : erase_prefix d prefix width = (Ret tt, d') ->
  contents d' = delete_all (contents d) (erased_keys (prefix_rows (AppendCompactSize (zlen prefix + width) ++ prefix) (contents d))).
Proof.
  intros E. unfold erase_prefix, ForEachStringPrefixRaw in E.
  destruct (for_each_prefix _ _ _ _ _ _) as [[[]|] [[d1 erase] count]] eqn:Ef; [|done].
  apply for_each_prefix_visits in Ef.
  apply (visits_invariant _ _ (fun rows s => apply_batch (contents s.1.1) s.1.2 = delete_all (contents d) (erased_keys rows)) ) with (done_ := []) in Ef.
  - cbn [fst snd app] in Ef. destruct (kv_WriteBatch d1 erase false) as [ok d2] eqn:Ew. apply kv_WriteBatch_contents in Ew.
    destruct ok; [|done]. assert (d2 = d') as <- by congruence. congruence.
  - intros rows raw_key raw_value key value [[da ea] ca] [[db_ eb] cb] HI Hk _ E'. cbn [fst snd] in *.
    assert (Hnext : apply_batch (contents da) (ea ++ [batch_Erase key]) = delete_all (contents d) (erased_keys (rows ++ [(raw_key, raw_value)]))).
    { rewrite apply_batch_app, HI. unfold erased_keys, delete_all. rewrite omap_app, foldl_app. cbn [omap list_omap fst]. by rewrite Hk. }
    unfold erase_visitor in E'. cbv zeta in E'. destruct (ca + 1 =? 256).
    + destruct (kv_WriteBatch da _ false) as [[] dw] eqn:Ew; [|done]. injection E' as <- <- <-.
      apply kv_WriteBatch_contents in Ew. by rewrite Ew.
    + by injection E' as <- <- <-.
  - done.
Qed.

Lemma erase_prefix_lookup d prefix width d' k : (prefix, width) ∈ event_prefixes -> erase_prefix d prefix width = (Ret tt, d') ->
  contents d' !! k = if sized_key prefix (zlen prefix + width) k then None else contents d !! k.
Proof.
  intros Hin ->%erase_prefix_deletes. rewrite delete_all_lookup. destruct (contents d !! k) as [v|] eqn:Ek.
  - pose proof (elem_of_erased prefix width (contents d) k Hin (ex_intro _ v Ek)) as Hiff.
    rewrite (bool_decide_ext _ _ Hiff). by destruct (sized_key _ _ k).
  - by destruct (sized_key _ _ k), (bool_decide _).
Qed.
Lemma erase_prefixes_lookup prefixes : (forall pw, pw ∈ prefixes -> pw ∈ event_prefixes) ->
  forall d d' k, erase_prefixes d prefixes = (Ret tt, d') ->
  contents d' !! k = if existsb (fun pw => sized_key pw.1 (zlen pw.1 + pw.2) k) prefixes then None else contents d !! k.
Proof.
  induction prefixes as [|[prefix width] rest IH]; intros Hin d d' k E; cbn [erase_prefixes] in E; [by injection E as <-|].
  destruct (erase_prefix d prefix width) as [[[]|] d1] eqn:E1; [|done].
  assert (Hfirst : (prefix, width) ∈ event_prefixes) by (apply Hin; left).
  rewrite (IH (fun pw Hpw => Hin pw (list_elem_of_further _ _ _ Hpw)) _ _ _ E), (erase_prefix_lookup _ _ _ _ _ Hfirst E1). cbn [existsb fst snd].
  by destruct (sized_key prefix _ k), (existsb _ rest).
Qed.
(** Erasing all prefixes leaves what is not a row of the index. *)
Lemma erase_prefixes_all d d' : erase_prefixes d event_prefixes = (Ret tt, d') -> contents d' = without_events (contents d).
Proof.
  intros E. apply map_eq. intros k. rewrite (erase_prefixes_lookup event_prefixes (fun _ Hpw => Hpw) _ _ _ E).
  unfold without_events. rewrite map_lookup_filter. fold (event_row_key k). cbn [fst].
  destruct (contents d !! k) as [v|]; cbn; [|by destruct (event_row_key k)].
  destruct (event_row_key k); by cbn.
Qed.
(** ** Nothing but the index is written *)

Lemma wrote_events_only d d' : wrote [EVENTS_TAG] d d' -> events_only (contents d) (contents d').
Proof. intros Hw k Hk. apply (wrote_other _ _ _ _ Hw). by intros ?%list_elem_of_singleton. Qed.

Lemma erase_prefix_wrote d prefix width r d' : (prefix, width) ∈ event_prefixes -> erase_prefix d prefix width = (r, d') ->
  wrote [EVENTS_TAG] d d'.
Proof.
  intros Hin. pose proof (event_prefix_sizes _ _ Hin) as [Hs Hp]. unfold erase_prefix, ForEachStringPrefixRaw, for_each_prefix.
  destruct (_ <? _); [by intros [= <- <-]|]. cbv zeta. set (p := AppendCompactSize _ ++ prefix).
  assert (Hkeep : forall l n, let s := (visit_prefix Some erase_visitor p l n (d, [], 0)).2 in
    wrote [EVENTS_TAG] d s.1.1 /\ batch_in [EVENTS_TAG] s.1.2).
  { intros l n. apply visit_prefix_keeps; [|split; [done|apply batch_in_nil]].
    intros [[da ea] ca] raw_key key value [HI Hb] Hpre Hk. cbn [fst snd] in *.
    assert (Hb' : batch_in [EVENTS_TAG] (ea ++ [batch_Erase key])).
    { apply batch_in_app; [done|]. apply batch_in_Erase; [|apply batch_in_nil].
      destruct (decoded_key _ _ _ _ Hs Hp Hpre Hk) as [(rest & E%(inj EncodeBytes) & _)%sized_key_spec _]; [|done].
      subst key. rewrite (event_prefix_tag _ width) by done. tags. }
    unfold erase_visitor. cbv zeta. destruct (ca + 1 =? 256); [|done].
    destruct (kv_WriteBatch da _ false) as [ok dw] eqn:Ew. apply (wrote_batch [EVENTS_TAG]) in Ew; [|done].
    destruct ok; (split; [by eapply wrote_trans|]); [apply batch_in_nil|done]. }
  specialize (Hkeep (db_Iterator d p) 0%nat). destruct (visit_prefix _ _ _ _ _ _) as [n [[d1 erase] count]]. cbn [fst snd] in Hkeep.
  destruct Hkeep as [HI Hb]. destruct n as [n|]; cbn [outcome_bind]; [|by intros [= <- <-]].
  destruct (db_Status d p n); [|by intros [= <- <-]].
  destruct (kv_WriteBatch d1 erase false) as [ok d2] eqn:Ew. apply (wrote_batch [EVENTS_TAG]) in Ew; [|done]. intros [= <- <-].
  by eapply wrote_trans.
Qed.
Lemma erase_prefixes_wrote prefixes : (forall pw, pw ∈ prefixes -> pw ∈ event_prefixes) ->
  forall d r d', erase_prefixes d prefixes = (r, d') -> wrote [EVENTS_TAG] d d'.
Proof.
  induction prefixes as [|[prefix width] rest IH]; intros Hin d r d' E; cbn [erase_prefixes] in E; [by injection E as <- <-|].
  destruct (erase_prefix d prefix width) as [[[]|] d1] eqn:E1; apply erase_prefix_wrote in E1; try (apply Hin; left).
  - eapply wrote_trans; [exact E1|]. eapply IH; [|exact E]. intros pw Hpw. apply Hin. by right.
  - by injection E as <- <-.
Qed.
Lemma rebuild_loop_wrote s n : forall d h previous r d', rebuild_loop s d n h previous = (r, d') -> wrote [EVENTS_TAG] d d'.
Proof.
  induction n as [|n IH]; intros d h previous r d' E; cbn [rebuild_loop] in E; [by injection E as <- <-|].
  destruct (GetBlockAtHeight d h) as [[block|]|]; [|by injection E as <- <-..].
  destruct (negb _); [by injection E as <- <-|].
  destruct (VerifyPoaCertificateForBlock _ _ _ _) as [[]|]; [|by injection E as <- <-..].
  destruct (WriteEvents block false) as [batch|] eqn:Ew; [|by injection E as <- <-]. apply WriteEvents_in in Ew.
  destruct (kv_WriteBatch d batch false) as [ok d1] eqn:E1. apply (wrote_batch [EVENTS_TAG]) in E1; [|done].
  destruct ok; cbn [negb] in E; [|by injection E as <- <-].
  destruct (ComputeBlockId _) as [id|]; [|by injection E as <- <-]. eapply wrote_trans; [exact E1|]. by eapply IH.
Qed.
Lemma marker_write_wrote (d : db) v sync ok d' : kv_Write (T := bytes) d EVENTS_HEAD v sync = (ok, d') -> wrote [EVENTS_TAG] d d'.
Proof. apply (wrote_Write (T := bytes)). tags. Qed.
Lemma marker_erase_wrote (d : db) sync ok d' : kv_Erase d EVENTS_HEAD sync = (ok, d') -> wrote [EVENTS_TAG] d d'.
Proof. apply wrote_Erase. tags. Qed.
Lemma Ensure_wrote s d force r d' : EnsureFinalizedEventsLocked s d force = (r, d') -> wrote [EVENTS_TAG] d d'.
Proof.
  unfold EnsureFinalizedEventsLocked. destruct (GetFinalizedHead d) as [[head|]|]; [|by intros [= <- <-]..].
  destruct (if force then _ else _) as [marker|]; [|by intros [= <- <-]].
  case_bool_decide; [by intros [= <- <-]|]. unfold rebuild_index.
  destruct (kv_Erase d EVENTS_HEAD false) as [ok d1] eqn:E1. apply marker_erase_wrote in E1.
  destruct ok; cbn [negb]; [|by intros [= <- <-]].
  destruct (erase_prefixes d1 event_prefixes) as [r2 d2] eqn:E2. apply erase_prefixes_wrote in E2; [|done].
  assert (H12 : wrote [EVENTS_TAG] d d2) by by eapply wrote_trans.
  destruct r2; [|by intros [= <- <-]].
  destruct (rebuild_loop _ _ _ _ _) as [r3 d3] eqn:E3. apply rebuild_loop_wrote in E3.
  assert (H13 : wrote [EVENTS_TAG] d d3) by by eapply wrote_trans.
  destruct r3 as [[previous|]|]; [|by intros [= <- <-]..].
  destruct (negb _); [by intros [= <- <-]|].
  destruct (kv_Write d3 _ _ true) as [ok4 d4] eqn:E4. apply marker_write_wrote in E4. intros [= <- <-]. by eapply wrote_trans.
Qed.

Lemma events_write (d : db) batch sync ok d' : batch_in [EVENTS_TAG] batch -> kv_WriteBatch d batch sync = (ok, d') ->
  events_only (contents d) (contents d').
Proof. intros Hb E. by eapply wrote_events_only, wrote_batch. Qed.
Lemma erase_prefixes_only d r d' : erase_prefixes d event_prefixes = (r, d') -> events_only (contents d) (contents d').
Proof. intros E. by eapply wrote_events_only, erase_prefixes_wrote. Qed.
Lemma marker_erase (d : db) sync ok d' : kv_Erase d EVENTS_HEAD sync = (ok, d') -> events_only (contents d) (contents d').
Proof. intros E. by eapply wrote_events_only, marker_erase_wrote. Qed.
Lemma Ensure_only s d force r d' : EnsureFinalizedEventsLocked s d force = (r, d') -> events_only (contents d) (contents d').
Proof. intros E. by eapply wrote_events_only, Ensure_wrote. Qed.

(** ** The blocks *)

(** [fb] is stored under its own id, for this height. *)
Definition block_at (m : gmap bytes bytes) (height : Z) (fb : FinalizedBlock) : Prop := exists id raw,
  stored m (BlockKey id) = Some raw /\ DeserializeFinalizedBlock raw = Ret (Some fb) /\
  ComputeBlockId (fin_block fb) = Ret id /\ blk_height (fin_block fb) = height.
Lemma block_at_same m m' h fb : events_only m m' -> block_at m h fb -> block_at m' h fb.
Proof using.
  intros E (id & raw & Hr & Hrest). exists id, raw. split; [|done]. by rewrite (events_only_stored m m').
Qed.
Lemma checked_block_at d id h fb : checked_block d id h = Ret (Some fb) ->
  block_at (contents d) h fb /\ ComputeBlockId (fin_block fb) = Ret id.
Proof.
  intros E. unfold checked_block in E. walk_step E. destruct a as [fb'|]; [|done].
  destruct (Z.eqb_spec (blk_height (fin_block fb')) h) as [Hh|]; [|done]. cbn [negb] in E. walk_step E.
  case_bool_decide; [|done]. cbn [negb] in E. injection E as ->. subst. split; [|done].
  unfold GetBlock in Hret. walk_step Hret. apply kv_Read_stored in Hret1. destruct a as [raw|]; [|done].
  exists id, raw. by split_and!.
Qed.
Lemma GetBlockAtHeight_at d h fb : GetBlockAtHeight d h = Ret (Some fb) -> block_at (contents d) h fb.
Proof.
  unfold GetBlockAtHeight. destruct (h =? 0); [done|]. intros E. walk_step E. destruct a as [id|]; [by apply checked_block_at in E as []|].
  walk_step E. destruct a as [head|]; [|done]. destruct (_ <? _); [done|]. walk_step E. destruct a as [id|]; [|done].
  by apply checked_block_at in E as [].
Qed.

(** A certified chain of stored blocks from height [h] and parent [id]. *)
Inductive linked (s : CybouStateStore) (m : gmap bytes bytes) : Z -> Hash256 -> list FinalizedBlock -> Hash256 -> Prop :=
| linked_nil h id : linked s m h id [] id
| linked_cons h fb id blocks last : block_at m h fb ->
    VerifyPoaCertificateForBlock (fin_certificate fb) (GetPoaPublicKey (ss_network_genesis s)) (ss_network_binding s)
      (fin_block fb) = Ret true ->
    ComputeBlockId (fin_block fb) = Ret id -> linked s m (h + 1) id blocks last ->
    linked s m h (blk_parent_block_id (fin_block fb)) (fb :: blocks) last.
(** The rows of a list of blocks, in the order they are written. *)
Fixpoint event_rows (blocks : list FinalizedBlock) : outcome (list BatchEntry) :=
  match blocks with
  | [] => Ret []
  | fb :: blocks => try! rows := WriteEvents fb false ;; try! rest := event_rows blocks ;; Ret (rows ++ rest)
  end.

Lemma linked_same s m m' h id blocks last : events_only m m' -> linked s m h id blocks last -> linked s m' h id blocks last.
Proof using.
  intros E. induction 1 as [|h fb id blocks last Hb Hc Hid _ IH]; [constructor|].
  eapply linked_cons; [by eapply block_at_same|done|done|done].
Qed.
Lemma rebuild_loop_linked s n : forall d h previous last d', rebuild_loop s d n h previous = (Ret (Some last), d') ->
  exists blocks rows, linked s (contents d) h previous blocks last /\ length blocks = n /\ event_rows blocks = Ret rows /\
    contents d' = apply_batch (contents d) rows.
Proof.
  induction n as [|n IH]; intros d h previous last d' E; cbn [rebuild_loop] in E.
  { injection E as <- <-. exists [], []. split_and!; [constructor|done..]. }
  destruct (GetBlockAtHeight d h) as [[fb|]|] eqn:Eb; [|done..]. apply GetBlockAtHeight_at in Eb.
  case_bool_decide as Hp; [|done]. cbn [negb] in E.
  destruct (VerifyPoaCertificateForBlock _ _ _ _) as [[]|] eqn:Ec; [|done..].
  destruct (WriteEvents fb false) as [batch|] eqn:Ew; [|done].
  destruct (kv_WriteBatch d batch false) as [ok d1] eqn:E1. destruct ok; cbn [negb] in E; [|done].
  destruct (ComputeBlockId (fin_block fb)) as [id|] eqn:Ei; [|done].
  assert (H1 : events_only (contents d) (contents d1)).
  { eapply events_write; [|exact E1]. by eapply WriteEvents_in. }
  apply IH in E as (blocks & rows & Hl & Hn & Hr & Hd). exists (fb :: blocks), (batch ++ rows). split_and!.
  - subst. eapply linked_cons; [done..|]. eapply linked_same; [|exact Hl]. by apply events_only_sym.
  - cbn. by rewrite Hn.
  - cbn [event_rows]. by rewrite Ew, Hr.
  - rewrite apply_batch_app, Hd. f_equal. by apply kv_WriteBatch_contents in E1.
Qed.

(** The database with the index of exactly these blocks. *)
Definition indexed (m : gmap bytes bytes) (rows : list BatchEntry) (head : FinalizedHead) : gmap bytes bytes :=
  <[EncodeBytes EVENTS_HEAD := EncodeBytes (EncodeFinalizedHead head)]> (apply_batch (without_events m) rows).

Lemma without_events_delete m k : without_events (delete k m) = delete k (without_events m).
Proof using. unfold without_events. by rewrite map_filter_delete. Qed.
Lemma rebuild_index_spec s d head d' : stored (contents d) HEAD_KEY = Some head -> rebuild_index s d head = (Ret true, d') ->
  exists blocks rows, linked s (contents d) 1 (GetGenesisAnchor (ss_network_genesis s)) blocks (fh_block_id head) /\
    length blocks = Z.to_nat (fh_height head) /\ event_rows blocks = Ret rows /\ contents d' = indexed (contents d) rows head.
Proof.
  intros Hh E. unfold rebuild_index in E.
  destruct (kv_Erase d EVENTS_HEAD false) as [ok d1] eqn:E1. destruct ok; cbn [negb] in E; [|done].
  assert (H1 : contents d1 = delete (EncodeBytes EVENTS_HEAD) (contents d)) by by apply write_ok in E1.
  apply marker_erase in E1.
  destruct (erase_prefixes d1 event_prefixes) as [[[]|] d2] eqn:E2; [|done].
  pose proof (erase_prefixes_all _ _ E2) as H2. rewrite H1, without_events_delete in H2. apply erase_prefixes_only in E2.
  destruct (rebuild_loop _ _ _ _ _) as [[[last|]|] d3] eqn:E3; [|done..].
  apply rebuild_loop_linked in E3 as (blocks & rows & Hl & Hn & Hr & Hd).
  case_bool_decide as Hlast; [|done]. cbn [negb] in E. subst last.
  destruct (kv_Write d3 _ _ true) as [ok4 d4] eqn:E4. destruct ok4; [|done]. assert (d4 = d') as <- by congruence.
  exists blocks, rows. split_and!; [|done|done|].
  - eapply linked_same; [|exact Hl]. apply events_only_sym. by eapply events_only_trans.
  - apply kv_Write_contents in E4. rewrite E4, Hd, H2. unfold indexed. apply insert_batch_delete.
Qed.
Lemma Rebuild_spec s d d' : RebuildFinalizedEventIndex s d = (Ret true, d') ->
  exists head blocks rows, stored (contents d) HEAD_KEY = Some head /\
    linked s (contents d) 1 (GetGenesisAnchor (ss_network_genesis s)) blocks (fh_block_id head) /\
    length blocks = Z.to_nat (fh_height head) /\ event_rows blocks = Ret rows /\ contents d' = indexed (contents d) rows head.
Proof.
  unfold RebuildFinalizedEventIndex, EnsureFinalizedEventsLocked. destruct (GetFinalizedHead d) as [[head|]|] eqn:Eh; [|done..].
  rewrite bool_decide_false by done. intros E. apply kv_Read_stored in Eh.
  destruct (rebuild_index_spec s d head d' (eq_sym Eh) E) as (blocks & rows & Hrest). by exists head, blocks, rows.
Qed.

(** ** The blocks are those of the chain *)

Lemma linked_snoc s m blocks fb : forall h id last, linked s m h id (blocks ++ [fb]) last ->
  exists mid, linked s m h id blocks mid /\ blk_parent_block_id (fin_block fb) = mid /\ ComputeBlockId (fin_block fb) = Ret last /\
    exists h', block_at m h' fb.
Proof using.
  induction blocks as [|b blocks IH]; intros h id last E.
  - inversion E as [|? ? id' ? ? Hb _ Hid Hr]; subst. inversion Hr; subst.
    exists (blk_parent_block_id (fin_block fb)). split_and!; [constructor|done|done|by exists h].
  - inversion E as [|? ? id' ? ? Hb Hc Hid Hr]; subst. apply IH in Hr as (mid & Hl & Hrest). exists mid. split; [|done].
    by eapply linked_cons.
Qed.
Lemma linked_certified s m h id blocks last : linked s m h id blocks last ->
  Forall (fun fb => VerifyPoaCertificateForBlock (fin_certificate fb) (GetPoaPublicKey (ss_network_genesis s)) (ss_network_binding s)
    (fin_block fb) = Ret true) blocks.
Proof using. induction 1; by constructor. Qed.
(** What is stored under an id is one block. *)
Lemma block_at_stored m h id fb fb' : stored_block m id fb -> block_at m h fb' -> ComputeBlockId (fin_block fb') = Ret id -> fb' = fb.
Proof using.
  intros ((Ht & Hz) & _ & l & El & Em) (id' & raw & Hr & Hd & Hid & _) Hid'. assert (id' = id) as -> by congruence.
  unfold stored in Hr. rewrite Em in Hr. cbn [rec_Decode bytes_record] in Hr. rewrite DecodeBytes_Encode in Hr by by apply Hz.
  injection Hr as ->. rewrite (finalized_decode fb) in Hd; [by injection Hd|done| |done].
  pose proof (Hz _ El). unfold MAX_COMPACT_SIZE in *. ulia.
Qed.
Lemma linked_chain s m anchor blocks : forall chain, linked s m 1 anchor blocks (tip anchor chain) -> length blocks = length chain ->
  (forall front id back, chain = front ++ id :: back -> exists fb, stored_block m id fb /\
     blk_parent_block_id (fin_block fb) = tip anchor front) ->
  Forall2 (stored_block m) chain blocks.
Proof.
  induction blocks as [|fb blocks IH] using rev_ind; intros chain Hl Hn Hc.
  - destruct chain; [constructor|done].
  - destruct chain as [|id chain _] using rev_ind; [rewrite length_app in Hn; cbn in Hn; lia|].
    rewrite tip_snoc in Hl. apply linked_snoc in Hl as (mid & Hl & Hp & Hid & h & Hb).
    destruct (Hc chain id [] eq_refl) as (fb' & Hs & Hp'). assert (fb = fb') as <- by by eapply block_at_stored.
    apply Forall2_app; [|by constructor]. apply IH.
    + assert (tip anchor chain = mid) as -> by congruence. done.
    + rewrite !length_app in Hn. cbn in Hn. lia.
    + intros front i back ->. apply (Hc front i (back ++ [id])). by rewrite <- app_assoc.
Qed.

(** C17: a rebuild that succeeds leaves the index of exactly the finalized
    chain. The chain's blocks are all certified; whatever rows the index
    held before are gone, its rows are those that writing the blocks one
    after the other leaves, its marker names the head, and no other record of
    the database has changed. *)
Theorem rebuild_is_exact p chain s d d' :
  represents (GetGenesisAnchor (ss_network_genesis s)) p (contents d) chain -> RebuildFinalizedEventIndex s d = (Ret true, d') ->
  exists blocks rows, Forall2 (stored_block (contents d)) chain blocks /\
    Forall (fun fb => VerifyPoaCertificateForBlock (fin_certificate fb) (GetPoaPublicKey (ss_network_genesis s))
      (ss_network_binding s) (fin_block fb) = Ret true) blocks /\
    event_rows blocks = Ret rows /\
    contents d' = indexed (contents d) rows (mkFinalizedHead (tip (GetGenesisAnchor (ss_network_genesis s)) chain) (zlen chain)).
Proof.
  intros R (head & blocks & rows & Hh & Hl & Hn & Hr & Hd)%Rebuild_spec. rewrite (rp_head _ _ _ _ R) in Hh. injection Hh as <-.
  cbn [fh_block_id fh_height] in *. exists blocks, rows. split_and!; [|by eapply linked_certified|done|done].
  eapply linked_chain; [exact Hl|by unfold zlen in Hn; rewrite Nat2Z.id in Hn|].
  intros front id back E. destruct (rp_blocks _ _ _ _ R _ _ _ E) as (fb & Hs & _ & Hp & _). eauto.
Qed.

(** ** Lookups *)

Lemma two_attempts_wrote {A} s d (unavailable : A) attempt r d' : two_attempts s d unavailable attempt = (r, d') -> wrote [EVENTS_TAG] d d'.
Proof.
  unfold two_attempts. destruct (EnsureFinalizedEventsLocked s d false) as [r1 d1] eqn:E1. apply Ensure_wrote in E1.
  destruct r1 as [[]|]; [|by intros [= <- <-]..]. destruct (attempt d1 false) as [[a1|]|]; [by intros [= <- <-]| |by intros [= <- <-]].
  destruct (EnsureFinalizedEventsLocked s d1 true) as [r2 d2] eqn:E2. apply Ensure_wrote in E2.
  destruct r2 as [[]|]; intros [= <- <-]; by eapply wrote_trans.
Qed.

Lemma two_attempts_inv {A} s d (unavailable : A) attempt a d' : two_attempts s d unavailable attempt = (Ret a, d') ->
  events_only (contents d) (contents d') /\
  (a = unavailable \/ exists d1 last, events_only (contents d) (contents d1) /\ attempt d1 last = Ret (Some a)).
Proof.
  unfold two_attempts. destruct (EnsureFinalizedEventsLocked s d false) as [r1 d1] eqn:E1. apply Ensure_only in E1.
  destruct r1 as [[]|]; [| |done]; [|by intros [= <- <-]; split; [done|left]].
  destruct (attempt d1 false) as [[a1|]|] eqn:Ea; [|clear Ea|done]; [by intros [= <- <-]; eauto 6|].
  destruct (EnsureFinalizedEventsLocked s d1 true) as [r2 d2] eqn:E2. apply Ensure_only in E2.
  assert (H2 : events_only (contents d) (contents d2)) by by eapply events_only_trans.
  destruct r2 as [[]|]; [| |done]; [|by intros [= <- <-]; split; [done|left]].
  destruct (attempt d2 true) as [[a2|]|] eqn:Ea; cbn [outcome_bind default]; [| |done]; intros [= <- <-]; eauto 6.
Qed.

(** [operation] is at [location] in the chain, in a certified block. *)
Definition finalized_at (s : CybouStateStore) (m : gmap bytes bytes) (chain : list Hash256) (location : FinalizedEventLocation)
    (operation : ProtocolOperation) : Prop := exists fb,
  1 <= el_height location /\ chain !! Z.to_nat (el_height location - 1) = Some (el_block_id location) /\
  stored_block m (el_block_id location) fb /\
  blk_operations (fin_block fb) !! Z.to_nat (el_operation_index location) = Some operation /\
  VerifyPoaCertificateForBlock (fin_certificate fb) (GetPoaPublicKey (ss_network_genesis s)) (ss_network_binding s)
    (fin_block fb) = Ret true.

Lemma GetBlockAtHeight_id d h fb id : GetBlockAtHeight d h = Ret (Some fb) -> stored (contents d) (BlockHeightKey h) = Some id ->
  ComputeBlockId (fin_block fb) = Ret id.
Proof.
  unfold GetBlockAtHeight. destruct (h =? 0); [done|]. intros E Hs. walk_step E. apply kv_Read_stored in Hret. rewrite Hs in Hret.
  subst. by apply checked_block_at in E as [].
Qed.
Lemma operation_at_finalized p chain s d d1 row location operation :
  represents (GetGenesisAnchor (ss_network_genesis s)) p (contents d) chain -> events_only (contents d) (contents d1) ->
  operation_at s d1 row = Ret (Some (location, operation)) -> finalized_at s (contents d) chain location operation.
Proof.
  intros R Ho E. unfold operation_at in E. destruct (DecodeLocation row) as [loc|] eqn:El; [|done].
  assert (Hpos : 0 <= el_height loc).
  { unfold DecodeLocation in El. destruct (negb _); [done|]. injection El as <-. cbn [el_height]. pose proof (le_val_range (subspan row 0 8)). lia. }
  walk_step E. destruct a; [|done]. cbn [negb] in E. walk_step E. destruct a as [fb|]; [|done].
  destruct (blk_operations (fin_block fb) !! _) as [op|] eqn:Eop; [|done]. injection E as <- <-. rename Hret0 into Hblock.
  unfold ValidateFinalizedEvent in Hret. walk_step Hret. walk_step Hret. destruct a as [head|]; [|done].
  destruct (Z.eqb_spec (el_height loc) 0) as [|Hne]; [done|].
  destruct (Z.ltb_spec (fh_height head) (el_height loc)) as [|Hle]; [done|]. cbn [orb] in Hret.
  destruct a0 as [fb'|]; [|done]. injection Hblock as ->. walk_step Hret.
  case_bool_decide as Hid; [|done]. destruct (_ <=? _); [done|]. cbn [negb orb] in Hret. subst a.
  walk_step Hret. destruct a as [parent|]; [|done]. destruct (negb _); [done|].
  apply kv_Read_stored in Hret0. rewrite (events_only_stored (contents d)) in Hret0 by done.
  rewrite (rp_head _ _ _ _ R) in Hret0. injection Hret0 as ->. cbn [fh_height] in Hle.
  assert (Hlt : (Z.to_nat (el_height loc - 1) < length chain)%nat) by (unfold zlen in Hle; lia).
  apply lookup_lt_is_Some in Hlt as [id Hlook].
  pose proof (take_drop_middle _ _ _ Hlook) as Esplit. symmetry in Esplit.
  destruct (rp_blocks _ _ _ _ R _ _ _ Esplit) as (fb0 & Hs & _ & _ & Hi).
  replace (zlen (take (Z.to_nat (el_height loc - 1)) chain) + 1) with (el_height loc) in Hi
    by (apply lookup_lt_Some in Hlook; unfold zlen; rewrite length_take; lia).
  rewrite <- (events_only_stored (contents d) (contents d1)) in Hi by done.
  pose proof (GetBlockAtHeight_id _ _ _ _ Hret1 Hi) as Hid. rewrite Hret2 in Hid. injection Hid as Hid.
  apply GetBlockAtHeight_at in Hret1. eapply block_at_same in Hret1; [|by apply events_only_sym].
  exists fb. subst id. assert (fb = fb0) as -> by by eapply block_at_stored. split_and!; [lia|done|done|done|done].
Qed.

(** C18: what a lookup gives out is finalized. A location for an operation id
    names a place in the chain, in a certified block, whose operation has
    that id; a location for a key package names an operation that publishes
    the key of this account and epoch; the answer that there is no such
    operation is given only when the record of finalized operations has none. *)
Theorem lookups_are_finalized p chain s d : represents (GetGenesisAnchor (ss_network_genesis s)) p (contents d) chain ->
  (forall id location d', FindIndexedOperation s d id = (Ret (mkLookup true (Some location)), d') ->
     exists operation, finalized_at s (contents d) chain location operation /\ ComputeOperationId operation = Ret (Some id)) /\
  (forall id d', FindIndexedOperation s d id = (Ret (mkLookup true None), d') -> contents d !! EncodeBytes (OperationKey id) = None) /\
  (forall account epoch location d', FindIndexedKem s d account epoch = (Ret (mkLookup true (Some location)), d') ->
     exists operation, finalized_at s (contents d) chain location operation /\ is_kem_event account epoch operation = true).
Proof.
  intros R. split_and!.
  - intros id location d' E. apply two_attempts_inv in E as [_ [E|(d1 & last & Ho & E)]]; [done|].
    unfold find_operation in E. walk_step E. destruct a as [row|]; [|walk_step E; by destruct a].
    walk_step E. destruct a as [[loc op]|]; [|done]. walk_step E. case_bool_decide; [|done]. injection E as <-. subst.
    exists op. split; [by eapply operation_at_finalized|done].
  - intros id d' E. apply two_attempts_inv in E as [_ [E|(d1 & last & Ho & E)]]; [done|].
    unfold find_operation in E. walk_step E. destruct a as [row|].
    + walk_step E. destruct a as [[loc op]|]; [|done]. walk_step E. by case_bool_decide.
    + walk_step E. destruct a; [done|]. apply kv_Exists_contents in Hret0. rewrite (Ho (OperationKey id)) in Hret0 by done.
      symmetry in Hret0. apply bool_decide_eq_false in Hret0. by apply eq_None_not_Some.
  - intros account epoch location d' E. apply two_attempts_inv in E as [_ [E|(d1 & last & Ho & E)]]; [done|].
    unfold find_kem in E. walk_step E. destruct a as [row|]; [|by destruct last].
    walk_step E. destruct a as [[loc op]|]; [|done]. destruct (is_kem_event account epoch op) eqn:Ek; [|done]. injection E as <-.
    exists op. split; [by eapply operation_at_finalized|done].
Qed.
End events.
