(* ===== verification/ChunkRetention.v ===== *)
(** * The pins and the cache of the chunk store

    [src/src/cybou/chunk_retention.cpp]: why a local blob must stay. A pin ties
    a chunk to a holder and a reference; a chunk without pins may be in the
    cache, from which the oldest are collected. The rows live in a database of
    their own; [Collect] reads the sizes of the blobs and removes them through
    a callback, so the world of the blobs is a state passed along. *)

From S2P Require Import Prelude.
From S2P Require Import Bytes.
From S2P Require Import Codec.
From S2P Require Import Utf8.
From S2P Require Import Crypto.
From S2P Require Import Merkle.
From S2P Require Import KVStore.
From S2P Require Import KVIteration.

(** ** Keys *)

Record RetentionKey : Type := mkRetentionKey {
  holder : arr 32;
  reference : arr 32;
}.
#[export] Instance RetentionKey_eq_dec : EqDecision RetentionKey.
Proof. solve_decision. Defined.

Definition PIN : bytes := str "pin/".
Definition REF : bytes := str "ref/".
Definition CACHE : bytes := str "cch/".
Definition HEX : Z := 64.
Definition PIN_KEY : Z := 4 + 3 * HEX.
Definition CACHE_KEY : Z := 4 + HEX.

(** [RetentionTag]. *)
Definition RetentionTag `{CryptoOps} (domain l : bytes) : arr 32 := ComputeBlake3Digest [domain; [x00]; l].

(** The digits of [ParseHex], lower case only. *)
Definition lower_nibble (c : byte) : Z :=
  let c := zb c in
  if (48 <=? c) && (c <=? 57) then c - 48
  else if (97 <=? c) && (c <=? 102) then c - 97 + 10
  else -1.
Fixpoint parse_pairs (hex : bytes) : option bytes :=
  match hex with
  | c1 :: c2 :: rest =>
      let high := lower_nibble c1 in let low := lower_nibble c2 in
      return_if (high <? 0) || (low <? 0) with None ;;
      let? l := parse_pairs rest else None ;;
      Some (bz (Z.lor (Z.shiftl high 4) low) :: l)
  | _ => Some []
  end.
Definition ParseHex (hex : bytes) : option ChunkId :=
  return_if negb (zlen hex =? HEX) with None ;;
  let? l := parse_pairs hex else None ;;
  Some (arr_of 32 l).
(** [Hex] is [GetHex]: two digits for each byte. *)
Definition KeyString (key : RetentionKey) : bytes := GetHex (holder key) ++ GetHex (reference key).
Definition pin_key (id owner : bytes) : bytes := PIN ++ id ++ owner.
Definition ref_key (owner id : bytes) : bytes := REF ++ owner ++ id.
Definition cache_key (id : bytes) : bytes := CACHE ++ id.

Section registry.
Context `{LevelDB}.

(** ** Pins *)

Definition pin_rows (owner id : bytes) : list BatchEntry :=
  [batch_Write (T := bytes) (pin_key id owner) []; batch_Write (T := bytes) (ref_key owner id) []].
Definition Pin (d : db) (key : RetentionKey) (chunks : list ChunkId) : bool * db :=
  kv_WriteBatch d (mjoin ((fun chunk => pin_rows (KeyString key) (GetHex chunk)) <$> chunks)) true.

(** The visitor of [Release]: [k.substr(4 + 2 * HEX)]. *)
Definition id_visitor (chunks : list bytes) (k _value : bytes) : outcome unit * list bytes :=
  (Ret tt, chunks ++ [drop (Z.to_nat (4 + 2 * HEX)) k]).
Definition release_rows (owner : bytes) (now_ms : Z) (id : bytes) : list BatchEntry :=
  [batch_Erase (pin_key id owner); batch_Erase (ref_key owner id); batch_Write (T := Z) (cache_key id) now_ms].
Definition Release (d : db) (key : RetentionKey) (now_ms : Z) : bool * db :=
  let owner := KeyString key in
  let (r, chunks) := ForEachStringPrefix d (REF ++ owner) PIN_KEY id_visitor [] in
  match r with
  | Throw => (false, d)
  | Ret _ => kv_WriteBatch d (mjoin (release_rows owner now_ms <$> chunks)) true
  end.

Definition IsPinnedLocked (d : db) (chunk : ChunkId) : outcome bool :=
  let (r, pinned) := ForEachStringPrefix d (PIN ++ GetHex chunk) PIN_KEY (fun _ _ _ => (Ret tt, true)) false in
  try! _ := r ;; Ret pinned.
(** What cannot be read counts as pinned. *)
Definition IsPinned (d : db) (chunk : ChunkId) : bool :=
  match IsPinnedLocked d chunk with Ret pinned => pinned | Throw => true end.

Definition pinned_visitor (out : list ChunkId) (k _value : bytes) : outcome unit * list ChunkId :=
  (Ret tt, match ParseHex (drop (Z.to_nat (4 + 2 * HEX)) k) with Some id => out ++ [id] | None => out end).
Definition Pinned (d : db) (key : RetentionKey) : outcome (list ChunkId) :=
  let (r, out) := ForEachStringPrefix d (REF ++ KeyString key) PIN_KEY pinned_visitor [] in
  try! _ := r ;; Ret out.

Definition NoteCacheUse (d : db) (chunk : ChunkId) (now_ms : Z) : bool * db :=
  kv_Write (T := Z) d (cache_key (GetHex chunk)) now_ms false.

(** ** Collecting *)

Record CollectResult : Type := mkCollect {
  co_cache_bytes : Z;
  co_removed : Z;
  co_removed_bytes : Z;
}.
(** An evictable entry: when it was used, its id and its size. *)
Record Evictable : Type := mkEvictable {
  ev_used : Z;
  ev_id : ChunkId;
  ev_size : Z;
}.
(** [operator<] of the tuple. *)
Definition ev_lt (a b : Evictable) : bool :=
  if ev_used a <? ev_used b then true else if ev_used b <? ev_used a then false
  else if alt (ev_id a) (ev_id b) then true else if alt (ev_id b) (ev_id a) then false
  else ev_size a <? ev_size b.
Definition ev_le (a b : Evictable) : Prop := ev_lt b a = false.
#[global] Instance ev_le_dec a b : Decision (ev_le a b) := bool_eq_dec _ _.

Definition cache_visitor (entries : list (ChunkId * Z)) (k v : bytes) : outcome unit * list (ChunkId * Z) :=
  (Ret tt, match ParseHex (drop 4 k) with Some id => entries ++ [(id, le_val (take 8 v))] | None => entries end).

Section collect.
Context {W : Type} (StoredSize : W -> ChunkId -> option Z) (remove : W -> ChunkId -> outcome bool * W).

(** The entries that may go, their bytes, and the rows without a blob. *)
Fixpoint scan_entries (d : db) (w : W) (entries : list (ChunkId * Z)) (cache_bytes : Z) (evictable : list Evictable)
    (forget : list BatchEntry) : outcome (Z * list Evictable * list BatchEntry) * Z :=
  match entries with
  | [] => (Ret (cache_bytes, evictable, forget), cache_bytes)
  | (id, used) :: rest =>
      match StoredSize w id with
      | None => scan_entries d w rest cache_bytes evictable (forget ++ [batch_Erase (cache_key (GetHex id))])
      | Some size =>
          match IsPinnedLocked d id with
          | Throw => (Throw, cache_bytes)
          | Ret true => scan_entries d w rest cache_bytes evictable forget
          | Ret false => scan_entries d w rest (cache_bytes ⊕ size) (evictable ++ [mkEvictable used id size]) forget
          end
      end
  end.
(** The eviction: the result so far, and the rows to forget unless a removal threw. *)
Fixpoint evict (w : W) (cache_budget_bytes now_ms grace_ms max_removals : Z) (evictable : list Evictable)
    (result : CollectResult) (forget : list BatchEntry) : CollectResult * outcome (list BatchEntry) * W :=
  match evictable with
  | [] => (result, Ret forget, w)
  | e :: rest =>
      return_if (co_cache_bytes result <=? cache_budget_bytes) || (max_removals <=? co_removed result) with (result, Ret forget, w) ;;
      return_if now_ms <? ev_used e ⊕ grace_ms with (result, Ret forget, w) ;;
      match remove w (ev_id e) with
      | (Throw, w) => (result, Throw, w)
      | (Ret false, w) => evict w cache_budget_bytes now_ms grace_ms max_removals rest result forget
      | (Ret true, w) =>
          evict w cache_budget_bytes now_ms grace_ms max_removals rest
            (mkCollect (co_cache_bytes result ⊖ ev_size e) (co_removed result ⊕ 1) (co_removed_bytes result ⊕ ev_size e))
            (forget ++ [batch_Erase (cache_key (GetHex (ev_id e)))])
      end
  end.
Definition Collect (d : db) (w : W) (cache_budget_bytes now_ms grace_ms max_removals : Z) : CollectResult * db * W :=
  let (r, entries) := ForEachStringPrefixRaw d CACHE CACHE_KEY cache_visitor [] in
  match r with
  | Throw => (mkCollect 0 0 0, d, w)
  | Ret _ =>
      match scan_entries d w entries 0 [] [] with
      | (Throw, cache_bytes) => (mkCollect cache_bytes 0 0, d, w)
      | (Ret (cache_bytes, evictable, forget), _) =>
          match evict w cache_budget_bytes now_ms grace_ms max_removals (merge_sort ev_le evictable) (mkCollect cache_bytes 0 0) forget with
          | (result, Throw, w) => (result, d, w)
          | (result, Ret forget, w) => (result, (kv_WriteBatch d forget true).2, w)
          end
      end
  end.
End collect.
End registry.

(** * The retention registry is a set of pins and a cache

    Whatever the database does, the rows of the registry represent a set of
    pins, each the tie of a holder and reference to a chunk, and a map from
    cached chunks to the time of their last use; the operations are the
    operations of that set and that map, and collecting never touches a chunk
    that anything pins. *)

(** ** Hex *)

Lemma lower_nibble_digit v : 0 <= v <= 15 -> lower_nibble (hex_digit v) = v.
Proof.
  intros Hv. assert (Hall : forallb (fun i => lower_nibble (hex_digit (Z.of_nat i)) =? Z.of_nat i) (seq 0 16) = true) by reflexivity.
  rewrite forallb_forall in Hall. specialize (Hall (Z.to_nat v)). rewrite Z2Nat.id in Hall by lia.
  apply Z.eqb_eq, Hall, in_seq. lia.
Qed.
Lemma parse_pairs_hex l :
  parse_pairs (mjoin ((fun b => [hex_digit (Z.shiftr (zb b) 4); hex_digit (Z.land (zb b) 15)]) <$> l)) = Some l.
Proof.
  induction l as [|b l IH]; [done|]. rewrite fmap_cons, mjoin_cons. cbn [app parse_pairs].
  destruct (hex_nibbles b) as (Hhi & Hlo & E). rewrite !lower_nibble_digit, IH by done.
  rewrite (proj2 (Z.ltb_ge _ _)), (proj2 (Z.ltb_ge _ 0)) by lia. cbn [orb]. by rewrite E, bz_zb.
Qed.
Lemma ParseHex_GetHex c : ParseHex (GetHex c) = Some c.
Proof. unfold ParseHex. rewrite zlen_GetHex. cbn [negb Z.eqb]. unfold GetHex. rewrite parse_pairs_hex. f_equal. apply arr_of_arr. Qed.

(** ** The rows *)

Inductive row : Type :=
| PinRow (key : RetentionKey) (chunk : ChunkId)
| RefRow (key : RetentionKey) (chunk : ChunkId)
| CacheRow (chunk : ChunkId).
#[export] Instance row_eq_dec : EqDecision row.
Proof. solve_decision. Defined.
Definition row_bytes (x : row) : bytes :=
  match x with
  | PinRow key chunk => pin_key (GetHex chunk) (KeyString key)
  | RefRow key chunk => ref_key (KeyString key) (GetHex chunk)
  | CacheRow chunk => cache_key (GetHex chunk)
  end.

Lemma zlen_KeyString key : zlen (KeyString key) = 2 * HEX.
Proof. unfold KeyString. rewrite zlen_app, !zlen_GetHex. reflexivity. Qed.
#[export] Instance KeyString_inj : Inj (=) (=) KeyString.
Proof.
  intros [h1 r1] [h2 r2] E. apply app_inj_1 in E as [E1%(inj GetHex) E2%(inj GetHex)]; [cbn in *; by subst|].
  by rewrite !length_GetHex.
Qed.
#[export] Instance row_bytes_inj : Inj (=) (=) row_bytes.
Proof.
  assert (Hlen : forall k k', length (KeyString k) = length (KeyString k')).
  { intros k k'. pose proof (zlen_KeyString k). pose proof (zlen_KeyString k'). unfold zlen in *. lia. }
  intros [k c|k c|c] [k' c'|k' c'|c'] E; try discriminate E; apply (inj (app _)) in E.
  - apply app_inj_1 in E as [E1%(inj GetHex) E2%(inj KeyString)]; [by subst|by rewrite !length_GetHex].
  - apply app_inj_1 in E as [E1%(inj KeyString) E2%(inj GetHex)]; [by subst|done].
  - apply (inj GetHex) in E. by subst.
Qed.
Lemma zlen_row x : zlen (row_bytes x) = match x with CacheRow _ => CACHE_KEY | _ => PIN_KEY end.
Proof.
  destruct x as [k c|k c|c]; cbn [row_bytes]; unfold pin_key, ref_key, cache_key;
    rewrite ?zlen_app, ?zlen_KeyString, ?zlen_GetHex; reflexivity.
Qed.
Lemma zlen_row_small x : zlen (row_bytes x) <= MAX_COMPACT_SIZE.
Proof. rewrite zlen_row. by destruct x. Qed.

(** The rows under a prefix. *)
Lemma pin_prefix x chunk : has_prefix (AppendCompactSize PIN_KEY ++ PIN ++ GetHex chunk) (EncodeBytes (row_bytes x)) = true <->
  exists key, x = PinRow key chunk.
Proof.
  rewrite has_prefix_split. unfold EncodeBytes. rewrite zlen_row. split.
  - intros [rest E]. destruct x as [k c|k c|c]; try discriminate E. rewrite <- !app_assoc in E. do 2 apply (inj (app _)) in E.
    apply app_inj_1 in E as [->%(inj GetHex) _]; [by exists k|by rewrite !length_GetHex].
  - intros [key ->]. exists (KeyString key). cbn [row_bytes]. unfold pin_key. by rewrite <- !app_assoc.
Qed.
Lemma ref_prefix x key : has_prefix (AppendCompactSize PIN_KEY ++ REF ++ KeyString key) (EncodeBytes (row_bytes x)) = true <->
  exists chunk, x = RefRow key chunk.
Proof.
  rewrite has_prefix_split. unfold EncodeBytes. rewrite zlen_row. split.
  - intros [rest E]. destruct x as [k c|k c|c]; try discriminate E. rewrite <- !app_assoc in E. do 2 apply (inj (app _)) in E.
    apply app_inj_1 in E as [->%(inj KeyString) _]; [by exists c|].
    pose proof (zlen_KeyString k). pose proof (zlen_KeyString key). unfold zlen in *. lia.
  - intros [chunk ->]. exists (GetHex chunk). cbn [row_bytes]. unfold ref_key. by rewrite <- !app_assoc.
Qed.
Lemma cache_prefix x : has_prefix (AppendCompactSize CACHE_KEY ++ CACHE) (EncodeBytes (row_bytes x)) = true <->
  exists chunk, x = CacheRow chunk.
Proof.
  rewrite has_prefix_split. unfold EncodeBytes. rewrite zlen_row. split.
  - intros [rest E]. destruct x as [k c|k c|c]; try discriminate E. by exists c.
  - intros [chunk ->]. exists (GetHex chunk). cbn [row_bytes]. unfold cache_key. by rewrite <- !app_assoc.
Qed.

(** ** The specification *)

(** The registry as it is meant: who pins what, and when a chunk was last used. *)
Record Registry : Type := mkRegistry {
  pinned_by : RetentionKey -> ChunkId -> bool;
  cached : ChunkId -> option Z;
}.
Definition spec_pin (key : RetentionKey) (chunks : list ChunkId) (R : Registry) : Registry := {|
  pinned_by k c := pinned_by R k c || (bool_decide (k = key) && bool_decide (c ∈ chunks));
  cached := cached R |}.
Definition spec_release (key : RetentionKey) (now_ms : Z) (R : Registry) : Registry := {|
  pinned_by k c := pinned_by R k c && negb (bool_decide (k = key));
  cached c := if pinned_by R key c then Some now_ms else cached R c |}.
Definition spec_touch (chunk : ChunkId) (now_ms : Z) (R : Registry) : Registry := {|
  pinned_by := pinned_by R;
  cached c := if bool_decide (c = chunk) then Some now_ms else cached R c |}.
Definition spec_forget (chunks : list ChunkId) (R : Registry) : Registry := {|
  pinned_by := pinned_by R;
  cached c := if bool_decide (c ∈ chunks) then None else cached R c |}.

(** What a row holds. *)
Definition row_value (R : Registry) (x : row) : option bytes :=
  match x with
  | PinRow key chunk | RefRow key chunk => if pinned_by R key chunk then Some (EncodeBytes []) else None
  | CacheRow chunk => le_bytes 8 <$> cached R chunk
  end.
(** The rows of the database are those of [R], and there are no others. *)
Definition retains (m : gmap bytes bytes) (R : Registry) : Prop :=
  (forall x, m !! EncodeBytes (row_bytes x) = row_value R x) /\
  (forall raw, is_Some (m !! raw) -> exists x, raw = EncodeBytes (row_bytes x)) /\
  (forall c t, cached R c = Some t -> is_u64 t).

(** ** Writing rows *)

#[local] Abbreviation holds := (holds row_bytes).
#[local] Abbreviation row_entry := (row_entry row_bytes).
#[local] Abbreviation holds_batch := (holds_batch row_bytes).
#[local] Abbreviation holds_ext := (holds_ext row_bytes).
#[local] Abbreviation holds_entry := (holds_entry row_bytes).

Lemma retains_holds m R : retains m R <-> holds m (row_value R) /\ forall c t, cached R c = Some t -> is_u64 t.
Proof. unfold retains, holds. tauto. Qed.

(** The rows of a pin and of a release. *)
Definition pin_entries (key : RetentionKey) (chunk : ChunkId) : list (row * option bytes) :=
  [(PinRow key chunk, Some (EncodeBytes [])); (RefRow key chunk, Some (EncodeBytes []))].
Definition release_entries (key : RetentionKey) (now_ms : Z) (chunk : ChunkId) : list (row * option bytes) :=
  [(PinRow key chunk, None); (RefRow key chunk, None); (CacheRow chunk, Some (le_bytes 8 now_ms))].

Lemma pin_one_here (key : RetentionKey) (c : ChunkId) : bool_decide (key = key) && bool_decide (c ∈ [c]) = true.
Proof. rewrite !bool_decide_true; [done|apply list_elem_of_here|done]. Qed.
Lemma pin_one_other (k key : RetentionKey) (c' c : ChunkId) : ~ (k = key /\ c' = c) ->
  bool_decide (k = key) && bool_decide (c' ∈ [c]) = false.
Proof.
  intros Hne. apply andb_false_iff. rewrite !bool_decide_eq_false, list_elem_of_singleton.
  destruct (decide (k = key)) as [->|]; [right; intros ->; by apply Hne|by left].
Qed.
(** Pinning or releasing chunk by chunk. *)
Lemma pin_all_rows key chunks : forall R x,
  foldl set_row (row_value R) (mjoin (pin_entries key <$> chunks)) x = row_value (spec_pin key chunks R) x.
Proof.
  induction chunks as [|c chunks IH]; intros R x.
  - destruct x as [k c|k c|c]; cbn; rewrite ?andb_false_r, ?orb_false_r; done.
  - rewrite fmap_cons, mjoin_cons, foldl_app, (set_rows_ext _ _ (row_value (spec_pin key [c] R))).
    + rewrite IH. destruct x as [k c'|k c'|c']; cbn [row_value spec_pin pinned_by cached]; [..|done];
        rewrite <- orb_assoc, <- andb_orb_distrib_r, <- bool_decide_or, (bool_decide_ext (c' ∈ [c] \/ c' ∈ chunks) (c' ∈ c :: chunks)); try done;
        by rewrite list_elem_of_singleton, elem_of_cons.
    + clear. intros x. cbn [foldl pin_entries]. unfold set_row. cbn [fst snd].
      destruct x as [k c'|k c'|c']; cbn [row_value spec_pin pinned_by cached]; [..|done].
      * rewrite (bool_decide_false (PinRow k c' = RefRow key c)) by done.
        case_bool_decide as E; [injection E as -> ->; by rewrite pin_one_here, orb_true_r|].
        rewrite pin_one_other, orb_false_r by (by intros [-> ->]). done.
      * rewrite (bool_decide_false (RefRow k c' = PinRow key c)) by done.
        case_bool_decide as E; [injection E as -> ->; by rewrite pin_one_here, orb_true_r|].
        rewrite pin_one_other, orb_false_r by (by intros [-> ->]). done.
Qed.
Lemma release_all_rows key now_ms chunks : forall f x, foldl set_row f (mjoin (release_entries key now_ms <$> chunks)) x =
  match x with
  | PinRow k c | RefRow k c => if bool_decide (k = key) && bool_decide (c ∈ chunks) then None else f x
  | CacheRow c => if bool_decide (c ∈ chunks) then Some (le_bytes 8 now_ms) else f x
  end.
Proof.
  induction chunks as [|c chunks IH]; intros f x.
  - destruct x as [k c|k c|c]; cbn; by rewrite ?andb_false_r.
  - rewrite fmap_cons, mjoin_cons, foldl_app, IH. cbn [foldl release_entries]. unfold set_row. cbn [fst snd].
    destruct x as [k c'|k c'|c']; rewrite (bool_decide_ext (c' ∈ c :: chunks) _ (elem_of_cons chunks c' c)), bool_decide_or.
    + rewrite (bool_decide_false (_ = CacheRow c)), (bool_decide_false (_ = RefRow key c)) by done.
      rewrite (bool_decide_ext (PinRow k c' = PinRow key c) (k = key /\ c' = c)), bool_decide_and by (split; [by intros [= -> ->]|by intros [-> ->]]).
      by destruct (bool_decide (k = key)), (bool_decide (c' = c)), (bool_decide (c' ∈ chunks)).
    + rewrite (bool_decide_false (_ = CacheRow c)), (bool_decide_false (_ = PinRow key c)) by done.
      rewrite (bool_decide_ext (RefRow k c' = RefRow key c) (k = key /\ c' = c)), bool_decide_and by (split; [by intros [= -> ->]|by intros [-> ->]]).
      by destruct (bool_decide (k = key)), (bool_decide (c' = c)), (bool_decide (c' ∈ chunks)).
    + rewrite (bool_decide_false (_ = RefRow key c)), (bool_decide_false (_ = PinRow key c)) by done.
      rewrite (bool_decide_ext (CacheRow c' = CacheRow c) (c' = c)) by (split; [by intros [= ->]|by intros ->]).
      by destruct (bool_decide (c' = c)), (bool_decide (c' ∈ chunks)).
Qed.

(** ** The operations *)

Lemma drop_ref key c : drop (Z.to_nat (4 + 2 * HEX)) (row_bytes (RefRow key c)) = GetHex c.
Proof.
  cbn [row_bytes]. unfold ref_key. rewrite app_assoc. apply drop_app_length'. rewrite length_app.
  pose proof (zlen_KeyString key) as E. unfold zlen, HEX in *. cbn [length]. change (length REF) with 4%nat. lia.
Qed.
Section operations.
Context {L : LevelDB} {Laws : LevelDBLaws L}.
#[local] Set Default Proof Using "Type + Laws".

(** A synchronous batch of rows is written or is not. *)
Lemma write_rows (d : db) R R' entries ok d' : retains (contents d) R ->
  (forall x, foldl set_row (row_value R) entries x = row_value R' x) -> (forall c t, cached R' c = Some t -> is_u64 t) ->
  kv_WriteBatch d (row_entry <$> entries) true = (ok, d') -> retains (contents d') (if ok then R' else R).
Proof.
  intros HR E Hu Ew. unfold kv_WriteBatch in Ew. destruct ok; [|by rewrite (write_failed _ _ _ _ Ew)].
  rewrite (write_ok _ _ _ _ Ew). apply retains_holds. split; [|done]. apply retains_holds in HR as [Hh _].
  eapply holds_ext; [exact E|]. by apply holds_batch.
Qed.

Lemma Pin_retains d R key chunks ok d' : retains (contents d) R -> Pin d key chunks = (ok, d') ->
  retains (contents d') (if ok then spec_pin key chunks R else R).
Proof.
  intros HR E. unfold Pin in E. eapply write_rows; [done|apply (pin_all_rows key chunks)|apply HR|].
  rewrite fmap_mjoin. exact E.
Qed.
Lemma ref_scan d R key B (visitor : list B -> bytes -> bytes -> outcome unit * list B) g out :
  (forall s k v, visitor s k v = (Ret tt, s ++ g k v)) -> retains (contents d) R ->
  ForEachStringPrefix d (REF ++ KeyString key) PIN_KEY visitor [] = (Ret tt, out) ->
  exists chunks, NoDup chunks /\ (forall c, c ∈ chunks <-> pinned_by R key c = true) /\
    out = mjoin ((fun c => g (row_bytes (RefRow key c)) []) <$> chunks).
Proof.
  intros Hg HR E. apply retains_holds in HR as [Hh _]. apply for_each_prefix_visits in E.
  assert (Hinj : Inj (=) (=) (RefRow key)) by (by intros ? ? [= ->]).
  destruct (prefix_rows_holds row_bytes (RefRow key) _ (fun x => ref_prefix x key) _ _ Hh) as (l & El & Hnd & Hl).
  rewrite El in E. apply (visits_append row_bytes zlen_row_small (RefRow key) _ visitor g Hg) in E. cbn [app] in E. exists l.*1. split_and!; [done|..].
  - intros c. rewrite list_elem_of_fmap. split.
    + intros ([c' v] & -> & Hin%Hl). cbn [row_value fst] in *. by destruct (pinned_by R key c').
    + intros Hp. exists (c, EncodeBytes []). split; [done|]. apply Hl. cbn [row_value]. by rewrite Hp.
  - rewrite E, <- list_fmap_compose. f_equal. apply list_fmap_ext. intros i [c v] Hi%list_elem_of_lookup_2. cbn [compose fst snd].
    apply Hl in Hi. cbn [row_value] in Hi. destruct (pinned_by R key c); [|done]. injection Hi as <-. done.
Qed.
Lemma Release_retains d R key now_ms ok d' : retains (contents d) R -> is_u64 now_ms -> Release d key now_ms = (ok, d') ->
  retains (contents d') (if ok then spec_release key now_ms R else R).
Proof.
  intros HR Hn E. unfold Release in E. destruct (ForEachStringPrefix _ _ _ _ _) as [[[]|] out] eqn:Ef; [|by injection E as <- <-].
  apply (ref_scan d R key _ _ (fun k _ => [drop (Z.to_nat (4 + 2 * HEX)) k])) in Ef as (chunks & _ & Hin & ->); [|done|done].
  rewrite mjoin_single in E. eapply (write_rows d R _ (mjoin (release_entries key now_ms <$> chunks))); [done|..].
  - intros x. rewrite release_all_rows. destruct x as [k c|k c|c]; cbn [row_value spec_release pinned_by cached].
    1, 2: rewrite (bool_decide_ext _ _ (Hin c)); destruct (decide (k = key)) as [->|Hne];
      [rewrite bool_decide_true by done; by destruct (pinned_by R key c)|rewrite bool_decide_false by done; by destruct (pinned_by R k c)].
    rewrite (bool_decide_ext _ _ (Hin c)). by destruct (pinned_by R key c).
  - intros c t. cbn [spec_release cached]. destruct (pinned_by R key c); [by intros [= <-]|apply HR].
  - rewrite fmap_mjoin. rewrite <- E. f_equal. f_equal. rewrite <- list_fmap_compose. apply list_fmap_ext. intros i c _.
    cbn [compose]. by rewrite drop_ref.
Qed.
Lemma Pinned_retains d R key out : retains (contents d) R -> Pinned d key = Ret out ->
  NoDup out /\ forall c, c ∈ out <-> pinned_by R key c = true.
Proof.
  intros HR E. unfold Pinned in E. destruct (ForEachStringPrefix _ _ _ _ _) as [[[]|] out'] eqn:Ef; [|done]. injection E as ->.
  apply (ref_scan d R key _ _ (fun k _ => match ParseHex (drop (Z.to_nat (4 + 2 * HEX)) k) with Some id => [id] | None => [] end))
    in Ef as (chunks & Hnd & Hin & ->); [|intros s k v; unfold pinned_visitor; destruct (ParseHex _); by rewrite ?app_nil_r|done].
  assert (E : (fun c => match ParseHex (drop (Z.to_nat (4 + 2 * HEX)) (row_bytes (RefRow key c))) with Some id => [id] | None => [] end)
    <$> chunks = (fun c => [c]) <$> chunks) by (apply list_fmap_ext; intros i c _; by rewrite drop_ref, ParseHex_GetHex).
  rewrite E, (mjoin_single id), list_fmap_id. done.
Qed.
Lemma NoteCacheUse_retains d R chunk now_ms ok d' : retains (contents d) R -> is_u64 now_ms ->
  NoteCacheUse d chunk now_ms = (ok, d') -> retains (contents d') (if ok then spec_touch chunk now_ms R else R).
Proof.
  intros HR Hn E. unfold NoteCacheUse, kv_Write, kv_WriteBatch in E. destruct ok; [|by rewrite (write_failed _ _ _ _ E)].
  rewrite (write_ok _ _ _ _ E). apply retains_holds. apply retains_holds in HR as [Hh Hu]. split.
  - apply (holds_ext _ (set_row (row_value R) (CacheRow chunk, Some (le_bytes 8 now_ms)))).
    + intros [k c|k c|c]; unfold set_row; cbn [fst snd row_value spec_touch pinned_by cached]; [done..|].
      rewrite (bool_decide_ext (CacheRow c = CacheRow chunk) (c = chunk)) by (split; [by intros [= ->]|by intros ->]). by case_bool_decide.
    + apply (holds_entry _ _ (CacheRow chunk, Some (le_bytes 8 now_ms))). done.
  - intros c t. cbn [spec_touch cached]. case_bool_decide; [by intros [= <-]|apply Hu].
Qed.

Lemma IsPinnedLocked_retains d R chunk b : retains (contents d) R -> IsPinnedLocked d chunk = Ret b ->
  b = true <-> exists key, pinned_by R key chunk = true.
Proof.
  intros HR E. apply retains_holds in HR as [Hh _]. unfold IsPinnedLocked in E.
  destruct (ForEachStringPrefix _ _ _ _ _) as [[[]|] b'] eqn:Ef; [|done]. injection E as ->. apply for_each_prefix_visits in Ef.
  assert (Hinj : Inj (=) (=) (fun key => PinRow key chunk)) by (by intros ? ? [= ->]).
  destruct (prefix_rows_holds row_bytes (fun key => PinRow key chunk) _ (fun x => pin_prefix x chunk) _ _ Hh) as (l & El & _ & Hl).
  rewrite El in Ef. destruct l as [|[key v] l].
  - inversion Ef; subst. split; [done|]. intros [key Hp]. assert (Hin : (key, EncodeBytes []) ∈ (@nil (RetentionKey * bytes))).
    { apply Hl. cbn [row_value]. by rewrite Hp. } by apply elem_of_nil in Hin.
  - split.
    + intros _. exists key. assert (Hin : (key, v) ∈ (key, v) :: l) by left. apply Hl in Hin. cbn [row_value] in Hin.
      by destruct (pinned_by R key chunk).
    + intros _. assert (Htrue : forall rows s s', visits DecodeBytes (fun (_ : bool) (_ _ : bytes) => (Ret tt, true)) rows s s' -> rows = [] \/ s' = true).
      { clear. induction 1 as [|? ? ? ? ? ? ? ? _ _ [= <-] V IH]; [by left|right]. destruct IH as [->|]; [by inversion V|done]. }
      apply Htrue in Ef as [Ef|]; [by rewrite fmap_cons in Ef|done].
Qed.

(** C26: the registry is the set of pins and the cache it is meant to be.
    Whatever the database does, an operation that reports success has the
    effect of its specification, one that reports failure has none, and the
    queries answer from the set: a chunk is reported unpinned only when no
    holder pins it. *)
Theorem registry_refines d R : retains (contents d) R ->
  (forall key chunks ok d', Pin d key chunks = (ok, d') -> retains (contents d') (if ok then spec_pin key chunks R else R)) /\
  (forall key now_ms ok d', is_u64 now_ms -> Release d key now_ms = (ok, d') ->
     retains (contents d') (if ok then spec_release key now_ms R else R)) /\
  (forall chunk now_ms ok d', is_u64 now_ms -> NoteCacheUse d chunk now_ms = (ok, d') ->
     retains (contents d') (if ok then spec_touch chunk now_ms R else R)) /\
  (forall chunk, IsPinned d chunk = false -> forall key, pinned_by R key chunk = false) /\
  (forall chunk b, IsPinnedLocked d chunk = Ret b -> b = true <-> exists key, pinned_by R key chunk = true) /\
  (forall key out, Pinned d key = Ret out -> NoDup out /\ forall c, c ∈ out <-> pinned_by R key c = true).
Proof.
  intros HR. split_and!.
  - intros. by eapply Pin_retains.
  - intros. by eapply Release_retains.
  - intros. by eapply NoteCacheUse_retains.
  - intros chunk E key. unfold IsPinned in E. destruct (IsPinnedLocked d chunk) as [b|] eqn:Eb; [|done]. subst b.
    apply (IsPinnedLocked_retains d R) in Eb; [|done]. apply not_true_is_false. intros Hp. assert (false = true) by (apply Eb; eauto). done.
  - intros. by eapply IsPinnedLocked_retains.
  - intros. by eapply Pinned_retains.
Qed.

(** ** Collecting *)

Section collect.
Context {W : Type} (StoredSize : W -> ChunkId -> option Z) (remove : W -> ChunkId -> outcome bool * W).

(** What makes an entry evictable. *)
Definition may_evict (d : db) (w : W) (entries : list (ChunkId * Z)) (e : Evictable) : Prop :=
  (ev_id e, ev_used e) ∈ entries /\ StoredSize w (ev_id e) = Some (ev_size e) /\ IsPinnedLocked d (ev_id e) = Ret false.
Definition erasing (chunks : list ChunkId) : list BatchEntry := (fun c => batch_Erase (cache_key (GetHex c))) <$> chunks.

Lemma scan_entries_inv d w entries : forall bytes_ ev forget r b, scan_entries StoredSize d w entries bytes_ ev (erasing forget) = (Ret r, b) ->
  exists more gone, r.1.2 = ev ++ more /\ r.2 = erasing (forget ++ gone) /\
    Forall (may_evict d w entries) more /\ (ev_id <$> more) `sublist_of` entries.*1 /\ Forall (fun c => StoredSize w c = None) gone.
Proof using.
  induction entries as [|[c used] entries IH]; intros bytes_ ev forget r b E; cbn [scan_entries] in E.
  { injection E as <- _. exists [], []. cbn. rewrite !app_nil_r. split_and!; try done; constructor. }
  assert (Hweak : forall more, Forall (may_evict d w entries) more -> Forall (may_evict d w ((c, used) :: entries)) more).
  { intros more Hm. eapply Forall_impl; [exact Hm|]. intros e (Hin & Hrest). split; [by right|done]. }
  destruct (StoredSize w c) as [size|] eqn:Es.
  - destruct (IsPinnedLocked d c) as [[]|] eqn:Ep; [| |done].
    + apply IH in E as (more & gone & H1 & H2 & H3 & H4 & H5). exists more, gone. split_and!; auto. cbn. by apply sublist_cons.
    + apply IH in E as (more & gone & H1 & H2 & H3 & H4 & H5). exists (mkEvictable used c size :: more), gone. split_and!; auto.
      * by rewrite H1, <- app_assoc.
      * constructor; [|by apply Hweak]. split_and!; [left|done|done].
      * cbn. by apply sublist_skip.
  - replace (erasing forget ++ [batch_Erase (cache_key (GetHex c))]) with (erasing (forget ++ [c])) in E
      by (unfold erasing; by rewrite fmap_app).
    apply IH in E as (more & gone & H1 & H2 & H3 & H4 & H5). exists more, (c :: gone). split_and!; auto.
    + by rewrite H2, <- app_assoc.
    + cbn. by apply sublist_cons.
Qed.

Definition after_removals (w : W) (calls : list ChunkId) : W := foldl (fun w c => (remove w c).2) w calls.
Lemma evict_inv budget now_ms grace_ms max_removals evictable : forall w result forget res r w', max_removals <= MAX64 ->
  evict remove w budget now_ms grace_ms max_removals evictable result (erasing forget) = (res, r, w') ->
  co_removed result <= Z.max 0 max_removals -> 0 <= co_removed result ->
  exists n gone, let called := take n evictable in
    w' = after_removals w (ev_id <$> called) /\ Forall (fun e => ev_used e ⊕ grace_ms <= now_ms) called /\
    gone ⊆ ev_id <$> called /\ (forall l, r = Ret l -> l = erasing (forget ++ gone)) /\ co_removed res <= Z.max 0 max_removals.
Proof using.
  induction evictable as [|e evictable IH]; intros w result forget res r w' Hmax E Hle H0; cbn [evict] in E.
  { injection E as <- <- <-. exists 0%nat, []. cbn. split_and!; [done|constructor|done| |done]. intros l [= <-]. by rewrite app_nil_r. }
  assert (Hstop : forall w1 r1, (result, r1, w1) = (res, r, w') -> w1 = w -> (forall l, r1 = Ret l -> l = erasing forget) ->
    exists n gone, let called := take n (e :: evictable) in
    w' = after_removals w (ev_id <$> called) /\ Forall (fun e => ev_used e ⊕ grace_ms <= now_ms) called /\
    gone ⊆ ev_id <$> called /\ (forall l, r = Ret l -> l = erasing (forget ++ gone)) /\ co_removed res <= Z.max 0 max_removals).
  { intros w1 r1 [= <- <- <-] -> Hl. exists 0%nat, []. cbn. split_and!; [done|constructor|done| |done]. rewrite app_nil_r. done. }
  destruct (_ || _) eqn:Ego in E; [eapply Hstop; [exact E|done|by intros l [= <-]]|].
  apply orb_false_iff in Ego as [_ Hroom%Z.leb_gt].
  destruct (Z.ltb_spec now_ms (ev_used e ⊕ grace_ms)) as [|Hold]; [eapply Hstop; [exact E|done|by intros l [= <-]]|]. clear Hstop.
  destruct (remove w (ev_id e)) as [[[]|] w1] eqn:Er.
  - replace (erasing forget ++ [batch_Erase (cache_key (GetHex (ev_id e)))]) with (erasing (forget ++ [ev_id e])) in E
      by (unfold erasing; by rewrite fmap_app).
    assert (Hadd : co_removed result ⊕ 1 = co_removed result + 1) by (apply add64_small; ulia).
    apply IH in E as (n & gone & H1 & H2 & H3 & H4 & H5); [|done|cbn [co_removed]; rewrite Hadd; lia..].
    exists (S n), (ev_id e :: gone). cbn [take fmap list_fmap]. split_and!; [|by constructor| |by intros l ->%H4; rewrite <- app_assoc|done].
    + unfold after_removals. cbn [foldl]. rewrite Er. exact H1.
    + intros x [->|Hx]%elem_of_cons; [left|right; by apply H3].
  - apply IH in E as (n & gone & H1 & H2 & H3 & H4 & H5); [|done..].
    exists (S n), gone. cbn [take fmap list_fmap]. split_and!; [|by constructor| |done|done].
    + unfold after_removals. cbn [foldl]. rewrite Er. exact H1.
    + intros x Hx. right. by apply H3.
  - injection E as <- <- <-. exists 1%nat, []. cbn [take fmap list_fmap]. split_and!; [|by apply Forall_singleton|apply list_subseteq_nil|done|done].
    unfold after_removals. cbn [foldl]. by rewrite Er.
Qed.

Lemma forget_rows chunks : forall f x, foldl set_row f ((fun c => (CacheRow c, None)) <$> chunks) x =
  match x with CacheRow c => if bool_decide (c ∈ chunks) then None else f x | _ => f x end.
Proof using.
  induction chunks as [|c chunks IH]; intros f x; [by destruct x|]. rewrite fmap_cons. cbn [foldl]. rewrite IH. unfold set_row. cbn [fst snd].
  destruct x as [k c'|k c'|c']; [by rewrite bool_decide_false..|].
  rewrite (bool_decide_ext (c' ∈ c :: chunks) _ (elem_of_cons chunks c' c)), bool_decide_or.
  rewrite (bool_decide_ext (CacheRow c' = CacheRow c) (c' = c)) by (split; [by intros [= ->]|by intros ->]).
  by destruct (bool_decide (c' = c)), (bool_decide (c' ∈ chunks)).
Qed.
Lemma forget_retains d R chunks ok d' : retains (contents d) R -> kv_WriteBatch d (erasing chunks) true = (ok, d') ->
  retains (contents d') (spec_forget (if ok then chunks else []) R).
Proof.
  intros HR E. assert (Hu : forall l c t, cached (spec_forget l R) c = Some t -> is_u64 t).
  { intros l c t. cbn [spec_forget cached]. case_bool_decide; [done|apply HR]. }
  assert (Hrows : forall l x, foldl set_row (row_value R) ((fun c => (CacheRow c, None)) <$> l) x = row_value (spec_forget l R) x).
  { intros l x. rewrite forget_rows. destruct x; cbn [row_value spec_forget pinned_by cached]; [done..|]. by case_bool_decide. }
  destruct ok.
  - apply (write_rows d R (spec_forget chunks R) ((fun c => (CacheRow c, None)) <$> chunks) true d' HR (Hrows chunks) (Hu chunks)).
    rewrite <- list_fmap_compose. exact E.
  - unfold kv_WriteBatch in E. rewrite (write_failed _ _ _ _ E). apply retains_holds. split; [|apply Hu].
    apply retains_holds in HR as [Hh _]. eapply holds_ext; [|exact Hh]. intros x. symmetry. apply (Hrows [] x).
Qed.
Lemma cache_scan d R out : retains (contents d) R -> ForEachStringPrefixRaw d CACHE CACHE_KEY cache_visitor [] = (Ret tt, out) ->
  NoDup out.*1 /\ forall c used, (c, used) ∈ out -> cached R c = Some used.
Proof.
  intros HR E. apply retains_holds in HR as [Hh Hu]. apply for_each_prefix_visits in E.
  assert (Hinj : Inj (=) (=) CacheRow) by (by intros ? ? [= ->]).
  destruct (prefix_rows_holds row_bytes CacheRow _ cache_prefix _ _ Hh) as (l & El & Hnd & Hl). rewrite El in E.
  apply (visits_append row_bytes zlen_row_small CacheRow _ cache_visitor (fun k v => match ParseHex (drop 4 k) with Some id => [(id, le_val (take 8 v))] | None => [] end))
    in E; [|intros s k v; unfold cache_visitor; destruct (ParseHex _); by rewrite ?app_nil_r].
  assert (Hout : out = (fun av => (av.1, le_val (take 8 av.2))) <$> l).
  { rewrite E. cbn [app]. rewrite <- (mjoin_single (fun av => (av.1, le_val (take 8 av.2)))). f_equal. apply list_fmap_ext. intros i [c v] _.
    cbn [fst snd default]. change (drop 4 (row_bytes (CacheRow c))) with (GetHex c). by rewrite ParseHex_GetHex. }
  clear E. subst out. split; [by rewrite <- list_fmap_compose|].
  intros c used ([c' v] & [= -> ->] & Hin%Hl)%list_elem_of_fmap. cbn [row_value fst snd] in *.
  destruct (cached R c') as [t|] eqn:Et; [|done]. injection Hin as <-. f_equal.
  rewrite take_ge by (by rewrite length_le_bytes). symmetry. apply le_val_u64. by eapply Hu.
Qed.

#[local] Instance ev_le_total : Total ev_le.
Proof using.
  intros a b. unfold ev_le. destruct (ev_lt b a) eqn:E; [right|by left]. unfold ev_lt in *.
  destruct (Z.ltb_spec (ev_used b) (ev_used a)), (Z.ltb_spec (ev_used a) (ev_used b)); try lia; try done.
  unfold alt in *. destruct (blt (arr_val (ev_id b)) (arr_val (ev_id a))) eqn:E1; [by rewrite (blt_asym _ _ E1)|].
  destruct (blt (arr_val (ev_id a)) (arr_val (ev_id b))); [done|]. lia.
Qed.
Lemma ev_le_used a b : ev_le a b -> ev_used a <= ev_used b.
Proof using. unfold ev_le, ev_lt. destruct (Z.ltb_spec (ev_used b) (ev_used a)); [done|lia]. Qed.
Lemma sorted_used l : StronglySorted (fun a b => ev_used a <= ev_used b) (merge_sort ev_le l).
Proof using.
  apply Sorted_StronglySorted; [intros a b c; lia|]. pose proof (Sorted_merge_sort ev_le l) as Hs.
  induction Hs as [|e l' Hs IH Hhd]; constructor; [done|]. destruct Hhd; constructor. by apply ev_le_used.
Qed.

(** What a collection did: the chunks handed to [remove], in order, and the
    cache rows it dropped. *)
Record collected (d : db) (w : W) (R : Registry) (now_ms grace_ms max_removals : Z) (res : CollectResult) (d' : db) (w' : W)
    (calls gone : list ChunkId) : Prop := {
  cl_world : w' = after_removals w calls;
  cl_once : NoDup calls;
  cl_evictable : Forall (fun c => (forall key, pinned_by R key c = false) /\ is_Some (StoredSize w c) /\
    exists used, cached R c = Some used /\ used ⊕ grace_ms <= now_ms) calls;
  cl_oldest_first : StronglySorted (fun a b => default 0 (cached R a) <= default 0 (cached R b)) calls;
  cl_count : co_removed res <= max_removals;
  cl_registry : retains (contents d') (spec_forget gone R);
  cl_gone : Forall (fun c => c ∈ calls \/ StoredSize w c = None) gone;
}.
Lemma collected_nothing d w R now_ms grace_ms max_removals cb : retains (contents d) R -> 0 <= max_removals ->
  collected d w R now_ms grace_ms max_removals (mkCollect cb 0 0) d w [] [].
Proof.
  intros HR Hmax. constructor; [done|constructor|constructor|constructor|exact Hmax| |constructor].
  apply retains_holds. apply retains_holds in HR as [Hh Hu]. split; [|exact Hu]. eapply holds_ext; [|exact Hh]. by intros [].
Qed.
(** What the eviction list makes of its prefix. *)
Lemma evicted_calls d w R out more n now_ms grace_ms : retains (contents d) R -> (forall c used, (c, used) ∈ out -> cached R c = Some used) ->
  Forall (may_evict d w out) more -> Forall (fun e => ev_used e ⊕ grace_ms <= now_ms) (take n (merge_sort ev_le more)) ->
  let calls := ev_id <$> take n (merge_sort ev_le more) in
  Forall (fun c => (forall key, pinned_by R key c = false) /\ is_Some (StoredSize w c) /\
    exists used, cached R c = Some used /\ used ⊕ grace_ms <= now_ms) calls /\
  StronglySorted (fun a b => default 0 (cached R a) <= default 0 (cached R b)) calls.
Proof.
  intros HR Hout Hev Hold. pose proof (sorted_used more) as Hs. set (sorted := merge_sort ev_le more) in *. cbv zeta.
  assert (Hin : forall e, e ∈ take n sorted -> may_evict d w out e).
  { intros e He. eapply (proj1 (Forall_forall _ _)); [exact Hev|]. rewrite <- (merge_sort_Permutation ev_le more). apply elem_of_take in He as (i & Hi & _). by eapply list_elem_of_lookup_2. }
  assert (Hcached : forall e, e ∈ take n sorted -> cached R (ev_id e) = Some (ev_used e)) by (intros e He; apply Hout, Hin, He).
  split.
  - apply Forall_fmap, Forall_forall. intros e He. cbn [compose]. destruct (Hin e He) as (_ & Hsize & Hpin). split_and!; [|by eexists|].
    + intros key. apply not_true_is_false. intros Hp. assert (false = true) by (apply (IsPinnedLocked_retains d R (ev_id e)); eauto). done.
    + exists (ev_used e). split; [by apply Hcached|]. by apply (proj1 (Forall_forall _ _) Hold).
  - rewrite <- (take_drop n sorted) in Hs. apply StronglySorted_app in Hs as (_ & Hs & _). clear Hold Hin.
    induction Hs as [|e l Hs IH Hle]; cbn [fmap list_fmap]; constructor.
    + apply IH. intros; apply Hcached; by right.
    + apply Forall_fmap, Forall_forall. intros e' He'. cbn [compose]. rewrite !Hcached by (solve [by left|by right]). cbn [default].
      by apply (proj1 (Forall_forall _ _) Hle).
Qed.

Lemma Collect_collected d w R budget now_ms grace_ms max_removals res d' w' :
  retains (contents d) R -> 0 <= max_removals <= MAX64 ->
  Collect StoredSize remove d w budget now_ms grace_ms max_removals = (res, d', w') ->
  exists calls gone, collected d w R now_ms grace_ms max_removals res d' w' calls gone.
Proof.
  intros HR Hmax E. unfold Collect in E. pose proof (fun cb => collected_nothing d w R now_ms grace_ms max_removals cb HR (proj1 Hmax)) as Hnone.
  destruct (ForEachStringPrefixRaw _ _ _ _ _) as [[[]|] out] eqn:Ef; [|injection E as <- <- <-; by eexists _, _].
  apply (cache_scan d R) in Ef as [Hnd Hout]; [|done].
  destruct (scan_entries _ _ _ _ _ _ _) as [[[[cb ev] forget]|] b] eqn:Es; [|injection E as <- <- <-; by eexists _, _].
  apply (scan_entries_inv d w out 0 [] []) in Es as (more & missing & H1 & H2 & Hev & Hsub & Hmiss). cbn [fst snd app] in H1, H2. subst ev forget.
  destruct (evict _ _ _ _ _ _ _ _ _) as [[res1 r] w1] eqn:Ee.
  apply evict_inv in Ee as (n & gone & -> & Hold & Hgone & Hr & Hcount); [|lia|cbn; lia..].
  destruct (evicted_calls d w R out more n now_ms grace_ms HR Hout Hev Hold) as [Hcalls Hsorted].
  assert (Hcallnd : NoDup (ev_id <$> take n (merge_sort ev_le more))).
  { eapply sublist_NoDup; [|apply fmap_sublist, sublist_take]. rewrite (merge_sort_Permutation ev_le more). by eapply sublist_NoDup. }
  assert (Hall : Forall (fun c => c ∈ ev_id <$> take n (merge_sort ev_le more) \/ StoredSize w c = None) (missing ++ gone)).
  { apply Forall_app_2; [eapply Forall_impl; [exact Hmiss|by right]|]. apply Forall_forall. intros c Hc. left. by apply Hgone. }
  destruct r as [l|].
  - destruct (kv_WriteBatch d l true) as [ok d1] eqn:Ew. injection E as <- <- <-. rewrite (Hr l eq_refl) in Ew.
    apply (forget_retains d R) in Ew; [|done].
    eexists _, _. constructor; [done|done|done|done|lia|exact Ew|]. by destruct ok; [|constructor].
  - injection E as <- <- <-. eexists _, []. constructor; [done|done|done|done|lia|apply (cl_registry _ _ _ _ _ _ _ _ _ _ _ (Hnone 0))|constructor].
Qed.

(** Collecting never touches a chunk that is pinned. Whatever the
    database and the removals do, the chunks handed to [remove] are cached
    ones whose blob is there, that nobody pins and that were last used before
    the grace period, each once, the least recently used first; at most
    [max_removals] are removed, no pin changes, and only the cache rows of
    removed or missing blobs are dropped. *)
Theorem Collect_spares_pinned d w R budget now_ms grace_ms max_removals res d' w' :
  retains (contents d) R -> 0 <= max_removals <= MAX64 ->
  Collect StoredSize remove d w budget now_ms grace_ms max_removals = (res, d', w') ->
  exists calls gone, collected d w R now_ms grace_ms max_removals res d' w' calls gone.
Proof. apply Collect_collected. Qed.
End collect.
End operations.
