(* ===== verification/ChunkBlobs.v ===== *)
(** * The blob store

    [src/src/cybou/chunk_blob_store.cpp]: encrypted chunks under the hash of
    their bytes, within a capacity. The store is modelled as it runs in memory
    ([m_memory_only]); the branches that keep a blob in a file are file
    input/output. What other components rely on is the interface [BlobStore]
    with its laws, which the store in memory is proved to have. *)

From S2P Require Import Prelude.
From S2P Require Import Bytes.
From S2P Require Import Codec.
From S2P Require Import Crypto.
From S2P Require Import Merkle.

Definition ENCRYPTED_CHUNK_HEADER_SIZE : Z := 48.
Definition ENCRYPTED_CHUNK_MIN_STORED_BYTES : Z := ENCRYPTED_CHUNK_HEADER_SIZE + 1024 + 16.
Definition ENCRYPTED_CHUNK_MAX_STORED_BYTES : Z := ENCRYPTED_CHUNK_HEADER_SIZE + 512 * 1024 + 16.
(** The sizes a stored chunk can have. *)
Definition stored_size_ok (size : Z) : bool :=
  negb (size <? ENCRYPTED_CHUNK_MIN_STORED_BYTES) && negb (ENCRYPTED_CHUNK_MAX_STORED_BYTES <? size).

Inductive ChunkBlobPutStatus : Type :=
| BP_STORED | BP_ALREADY_STORED | BP_INVALID | BP_CONFLICT | BP_STORAGE_ERROR | BP_CAPACITY_EXCEEDED.
#[export] Instance ChunkBlobPutStatus_eq_dec : EqDecision ChunkBlobPutStatus.
Proof. solve_decision. Defined.
(** The bytes are stored. *)
Definition put_done (status : ChunkBlobPutStatus) : bool :=
  match status with BP_STORED | BP_ALREADY_STORED => true | _ => false end.

(** ** The interface *)

Class BlobStore : Type := {
  blobs : Type;
  blob_contents : blobs -> gmap ChunkId bytes;
  blob_MemoryOnly : bool;
  blob_Put : blobs -> ChunkId -> bytes -> ChunkBlobPutStatus * blobs;
  blob_Get : blobs -> ChunkId -> option bytes;
  blob_StoredSize : blobs -> ChunkId -> option Z;
  blob_Remove : blobs -> ChunkId -> bool * blobs;
}.
(** The blob under [id] hashes to it and has an admissible size. *)
Definition intact `{CryptoOps} (m : gmap ChunkId bytes) (id : ChunkId) (l : bytes) : Prop :=
  m !! id = Some l /\ ComputeChunkId l = id /\ stored_size_ok (zlen l) = true.
(** A reported size or blob is there, a blob that is given out hashes to its
    id; a put that succeeds stores the bytes, any put stores them or nothing,
    and never in the place of other intact bytes; a removal that succeeds
    leaves nothing under the id, one that fails leaves everything. *)
Class BlobStoreLaws `{CryptoOps} (B : BlobStore) : Prop := {
  blob_size_there b id n : blob_StoredSize b id = Some n -> exists l, blob_contents b !! id = Some l /\ zlen l = n;
  blob_get_there b id l : blob_Get b id = Some l -> blob_contents b !! id = Some l /\ ComputeChunkId l = id;
  blob_put_done b id l status b' : blob_Put b id l = (status, b') -> put_done status = true -> blob_contents b' !! id = Some l;
  blob_put b id l status b' : blob_Put b id l = (status, b') -> blob_contents b' = blob_contents b \/
    blob_contents b' = <[id := l]> (blob_contents b) /\ ComputeChunkId l = id /\ stored_size_ok (zlen l) = true /\
    forall l0, intact (blob_contents b) id l0 -> l0 = l;
  blob_removed b id b' : blob_Remove b id = (true, b') -> blob_contents b' = delete id (blob_contents b);
  blob_kept b id b' : blob_Remove b id = (false, b') -> blob_contents b' = blob_contents b;
}.

(** ** The store in memory *)

Record ChunkBlobStore : Type := mkBlobStore {
  m_capacity_bytes : Z;
  m_memory_blobs : gmap ChunkId bytes;
  m_used_bytes : Z;
}.

Section store.
Context `{CryptoOps}.

Definition Blob_Put (s : ChunkBlobStore) (id : ChunkId) (stored_bytes : bytes) : ChunkBlobPutStatus * ChunkBlobStore :=
  return_if bool_decide (id = ZERO) || (zlen stored_bytes <? ENCRYPTED_CHUNK_MIN_STORED_BYTES)
    || (ENCRYPTED_CHUNK_MAX_STORED_BYTES <? zlen stored_bytes) || negb (bool_decide (ComputeChunkId stored_bytes = id))
    with (BP_INVALID, s) ;;
  match m_memory_blobs s !! id with
  | Some existing => (if bool_decide (existing = stored_bytes) then BP_ALREADY_STORED else BP_CONFLICT, s)
  | None =>
      return_if (m_capacity_bytes s <? m_used_bytes s) || (m_capacity_bytes s ⊖ m_used_bytes s <? zlen stored_bytes)
        with (BP_CAPACITY_EXCEEDED, s) ;;
      (BP_STORED, mkBlobStore (m_capacity_bytes s) (<[id := stored_bytes]> (m_memory_blobs s)) (m_used_bytes s ⊕ zlen stored_bytes))
  end.
Definition Blob_Get (s : ChunkBlobStore) (id : ChunkId) : option bytes :=
  return_if bool_decide (id = ZERO) with None ;;
  let? l := m_memory_blobs s !! id else None ;;
  if bool_decide (ComputeChunkId l = id) then Some l else None.
Definition Blob_StoredSize (s : ChunkBlobStore) (id : ChunkId) : option Z :=
  return_if bool_decide (id = ZERO) with None ;;
  let? l := m_memory_blobs s !! id else None ;;
  Some (zlen l).
Definition Blob_Has (s : ChunkBlobStore) (id : ChunkId) : bool := bool_decide (is_Some (Blob_StoredSize s id)).
Definition Blob_Remove (s : ChunkBlobStore) (id : ChunkId) : bool * ChunkBlobStore :=
  return_if bool_decide (id = ZERO) with (false, s) ;;
  match m_memory_blobs s !! id with
  | None => (true, s)
  | Some l => (true, mkBlobStore (m_capacity_bytes s) (delete id (m_memory_blobs s)) (m_used_bytes s ⊖ zlen l))
  end.

#[export] Instance memory_blobs : BlobStore := {|
  blobs := ChunkBlobStore;
  blob_contents := m_memory_blobs;
  blob_MemoryOnly := true;
  blob_Put := Blob_Put;
  blob_Get := Blob_Get;
  blob_StoredSize := Blob_StoredSize;
  blob_Remove := Blob_Remove;
|}.

(** ** What it keeps *)

Definition used (blobs : gmap ChunkId bytes) : Z := map_sum zlen blobs.
(** Every blob is one under its hash, of an admissible size, and the count of
    bytes is exact and within the capacity. *)
Record blobs_ok (s : ChunkBlobStore) : Prop := {
  bo_hash id l : m_memory_blobs s !! id = Some l -> ComputeChunkId l = id /\ id <> ZERO /\ stored_size_ok (zlen l) = true;
  bo_used : m_used_bytes s = used (m_memory_blobs s);
  bo_room : m_used_bytes s <= m_capacity_bytes s <= MAX64;
}.

Lemma stored_size_ok_range size : stored_size_ok size = true <-> ENCRYPTED_CHUNK_MIN_STORED_BYTES <= size <= ENCRYPTED_CHUNK_MAX_STORED_BYTES.
Proof. unfold stored_size_ok. destruct (Z.ltb_spec size ENCRYPTED_CHUNK_MIN_STORED_BYTES), (Z.ltb_spec ENCRYPTED_CHUNK_MAX_STORED_BYTES size); cbn; lia. Qed.
Lemma used_nonneg b : 0 <= used b.
Proof. apply map_sum_nonneg. intros. apply zlen_nonneg. Qed.
Lemma Blob_Put_inv s id l status s' : Blob_Put s id l = (status, s') ->
  (put_done status = true /\ ComputeChunkId l = id /\ id <> ZERO /\ stored_size_ok (zlen l) = true /\
     (m_memory_blobs s !! id = Some l /\ s' = s \/
      m_memory_blobs s !! id = None /\ m_used_bytes s <= m_capacity_bytes s /\ zlen l <= m_capacity_bytes s ⊖ m_used_bytes s /\
      s' = mkBlobStore (m_capacity_bytes s) (<[id := l]> (m_memory_blobs s)) (m_used_bytes s ⊕ zlen l))) \/
  (put_done status = false /\ s' = s).
Proof.
  unfold Blob_Put. case_bool_decide; [intros [= <- <-]; by right|]. cbn [orb].
  destruct (Z.ltb_spec (zlen l) ENCRYPTED_CHUNK_MIN_STORED_BYTES); [intros [= <- <-]; by right|].
  destruct (Z.ltb_spec ENCRYPTED_CHUNK_MAX_STORED_BYTES (zlen l)); [intros [= <- <-]; by right|]. cbn [orb].
  case_bool_decide as Hid; cbn [negb]; [|intros [= <- <-]; by right].
  assert (Hsize : stored_size_ok (zlen l) = true) by (by apply stored_size_ok_range).
  destruct (m_memory_blobs s !! id) as [existing|] eqn:E.
  - case_bool_decide as He; intros [= <- <-]; [|by right]. subst. left. split_and!; auto.
  - destruct (Z.ltb_spec (m_capacity_bytes s) (m_used_bytes s)); [intros [= <- <-]; by right|].
    destruct (Z.ltb_spec (m_capacity_bytes s ⊖ m_used_bytes s) (zlen l)); intros [= <- <-]; [by right|].
    left. split_and!; auto.
Qed.
#[export] Instance memory_blobs_laws : BlobStoreLaws memory_blobs.
Proof.
  constructor; cbn.
  - intros b id n. unfold Blob_StoredSize. case_bool_decide; [done|]. destruct (m_memory_blobs b !! id) as [l|]; [|done].
    intros [= <-]. by exists l.
  - intros b id l. unfold Blob_Get. case_bool_decide; [done|]. destruct (m_memory_blobs b !! id) as [l'|]; [|done].
    case_bool_decide; [|done]. by intros [= <-].
  - intros b id l status b' [(_ & _ & _ & _ & [[Hl ->]|(_ & _ & _ & ->)])|[E _]]%Blob_Put_inv Hd; [done|apply lookup_insert_eq|congruence].
  - intros b id l status b' [(_ & Hid & _ & Hs & [[_ ->]|(Hnew & _ & _ & ->)])|[_ ->]]%Blob_Put_inv; [by left|right|by left].
    split_and!; [done..|]. intros l0 (Hl0 & _). cbn in Hl0. congruence.
  - intros b id b'. unfold Blob_Remove. case_bool_decide; [done|]. destruct (m_memory_blobs b !! id) eqn:E; intros [= <-]; [done|].
    by rewrite delete_id.
  - intros b id b'. unfold Blob_Remove. case_bool_decide; [by intros [= <-]|]. by destruct (m_memory_blobs b !! id).
Qed.

Lemma Blob_Put_ok s id l : blobs_ok s -> blobs_ok (Blob_Put s id l).2.
Proof.
  intros [H1 H2 H3]. destruct (Blob_Put s id l) as [status s'] eqn:E. cbn [snd]. pose proof (used_nonneg (m_memory_blobs s)) as Hn.
  apply Blob_Put_inv in E as [(_ & Hid & Hz & Hs & [[_ ->]|(Hnew & _ & Hroom & ->)])|[_ ->]]; [by constructor| |by constructor].
  rewrite sub64_small in Hroom by ulia. constructor; cbn [m_memory_blobs m_used_bytes m_capacity_bytes].
  - intros id' l'. destruct (decide (id = id')) as [<-|]; [rewrite lookup_insert_eq; by intros [= <-]|]. rewrite lookup_insert_ne by done. apply H1.
  - unfold used in *. rewrite map_sum_insert_new, add64_small; [lia| |done]. pose proof (zlen_nonneg l). ulia.
  - pose proof (zlen_nonneg l). rewrite add64_small by ulia. lia.
Qed.
Lemma Blob_Remove_ok s id : blobs_ok s -> blobs_ok (Blob_Remove s id).2.
Proof.
  intros [H1 H2 H3]. unfold Blob_Remove. case_bool_decide; [by constructor|]. destruct (m_memory_blobs s !! id) as [l|] eqn:E; [|by constructor].
  cbn [snd]. pose proof (map_sum_delete zlen _ _ _ E) as Hd. fold (used (m_memory_blobs s)) in Hd.
  assert (Hn : 0 <= used (delete id (m_memory_blobs s))) by apply used_nonneg. unfold used in Hn. pose proof (zlen_nonneg l).
  assert (Hsub : m_used_bytes s ⊖ zlen l = used (delete id (m_memory_blobs s))) by (unfold used in *; rewrite sub64_small; ulia).
  constructor; cbn [m_memory_blobs m_used_bytes m_capacity_bytes].
  - intros id' l' [_ Hl]%lookup_delete_Some. by eapply H1.
  - done.
  - rewrite Hsub. unfold used in *. lia.
Qed.
End store.
