(* ===== verification/FinalizedChunks.v ===== *)
(** * The provider's chunk store

    [src/src/cybou/finalized_chunk_store.cpp]: which encrypted chunks a
    provider keeps and why. A chunk is admitted only for a finalized
    publication that authorizes it; the metadata (the sizes, the tie of each
    publication to its chunks, the purges that wait for the deletion of a
    blob, the bytes in use) is in a database of its own, the blobs in a
    [BlobStore]. *)

From S2P Require Import Prelude.
From S2P Require Import Bytes.
From S2P Require Import Codec.
From S2P Require Import Crypto.
From S2P Require Import Payloads.
From S2P Require Import Merkle.
From S2P Require Import KVStore.
From S2P Require Import ChunkRetention.
From S2P Require Import ChunkBlobs.

Inductive ChunkAdmissionStatus : Type :=
| CA_STORED | CA_ALREADY_STORED | CA_NOT_FINALIZED | CA_INVALID | CA_NOT_AUTHORIZED | CA_CONFLICT | CA_CAPACITY_EXCEEDED
| CA_STORAGE_ERROR.
#[export] Instance ChunkAdmissionStatus_eq_dec : EqDecision ChunkAdmissionStatus.
Proof. solve_decision. Defined.
(** [operator bool]. *)
Definition admitted (status : ChunkAdmissionStatus) : bool :=
  match status with CA_STORED | CA_ALREADY_STORED => true | _ => false end.
Definition ChunkAuthorizationProof : Type := Z * list ChunkId.

Record FinalizedChunkStore : Type := mkChunkStore {
  fc_namespace : bytes;
  fc_capacity_bytes : Z;
  fc_purge_cursor : option ChunkId;
}.
Definition set_cursor (s : FinalizedChunkStore) (cursor : ChunkId) :=
  mkChunkStore (fc_namespace s) (fc_capacity_bytes s) (Some cursor).

(** ** Keys and proofs *)

(** [ParseChunkId] reads what [ParseHex] reads. *)
Definition ParseChunkId (hex : bytes) : option ChunkId := ParseHex hex.
Definition ChunkKey (ns : bytes) (id : ChunkId) : bytes := ns ++ str "/chunk/" ++ GetHex id.
Definition Associations (ns : bytes) : bytes := ns ++ str "/publication-chunk/".
Definition PublicationChunkKey (ns : bytes) (publication_id : Hash256) (id : ChunkId) : bytes :=
  Associations ns ++ GetHex publication_id ++ str "/" ++ GetHex id.
Definition StorageBytesKey (ns : bytes) : bytes := ns ++ str "/storage-bytes".
Definition PurgeKey (ns : bytes) (id : ChunkId) : bytes := ns ++ str "/purge/" ++ GetHex id.
Definition NETWORK_KEY : bytes := str "chunk-store/network-id".

(** [append_u32]: the highest byte first. *)
Definition be_u32 (v : Z) : bytes := (fun shift => bz (Z.shiftr v shift)) <$> [24; 16; 8; 0].
Definition be_val (l : bytes) : Z := foldl (fun acc b => Z.lor (Z.shiftl acc 8) (zb b)) 0 l.
Definition EncodeProofMetadata (proof : ChunkAuthorizationProof) : bytes :=
  be_u32 proof.1 ++ be_u32 (wrap32 (zlen proof.2)) ++ mjoin (arr_val <$> proof.2).
Fixpoint read_siblings (n : nat) (l : bytes) : list ChunkId :=
  match n with
  | O => []
  | S n => arr_of 32 (take 32 l) :: read_siblings n (drop 32 l)
  end.
Definition DecodeProofMetadata (encoded : bytes) : option ChunkAuthorizationProof :=
  return_if (zlen encoded <? 8) || (8 + 32 * 32 <? zlen encoded) with None ;;
  let sibling_count := be_val (subspan encoded 4 4) in
  return_if (32 <? sibling_count) || negb (zlen encoded =? 8 + sibling_count * 32) with None ;;
  Some (be_val (subspan encoded 0 4), read_siblings (Z.to_nat sibling_count) (drop 8 encoded)).

Section store.
Context `{CryptoOps} `{LevelDB} `{BlobStore}.

(** [FinalizedPublicationLookup]: the publication, if it is finalized. *)
Definition PublicationLookup : Type := Hash256 -> outcome (option RootPublication).

Definition ReadCounter (d : db) (key : bytes) : outcome (option Z) :=
  try! exists_ := kv_Exists d key ;;
  if exists_ then kv_Read (T := Z) d key else Ret (Some 0).

(** ** Admission *)

(** What the metadata says: an answer, or whether the chunk and its tie to
    the publication exist and the bytes in use. *)
Definition admission (s : FinalizedChunkStore) (d : db) (publication_id : Hash256) (chunk_id : ChunkId) (size : Z)
    (proof_metadata : bytes) : outcome (ChunkAdmissionStatus + (bool * bool * Z)) :=
  let chunk_key := ChunkKey (fc_namespace s) chunk_id in
  let publication_chunk_key := PublicationChunkKey (fc_namespace s) publication_id chunk_id in
  try! existing_size := kv_Read (T := Z) d chunk_key ;;
  let chunk_exists := bool_decide (is_Some existing_size) in
  try! chunk_there := (if chunk_exists then Ret false else kv_Exists d chunk_key) ;;
  return_if chunk_there with Ret (inl CA_STORAGE_ERROR) ;;
  return_if chunk_exists && negb (bool_decide (existing_size = Some size)) with Ret (inl CA_CONFLICT) ;;
  try! existing_association := kv_Read (T := bytes) d publication_chunk_key ;;
  let association_exists := bool_decide (is_Some existing_association) in
  return_if association_exists && (negb chunk_exists || negb (bool_decide (existing_association = Some proof_metadata)))
    with Ret (inl CA_CONFLICT) ;;
  try! association_there := (if association_exists then Ret false else kv_Exists d publication_chunk_key) ;;
  return_if association_there with Ret (inl CA_STORAGE_ERROR) ;;
  try! storage_bytes := ReadCounter d (StorageBytesKey (fc_namespace s)) ;;
  let? storage_bytes := storage_bytes else Ret (inl CA_STORAGE_ERROR) ;;
  return_if negb chunk_exists && ((fc_capacity_bytes s <? storage_bytes) || (fc_capacity_bytes s ⊖ storage_bytes <? size))
    with Ret (inl CA_CAPACITY_EXCEEDED) ;;
  Ret (inr (chunk_exists, association_exists, storage_bytes)).
(** The disk has room beyond its reserve: [space] is the capacity and what is
    available, unless [filesystem::space] failed. *)
Definition disk_room (space : option (Z * Z)) (size : Z) : bool :=
  match space with
  | None => false
  | Some (capacity, available) =>
      let reserve := Z.max (2 ^ 30) (capacity `div` 20) in
      negb (available <=? reserve) && negb (available ⊖ reserve <? size)
  end.
Definition admission_rows (s : FinalizedChunkStore) (publication_id : Hash256) (chunk_id : ChunkId) (size : Z) (proof_metadata : bytes)
    (chunk_exists : bool) (storage_bytes : Z) : list BatchEntry :=
  (if chunk_exists then []
   else [batch_Write (T := Z) (ChunkKey (fc_namespace s) chunk_id) size;
         batch_Write (T := Z) (StorageBytesKey (fc_namespace s)) (storage_bytes ⊕ size)]) ++
  [batch_Erase (PurgeKey (fc_namespace s) chunk_id);
   batch_Write (T := bytes) (PublicationChunkKey (fc_namespace s) publication_id chunk_id) proof_metadata].

Definition PutChunk (s : FinalizedChunkStore) (d : db) (b : blobs) (publication_id : Hash256) (chunk_id : ChunkId) (stored_bytes : bytes)
    (proof : ChunkAuthorizationProof) (lookup : PublicationLookup) (space : option (Z * Z)) : ChunkAdmissionStatus * db * blobs :=
  let size := zlen stored_bytes in
  return_if IsNull publication_id || bool_decide (chunk_id = ZERO) || negb (stored_size_ok size)
    || negb (bool_decide (ComputeChunkId stored_bytes = chunk_id)) with (CA_INVALID, d, b) ;;
  match lookup publication_id with
  | Throw | Ret None => (CA_NOT_FINALIZED, d, b)
  | Ret (Some publication) =>
      return_if negb (VerifyChunkAuthorizationProof publication chunk_id proof) with (CA_NOT_AUTHORIZED, d, b) ;;
      let proof_metadata := EncodeProofMetadata proof in
      match admission s d publication_id chunk_id size proof_metadata with
      | Throw => (CA_STORAGE_ERROR, d, b)
      | Ret (inl status) => (status, d, b)
      | Ret (inr (chunk_exists, association_exists, storage_bytes)) =>
          return_if negb blob_MemoryOnly && negb (bool_decide (is_Some (blob_StoredSize b chunk_id))) && negb (disk_room space size)
            with (CA_CAPACITY_EXCEEDED, d, b) ;;
          let (blob_status, b) := blob_Put b chunk_id stored_bytes in
          match blob_status with
          | BP_INVALID => (CA_INVALID, d, b)
          | BP_CONFLICT => (CA_CONFLICT, d, b)
          | BP_STORAGE_ERROR => (CA_STORAGE_ERROR, d, b)
          | BP_CAPACITY_EXCEEDED => (CA_CAPACITY_EXCEEDED, d, b)
          | BP_STORED | BP_ALREADY_STORED =>
              return_if association_exists
                with (if bool_decide (blob_status = BP_STORED) then CA_STORED else CA_ALREADY_STORED, d, b) ;;
              let (ok, d) := kv_WriteBatch d (admission_rows s publication_id chunk_id size proof_metadata chunk_exists storage_bytes) true in
              (if ok then CA_STORED else CA_STORAGE_ERROR, d, b)
          end
      end
  end.

(** ** Reads *)

Definition GetChunk (s : FinalizedChunkStore) (d : db) (b : blobs) (chunk_id : ChunkId) : outcome (option bytes) :=
  return_if bool_decide (chunk_id = ZERO) with Ret None ;;
  try! expected_size := kv_Read (T := Z) d (ChunkKey (fc_namespace s) chunk_id) ;;
  let? expected_size := expected_size else Ret None ;;
  let? l := blob_Get b chunk_id else Ret None ;;
  Ret (if zlen l =? expected_size then Some l else None).
Definition GetChunkAuthorizationProof (s : FinalizedChunkStore) (d : db) (b : blobs) (publication_id : Hash256) (chunk_id : ChunkId)
    (lookup : PublicationLookup) : outcome (option ChunkAuthorizationProof) :=
  return_if IsNull publication_id || bool_decide (chunk_id = ZERO) with Ret None ;;
  try! publication := lookup publication_id ;;
  let? publication := publication else Ret None ;;
  try! l := GetChunk s d b chunk_id ;;
  let? l := l else Ret None ;;
  return_if negb (bool_decide (ComputeChunkId l = chunk_id)) with Ret None ;;
  try! encoded := kv_Read (T := bytes) d (PublicationChunkKey (fc_namespace s) publication_id chunk_id) ;;
  let? encoded := encoded else Ret None ;;
  let? proof := DecodeProofMetadata encoded else Ret None ;;
  Ret (if VerifyChunkAuthorizationProof publication chunk_id proof then Some proof else None).
Definition StoredSize (s : FinalizedChunkStore) (d : db) (chunk_id : ChunkId) : outcome (option Z) :=
  return_if bool_decide (chunk_id = ZERO) with Ret None ;;
  try! size := kv_Read (T := Z) d (ChunkKey (fc_namespace s) chunk_id) ;;
  let? size := size else Ret None ;;
  Ret (if stored_size_ok size then Some size else None).
Definition HasChunk (s : FinalizedChunkStore) (d : db) (b : blobs) (chunk_id : ChunkId) : outcome bool :=
  return_if bool_decide (chunk_id = ZERO) with Ret false ;;
  try! expected_size := kv_Read (T := Z) d (ChunkKey (fc_namespace s) chunk_id) ;;
  let? expected_size := expected_size else Ret false ;;
  Ret (bool_decide (blob_StoredSize b chunk_id = Some expected_size)).
Definition UsedBytes (s : FinalizedChunkStore) (d : db) : outcome Z :=
  try! l := ReadCounter d (StorageBytesKey (fc_namespace s)) ;; Ret (default MAX64 l).
(** The callback of the cache: a blob the provider has admitted stays. *)
Definition RemoveUnlessAdmitted (s : FinalizedChunkStore) (d : db) (b : blobs) (chunk_id : ChunkId) : outcome bool * blobs :=
  match kv_Read (T := Z) d (ChunkKey (fc_namespace s) chunk_id) with
  | Throw => (Throw, b)
  | Ret (Some _) => (Ret false, b)
  | Ret None => let (removed, b) := blob_Remove b chunk_id in (Ret removed, b)
  end.

Record PublicationHolding : Type := mkHolding {
  ph_publication_id : Hash256;
  ph_chunks : Z;
  ph_bytes : Z;
}.
Definition holding_visitor (s : FinalizedChunkStore) (d : db) (holdings : gmap Hash256 PublicationHolding) (key _value : bytes)
    : outcome unit * gmap Hash256 PublicationHolding :=
  let associations := zlen (Associations (fc_namespace s)) in
  match FromHex (subspan key associations 64), ParseChunkId (drop (length key - 64) key) with
  | Some publication, Some chunk =>
      match kv_Read (T := Z) d (ChunkKey (fc_namespace s) chunk) with
      | Throw => (Throw, holdings)
      | Ret None => (Ret tt, holdings)
      | Ret (Some size) =>
          let holding := default (mkHolding publication 0 0) (holdings !! publication) in
          (Ret tt, <[publication := mkHolding publication (ph_chunks holding ⊕ 1) (ph_bytes holding ⊕ size)]> holdings)
      end
  | _, _ => (Ret tt, holdings)
  end.
Definition association_key_size (s : FinalizedChunkStore) : Z := zlen (Associations (fc_namespace s)) + 64 + 1 + 64.
Definition Holdings (s : FinalizedChunkStore) (d : db) : outcome (list PublicationHolding) :=
  let (r, holdings) := ForEachStringPrefixRaw d (Associations (fc_namespace s)) (association_key_size s) (holding_visitor s d) ∅ in
  try! _ := r ;; Ret (entries holdings).*2.

(** ** Purges *)

Definition ale (a b : ChunkId) : bool := negb (alt b a).
(** The visitor of a scan, before the cursor or ([wrap]) up to it. *)
Definition pending_visitor (s : FinalizedChunkStore) (max_chunks : Z) (wrap : bool) (pending : list ChunkId) (key _value : bytes)
    : outcome unit * list ChunkId :=
  return_if max_chunks <=? zlen pending with (Ret tt, pending) ;;
  match ParseChunkId (drop (length (fc_namespace s ++ str "/purge/")) key) with
  | None => (Throw, pending)
  | Some id =>
      match fc_purge_cursor s with
      | Some cursor => if bool_decide (ale id cursor <> wrap) then (Ret tt, pending) else (Ret tt, pending ++ [id])
      | None => (Ret tt, pending ++ [id])
      end
  end.
Definition scan_pending (s : FinalizedChunkStore) (d : db) (max_chunks : Z) (wrap : bool) (pending : list ChunkId)
    : outcome (list ChunkId) :=
  let prefix := fc_namespace s ++ str "/purge/" in
  let (r, pending) := ForEachStringPrefixRaw d prefix (zlen prefix + 64) (pending_visitor s max_chunks wrap) pending in
  try! _ := r ;; Ret pending.
(** What the metadata of a pending purge must say: the size and the bytes in use. *)
Definition purge_metadata (s : FinalizedChunkStore) (d : db) (id : ChunkId) : outcome (Z * Z) :=
  try! used := ReadCounter d (StorageBytesKey (fc_namespace s)) ;;
  let? used := used else Throw ;;
  try! size := kv_Read (T := Z) d (PurgeKey (fc_namespace s) id) ;;
  let? size := size else Throw ;;
  try! expected := kv_Read (T := Z) d (ChunkKey (fc_namespace s) id) ;;
  let? expected := expected else Throw ;;
  return_if negb (size =? expected) || negb (stored_size_ok size) || (used <? size) with Throw ;;
  Ret (size, used).
Definition purge_rows (s : FinalizedChunkStore) (id : ChunkId) (size used : Z) : list BatchEntry :=
  [batch_Erase (PurgeKey (fc_namespace s) id); batch_Erase (ChunkKey (fc_namespace s) id);
   batch_Write (T := Z) (StorageBytesKey (fc_namespace s)) (used ⊖ size)].
Fixpoint purge_loop (s : FinalizedChunkStore) (d : db) (b : blobs) (pending : list ChunkId) (completed : Z)
    : outcome Z * FinalizedChunkStore * db * blobs :=
  match pending with
  | [] => (Ret completed, s, d, b)
  | id :: rest =>
      let s := set_cursor s id in
      match purge_metadata s d id with
      | Throw => (Throw, s, d, b)
      | Ret (size, used) =>
          let (removed, b) := blob_Remove b id in
          if removed then
            let (ok, d) := kv_WriteBatch d (purge_rows s id size used) true in
            if ok then purge_loop s d b rest (completed + 1) else (Throw, s, d, b)
          else purge_loop s d b rest completed
      end
  end.
Definition RetryPendingPurgesLocked (s : FinalizedChunkStore) (d : db) (b : blobs) (max_chunks : Z)
    : outcome Z * FinalizedChunkStore * db * blobs :=
  let pending :=
    try! pending := scan_pending s d max_chunks false [] ;;
    if bool_decide (is_Some (fc_purge_cursor s)) && (zlen pending <? max_chunks) then scan_pending s d max_chunks true pending
    else Ret pending in
  match pending with
  | Throw => (Throw, s, d, b)
  | Ret pending => purge_loop s d b pending 0
  end.
Definition RetryPendingPurges (s : FinalizedChunkStore) (d : db) (b : blobs) (max_chunks : Z) := RetryPendingPurgesLocked s d b max_chunks.

Definition purge_prefix (s : FinalizedChunkStore) (publication_id : Hash256) : bytes :=
  Associations (fc_namespace s) ++ GetHex publication_id ++ str "/".
Definition tie_visitor (prefix : bytes) (chunks : list ChunkId) (key _value : bytes) : outcome unit * list ChunkId :=
  (Ret tt, match ParseChunkId (drop (length prefix) key) with Some id => chunks ++ [id] | None => chunks end).
Definition shared_visitor (prefix : bytes) (revoked : gset ChunkId) (shared : gset ChunkId) (key _value : bytes)
    : outcome unit * gset ChunkId :=
  return_if has_prefix prefix key with (Ret tt, shared) ;;
  (Ret tt, match ParseChunkId (drop (length key - 64) key) with
           | Some id => if bool_decide (id ∈ revoked) then {[id]} ∪ shared else shared
           | None => shared
           end).
(** The rows of a purge: every tie goes, the chunks nothing else needs wait. *)
Fixpoint revoke_rows (s : FinalizedChunkStore) (d : db) (publication_id : Hash256) (shared : gset ChunkId) (chunks : list ChunkId)
    : outcome (list BatchEntry) :=
  match chunks with
  | [] => Ret []
  | chunk :: rest =>
      try! size := (if bool_decide (chunk ∈ shared) then Ret None else kv_Read (T := Z) d (ChunkKey (fc_namespace s) chunk)) ;;
      try! rows := revoke_rows s d publication_id shared rest ;;
      Ret (batch_Erase (PublicationChunkKey (fc_namespace s) publication_id chunk) ::
           match size with Some size => [batch_Write (T := Z) (PurgeKey (fc_namespace s) chunk) size] | None => [] end ++ rows)
  end.
Definition revocation (s : FinalizedChunkStore) (d : db) (publication_id : Hash256) : outcome (option (list BatchEntry)) :=
  let prefix := purge_prefix s publication_id in
  let key_size := zlen prefix + 64 in
  let (r, chunks) := ForEachStringPrefixRaw d prefix key_size (tie_visitor prefix) [] in
  try! _ := r ;;
  return_if bool_decide (chunks = []) with Ret None ;;
  let (r, shared) := ForEachStringPrefixRaw d (Associations (fc_namespace s)) key_size (shared_visitor prefix (list_to_set chunks)) ∅ in
  try! _ := r ;;
  try! rows := revoke_rows s d publication_id shared chunks ;;
  Ret (Some rows).
Definition PurgePublication (s : FinalizedChunkStore) (d : db) (b : blobs) (publication_id : Hash256)
    : outcome Z * FinalizedChunkStore * db * blobs :=
  return_if IsNull publication_id with (Ret 0, s, d, b) ;;
  match revocation s d publication_id with
  | Throw => (Throw, s, d, b)
  | Ret None => (Ret 0, s, d, b)
  | Ret (Some rows) =>
      let (ok, d) := kv_WriteBatch d rows true in
      if ok then RetryPendingPurgesLocked s d b MAX64 else (Throw, s, d, b)
  end.

(** *** At startup *)

Definition publications_visitor (s : FinalizedChunkStore) (publications : gset Hash256) (key _value : bytes)
    : outcome unit * gset Hash256 :=
  match ParseChunkId (subspan key (zlen (Associations (fc_namespace s))) 64) with
  | None => (Throw, publications)
  | Some id => (Ret tt, {[id]} ∪ publications)
  end.
Fixpoint purge_revoked_loop (s : FinalizedChunkStore) (d : db) (b : blobs) (publications : list Hash256) (lookup : PublicationLookup)
    : outcome unit * FinalizedChunkStore * db * blobs :=
  match publications with
  | [] => (Ret tt, s, d, b)
  | id :: rest =>
      match lookup id with
      | Throw => (Throw, s, d, b)
      | Ret (Some _) => purge_revoked_loop s d b rest lookup
      | Ret None =>
          match PurgePublication s d b id with
          | (Ret _, s, d, b) => purge_revoked_loop s d b rest lookup
          | (Throw, s, d, b) => (Throw, s, d, b)
          end
      end
  end.
(** The order of a [std::set] of ids. *)
Definition set_order (publications : gset Hash256) : list Hash256 := keys (gset_to_gmap tt publications).
Definition PurgeRevokedPublications (s : FinalizedChunkStore) (d : db) (b : blobs) (lookup : PublicationLookup)
    : outcome unit * FinalizedChunkStore * db * blobs :=
  let (r, publications) := ForEachStringPrefixRaw d (Associations (fc_namespace s)) (association_key_size s) (publications_visitor s) ∅ in
  match r with
  | Throw => (Throw, s, d, b)
  | Ret _ => purge_revoked_loop s d b (set_order publications) lookup
  end.

(** ** Construction *)

Definition size_visitor (s : FinalizedChunkStore) (b : blobs) (total : Z) (key raw_size : bytes) : outcome unit * Z :=
  let prefix := fc_namespace s ++ str "/chunk/" in
  return_if negb (zlen key =? zlen prefix + 64) || negb (zlen raw_size =? 8) with (Throw, total) ;;
  match ParseChunkId (drop (length prefix) key), DecodeU64 raw_size with
  | Some id, Some size =>
      return_if negb (stored_size_ok size) || (MAX64 ⊖ total <? size) with (Throw, total) ;;
      return_if negb (bool_decide (blob_StoredSize b id = Some size)) with (Throw, total) ;;
      (Ret tt, total ⊕ size)
  | _, _ => (Throw, total)
  end.
(** The network the database belongs to. *)
Definition check_network (d : db) (network_binding : Hash256) : outcome bool * db :=
  match kv_Read (T := bytes) d NETWORK_KEY with
  | Throw => (Throw, d)
  | Ret (Some saved) => (Ret (bool_decide (saved = arr_val network_binding)), d)
  | Ret None =>
      match kv_Exists d NETWORK_KEY with
      | Throw | Ret true => (Throw, d)
      | Ret false => let (ok, d) := kv_Write (T := bytes) d NETWORK_KEY (arr_val network_binding) true in (if ok then Ret true else Throw, d)
      end
  end.
(** On disk the sizes are summed again; in memory there is nothing to read. *)
Definition recount (s : FinalizedChunkStore) (d : db) (b : blobs) : outcome unit * db :=
  return_if blob_MemoryOnly with (Ret tt, d) ;;
  let prefix := fc_namespace s ++ str "/chunk/" in
  let (r, total) := ForEachStringPrefixRaw d prefix (zlen prefix + 64) (size_visitor s b) 0 in
  match r with
  | Throw => (Throw, d)
  | Ret _ => let (ok, d) := kv_Write (T := Z) d (StorageBytesKey (fc_namespace s)) total true in (if ok then Ret tt else Throw, d)
  end.
Definition open_chunk_store (d : db) (b : blobs) (path_empty : bool) (network_binding : Hash256) (capacity_bytes : Z)
    : outcome FinalizedChunkStore * db * blobs :=
  return_if IsNull network_binding || (negb blob_MemoryOnly && path_empty) with (Throw, d, b) ;;
  match check_network d network_binding with
  | (Throw, d) | (Ret false, d) => (Throw, d, b)
  | (Ret true, d) =>
      let s := mkChunkStore (str "chunk-store/" ++ GetHex network_binding) capacity_bytes None in
      match RetryPendingPurgesLocked s d b MAX64 with
      | (Throw, s, d, b) => (Throw, d, b)
      | (Ret _, s, d, b) =>
          let (r, d) := recount s d b in
          match r with Throw => (Throw, d, b) | Ret _ => (Ret s, d, b) end
      end
  end.
End store.
