(* ===== verification/FinalizedChunksProofs.v ===== *)
(** * What the provider's chunk store keeps

    The rows of the database represent the provider's obligations: the size of
    every admitted chunk, the publications tied to it, the purges that wait
    and the bytes in use. Whatever the database and the disk do, every chunk
    tied to a publication is one whose bytes are stored, and the count of the
    bytes is exact. *)

From S2P Require Import Prelude.
From S2P Require Import Bytes.
From S2P Require Import Codec.
From S2P Require Import Utf8.
From S2P Require Import Crypto.
From S2P Require Import Payloads.
From S2P Require Import Merkle.
From S2P Require Import KVStore.
From S2P Require Import KVIteration.
From S2P Require Import ChunkRetention.
From S2P Require Import ChunkBlobs.
From S2P Require Import FinalizedChunks.

(** ** The rows *)

Module Chunks.
Inductive row : Type :=
| NetworkRow
| CounterRow
| SizeRow (c : ChunkId)
| TieRow (p : Hash256) (c : ChunkId)
| PurgeRow (c : ChunkId).
#[export] Instance row_eq_dec : EqDecision row.
Proof. solve_decision. Defined.

Definition NS : Z := 76.
Section rows.
Context (ns : bytes) (Hns : zlen ns = NS).
Definition row_bytes (x : row) : bytes :=
  match x with
  | NetworkRow => NETWORK_KEY
  | CounterRow => StorageBytesKey ns
  | SizeRow c => ChunkKey ns c
  | TieRow p c => PublicationChunkKey ns p c
  | PurgeRow c => PurgeKey ns c
  end.
Lemma zlen_chunk_row x : zlen (row_bytes x) =
  match x with NetworkRow => 22 | CounterRow => 90 | SizeRow _ | PurgeRow _ => 147 | TieRow _ _ => 224 end.
Proof using Hns.
  destruct x; cbn [row_bytes]; unfold StorageBytesKey, ChunkKey, PublicationChunkKey, Associations, PurgeKey;
    rewrite ?zlen_app, ?Hns, ?zlen_GetHex; reflexivity.
Qed.
Lemma row_kind (x y : row) : row_bytes x = row_bytes y -> zlen (row_bytes x) = zlen (row_bytes y).
Proof. by intros ->. Qed.
#[export] Instance row_bytes_inj : Inj (=) (=) row_bytes.
Proof using Hns.
  intros x y E. pose proof (row_kind x y E) as El. rewrite !zlen_chunk_row in El.
  destruct x as [| |c|p c|c], y as [| |c'|p' c'|c']; try discriminate El; try done; cbn [row_bytes] in E;
    unfold PublicationChunkKey, Associations in E; rewrite <- ?app_assoc in E; apply (inj (app ns)) in E; try discriminate E.
  - by apply (inj (app _)), (inj GetHex) in E as ->.
  - apply (inj (app _)) in E. apply app_inj_1 in E as [Ep%(inj GetHex) Ec]; [|by rewrite !length_GetHex].
    apply (inj (app _)), (inj GetHex) in Ec. by subst.
  - by apply (inj (app _)), (inj GetHex) in E as ->.
Qed.
Lemma chunk_row_small x : zlen (row_bytes x) <= MAX_COMPACT_SIZE.
Proof using Hns. rewrite zlen_chunk_row. by destruct x. Qed.

(** The rows under a prefix. *)
Lemma sized_row prefix size x : has_prefix (AppendCompactSize size ++ prefix) (EncodeBytes (row_bytes x)) = true ->
  (size <? 253) = true -> 0 <= size -> zlen (row_bytes x) = size /\ exists rest, row_bytes x = prefix ++ rest.
Proof using Hns.
  intros [rest E]%has_prefix_split Hsize H0. unfold EncodeBytes, AppendCompactSize in E. rewrite Hsize in E.
  assert (Hx : (zlen (row_bytes x) <? 253) = true) by (rewrite zlen_chunk_row; by destruct x). rewrite Hx in E. rewrite <- app_assoc in E.
  apply app_inj_1 in E as [E1 E2]; [|done]. split; [|by exists rest].
  apply (f_equal le_val) in E1. rewrite !le_val_le_bytes, !Z.mod_small in E1; [done|..]; cbn; pose proof (zlen_nonneg (row_bytes x)); lia.
Qed.
Lemma has_prefix_row prefix x rest size : row_bytes x = prefix ++ rest -> zlen (row_bytes x) = size ->
  has_prefix (AppendCompactSize size ++ prefix) (EncodeBytes (row_bytes x)) = true.
Proof. intros E <-. apply has_prefix_split. exists rest. unfold EncodeBytes. by rewrite E, <- app_assoc. Qed.
Lemma tie_prefix x : has_prefix (AppendCompactSize 224 ++ Associations ns) (EncodeBytes (row_bytes x)) = true <->
  exists pc, x = TieRow pc.1 pc.2.
Proof using Hns.
  split.
  - intros [E _]%sized_row; [|done..]. rewrite zlen_chunk_row in E. destruct x as [| |c|p c|c]; try done. by exists (p, c).
  - intros [[p c] ->]. eapply has_prefix_row; [|apply zlen_chunk_row]. done.
Qed.
Lemma purge_row_prefix x : has_prefix (AppendCompactSize 147 ++ ns ++ str "/purge/") (EncodeBytes (row_bytes x)) = true <->
  exists c, x = PurgeRow c.
Proof using Hns.
  split.
  - intros [E [rest Er]]%sized_row; [|done..]. rewrite zlen_chunk_row in E. destruct x as [| |c|p c|c]; try done; [|by exists c].
    cbn [row_bytes] in Er. unfold ChunkKey in Er. rewrite <- app_assoc in Er. by apply (inj (app ns)) in Er.
  - intros [c ->]. eapply has_prefix_row; [|apply zlen_chunk_row]. cbn [row_bytes]. unfold PurgeKey. by rewrite app_assoc.
Qed.
Lemma size_row_prefix x : has_prefix (AppendCompactSize 147 ++ ns ++ str "/chunk/") (EncodeBytes (row_bytes x)) = true <->
  exists c, x = SizeRow c.
Proof using Hns.
  split.
  - intros [E [rest Er]]%sized_row; [|done..]. rewrite zlen_chunk_row in E. destruct x as [| |c|p c|c]; try done; [by exists c|].
    cbn [row_bytes] in Er. unfold PurgeKey in Er. rewrite <- app_assoc in Er. by apply (inj (app ns)) in Er.
  - intros [c ->]. eapply has_prefix_row; [|apply zlen_chunk_row]. cbn [row_bytes]. unfold ChunkKey. by rewrite app_assoc.
Qed.
Lemma publication_prefix p x :
  has_prefix (AppendCompactSize 224 ++ Associations ns ++ GetHex p ++ str "/") (EncodeBytes (row_bytes x)) = true <->
  exists c, x = TieRow p c.
Proof using Hns.
  split.
  - intros [E [rest Er]]%sized_row; [|done..]. rewrite zlen_chunk_row in E. destruct x as [| |c|p' c|c]; try done.
    cbn [row_bytes] in Er. unfold PublicationChunkKey in Er. rewrite <- !app_assoc in Er. apply (inj (app _)) in Er.
    apply app_inj_1 in Er as [->%(inj GetHex) _]; [by exists c|by rewrite !length_GetHex].
  - intros [c ->]. eapply has_prefix_row; [|apply zlen_chunk_row]. cbn [row_bytes]. unfold PublicationChunkKey. by rewrite <- !app_assoc.
Qed.
End rows.

(** ** What they represent *)

(** The provider's books: the network, the bytes in use, the size of each
    admitted chunk, the publications tied to it with their proofs, and the
    sizes of those that wait to be purged. *)
Record Books : Type := mkBooks {
  bk_network : option bytes;
  bk_used : option Z;
  bk_sizes : gmap ChunkId Z;
  bk_ties : gmap (Hash256 * ChunkId) bytes;
  bk_purges : gmap ChunkId Z;
}.
Definition row_value (M : Books) (x : row) : option bytes :=
  match x with
  | NetworkRow => EncodeBytes <$> bk_network M
  | CounterRow => le_bytes 8 <$> bk_used M
  | SizeRow c => le_bytes 8 <$> bk_sizes M !! c
  | TieRow p c => EncodeBytes <$> bk_ties M !! (p, c)
  | PurgeRow c => le_bytes 8 <$> bk_purges M !! c
  end.
Definition bytes_in_use (M : Books) : Z := default 0 (bk_used M).
Definition tied (M : Books) (c : ChunkId) : Prop := exists p, is_Some (bk_ties M !! (p, c)).

(** The books agree with each other and with the blobs [B]: sizes are
    admissible, the count is their sum; what waits to be purged is tied to no
    publication, everything else is tied to one and its bytes are there. *)
Record books_ok `{CryptoOps} (M : Books) (B : gmap ChunkId bytes) : Prop := {
  bk_size c n : bk_sizes M !! c = Some n -> stored_size_ok n = true /\ c <> ZERO;
  bk_count : bytes_in_use M = map_sum id (bk_sizes M);
  bk_fits : bytes_in_use M <= MAX64;
  bk_proof p c encoded : bk_ties M !! (p, c) = Some encoded -> zlen encoded <= 8 + 32 * 32;
  bk_tied c : tied M c -> is_Some (bk_sizes M !! c) /\ bk_purges M !! c = None;
  bk_reason c : is_Some (bk_sizes M !! c) -> tied M c \/ is_Some (bk_purges M !! c);
  bk_purge c n : bk_purges M !! c = Some n -> bk_sizes M !! c = Some n;
  bk_blob c : tied M c -> exists l, intact B c l /\ bk_sizes M !! c = Some (zlen l);
}.
Definition keeps `{CryptoOps} (ns : bytes) (m B : gmap _ bytes) (M : Books) : Prop :=
  KVIteration.holds (row_bytes ns) m (row_value M) /\ books_ok M B.

(** ** The stored form of a proof *)

Lemma zlen_chunk_ids (l : list ChunkId) : zlen (mjoin (arr_val <$> l)) = 32 * zlen l.
Proof.
  induction l as [|a l IH]; [done|]. rewrite fmap_cons, mjoin_cons, zlen_app, IH, zlen_arr, zlen_cons. lia.
Qed.
Lemma zlen_be_u32 v : zlen (be_u32 v) = 4.
Proof. done. Qed.
#[local] Hint Rewrite zlen_be_u32 : zlen.
Lemma zlen_EncodeProofMetadata proof : zlen (EncodeProofMetadata proof) = 8 + 32 * zlen proof.2.
Proof. unfold EncodeProofMetadata. rewrite !zlen_app, zlen_chunk_ids, !zlen_be_u32. lia. Qed.
Lemma be_step acc b : Z.lor (Z.shiftl acc 8) (zb b) = zb b + acc * 256.
Proof. rewrite Z.lor_comm. apply lor_shift_add; [lia|]. pose proof (zb_range b). lia. Qed.
Lemma be_val_u32 v : is_u32 v -> be_val (be_u32 v) = v.
Proof.
  intros Hv. unfold be_val, be_u32. cbn [fmap list_fmap foldl].
  rewrite !be_step, !zb_bz. unfold wrap8.
  rewrite !Z.shiftr_div_pow2 by lia. unfold is_u32, MAX32 in Hv. change (2 ^ 24) with 16777216. change (2 ^ 16) with 65536.
  change (2 ^ 8) with 256. change (2 ^ 0) with 1. dlia.
Qed.
Lemma read_siblings_encoded l : read_siblings (length l) (mjoin (arr_val <$> l)) = l.
Proof.
  induction l as [|a l IH]; [done|]. rewrite fmap_cons, mjoin_cons. cbn [length read_siblings].
  assert (Ha : length (arr_val a) = 32%nat) by (pose proof (zlen_arr a) as E; unfold zlen in E; lia).
  by rewrite take_app_length', drop_app_length', IH, arr_of_arr.
Qed.
Lemma DecodeProofMetadata_Encode proof : is_u32 proof.1 -> zlen proof.2 <= 32 ->
  DecodeProofMetadata (EncodeProofMetadata proof) = Some proof.
Proof.
  destruct proof as [index l]. cbn [fst snd]. intros Hi Hl. unfold DecodeProofMetadata. rewrite zlen_EncodeProofMetadata. cbn [fst snd].
  pose proof (zlen_nonneg l). rewrite (proj2 (Z.ltb_ge _ 8)), (proj2 (Z.ltb_ge _ _)) by lia. cbn [orb]. unfold EncodeProofMetadata. cbn [fst snd].
  cut. rewrite wrap32_small, !be_val_u32 by ulia. rewrite (proj2 (Z.ltb_ge 32 _)), (proj2 (Z.eqb_eq _ _)) by lia. cbn [orb negb].
  rewrite app_assoc, drop_app_length' by done. unfold zlen at 1. by rewrite Nat2Z.id, read_siblings_encoded.
Qed.

Section operations.
Context `{CryptoOps} {L : LevelDB} {Laws : LevelDBLaws L}.
Context (ns : bytes) (Hns : zlen ns = NS).
#[local] Set Default Proof Using "Type + Laws + Hns".
#[local] Abbreviation holds := (KVIteration.holds (row_bytes ns)).
#[local] Abbreviation row_entry := (KVIteration.row_entry (row_bytes ns)).

(** ** What is read *)

Lemma size_u64 n : stored_size_ok n = true -> is_u64 n.
Proof using. intros Hn%stored_size_ok_range. unfold ENCRYPTED_CHUNK_MIN_STORED_BYTES, ENCRYPTED_CHUNK_MAX_STORED_BYTES, ENCRYPTED_CHUNK_HEADER_SIZE in Hn. ulia. Qed.
Lemma used_u64 M B : books_ok M B -> is_u64 (bytes_in_use M) /\ forall c n, bk_sizes M !! c = Some n -> n <= bytes_in_use M.
Proof using.
  intros Hok. assert (Hs : forall c n, bk_sizes M !! c = Some n -> 0 <= n).
  { intros c n Hn%(bk_size _ _ Hok). destruct Hn as [Hn _]. apply size_u64 in Hn. ulia. }
  rewrite (bk_count _ _ Hok). split; [|intros c n; apply (map_sum_lookup_le id); exact Hs].
  split; [apply map_sum_nonneg, Hs|]. rewrite <- (bk_count _ _ Hok). apply Hok.
Qed.
Lemma DecodeU64_le v : is_u64 v -> DecodeU64 (le_bytes 8 v) = Some v.
Proof using.
  intros Hv. unfold DecodeU64. rewrite zlen_le_bytes. cbn [Z.of_nat Z.ltb]. f_equal. rewrite subspan_all by apply zlen_le_bytes.
  rewrite le_val_le_bytes. apply Z.mod_small. ulia.
Qed.
Lemma stored_u64 m f x key (o : option Z) : KVIteration.holds (row_bytes ns) m f -> row_bytes ns x = key -> f x = le_bytes 8 <$> o ->
  (forall n, o = Some n -> is_u64 n) -> stored m key = o.
Proof using.
  intros [Hh _] <- Hf Ho. unfold stored. rewrite Hh, Hf. destruct o as [n|]; [|done]. cbn. by apply DecodeU64_le, Ho.
Qed.

Section reads.
Context (d : db) (B : gmap ChunkId bytes) (M : Books) (K : keeps ns (contents d) B M).
#[local] Set Default Proof Using "Type + Laws + Hns + K".
Lemma read_size c o : kv_Read d (ChunkKey ns c) = Ret o -> o = bk_sizes M !! c.
Proof.
  intros ->%kv_Read_stored. apply (stored_u64 _ _ (SizeRow c) _ _ (proj1 K) eq_refl eq_refl).
  intros n Hn. by apply size_u64, (bk_size _ _ (proj2 K) c).
Qed.
Lemma read_purge c o : kv_Read d (PurgeKey ns c) = Ret o -> o = bk_purges M !! c.
Proof.
  intros ->%kv_Read_stored. apply (stored_u64 _ _ (PurgeRow c) _ _ (proj1 K) eq_refl eq_refl).
  intros n Hn%(bk_purge _ _ (proj2 K)). by apply size_u64, (bk_size _ _ (proj2 K) c).
Qed.
Lemma read_tie p c (o : option bytes) : kv_Read d (PublicationChunkKey ns p c) = Ret o -> o = bk_ties M !! (p, c).
Proof.
  intros ->%kv_Read_stored. unfold stored. pose proof (proj1 (proj1 K) (TieRow p c)) as Er. cbn [row_bytes row_value] in Er. rewrite Er. clear Er.
  destruct (bk_ties M !! (p, c)) as [l|] eqn:E; [|done]. cbn. apply DecodeBytes_Encode.
  apply (bk_proof _ _ (proj2 K)) in E. unfold MAX_COMPACT_SIZE. lia.
Qed.
Lemma exists_row x key b : row_bytes ns x = key -> kv_Exists d key = Ret b -> b = bool_decide (is_Some (row_value M x)).
Proof. intros <- ->%kv_Exists_contents. by rewrite (proj1 (proj1 K) x). Qed.
(** A second look at what a read did not find finds nothing either. *)
Lemma nothing_there {T} x key (o : option T) encode b : row_bytes ns x = key -> row_value M x = encode <$> o ->
  (if bool_decide (is_Some o) then Ret false else kv_Exists d key) = Ret b -> b = false.
Proof.
  intros Hx Ho. case_bool_decide as Hs; [by intros [= <-]|]. intros ->%(exists_row x); [|done].
  apply bool_decide_eq_false_2. by rewrite Ho, fmap_is_Some.
Qed.
Lemma read_counter o : ReadCounter d (StorageBytesKey ns) = Ret o -> o = Some (bytes_in_use M).
Proof.
  intros E. unfold ReadCounter in E. walk_step E. apply (exists_row CounterRow) in Hret as ->; [|done]. cbn [row_value] in E.
  unfold bytes_in_use. destruct (bk_used M) as [u|] eqn:Eu; [|by injection E as <-]. cbn in E. apply kv_Read_stored in E as ->.
  eapply (stored_u64 _ _ CounterRow); [apply K|done|cbn [row_value]; by rewrite Eu|].
  intros n [= <-]. pose proof (proj1 (used_u64 M B (proj2 K))) as Hu. unfold bytes_in_use in Hu. by rewrite Eu in Hu.
Qed.

(** ** Admission *)

(** What [admission] finds, when it neither throws nor refuses. *)
Lemma admission_says s p c size meta r : fc_namespace s = ns -> admission s d p c size meta = Ret r ->
  (exists status, r = inl status /\ (status = CA_CONFLICT \/ status = CA_CAPACITY_EXCEEDED)) \/
  (r = inr (bool_decide (is_Some (bk_sizes M !! c)), bool_decide (is_Some (bk_ties M !! (p, c))), bytes_in_use M) /\
   (forall n, bk_sizes M !! c = Some n -> n = size) /\
   (forall m, bk_ties M !! (p, c) = Some m -> m = meta) /\
   (bk_sizes M !! c = None -> bytes_in_use M <= fc_capacity_bytes s /\ size <= fc_capacity_bytes s ⊖ bytes_in_use M)).
Proof.
  intros Es E. unfold admission in E. rewrite Es in E. cbv zeta in E. walk_step E. apply read_size in Hret as ->.
  walk_step E. apply (nothing_there (SizeRow c) _ _ (le_bytes 8)) in Hret as ->; [|done..].
  destruct (bool_decide (is_Some _) && _) eqn:Hconf in E; [injection E as <-; left; eauto|].
  walk_step E. apply read_tie in Hret as ->.
  destruct (_ && _) eqn:Hassoc in E; [injection E as <-; left; eauto|].
  walk_step E. apply (nothing_there (TieRow p c) _ _ EncodeBytes) in Hret as ->; [|done..].
  walk_step E. apply read_counter in Hret as ->.
  destruct (_ && _) eqn:Hroom in E; [injection E as <-; left; eauto|]. injection E as <-. right. split_and!; [done|..].
  - intros n En. rewrite En in Hconf. cbn in Hconf. apply negb_false_iff, bool_decide_eq_true in Hconf. by injection Hconf.
  - intros m Em. rewrite Em in Hassoc. cbn in Hassoc. apply orb_false_iff in Hassoc as [_ Ha].
    apply negb_false_iff, bool_decide_eq_true in Ha. by injection Ha.
  - intros En. rewrite En in Hroom. cbn in Hroom. lia.
Qed.
End reads.

(** A chunk is admitted: its size is counted once, whatever pending purge
    there was is dropped, and the publication is tied to it. *)
Definition spec_put (p : Hash256) (c : ChunkId) (size : Z) (meta : bytes) (M : Books) : Books := {|
  bk_network := bk_network M;
  bk_used := if bool_decide (is_Some (bk_sizes M !! c)) then bk_used M else Some (bytes_in_use M + size);
  bk_sizes := <[c := size]> (bk_sizes M);
  bk_ties := <[(p, c) := meta]> (bk_ties M);
  bk_purges := delete c (bk_purges M) |}.
Definition put_entries (p : Hash256) (c : ChunkId) (size : Z) (meta : bytes) (chunk_exists : bool) (used : Z) : list (row * option bytes) :=
  (if chunk_exists then [] else [(SizeRow c, Some (le_bytes 8 size)); (CounterRow, Some (le_bytes 8 (used + size)))]) ++
  [(PurgeRow c, None); (TieRow p c, Some (EncodeBytes meta))].

Lemma put_rows_spec p c size meta M x : (forall n, bk_sizes M !! c = Some n -> n = size) ->
  foldl set_row (row_value M) (put_entries p c size meta (bool_decide (is_Some (bk_sizes M !! c))) (bytes_in_use M)) x =
  row_value (spec_put p c size meta M) x.
Proof using.
  intros Hsize. unfold put_entries, spec_put.
  destruct (bk_sizes M !! c) as [n|] eqn:Ec; cbn [app foldl]; [rewrite bool_decide_true by eauto|rewrite bool_decide_false by (by intros [])];
    unfold set_row; cbn [foldl app fst snd]; destruct x as [| |c'|p' c'|c']; cbn [row_value bk_network bk_used bk_sizes bk_ties bk_purges];
    repeat case_bool_decide; simplify_eq; try done; try (by simplify_map_eq);
    try (by rewrite lookup_insert_ne by congruence); try (by rewrite lookup_delete_ne by congruence).
  destruct (decide (c = c')) as [<-|]; [by rewrite lookup_insert_eq, Ec, (Hsize n)|by rewrite lookup_insert_ne].
Qed.

(** What a batch of rows leaves. *)
Lemma write_holds d M M' rows ok d' : holds (contents d) (row_value M) ->
  (forall x, foldl set_row (row_value M) rows x = row_value M' x) ->
  kv_WriteBatch d (row_entry <$> rows) true = (ok, d') -> holds (contents d') (row_value (if ok then M' else M)).
Proof.
  intros Hh E Ew. unfold kv_WriteBatch in Ew. destruct ok; [|by rewrite (write_failed _ _ _ _ Ew)]. rewrite (write_ok _ _ _ _ Ew).
  eapply KVIteration.holds_ext; [exact E|]. by apply (KVIteration.holds_batch (row_bytes ns) (Hinj := row_bytes_inj ns Hns)).
Qed.

(** Blobs that are added in no other's place change nothing. *)
Lemma books_more_blobs M B B' : books_ok M B -> (forall c l, intact B c l -> intact B' c l) -> books_ok M B'.
Proof using. intros [H1 H2 H3 H4 H5 H6 H7 H8] HB. constructor; try done. intros c (l & Hl & Hs)%H8. exists l. split; [by apply HB|done]. Qed.
Lemma books_put p c l meta M B : books_ok M B -> intact B c l -> c <> ZERO -> zlen meta <= 8 + 32 * 32 ->
  (forall n, bk_sizes M !! c = Some n -> n = zlen l) ->
  (bk_sizes M !! c = None -> bytes_in_use M + zlen l <= MAX64) -> books_ok (spec_put p c (zlen l) meta M) B.
Proof using.
  intros Hok Hl Hc Hm Hsize Hroom. pose proof Hok as [H1 H2 H3 H4 H5 H6 H7 H8].
  assert (Hsizes : forall c', bk_sizes (spec_put p c (zlen l) meta M) !! c' = if decide (c' = c) then Some (zlen l) else bk_sizes M !! c').
  { intros c'. cbn [spec_put bk_sizes]. destruct (decide (c' = c)) as [->|]; [apply lookup_insert_eq|by apply lookup_insert_ne]. }
  assert (Htied : forall c', tied (spec_put p c (zlen l) meta M) c' <-> c' = c \/ tied M c').
  { intros c'. unfold tied. cbn [spec_put bk_ties]. split.
    - intros [p' Hp']. destruct (decide (c' = c)) as [|Hne]; [by left|right]. exists p'. by rewrite lookup_insert_ne in Hp' by congruence.
    - intros [->|[p' Hp']]; [exists p; by rewrite lookup_insert_eq|]. exists p'. rewrite lookup_insert_is_Some'. by right. }
  assert (Hcount : bytes_in_use (spec_put p c (zlen l) meta M) =
    if decide (is_Some (bk_sizes M !! c)) then bytes_in_use M else bytes_in_use M + zlen l).
  { unfold bytes_in_use, spec_put. cbn [bk_used]. destruct (decide (is_Some (bk_sizes M !! c))); [by rewrite bool_decide_true|by rewrite bool_decide_false]. }
  constructor.
  - intros c' n. rewrite Hsizes. destruct (decide (c' = c)); [|apply H1]. intros [= <-]. subst. split; [apply Hl|done].
  - rewrite Hcount, H2. cbn [spec_put bk_sizes]. destruct (decide (is_Some (bk_sizes M !! c))) as [Hex|Hex].
    + destruct Hex as [n En]. by rewrite insert_id by (rewrite En; f_equal; by apply Hsize).
    + rewrite map_sum_insert_new by (by apply eq_None_not_Some). unfold id. lia.
  - rewrite Hcount. destruct (decide (is_Some (bk_sizes M !! c))) as [Hex|Hex]; [done|]. by apply Hroom, eq_None_not_Some.
  - intros p' c' enc. cbn [spec_put bk_ties]. destruct (decide ((p', c') = (p, c))) as [[= -> ->]|Hne];
      [rewrite lookup_insert_eq; by intros [= <-]|rewrite lookup_insert_ne by done; apply H4].
  - intros c'. rewrite Htied, Hsizes. cbn [spec_put bk_purges]. intros Ht. destruct (decide (c' = c)) as [Ec|Ec]; [subst; split; [by eexists|apply lookup_delete_eq]|].
    rewrite lookup_delete_ne by done. destruct Ht as [|Ht]; [done|]. by apply H5.
  - intros c'. rewrite Hsizes, Htied. cbn [spec_put bk_purges]. destruct (decide (c' = c)) as [Ec|Ec]; [by left; left|]. rewrite lookup_delete_ne by done.
    intros [Ht|Hp]%H6; [by left; right|by right].
  - intros c' n. cbn [spec_put bk_purges]. intros [Hne Hn]%lookup_delete_Some. rewrite Hsizes. destruct (decide (c' = c)) as [Ec|Ec]; [done|]. by apply H7.
  - intros c' Ht%Htied. rewrite Hsizes. destruct (decide (c' = c)) as [Ec|Ec]; [subst; by exists l|]. destruct Ht as [|Ht]; [done|]. by apply H8.
Qed.

Section blobs.
Context {Bs : BlobStore} {BlobLaws : BlobStoreLaws Bs}.
#[local] Set Default Proof Using "Type + Laws + Hns + BlobLaws".
Implicit Types (s : FinalizedChunkStore) (b : blobs).

(** What an admission means: the publication is finalized and authorizes the
    chunk, the bytes are the chunk and are stored, the books say so, and a
    chunk that is new fits into the capacity. *)
Record admits s (lookup : PublicationLookup) p c l proof (M M' : Books) (b' : blobs) : Prop := {
  ad_authorized : exists publication, lookup p = Ret (Some publication) /\ VerifyChunkAuthorizationProof publication c proof = true;
  ad_chunk : ComputeChunkId l = c /\ c <> ZERO /\ IsNull p = false;
  ad_stored : intact (blob_contents b') c l;
  ad_books : M' = spec_put p c (zlen l) (EncodeProofMetadata proof) M;
  ad_room : bk_sizes M !! c = None -> bytes_in_use M' <= fc_capacity_bytes s;
  ad_again m : bk_ties M !! (p, c) = Some m -> m = EncodeProofMetadata proof;
}.

Lemma put_more_blobs b c l status b' c0 l0 : blob_Put b c l = (status, b') -> intact (blob_contents b) c0 l0 -> intact (blob_contents b') c0 l0.
Proof using BlobLaws.
  intros E Hi. destruct (blob_put _ _ _ _ _ E) as [->|(-> & Hc & Hs & Hsame)]; [done|].
  destruct Hi as (Hl & Hid & Hsz). split_and!; [|done..]. destruct (decide (c = c0)) as [<-|]; [|by rewrite lookup_insert_ne].
  rewrite lookup_insert_eq. f_equal. symmetry. by apply Hsame.
Qed.
Lemma Verify_siblings publication c proof : VerifyChunkAuthorizationProof publication c proof = true -> zlen proof.2 <= 32.
Proof using.
  unfold VerifyChunkAuthorizationProof, VerifyChunkAuthorizationPath. destruct (_ || _ || _); [done|].
  destruct (Z.ltb_spec 32 (zlen proof.2)); [|lia]. by rewrite !orb_true_r.
Qed.
Lemma spec_put_again p c size meta M B : books_ok M B -> bk_sizes M !! c = Some size -> bk_ties M !! (p, c) = Some meta ->
  spec_put p c size meta M = M.
Proof using.
  intros Hok Hs Ht. assert (Hp : bk_purges M !! c = None) by (apply (bk_tied _ _ Hok); by exists p; eexists).
  unfold spec_put. rewrite bool_decide_true, !insert_id, delete_id by eauto. by destruct M.
Qed.

Lemma PutChunk_keeps s d b p c l proof lookup space st d' b' M : fc_namespace s = ns -> is_u64 (fc_capacity_bytes s) ->
  keeps ns (contents d) (blob_contents b) M -> PutChunk s d b p c l proof lookup space = (st, d', b') ->
  exists M', keeps ns (contents d') (blob_contents b') M' /\ (if admitted st then admits s lookup p c l proof M M' b' else M' = M) /\
    forall c0 l0, intact (blob_contents b) c0 l0 -> intact (blob_contents b') c0 l0.
Proof.
  intros Es Hcap K E. unfold PutChunk in E.
  assert (Hsame : forall status, admitted status = false -> (status, d, b) = (st, d', b') ->
    exists M', keeps ns (contents d') (blob_contents b') M' /\ (if admitted st then admits s lookup p c l proof M M' b' else M' = M) /\
      forall c0 l0, intact (blob_contents b) c0 l0 -> intact (blob_contents b') c0 l0).
  { intros status Hst [= <- <- <-]. exists M. by rewrite Hst. }
  destruct (_ || _) eqn:Harg in E; [by eapply Hsame, E|]. cbv zeta in E.
  apply orb_false_iff in Harg as [[[Hnull Hzero%bool_decide_eq_false]%orb_false_iff Hsize%negb_false_iff]%orb_false_iff Hid%negb_false_iff%bool_decide_eq_true].
  destruct (lookup p) as [[publication|]|] eqn:Elook; [|by eapply Hsame, E..].
  destruct (VerifyChunkAuthorizationProof publication c proof) eqn:Ever; [|by eapply Hsame, E]. cbn [negb] in E.
  destruct (admission s d p c (zlen l) _) as [r|] eqn:Ead; [|by eapply Hsame, E].
  eapply (admission_says d _ M K) in Ead as [(status & -> & Hst)|(-> & Hold & Htie & Hroom)]; [by destruct Hst as [-> | ->]; eapply Hsame, E| |done].
  destruct (_ && _) eqn:Hdisk in E; [by eapply Hsame, E|]. clear Hdisk Hsame.
  destruct (blob_Put b c l) as [bst b1] eqn:Eput. pose proof (fun c0 l0 => put_more_blobs b c l bst b1 c0 l0 Eput) as Hmore. assert (K1 : keeps ns (contents d) (blob_contents b1) M).
  { split; [apply K|]. by eapply books_more_blobs; [apply K|]. }
  destruct (put_done bst) eqn:Hdone; [|destruct bst; try done; injection E as <- <- <-; exists M; done].
  assert (Hl : intact (blob_contents b1) c l) by (split_and!; [by eapply blob_put_done|done..]).
  assert (Hnew : bk_sizes M !! c = None -> bytes_in_use M + zlen l <= fc_capacity_bytes s).
  { intros [Hu Hf]%Hroom. pose proof (proj1 (used_u64 M _ (proj2 K))). rewrite sub64_small in Hf by ulia. lia. }
  assert (Hok : books_ok (spec_put p c (zlen l) (EncodeProofMetadata proof) M) (blob_contents b1)).
  { apply books_put; [apply K1|done|done| |done|].
    - rewrite zlen_EncodeProofMetadata. apply Verify_siblings in Ever. lia.
    - intros Hn%Hnew. ulia. }
  assert (Hadm : admits s lookup p c l proof M (spec_put p c (zlen l) (EncodeProofMetadata proof) M) b1).
  { constructor; [by eauto|done|done|done| |exact Htie]. intros Hn. specialize (Hnew Hn). unfold bytes_in_use at 1. cbn [spec_put bk_used].
    rewrite bool_decide_false by (by rewrite Hn; intros []). exact Hnew. }
  destruct (bool_decide_reflect (is_Some (bk_ties M !! (p, c)))) as [[m Hm]|Hm].
  { assert (spec_put p c (zlen l) (EncodeProofMetadata proof) M = M) as Em.
    { apply (spec_put_again _ _ _ _ _ _ (proj2 K1)); [|by rewrite Hm, (Htie m)].
      destruct (bk_tied _ _ (proj2 K1) c) as [[n Hn] _]; [exists p; by eexists|]. by rewrite Hn, (Hold n). }
    rewrite Em in *. destruct bst; try done; injection E as <- <- <-; by exists M. }
  destruct (kv_WriteBatch d _ true) as [ok d1] eqn:Ew.
  assert (Ew' : kv_WriteBatch d (row_entry <$> put_entries p c (zlen l) (EncodeProofMetadata proof)
    (bool_decide (is_Some (bk_sizes M !! c))) (bytes_in_use M)) true = (ok, d1)).
  { rewrite <- Ew. f_equal. unfold put_entries, admission_rows. rewrite Es. case_bool_decide as Hex; [done|].
    rewrite add64_small; [done|]. apply eq_None_not_Some, Hnew in Hex. pose proof (proj1 (used_u64 M _ (proj2 K))).
    pose proof (zlen_nonneg l). ulia. }
  eapply write_holds in Ew'; [|apply K1|intros x; by apply put_rows_spec].
  assert (Eres : ((if ok then CA_STORED else CA_STORAGE_ERROR), d1, b1) = (st, d', b')) by (rewrite <- E; by destruct bst).
  injection Eres as <- <- <-. destruct ok; eexists; (split_and!; [split; [exact Ew'|]|..]); first [exact Hok|exact Hadm|apply K1|done].
Qed.

(** ** Purging *)

(** A chunk whose purge is complete is out of the books. *)
Definition spec_purged (M : Books) (c : ChunkId) : Books := {|
  bk_network := bk_network M;
  bk_used := Some (bytes_in_use M - default 0 (bk_purges M !! c));
  bk_sizes := delete c (bk_sizes M);
  bk_ties := bk_ties M;
  bk_purges := delete c (bk_purges M) |}.

Lemma purge_metadata_says s d B M id n u : fc_namespace s = ns -> keeps ns (contents d) B M -> purge_metadata s d id = Ret (n, u) ->
  bk_purges M !! id = Some n /\ bk_sizes M !! id = Some n /\ u = bytes_in_use M.
Proof using Type Laws Hns.
  intros Es K E. unfold purge_metadata in E. rewrite Es in E. walk_step E. apply (read_counter d B M K) in Hret as ->.
  walk_step E. apply (read_purge d B M K) in Hret. destruct a as [size|]; [|done].
  walk_step E. apply (read_size d B M K) in Hret0. destruct a as [expected|]; [|done].
  destruct (_ || _) eqn:Hbad in E; [done|]. injection E as <- <-.
  assert (expected = size) as -> by (apply orb_false_iff in Hbad as [[Hbad _]%orb_false_iff _]; lia). done.
Qed.
(** A chunk that waits can be purged: the books never look corrupt. *)
Lemma purge_metadata_fine s d B M id n : fc_namespace s = ns -> keeps ns (contents d) B M -> bk_purges M !! id = Some n ->
  (forall key, exists v, db_Get d key = Ret v) -> purge_metadata s d id = Ret (n, bytes_in_use M).
Proof using Type Laws Hns.
  intros Es K Hn Hreads. pose proof (bk_purge _ _ (proj2 K) _ _ Hn) as Hsize.
  assert (HR : forall T (R : LocalRecord T) key, exists o, kv_Read (T := T) d key = Ret o).
  { intros T R key. unfold kv_Read, ReadRaw. destruct (Hreads (rec_Encode key)) as [[raw|] ->]; by eexists. }
  assert (HE : forall key, exists e, kv_Exists d key = Ret e).
  { intros key. unfold kv_Exists, ReadRaw. destruct (Hreads (rec_Encode key)) as [raw ->]. by eexists. }
  unfold purge_metadata. rewrite Es.
  assert (exists o, ReadCounter d (StorageBytesKey ns) = Ret o) as [o Eo].
  { unfold ReadCounter. destruct (HE (StorageBytesKey ns)) as [e ->]. cbn. destruct e; [apply HR|by eexists]. }
  rewrite Eo. apply (read_counter d _ M K) in Eo as ->. cbn [outcome_bind].
  destruct (HR Z _ (PurgeKey ns id)) as [o Eo]. rewrite Eo. apply (read_purge d _ M K) in Eo as ->. rewrite Hn. cbn [outcome_bind].
  destruct (HR Z _ (ChunkKey ns id)) as [o Eo]. rewrite Eo. apply (read_size d _ M K) in Eo as ->. rewrite Hsize. cbn [outcome_bind].
  rewrite Z.eqb_refl, (proj1 (bk_size _ _ (proj2 K) _ _ Hsize)). cbn [negb orb].
  rewrite (proj2 (Z.ltb_ge _ _)); [done|]. by apply (proj2 (used_u64 M _ (proj2 K)) id).
Qed.

(** The bytes of a chunk that waits can go; then the books forget it. *)
Lemma books_removed M B c : books_ok M B -> is_Some (bk_purges M !! c) -> books_ok M (delete c B).
Proof using.
  intros [H1 H2 H3 H4 H5 H6 H7 H8] [n Hn]. constructor; try done. intros c' Ht. destruct (H8 c' Ht) as (l & (Hl & Hrest) & Hs). exists l.
  split; [|done]. split; [|done]. rewrite lookup_delete_ne; [done|]. intros <-. apply H5 in Ht as [_ Ht]. congruence.
Qed.
Lemma books_purged M B c n : books_ok M B -> bk_purges M !! c = Some n -> books_ok (spec_purged M c) B.
Proof using.
  intros Hok Hn. pose proof (proj2 (used_u64 M B Hok) c n (bk_purge _ _ Hok c n Hn)) as Hle. pose proof Hok as [H1 H2 H3 H4 H5 H6 H7 H8].
  assert (Hu : bytes_in_use (spec_purged M c) = bytes_in_use M - n) by (unfold bytes_in_use at 1; cbn [spec_purged bk_used]; by rewrite Hn).
  assert (Hpos : 0 <= n) by (destruct (H1 c n (H7 c n Hn)) as [Hs _]; apply size_u64 in Hs; ulia).
  constructor; cbn [spec_purged bk_sizes bk_ties bk_purges].
  - intros c' n' [_ Hc]%lookup_delete_Some. by apply H1.
  - rewrite Hu, H2, (map_sum_delete id (bk_sizes M) c n) by (by apply H7). unfold id at 1. lia.
  - rewrite Hu. lia.
  - done.
  - intros c' Ht. assert (c <> c') by (intros <-; apply H5 in Ht as [_ Ht]; congruence). rewrite !lookup_delete_ne by done. by apply H5.
  - intros c' Hc. assert (c <> c') by (intros <-; rewrite lookup_delete_eq in Hc; by destruct Hc).
    rewrite lookup_delete_ne in Hc by done. rewrite lookup_delete_ne by done. by apply H6.
  - intros c' n' [Hne Hc]%lookup_delete_Some. rewrite lookup_delete_ne by done. by apply H7.
  - intros c' Ht. assert (c <> c') by (intros <-; apply H5 in Ht as [_ Ht]; congruence). rewrite lookup_delete_ne by done. by apply H8.
Qed.
Lemma purge_rows_spec M c n x : bk_purges M !! c = Some n ->
  foldl set_row (row_value M) [(PurgeRow c, None); (SizeRow c, None); (CounterRow, Some (le_bytes 8 (bytes_in_use M - n)))] x =
  row_value (spec_purged M c) x.
Proof using.
  intros Hn. cbn [foldl]. unfold set_row. cbn [fst snd].
  destruct x as [| |c'|p' c'|c']; cbn [row_value spec_purged bk_network bk_used bk_sizes bk_ties bk_purges]; repeat case_bool_decide; simplify_eq;
    try done; rewrite ?Hn; try done; by first [rewrite lookup_delete_eq|rewrite lookup_delete_ne by congruence].
Qed.
End blobs.
End operations.
End Chunks.
