(* ===== verification/ChunkPurges.v ===== *)
(** * Purging the provider's chunks

    The purges of [FinalizedChunkStore] on its books: which chunks a
    revocation leaves behind, in what order the waiting purges are tried, what
    a purge that fails halfway leaves, and the runs of the store. *)

From S2P Require Import Prelude.
From S2P Require Import Bytes.
From S2P Require Import Codec.
From S2P Require Import Utf8.
From S2P Require Import Crypto.
From S2P Require Import Payloads.
From S2P Require Import Merkle.
From S2P Require Import KVStore.
From S2P Require Import KVIteration.
From S2P Require Import ChunkRetention.
From S2P Require Import ChunkBlobs.
From S2P Require Import FinalizedChunks.
From S2P Require Import FinalizedChunksProofs.

Module Purges.
Import Chunks.

(** ** Revoking a publication *)

(** The chunks of a publication, those of all others, and the chunks nothing
    else needs. *)
Definition tied_by (p : Hash256) (M : Books) : gset ChunkId := set_map snd (filter (fun pc => pc.1 = p) (dom (bk_ties M))).
Definition tied_elsewhere (p : Hash256) (M : Books) : gset ChunkId := set_map snd (filter (fun pc => pc.1 <> p) (dom (bk_ties M))).
Definition orphans (p : Hash256) (M : Books) : gset ChunkId := tied_by p M ∖ tied_elsewhere p M.
Definition spec_revoke (p : Hash256) (M : Books) : Books := {|
  bk_network := bk_network M;
  bk_used := bk_used M;
  bk_sizes := bk_sizes M;
  bk_ties := filter (fun kv => kv.1.1 <> p) (bk_ties M);
  bk_purges := filter (fun kv => kv.1 ∈ orphans p M) (bk_sizes M) ∪ bk_purges M |}.

Lemma elem_of_tied_by p M c : c ∈ tied_by p M <-> is_Some (bk_ties M !! (p, c)).
Proof.
  unfold tied_by. rewrite elem_of_map. split.
  - intros ([p' c'] & -> & [E Hd]%elem_of_filter). cbn in *. subst. by apply elem_of_dom.
  - intros Hs. exists (p, c). split; [done|]. apply elem_of_filter. split; [done|]. by apply elem_of_dom.
Qed.
Lemma elem_of_tied_elsewhere p M c : c ∈ tied_elsewhere p M <-> exists p', p' <> p /\ is_Some (bk_ties M !! (p', c)).
Proof.
  unfold tied_elsewhere. rewrite elem_of_map. split.
  - intros ([p' c'] & -> & [E Hd]%elem_of_filter). cbn in *. exists p'. split; [done|]. by apply elem_of_dom.
  - intros (p' & Hne & Hs). exists (p', c). split; [done|]. apply elem_of_filter. split; [done|]. by apply elem_of_dom.
Qed.
Lemma lookup_revoked_tie p M p' c : bk_ties (spec_revoke p M) !! (p', c) = if decide (p' = p) then None else bk_ties M !! (p', c).
Proof.
  cbn [spec_revoke bk_ties]. destruct (decide (p' = p)) as [->|Hne].
  - apply map_lookup_filter_None_2. right. intros v _. cbn. tauto.
  - destruct (bk_ties M !! (p', c)) as [v|] eqn:E; [by apply map_lookup_filter_Some_2|apply map_lookup_filter_None_2; by left].
Qed.
Lemma tied_revoked p M c : tied (spec_revoke p M) c <-> c ∈ tied_elsewhere p M.
Proof.
  rewrite elem_of_tied_elsewhere. unfold tied. split; intros [p' Hp]; exists p'.
  - rewrite lookup_revoked_tie in Hp. destruct (decide (p' = p)); [by destruct Hp|done].
  - destruct Hp as [Hne Hp]. rewrite lookup_revoked_tie. by destruct (decide (p' = p)).
Qed.
Lemma lookup_revoked_purge p M c : bk_purges (spec_revoke p M) !! c =
  if decide (c ∈ orphans p M) then match bk_sizes M !! c with Some n => Some n | None => bk_purges M !! c end else bk_purges M !! c.
Proof.
  cbn [spec_revoke bk_purges]. rewrite lookup_union. destruct (decide (c ∈ orphans p M)) as [Ho|Ho].
  - destruct (bk_sizes M !! c) as [n|] eqn:E.
    + rewrite (map_lookup_filter_Some_2 _ _ c n) by done. by destruct (bk_purges M !! c).
    + rewrite map_lookup_filter_None_2 by (by left). by destruct (bk_purges M !! c).
  - rewrite map_lookup_filter_None_2 by (right; intros n _; exact Ho). by destruct (bk_purges M !! c).
Qed.

Lemma books_revoke `{CryptoOps} p M B : books_ok M B -> books_ok (spec_revoke p M) B.
Proof.
  intros [H1 H2 H3 H4 H5 H6 H7 H8].
  assert (Hsub : forall c, tied (spec_revoke p M) c -> tied M c).
  { intros c (p' & _ & Hp)%tied_revoked%elem_of_tied_elsewhere. by exists p'. }
  constructor; try done.
  - intros p' c enc. rewrite lookup_revoked_tie. destruct (decide (p' = p)); [done|apply H4].
  - intros c Ht. split; [apply H5, Hsub, Ht|]. rewrite lookup_revoked_purge, decide_False; [by apply H5, Hsub|].
    apply tied_revoked in Ht. unfold orphans. by intros [_ Ho]%elem_of_difference.
  - intros c Hc. rewrite tied_revoked, lookup_revoked_purge. destruct (decide (c ∈ orphans p M)) as [Ho|Ho].
    + right. cbn [spec_revoke bk_sizes] in Hc. destruct Hc as [n ->]. by eexists.
    + apply H6 in Hc as [[p' Hp]|Hp]; [|by right]. left. apply elem_of_tied_elsewhere. destruct (decide (p' = p)) as [->|Hne]; [|by exists p'].
      apply elem_of_tied_elsewhere. apply elem_of_tied_by in Hp. destruct (decide (c ∈ tied_elsewhere p M)) as [|Hn]; [done|].
      exfalso. apply Ho. unfold orphans. by apply elem_of_difference.
  - intros c n. rewrite lookup_revoked_purge. destruct (decide _); [|apply H7]. cbn [spec_revoke bk_sizes].
    destruct (bk_sizes M !! c) eqn:E; [done|]. intros Hp%H7. congruence.
  - intros c Ht%Hsub. by apply H8.
Qed.

(** The rows that a revocation writes. *)
Definition revoke_entries (M : Books) (p : Hash256) (shared : gset ChunkId) (c : ChunkId) : list (row * option bytes) :=
  (TieRow p c, None) ::
  match (if decide (c ∈ shared) then None else bk_sizes M !! c) with Some n => [(PurgeRow c, Some (le_bytes 8 n))] | None => [] end.
Lemma revoke_entries_rows M p shared chunks : forall f x, foldl set_row f (mjoin (revoke_entries M p shared <$> chunks)) x =
  match x with
  | TieRow p' c => if bool_decide (p' = p) && bool_decide (c ∈ chunks) then None else f x
  | PurgeRow c => if bool_decide (c ∈ chunks) && negb (bool_decide (c ∈ shared))
      then match bk_sizes M !! c with Some n => Some (le_bytes 8 n) | None => f x end else f x
  | _ => f x
  end.
Proof.
  induction chunks as [|c chunks IH]; intros f x.
  - destruct x as [| |c|p' c|c]; cbn; by rewrite ?andb_false_r.
  - rewrite fmap_cons, mjoin_cons, foldl_app, IH.
    assert (Hin : forall c', bool_decide (c' ∈ c :: chunks) = bool_decide (c' = c) || bool_decide (c' ∈ chunks)).
    { intros c'. by rewrite (bool_decide_ext _ _ (elem_of_cons chunks c' c)), bool_decide_or. }
    destruct x as [| |c'|p' c'|c']; rewrite ?Hin; (destruct (decide (c ∈ shared)); [|destruct (bk_sizes M !! c) eqn:Ec]); unfold revoke_entries; rewrite ?(decide_True (P := c ∈ shared)), ?(decide_False (P := c ∈ shared)), ?Ec by done;
      unfold set_row; cbn [foldl]; cbn [fst snd]; repeat case_bool_decide; simplify_eq; cbn [orb andb negb]; by rewrite ?Ec.
Qed.

Section operations.
Context `{CryptoOps} {L : LevelDB} {Laws : LevelDBLaws L} {Bs : BlobStore} {BlobLaws : BlobStoreLaws Bs}.
Context (ns : bytes) (Hns : zlen ns = NS).
#[local] Set Default Proof Using "Type + Laws + BlobLaws + Hns".
#[local] Abbreviation row_entry := (KVIteration.row_entry (row_bytes ns)).
#[local] Instance rows_inj : Inj (=) (=) (row_bytes ns) := row_bytes_inj ns Hns.
#[local] Instance TieRow_inj p : Inj (=) (=) (TieRow p).
Proof using. by intros ? ? [= ->]. Qed.
#[local] Instance PurgeRow_inj : Inj (=) (=) PurgeRow.
Proof using. by intros ? ? [= ->]. Qed.
#[local] Instance tie_row_inj : Inj (=) (=) (fun pc : Hash256 * ChunkId => TieRow pc.1 pc.2).
Proof using. by intros [] [] [= -> ->]. Qed.
Implicit Types (s : FinalizedChunkStore) (d : db) (b : blobs).

(** ** What the scans find *)

Lemma drop_suffix (l r : bytes) n : length r = n -> drop (length (l ++ r) - n) (l ++ r) = r.
Proof using. intros <-. apply drop_app_length'. rewrite length_app. lia. Qed.
Lemma key_of_tie p c : row_bytes ns (TieRow p c) = (Associations ns ++ GetHex p ++ str "/") ++ GetHex c.
Proof using. cbn [row_bytes]. unfold PublicationChunkKey. by rewrite <- !app_assoc. Qed.

(** The chunks of a publication. *)
Lemma publication_scan s d B M p out : fc_namespace s = ns -> keeps ns (contents d) B M ->
  ForEachStringPrefixRaw d (purge_prefix s p) (zlen (purge_prefix s p) + 64) (tie_visitor (purge_prefix s p)) [] = (Ret tt, out) ->
  NoDup out /\ forall c, c ∈ out <-> c ∈ tied_by p M.
Proof using Type Laws Hns.
  intros Es [Hh _] E. unfold purge_prefix in E. rewrite Es in E.
  assert (Hz : zlen (Associations ns ++ GetHex p ++ str "/") = 160) by (unfold Associations; rewrite !zlen_app, zlen_GetHex, Hns; done).
  rewrite Hz in E. apply for_each_prefix_visits in E.
  destruct (prefix_rows_holds (row_bytes ns) (TieRow p) _ (publication_prefix ns Hns p) _ _ Hh) as (l & El & Hnd & Hl).
  change (160 + 64) with 224 in E. rewrite El in E.
  apply (visits_fold _ (chunk_row_small ns Hns) (TieRow p) _ _ (fun (out : list ChunkId) c => out ++ [c])) in E as ->.
  - assert (Hf : forall l' acc, foldl (fun (out : list ChunkId) c => out ++ [c]) acc l' = acc ++ l').
    { clear. induction l' as [|c l' IH]; intros acc; cbn; [by rewrite app_nil_r|]. by rewrite IH, <- app_assoc. }
    rewrite Hf. cbn [app]. split; [done|]. intros c. rewrite elem_of_tied_by, list_elem_of_fmap. split.
    + intros ([c' v] & -> & Hin%Hl). cbn [row_value fst] in *. destruct (bk_ties M !! _); [by eexists|done].
    + intros [v Hv]. exists (c, EncodeBytes v). split; [done|]. apply Hl. cbn [row_value]. by rewrite Hv.
  - intros c s0 v s' E'. unfold tie_visitor in E'. rewrite key_of_tie, drop_app_length, ParseHex_GetHex in E'. by injection E' as <-.
Qed.

(** The chunks among those that other publications are tied to. *)
Definition shared_step (p : Hash256) (revoked : gset ChunkId) (shared : gset ChunkId) (pc : Hash256 * ChunkId) : gset ChunkId :=
  if decide (pc.1 = p) then shared else if decide (pc.2 ∈ revoked) then {[pc.2]} ∪ shared else shared.
Lemma shared_steps p revoked pcs : forall shared c, c ∈ foldl (shared_step p revoked) shared pcs <->
  c ∈ shared \/ (c ∈ revoked /\ exists p', p' <> p /\ (p', c) ∈ pcs).
Proof using.
  induction pcs as [|[p0 c0] pcs IH]; intros shared c; cbn [foldl].
  - split; [by left|]. intros [|(_ & p' & _ & []%elem_of_nil)]; done.
  - assert (Hcons : (exists p', p' <> p /\ (p', c) ∈ (p0, c0) :: pcs) <-> (p0 <> p /\ c = c0) \/ exists p', p' <> p /\ (p', c) ∈ pcs).
    { setoid_rewrite elem_of_cons. split; [intros (p' & Hne & [[= -> ->]|Hin]); [by left|right; by exists p']|].
      intros [[Hne ->]|(p' & Hne & Hin)]; [exists p0; auto|exists p'; auto]. }
    rewrite IH, Hcons. unfold shared_step. cbn [fst snd]. destruct (decide (p0 = p)); [tauto|].
    destruct (decide (c0 ∈ revoked)); [rewrite elem_of_union, elem_of_singleton|]; (destruct (decide (c = c0)); [subst|]); tauto.
Qed.
Lemma tie_has_prefix p p' c : has_prefix (Associations ns ++ GetHex p ++ str "/") (row_bytes ns (TieRow p' c)) = bool_decide (p' = p).
Proof using.
  apply eq_true_iff_eq. rewrite bool_decide_eq_true, has_prefix_split, key_of_tie. split; [|intros ->; by eexists].
  intros [rest E]. rewrite <- !app_assoc in E. apply (inj (app _)) in E. apply app_inj_1 in E as [E _]; [by apply (inj GetHex)|by rewrite !length_GetHex].
Qed.
Lemma length_arr_hex (c : ChunkId) : length (GetHex c) = 64%nat.
Proof using. apply length_GetHex. Qed.
Lemma shared_scan s d B M p revoked out : fc_namespace s = ns -> keeps ns (contents d) B M ->
  ForEachStringPrefixRaw d (Associations (fc_namespace s)) (zlen (purge_prefix s p) + 64) (shared_visitor (purge_prefix s p) revoked) ∅ = (Ret tt, out) ->
  forall c, c ∈ out <-> c ∈ revoked /\ c ∈ tied_elsewhere p M.
Proof using Type Laws Hns.
  intros Es [Hh _] E. unfold purge_prefix in E. rewrite Es in E.
  assert (Hz : zlen (Associations ns ++ GetHex p ++ str "/") = 160) by (unfold Associations; rewrite !zlen_app, zlen_GetHex, Hns; done).
  rewrite Hz in E. apply for_each_prefix_visits in E.
  destruct (prefix_rows_holds (row_bytes ns) (fun pc => TieRow pc.1 pc.2) _ (tie_prefix ns Hns) _ _ Hh) as (l & El & Hnd & Hl).
  change (160 + 64) with 224 in E. rewrite El in E.
  apply (visits_fold _ (chunk_row_small ns Hns) (fun pc => TieRow pc.1 pc.2) _ _ (shared_step p revoked)) in E as ->.
  - intros c. rewrite shared_steps, elem_of_tied_elsewhere. split.
    + intros [[]%elem_of_empty|(Hr & p' & Hne & Hin)]. split; [done|]. exists p'. split; [done|].
      apply list_elem_of_fmap in Hin as ([pc v] & Epc & Hin%Hl). cbn [fst] in Epc. subst. cbn [row_value fst snd] in Hin.
      destruct (bk_ties M !! _); [by eexists|done].
    + intros (Hr & p' & Hne & [v Hv]). right. split; [done|]. exists p'. split; [done|]. apply list_elem_of_fmap. exists (p', c, EncodeBytes v).
      split; [done|]. apply Hl. cbn [row_value fst snd]. by rewrite Hv.
  - intros [p' c] s0 v s' E'. unfold shared_visitor, shared_step in *. cbn [fst snd] in *. rewrite tie_has_prefix in E'.
    destruct (decide (p' = p)) as [Hp|Hp]; [rewrite bool_decide_true in E' by done; by injection E'|rewrite bool_decide_false in E' by done].
    rewrite key_of_tie, drop_suffix, ParseHex_GetHex in E' by apply length_arr_hex. injection E' as <-.
    destruct (decide (c ∈ revoked)); [by rewrite bool_decide_true|by rewrite bool_decide_false].
Qed.

(** ** The purges *)

(** A purge leaves the store on books from which some of the waiting chunks
    are gone, as many as it reports. *)
Record purged s b (M : Books) (completed : Z) (r : outcome Z) s' (d' : db) b' (gone : list ChunkId) : Prop := {
  pg_waiting : Forall (fun c => is_Some (bk_purges M !! c)) gone;
  pg_once : NoDup gone;
  pg_keeps : keeps ns (contents d') (blob_contents b') (foldl spec_purged M gone);
  pg_store : fc_namespace s' = ns /\ fc_capacity_bytes s' = fc_capacity_bytes s;
  pg_count n : r = Ret n -> n = completed + zlen gone;
  pg_used : bytes_in_use (foldl spec_purged M gone) <= bytes_in_use M;
  pg_blobs c l : bk_purges M !! c = None -> blob_contents b !! c = Some l -> blob_contents b' !! c = Some l;
}.
Lemma purges_spec_purged M c c' : bk_purges (spec_purged M c) !! c' = if decide (c = c') then None else bk_purges M !! c'.
Proof using. cbn [spec_purged bk_purges]. destruct (decide (c = c')) as [<-|]; [apply lookup_delete_eq|by apply lookup_delete_ne]. Qed.
Lemma purged_nothing s d b M completed r s' : fc_namespace s' = ns -> fc_capacity_bytes s' = fc_capacity_bytes s ->
  keeps ns (contents d) (blob_contents b) M -> (forall n, r = Ret n -> n = completed) -> purged s b M completed r s' d b [].
Proof using. intros Hn Hc K Hr. constructor; [constructor|constructor|done|done| |done|done]. intros n Hn0. rewrite (Hr n Hn0), zlen_nil. lia. Qed.
Lemma purge_loop_keeps pending : forall s d b completed M r s' d' b', fc_namespace s = ns -> keeps ns (contents d) (blob_contents b) M ->
  purge_loop s d b pending completed = (r, s', d', b') -> exists gone, purged s b M completed r s' d' b' gone /\ gone `sublist_of` pending.
Proof.
  induction pending as [|c pending IH]; intros s d b completed M r s' d' b' Es K E; cbn [purge_loop] in E.
  { injection E as <- <- <- <-. exists []. split; [|done]. apply purged_nothing; try done. by intros n [= ->]. }
  change (fc_capacity_bytes s) with (fc_capacity_bytes (set_cursor s c)). change (fc_namespace s) with (fc_namespace (set_cursor s c)) in Es.
  assert (Hc : forall gone, purged (set_cursor s c) b M completed r s' d' b' gone -> purged s b M completed r s' d' b' gone)
    by (intros gone [H1 H2 H3 H4 H5 H6 H7]; by constructor).
  set (s1 := set_cursor s c) in *.
  destruct (purge_metadata s1 d c) as [[n u]|] eqn:Em.
  2: { injection E as <- <- <- <-. exists []. split; [apply Hc, purged_nothing; done|apply sublist_nil_l]. }
  apply (purge_metadata_says ns Hns s1 d _ M c n u Es K) in Em as (Hp & Hs & ->).
  destruct (blob_Remove b c) as [[] b1] eqn:Er.
  - apply blob_removed in Er. assert (K1 : keeps ns (contents d) (blob_contents b1) M).
    { split; [apply K|]. rewrite Er. apply books_removed; [apply K|by eexists]. }
    destruct (kv_WriteBatch d _ true) as [ok d1] eqn:Ew.
    assert (Hsub : bytes_in_use M ⊖ n = bytes_in_use M - n).
    { pose proof (used_u64 M _ (proj2 K)) as [Hu Hle]. apply Hle in Hs as Hn. apply (bk_size _ _ (proj2 K)) in Hs as [Hs _]. apply size_u64 in Hs. apply sub64_small; ulia. }
    assert (Ew' : kv_WriteBatch d (row_entry <$> [(PurgeRow c, None); (SizeRow c, None); (CounterRow, Some (le_bytes 8 (bytes_in_use M - n)))]) true = (ok, d1)).
    { rewrite <- Ew. f_equal. unfold purge_rows. by rewrite Es, Hsub. }
    eapply (write_holds ns Hns d M (spec_purged M c)) in Ew'; [|apply K1|intros x; by apply purge_rows_spec].
    destruct ok.
    + eapply (IH _ _ _ _ (spec_purged M c)) in E as (gone & [H1 H2 H3 H4 H5 H6 H7] & Hsub'); [|done|split; [done|]; eapply books_purged; [apply K1|done]].
      exists (c :: gone). split; [|by apply sublist_skip]. constructor.
      * constructor; [by eexists|]. eapply Forall_impl; [exact H1|]. intros c'. cbv beta. rewrite purges_spec_purged. by destruct (decide (c = c')).
      * constructor; [|done]. intros Hin. rewrite Forall_forall in H1. specialize (H1 c Hin). cbv beta in H1. rewrite purges_spec_purged, decide_True in H1 by done. by destruct H1.
      * exact H3.
      * done.
      * intros m ->%H5. rewrite zlen_cons. lia.
      * cbn [foldl]. etransitivity; [exact H6|]. 
        change (bytes_in_use (spec_purged M c)) with (bytes_in_use M - default 0 (bk_purges M !! c)). rewrite Hp. unfold default.
        apply (bk_size _ _ (proj2 K)) in Hs as [Hs _]. apply size_u64 in Hs. unfold id. ulia.
      * intros c' l Hc' Hl. assert (c <> c') by congruence. apply H7; [by rewrite purges_spec_purged, decide_False|]. by rewrite Er, lookup_delete_ne.
    + injection E as <- <- <- <-. exists []. split; [|apply sublist_nil_l]. apply Hc. constructor; [constructor|constructor|split; [exact Ew'|apply K1]|done|done|done|].
      intros c' l Hc' Hl. rewrite Er, lookup_delete_ne; [done|congruence].
  - apply blob_kept in Er. eapply IH in E as (gone & Hg & Hsub'); [|done|by rewrite Er]. exists gone. split; [|by apply sublist_cons].
    apply Hc. destruct Hg as [H1 H2 H3 H4 H5 H6 H7]. constructor; try done. by rewrite <- Er.
Qed.

Lemma Retry_keeps s d b max M r s' d' b' : fc_namespace s = ns -> keeps ns (contents d) (blob_contents b) M ->
  RetryPendingPurgesLocked s d b max = (r, s', d', b') -> exists gone, purged s b M 0 r s' d' b' gone.
Proof.
  intros Es K E. unfold RetryPendingPurgesLocked in E. cbv zeta in E. destruct (outcome_bind _ _) as [pending|].
  - eapply purge_loop_keeps in E as (gone & Hg & _); [by exists gone|done..].
  - injection E as <- <- <- <-. exists []. by apply purged_nothing.
Qed.

(** A revocation finds the chunks that the publication leaves behind. *)
Lemma revoke_rows_says s d B M p shared chunks rows : fc_namespace s = ns -> keeps ns (contents d) B M ->
  revoke_rows s d p shared chunks = Ret rows -> rows = row_entry <$> mjoin (revoke_entries M p shared <$> chunks).
Proof.
  intros Es K. revert rows. induction chunks as [|c chunks IH]; intros rows E; cbn [revoke_rows] in E; [by injection E as <-|].
  rewrite Es in E. walk_step E. walk_step E. injection E as <-. rewrite fmap_cons, mjoin_cons, fmap_app, <- (IH _ eq_refl).
  assert (a = if decide (c ∈ shared) then None else bk_sizes M !! c) as ->.
  { case_bool_decide as Hc; [injection Hret as <-; by rewrite decide_True|]. rewrite decide_False by done. by apply (read_size ns Hns d B M K). }
  unfold revoke_entries. cbn [fmap list_fmap app]. f_equal. by destruct (if decide (c ∈ shared) then _ else _).
Qed.
Lemma revocation_says s d B M p o : fc_namespace s = ns -> keeps ns (contents d) B M -> revocation s d p = Ret o ->
  match o with
  | None => tied_by p M = ∅
  | Some rows => exists entries, rows = row_entry <$> entries /\
      forall x, foldl set_row (row_value M) entries x = row_value (spec_revoke p M) x
  end.
Proof.
  intros Es K E. unfold revocation in E. cbv zeta in E.
  destruct (ForEachStringPrefixRaw d (purge_prefix s p) _ _ _) as [[[]|] chunks] eqn:E1; [|done]. cbn [outcome_bind] in E.
  apply (publication_scan s d B M) in E1 as [Hnd Hin]; [|done..].
  case_bool_decide as Hnil; [injection E as <-; subst; apply set_eq; intros c; rewrite <- Hin; by rewrite elem_of_nil, elem_of_empty|].
  destruct (ForEachStringPrefixRaw d _ _ _ _) as [[[]|] shared] eqn:E2; [|done]. cbn [outcome_bind] in E.
  pose proof (shared_scan s d B M p _ _ Es K E2) as Hsh. walk_step E. injection E as <-.
  apply (revoke_rows_says s d B M) in Hret as ->; [|done..]. eexists. split; [done|]. intros x. rewrite revoke_entries_rows.
  destruct x as [| |c|p' c|c]; [done..| |]; cbn [row_value].
  - rewrite lookup_revoked_tie. destruct (decide (p' = p)) as [->|Hp]; [|by rewrite bool_decide_false]. rewrite bool_decide_true by done.
    case_bool_decide as Hc; [done|]. rewrite Hin, elem_of_tied_by, <- eq_None_not_Some in Hc. by rewrite Hc.
  - assert (Ho : bool_decide (c ∈ chunks) && negb (bool_decide (c ∈ shared)) = bool_decide (c ∈ orphans p M)).
    { unfold orphans. apply eq_true_iff_eq. rewrite andb_true_iff, negb_true_iff, !bool_decide_eq_true, bool_decide_eq_false.
      rewrite Hsh, elem_of_list_to_set, elem_of_difference, Hin. tauto. }
    rewrite Ho, lookup_revoked_purge. destruct (decide (c ∈ orphans p M)); [rewrite bool_decide_true by done|by rewrite bool_decide_false].
    by destruct (bk_sizes M !! c).
Qed.

(** Revoking a publication unties its chunks and purges some of those that wait then. *)
Lemma PurgePublication_keeps s d b p M r s' d' b' : fc_namespace s = ns -> keeps ns (contents d) (blob_contents b) M ->
  PurgePublication s d b p = (r, s', d', b') ->
  exists M1 gone, (M1 = M \/ M1 = spec_revoke p M) /\ (forall n, r = Ret n -> IsNull p = false -> M1 = spec_revoke p M) /\
    purged s b M1 0 r s' d' b' gone.
Proof.
  intros Es K E. unfold PurgePublication in E.
  destruct (IsNull p) eqn:Hn; [injection E as <- <- <- <-; exists M, []; split_and!; [by left|done|]; apply purged_nothing; try done; by intros n [= <-]|].
  assert (Hfail : (Throw, s, d, b) = (r, s', d', b') -> exists M1 gone, (M1 = M \/ M1 = spec_revoke p M) /\
    (forall n, r = Ret n -> false = false -> M1 = spec_revoke p M) /\ purged s b M1 0 r s' d' b' gone).
  { intros [= <- <- <- <-]. exists M, []. split_and!; [by left|done|by apply purged_nothing]. }
  destruct (revocation s d p) as [[rows|]|] eqn:Er; [| |by apply Hfail].
  - apply (revocation_says s d (blob_contents b) M) in Er as (entries & -> & Hrows); [|done..].
    destruct (kv_WriteBatch d _ true) as [ok d1] eqn:Ew. eapply (write_holds ns Hns d M) in Ew; [|apply K|exact Hrows].
    destruct ok.
    + eapply (Retry_keeps _ _ _ _ (spec_revoke p M)) in E as [gone Hg]; [|done|split; [done|]; by apply books_revoke, K].
      exists (spec_revoke p M), gone. split_and!; [by right|done|done].
    + injection E as <- <- <- <-. exists M, []. split_and!; [by left|done|]. apply purged_nothing; try done. split; [done|apply K].
  - apply (revocation_says s d (blob_contents b) M) in Er; [|done..]. injection E as <- <- <- <-.
    assert (Hsame : spec_revoke p M = M).
    { assert (Ht : bk_ties (spec_revoke p M) = bk_ties M).
      { apply map_eq. intros [p' c]. rewrite lookup_revoked_tie. destruct (decide (p' = p)) as [->|]; [|done]. symmetry.
        apply eq_None_not_Some. rewrite <- elem_of_tied_by, Er. apply not_elem_of_empty. }
      assert (Hp : bk_purges (spec_revoke p M) = bk_purges M).
      { apply map_eq. intros c. rewrite lookup_revoked_purge, decide_False; [done|]. unfold orphans. rewrite Er.
        by intros [[]%elem_of_empty _]%elem_of_difference. }
      unfold spec_revoke in *. cbn [bk_ties bk_purges] in *. rewrite Ht, Hp. by destruct M. }
    exists M, []. split_and!; [by left|by rewrite Hsame|]. apply purged_nothing; try done. by intros n [= <-].
Qed.

(** ** Runs *)

(** The calls that change the store or its blobs; other components put blobs
    into the same blob store. *)
Inductive call : Type :=
| CallPut (p : Hash256) (c : ChunkId) (l : bytes) (proof : ChunkAuthorizationProof) (lookup : PublicationLookup) (space : option (Z * Z))
| CallRetry (max_chunks : Z)
| CallPurge (p : Hash256)
| CallPurgeRevoked (lookup : PublicationLookup)
| CallEvict (c : ChunkId)
| CallBlob (c : ChunkId) (l : bytes).
Definition world : Type := FinalizedChunkStore * db * blobs.
Definition do_call (w : world) (e : call) : world :=
  let '(s, d, b) := w in
  match e with
  | CallPut p c l proof lookup space => let '(_, d, b) := PutChunk s d b p c l proof lookup space in (s, d, b)
  | CallRetry max_chunks => let '(_, s, d, b) := RetryPendingPurges s d b max_chunks in (s, d, b)
  | CallPurge p => let '(_, s, d, b) := PurgePublication s d b p in (s, d, b)
  | CallPurgeRevoked lookup => let '(_, s, d, b) := PurgeRevokedPublications s d b lookup in (s, d, b)
  | CallEvict c => let (_, b) := RemoveUnlessAdmitted s d b c in (s, d, b)
  | CallBlob c l => let (_, b) := blob_Put b c l in (s, d, b)
  end.
(** The call purges no tie of the publication. *)
Definition spares (p : Hash256) (e : call) : Prop :=
  match e with
  | CallPurge p' => p' <> p
  | CallPurgeRevoked lookup => lookup p <> Ret None
  | _ => True
  end.

(** The store is in order, on some books: it uses no more than its capacity,
    or than the [opening] bytes it was opened with. *)
Context (opening : Z).
Definition in_order (w : world) (M : Books) : Prop :=
  let '(s, d, b) := w in (fc_namespace s = ns /\ is_u64 (fc_capacity_bytes s) /\ keeps ns (contents d) (blob_contents b) M) /\
    bytes_in_use M <= Z.max opening (fc_capacity_bytes s).
(** What a step keeps of a tie: it is there, and so are the bytes. *)
Definition still_tied (p : Hash256) (w : world) (M : Books) (w' : world) (M' : Books) : Prop :=
  forall c m, bk_ties M !! (p, c) = Some m -> bk_ties M' !! (p, c) = Some m /\
    forall l, blob_contents w.2 !! c = Some l -> ComputeChunkId l = c -> stored_size_ok (zlen l) = true -> blob_contents w'.2 !! c = Some l.
Definition step_ok (spared : Hash256 -> Prop) (w : world) (M : Books) (w' : world) : Prop :=
  exists M', in_order w' M' /\ forall p, spared p -> still_tied p w M w' M'.

Lemma still_tied_refl p w M : still_tied p w M w M.
Proof using. by split. Qed.
Lemma still_tied_trans p w M w1 M1 w' M' : still_tied p w M w1 M1 -> still_tied p w1 M1 w' M' -> still_tied p w M w' M'.
Proof using. intros H1 H2 c m Hm. apply H1 in Hm as [Hm H1']. apply H2 in Hm as [Hm H2']. split; [done|]. auto. Qed.
Lemma ties_purged gone : forall M, bk_ties (foldl spec_purged M gone) = bk_ties M.
Proof using. induction gone as [|c gone IH]; intros M; [done|]. cbn [foldl]. by rewrite IH. Qed.
Lemma purged_still_tied s d b M completed r s' d' b' gone p : books_ok M (blob_contents b) ->
  purged s b M completed r s' d' b' gone -> still_tied p (s, d, b) M (s', d', b') (foldl spec_purged M gone).
Proof using.
  intros Hok Hp c m Hm. rewrite ties_purged. split; [done|]. cbn [snd]. intros l Hl _ _. eapply (pg_blobs _ _ _ _ _ _ _ _ _ Hp); [|done].
  apply (bk_tied _ _ Hok). exists p. by eexists.
Qed.
Lemma purged_in_order s d b M completed r s' d' b' gone : is_u64 (fc_capacity_bytes s) ->
  bytes_in_use M <= Z.max opening (fc_capacity_bytes s) ->
  purged s b M completed r s' d' b' gone -> in_order (s', d', b') (foldl spec_purged M gone).
Proof using. intros Hc Hu [_ _ Hk [Hn Hc'] _ Hu' _]. rewrite <- Hc' in *. split_and!; [done..|lia]. Qed.

Lemma PutChunk_step s d b p c l proof lookup space st d' b' M : in_order (s, d, b) M ->
  PutChunk s d b p c l proof lookup space = (st, d', b') -> step_ok (fun _ => True) (s, d, b) M (s, d', b').
Proof.
  intros [(Es & Hcap & K) Hu] E. pose proof E as (M' & K' & Had & Hmore)%(PutChunk_keeps ns Hns _ _ _ _ _ _ _ _ _ _ _ _ M); [|done..].
  exists M'. split.
  { split; [done|]. destruct (admitted st); [|by subst]. destruct (bk_sizes M !! c) eqn:Hc; [|pose proof (ad_room _ _ _ _ _ _ _ _ _ Had Hc); lia].
    rewrite (ad_books _ _ _ _ _ _ _ _ _ Had). unfold bytes_in_use. cbn [spec_put bk_used]. by rewrite bool_decide_true by (by eexists). }
  intros p0 _ c0 m0 Hm0. split.
  - destruct (admitted st); [|by subst]. rewrite (ad_books _ _ _ _ _ _ _ _ _ Had). cbn [spec_put bk_ties].
    destruct (decide ((p0, c0) = (p, c))) as [[= -> ->]|Hne]; [|by rewrite lookup_insert_ne].
    rewrite lookup_insert_eq. f_equal. symmetry. by apply (ad_again _ _ _ _ _ _ _ _ _ Had).
  - cbn [snd]. intros l0 Hl Hid Hs. by apply (Hmore c0 l0).
Qed.
Lemma Retry_step s d b max M r s' d' b' : in_order (s, d, b) M -> RetryPendingPurges s d b max = (r, s', d', b') ->
  step_ok (fun _ => True) (s, d, b) M (s', d', b').
Proof.
  intros Ho E. pose proof Ho as [(Es & Hcap & K) Hu]. apply (Retry_keeps _ _ _ _ M) in E as [gone Hg]; [|done..]. eexists.
  split; [by eapply purged_in_order|]. intros p _. eapply purged_still_tied; [apply K|done].
Qed.
Lemma PurgePublication_step s d b p M r s' d' b' : in_order (s, d, b) M -> PurgePublication s d b p = (r, s', d', b') ->
  step_ok (fun p' => p' <> p) (s, d, b) M (s', d', b').
Proof.
  intros Ho E. pose proof Ho as [(Es & Hcap & K) Hu]. apply (PurgePublication_keeps _ _ _ _ M) in E as (M1 & gone & HM & _ & Hg); [|done..].
  assert (Hok : books_ok M1 (blob_contents b)) by (destruct HM as [-> | ->]; [apply K|apply books_revoke, K]).
  assert (Hu1 : bytes_in_use M1 = bytes_in_use M) by (by destruct HM as [-> | ->]).
  eexists. split; [eapply (purged_in_order s d b M1); [done|by rewrite Hu1|done]|]. intros p' Hne. eapply (still_tied_trans _ _ _ (s, d, b) M1); [|by eapply purged_still_tied].
  destruct HM as [-> | ->]; [apply still_tied_refl|]. intros c m Hm. split; [|done]. by rewrite lookup_revoked_tie, decide_False.
Qed.
Lemma purge_revoked_step publications lookup : forall s d b M r s' d' b', in_order (s, d, b) M ->
  purge_revoked_loop s d b publications lookup = (r, s', d', b') -> step_ok (fun p => lookup p <> Ret None) (s, d, b) M (s', d', b').
Proof.
  induction publications as [|p publications IH]; intros s d b M r s' d' b' Ho E; cbn [purge_revoked_loop] in E.
  - injection E as <- <- <- <-. exists M. split; [done|]. intros. apply still_tied_refl.
  - destruct (lookup p) as [[publication|]|] eqn:El.
    + by eapply IH.
    + destruct (PurgePublication s d b p) as [[[r1 s1] d1] b1] eqn:E1.
      apply (PurgePublication_step _ _ _ _ M) in E1 as (M1 & Ho1 & Ht1); [|done]. destruct r1.
      * apply (IH _ _ _ M1) in E as (M' & Ho' & Ht'); [|done]. exists M'. split; [done|]. intros p' Hp'.
        eapply still_tied_trans; [apply Ht1; congruence|by apply Ht'].
      * injection E as <- <- <- <-. exists M1. split; [done|]. intros p' Hp'. apply Ht1. congruence.
    + injection E as <- <- <- <-. exists M. split; [done|]. intros. apply still_tied_refl.
Qed.
(** The cache can give up a blob only if the provider has not admitted it. *)
Lemma Evict_keeps s d b c M r b' : in_order (s, d, b) M -> RemoveUnlessAdmitted s d b c = (r, b') ->
  in_order (s, d, b') M /\
  forall c0 l, tied M c0 \/ c0 <> c -> blob_contents b !! c0 = Some l -> blob_contents b' !! c0 = Some l.
Proof.
  intros Ho E. pose proof Ho as [(Es & Hcap & K) Hu]. unfold RemoveUnlessAdmitted in E. rewrite Es in E.
  destruct (kv_Read d (ChunkKey ns c)) as [[size|]|] eqn:Er; [by injection E as <- <-| |by injection E as <- <-].
  apply (read_size ns Hns d _ M K) in Er. destruct (blob_Remove b c) as [removed b1] eqn:Eb. injection E as <- <-.
  assert (Hkeep : forall c0 l, tied M c0 \/ c0 <> c -> blob_contents b !! c0 = Some l -> blob_contents b1 !! c0 = Some l).
  { intros c0 l Hc Hl. destruct removed; [|by rewrite (blob_kept _ _ _ Eb)]. rewrite (blob_removed _ _ _ Eb), lookup_delete_ne; [done|].
    intros <-. destruct Hc as [Ht|]; [|done]. apply (bk_tied _ _ (proj2 K)) in Ht as [[n Hn] _]. congruence. }
  split; [|exact Hkeep]. split; [|done]. split_and!; [done..|]. split; [apply K|].
  destruct K as [_ [H1 H2 H3 H4 H5 H6 H7 H8]]. constructor; try done.
  intros c0 Ht. destruct (H8 c0 Ht) as (l & (Hl & Hrest) & Hs). exists l. split; [|done]. split; [apply Hkeep; [by left|done]|done].
Qed.
Lemma Evict_step s d b c M r b' : in_order (s, d, b) M -> RemoveUnlessAdmitted s d b c = (r, b') ->
  step_ok (fun _ => True) (s, d, b) M (s, d, b').
Proof.
  intros Ho E. destruct (Evict_keeps _ _ _ _ _ _ _ Ho E) as [Ho' Hkeep]. exists M. split; [done|].
  intros p _ c0 m Hm. split; [done|]. intros l Hl _ _. apply Hkeep; [|done]. left. exists p. by eexists.
Qed.

Lemma call_step e : forall w M, in_order w M -> step_ok (fun p => spares p e) w M (do_call w e).
Proof.
  assert (Hweak : forall (P Q : Hash256 -> Prop) w M w', (forall p, Q p -> P p) -> step_ok P w M w' -> step_ok Q w M w').
  { intros P Q w M w' HPQ (M' & Ho & Ht). exists M'. split; [done|]. auto. }
  intros [[s d] b] M Ho. destruct e as [p c l proof lookup space|max|p|lookup|c|c l]; cbn [do_call spares].
  - destruct (PutChunk _ _ _ _ _ _ _ _ _) as [[st d'] b'] eqn:E. by eapply PutChunk_step.
  - destruct (RetryPendingPurges _ _ _ _) as [[[r s'] d'] b'] eqn:E. by eapply Retry_step.
  - destruct (PurgePublication _ _ _ _) as [[[r s'] d'] b'] eqn:E. eapply Hweak; [|by eapply PurgePublication_step]. done.
  - destruct (PurgeRevokedPublications _ _ _ _) as [[[r s'] d'] b'] eqn:E. unfold PurgeRevokedPublications in E.
    destruct (ForEachStringPrefixRaw _ _ _ _ _) as [[[]|] publications]; [by eapply purge_revoked_step|].
    injection E as <- <- <- <-. exists M. split; [done|]. intros. apply still_tied_refl.
  - destruct (RemoveUnlessAdmitted _ _ _ _) as [r b'] eqn:E. by eapply Evict_step.
  - destruct (blob_Put b c l) as [st b'] eqn:E. destruct Ho as [(Es & Hcap & K) Hu]. exists M. split.
    + split; [|done]. split_and!; [done..|]. split; [apply K|]. eapply books_more_blobs; [apply K|]. intros. by eapply put_more_blobs.
    + intros p _ c0 m Hm. split; [done|]. cbn [snd]. intros l0 Hl Hid Hs. eapply (put_more_blobs _ _ _ _ _ c0 l0); [done|done].
Qed.
Lemma run_ok calls p : Forall (spares p) calls -> forall w M, in_order w M ->
  exists M', in_order (foldl do_call w calls) M' /\ still_tied p w M (foldl do_call w calls) M'.
Proof.
  induction 1 as [|e calls He _ IH]; intros w M Ho; cbn [foldl]; [exists M; split; [done|apply still_tied_refl]|].
  destruct (call_step e w M Ho) as (M1 & Ho1 & Ht1). destruct (IH _ _ Ho1) as (M' & Ho' & Ht'). exists M'. split; [done|].
  eapply still_tied_trans; [by apply Ht1|done].
Qed.
End operations.
End Purges.
