(* ===== verification/ChunkService.v ===== *)
(** * What a provider promises of its chunks

    The order in which waiting purges are tried, that purges complete where
    nothing fails, the opening of the store, and the promises over its runs:
    an admitted chunk is served until its publication is purged, and the
    books stay exact. *)

From S2P Require Import Prelude.
From S2P Require Import Bytes.
From S2P Require Import Codec.
From S2P Require Import Utf8.
From S2P Require Import Crypto.
From S2P Require Import Payloads.
From S2P Require Import Merkle.
From S2P Require Import KVStore.
From S2P Require Import KVIteration.
From S2P Require Import ChunkRetention.
From S2P Require Import ChunkBlobs.
From S2P Require Import FinalizedChunks.
From S2P Require Import FinalizedChunksProofs.
From S2P Require Import ChunkPurges.

Import Chunks.
Import Purges.

Section service.
Context `{CryptoOps} {L : LevelDB} {Laws : LevelDBLaws L} {Bs : BlobStore} {BlobLaws : BlobStoreLaws Bs}.
Context (ns : bytes) (Hns : zlen ns = NS).
#[local] Set Default Proof Using "Type + Laws + BlobLaws + Hns".
#[local] Instance service_rows_inj : Inj (=) (=) (row_bytes ns) := row_bytes_inj ns Hns.
#[local] Instance service_PurgeRow_inj : Inj (=) (=) PurgeRow.
Proof using. by intros ? ? [= ->]. Qed.
#[local] Instance service_SizeRow_inj : Inj (=) (=) SizeRow.
Proof using. by intros ? ? [= ->]. Qed.
Implicit Types (s : FinalizedChunkStore) (d : db) (b : blobs).

(** ** The order of the purges *)

(** The ids after the cursor first, then those up to it. *)
Definition rotated s (ids : list ChunkId) : list ChunkId :=
  match fc_purge_cursor s with
  | None => ids
  | Some cursor => List.filter (fun c => negb (ale c cursor)) ids ++ List.filter (fun c => ale c cursor) ids
  end.
Definition selected s (wrap : bool) (c : ChunkId) : bool :=
  match fc_purge_cursor s with None => true | Some cursor => bool_decide (ale c cursor = wrap) end.
Definition pending_step s (max : Z) (wrap : bool) (pending : list ChunkId) (c : ChunkId) : list ChunkId :=
  if max <=? zlen pending then pending else if selected s wrap c then pending ++ [c] else pending.
Lemma pending_steps s max wrap ids : forall pending, zlen pending <= max ->
  foldl (pending_step s max wrap) pending ids = pending ++ take (Z.to_nat (max - zlen pending)) (List.filter (selected s wrap) ids).
Proof using.
  induction ids as [|c ids IH]; intros pending Hmax; cbn [foldl List.filter]; [by rewrite take_nil, app_nil_r|].
  unfold pending_step at 2. destruct (Z.leb_spec max (zlen pending)) as [Hfull|Hroom].
  - rewrite IH by done. by replace (Z.to_nat (max - zlen pending)) with 0%nat by lia.
  - destruct (selected s wrap c); [|by apply IH]. rewrite IH by (rewrite zlen_app, zlen_cons, zlen_nil; lia).
    rewrite <- app_assoc, zlen_app, zlen_cons, zlen_nil. f_equal.
    replace (Z.to_nat (max - zlen pending)) with (S (Z.to_nat (max - (zlen pending + (1 + 0))))) by lia. done.
Qed.

(** The ids of the purges that wait, in the order of their keys. *)
Definition waits (M : Books) (ids : list ChunkId) : Prop := NoDup ids /\ forall c, c ∈ ids <-> is_Some (bk_purges M !! c).
Lemma purge_key_chunk c : drop (length (ns ++ str "/purge/")) (row_bytes ns (PurgeRow c)) = GetHex c.
Proof using. cbn [row_bytes]. unfold PurgeKey. rewrite app_assoc. apply drop_app_length. Qed.
Lemma purge_prefix_length : zlen (ns ++ str "/purge/") + 64 = 147.
Proof using Hns. rewrite zlen_app, Hns. done. Qed.
Lemma pending_visitor_step s max wrap pending c v : fc_namespace s = ns ->
  pending_visitor s max wrap pending (row_bytes ns (PurgeRow c)) v = (Ret tt, pending_step s max wrap pending c).
Proof using.
  intros Es. unfold pending_visitor, pending_step, selected. rewrite Es, purge_key_chunk. unfold ParseChunkId. rewrite ParseHex_GetHex.
  destruct (max <=? zlen pending); [done|]. destruct (fc_purge_cursor s) as [cursor|]; [|done].
  destruct (bool_decide_reflect (ale c cursor <> wrap)) as [Hne|He]; [by rewrite bool_decide_false|].
  rewrite bool_decide_true; [done|]. by apply dec_stable.
Qed.
Lemma purge_scan d B M : keeps ns (contents d) B M -> exists ids, waits M ids /\
  (forall s max wrap pending out, fc_namespace s = ns -> scan_pending s d max wrap pending = Ret out ->
     out = foldl (pending_step s max wrap) pending ids) /\
  ((forall d p n, db_Status d p n = true) -> forall s max wrap pending, fc_namespace s = ns -> exists out, scan_pending s d max wrap pending = Ret out).
Proof using Type Laws Hns.
  intros [Hh _]. destruct (prefix_rows_holds (row_bytes ns) PurgeRow _ (purge_row_prefix ns Hns) _ _ Hh) as (l & El & Hnd & Hl).
  exists l.*1. split_and!.
  - split; [done|]. intros c. rewrite list_elem_of_fmap. split.
    + intros ([c' v] & -> & Hin%Hl). cbn [row_value fst] in *. by destruct (bk_purges M !! c').
    + intros [n Hn]. exists (c, le_bytes 8 n). split; [done|]. apply Hl. cbn [row_value]. by rewrite Hn.
  - intros s max wrap pending out Es E. unfold scan_pending in E. rewrite Es in E. cbv zeta in E.
    destruct (ForEachStringPrefixRaw _ _ _ _ _) as [[[]|] out'] eqn:Ef; [|done]. injection E as <-. apply for_each_prefix_visits in Ef.
    rewrite purge_prefix_length, El in Ef. eapply (visits_fold _ (chunk_row_small ns Hns) PurgeRow) in Ef; [exact Ef|].
    intros c s0 v s' E. rewrite pending_visitor_step in E by done. by injection E.
  - intros Hstatus s max wrap pending Es. unfold scan_pending. rewrite Es. cbv zeta.
    destruct (for_each_prefix_runs Some (pending_visitor s max wrap) d (ns ++ str "/purge/") (zlen (ns ++ str "/purge/") + 64) pending) as [out Ef];
      [lia|intros; apply Hstatus| |unfold ForEachStringPrefixRaw; rewrite Ef; by eexists].
    intros k v Hin. rewrite purge_prefix_length, El in Hin. apply list_elem_of_fmap in Hin as ([c raw] & [= -> ->] & _).
    exists (row_bytes ns (PurgeRow c)), raw. split_and!; [exact (DecodeBytes_row (row_bytes ns) (chunk_row_small ns Hns) (PurgeRow c))|done|]. intros s0. rewrite pending_visitor_step by done. by eexists.
Qed.
(** A bounded pass takes up where the last one ended. *)
Lemma pending_round_robin s d B M max : fc_namespace s = ns -> 0 <= max -> keeps ns (contents d) B M ->
  exists ids, waits M ids /\
  let pending := try! pending := scan_pending s d max false [] ;;
    if bool_decide (is_Some (fc_purge_cursor s)) && (zlen pending <? max) then scan_pending s d max true pending else Ret pending in
  (forall out, pending = Ret out -> out = take (Z.to_nat max) (rotated s ids)) /\
  ((forall d p n, db_Status d p n = true) -> exists out, pending = Ret out).
Proof using Type Laws Hns.
  intros Es Hmax K. destruct (purge_scan d B M K) as (ids & Hids & Hscan & Hruns). exists ids. split; [done|]. cbv zeta.
  assert (Hfirst : forall out, scan_pending s d max false [] = Ret out -> out = take (Z.to_nat max) (List.filter (selected s false) ids)).
  { intros out E%Hscan; [|done]. rewrite pending_steps in E by (rewrite zlen_nil; lia). by rewrite zlen_nil, Z.sub_0_r in E. }
  split.
  - intros out E. walk_step E. clear Hret. pose proof (Hfirst _ eq_refl) as Hret. clear Hfirst. unfold rotated. unfold selected in Hret.
    destruct (fc_purge_cursor s) as [cursor|] eqn:Ec.
    2: { rewrite bool_decide_false in E by (by intros []). injection E as <-. rewrite Hret, filter_all; [done|]. by apply Forall_forall. }
    rewrite bool_decide_true in E by (by eexists). cbn [andb] in E.
    rewrite (filter_ext (fun c => bool_decide (ale c cursor = false)) (fun c => negb (ale c cursor))) in Hret by (intros c; by destruct (ale c cursor)).
    destruct (Z.ltb_spec (zlen a) max) as [Hlt|Hge].
    + assert (Ea : a = List.filter (fun c => negb (ale c cursor)) ids).
      { rewrite Hret. apply take_ge. destruct (decide (length (List.filter (fun c => negb (ale c cursor)) ids) <= Z.to_nat max)%nat); [done|].
        apply (f_equal length) in Hret. rewrite length_take in Hret. unfold zlen in Hlt. lia. }
      apply Hscan in E; [|done]. rewrite pending_steps in E by lia. rewrite E, <- Ea, take_app, (take_ge a) by (unfold zlen in Hlt; lia).
      f_equal. f_equal; [unfold zlen; lia|]. unfold selected. rewrite Ec. apply filter_ext. intros c. by destruct (ale c cursor).
    + injection E as <-. assert (Hlen : length a = Z.to_nat max).
      { apply (f_equal length) in Hret as Hl. rewrite length_take in Hl. unfold zlen in Hge. lia. }
      rewrite take_app, <- Hret. replace (Z.to_nat max - length (List.filter _ ids))%nat with 0%nat; [by rewrite app_nil_r|].
      apply (f_equal length) in Hret. rewrite length_take in Hret. lia.
  - intros Hstatus. destruct (Hruns Hstatus s max false [] Es) as [out ->]. cbn [outcome_bind]. destruct (_ && _); [|by eexists]. by apply Hruns.
Qed.

(** ** Where nothing fails *)

Record working : Prop := {
  wk_read d key : exists v, db_Get d key = Ret v;
  wk_write d entries : fst (db_Write d entries true) = true;
  wk_iterate d p n : db_Status d p n = true;
  wk_remove b c : c <> ZERO -> fst (blob_Remove b c) = true;
}.
Lemma purge_loop_completes (W : working) pending : forall s d b completed M, fc_namespace s = ns -> keeps ns (contents d) (blob_contents b) M ->
  NoDup pending -> Forall (fun c => is_Some (bk_purges M !! c)) pending ->
  exists s' d' b', purge_loop s d b pending completed = (Ret (completed + zlen pending), s', d', b').
Proof.
  induction pending as [|c pending IH]; intros s d b completed M Es K Hnd Hw; cbn [purge_loop]; [rewrite zlen_nil, Z.add_0_r; by eexists _, _, _|].
  apply NoDup_cons in Hnd as [Hc Hnd]. apply Forall_cons in Hw as [[n Hn] Hw]. change (fc_namespace s) with (fc_namespace (set_cursor s c)) in Es.
  set (s1 := set_cursor s c) in *. rewrite (purge_metadata_fine ns Hns s1 d _ M c n Es K Hn (wk_read W d)).
  pose proof (bk_purge _ _ (proj2 K) _ _ Hn) as Hsize. pose proof (wk_remove W b c (proj2 (bk_size _ _ (proj2 K) _ _ Hsize))) as Hr.
  destruct (blob_Remove b c) as [removed b1] eqn:Er. cbn [fst] in Hr. subst removed.
  unfold kv_WriteBatch at 1. pose proof (wk_write W d (purge_rows s1 c n (bytes_in_use M))) as Hok.
  destruct (db_Write d _ true) as [ok d1] eqn:Ew. cbn [fst] in Hok. subst ok.
  destruct (purge_loop_keeps ns Hns [c] s d b completed M (Ret (completed + 1)) s1 d1 b1 Es K) as (gone & Hg & Hsub).
  { cbn [purge_loop]. fold s1. rewrite (purge_metadata_fine ns Hns s1 d _ M c n Es K Hn (wk_read W d)), Er. unfold kv_WriteBatch. by rewrite Ew. }
  assert (gone = [c]) as ->.
  { pose proof (pg_count _ _ _ _ _ _ _ _ _ _ Hg _ eq_refl) as Hlen. apply sublist_cons_r in Hsub as [Hsub|(l & -> & Hsub)].
    - apply sublist_nil_r in Hsub. subst. rewrite zlen_nil in Hlen. lia.
    - apply sublist_nil_r in Hsub. by subst. }
  pose proof (pg_keeps _ _ _ _ _ _ _ _ _ _ Hg) as K1. cbn [foldl] in K1.
  destruct (IH s1 d1 b1 (completed + 1) (spec_purged M c) Es K1 Hnd) as (s' & d' & b' & ->).
  - rewrite Forall_forall in *. intros c' Hin. rewrite purges_spec_purged. destruct (decide (c = c')) as [<-|]; [done|by apply Hw].
  - rewrite zlen_cons. exists s', d', b'. do 4 f_equal. lia.
Qed.

Lemma lookup_purged gone : forall M c, bk_purges (foldl spec_purged M gone) !! c = (if decide (c ∈ gone) then None else bk_purges M !! c) /\
  bk_sizes (foldl spec_purged M gone) !! c = (if decide (c ∈ gone) then None else bk_sizes M !! c).
Proof using.
  induction gone as [|c0 gone IH]; intros M c; cbn [foldl]; [done|].
  destruct (IH (spec_purged M c0) c) as [-> ->]. cbn [spec_purged bk_purges bk_sizes].
  destruct (decide (c ∈ gone)); [by rewrite !decide_True by (by right)|].
  destruct (decide (c0 = c)) as [<-|]; [rewrite !lookup_delete_eq, !decide_True by left; done|].
  rewrite !lookup_delete_ne, !decide_False by (done || by intros [|]%elem_of_cons). done.
Qed.
Lemma waits_few d B M ids : keeps ns (contents d) B M -> waits M ids -> zlen ids <= MAX64.
Proof using.
  intros K [Hnd Hin].
  assert (Hle : forall (m : gmap ChunkId Z) l, NoDup l -> (forall c, c ∈ l -> exists n, m !! c = Some n /\ 1 <= n) ->
    (forall c n, m !! c = Some n -> 0 <= n) -> zlen l <= map_sum id m).
  { intros m l. revert m. induction l as [|c l IH]; intros m Hl Hm H0; [rewrite zlen_nil; by apply map_sum_nonneg|].
    apply NoDup_cons in Hl as [Hc Hl]. destruct (Hm c ltac:(left)) as (n & En & Hn). rewrite zlen_cons, (map_sum_delete id m c n En).
    assert (zlen l <= map_sum id (delete c m)); [|unfold id at 1; lia]. apply IH; [done|..].
    - intros c' Hc'. destruct (Hm c' ltac:(by right)) as (n' & En' & Hn'). exists n'. split; [|done]. rewrite lookup_delete_ne; [done|congruence].
    - intros c' n' [_ Hc']%lookup_delete_Some. by eapply H0. }
  assert (Hs : forall c n, bk_sizes M !! c = Some n -> 1 <= n).
  { intros c n [Hn _]%(bk_size _ _ (proj2 K)). apply stored_size_ok_range in Hn. unfold ENCRYPTED_CHUNK_MIN_STORED_BYTES, ENCRYPTED_CHUNK_HEADER_SIZE in Hn. lia. }
  etransitivity; [apply (Hle (bk_sizes M)); [done| |]|].
  - intros c [n Hn]%Hin. exists n. split; [by apply (bk_purge _ _ (proj2 K))|]. by apply (Hs c), (bk_purge _ _ (proj2 K)).
  - intros c n Hn%Hs. lia.
  - rewrite <- (bk_count _ _ (proj2 K)). apply K.
Qed.
Lemma rotated_permutation s ids : rotated s ids ≡ₚ ids.
Proof using.
  unfold rotated. destruct (fc_purge_cursor s) as [cursor|]; [|done]. induction ids as [|c ids IH]; [done|]. cbn [List.filter].
  destruct (ale c cursor); cbn [negb app]; [by rewrite <- Permutation_middle, IH|by rewrite IH].
Qed.
Lemma Retry_completes (W : working) s d b M max : fc_namespace s = ns -> keeps ns (contents d) (blob_contents b) M ->
  (forall ids, waits M ids -> zlen ids <= max) ->
  exists n s' d' b' gone, RetryPendingPurgesLocked s d b max = (Ret n, s', d', b') /\ purged ns s b M 0 (Ret n) s' d' b' gone /\ waits M gone.
Proof.
  intros Es K Hmax. assert (H0 : 0 <= max).
  { destruct (purge_scan d _ M K) as (ids & Hids & _). specialize (Hmax _ Hids). pose proof (zlen_nonneg ids). lia. }
  destruct (pending_round_robin s d _ M max Es H0 K) as (ids & Hids & Hout & Hruns).
  destruct (Hruns (wk_iterate W)) as [pending Ep]. pose proof (Hout _ Ep) as Hp. specialize (Hmax _ Hids).
  pose proof (rotated_permutation s ids) as Hperm.
  rewrite take_ge in Hp by (rewrite Hperm; unfold zlen in Hmax; lia). rewrite <- Hp in Hperm.
  assert (Hw : waits M pending) by (destruct Hids as [Hnd Hin]; split; [by rewrite Hperm|intros c; by rewrite Hperm]).
  destruct (purge_loop_completes W pending s d b 0 M Es K (proj1 Hw)) as (s' & d' & b' & El).
  { apply Forall_forall. intros c. apply Hw. }
  destruct (purge_loop_keeps ns Hns _ _ _ _ _ _ _ _ _ _ Es K El) as (gone & Hg & Hsub).
  assert (Hgone : gone ≡ₚ pending).
  { apply submseteq_length_Permutation; [by apply sublist_submseteq|]. pose proof (pg_count _ _ _ _ _ _ _ _ _ _ Hg _ eq_refl) as Hlen.
    unfold zlen in Hlen. lia. }
  exists (0 + zlen pending), s', d', b', gone. split_and!; [|done|].
  - unfold RetryPendingPurgesLocked. cbv zeta in Ep |- *. by rewrite Ep.
  - destruct Hw as [Hnd Hin]. split; [by rewrite Hgone|]. intros c. by rewrite Hgone.
Qed.

Lemma kv_Read_works (W : working) {T} (R : LocalRecord T) d key : exists o, kv_Read (T := T) d key = Ret o.
Proof using. unfold kv_Read, ReadRaw. destruct (wk_read W d (rec_Encode key)) as [[raw|] ->]; by eexists. Qed.
Lemma revoke_rows_works (W : working) s d p shared chunks : exists rows, revoke_rows s d p shared chunks = Ret rows.
Proof using.
  induction chunks as [|c chunks [rows IH]]; cbn [revoke_rows]; [by eexists|].
  assert (Hread : exists o, (if bool_decide (c ∈ shared) then Ret None else kv_Read (T := Z) d (ChunkKey (fc_namespace s) c)) = Ret o).
  { case_bool_decide; [by eexists|]. apply (kv_Read_works W). }
  destruct Hread as [o ->]. cbn [outcome_bind]. rewrite IH. cbn [outcome_bind]. by eexists.
Qed.
Lemma tie_scan_works (W : working) {St A} d B M prefix (C : A -> row) (visitor : St -> bytes -> bytes -> outcome unit * St) (acc0 : St) :
  keeps ns (contents d) B M -> zlen prefix <= 224 -> Inj (=) (=) C ->
  (forall x, has_prefix (AppendCompactSize 224 ++ prefix) (EncodeBytes (row_bytes ns x)) = true <-> exists a, x = C a) ->
  (forall acc key value, exists acc', visitor acc key value = (Ret tt, acc')) ->
  exists acc', ForEachStringPrefixRaw d prefix 224 visitor acc0 = (Ret tt, acc').
Proof.
  intros [Hh _] Hz HC Hspec Hv. apply for_each_prefix_runs; [done|intros; apply W|]. intros k v Hin.
  destruct (prefix_rows_holds (row_bytes ns) C _ Hspec _ _ Hh) as (l & El & _). rewrite El in Hin.
  apply list_elem_of_fmap in Hin as ([a raw] & [= -> ->] & _). eexists _, raw.
  split_and!; [exact (DecodeBytes_row (row_bytes ns) (chunk_row_small ns Hns) (C a))|done|]. intros; apply Hv.
Qed.
Lemma revocation_works (W : working) s d B M p : fc_namespace s = ns -> keeps ns (contents d) B M -> exists o, revocation s d p = Ret o.
Proof.
  intros Es K. unfold revocation. cbv zeta. assert (Hz : zlen (Associations ns) = 95) by (unfold Associations; rewrite zlen_app, Hns; done).
  assert (Hp : zlen (purge_prefix s p) = 160) by (unfold purge_prefix; rewrite !zlen_app, Es, Hz, zlen_GetHex; done). rewrite Hp, Es.
  destruct (tie_scan_works W d B M (purge_prefix s p) (TieRow p) (tie_visitor (purge_prefix s p)) [] K) as [chunks E1];
    [lia|by intros ? ? [= ->]|intros x; unfold purge_prefix; rewrite Es; by apply publication_prefix|intros; by eexists|].
  change (160 + 64) with 224. rewrite E1. cbn [outcome_bind]. case_bool_decide; [by eexists|].
  destruct (tie_scan_works W d B M (Associations ns) (fun pc : Hash256 * ChunkId => TieRow pc.1 pc.2)
    (shared_visitor (purge_prefix s p) (list_to_set chunks)) ∅ K) as [shared E2];
    [lia|by intros [] [] [= -> ->]|by apply tie_prefix|intros; unfold shared_visitor; case_match; by eexists|].
  rewrite E2. cbn [outcome_bind]. destruct (revoke_rows_works W s d p shared chunks) as [rows ->]. by eexists.
Qed.

(** A revocation that nothing stops is complete. If the database reads,
    iterates and writes and the blobs can be removed, purging a publication
    that holds chunks returns; then no chunk is tied to it, no tie of another
    publication has changed, nothing waits to be purged, the chunks that are
    left are exactly those that a publication is tied to, and the bytes of
    those are still there. *)
Theorem purge_completes (W : working) s d b p c0 M : fc_namespace s = ns -> keeps ns (contents d) (blob_contents b) M ->
  IsNull p = false -> c0 ∈ tied_by p M ->
  exists n s' d' b' M', PurgePublication s d b p = (Ret n, s', d', b') /\ keeps ns (contents d') (blob_contents b') M' /\
    (forall p' c, bk_ties M' !! (p', c) = if decide (p' = p) then None else bk_ties M !! (p', c)) /\
    bk_purges M' = ∅ /\
    (forall c size, bk_sizes M' !! c = Some size <-> bk_sizes M !! c = Some size /\ c ∈ tied_elsewhere p M) /\
    (forall c l, c ∈ tied_elsewhere p M -> blob_contents b !! c = Some l -> blob_contents b' !! c = Some l).
Proof.
  intros Es K Hp Hc0. unfold PurgePublication. rewrite Hp. destruct (revocation_works W s d _ M p Es K) as [o Eo]. rewrite Eo.
  apply (revocation_says ns Hns s d (blob_contents b) M) in Eo; [|done..]. destruct o as [rows|]; [|by rewrite Eo in Hc0; apply elem_of_empty in Hc0].
  destruct Eo as (entries & -> & Hrows). destruct (kv_WriteBatch d _ true) as [ok d1] eqn:Ew.
  assert (ok = true) as ->. { unfold kv_WriteBatch in Ew. pose proof (wk_write W d (KVIteration.row_entry (row_bytes ns) <$> entries)) as Hok. by rewrite Ew in Hok. }
  apply (write_holds ns Hns d M _ _ _ _ (proj1 K) Hrows) in Ew.
  assert (K1 : keeps ns (contents d1) (blob_contents b) (spec_revoke p M)) by (split; [exact Ew|apply books_revoke, K]).
  destruct (Retry_completes W s d1 b (spec_revoke p M) MAX64 Es K1) as (n & s' & d' & b' & gone & -> & Hg & Hnd & Hgone).
  { intros ids. by eapply waits_few. }
  pose proof (pg_keeps _ _ _ _ _ _ _ _ _ _ Hg) as K2.
  exists n, s', d', b', (foldl spec_purged (spec_revoke p M) gone). split_and!; [done|exact K2|..].
  - intros p' c. by rewrite ties_purged, lookup_revoked_tie.
  - apply map_eq. intros c. rewrite (proj1 (lookup_purged _ _ _)), lookup_empty. destruct (decide (c ∈ gone)) as [|Hn]; [done|].
    rewrite Hgone in Hn. by apply eq_None_not_Some.
  - intros c size. rewrite (proj2 (lookup_purged _ _ _)). cbn [spec_revoke bk_sizes]. rewrite <- tied_revoked. split.
    + destruct (decide (c ∈ gone)) as [|Hn]; [done|]. intros Hsz. split; [done|]. rewrite Hgone in Hn.
      destruct (bk_reason _ _ (proj2 K1) c) as [Ht|Hw]; [by eexists|done|done].
    + intros [Hsz Ht]. rewrite decide_False; [done|]. rewrite Hgone. apply (bk_tied _ _ (proj2 K1)) in Ht as [_ Ht]. rewrite Ht. by intros [].
  - intros c l Ht Hl. apply (pg_blobs _ _ _ _ _ _ _ _ _ _ Hg); [|done]. apply (bk_tied _ _ (proj2 K1)). by apply tied_revoked.
Qed.

(** ** Opening *)

Definition recount_step (total : Z) (row : ChunkId * bytes) : Z := total ⊕ default 0 (DecodeU64 row.2).
Lemma sum_of_rows l : forall (m : gmap ChunkId Z), NoDup l.*1 -> (forall c raw, (c, raw) ∈ l <-> le_bytes 8 <$> m !! c = Some raw) ->
  (forall c n, m !! c = Some n -> is_u64 n) -> forall total, 0 <= total -> total + map_sum id m <= MAX64 ->
  foldl recount_step total l = total + map_sum id m.
Proof using.
  induction l as [|[c raw] l IH]; intros m Hnd Hl Hu total H0 Hmax; cbn [foldl].
  - assert (m = ∅) as ->; [|rewrite map_sum_empty; lia]. apply map_empty. intros c. apply eq_None_not_Some. intros [n Hn].
    assert (Hin : (c, le_bytes 8 n) ∈ (@nil (ChunkId * bytes))) by (apply Hl; by rewrite Hn). by apply elem_of_nil in Hin.
  - apply NoDup_cons in Hnd as [Hc Hnd]. destruct (m !! c) as [n|] eqn:En.
    2: { assert (Hin : (c, raw) ∈ (c, raw) :: l) by left. apply Hl in Hin. by rewrite En in Hin. }
    assert (raw = le_bytes 8 n) as ->. { assert (Hin : (c, raw) ∈ (c, raw) :: l) by left. apply Hl in Hin. rewrite En in Hin. by injection Hin. }
    pose proof (map_sum_delete id m c n En) as Hd. unfold id in Hd at 2. pose proof (Hu c n En) as Hn.
    assert (Hpos : 0 <= map_sum id (delete c m)) by (apply map_sum_nonneg; intros c' n' [_ Hc']%lookup_delete_Some; apply Hu in Hc'; unfold id; ulia).
    rewrite (IH (delete c m)); [|done| | |..].
    + unfold recount_step. cbn [snd]. rewrite DecodeU64_le by done. cbn [default]. unfold id. rewrite add64_small by ulia. unfold id in *. lia.
    + intros c' raw'. split.
      * intros Hin. assert (Hne : c <> c') by (intros <-; apply Hc; by apply (list_elem_of_fmap_2 fst) in Hin).
        rewrite lookup_delete_ne by done. apply Hl. by right.
      * intros Hin. destruct (decide (c = c')) as [<-|Hne]; [by rewrite lookup_delete_eq in Hin|]. rewrite lookup_delete_ne in Hin by done.
        apply Hl in Hin. apply elem_of_cons in Hin as [[= <- _]|]; done.
    + intros c' n' [_ Hc']%lookup_delete_Some. by eapply Hu.
    + unfold recount_step. cbn [snd]. rewrite DecodeU64_le by done. unfold id in *. cbn [default]. unfold id. rewrite add64_small by ulia. ulia.
    + unfold recount_step. cbn [snd]. rewrite DecodeU64_le by done. unfold id in *. cbn [default]. unfold id. rewrite add64_small by ulia. ulia.
Qed.

(** The same obligations, under another header. *)
Record same_chunks (M M' : Books) : Prop := {
  sm_used : bytes_in_use M' = bytes_in_use M;
  sm_sizes : bk_sizes M' = bk_sizes M;
  sm_ties : bk_ties M' = bk_ties M;
  sm_purges : bk_purges M' = bk_purges M;
}.
Lemma same_chunks_ok M M' B : same_chunks M M' -> books_ok M B -> books_ok M' B.
Proof using.
  intros [E1 E2 E3 E4] [H1 H2 H3 H4 H5 H6 H7 H8]. assert (Ht : forall c, tied M' c <-> tied M c) by (intros; unfold tied; by rewrite E3).
  constructor; [intros c n|..|intros p c enc|intros c|intros c|intros c n|intros c]; rewrite ?Ht, ?E1, ?E2, ?E3, ?E4; first [done|exact (H4 p c enc)|by auto].
Qed.
Lemma write_one d B M M' x v ok d' : keeps ns (contents d) B M -> same_chunks M M' ->
  (forall y, set_row (row_value M) (x, Some v) y = row_value M' y) ->
  kv_WriteBatch d [Put (EncodeBytes (row_bytes ns x)) v] true = (ok, d') -> keeps ns (contents d') B (if ok then M' else M).
Proof.
  intros K Hs Hrow Ew. split; [|destruct ok; [by eapply same_chunks_ok, K|apply K]].
  eapply (write_holds ns Hns d M M' [(x, Some v)]); [apply K|exact Hrow|exact Ew].
Qed.
Lemma check_network_keeps d B M nb r d' : keeps ns (contents d) B M -> check_network d nb = (Ret r, d') ->
  exists M', keeps ns (contents d') B M' /\ same_chunks M M'.
Proof.
  intros K E. unfold check_network in E. destruct (kv_Read d NETWORK_KEY) as [[saved|]|]; [injection E as <- <-; by exists M| |done].
  destruct (kv_Exists d NETWORK_KEY) as [[]|]; [done| |done]. destruct (kv_Write d NETWORK_KEY _ true) as [ok d1] eqn:Ew.
  destruct ok; [|done]. injection E as <- <-.
  exists (mkBooks (Some (arr_val nb)) (bk_used M) (bk_sizes M) (bk_ties M) (bk_purges M)). split; [|done].
  refine (write_one d B M _ NetworkRow _ true d1 K _ _ Ew); [done|]. intros y. unfold set_row. cbn [fst snd]. by destruct y.
Qed.
Lemma recount_keeps s d b M d' : fc_namespace s = ns -> keeps ns (contents d) (blob_contents b) M -> recount s d b = (Ret tt, d') ->
  exists M', keeps ns (contents d') (blob_contents b) M' /\ same_chunks M M'.
Proof.
  intros Es K E. unfold recount in E. destruct blob_MemoryOnly; [injection E as <-; by exists M|]. cbv zeta in E. rewrite Es in E.
  destruct (ForEachStringPrefixRaw _ _ _ _ _) as [[[]|] total] eqn:Ef; [|done]. apply for_each_prefix_visits in Ef.
  replace (zlen (ns ++ str "/chunk/") + 64) with 147 in Ef by (rewrite zlen_app, Hns; done).
  destruct (prefix_rows_holds (row_bytes ns) SizeRow _ (size_row_prefix ns Hns) _ _ (proj1 K)) as (l & El & Hnd & Hl). rewrite El in Ef.
  apply (visits_fold_value _ (chunk_row_small ns Hns) SizeRow _ _ recount_step) in Ef as ->.
  2: { intros c raw v t t' [= <-] Ev. unfold size_visitor in Ev. cbv zeta in Ev. destruct (_ || _); [done|].
    destruct (ParseChunkId _) as [c'|]; [|done]. unfold recount_step. cbn [snd]. destruct (DecodeU64 raw) as [n|]; [|done].
    destruct (_ || _); [done|]. destruct (negb _); [done|]. by injection Ev. }
  pose proof (proj2 K) as Hok. rewrite (sum_of_rows l (bk_sizes M)) in E; [|done|intros; by rewrite Hl| |lia|rewrite <- (bk_count _ _ Hok); apply Hok].
  2: { intros c n Hn. by apply size_u64, (bk_size _ _ Hok c). }
  destruct (kv_Write d _ _ true) as [ok d1] eqn:Ew. destruct ok; [|done]. injection E as <-.
  rewrite Z.add_0_l, <- (bk_count _ _ Hok) in Ew.
  exists (mkBooks (bk_network M) (Some (bytes_in_use M)) (bk_sizes M) (bk_ties M) (bk_purges M)).
  refine ((fun Hs => conj (write_one d (blob_contents b) M _ CounterRow _ true d1 K Hs _ Ew) Hs) _); [|done].
  intros y. unfold set_row. cbn [fst snd]. by destruct y.
Qed.
Lemma open_in_order d b path_empty nb capacity M s d' b' : ns = str "chunk-store/" ++ GetHex nb -> is_u64 capacity ->
  keeps ns (contents d) (blob_contents b) M -> open_chunk_store d b path_empty nb capacity = (Ret s, d', b') ->
  exists M', in_order ns (bytes_in_use M) (s, d', b') M' /\ bk_ties M' = bk_ties M.
Proof.
  intros En Hcap K E. unfold open_chunk_store in E. destruct (_ || _) in E; [done|].
  destruct (check_network d nb) as [[[]|] d1] eqn:E1; [|done..]. destruct (check_network_keeps d _ M nb true d1 K E1) as (M1 & K1 & Hm1).
  destruct (RetryPendingPurgesLocked _ d1 b MAX64) as [[[[n|] s2] d2] b2] eqn:E2; [|done].
  rewrite <- En in E2. destruct (Retry_keeps ns Hns (mkChunkStore ns capacity None) _ _ _ M1 _ _ _ _ eq_refl K1 E2) as [gone Hg].
  destruct (recount s2 d2 b2) as [r d3] eqn:E3. destruct r as [[]|]; [|done]. injection E as <- <- <-.
  destruct (pg_store _ _ _ _ _ _ _ _ _ _ Hg) as [Hn2 Hc2]. 
  destruct (recount_keeps s2 d2 b2 _ d3 Hn2 (pg_keeps _ _ _ _ _ _ _ _ _ _ Hg) E3) as (M3 & K3 & Hm3).
  exists M3. split; [|by rewrite (sm_ties _ _ Hm3), ties_purged, (sm_ties _ _ Hm1)]. split; [split_and!; [done|by rewrite Hc2|done]|].
  rewrite (sm_used _ _ Hm3), <- (sm_used _ _ Hm1). pose proof (pg_used _ _ _ _ _ _ _ _ _ _ Hg). lia.
Qed.

(** ** The promises *)

Section promises.
Context (opening : Z).
#[local] Abbreviation in_order := (in_order ns opening).

(** What is tied is served. *)
Lemma tied_is_served s d b M p c l m : in_order (s, d, b) M -> bk_ties M !! (p, c) = Some m -> blob_contents b !! c = Some l ->
  bk_sizes M !! c = Some (zlen l) /\
  (forall r, GetChunk s d b c = Ret r -> r = Some l \/ (r = None /\ blob_Get b c = None)) /\
  (forall v, HasChunk s d b c = Ret v -> v = true \/ (v = false /\ blob_StoredSize b c = None)).
Proof.
  intros [(Es & _ & K) _] Ht Hl. destruct (bk_blob _ _ (proj2 K) c) as (l' & (Hl' & _) & Hsize); [exists p; by eexists|].
  rewrite Hl in Hl'. injection Hl' as <-. pose proof (proj2 (bk_size _ _ (proj2 K) _ _ Hsize)) as Hz. split; [done|]. split.
  - intros r E. unfold GetChunk in E. rewrite bool_decide_false, Es in E by done. walk_step E. apply (read_size ns Hns d _ M K) in Hret as ->.
    rewrite Hsize in E. destruct (blob_Get b c) as [l'|] eqn:Eg; [|right; split; [by injection E|done]].
    apply blob_get_there in Eg as [Eg _]. rewrite Hl in Eg. injection Eg as <-. rewrite Z.eqb_refl in E. left. by injection E.
  - intros v E. unfold HasChunk in E. rewrite bool_decide_false, Es in E by done. walk_step E. apply (read_size ns Hns d _ M K) in Hret as ->.
    rewrite Hsize in E. injection E as <-. destruct (blob_StoredSize b c) as [n|] eqn:En; [left|by right].
    apply blob_size_there in En as (l' & El & <-). rewrite Hl in El. injection El as <-. by apply bool_decide_true.
Qed.

(** C23: an admitted chunk is served until its publication is purged. Once
    [PutChunk] answers that a chunk is stored for a publication, whatever the
    database and the disk do, and whatever other chunks are admitted, purged,
    evicted or stored by other components, as long as no call purges that
    publication: its bytes are there; a read that does not fail answers them;
    and the proof the chunk was admitted with is the one that is given out for
    it, to whoever knows a publication the proof verifies for. *)
Theorem admitted_chunks_stay s d b M p c l proof lookup space st d1 b1 calls s' d' b' : in_order (s, d, b) M ->
  PutChunk s d b p c l proof lookup space = (st, d1, b1) -> admitted st = true -> Forall (spares p) calls ->
  foldl do_call (s, d1, b1) calls = (s', d', b') ->
  ComputeChunkId l = c /\ blob_contents b' !! c = Some l /\
  (forall r, GetChunk s' d' b' c = Ret r -> r = Some l \/ (r = None /\ blob_Get b' c = None)) /\
  (forall v, HasChunk s' d' b' c = Ret v -> v = true \/ (v = false /\ blob_StoredSize b' c = None)) /\
  (forall lookup' publication r, is_u32 proof.1 -> lookup' p = Ret (Some publication) ->
     VerifyChunkAuthorizationProof publication c proof = true ->
     GetChunkAuthorizationProof s' d' b' p c lookup' = Ret r -> r = Some proof \/ (r = None /\ blob_Get b' c = None)).
Proof.
  intros [(Es & Hcap & K) Hu] Eput Hadm Hcalls Erun.
  destruct (PutChunk_step ns Hns opening s d b p c l proof lookup space st d1 b1 M) as (M1 & Ho1 & _); [by split|done|].
  destruct (PutChunk_keeps ns Hns _ _ _ _ _ _ _ _ _ _ _ _ M Es Hcap K Eput) as (M1' & K1' & Had & _). rewrite Hadm in Had.
  clear M1 Ho1. rename M1' into M1. pose proof (ad_books _ _ _ _ _ _ _ _ _ Had) as EM1.
  destruct (ad_chunk _ _ _ _ _ _ _ _ _ Had) as (Hid & Hz & Hnull). destruct (ad_stored _ _ _ _ _ _ _ _ _ Had) as (Hl & _ & Hsz).
  assert (Ho1 : in_order (s, d1, b1) M1).
  { split; [done|]. destruct (bk_sizes M !! c) eqn:Hc; [|pose proof (ad_room _ _ _ _ _ _ _ _ _ Had Hc); lia].
    rewrite EM1. unfold bytes_in_use. cbn [spec_put bk_used]. by rewrite bool_decide_true by (by eexists). }
  assert (Htie : bk_ties M1 !! (p, c) = Some (EncodeProofMetadata proof)) by (rewrite EM1; apply lookup_insert_eq).
  destruct (run_ok ns Hns opening calls p Hcalls _ _ Ho1) as (M' & Ho' & Ht). rewrite Erun in *.
  destruct (Ht c _ Htie) as [Htie' Hkeep]. cbn [snd] in Hkeep. specialize (Hkeep l Hl Hid Hsz).
  destruct (tied_is_served s' d' b' M' p c l _ Ho' Htie' Hkeep) as (Hsize & Hget & Hhas). split_and!; [done..|].
  intros lookup' publication r Hindex Hlook Hver E. unfold GetChunkAuthorizationProof in E.
  rewrite Hnull, bool_decide_false, Hlook in E by done. cbn [orb outcome_bind] in E. walk_step E.
  destruct (Hget _ eq_refl) as [-> |[-> Hnone]]; [|right; by injection E as <-].
  rewrite bool_decide_true in E by done. cbn [negb] in E. walk_step E. destruct Ho' as [(Es' & _ & K') _]. rewrite Es' in Hret0.
  apply (read_tie ns Hns d' _ M' K') in Hret0 as ->. rewrite Htie' in E.
  rewrite DecodeProofMetadata_Encode, Hver in E; [left; by injection E|done|]. by eapply Verify_siblings.
Qed.

(** C24: the provider's books stay exact. Over every run of admissions,
    purges, evictions and foreign blobs, with whatever failures of the
    database and the disk, the rows of the database are some books in which:
    the bytes in use are the sum of the sizes of the admitted chunks and never
    exceed the larger of the capacity and of what was used when the store was
    opened, since a lowered quota keeps accepted replicas; each admitted chunk is tied to a publication or waits to be
    purged, never both; the bytes of the tied ones are stored under their
    hash; and nothing without a reason is counted. *)
Theorem books_stay_exact w M calls s' d' b' : in_order w M -> foldl do_call w calls = (s', d', b') ->
  exists M', keeps ns (contents d') (blob_contents b') M' /\
    (forall n, UsedBytes s' d' = Ret n -> n = map_sum id (bk_sizes M')) /\
    map_sum id (bk_sizes M') <= Z.max opening (fc_capacity_bytes s') /\
    (forall c, is_Some (bk_sizes M' !! c) <-> tied M' c \/ is_Some (bk_purges M' !! c)) /\
    (forall c, tied M' c -> bk_purges M' !! c = None) /\
    (forall c, tied M' c -> exists l, intact (blob_contents b') c l /\ bk_sizes M' !! c = Some (zlen l)).
Proof.
  intros Ho Erun. assert (Hstep : forall calls w M, in_order w M -> exists M', in_order (foldl do_call w calls) M').
  { clear calls w M Ho Erun. induction calls as [|e calls IH]; intros w M Ho; cbn [foldl]; [by exists M|].
    destruct (call_step ns Hns opening e w M Ho) as (M1 & Ho1 & _). by eapply IH. }
  destruct (Hstep calls w M Ho) as [M' Ho']. rewrite Erun in Ho'. destruct Ho' as [(Es & _ & K) Hu]. exists M'. pose proof (proj2 K) as Hok.
  split_and!; [done|..].
  - intros n E. unfold UsedBytes in E. rewrite Es in E. walk_step E. apply (read_counter ns Hns d' _ M' K) in Hret as ->. injection E as <-.
    by apply (bk_count _ _ Hok).
  - by rewrite <- (bk_count _ _ Hok).
  - intros c. split; [apply (bk_reason _ _ Hok)|]. intros [Ht|[n Hn]]; [by apply (bk_tied _ _ Hok)|]. exists n. by apply (bk_purge _ _ Hok).
  - intros c Ht. by apply (bk_tied _ _ Hok).
  - apply (bk_blob _ _ Hok).
Qed.
End promises.
End service.

(** * The provider's housekeeping

    [CollectChunkGarbage] of [src/src/cybou/node_runtime_provider.cpp]: the
    purges that wait, then the cache, over the one blob store that the
    provider and the local content share. *)

Import Chunks.
Import Purges.

Definition GRACE_MS : Z := 10 * 60 * 1000.

Section node.
Context `{CryptoOps} {L : LevelDB} {Bs : BlobStore}.

(** The stores of [ProviderCore]: the admission store with its database, the
    database of the retention registry, and the blobs. *)
Record ProviderCore : Type := mkProvider {
  finalized_chunk_store : FinalizedChunkStore;
  finalized_db : db;
  chunk_retention : db;
  chunk_blob_store : blobs;
}.
Definition CollectChunkGarbage (n : ProviderCore) (cache_budget_bytes now_ms max_removals : Z) : outcome CollectResult * ProviderCore :=
  match RetryPendingPurges (finalized_chunk_store n) (finalized_db n) (chunk_blob_store n) max_removals with
  | (Throw, s, d, b) => (Throw, mkProvider s d (chunk_retention n) b)
  | (Ret _, s, d, b) =>
      let '(result, retention, b) :=
        Collect blob_StoredSize (fun b id => RemoveUnlessAdmitted s d b id) (chunk_retention n) b cache_budget_bytes now_ms GRACE_MS max_removals in
      (Ret result, mkProvider s d retention b)
  end.
End node.

Section housekeeping.
Context `{CryptoOps} {L : LevelDB} {Laws : LevelDBLaws L} {Bs : BlobStore} {BlobLaws : BlobStoreLaws Bs}.
Context (ns : bytes) (Hns : zlen ns = NS) (opening : Z).
#[local] Set Default Proof Using "Type + Laws + BlobLaws + Hns".

Definition provider_world (n : ProviderCore) : world := (finalized_chunk_store n, finalized_db n, chunk_blob_store n).

Lemma evictions s d calls : forall b M, in_order ns opening (s, d, b) M ->
  let b' := after_removals (fun b id => RemoveUnlessAdmitted s d b id) b calls in
  in_order ns opening (s, d, b') M /\
  forall c l, (tied M c \/ c ∉ calls) -> blob_contents b !! c = Some l -> blob_contents b' !! c = Some l.
Proof.
  induction calls as [|c calls IH]; intros b M Ho; cbv zeta; [done|]. unfold after_removals. cbn [foldl].
  destruct (RemoveUnlessAdmitted s d b c) as [r b1] eqn:E. cbn [snd].
  destruct (Evict_keeps ns Hns opening _ _ _ _ _ _ _ Ho E) as [Ho1 Hkeep1]. destruct (IH b1 M Ho1) as [Ho' Hkeep']. split; [exact Ho'|].
  intros c0 l Hc Hl. apply Hkeep'; [|apply Hkeep1; [|done]]; rewrite not_elem_of_cons in Hc; tauto.
Qed.

(** C25: the housekeeping takes nothing that is needed. Whatever the databases
    and the disk do, a pass of [CollectChunkGarbage] leaves the provider's
    books in order and its ties as they were, changes no pin, and keeps the
    bytes of every chunk that a publication is tied to and of every chunk that
    anything pins, unless that chunk was waiting to be purged. *)
Theorem housekeeping_spares n n' M R result cache_budget_bytes now_ms max_removals : in_order ns opening (provider_world n) M ->
  retains (contents (chunk_retention n)) R -> 0 <= max_removals <= MAX64 ->
  CollectChunkGarbage n cache_budget_bytes now_ms max_removals = (result, n') ->
  exists M' R', in_order ns opening (provider_world n') M' /\ bk_ties M' = bk_ties M /\
    retains (contents (chunk_retention n')) R' /\ (forall key c, pinned_by R' key c = pinned_by R key c) /\
    (forall c l, tied M c \/ (exists key, pinned_by R key c = true) /\ bk_purges M !! c = None ->
       blob_contents (chunk_blob_store n) !! c = Some l -> blob_contents (chunk_blob_store n') !! c = Some l).
Proof.
  intros Ho HR Hmax E. unfold CollectChunkGarbage in E. destruct n as [s d rd b]. cbn [finalized_chunk_store finalized_db chunk_retention chunk_blob_store] in *.
  destruct (RetryPendingPurges s d b max_removals) as [[[r s1] d1] b1] eqn:Er. pose proof Ho as [(Es & Hcap & K) Hu].
  destruct (Retry_keeps ns Hns s d b max_removals M _ _ _ _ Es K Er) as [gone Hg].
  set (M1 := foldl spec_purged M gone) in *. assert (Ho1 : in_order ns opening (s1, d1, b1) M1) by (eapply (purged_in_order ns opening s d b M); done).
  assert (Hties : bk_ties M1 = bk_ties M) by apply ties_purged.
  assert (Hkeep1 : forall c l, bk_purges M !! c = None -> blob_contents b !! c = Some l -> blob_contents b1 !! c = Some l) by apply (pg_blobs _ _ _ _ _ _ _ _ _ _ Hg).
  assert (Hwait : forall c, tied M c -> bk_purges M !! c = None) by (intros c Ht; by apply (bk_tied _ _ (proj2 K))).
  destruct r as [completed|].
  2: { injection E as <- <-. exists M1, R. split_and!; [done..|]. intros c l Hc. apply Hkeep1. destruct Hc as [Hc|[_ Hc]]; [by apply Hwait|done]. }
  destruct (Collect _ _ rd b1 _ _ _ _) as [[res rd'] b2] eqn:Ec. injection E as <- <-.
  destruct (Collect_collected _ _ _ _ R _ _ _ _ _ _ _ HR Hmax Ec) as (calls & missing & Hc).
  destruct (evictions s1 d1 calls b1 M1 Ho1) as [Ho2 Hkeep2]. rewrite <- (cl_world _ _ _ _ _ _ _ _ _ _ _ _ _ Hc) in Ho2, Hkeep2.
  exists M1, (spec_forget missing R). split_and!; [exact Ho2|done|apply (cl_registry _ _ _ _ _ _ _ _ _ _ _ _ _ Hc)|done|].
  intros c l Hneed Hl. assert (Hnw : bk_purges M !! c = None) by (destruct Hneed as [Ht|[_ Hn]]; [by apply Hwait|done]).
  apply Hkeep2; [|by apply Hkeep1]. destruct Hneed as [[p Hp]|[[key Hkey] _]]; [left; exists p; by rewrite Hties|right].
  intros Hin. pose proof (proj1 (Forall_forall _ _) (cl_evictable _ _ _ _ _ _ _ _ _ _ _ _ _ Hc) c Hin) as (Hfree & _). by rewrite Hfree in Hkey.
Qed.
End housekeeping.
