(* ===== verification/Pool.v ===== *)
(** * The operation pool

    [src/src/cybou/operation_pool.cpp] and [operation_work.cpp]: the candidate
    operations a node holds before finalization, executed as they arrive on top
    of the finalized state, with limits for the node and for each peer, and the
    relay proof of work. The pool reads the store through the interface
    [FinalizedStore]; an exception ends the run. *)

From S2P Require Import Prelude.
From S2P Require Import Bytes.
From S2P Require Import Codec.
From S2P Require Import Params.
From S2P Require Import Crypto.
From S2P Require Import Identity.
From S2P Require Import Payloads.
From S2P Require Import Operation.
From S2P Require Import State.
From S2P Require Import StateCodec.
From S2P Require Import StateCodecProofs.
From S2P Require Import Executor.
From S2P Require Import KVStore.
From S2P Require Import NetworkGenesis.
From S2P Require Import StateStore.
From S2P Require Import StateCommit.

(** ** Relay proof of work *)

Section work.
Context `{CryptoOps}.

Definition operation_work_preimage (network_binding operation_id : Hash256) (nonce : Z) : list bytes :=
  [str "CYBOU/OP-WORK"; arr_val network_binding; arr_val operation_id; le_bytes 8 nonce].
Definition ComputeOperationWorkHash (network_binding operation_id : Hash256) (nonce : Z) : outcome Hash256 :=
  Sha256 (operation_work_preimage network_binding operation_id nonce).

Definition CheckOperationWork (network_binding operation_id : Hash256) (nonce required_bits : Z) : outcome bool :=
  return_if required_bits =? 0 with Ret true ;;
  return_if (256 <? required_bits) || IsNull network_binding || IsNull operation_id with Ret false ;;
  try! hash := ComputeOperationWorkHash network_binding operation_id nonce ;;
  Ret (required_bits <=? leading_zero_bits (arr_val hash)).

(** The test of the search: whole zero bytes, then a mask on the next byte. *)
Definition work_mask (rem_bits : Z) : Z := if rem_bits =? 0 then 0 else Z.land (Z.shiftl 0xff (8 - rem_bits)) 0xff.
Definition work_matches (hash : bytes) (required_bits : Z) : bool :=
  let full_zero_bytes := required_bits / 8 in
  let rem_mask := work_mask (required_bits mod 8) in
  let match_ := forallb (fun b => zb b =? 0) (take (Z.to_nat full_zero_bytes) hash) in
  match_ && negb (negb (rem_mask =? 0)
    && negb (Z.land (default 0 (zb <$> hash !! Z.to_nat full_zero_bytes)) rem_mask =? 0)).

(** The loop, for [fuel] nonces from a random start; [stop] is the stop token
    as the loop sees it. [None] with fuel left is a stop or a provider error,
    [Some None] is fuel exhausted. *)
Fixpoint solve_loop (fuel : nat) (stop : Z -> bool) (network_binding operation_id : Hash256) (required_bits tries nonce : Z)
    : option (option Z) :=
  match fuel with
  | O => Some None
  | S fuel =>
      return_if (Z.land tries 0xffff =? 0) && stop tries with None ;;
      let? hash := ComputeSha256 (operation_work_preimage network_binding operation_id nonce) else None ;;
      if work_matches (arr_val hash) required_bits then Some (Some nonce)
      else solve_loop fuel stop network_binding operation_id required_bits (tries ⊕ 1) (nonce ⊕ 1)
  end.
(** [random_hi] and [random_lo] are the two draws of [std::random_device]. *)
Definition SolveOperationWork (fuel : nat) (stop : Z -> bool) (random_hi random_lo : Z) (network_binding operation_id : Hash256)
    (required_bits : Z) : option (option Z) :=
  return_if required_bits =? 0 with Some (Some 0) ;;
  return_if (64 <? required_bits) || IsNull network_binding || IsNull operation_id with None ;;
  solve_loop fuel stop network_binding operation_id required_bits 0 (Z.lxor (wrap64 (Z.shiftl random_hi 32)) random_lo).
End work.

Definition RequiredOperationWorkBits (operation : ProtocolOperation) : Z :=
  match AuthorizingAccount operation with
  | None => 0
  | Some _ =>
      let name := match operation with OpNameCommit _ | OpNameReveal _ => true | _ => false end in
      OPERATION_WORK_BITS + (if name then NAME_OPERATION_EXTRA_WORK_BITS else 0)
  end.

(** ** What the pool reads from the store *)

Class FinalizedStore (S : Type) : Type := {
  fs_head : S -> outcome (option FinalizedHead);
  fs_snapshot : S -> outcome (option CybouState);
  fs_indexed : S -> Hash256 -> outcome bool;
  fs_params : S -> CybouProtocolParameters;
  fs_poa_key : S -> IdentityHybridPublicKey;
  fs_binding : S -> Hash256;
}.
(** [CybouStateStore] on its database. *)
#[export] Instance state_store `{CryptoOps} `{LevelDB} : FinalizedStore (CybouStateStore * db) := {|
  fs_head n := GetFinalizedHead n.2;
  fs_snapshot n := try! loaded := (GetStateSnapshot n.1 n.2).1 ;; Ret (match loaded with inr st => Some st | inl _ => None end);
  fs_indexed n := HasIndexedFinalizedOperation n.1 n.2;
  fs_params n := GetProtocolParameters (ss_network_genesis n.1);
  fs_poa_key n := GetPoaPublicKey (ss_network_genesis n.1);
  fs_binding n := ss_network_binding n.1;
|}.

(** ** Data *)

Inductive PoolAdmission : Type := PA_ACCEPTED | PA_ALREADY_PENDING | PA_ALREADY_FINALIZED | PA_REJECTED.
#[export] Instance PoolAdmission_eq_dec : EqDecision PoolAdmission.
Proof. solve_decision. Defined.
Record OperationPoolLimits : Type := mkLimits {
  max_count : Z;
  max_bytes : Z;
  max_peer_count : Z;
  max_peer_bytes : Z;
  operation_work_bits : option Z;
}.
Definition default_limits : OperationPoolLimits := mkLimits 256 (8 * 1024 * 1024) 32 (1024 * 1024) None.

Record Entry : Type := mkEntry {
  en_operation : ProtocolOperation;
  en_id : Hash256;
  en_work_nonce : Z;
  en_bytes : Z;
  en_source_peer : option bytes;
}.
Record PeerUsage : Type := mkUsage { us_count : Z; us_bytes : Z }.
Record WorkingContext : Type := mkWorking {
  wk_head : FinalizedHead;
  wk_finalized_state : CybouState;
  wk_executor : BlockExecutor;
}.
Record OperationPool : Type := mkPool {
  p_limits : OperationPoolLimits;
  p_entries : list Entry;
  p_ids : gset Hash256;
  p_peer_usage : gmap bytes PeerUsage;
  p_bytes : Z;
  p_working : option WorkingContext;
}.
Definition set_working (p : OperationPool) (w : option WorkingContext) :=
  mkPool (p_limits p) (p_entries p) (p_ids p) (p_peer_usage p) (p_bytes p) w.

(** ** Limits *)

Definition FitsGlobalLimits (p : OperationPool) (n : Z) : bool :=
  (zlen (p_entries p) <? max_count (p_limits p)) && (p_bytes p <=? max_bytes (p_limits p))
  && (n <=? max_bytes (p_limits p) ⊖ p_bytes p).
Definition FitsPeerLimits (p : OperationPool) (peer : bytes) (n : Z) : bool :=
  let usage := default (mkUsage 0 0) (p_peer_usage p !! peer) in
  (us_count usage <? max_peer_count (p_limits p)) && (us_bytes usage <=? max_peer_bytes (p_limits p))
  && (n <=? max_peer_bytes (p_limits p) ⊖ us_bytes usage).
Definition RecordPeerUsage (usage : gmap bytes PeerUsage) (peer : option bytes) (n : Z) : gmap bytes PeerUsage :=
  match peer with
  | None => usage
  | Some peer =>
      let u := default (mkUsage 0 0) (usage !! peer) in
      <[peer := mkUsage (us_count u ⊕ 1) (us_bytes u ⊕ n)]> usage
  end.
Definition RequiredWorkBits (p : OperationPool) (operation : ProtocolOperation) : Z :=
  let bits := RequiredOperationWorkBits operation in
  match operation_work_bits (p_limits p) with
  | Some fixed => if bits =? 0 then bits else fixed
  | None => bits
  end.
Definition WorkNonce (p : OperationPool) (id : Hash256) : option Z :=
  en_work_nonce <$> List.find (fun entry => bool_decide (en_id entry = id)) (p_entries p).
Definition Ids (p : OperationPool) : list Hash256 := en_id <$> p_entries p.
Definition Snapshot (p : OperationPool) : list ProtocolOperation := en_operation <$> p_entries p.
Definition Clear (p : OperationPool) : OperationPool := mkPool (p_limits p) [] ∅ ∅ 0 None.

(** The bookkeeping of an entry that is kept, with the executor after it. *)
Definition keep_entry (p : OperationPool) (w : WorkingContext) (x : BlockExecutor) (entry : Entry) : OperationPool :=
  mkPool (p_limits p) (p_entries p ++ [entry]) ({[en_id entry]} ∪ p_ids p)
    (RecordPeerUsage (p_peer_usage p) (en_source_peer entry) (en_bytes entry)) (p_bytes p ⊕ en_bytes entry)
    (Some (mkWorking (wk_head w) (wk_finalized_state w) x)).

Section pool.
Context `{CryptoOps} {S : Type} `{FinalizedStore S}.

(** ** The working context *)

Fixpoint replay (x : BlockExecutor) (entries : list Entry) : outcome (option BlockExecutor) :=
  match entries with
  | [] => Ret (Some x)
  | entry :: rest =>
      try! (result, x) := ApplyOperation x (en_operation entry) ;;
      return_if negb (bool_decide (res_error result = BE_NONE)) with Ret None ;;
      replay x rest
  end.
Definition EnsureWorkingContext (p : OperationPool) (s : S) (head : FinalizedHead) : outcome OperationPool :=
  return_if match p_working p with Some w => bool_decide (fh_block_id (wk_head w) = fh_block_id head) | None => false end
    with Ret p ;;
  try! loaded := fs_snapshot s ;;
  let? state := loaded else Ret (set_working p None) ;;
  let executor := new_executor state (fs_binding s) (fh_height head ⊕ 1) (fs_params s) (Some (fs_poa_key s)) (fh_block_id head) in
  return_if negb (m_valid executor) with Ret (set_working p None) ;;
  try! replayed := replay executor (p_entries p) ;;
  Ret (set_working p (match replayed with Some x => Some (mkWorking head state x) | None => None end)).

(** The head to work on, if any: [GetFinalizedHead] and its height check. *)
Definition working_head (s : S) : outcome (option FinalizedHead) :=
  try! head := fs_head s ;;
  Ret (match head with Some head => if fh_height head =? MAX64 then None else Some head | None => None end).
(** The working context of a pool, when its executor is valid. *)
Definition working (p : OperationPool) : option WorkingContext :=
  let? w := p_working p else None ;;
  if m_valid (wk_executor w) then Some w else None.

(** ** Admission *)

Definition already_created (w : WorkingContext) (operation : ProtocolOperation) : bool :=
  match operation with
  | OpAccountCreate create => bool_decide (is_Some (accounts (wk_finalized_state w) !! ac_account_id create))
  | _ => false
  end.
(** The checks on the peer. *)
Definition peer_ok (p : OperationPool) (peer : option bytes) (n : Z) : bool :=
  match peer with
  | None => true
  | Some peer => negb (zlen peer =? 0) && FitsPeerLimits p peer n
  end.
(** Speculative execution on a copy of the executor. *)
Definition try_operation (w : WorkingContext) (operation : ProtocolOperation) : outcome (option BlockExecutor) :=
  try! (exec, x) := ApplyOperation (wk_executor w) operation ;;
  Ret (if bool_decide (res_error exec = BE_NONE) && CanFinalize x then Some x else None).

Definition Admit (p : OperationPool) (s : S) (operation : ProtocolOperation) (work_nonce : Z) (source_peer : option bytes)
    : outcome (PoolAdmission * OperationPool) :=
  try! encoded := SerializeProtocolOperation operation ;;
  let? encoded := encoded else Ret (PA_REJECTED, p) ;;
  return_if (zlen encoded =? 0) || (MAX_OPERATION_PAYLOAD_BYTES <? zlen encoded) with Ret (PA_REJECTED, p) ;;
  let? id := ComputeOperationIdBytes encoded else Ret (PA_REJECTED, p) ;;
  return_if IsNull id with Ret (PA_REJECTED, p) ;;
  return_if bool_decide (id ∈ p_ids p) with Ret (PA_ALREADY_PENDING, p) ;;
  try! indexed := fs_indexed s id ;;
  return_if indexed with Ret (PA_ALREADY_FINALIZED, p) ;;
  try! head := working_head s ;;
  let? head := head else Ret (PA_REJECTED, p) ;;
  try! p := EnsureWorkingContext p s head ;;
  let? w := working p else Ret (PA_REJECTED, p) ;;
  return_if already_created w operation with Ret (PA_REJECTED, p) ;;
  try! work := CheckOperationWork (fs_binding s) id work_nonce (RequiredWorkBits p operation) ;;
  return_if negb work with Ret (PA_REJECTED, p) ;;
  return_if negb (FitsGlobalLimits p (zlen encoded)) with Ret (PA_REJECTED, p) ;;
  return_if negb (peer_ok p source_peer (zlen encoded)) with Ret (PA_REJECTED, p) ;;
  try! executed := try_operation w operation ;;
  let? x := executed else Ret (PA_REJECTED, p) ;;
  Ret (PA_ACCEPTED, keep_entry p w x (mkEntry operation id work_nonce (zlen encoded) source_peer)).

(** ** Revalidation *)

(** The checks on one entry: the pool with the entry kept, or [None]. *)
Definition revalidate_entry (p : OperationPool) (s : S) (w : WorkingContext) (entry : Entry) : outcome (option OperationPool) :=
  return_if bool_decide (en_id entry ∈ p_ids p) with Ret None ;;
  try! indexed := fs_indexed s (en_id entry) ;;
  return_if indexed with Ret None ;;
  return_if match en_operation entry with
            | OpAccountCreate _ => (max_account_creates_per_block (fs_params s) <=? m_account_creates (wk_executor w))
                                   || already_created w (en_operation entry)
            | _ => false
            end with Ret None ;;
  try! work := CheckOperationWork (fs_binding s) (en_id entry) (en_work_nonce entry) (RequiredWorkBits p (en_operation entry)) ;;
  return_if negb work with Ret None ;;
  return_if negb (FitsGlobalLimits p (en_bytes entry)) with Ret None ;;
  return_if negb (peer_ok p (en_source_peer entry) (en_bytes entry)) with Ret None ;;
  try! executed := try_operation w (en_operation entry) ;;
  let? x := executed else Ret None ;;
  Ret (Some (keep_entry p w x entry)).
Fixpoint revalidate_loop (p : OperationPool) (s : S) (previous : list Entry) : outcome (list Hash256 * OperationPool) :=
  match previous with
  | [] => Ret ([], p)
  | entry :: rest =>
      let? w := p_working p else Throw ;;
      try! kept := revalidate_entry p s w entry ;;
      match kept with
      | Some p => revalidate_loop p s rest
      | None =>
          try! (dropped, p) := revalidate_loop p s rest ;;
          Ret (en_id entry :: dropped, p)
      end
  end.
Definition Revalidate (p : OperationPool) (s : S) : outcome (list Hash256 * OperationPool) :=
  let previous := p_entries p in
  let p := Clear p in
  return_if bool_decide (zlen previous = 0) with Ret ([], p) ;;
  let all := en_id <$> previous in
  try! head := working_head s ;;
  let? head := head else Ret (all, p) ;;
  try! p := EnsureWorkingContext p s head ;;
  let? _ := working p else Ret (all, p) ;;
  revalidate_loop p s previous.
End pool.

(** * What the pool guarantees

    Its accounting is exact and within the limits; what it holds always
    executes as the next block on the finalized state; and the search for relay
    work finds what the check accepts. *)

(** ** Relay work *)

Lemma all_bytes (P : byte -> bool) : forallb (fun i => P (bz (Z.of_nat i))) (seq 0 256) = true -> forall b, P b = true.
Proof.
  intros Hall b. rewrite <- (bz_zb b). pose proof (zb_range b).
  assert (Hin : List.In (Z.to_nat (zb b)) (seq 0 256)) by (apply in_seq; lia).
  pose proof (proj1 (forallb_forall _ _) Hall _ Hin) as E. cbv beta in E. by rewrite Z2Nat.id in E by lia.
Qed.
Lemma mask_test r b : 0 <= r < 8 ->
  negb (negb (work_mask r =? 0) && negb (Z.land (zb b) (work_mask r) =? 0)) = (r <=? if zb b =? 0 then 8 else countl_zero b).
Proof.
  intros Hr. revert b. assert (Hcase : r = 0 \/ r = 1 \/ r = 2 \/ r = 3 \/ r = 4 \/ r = 5 \/ r = 6 \/ r = 7) by lia.
  assert (Hall : forall b, Bool.eqb (negb (negb (work_mask r =? 0) && negb (Z.land (zb b) (work_mask r) =? 0)))
    (r <=? if zb b =? 0 then 8 else countl_zero b) = true).
  { destruct Hcase as [->|[->|[->|[->|[->|[->|[->| ->]]]]]]]; apply all_bytes; vm_compute; reflexivity. }
  intros b. by apply eqb_prop.
Qed.
Lemma leading_zero_bits_nonneg l : 0 <= leading_zero_bits l.
Proof.
  induction l as [|b l IH]; cbn [leading_zero_bits]; [done|]. destruct (zb b =? 0) eqn:E; [lia|]. unfold countl_zero. rewrite E.
  pose proof (zb_range b). apply Z.eqb_neq in E. pose proof (Z.log2_lt_pow2 (zb b) 8). lia.
Qed.

(** The test of the search is the test of the check. *)
Lemma work_matches_correct hash bits : 0 <= bits <= 8 * zlen hash -> work_matches hash bits = (bits <=? leading_zero_bits hash).
Proof.
  unfold work_matches. cbv zeta. revert bits. induction hash as [|b hash IH]; intros bits Hb.
  { change (zlen []) with 0 in Hb. replace bits with 0 by lia. reflexivity. }
  rewrite zlen_cons in Hb. pose proof (leading_zero_bits_nonneg hash). destruct (Z_lt_le_dec bits 8) as [Hlt|Hge].
  - rewrite Z.div_small, Z.mod_small by lia. change (Z.to_nat 0) with 0%nat. cbn [take forallb lookup list_lookup fmap option_fmap option_map default andb].
    unfold id. rewrite mask_test by lia. cbn [leading_zero_bits]. destruct (zb b =? 0); [|done].
    rewrite (proj2 (Z.leb_le bits 8)), (proj2 (Z.leb_le bits (8 + _))) by lia. done.
  - replace (bits / 8) with ((bits - 8) / 8 + 1) by (rewrite <- (Z.div_add (bits - 8) 1 8) by lia; f_equal; lia).
    replace (bits mod 8) with ((bits - 8) mod 8) by (rewrite <- (Z.mod_add (bits - 8) 1 8) by lia; f_equal; lia).
    assert (Hq : 0 <= (bits - 8) / 8) by (apply Z.div_pos; lia).
    rewrite Z2Nat.inj_add by lia. change (Z.to_nat 1) with 1%nat. rewrite Nat.add_1_r.
    change ((b :: hash) !! S ?n) with (hash !! n). cbn [take forallb leading_zero_bits]. destruct (zb b =? 0) eqn:Eb; cbn [andb].
    + rewrite (IH (bits - 8)) by lia. destruct (Z.leb_spec (bits - 8) (leading_zero_bits hash)), (Z.leb_spec bits (8 + leading_zero_bits hash)); lia.
    + symmetry. apply Z.leb_gt. unfold countl_zero. rewrite Eb. pose proof (Z.log2_nonneg (zb b)). lia.
Qed.

Section work.
Context `{CryptoOps}.

Definition has_work (network_binding operation_id : Hash256) (bits nonce : Z) : Prop :=
  exists hash, ComputeSha256 (operation_work_preimage network_binding operation_id nonce) = Some hash /\
    bits <= leading_zero_bits (arr_val hash).

Lemma solve_loop_sound fuel stop nb id bits : forall tries nonce r, 0 <= bits <= 256 ->
  solve_loop fuel stop nb id bits tries nonce = Some (Some r) -> has_work nb id bits r.
Proof.
  induction fuel as [|fuel IH]; intros tries nonce r Hb E; cbn [solve_loop] in E; [done|].
  walk_step E. walk_step E. walk_step E; [|by eapply IH]. do 2 some_inj E. exists a. split; [done|].
  rewrite work_matches_correct in Hif0 by (rewrite zlen_arr; simpl; lia). by apply Z.leb_le.
Qed.
(** Enough fuel to reach a nonce with work is enough to find one. *)
Lemma solve_loop_finds k : forall fuel stop nb id bits tries nonce, (k < fuel)%nat -> 0 <= bits <= 256 -> (forall t, stop t = false) ->
  (forall l, is_Some (evp_sha256 l)) -> has_work nb id bits (Nat.iter k (fun n => n ⊕ 1) nonce) ->
  exists r, solve_loop fuel stop nb id bits tries nonce = Some (Some r).
Proof.
  induction k as [|k IH]; intros fuel stop nb id bits tries nonce Hk Hb Hstop Hsha Hw; (destruct fuel as [|fuel]; [lia|]);
    cbn [solve_loop]; rewrite Hstop, andb_false_r.
  - destruct Hw as (hash & E & Hle). simpl in E. rewrite E. rewrite work_matches_correct by (rewrite zlen_arr; simpl; lia).
    rewrite (proj2 (Z.leb_le _ _)) by done. eauto.
  - destruct (Hsha (mjoin (operation_work_preimage nb id nonce))) as [hash E]. unfold ComputeSha256. rewrite E.
    destruct (work_matches _ _); [by eauto|]. apply IH; [lia|done..|]. by rewrite Nat.iter_succ_r in Hw.
Qed.

(** The search for relay work and its check agree: a nonce that
    [SolveOperationWork] returns passes [CheckOperationWork], although the
    search tests whole bytes and a mask and the check counts bits; and when the
    hash provider answers, the search is not stopped and one of the first
    [fuel] nonces has work, a nonce is found. *)
Theorem SolveOperationWork_correct fuel stop hi lo nb id bits : 0 <= bits <= 64 -> IsNull nb = false -> IsNull id = false ->
  (forall nonce, SolveOperationWork fuel stop hi lo nb id bits = Some (Some nonce) -> CheckOperationWork nb id nonce bits = Ret true) /\
  (forall k, (k < fuel)%nat -> (forall t, stop t = false) -> (forall l, is_Some (evp_sha256 l)) ->
     has_work nb id bits (Nat.iter k (fun n => n ⊕ 1) (Z.lxor (wrap64 (Z.shiftl hi 32)) lo)) ->
     exists nonce, SolveOperationWork fuel stop hi lo nb id bits = Some (Some nonce)).
Proof.
  intros Hb Hnb Hid. unfold SolveOperationWork, CheckOperationWork, ComputeOperationWorkHash.
  rewrite Hnb, Hid, (proj2 (Z.ltb_ge 64 bits)), (proj2 (Z.ltb_ge 256 bits)) by lia. cbn [orb]. split.
  - intros nonce. destruct (bits =? 0); [done|]. intros (hash & E & Hle)%solve_loop_sound; [|lia].
    unfold Sha256. rewrite E. cbn [or_throw outcome_bind]. f_equal. by apply Z.leb_le.
  - intros k Hk Hstop Hsha Hw. destruct (bits =? 0); [by eauto|]. by apply (solve_loop_finds k); [|lia|..].
Qed.
End work.

(** ** Accounting *)

Definition total (f : Entry -> Z) (l : list Entry) : Z := foldr (fun e acc => f e + acc) 0 l.
Definition of_peer (peer : bytes) (l : list Entry) : list Entry := List.filter (fun e => bool_decide (en_source_peer e = Some peer)) l.
Lemma total_app f a b : total f (a ++ b) = total f a + total f b.
Proof. unfold total. induction a as [|e a IH]; cbn [app foldr]; [lia|]. rewrite IH. lia. Qed.
Lemma total_nonneg f l : Forall (fun e => 0 <= f e) l -> 0 <= total f l.
Proof. induction 1; cbn; [done|]. unfold total in *. lia. Qed.
Lemma of_peer_app peer a b : of_peer peer (a ++ b) = of_peer peer a ++ of_peer peer b.
Proof. apply List.filter_app. Qed.

Definition limits_wf (l : OperationPoolLimits) : Prop :=
  is_u64 (max_count l) /\ is_u64 (max_bytes l) /\ is_u64 (max_peer_count l) /\ is_u64 (max_peer_bytes l).

(** The invariant of the pool's bookkeeping. *)
Record accounts_for `{CryptoOps} (p : OperationPool) : Prop := {
  af_ids : NoDup (Ids p) /\ forall id, id ∈ p_ids p <-> id ∈ Ids p;
  af_entries : Forall (fun e => exists l, SerializeProtocolOperation (en_operation e) = Ret (Some l) /\ en_bytes e = zlen l /\
    zlen l <= MAX_OPERATION_PAYLOAD_BYTES /\ ComputeOperationIdBytes l = Some (en_id e)) (p_entries p);
  af_bytes : p_bytes p = total en_bytes (p_entries p);
  af_global : zlen (p_entries p) <= max_count (p_limits p) /\ p_bytes p <= max_bytes (p_limits p);
  af_usage peer : default (mkUsage 0 0) (p_peer_usage p !! peer) =
    mkUsage (zlen (of_peer peer (p_entries p))) (total en_bytes (of_peer peer (p_entries p)));
  af_peer peer : zlen (of_peer peer (p_entries p)) <= max_peer_count (p_limits p) /\
    total en_bytes (of_peer peer (p_entries p)) <= max_peer_bytes (p_limits p);
}.

Section pool.
Context `{CryptoOps} {S : Type} `{FinalizedStore S}.

Lemma accounts_for_clear p : limits_wf (p_limits p) -> accounts_for (Clear p).
Proof.
  intros (H1 & H2 & H3 & H4). constructor; cbn; try done; [split; [apply NoDup_nil_2|set_solver]|unfold zlen; simpl; ulia|intros peer; unfold zlen; simpl; ulia].
Qed.
Lemma accounts_for_working p w : accounts_for p -> accounts_for (set_working p w).
Proof. by intros []. Qed.

Lemma of_peer_single peer e : of_peer peer [e] = if bool_decide (en_source_peer e = Some peer) then [e] else [].
Proof. unfold of_peer. cbn. by case_bool_decide. Qed.
Lemma entries_nonneg p : accounts_for p -> Forall (fun e => 0 <= en_bytes e) (p_entries p).
Proof. intros [_ He _ _ _ _]. eapply Forall_impl; [exact He|]. intros e (l & _ & -> & _). apply zlen_nonneg. Qed.
Lemma peer_nonneg p peer : accounts_for p -> 0 <= total en_bytes (of_peer peer (p_entries p)).
Proof.
  intros Ha. apply total_nonneg, Forall_forall. intros e He%list_elem_of_In%List.filter_In.
  apply (proj1 (Forall_forall _ _) (entries_nonneg p Ha)), list_elem_of_In, He.
Qed.

Lemma keep_entry_accounts p w x e l : limits_wf (p_limits p) -> accounts_for p -> en_id e ∉ p_ids p ->
  SerializeProtocolOperation (en_operation e) = Ret (Some l) -> en_bytes e = zlen l -> zlen l <= MAX_OPERATION_PAYLOAD_BYTES ->
  ComputeOperationIdBytes l = Some (en_id e) -> FitsGlobalLimits p (en_bytes e) = true -> peer_ok p (en_source_peer e) (en_bytes e) = true ->
  accounts_for (keep_entry p w x e).
Proof.
  intros (W1 & W2 & W3 & W4) Ha Hnin Es Eb Hl Eid Hg Hp. pose proof (entries_nonneg p Ha) as Hnn.
  pose proof (total_nonneg en_bytes _ Hnn) as Htot. pose proof (zlen_nonneg l).
  pose proof Ha as [[Hnd Hids] He Hb [Hc Hm] Hu Hpl]. unfold FitsGlobalLimits in Hg. guards.
  rewrite sub64_small in * by ulia. unfold keep_entry, Ids in *. constructor; unfold Ids; cbn [p_entries p_ids p_bytes p_limits p_peer_usage].
  - split.
    + rewrite fmap_app. apply NoDup_app. split_and!; [done| |apply NoDup_singleton].
      intros id Hin ->%list_elem_of_singleton. by apply Hnin, Hids.
    + intros id. rewrite fmap_app, elem_of_app, elem_of_union, elem_of_singleton, Hids. cbn. rewrite list_elem_of_singleton. tauto.
  - apply Forall_app. split; [done|]. constructor; [|constructor]. eauto 10.
  - rewrite total_app. cbn. rewrite add64_small by ulia. lia.
  - rewrite zlen_app. change (zlen [e]) with 1. rewrite add64_small by ulia. lia.
  - intros peer. rewrite of_peer_app, of_peer_single, zlen_app, total_app. unfold RecordPeerUsage, peer_ok in *.
    destruct (en_source_peer e) as [q|] eqn:Eq; cycle 1.
    { rewrite bool_decide_false by done. cbn. rewrite !Z.add_0_r. apply Hu. }
    apply andb_true_iff in Hp as [_ Hp]. unfold FitsPeerLimits in Hp. rewrite Hu in Hp. cbv zeta in Hp. cbn [us_count us_bytes] in Hp. guards.
    pose proof (peer_nonneg p q Ha). pose proof (Hpl q). pose proof (zlen_nonneg (of_peer q (p_entries p))).
    rewrite sub64_small in * by ulia. case_bool_decide as Hq.
    + injection Hq as <-. rewrite lookup_insert_eq, Hu. cbn. rewrite !add64_small by ulia. f_equal; lia.
    + rewrite lookup_insert_ne by congruence. rewrite Hu. cbn. by rewrite !Z.add_0_r.
  - intros peer. rewrite of_peer_app, of_peer_single, zlen_app, total_app. unfold peer_ok in Hp. specialize (Hpl peer).
    case_bool_decide as Hq; [|cbn; change (zlen []) with 0; lia]. rewrite Hq in Hp.
    apply andb_true_iff in Hp as [_ Hp]. unfold FitsPeerLimits in Hp. rewrite Hu in Hp. cbv zeta in Hp. cbn [us_count us_bytes] in Hp. guards.
    pose proof (peer_nonneg p peer Ha). rewrite sub64_small in * by ulia. cbn. change (zlen [e]) with 1. lia.
Qed.

Lemma EnsureWorkingContext_inv p s head p' : EnsureWorkingContext p s head = Ret p' -> exists w, p' = set_working p w.
Proof.
  intros E. unfold EnsureWorkingContext in E. walk_step E; [injection E as <-; exists (p_working p); by destruct p|].
  walk_step E. walk_step E; [|injection E as <-; by eexists]. cbv zeta in E. walk_step E; [injection E as <-; by eexists|].
  walk_step E. injection E as <-. by eexists.
Qed.
Lemma working_inv p w : working p = Some w -> p_working p = Some w /\ m_valid (wk_executor w) = true.
Proof. unfold working. intros E. walk E. by some_inj E. Qed.

(** What [Admit] does to the pool. *)
Lemma Admit_inv p s op nonce peer r p' : Admit p s op nonce peer = Ret (r, p') ->
  (r <> PA_ACCEPTED /\ (p' = p \/ exists head, working_head s = Ret (Some head) /\ EnsureWorkingContext p s head = Ret p')) \/
  (r = PA_ACCEPTED /\ exists head p1 w x l id, working_head s = Ret (Some head) /\ EnsureWorkingContext p s head = Ret p1 /\
    working p1 = Some w /\ try_operation w op = Ret (Some x) /\ p' = keep_entry p1 w x (mkEntry op id nonce (zlen l) peer) /\
    SerializeProtocolOperation op = Ret (Some l) /\ zlen l <= MAX_OPERATION_PAYLOAD_BYTES /\ ComputeOperationIdBytes l = Some id /\
    (id ∉ p_ids p) /\ FitsGlobalLimits p1 (zlen l) = true /\ peer_ok p1 peer (zlen l) = true).
Proof.
  intros E. unfold Admit in E. repeat (walk_step E; try (injection E as <- <-; left; split; [done|by left])).
  all: injection E as <- <-; try (left; split; [done|]; right; by eexists). guards. subst.
  right. split; [done|]. exists f, a3, w, b, l, a0. split_and!; done.
Qed.
Lemma revalidate_entry_inv p s w e p' : revalidate_entry p s w e = Ret (Some p') ->
  exists x, try_operation w (en_operation e) = Ret (Some x) /\ p' = keep_entry p w x e /\ (en_id e ∉ p_ids p) /\
    FitsGlobalLimits p (en_bytes e) = true /\ peer_ok p (en_source_peer e) (en_bytes e) = true.
Proof. intros E. unfold revalidate_entry in E. walk E. injection E as <-. guards. subst. exists b. split_and!; done. Qed.

(** An invariant that keeping an entry preserves holds after revalidation. *)
Lemma revalidate_loop_ind (I : OperationPool -> Prop) (Q : Entry -> Prop) s :
  (forall p w e p', I p -> Q e -> p_working p = Some w -> revalidate_entry p s w e = Ret (Some p') -> I p') ->
  forall previous p dropped p', I p -> Forall Q previous -> revalidate_loop p s previous = Ret (dropped, p') -> I p'.
Proof.
  intros Hstep. induction previous as [|e previous IH]; intros p dropped p' Hi Hq E; cbn [revalidate_loop] in E.
  { by injection E as <- <-. }
  apply Forall_cons in Hq as [He Hq]. walk_step E. walk_step E. destruct a as [p1|].
  - eapply IH; [|done|exact E]. by eapply Hstep.
  - walk_step E. destruct a as [dr p2]. injection E as <- <-. by eapply IH.
Qed.
Lemma Revalidate_inv p s dropped p' : Revalidate p s = Ret (dropped, p') ->
  p' = Clear p \/ exists head p1, working_head s = Ret (Some head) /\ EnsureWorkingContext (Clear p) s head = Ret p1 /\
    (p' = p1 \/ revalidate_loop p1 s (p_entries p) = Ret (dropped, p')).
Proof.
  intros E. unfold Revalidate in E. cbv zeta in E. walk_step E; [injection E as <- <-; by left|]. walk_step E.
  walk_step E; [|injection E as <- <-; by left]. walk_step E. right. exists f, a0. split_and!; [by subst|done|].
  walk_step E; [by right|injection E as <- <-; by left].
Qed.

(** *** The accounting invariant *)

Lemma Admit_accounts p s op nonce peer r p' : limits_wf (p_limits p) -> accounts_for p ->
  Admit p s op nonce peer = Ret (r, p') -> accounts_for p' /\ p_limits p' = p_limits p.
Proof.
  intros Hl Ha [(_ & [->|(head & _ & (w & ->)%EnsureWorkingContext_inv)])|(_ & head & p1 & w & x & l & id & Hh & He & Hw & Ht & -> & Hs)]%Admit_inv.
  - done.
  - split; [by apply accounts_for_working|done].
  - destruct Hs as (Es & Hz & Eid & Hnin & Hg & Hp). apply EnsureWorkingContext_inv in He as [w' ->]. split; [|done].
    eapply keep_entry_accounts; [done|by apply accounts_for_working|done..].
Qed.
Lemma Revalidate_accounts p s dropped p' : limits_wf (p_limits p) -> accounts_for p -> Revalidate p s = Ret (dropped, p') ->
  accounts_for p' /\ p_limits p' = p_limits p.
Proof.
  intros Hl Ha [->|(head & p1 & _ & (w & ->)%EnsureWorkingContext_inv & [->|E])]%Revalidate_inv.
  - split; [by apply accounts_for_clear|done].
  - split; [by apply accounts_for_working, accounts_for_clear|done].
  - pattern p'. eapply revalidate_loop_ind; [| |exact (af_entries _ Ha)|exact E]; cbv beta.
    + intros q w' e q' [Hq Hlq] (l & Es & Eb & Hz & Eid) _ (x & _ & -> & Hnin & Hg & Hp)%revalidate_entry_inv. split; [|done].
      eapply keep_entry_accounts; [by rewrite Hlq|done..].
    + split; [by apply accounts_for_working, accounts_for_clear|done].
Qed.

(** The pool over time, on whatever store it is given. *)
Inductive pool_step : OperationPool -> OperationPool -> Prop :=
| pool_admit p s op nonce peer r p' : Admit p s op nonce peer = Ret (r, p') -> pool_step p p'
| pool_revalidate p s dropped p' : Revalidate p s = Ret (dropped, p') -> pool_step p p'
| pool_clear p : pool_step p (Clear p).

(** C32: the pool's accounting is exact and within its limits, whatever is
    offered to it: ids are unique and those of the held operations, the byte
    count is the sum of their encodings, the usage charged to every peer is
    what it sent, and neither the pool nor any peer exceeds its quota. *)
Theorem pool_accounting p p' : limits_wf (p_limits p) -> rtc pool_step (Clear p) p' -> accounts_for p' /\ p_limits p' = p_limits p.
Proof.
  intros Hl Hs. set (I q := accounts_for q /\ p_limits q = p_limits p).
  assert (Hstep : forall a b, pool_step a b -> I a -> I b).
  { intros a b [q s op nonce peer r q' E|q s dropped q' E|q] [Ha Hq]; rewrite <- Hq in Hl.
    - destruct (Admit_accounts _ _ _ _ _ _ _ Hl Ha E) as [? E']. split; congruence.
    - destruct (Revalidate_accounts _ _ _ _ Hl Ha E) as [? E']. split; congruence.
    - split; [by apply accounts_for_clear|done]. }
  assert (Hclear : I (Clear p)) by (split; [by apply accounts_for_clear|done]).
  induction Hs as [|a b c Hab _ IH]; [done|]. by apply IH, (Hstep a).
Qed.

(** ** What the pool holds executes *)

Definition first_executor (s : S) (w : WorkingContext) : BlockExecutor :=
  new_executor (wk_finalized_state w) (fs_binding s) (fh_height (wk_head w) ⊕ 1) (fs_params s) (Some (fs_poa_key s))
    (fh_block_id (wk_head w)).
(** The context of a pool that works on the finalized head of [s]. *)
Record on_head (s : S) (entries : list Entry) (w : WorkingContext) : Prop := {
  oh_head : working_head s = Ret (Some (wk_head w));
  oh_state : fs_snapshot s = Ret (Some (wk_finalized_state w));
  oh_valid : m_valid (first_executor s w) = true;
  oh_replay : replay (first_executor s w) entries = Ret (Some (wk_executor w));
  oh_final : entries <> [] -> CanFinalize (wk_executor w) = true;
}.
Definition works_on (s : S) (p : OperationPool) : Prop :=
  match p_working p with Some w => on_head s (p_entries p) w | None => p_entries p = [] end.

Lemma replay_snoc x e entries : forall y r z, replay x entries = Ret (Some y) -> ApplyOperation y (en_operation e) = Ret (r, z) ->
  res_error r = BE_NONE -> replay x (entries ++ [e]) = Ret (Some z).
Proof.
  revert x. induction entries as [|e' entries IH]; intros x y r z E Ea Hr; cbn [replay app] in *.
  - injection E as <-. rewrite Ea. cbn [outcome_bind]. by rewrite bool_decide_eq_true_2.
  - destruct (ApplyOperation x (en_operation e')) as [[r' x']|]; [|done]. cbn [outcome_bind] in *.
    destruct (negb _); [done|]. by eapply IH.
Qed.
Lemma keep_on_head s entries w e x : on_head s entries w -> try_operation w (en_operation e) = Ret (Some x) ->
  on_head s (entries ++ [e]) (mkWorking (wk_head w) (wk_finalized_state w) x).
Proof.
  intros [H1 H2 H3 H4 H5] E. unfold try_operation in E. walk_step E. destruct a as [r z]. injection E as E.
  destruct (bool_decide _ && _) eqn:Eb; [|done]. some_inj E. guards. constructor; try done.
  by eapply replay_snoc.
Qed.
Lemma EnsureWorkingContext_works s p head p' : works_on s p -> working_head s = Ret (Some head) ->
  EnsureWorkingContext p s head = Ret p' -> works_on s p' /\ p_entries p' = p_entries p.
Proof.
  intros Hw Hh E. unfold works_on, EnsureWorkingContext in *. destruct (p_working p) as [w|] eqn:Ew.
  - destruct Hw as [H1 H2 H3 H4 H5]. rewrite Hh in H1. injection H1 as ->. rewrite bool_decide_eq_true_2 in E by done.
    injection E as <-. by rewrite Ew.
  - walk_step E. walk_step E; [|by injection E as <-]. cbv zeta in E. walk_step E; [by injection E as <-|]. rewrite Hw in E.
    cbn [replay outcome_bind] in E. injection E as <-. cbn [p_working p_entries set_working]. rewrite Hw. split; [|done]. guards.
    by constructor.
Qed.
Lemma works_on_keep s p w x e : works_on s p -> p_working p = Some w -> try_operation w (en_operation e) = Ret (Some x) ->
  works_on s (keep_entry p w x e).
Proof. unfold works_on. intros Hw Ew Et. rewrite Ew in Hw. cbn. by apply keep_on_head. Qed.

Lemma Admit_works s p op nonce peer r p' : works_on s p -> Admit p s op nonce peer = Ret (r, p') -> works_on s p'.
Proof.
  intros Hw [(_ & [->|(head & Hh & He)])|(_ & head & p1 & w & x & l & id & Hh & He & Hwk & Ht & -> & _)]%Admit_inv; [done|..].
  - by eapply EnsureWorkingContext_works.
  - apply working_inv in Hwk as [Hwk _]. eapply works_on_keep; [by eapply EnsureWorkingContext_works|done|done].
Qed.
Lemma Revalidate_works s p dropped p' : Revalidate p s = Ret (dropped, p') -> works_on s p'.
Proof.
  intros [->|(head & p1 & Hh & He & Hp)]%Revalidate_inv; [done|].
  destruct (EnsureWorkingContext_works s (Clear p) head p1) as [Hw _]; [done..|]. destruct Hp as [->|E]; [done|].
  eapply (revalidate_loop_ind (works_on s) (fun _ => True)); [|exact Hw|by apply Forall_true|exact E].
  intros q w e q' Hq _ Ew (x & Et & -> & _)%revalidate_entry_inv. by eapply works_on_keep.
Qed.

(** Executing the entries one by one is executing them as a block. *)
Definition creates (ops : list ProtocolOperation) : Z := zlen (List.filter is_create ops).
Lemma creates_cons op ops : creates (op :: ops) = (if is_create op then 1 else 0) + creates ops.
Proof. unfold creates. cbn [List.filter]. destruct (is_create op); [by rewrite zlen_cons|lia]. Qed.
Lemma ApplyOperation_none x op r x' : m_valid x = true -> ApplyOperation x op = Ret (r, x') -> res_error r = BE_NONE ->
  m_valid x' = true /\ m_params x' = m_params x /\ m_account_creates x' = m_account_creates x + (if is_create op then 1 else 0) /\
  (is_create op = true -> m_account_creates x < max_account_creates_per_block (m_params x)).
Proof.
  intros Hv E Hr. unfold ApplyOperation in E. rewrite Hv in E. cbn [negb] in E. walk_step E. destruct a as [e st]. walk_step E.
  - injection E as <- <-. cbn. split_and!; [done|done|destruct (is_create op); lia|]. guards. subst. intros Hc.
    destruct op; try done. cbn in Hret. walk_step Hret. by guards.
  - injection E as <- <-. cbn in Hr. by subst.
Qed.
Lemma replay_execute entries : forall x y i, m_valid x = true -> m_account_creates x <= max_account_creates_per_block (m_params x) ->
  replay x entries = Ret (Some y) ->
  execute_loop x i (en_operation <$> entries) = Ret (Finalize y) /\
  m_account_creates x + creates (en_operation <$> entries) <= max_account_creates_per_block (m_params x).
Proof.
  induction entries as [|e entries IH]; intros x y i Hv Hc E; cbn [replay] in E; rewrite ?fmap_cons, ?fmap_nil; cbn [execute_loop].
  - injection E as <-. split; [done|]. unfold creates. cbn. change (zlen []) with 0. lia.
  - walk_step E. destruct a as [r x']. walk_step E. guards.
    destruct (ApplyOperation_none _ _ _ _ Hv Hret Hif) as (Hv' & Hp & Hn & Hlt). cbn [outcome_bind].
    rewrite bool_decide_eq_true_2 by done. cbn [negb]. rewrite creates_cons.
    destruct (IH x' y (i + 1) Hv') as [H1 H2]; [|done|].
    { rewrite Hp, Hn. destruct (is_create _); [specialize (Hlt eq_refl)|]; lia. }
    split; [done|]. rewrite Hp, Hn in H2. lia.
Qed.

Fixpoint admit_all (p : OperationPool) (s : S) (requests : list (ProtocolOperation * Z * option bytes)) : outcome OperationPool :=
  match requests with
  | [] => Ret p
  | (op, nonce, peer) :: rest =>
      try! (_, p) := Admit p s op nonce peer ;;
      admit_all p s rest
  end.
Lemma admit_all_works s requests : forall p p', works_on s p -> admit_all p s requests = Ret p' -> works_on s p'.
Proof.
  induction requests as [|[[op nonce] peer] requests IH]; intros p p' Hw E; cbn [admit_all] in E; [by injection E as <-|].
  walk_step E. destruct a as [r p1]. eapply IH; [|exact E]. by eapply Admit_works.
Qed.

(** [applies x ops y]: the executor [x] accepts the operations [ops] one after
    another and is [y] after the last. *)
Inductive applies : BlockExecutor -> list ProtocolOperation -> BlockExecutor -> Prop :=
  | applies_nil x : applies x [] x
  | applies_cons x op r x1 ops y : ApplyOperation x op = Ret (r, x1) -> res_error r = BE_NONE -> applies x1 ops y ->
      applies x (op :: ops) y.
Lemma replay_applies entries : forall x y, replay x entries = Ret (Some y) -> applies x (en_operation <$> entries) y.
Proof.
  induction entries as [|e entries IH]; intros x y E; cbn [replay] in E; rewrite ?fmap_cons, ?fmap_nil.
  - injection E as <-. constructor.
  - walk_step E. destruct a as [r x']. walk_step E. guards. by econstructor; eauto.
Qed.
Lemma applies_valid x ops y : applies x ops y -> m_valid x = true -> m_valid y = true /\ m_initial_supply y = m_initial_supply x.
Proof.
  induction 1 as [|x op r x1 ops y E Hr Ha IH]; intros Hv; [done|].
  destruct (ApplyOperation_none _ _ _ _ Hv E Hr) as [Hv1 _]. destruct (IH Hv1) as [Hy ->]. split; [done|].
  unfold ApplyOperation in E. rewrite Hv in E. cbn [negb] in E. walk_step E. destruct a as [e st]. by walk_step E; injection E as _ <-.
Qed.

(** The executor that the pool starts from on [head] and its state [st]. *)
Definition next_executor (s : S) (head : FinalizedHead) (st : CybouState) : BlockExecutor :=
  new_executor st (fs_binding s) (fh_height head ⊕ 1) (fs_params s) (Some (fs_poa_key s)) (fh_block_id head).
Lemma works_on_execute s p : works_on s p -> p_entries p <> [] -> 0 <= max_account_creates_per_block (fs_params s) ->
  exists head st x, working_head s = Ret (Some head) /\ fs_snapshot s = Ret (Some st) /\ CanFinalize x = true /\
    applies (next_executor s head st) (Snapshot p) x /\ m_initial_supply x = TotalCybou st /\
    ExecuteBlockOperations st (Snapshot p) (fs_binding s) (fh_height head ⊕ 1) (fs_params s) (Some (fs_poa_key s)) (fh_block_id head)
    = Ret (Finalize x).
Proof.
  intros Hw Hne Hmax. unfold works_on in Hw. destruct (p_working p) as [w|]; [|done]. destruct Hw as [H1 H2 H3 H4 H5].
  exists (wk_head w), (wk_finalized_state w), (wk_executor w). pose proof (replay_applies _ _ _ H4) as Hx.
  split_and!; [done|done|by apply H5|exact Hx| |].
  - destruct (applies_valid _ _ _ Hx H3) as [_ ->]. revert H3. unfold first_executor, new_executor. by case_match.
  - unfold ExecuteBlockOperations. fold (first_executor s w).
    assert (Hx0 : m_account_creates (first_executor s w) = 0 /\ m_params (first_executor s w) = fs_params s)
      by (unfold first_executor, new_executor; by case_match).
    destruct Hx0 as [Hx0 Hxp]. destruct (replay_execute (p_entries p) _ _ 0 H3 ltac:(by rewrite Hx0, Hxp) H4) as [He Hcr].
    rewrite Hx0, Hxp in Hcr. fold (creates (Snapshot p)). fold (Snapshot p) in Hcr, He.
    rewrite (proj2 (Z.ltb_ge _ _)) by lia. cbv zeta. rewrite H3. exact He.
Qed.
Lemma CanFinalize_inv x : CanFinalize x = true ->
  m_valid x = true /\ ValidateCybouState (m_candidate x) = SV_NONE /\ TotalCybou (m_candidate x) = m_initial_supply x.
Proof.
  unfold CanFinalize. destruct (m_valid x); [|done]. cbn [negb]. case_bool_decide; [|done]. cbn [negb]. by intros ->%Z.eqb_eq.
Qed.
Lemma Finalize_CanFinalize x : CanFinalize x = true ->
  Finalize x = match CybouStateHash (m_candidate x) false with
               | Some root => mkResult BE_NONE 0 (Some (m_candidate x)) (Some root)
               | None => error_result BE_INVALID_STATE
               end.
Proof.
  intros (Hv & Hs & Ht)%CanFinalize_inv. unfold Finalize. by rewrite Hv, Hs, Ht, Z.eqb_refl, bool_decide_eq_true_2.
Qed.

(** What the pool holds is always the next block: after a revalidation
    and any admissions on the same finalized head, executing the held
    operations, in the pool's order, as a block on the finalized state succeeds
    and gives the state and root of the pool's own candidate. *)
Theorem pool_snapshot_executes p s dropped p1 requests p2 : 0 <= max_account_creates_per_block (fs_params s) ->
  Revalidate p s = Ret (dropped, p1) -> admit_all p1 s requests = Ret p2 -> p_entries p2 <> [] ->
  exists head st x, fs_head s = Ret (Some head) /\ fs_snapshot s = Ret (Some st) /\
    forall root, CybouStateHash (m_candidate x) false = Some root ->
      ExecuteBlockOperations st (Snapshot p2) (fs_binding s) (fh_height head ⊕ 1) (fs_params s) (Some (fs_poa_key s)) (fh_block_id head)
      = Ret (mkResult BE_NONE 0 (Some (m_candidate x)) (Some root)).
Proof.
  intros Hmax Er Ea Hne. apply Revalidate_works in Er. eapply admit_all_works in Ea; [|done].
  destruct (works_on_execute _ _ Ea Hne Hmax) as (head & st & x & Hh & Hs & Hf & _ & _ & Ex). exists head, st, x. split_and!; [|done|].
  - unfold working_head in Hh. walk_step Hh. injection Hh as Hh. destruct a as [h|]; [|done]. destruct (_ =? _); [done|]. by some_inj Hh.
  - intros root Hr. by rewrite Ex, Finalize_CanFinalize, Hr.
Qed.
End pool.

(** ** The pool on the state store *)

Section block_template.
Context `{CryptoOps} {L : LevelDB} {Laws : LevelDBLaws L}.
#[local] Set Default Proof Using "Type + Laws".

Lemma GetStateSnapshot_object s d r s1 : GetStateSnapshot s d = (r, s1) ->
  ss_network_genesis s1 = ss_network_genesis s /\ ss_network_binding s1 = ss_network_binding s.
Proof.
  unfold GetStateSnapshot. destruct (ss_state_snapshot s); [by intros [= _ <-]|].
  by destruct (LoadStateLocked s d) as [[]|]; intros [= _ <-].
Qed.

(** A validated state whose fields have their widths has a hash. *)
Lemma CybouStateHash_total st : (forall l, evp_sha256 l <> None) -> state_typed st -> registry_wf (identities st) ->
  (forall id rec, m_accounts (identities st) !! id = Some rec -> has_nonzero (arr_val (ir_kem_package_id rec)) = true) ->
  ValidateCybouState st = SV_NONE -> exists root, CybouStateHash st false = Some root.
Proof.
  intros Hsha Ht Hr Hk Hv. destruct (state_reads_back st Ht Hr Hk Hv) as (l & E & _).
  unfold CybouStateHash. rewrite <- Serialize_validate, E by done. unfold ComputeSha256.
  destruct (evp_sha256 _) as [root|] eqn:Eh; [by exists root|by apply Hsha in Eh].
Qed.

(** C10: the block that a finalizer builds from the pool is one the store
    computes a root for. With the pool revalidated and filled on the store's
    current head by any offers, the operations it holds are accepted one after
    another, in the pool's order, by an executor on the finalized state at the
    next height; the state they lead to is valid and holds the finalized
    state's money, and [ComputeCandidateStateRoot] of those operations is that
    state's hash. That hash exists when SHA-256 does not fail and the state's
    fields have their widths. *)
Theorem pool_candidate_root p (s : CybouStateStore) (d : db) dropped p1 requests p2 :
  0 <= max_account_creates_per_block (GetProtocolParameters (ss_network_genesis s)) ->
  Revalidate p (s, d) = Ret (dropped, p1) -> admit_all p1 (s, d) requests = Ret p2 -> p_entries p2 <> [] ->
  exists head st x, GetFinalizedHead d = Ret (Some head) /\ (GetStateSnapshot s d).1 = Ret (inr st) /\
    applies (next_executor (s, d) head st) (Snapshot p2) x /\
    ValidateCybouState (m_candidate x) = SV_NONE /\ TotalCybou (m_candidate x) = TotalCybou st /\
    (ComputeCandidateStateRoot s d (Snapshot p2) (fh_height head + 1)).1 = Ret (CybouStateHash (m_candidate x) false) /\
    ((forall l, evp_sha256 l <> None) -> state_typed (m_candidate x) -> registry_wf (identities (m_candidate x)) ->
     (forall id rec, m_accounts (identities (m_candidate x)) !! id = Some rec -> has_nonzero (arr_val (ir_kem_package_id rec)) = true) ->
     exists root, CybouStateHash (m_candidate x) false = Some root).
Proof.
  intros Hmax Er Ea Hne. apply Revalidate_works in Er. eapply admit_all_works in Ea; [|done].
  destruct (works_on_execute _ _ Ea Hne Hmax) as (head & st & x & Hh & Hs & Hf & Hx & Hi & Ex). exists head, st, x.
  destruct (CanFinalize_inv _ Hf) as (_ & Hval & Htot).
  cbn [fs_head fs_snapshot fs_binding fs_params fs_poa_key state_store fst snd] in *. unfold working_head in Hh.
  walk_step Hh. injection Hh as Hh. destruct a as [h|]; [|done]. destruct (Z.eqb_spec (fh_height h) MAX64) as [|Hm]; [done|]. some_inj Hh.
  cbn [fs_head state_store snd] in Hret. unfold ComputeCandidateStateRoot.
  destruct (GetStateSnapshot s d) as [[[e|st']|] s1] eqn:Eg; cbn in Hs; [done| |done]. injection Hs as ->.
  destruct (GetStateSnapshot_object _ _ _ _ Eg) as [-> ->].
  assert (Hu : is_u64 (fh_height head)).
  { apply kv_Read_stored in Hret. unfold stored in Hret. destruct (contents d !! _); [|done]. symmetry in Hret.
    by eapply DecodeFinalizedHead_range. }
  split_and!; [done|done|done|done|congruence| |by intros; apply CybouStateHash_total].
  cbn [outcome_bind fst]. rewrite Hret. cbn [outcome_bind]. rewrite add64_small in * by ulia. rewrite Z.eqb_refl, (proj2 (Z.eqb_neq _ 0)) by ulia.
  cbn [negb orb]. rewrite bool_decide_eq_false_2 by (unfold Snapshot; by destruct (p_entries p2)). cbn [andb]. rewrite Ex.
  cbn [outcome_bind]. rewrite Finalize_CanFinalize by done. by destruct (CybouStateHash _ _).
Qed.
End block_template.
