(* ===== verification/Relay.v ===== *)
(** * The relay queue

    [src/src/cybou/operation_relay.cpp]: the exact bytes of the operations a
    node has executed and still has to pass on, first in first out, with one
    transfer at a time and a memory of the ids it has seen. Every public
    function holds the object's mutex, so a call is one step. *)

From S2P Require Import Prelude.
From S2P Require Import Bytes.
From S2P Require Import Codec.
From S2P Require Import Params.
From S2P Require Import Crypto.
From S2P Require Import Operation.

Module Relay.

(** ** Data *)

Inductive OperationRelayEnqueueStatus : Type := QUEUED | DUPLICATE | QUEUE_FULL | INVALID_OPERATION.
#[export] Instance status_eq_dec : EqDecision OperationRelayEnqueueStatus.
Proof. solve_decision. Defined.
Record RelayedOperation : Type := mkRelayed {
  operation_id : Hash256;
  exact_bytes : bytes;
  work_nonce : Z;
}.
Record OperationRelay : Type := mkRelay {
  m_max_operations : Z;
  m_max_queued_bytes : Z;
  m_seen_limit : Z;
  m_queue : list RelayedOperation;
  m_claimed_id : option Hash256;
  m_queued_ids : gset Hash256;
  m_seen_order : list Hash256;
  m_seen_ids : gset Hash256;
  m_queued_bytes : Z;
}.
Definition set_claim (r : OperationRelay) (claimed : option Hash256) : OperationRelay :=
  mkRelay (m_max_operations r) (m_max_queued_bytes r) (m_seen_limit r) (m_queue r) claimed
    (m_queued_ids r) (m_seen_order r) (m_seen_ids r) (m_queued_bytes r).
Definition set_seen (r : OperationRelay) (order : list Hash256) (seen : gset Hash256) : OperationRelay :=
  mkRelay (m_max_operations r) (m_max_queued_bytes r) (m_seen_limit r) (m_queue r) (m_claimed_id r)
    (m_queued_ids r) order seen (m_queued_bytes r).
Definition set_queue (r : OperationRelay) (queue : list RelayedOperation) (ids : gset Hash256) (queued_bytes : Z) : OperationRelay :=
  mkRelay (m_max_operations r) (m_max_queued_bytes r) (m_seen_limit r) queue (m_claimed_id r)
    ids (m_seen_order r) (m_seen_ids r) queued_bytes.

Definition default_max_operations : Z := 256.
Definition default_max_queued_bytes : Z := 8 * 1024 * 1024.
(** The constructor. *)
Definition new_relay (max_operations max_queued_bytes : Z) : outcome OperationRelay :=
  return_if (max_operations =? 0) || (max_queued_bytes <? MAX_OPERATION_PAYLOAD_BYTES) with Throw ;;
  Ret (mkRelay max_operations max_queued_bytes (Z.max (max_operations ⊗ 16) 1024) [] None ∅ [] ∅ 0).

(** ** Bookkeeping *)

Definition FitsQueueLimits (r : OperationRelay) (n : Z) : bool :=
  (zlen (m_queue r) <? m_max_operations r)
  && (n <=? m_max_queued_bytes r ⊖ Z.min (m_queued_bytes r) (m_max_queued_bytes r)).

(** The loop that shortens the order to its limit. *)
Fixpoint expire_seen (limit : Z) (queued : gset Hash256) (order : list Hash256) (seen : gset Hash256)
    : list Hash256 * gset Hash256 :=
  match order with
  | [] => ([], seen)
  | expired :: rest =>
      if limit <? zlen order
      then expire_seen limit queued rest (if bool_decide (expired ∈ queued) then seen else seen ∖ {[expired]})
      else (order, seen)
  end.
Definition RememberSeen (r : OperationRelay) (id : Hash256) : OperationRelay :=
  return_if bool_decide (id ∈ m_seen_ids r) with r ;;
  let (order, seen) := expire_seen (m_seen_limit r) (m_queued_ids r) (m_seen_order r ++ [id]) ({[id]} ∪ m_seen_ids r) in
  set_seen r order seen.

(** ** Operations *)

Section relay.
Context `{CryptoOps}.

(** The checks before the lock is taken: the id of the operation. *)
Definition relay_id (exact_operation_bytes : bytes) : outcome (option Hash256) :=
  return_if (zlen exact_operation_bytes =? 0) || (MAX_OPERATION_PAYLOAD_BYTES <? zlen exact_operation_bytes) with Ret None ;;
  try! operation := DeserializeProtocolOperation exact_operation_bytes ;;
  let? operation := operation else Ret None ;;
  try! id := ComputeOperationId operation ;;
  let? id := id else Ret None ;;
  return_if IsNull id with Ret None ;;
  Ret (Some id).
Definition Enqueue (r : OperationRelay) (exact_operation_bytes : bytes) (nonce : Z) (allow_seen_retry : bool)
    : outcome (OperationRelayEnqueueStatus * OperationRelay) :=
  try! id := relay_id exact_operation_bytes ;;
  let? id := id else Ret (INVALID_OPERATION, r) ;;
  return_if bool_decide (id ∈ m_queued_ids r) || (bool_decide (id ∈ m_seen_ids r) && negb allow_seen_retry)
    with Ret (DUPLICATE, r) ;;
  return_if negb (FitsQueueLimits r (zlen exact_operation_bytes)) with Ret (QUEUE_FULL, r) ;;
  let r := set_queue r (m_queue r ++ [mkRelayed id exact_operation_bytes nonce]) ({[id]} ∪ m_queued_ids r) (m_queued_bytes r) in
  let r := RememberSeen r id in
  Ret (QUEUED, set_queue r (m_queue r) (m_queued_ids r) (m_queued_bytes r ⊕ zlen exact_operation_bytes)).
End relay.

(** [skip] is the predicate, when one was given. *)
Definition Peek (r : OperationRelay) (skip : option (Hash256 -> bool)) : option RelayedOperation :=
  List.find (fun item => match skip with Some skip => negb (skip (operation_id item)) | None => true end) (m_queue r).
Definition Claim (r : OperationRelay) : option RelayedOperation * OperationRelay :=
  match m_queue r, m_claimed_id r with
  | front :: _, None => (Some front, set_claim r (Some (operation_id front)))
  | _, _ => (None, r)
  end.
Definition Release (r : OperationRelay) (id : Hash256) : OperationRelay :=
  if bool_decide (m_claimed_id r = Some id) then set_claim r None else r.
Definition Acknowledge (r : OperationRelay) (id : Hash256) : bool * OperationRelay :=
  return_if negb (bool_decide (m_claimed_id r = Some id)) with (false, r) ;;
  match m_queue r with
  | [] => (false, r)
  | front :: rest =>
      return_if negb (bool_decide (operation_id front = id)) with (false, r) ;;
      (true, set_claim (set_queue r rest (m_queued_ids r ∖ {[id]}) (m_queued_bytes r ⊖ zlen (exact_bytes front))) None)
  end.
Definition HasQueued (r : OperationRelay) (id : Hash256) : bool := bool_decide (id ∈ m_queued_ids r).
(** [std::find_if] and [erase]: the item and the queue without it. *)
Fixpoint take_out (id : Hash256) (queue : list RelayedOperation) : option (RelayedOperation * list RelayedOperation) :=
  match queue with
  | [] => None
  | item :: rest =>
      if bool_decide (operation_id item = id) then Some (item, rest)
      else let? (found, rest) := take_out id rest else None ;; Some (found, item :: rest)
  end.
Definition ForgetFinalized (r : OperationRelay) (id : Hash256) : OperationRelay :=
  let? (item, rest) := take_out id (m_queue r) else r ;;
  let r := set_queue r rest (m_queued_ids r ∖ {[id]}) (m_queued_bytes r ⊖ zlen (exact_bytes item)) in
  if bool_decide (m_claimed_id r = Some id) then set_claim r None else r.
Definition QueuedOperations (r : OperationRelay) : Z := zlen (m_queue r).
Definition QueuedBytes (r : OperationRelay) : Z := m_queued_bytes r.

End Relay.

(** * What the relay queue guarantees

    The queue with its index, its claim, its byte count and its memory of seen
    ids implements a plain first-in-first-out queue with at most one transfer:
    every call answers as that queue would and changes it as that queue would. *)

Module RelayQueue.
Import Relay.

(** ** The specification *)

(** What is queued, and whether the first is in transfer. *)
Record fifo : Type := mkFifo { items : list RelayedOperation; busy : bool }.
Definition ids (q : list RelayedOperation) : list Hash256 := operation_id <$> q.
Definition total (q : list RelayedOperation) : Z := foldr (fun item n => zlen (exact_bytes item) + n) 0 q.

(** The calls that change the queue, and their answers. *)
Inductive call : Type :=
| C_Enqueue (l : bytes) (nonce : Z) (allow_seen_retry : bool)
| C_Claim
| C_Release (id : Hash256)
| C_Acknowledge (id : Hash256)
| C_ForgetFinalized (id : Hash256).
Inductive reply : Type :=
| R_status (status : OperationRelayEnqueueStatus)
| R_item (item : option RelayedOperation)
| R_bool (b : bool)
| R_unit.

Section spec.
Context `{CryptoOps}.
Context (max_operations max_bytes : Z).

Definition fits (q : list RelayedOperation) (l : bytes) : Prop :=
  zlen q < max_operations /\ total q + zlen l <= max_bytes.
Inductive fifo_step : fifo -> call -> reply -> fifo -> Prop :=
| fifo_invalid f l nonce retry : relay_id l = Ret None ->
    fifo_step f (C_Enqueue l nonce retry) (R_status INVALID_OPERATION) f
| fifo_duplicate f l nonce retry id : relay_id l = Ret (Some id) -> id ∈ ids (items f) \/ retry = false ->
    fifo_step f (C_Enqueue l nonce retry) (R_status DUPLICATE) f
| fifo_full f l nonce retry id : relay_id l = Ret (Some id) -> id ∉ ids (items f) -> ~ fits (items f) l ->
    fifo_step f (C_Enqueue l nonce retry) (R_status QUEUE_FULL) f
| fifo_queued f l nonce retry id : relay_id l = Ret (Some id) -> id ∉ ids (items f) -> fits (items f) l ->
    fifo_step f (C_Enqueue l nonce retry) (R_status QUEUED) (mkFifo (items f ++ [mkRelayed id l nonce]) (busy f))
| fifo_claim item q : fifo_step (mkFifo (item :: q) false) C_Claim (R_item (Some item)) (mkFifo (item :: q) true)
| fifo_no_claim f : items f = [] \/ busy f = true -> fifo_step f C_Claim (R_item None) f
| fifo_release item q : fifo_step (mkFifo (item :: q) true) (C_Release (operation_id item)) R_unit (mkFifo (item :: q) false)
| fifo_no_release f id : busy f = false \/ head (ids (items f)) <> Some id -> fifo_step f (C_Release id) R_unit f
| fifo_acknowledged item q :
    fifo_step (mkFifo (item :: q) true) (C_Acknowledge (operation_id item)) (R_bool true) (mkFifo q false)
| fifo_misrouted f id : busy f = false \/ head (ids (items f)) <> Some id -> fifo_step f (C_Acknowledge id) (R_bool false) f
| fifo_forget before item after b :
    fifo_step (mkFifo (before ++ item :: after) b) (C_ForgetFinalized (operation_id item)) R_unit
      (mkFifo (before ++ after) (match before with [] => false | _ => b end))
| fifo_forget_other f id : id ∉ ids (items f) -> fifo_step f (C_ForgetFinalized id) R_unit f.
End spec.

(** ** The object *)

Section object.
Context `{CryptoOps}.

Definition do_call (r : OperationRelay) (c : call) : outcome (reply * OperationRelay) :=
  match c with
  | C_Enqueue l nonce retry => try! (status, r) := Enqueue r l nonce retry ;; Ret (R_status status, r)
  | C_Claim => let (item, r) := Claim r in Ret (R_item item, r)
  | C_Release id => Ret (R_unit, Release r id)
  | C_Acknowledge id => let (b, r) := Acknowledge r id in Ret (R_bool b, r)
  | C_ForgetFinalized id => Ret (R_unit, ForgetFinalized r id)
  end.
Inductive runs : OperationRelay -> list (call * reply) -> OperationRelay -> Prop :=
| runs_nil r : runs r [] r
| runs_call r c a r1 log r2 : do_call r c = Ret (a, r1) -> runs r1 log r2 -> runs r ((c, a) :: log) r2
| runs_throw r c log r2 : do_call r c = Throw -> runs r log r2 -> runs r log r2.
Inductive fifo_runs (max_operations max_bytes : Z) : fifo -> list (call * reply) -> fifo -> Prop :=
| fifo_nil f : fifo_runs max_operations max_bytes f [] f
| fifo_cons f c a f1 log f2 : fifo_step max_operations max_bytes f c a f1 -> fifo_runs max_operations max_bytes f1 log f2 ->
    fifo_runs max_operations max_bytes f ((c, a) :: log) f2.

Record relay_ok (r : OperationRelay) : Prop := {
  ok_limits : is_u64 (m_max_operations r) /\ is_u64 (m_max_queued_bytes r) /\ 0 <= m_seen_limit r;
  ok_distinct : NoDup (ids (m_queue r));
  ok_ids : m_queued_ids r = list_to_set (ids (m_queue r));
  ok_bytes : m_queued_bytes r = total (m_queue r);
  ok_fit : zlen (m_queue r) <= m_max_operations r /\ total (m_queue r) <= m_max_queued_bytes r;
  ok_claim id : m_claimed_id r = Some id -> head (ids (m_queue r)) = Some id;
  ok_queued_seen id : id ∈ ids (m_queue r) -> id ∈ m_seen_ids r;
  ok_memory : zlen (m_seen_order r) <= m_seen_limit r;
}.
Definition abs (r : OperationRelay) : fifo := mkFifo (m_queue r) (bool_decide (is_Some (m_claimed_id r))).

(** ** Lists *)

Lemma queue_total_nonneg q : 0 <= total q.
Proof. induction q as [|item q IH]; cbn [total foldr]; [lia|]. fold (total q). pose proof (zlen_nonneg (exact_bytes item)). lia. Qed.
Lemma queue_total_app q1 q2 : total (q1 ++ q2) = total q1 + total q2.
Proof. induction q1 as [|item q IH]; [done|]. cbn [app total foldr]. fold (total (q ++ q2)) (total q). lia. Qed.
Lemma take_out_spec id q : match take_out id q with
  | Some (item, rest) => exists before after, q = before ++ item :: after /\ rest = before ++ after /\ operation_id item = id
  | None => id ∉ ids q
  end.
Proof.
  induction q as [|item q IH]; cbn [take_out]; [apply not_elem_of_nil|]. case_bool_decide as E; [by exists [], q|].
  destruct (take_out id q) as [[found rest]|].
  - destruct IH as (before & after & -> & -> & Hid). by exists (item :: before), after.
  - cbn [ids fmap list_fmap]. rewrite not_elem_of_cons. split; [congruence|exact IH].
Qed.
Lemma expire_seen_spec limit queued : forall order seen order' seen', 0 <= limit -> expire_seen limit queued order seen = (order', seen') ->
  zlen order' <= limit /\ (forall x, x ∈ seen -> x ∈ queued \/ x ∉ order -> x ∈ seen') /\ (forall x, x ∈ order' -> x ∈ order).
Proof.
  induction order as [|expired rest IH]; intros seen order' seen' Hl E; cbn [expire_seen] in E.
  { injection E as <- <-. change (zlen (A := Hash256) []) with 0. by split_and!; [lia|..]. }
  destruct (limit <? zlen (expired :: rest)) eqn:El; guards; [|by injection E as <- <-].
  apply IH in E as (H1 & H2 & H3); [|done]. split_and!; [done| |intros x Hx; apply elem_of_cons; auto].
  intros x Hx Hq. apply H2; rewrite not_elem_of_cons in Hq; [|tauto].
  case_bool_decide; [done|]. apply elem_of_difference. split; [done|]. rewrite elem_of_singleton. intros ->. tauto.
Qed.
Lemma RememberSeen_spec r id : 0 <= m_seen_limit r -> zlen (m_seen_order r) <= m_seen_limit r ->
  exists order seen, RememberSeen r id = set_seen r order seen /\ zlen order <= m_seen_limit r /\
    (forall x, x ∈ m_queued_ids r -> x ∈ {[id]} ∪ m_seen_ids r -> x ∈ seen) /\
    (forall x, x ∈ m_seen_ids r -> x ∉ m_seen_order r -> x ∈ seen /\ x ∉ order).
Proof.
  intros Hl Hm. unfold RememberSeen. case_bool_decide as Hin.
  - exists (m_seen_order r), (m_seen_ids r). split_and!; [by destruct r|done| |done]. intros x _ Hx. set_solver.
  - destruct (expire_seen _ _ _ _) as [order seen] eqn:E. apply expire_seen_spec in E as (H1 & H2 & H3); [|done].
    exists order, seen. split_and!; [done..| |].
    + intros x Hq Hx. apply H2; auto.
    + intros x Hx Ho. assert (Hno : x ∉ m_seen_order r ++ [id]) by (rewrite not_elem_of_app, not_elem_of_cons; set_solver).
      split; [apply H2; set_solver|]. intros Hx'. by apply Hno, H3.
Qed.

(** ** One call *)

Lemma ok_queued r id : relay_ok r -> id ∈ m_queued_ids r <-> id ∈ ids (m_queue r).
Proof. intros Hok. rewrite (ok_ids _ Hok). by rewrite elem_of_list_to_set. Qed.
Lemma FitsQueueLimits_fits r l : relay_ok r -> zlen l <= MAX64 ->
  FitsQueueLimits r (zlen l) = true <-> fits (m_max_operations r) (m_max_queued_bytes r) (m_queue r) l.
Proof.
  intros Hok Hl. pose proof (ok_limits _ Hok) as (H1 & H2 & _). pose proof (ok_fit _ Hok) as [_ H3].
  pose proof (queue_total_nonneg (m_queue r)). unfold FitsQueueLimits, fits. rewrite (ok_bytes _ Hok), Z.min_l by done.
  rewrite sub64_small by ulia. rewrite andb_true_iff, Z.ltb_lt, Z.leb_le. lia.
Qed.
Lemma relay_id_size l id : relay_id l = Ret (Some id) -> 0 < zlen l <= MAX_OPERATION_PAYLOAD_BYTES.
Proof. intros E. unfold relay_id in E. walk_step E. guards. pose proof (zlen_nonneg l). lia. Qed.

Lemma queued_ok r l nonce id r' : relay_ok r -> relay_id l = Ret (Some id) -> id ∉ ids (m_queue r) ->
  fits (m_max_operations r) (m_max_queued_bytes r) (m_queue r) l ->
  RememberSeen (set_queue r (m_queue r ++ [mkRelayed id l nonce]) ({[id]} ∪ m_queued_ids r) (m_queued_bytes r)) id = r' ->
  let r2 := set_queue r' (m_queue r') (m_queued_ids r') (m_queued_bytes r' ⊕ zlen l) in
  relay_ok r2 /\ abs r2 = mkFifo (m_queue r ++ [mkRelayed id l nonce]) (busy (abs r)).
Proof.
  intros Hok Eid Hnew [Hf1 Hf2] Er. pose proof (ok_limits _ Hok) as (H1 & H2 & H3).
  destruct (RememberSeen_spec (set_queue r (m_queue r ++ [mkRelayed id l nonce]) ({[id]} ∪ m_queued_ids r) (m_queued_bytes r)) id)
    as (order & seen & Es & Hm & Hs & _); [done|apply (ok_memory _ Hok)|]. rewrite Es in Er. subst r'. cbv zeta. split; [|done].
  assert (Eids : ids (m_queue r ++ [mkRelayed id l nonce]) = ids (m_queue r) ++ [id]) by (unfold ids; by rewrite fmap_app).
  pose proof (queue_total_nonneg (m_queue r)). apply relay_id_size in Eid.
  constructor; cbn [set_seen set_queue m_max_operations m_max_queued_bytes m_seen_limit m_queue m_claimed_id m_queued_ids
    m_seen_order m_seen_ids m_queued_bytes] in *; rewrite ?Eids; rewrite ?queue_total_app.
  - done.
  - apply NoDup_app. split_and!; [apply (ok_distinct _ Hok)| |apply NoDup_singleton]. intros x Hx ->%list_elem_of_singleton. done.
  - rewrite (ok_ids _ Hok), list_to_set_app_L. set_solver.
  - cbn [total foldr exact_bytes]. rewrite (ok_bytes _ Hok), add64_small by ulia. lia.
  - rewrite zlen_app. cbn [total foldr exact_bytes]. change (zlen [_]) with 1. lia.
  - intros id' Hc. apply (ok_claim _ Hok) in Hc. unfold ids in *. by destruct (m_queue r).
  - intros x Hx. rewrite elem_of_app, list_elem_of_singleton in Hx. apply Hs; rewrite elem_of_union, elem_of_singleton.
    + destruct Hx as [Hx| ->]; [right; by apply ok_queued|by left].
    + destruct Hx as [Hx| ->]; [right; by apply (ok_queued_seen _ Hok)|by left].
  - done.
Qed.
Lemma removed_ok r before item after claimed : relay_ok r -> m_queue r = before ++ item :: after ->
  (forall id, claimed = Some id -> head (ids (before ++ after)) = Some id) ->
  relay_ok (set_claim (set_queue r (before ++ after) (m_queued_ids r ∖ {[operation_id item]})
    (m_queued_bytes r ⊖ zlen (exact_bytes item))) claimed).
Proof.
  intros Hok Eq Hc. pose proof (ok_limits _ Hok) as (H1 & H2 & H3). pose proof (ok_fit _ Hok) as [H4 H5].
  pose proof (ok_distinct _ Hok) as Hd. rewrite Eq in H4, H5. rewrite Eq in Hd.
  assert (Eids : ids (before ++ item :: after) = ids before ++ operation_id item :: ids after) by (unfold ids; by rewrite fmap_app).
  assert (Eids' : ids (before ++ after) = ids before ++ ids after) by (unfold ids; by rewrite fmap_app).
  rewrite Eids in Hd. rewrite queue_total_app in H5. cbn [total foldr] in H5. fold (total after) in H5.
  pose proof (queue_total_nonneg before). pose proof (queue_total_nonneg after). pose proof (zlen_nonneg (exact_bytes item)).
  apply NoDup_app in Hd as (Hd1 & Hd2 & [Hd3 Hd4]%NoDup_cons).
  constructor; cbn [set_claim set_queue m_max_operations m_max_queued_bytes m_seen_limit m_queue m_claimed_id m_queued_ids
    m_seen_order m_seen_ids m_queued_bytes] in *.
  - done.
  - rewrite Eids'. apply NoDup_app. split_and!; [done| |done]. intros x Hx Hx'. apply (Hd2 x Hx), elem_of_cons. auto.
  - rewrite (ok_ids _ Hok), Eq, Eids, Eids', !list_to_set_app_L, list_to_set_cons.
    assert (operation_id item ∉ (list_to_set (ids before) : gset Hash256)) by (rewrite elem_of_list_to_set; intros Hx; by apply (Hd2 _ Hx), elem_of_cons; left).
    assert (operation_id item ∉ (list_to_set (ids after) : gset Hash256)) by (by rewrite elem_of_list_to_set). set_solver.
  - rewrite (ok_bytes _ Hok), Eq, !queue_total_app. cbn [total foldr]. fold (total after). rewrite sub64_small by ulia. lia.
  - rewrite zlen_app in *. rewrite zlen_cons in H4. rewrite queue_total_app. lia.
  - exact Hc.
  - intros x Hx. apply (ok_queued_seen _ Hok). rewrite Eq, Eids. rewrite Eids', elem_of_app in Hx. rewrite elem_of_app, elem_of_cons. tauto.
  - apply (ok_memory _ Hok).
Qed.
Lemma claim_ok r claimed : relay_ok r -> (forall id, claimed = Some id -> head (ids (m_queue r)) = Some id) -> relay_ok (set_claim r claimed).
Proof. intros [] Hc. by constructor. Qed.
Lemma not_claimed r id : relay_ok r -> m_claimed_id r <> Some id -> busy (abs r) = false \/ head (ids (m_queue r)) <> Some id.
Proof.
  intros Hok Hne. destruct (m_claimed_id r) as [c|] eqn:Ec; cbn [abs busy]; rewrite Ec; [right|by left].
  apply (ok_claim _ Hok) in Ec. congruence.
Qed.

Definition steps_to (r : OperationRelay) (c : call) (a : reply) (r' : OperationRelay) : Prop :=
  relay_ok r' /\ m_max_operations r' = m_max_operations r /\ m_max_queued_bytes r' = m_max_queued_bytes r /\
  fifo_step (m_max_operations r) (m_max_queued_bytes r) (abs r) c a (abs r').

Lemma Enqueue_step r l nonce retry status r' : relay_ok r -> Enqueue r l nonce retry = Ret (status, r') ->
  steps_to r (C_Enqueue l nonce retry) (R_status status) r'.
Proof.
  intros Hok E. unfold Enqueue in E. destruct (relay_id l) as [[id|]|] eqn:Eid; cbn [outcome_bind] in E; [| |done].
  2: { injection E as <- <-. split_and!; [done..|]. by constructor. }
  pose proof (relay_id_size _ _ Eid) as Hsize. change MAX_OPERATION_PAYLOAD_BYTES with 131072 in Hsize.
  destruct (_ || _) eqn:Edup; cbn [outcome_bind] in E.
  { injection E as <- <-. split_and!; [done..|]. apply (fifo_duplicate _ _ _ _ _ _ id); [done|]. cbn [abs items].
    apply orb_true_iff in Edup as [Hq|[_ Hr]%andb_true_iff]; [left|right; by apply negb_true_iff]. guards. by apply ok_queued. }
  apply orb_false_iff in Edup as [Hq _]. guards. rewrite ok_queued in Hq by done.
  destruct (FitsQueueLimits r (zlen l)) eqn:Ef; cbn [negb outcome_bind] in E.
  - apply FitsQueueLimits_fits in Ef; [|done|ulia]. destruct (queued_ok r l nonce id _ Hok Eid Hq Ef eq_refl) as [Hok' Habs].
    injection E as <- <-. split_and!; [exact Hok'|..].
    1, 2: unfold RememberSeen; case_bool_decide; [done|]; by destruct (expire_seen _ _ _ _).
    rewrite Habs. by apply fifo_queued.
  - injection E as <- <-. split_and!; [done..|]. apply (fifo_full _ _ _ _ _ _ id); [done..|].
    rewrite <- (FitsQueueLimits_fits r l Hok) by ulia. by rewrite Ef.
Qed.
Lemma Claim_step r item r' : relay_ok r -> Claim r = (item, r') -> steps_to r C_Claim (R_item item) r'.
Proof.
  intros Hok E. unfold Claim in E. destruct (m_queue r) as [|first q] eqn:Eq; [injection E as <- <-|].
  { split_and!; [done..|]. apply fifo_no_claim. cbn [abs items]. by left. }
  destruct (m_claimed_id r) as [c|] eqn:Ec; injection E as <- <-.
  { split_and!; [done..|]. apply fifo_no_claim. cbn [abs busy]. right. by rewrite Ec. }
  split_and!; [|done..|].
  { apply claim_ok; [done|]. intros id [= <-]. by rewrite Eq. }
  unfold abs. cbn [set_claim m_queue m_claimed_id]. rewrite Eq, Ec. apply fifo_claim.
Qed.
Lemma Release_step r id : relay_ok r -> steps_to r (C_Release id) R_unit (Release r id).
Proof.
  intros Hok. unfold Release. case_bool_decide as Ec.
  - split_and!; [by apply claim_ok|done..|]. pose proof (ok_claim _ Hok _ Ec) as Hh. unfold abs. cbn [set_claim m_queue m_claimed_id].
    destruct (m_queue r) as [|item q]; [done|]. injection Hh as <-. rewrite Ec. apply fifo_release.
  - split_and!; [done..|]. apply fifo_no_release. by apply not_claimed.
Qed.
Lemma Acknowledge_step r id b r' : relay_ok r -> Acknowledge r id = (b, r') -> steps_to r (C_Acknowledge id) (R_bool b) r'.
Proof.
  intros Hok E. unfold Acknowledge in E. case_bool_decide as Ec; cbn [negb] in E.
  - pose proof (ok_claim _ Hok _ Ec) as Hh. destruct (m_queue r) as [|item q] eqn:Eq; [done|]. injection Hh as <-.
    rewrite bool_decide_true in E by done. injection E as <- <-. split_and!; [|done..|].
    { by apply (removed_ok r [] item q None). }
    unfold abs. cbn [set_claim set_queue m_queue m_claimed_id]. rewrite Eq, Ec. apply fifo_acknowledged.
  - injection E as <- <-. split_and!; [done..|]. apply fifo_misrouted. by apply not_claimed.
Qed.
Lemma ForgetFinalized_step r id : relay_ok r -> steps_to r (C_ForgetFinalized id) R_unit (ForgetFinalized r id).
Proof.
  intros Hok. unfold ForgetFinalized. pose proof (take_out_spec id (m_queue r)) as Ht.
  destruct (take_out id (m_queue r)) as [[item rest]|]; [|split_and!; [done..|by apply fifo_forget_other]].
  destruct Ht as (before & after & Eq & -> & <-). cbn [m_claimed_id set_queue].
  set (claimed := if bool_decide (m_claimed_id r = Some (operation_id item)) then None else m_claimed_id r).
  assert (Hbefore : forall c, claimed = Some c -> match before with [] => False | first :: _ => operation_id first = c end).
  { intros c Hc. subst claimed. case_bool_decide as Hne; [done|]. pose proof (ok_claim _ Hok _ Hc) as Hh. rewrite Eq in Hh.
    destruct before; injection Hh as Hh; congruence. }
  assert (Hsame : m_claimed_id r = Some (operation_id item) -> before = []).
  { intros Hc. pose proof (ok_claim _ Hok _ Hc) as Hh. pose proof (ok_distinct _ Hok) as Hd. rewrite Eq in Hh, Hd.
    destruct before as [|first before]; [done|]. injection Hh as Hh. unfold ids in Hd. rewrite fmap_app in Hd.
    apply NoDup_app in Hd as (_ & Hd & _). exfalso. apply (Hd (operation_id item)); apply elem_of_cons; left; congruence. }
  assert (Hgoal : steps_to r (C_ForgetFinalized (operation_id item)) R_unit
    (set_claim (set_queue r (before ++ after) (m_queued_ids r ∖ {[operation_id item]}) (m_queued_bytes r ⊖ zlen (exact_bytes item))) claimed)).
  { split_and!; [|done..|].
    - apply removed_ok; [done..|]. intros c Hc. specialize (Hbefore c Hc). destruct before; [done|]. by rewrite <- Hbefore.
    - unfold abs. cbn [set_claim set_queue m_queue m_claimed_id]. rewrite Eq.
      assert (Eb : bool_decide (is_Some claimed) = match before with [] => false | _ => bool_decide (is_Some (m_claimed_id r)) end).
      { subst claimed. destruct before as [|first before]; case_bool_decide as Hne; try done.
        - apply bool_decide_false. intros [c Hc]. by apply (Hbefore c).
        - by specialize (Hsame Hne). }
      rewrite Eb. apply fifo_forget. }
  subst claimed. case_bool_decide; exact Hgoal.
Qed.
Lemma do_call_step r c a r' : relay_ok r -> do_call r c = Ret (a, r') -> steps_to r c a r'.
Proof.
  intros Hok E. destruct c as [l nonce retry| |id|id|id]; cbn [do_call] in E.
  - destruct (Enqueue r l nonce retry) as [[status r1]|] eqn:Ee; [|done]. injection E as <- <-. by apply Enqueue_step.
  - destruct (Claim r) as [item r1] eqn:Ec. injection E as <- <-. by apply Claim_step.
  - injection E as <- <-. by apply Release_step.
  - destruct (Acknowledge r id) as [b r1] eqn:Ea. injection E as <- <-. by apply Acknowledge_step.
  - injection E as <- <-. by apply ForgetFinalized_step.
Qed.

(** ** Runs *)

Lemma runs_refine r log r' : runs r log r' -> relay_ok r ->
  relay_ok r' /\ fifo_runs (m_max_operations r) (m_max_queued_bytes r) (abs r) log (abs r').
Proof.
  induction 1 as [r|r c a r1 log r2 E _ IH|r c log r2 _ _ IH]; intros Hok; [split; [done|constructor]| |by apply IH].
  destruct (do_call_step r c a r1 Hok E) as (Hok1 & <- & <- & Hs). destruct (IH Hok1) as [Hok2 Hr]. split; [done|]. by econstructor.
Qed.
Lemma new_relay_ok max_operations max_queued_bytes r : is_u64 max_operations -> is_u64 max_queued_bytes ->
  new_relay max_operations max_queued_bytes = Ret r ->
  relay_ok r /\ abs r = mkFifo [] false /\ m_max_operations r = max_operations /\ m_max_queued_bytes r = max_queued_bytes.
Proof.
  intros H1 H2 E. unfold new_relay in E. walk_step E. injection E as <-. split_and!; [|done..].
  constructor; cbn [m_max_operations m_max_queued_bytes m_seen_limit m_queue m_claimed_id m_queued_ids m_seen_order m_seen_ids
    m_queued_bytes ids total foldr fmap list_fmap list_to_set head].
  - split_and!; [done..|]. lia.
  - apply NoDup_nil_2.
  - done.
  - done.
  - change (zlen (A := RelayedOperation) []) with 0. ulia.
  - done.
  - intros id Hid. by apply not_elem_of_nil in Hid.
  - change (zlen (A := Hash256) []) with 0. lia.
Qed.

(** C35: the relay queue is a queue. From its construction and along every run
    of its calls, with any bytes, ids and limits, the object with its index,
    its claim and its memory of seen ids answers as a plain first-in
    first-out list with at most one transfer: an operation that was queued
    keeps its exact bytes, its place and its nonce until its own transfer is
    acknowledged at the head or it is finalized; the count and the bytes held
    are exact and within the limits, an id is never held twice, and what is
    held is never forgotten by the duplicate check. *)
Theorem relay_refines_fifo max_operations max_queued_bytes r0 log r : is_u64 max_operations -> is_u64 max_queued_bytes ->
  new_relay max_operations max_queued_bytes = Ret r0 -> runs r0 log r ->
  fifo_runs max_operations max_queued_bytes (mkFifo [] false) log (abs r) /\
  QueuedOperations r = zlen (items (abs r)) /\ QueuedOperations r <= max_operations /\
  QueuedBytes r = total (items (abs r)) /\ QueuedBytes r <= max_queued_bytes /\ NoDup (ids (items (abs r))) /\
  (forall id, HasQueued r id = true <-> id ∈ ids (items (abs r))) /\
  (forall id, HasQueued r id = true -> id ∈ m_seen_ids r).
Proof.
  intros H1 H2 E Hr. destruct (new_relay_ok _ _ _ H1 H2 E) as (Hok & Ha & Em & Eb).
  destruct (runs_refine _ _ _ Hr Hok) as [Hok' Hf]. rewrite Ha, Em, Eb in Hf.
  assert (Hlim : m_max_operations r = max_operations /\ m_max_queued_bytes r = max_queued_bytes).
  { rewrite <- Em, <- Eb. clear E Ha Em Eb Hf Hok'. induction Hr as [r|r c a r1 log r2 Ec _ IH|r c log r2 _ _ IH]; [done| |by apply IH].
    destruct (do_call_step r c a r1 Hok Ec) as (Hok1 & <- & <- & _). by apply IH. }
  destruct Hlim as [<- <-]. pose proof (ok_fit _ Hok') as [F1 F2].
  assert (Hq : forall id, HasQueued r id = true <-> id ∈ ids (items (abs r))) by (intros id; unfold HasQueued; rewrite bool_decide_eq_true; by apply ok_queued).
  split_and!; [exact Hf|done|exact F1|apply (ok_bytes _ Hok')|unfold QueuedBytes; by rewrite (ok_bytes _ Hok')|apply (ok_distinct _ Hok')|exact Hq|].
  intros id Hid. apply (ok_queued_seen _ Hok'). by apply Hq.
Qed.

(** ** The memory of seen ids *)

(** An id that is remembered but no longer listed is never forgotten ... *)
Lemma seen_forever r c a r' x : relay_ok r -> do_call r c = Ret (a, r') ->
  x ∈ m_seen_ids r -> x ∉ m_seen_order r -> x ∈ m_seen_ids r' /\ x ∉ m_seen_order r'.
Proof.
  intros Hok E Hx Ho. destruct c as [l nonce retry| |id|id|id]; cbn [do_call] in E.
  - destruct (Enqueue r l nonce retry) as [[status r1]|] eqn:Ee; [|done]. injection E as _ <-. unfold Enqueue in Ee.
    destruct (relay_id l) as [[h|]|]; cbn [outcome_bind] in Ee; [|by injection Ee as <- <-|done].
    walk_step Ee; [by injection Ee as <- <-|].
    walk_step Ee; [by injection Ee as <- <-|]. pose proof (ok_limits _ Hok) as (_ & _ & H3).
    destruct (RememberSeen_spec (set_queue r (m_queue r ++ [mkRelayed h l nonce]) ({[h]} ∪ m_queued_ids r) (m_queued_bytes r)) h)
      as (order & seen & Es & _ & _ & Hs); [done|apply (ok_memory _ Hok)|].
    rewrite Es in Ee. injection Ee as <- <-. by apply Hs.
  - unfold Claim in E. destruct (m_queue r), (m_claimed_id r); by injection E as _ <-.
  - injection E as _ <-. unfold Release. by case_bool_decide.
  - unfold Acknowledge in E. destruct (negb _); [by injection E as _ <-|]. destruct (m_queue r); [by injection E as _ <-|].
    destruct (negb _); by injection E as _ <-.
  - injection E as _ <-. unfold ForgetFinalized. destruct (take_out id (m_queue r)) as [[item rest]|]; [|done]. by case_bool_decide.
Qed.
(** ... and an id whose turn to be forgotten comes while it is queued becomes
    such an id: the memory is not bounded by its limit. *)
Lemma expired_while_queued r x rest id : m_seen_order r = x :: rest -> zlen (m_seen_order r) = m_seen_limit r -> NoDup (m_seen_order r) ->
  x ∈ m_queued_ids r -> x ∈ m_seen_ids r -> id ∉ m_seen_ids r ->
  x ∈ m_seen_ids (RememberSeen r id) /\ x ∉ m_seen_order (RememberSeen r id).
Proof.
  intros Eo El Hd Hq Hs Hid. unfold RememberSeen. rewrite bool_decide_false by done.
  destruct (expire_seen _ _ _ _) as [order seen] eqn:E. cbn [set_seen m_seen_ids m_seen_order]. rewrite Eo in *.
  apply NoDup_cons in Hd as [Hx Hd]. rewrite zlen_cons in El. pose proof (zlen_nonneg rest).
  cbn [app expire_seen] in E. rewrite zlen_cons, zlen_app in E. change (zlen [id]) with 1 in E.
  rewrite (proj2 (Z.ltb_lt _ _)), bool_decide_true in E by (lia || done).
  apply expire_seen_spec in E as (_ & H2 & H3); [|lia]. split; [apply H2; [set_solver|by left]|].
  intros Hin%H3. apply elem_of_app in Hin as [Hin|Hin%list_elem_of_singleton]; [done|]. by subst.
Qed.
End object.
End RelayQueue.
