(* ===== verification/NodeRuntime.v ===== *)
(** * The node runtime

    [src/src/cybou/node_runtime_chain.cpp], [node_runtime.cpp] and
    [node_runtime_provider.cpp]: the facade that joins the store, the pool, the
    relay, the finalizer and the provider's chunks, and everything a node does
    with them but networking. A function of the facade is an action on the
    state of the node: it returns or throws, and leaves a state in both cases.
    Each critical section under the chain mutex is one action. *)

From S2P Require Import Prelude.
From S2P Require Import Bytes.
From S2P Require Import Codec.
From S2P Require Import Params.
From S2P Require Import Crypto.
From S2P Require Import Identity.
From S2P Require Import Names.
From S2P Require Import Payloads.
From S2P Require Import Merkle.
From S2P Require Import StorageAudit.
From S2P Require Import SettlementData.
From S2P Require Import Operation.
From S2P Require Import State.
From S2P Require Import Settlement.
From S2P Require Import Executor.
From S2P Require Import Block.
From S2P Require Import NetworkGenesis.
From S2P Require Import KVStore.
From S2P Require Import Journal.
From S2P Require Import Detector.
From S2P Require Import StateStore.
From S2P Require Import EventIndex.
From S2P Require Import Pool.
From S2P Require Import Relay.
From S2P Require Import ChunkBlobs.
From S2P Require Import FinalizedChunks.
From S2P Require Import ChunkService.

Module Runtime.

(** ** Data *)

Inductive NodeRuntimeState : Type := RS_UNINITIALIZED | RS_READY | RS_NETWORK_MISMATCH | RS_CORRUPT | RS_SAFETY_HALTED.
#[export] Instance NodeRuntimeState_eq_dec : EqDecision NodeRuntimeState.
Proof. solve_decision. Defined.
Inductive BlockProductionStatus : Type := BP_PRODUCED | BP_SIGNER_UNAVAILABLE | BP_RETRY | BP_SAFETY_HALT.
#[export] Instance BlockProductionStatus_eq_dec : EqDecision BlockProductionStatus.
Proof. solve_decision. Defined.
Record NodeRuntimeStatus : Type := mkStatus {
  st_network_binding : Hash256;
  st_finalized_height : Z;
  st_finalized_tip : Hash256;
  st_state_root : Hash256;
  st_poa_signer_active : bool;
  st_is_initialized : bool;
  st_poa_safety_halted : bool;
  st_runtime_state : NodeRuntimeState;
}.
Inductive FinalizedOperationLookupStatus : Type := FO_FOUND | FO_NOT_FOUND | FO_HISTORY_UNAVAILABLE.
#[export] Instance FinalizedOperationLookupStatus_eq_dec : EqDecision FinalizedOperationLookupStatus.
Proof. solve_decision. Defined.
Record FinalizedOperationLookupResult : Type := mkFound {
  fo_status : FinalizedOperationLookupStatus;
  fo_scanned_height : Z;
  fo_height : Z;
  fo_operation_index : Z;
  fo_block_id : Hash256;
}.
(** [return {}]. *)
Definition no_operation : FinalizedOperationLookupResult := mkFound FO_HISTORY_UNAVAILABLE 0 0 0 ZERO.
Inductive IdentityKemPackageLookupStatus : Type :=
| KP_FOUND | KP_NOT_FOUND | KP_ACCOUNT_NOT_FOUND | KP_KEY_EPOCH_UNAVAILABLE | KP_HISTORY_UNAVAILABLE.
#[export] Instance IdentityKemPackageLookupStatus_eq_dec : EqDecision IdentityKemPackageLookupStatus.
Proof. solve_decision. Defined.
(** The fields of [IdentityKemPackageLookupResult] that a package found
    fills in are one field here. *)
Record FoundKemPackage : Type := mkFoundKem {
  fk_package : arr 1218;
  fk_package_id : Hash256;
  fk_key_epoch : Z;
  fk_location : FinalizedEventLocation;
}.
Record IdentityKemPackageLookupResult : Type := mkKem {
  kp_status : IdentityKemPackageLookupStatus;
  kp_finalized_height : Z;
  kp_state_root : Hash256;
  kp_found : option FoundKemPackage;
}.
Definition no_kem : IdentityKemPackageLookupResult := mkKem KP_HISTORY_UNAVAILABLE 0 ZERO None.

Inductive OperationStatusKind : Type :=
| OS_UNKNOWN | OS_LOCAL_PENDING | OS_ACCEPTED_REMOTE | OS_FINALIZED | OS_REJECTED_KNOWN | OS_HISTORY_UNAVAILABLE.
#[export] Instance OperationStatusKind_eq_dec : EqDecision OperationStatusKind.
Proof. solve_decision. Defined.
Record OperationStatus : Type := mkOpStatus { os_kind : OperationStatusKind; os_finalized_height : Z }.
Definition unknown_status : OperationStatus := mkOpStatus OS_UNKNOWN 0.
Inductive OperationSubmitStatus : Type :=
| SU_REJECTED | SU_ACCEPTED | SU_ALREADY_PENDING | SU_ALREADY_FINALIZED | SU_INVALID_PAYLOAD | SU_NETWORK_MISMATCH
| SU_RELAY_QUEUED | SU_POA_SIGNER_UNAVAILABLE | SU_RELAY_QUEUE_FULL.
#[export] Instance OperationSubmitStatus_eq_dec : EqDecision OperationSubmitStatus.
Proof. solve_decision. Defined.
Record OperationSubmitResult : Type := mkSubmit {
  su_status : OperationSubmitStatus;
  su_op_id : Hash256;
  su_delivery_uncertain : bool;
}.

(** A [std::map] with the order of insertion beside it. *)
Record Recent (V : Type) : Type := mkRecent { rc_map : gmap Hash256 V; rc_order : list Hash256 }.
Arguments mkRecent {V} _ _.
Arguments rc_map {V} _.
Arguments rc_order {V} _.
(** The loop that forgets the oldest. *)
Fixpoint trim_recent {V} (limit : Z) (m : gmap Hash256 V) (order : list Hash256) : Recent V :=
  match order with
  | [] => mkRecent m []
  | front :: rest => if limit <? zlen order then trim_recent limit (delete front m) rest else mkRecent m order
  end.
Definition remember {V} (limit : Z) (r : Recent V) (id : Hash256) (v : V) : Recent V :=
  let order := if bool_decide (is_Some (rc_map r !! id)) then rc_order r else rc_order r ++ [id] in
  trim_recent limit (<[id := v]> (rc_map r)) order.
Definition SOLVED_WORK_LIMIT : Z := 1024.
Definition RECENT_STATUS_LIMIT : Z := 256.

Section data.
Context `{CryptoOps} {L : LevelDB} {Bs : BlobStore}.

(** [ChainCore] with its database. *)
Record ChainCore : Type := mkChain {
  store : CybouStateStore;
  chain_db : db;
  operation_pool : OperationPool;
  operation_relay : Relay.OperationRelay;
  poa_finalizer : option PoaFinalizer;
  production_status : BlockProductionStatus;
  production_candidate : option CybouBlock;
  production_finalized : option FinalizedBlock;
  solved_work : Recent Z;
  recent_operation_status : Recent OperationStatus;
  production_revision : Z;
}.
Record CybouNodeRuntime : Type := mkRuntime {
  m_chain : ChainCore;
  m_provider : ProviderCore;
}.

(** ** Assignments *)

Definition on_chain (f : ChainCore -> ChainCore) (n : CybouNodeRuntime) := mkRuntime (f (m_chain n)) (m_provider n).
Definition set_store (s : CybouStateStore) (d : db) (c : ChainCore) :=
  mkChain s d (operation_pool c) (operation_relay c) (poa_finalizer c) (production_status c) (production_candidate c)
    (production_finalized c) (solved_work c) (recent_operation_status c) (production_revision c).
Definition set_pool (p : OperationPool) (c : ChainCore) :=
  mkChain (store c) (chain_db c) p (operation_relay c) (poa_finalizer c) (production_status c) (production_candidate c)
    (production_finalized c) (solved_work c) (recent_operation_status c) (production_revision c).
Definition set_relay (r : Relay.OperationRelay) (c : ChainCore) :=
  mkChain (store c) (chain_db c) (operation_pool c) r (poa_finalizer c) (production_status c) (production_candidate c)
    (production_finalized c) (solved_work c) (recent_operation_status c) (production_revision c).
Definition set_finalizer (f : option PoaFinalizer) (d : db) (c : ChainCore) :=
  mkChain (store c) d (operation_pool c) (operation_relay c) f (production_status c) (production_candidate c)
    (production_finalized c) (solved_work c) (recent_operation_status c) (production_revision c).
Definition set_production (status : BlockProductionStatus) (c : ChainCore) :=
  mkChain (store c) (chain_db c) (operation_pool c) (operation_relay c) (poa_finalizer c) status (production_candidate c)
    (production_finalized c) (solved_work c) (recent_operation_status c) (production_revision c).
Definition set_candidate (candidate : option CybouBlock) (finalized : option FinalizedBlock) (c : ChainCore) :=
  mkChain (store c) (chain_db c) (operation_pool c) (operation_relay c) (poa_finalizer c) (production_status c) candidate
    finalized (solved_work c) (recent_operation_status c) (production_revision c).
Definition set_work (work : Recent Z) (c : ChainCore) :=
  mkChain (store c) (chain_db c) (operation_pool c) (operation_relay c) (poa_finalizer c) (production_status c)
    (production_candidate c) (production_finalized c) work (recent_operation_status c) (production_revision c).
Definition set_statuses (statuses : Recent OperationStatus) (revision : Z) (c : ChainCore) :=
  mkChain (store c) (chain_db c) (operation_pool c) (operation_relay c) (poa_finalizer c) (production_status c)
    (production_candidate c) (production_finalized c) (solved_work c) statuses revision.

(** ** Actions *)

Definition act (A : Type) : Type := CybouNodeRuntime -> outcome A * CybouNodeRuntime.
Definition ret {A} (a : A) : act A := fun n => (Ret a, n).
Definition bind {A B} (m : act A) (k : A -> act B) : act B := fun n =>
  match m n with
  | (Ret a, n) => k a n
  | (Throw, n) => (Throw, n)
  end.
(** [try { m } catch (...) { handler }]. *)
Definition catch {A} (m handler : act A) : act A := fun n =>
  match m n with
  | (Throw, n) => handler n
  | result => result
  end.
(** A value of the state, a call that only reads, an assignment. *)
Definition get {A} (f : ChainCore -> A) : act A := fun n => (Ret (f (m_chain n)), n).
Definition ask {A} (f : ChainCore -> outcome A) : act A := fun n => (f (m_chain n), n).
Definition put (f : ChainCore -> ChainCore) : act unit := fun n => (Ret tt, on_chain f n).
Definition pure {A} (m : outcome A) : act A := fun n => (m, n).
End data.

Notation "'act!' x := m ;; k" := (bind m (fun x => k))
  (at level 10, x pattern, m at level 99, k at level 200, only parsing) : cybou_scope.

Section runtime.
Context `{CryptoOps} {L : LevelDB} {Bs : BlobStore}.

(** Where the model of the pool stops, at an exception inside one of its
    calls, the pool that is left is an argument. *)
Context (torn : OperationPool -> OperationPool).

(** ** Calls of the parts *)

(** The snapshot of the store, kept by it; [inr] is [loaded && loaded.state]. *)
Definition state_snapshot : act StateLoadResult := fun n =>
  let c := m_chain n in
  let (loaded, s) := StateStore.GetStateSnapshot (store c) (chain_db c) in
  (loaded, on_chain (set_store s (chain_db c)) n).
Definition loaded_state : act (option CybouState) :=
  act! loaded := state_snapshot ;; ret (match loaded with inr state => Some state | inl _ => None end).
Definition finalized_head : act (option FinalizedHead) := ask (fun c => StateStore.GetFinalizedHead (chain_db c)).
Definition store_height (d : db) : outcome (option Z) :=
  try! head := StateStore.GetFinalizedHead d ;; Ret (fh_height <$> head).
Definition store_tip (d : db) : outcome (option Hash256) :=
  try! head := StateStore.GetFinalizedHead d ;; Ret (fh_block_id <$> head).
Definition signer_enabled (c : ChainCore) : bool :=
  match poa_finalizer c with Some f => bool_decide (is_Some (f_signer f)) | None => false end.
Definition finalizer_halted (c : ChainCore) : bool :=
  match poa_finalizer c with Some f => j_halted (f_journal f) | None => false end.
Definition binding (c : ChainCore) : Hash256 := ss_network_binding (store c).
Definition genesis_of (c : ChainCore) : VerifiedNetworkGenesis := ss_network_genesis (store c).
Definition pool_admit (operation : ProtocolOperation) (nonce : Z) (peer : option bytes) : act PoolAdmission := fun n =>
  let c := m_chain n in
  match Admit (operation_pool c) (store c, chain_db c) operation nonce peer with
  | Ret (admission, p) => (Ret admission, on_chain (set_pool p) n)
  | Throw => (Throw, on_chain (set_pool (torn (operation_pool c))) n)
  end.
Definition pool_revalidate : act (list Hash256) := fun n =>
  let c := m_chain n in
  match Revalidate (operation_pool c) (store c, chain_db c) with
  | Ret (dropped, p) => (Ret dropped, on_chain (set_pool p) n)
  | Throw => (Throw, on_chain (set_pool (torn (operation_pool c))) n)
  end.
Definition relay_enqueue (l : bytes) (nonce : Z) (allow_seen_retry : bool) : act Relay.OperationRelayEnqueueStatus := fun n =>
  match Relay.Enqueue (operation_relay (m_chain n)) l nonce allow_seen_retry with
  | Ret (status, r) => (Ret status, on_chain (set_relay r) n)
  | Throw => (Throw, n)
  end.
Definition relay_forget (id : Hash256) : act unit := put (fun c => set_relay (Relay.ForgetFinalized (operation_relay c) id) c).

(** ** Small steps *)

Definition NotifyBlockProductionLocked : act unit :=
  put (fun c => set_statuses (recent_operation_status c) (production_revision c ⊕ 1) c).
Definition WakeBlockProduction : act unit := NotifyBlockProductionLocked.
Definition BlockProductionRevision : act Z := get production_revision.
(** Without the line in the event log. *)
Definition RememberOperationStatus (id : Hash256) (status : OperationStatus) : act unit :=
  return_if IsNull id with ret tt ;;
  put (fun c => set_statuses (remember RECENT_STATUS_LIMIT (recent_operation_status c) id status) (production_revision c) c).
Fixpoint forget_all (dropped : list Hash256) : act unit :=
  match dropped with
  | [] => ret tt
  | id :: rest => act! _ := relay_forget id ;; forget_all rest
  end.
Definition RevalidateCandidates : act unit :=
  act! dropped := pool_revalidate ;;
  act! _ := forget_all dropped ;;
  NotifyBlockProductionLocked.

(** ** Genesis and state *)

Definition InitializeGenesis (genesis : CybouState) (sync : bool) : act bool :=
  act! loaded := state_snapshot ;;
  match loaded with
  | inr _ => ret true
  | inl SE_NOT_FOUND => fun n =>
      let c := m_chain n in
      let '(result, s, d) := StateStore.InitializeGenesis (store c) (chain_db c) genesis sync in
      (try! result := result ;; Ret (match result with GI_NONE => true | _ => false end), on_chain (set_store s d) n)
  | inl _ => ret false
  end.
Definition GetStatus : act NodeRuntimeStatus :=
  act! c := get id ;;
  act! loaded := state_snapshot ;;
  let initialized := match loaded with inr _ => true | inl _ => false end in
  let runtime_state := match loaded with
    | inl SE_NETWORK_MISMATCH => RS_NETWORK_MISMATCH
    | inl SE_CORRUPT => RS_CORRUPT
    | inl SE_NOT_FOUND | inl SE_NONE => RS_UNINITIALIZED
    | inr _ => RS_READY
    end in
  act! head := finalized_head ;;
  act! root := ask (fun c => StateStore.GetStateRoot (chain_db c)) ;;
  let halted := bool_decide (production_status c = BP_SAFETY_HALT) || PoaSafetyHalted (store c) || finalizer_halted c in
  ret (mkStatus (binding c) (default 0 (fh_height <$> head)) (default ZERO (fh_block_id <$> head)) (default ZERO root)
    (signer_enabled c) initialized halted (if halted && initialized then RS_SAFETY_HALTED else runtime_state)).
Definition GetFinalizedHeight : act (option Z) := ask (fun c => store_height (chain_db c)).
Definition GetFinalizedTip : act (option Hash256) := ask (fun c => store_tip (chain_db c)).
Definition GetStateRoot : act (option Hash256) := ask (fun c => StateStore.GetStateRoot (chain_db c)).
Definition GetAccountState (account_id : AccountId) : act (option AccountState) :=
  act! state := loaded_state ;;
  let? state := state else ret None ;;
  ret (accounts state !! account_id).
Definition IsTreasuryClaimant (account_id : AccountId) : act bool :=
  act! state := loaded_state ;;
  let? state := state else ret false ;;
  ret (existsb (fun entry => bool_decide (alloc_label entry.2 = CENTRAL_AUTHORITY_NAME)
                             && bool_decide (claimed_by entry.2 = Some account_id)) (entries (genesis_allocations state))).
Definition IsPublicationActive (publication_id : Hash256) : act bool :=
  act! state := loaded_state ;;
  let? state := state else ret false ;;
  ret (bool_decide (is_Some (publications state !! publication_id))).
Definition GetStorageLease (publication_id : Hash256) : act (option StorageLeaseRecord) :=
  act! state := loaded_state ;;
  let? state := state else ret None ;;
  ret (leases state !! publication_id).
Definition GetStorageSettlementCursor : act (option StorageSettlementCursor) :=
  act! state := loaded_state ;;
  ret (settlement <$> state).
Definition lease_active (state : CybouState) (publication_id : Hash256) : bool :=
  bool_decide (is_Some (publications state !! publication_id)) &&
  match leases state !! publication_id with
  | Some lease => (lr_first_period lease <=? next_period (settlement state)) && (next_period (settlement state) <? lr_end_period lease)
  | None => false
  end.
Definition IsStorageLeaseActive (publication_id : Hash256) : act bool :=
  act! state := loaded_state ;;
  let? state := state else ret false ;;
  ret (lease_active state publication_id).

(** ** Relay work *)

(** The result of [SolveOperationWork]: [None] is a refusal, [Some None] the
    end of the fuel. The chain mutex is free during the search. *)
Definition remember_work (id : Hash256) (nonce : Z) : act unit :=
  put (fun c => set_work (remember SOLVED_WORK_LIMIT (solved_work c) id nonce) c).
Definition known_work (id : Hash256) (op : ProtocolOperation) : act (option Z * Z) :=
  act! nonce := get (fun c => rc_map (solved_work c) !! id) ;;
  act! _ := loaded_state ;;
  act! bits := get (fun c => RequiredWorkBits (operation_pool c) op) ;;
  ret (nonce, bits).
Definition PrepareOperationWork (fuel : nat) (random_hi random_lo : Z) (op : ProtocolOperation) : act (option (option Z)) :=
  act! op_id := pure (ComputeOperationId op) ;;
  let? op_id := op_id else ret None ;;
  act! (nonce, bits) := known_work op_id op ;;
  act! net := get binding ;;
  act! works := pure (match nonce with Some nonce => CheckOperationWork net op_id nonce bits | None => Ret false end) ;;
  return_if works with ret (Some nonce) ;;
  match SolveOperationWork fuel (fun _ => false) random_hi random_lo net op_id bits with
  | Some (Some nonce) => act! _ := remember_work op_id nonce ;; ret (Some (Some nonce))
  | Some None => ret (Some None)
  | None => ret None
  end.

(** ** Storage settlements *)

Definition check_settlement (c : ChainCore) (op : StorageSettlement) (state : CybouState) (head : FinalizedHead)
    : act StorageSettlementError :=
  pure (Settlement.CheckStorageSettlementInputs op (GetProtocolParameters (genesis_of c)) state (binding c)
          (fh_height head ⊕ 1) (fh_block_id head)).
Definition CheckStorageSettlementInputs (op : StorageSettlement) : act StorageSettlementError :=
  act! state := loaded_state ;;
  let? state := state else ret SS_INVALID_PAYLOAD ;;
  act! head := finalized_head ;;
  let? head := head else ret SS_INVALID_PAYLOAD ;;
  return_if fh_height head =? MAX64 with ret SS_INVALID_PAYLOAD ;;
  act! c := get id ;;
  check_settlement c op state head.
Definition SignStorageSettlement (op : StorageSettlement) : act (option StorageSettlement) :=
  act! c := get id ;;
  let? f := poa_finalizer c else ret None ;;
  return_if negb (bool_decide (is_Some (f_signer f))) || PoaSafetyHalted (store c) || j_halted (f_journal f) with ret None ;;
  act! state := loaded_state ;;
  act! head := finalized_head ;;
  let? state := state else ret None ;;
  let? head := head else ret None ;;
  return_if fh_height head =? MAX64 with ret None ;;
  act! error := check_settlement c op state head ;;
  return_if negb (bool_decide (error = SS_NONE)) with ret None ;;
  let (signed, op) := Journal.SignStorageSettlement f op in
  ret (if signed then Some op else None).

(** ** Admission *)

Definition EnqueueRelayedOperation (exact_bytes : bytes) (work_nonce : Z) (allow_seen_retry : bool) (source_peer : option bytes)
    : act Relay.OperationRelayEnqueueStatus :=
  act! operation := pure (DeserializeProtocolOperation exact_bytes) ;;
  let? operation := operation else ret Relay.INVALID_OPERATION ;;
  act! canonical_bytes := pure (SerializeProtocolOperation operation) ;;
  return_if negb (bool_decide (canonical_bytes = Some exact_bytes)) with ret Relay.INVALID_OPERATION ;;
  act! state := loaded_state ;;
  let? state := state else ret Relay.INVALID_OPERATION ;;
  act! net := get binding ;;
  act! proofs := pure (VerifyProtocolOperationRelayProofs operation net (identities state)) ;;
  return_if negb proofs with ret Relay.INVALID_OPERATION ;;
  act! admission := pool_admit operation work_nonce source_peer ;;
  match admission with
  | PA_ACCEPTED =>
      act! _ := NotifyBlockProductionLocked ;;
      relay_enqueue exact_bytes work_nonce allow_seen_retry
  | PA_ALREADY_PENDING => relay_enqueue exact_bytes work_nonce allow_seen_retry
  | PA_ALREADY_FINALIZED => ret Relay.DUPLICATE
  | PA_REJECTED => ret Relay.INVALID_OPERATION
  end.

(** [ComputeOperationId(op).value_or({})]. *)
Definition id_or_null (op : ProtocolOperation) : outcome Hash256 :=
  try! id := ComputeOperationId op ;; Ret (default ZERO id).
(** The first critical section of [SubmitOperationInternal]: an answer, or
    [None] when the network is asked next. *)
Definition submit_locally (op : ProtocolOperation) (work_nonce : Z) (source_peer : option bytes) (op_id : Hash256)
    : act (option OperationSubmitResult) :=
  let answer status := Some (mkSubmit status op_id false) in
  act! loaded := state_snapshot ;;
  match loaded with
  | inl SE_NETWORK_MISMATCH => ret (answer SU_NETWORK_MISMATCH)
  | inl _ => ret (answer SU_REJECTED)
  | inr _ =>
      act! halted := get (fun c => PoaSafetyHalted (store c) || finalizer_halted c) ;;
      return_if halted with ret (answer SU_REJECTED) ;;
      act! admission := pool_admit op work_nonce source_peer ;;
      act! _ := (if bool_decide (admission = PA_ACCEPTED) then NotifyBlockProductionLocked else ret tt) ;;
      match admission with
      | PA_ALREADY_FINALIZED =>
          act! height := ask (fun c => GetFinalizedOperationHeight (store c) (chain_db c) op_id) ;;
          act! _ := RememberOperationStatus op_id (mkOpStatus OS_FINALIZED (default 0 height)) ;;
          ret (answer SU_ALREADY_FINALIZED)
      | PA_REJECTED =>
          act! _ := RememberOperationStatus op_id (mkOpStatus OS_REJECTED_KNOWN 0) ;;
          ret (answer SU_REJECTED)
      | PA_ACCEPTED | PA_ALREADY_PENDING =>
          act! signer := get signer_enabled ;;
          if signer then
            act! _ := RememberOperationStatus op_id (mkOpStatus OS_LOCAL_PENDING 0) ;;
            ret (answer (if bool_decide (admission = PA_ACCEPTED) then SU_ACCEPTED else SU_ALREADY_PENDING))
          else
            act! own_bytes := pure (SerializeProtocolOperation op) ;;
            act! _ := match own_bytes with
                     | Some own_bytes => act! _ := relay_enqueue own_bytes work_nonce true ;; ret tt
                     | None => ret tt
                     end ;;
            ret None
      end
  end.
Definition taken_remotely (status : OperationSubmitStatus) : bool :=
  match status with SU_ACCEPTED | SU_ALREADY_PENDING | SU_RELAY_QUEUED => true | _ => false end.
(** The second one, with what [SubmitOperationToAny] returned: an
    acknowledgment, and whether the delivery is uncertain. *)
Definition submit_remotely (op_id : Hash256) (acknowledgment : option OperationSubmitResult) (uncertain : bool)
    : act OperationSubmitResult :=
  let result := default (mkSubmit SU_REJECTED op_id false) acknowledgment in
  let delivery_uncertain := uncertain || negb (bool_decide (is_Some acknowledgment)) || negb (taken_remotely (su_status result)) in
  let result := mkSubmit (su_status result) (su_op_id result) delivery_uncertain in
  if taken_remotely (su_status result) then
    act! _ := RememberOperationStatus op_id (mkOpStatus OS_ACCEPTED_REMOTE 0) ;; ret result
  else
    act! finalized := ask (fun c => GetFinalizedOperationHeight (store c) (chain_db c) op_id) ;;
    match finalized with
    | Some finalized =>
        act! _ := RememberOperationStatus op_id (mkOpStatus OS_FINALIZED finalized) ;;
        ret (mkSubmit SU_ALREADY_FINALIZED (su_op_id result) false)
    | None =>
        if su_delivery_uncertain result then
          act! _ := RememberOperationStatus op_id (mkOpStatus OS_UNKNOWN 0) ;;
          ret (mkSubmit (if bool_decide (su_status result = SU_ALREADY_FINALIZED) then SU_REJECTED else su_status result)
                 (su_op_id result) true)
        else
          act! _ := RememberOperationStatus op_id (mkOpStatus OS_REJECTED_KNOWN 0) ;; ret result
    end.
(** [network] is the answer of the peers, when there is a peer manager. *)
Definition SubmitOperationInternal (op : ProtocolOperation) (work_nonce : Z) (source_peer : option bytes)
    (network : option (option OperationSubmitResult * bool)) : act OperationSubmitResult :=
  act! op_id := pure (id_or_null op) ;;
  act! answer := submit_locally op work_nonce source_peer op_id ;;
  match answer, network with
  | Some answer, _ => ret answer
  | None, Some (acknowledgment, uncertain) => submit_remotely op_id acknowledgment uncertain
  | None, None => ret (mkSubmit SU_REJECTED op_id false)
  end.
(** [None] is the end of the fuel of the search for work. *)
Definition SubmitOperation (fuel : nat) (random_hi random_lo : Z) (op : ProtocolOperation)
    (network : option (option OperationSubmitResult * bool)) : act (option OperationSubmitResult) :=
  act! nonce := PrepareOperationWork fuel random_hi random_lo op ;;
  match nonce with
  | None => act! op_id := pure (id_or_null op) ;; ret (Some (mkSubmit SU_REJECTED op_id false))
  | Some None => ret None
  | Some (Some nonce) => act! result := SubmitOperationInternal op nonce None network ;; ret (Some result)
  end.

Definition CandidateOperationCount : act Z := get (fun c => zlen (p_entries (operation_pool c))).
Definition CandidateOperationIds : act (list Hash256) := get (fun c => Ids (operation_pool c)).
Definition HasCandidateOperation (operation_id : Hash256) : act bool := get (fun c => bool_decide (operation_id ∈ p_ids (operation_pool c))).
Definition ClaimRelayedOperation : act (option Relay.RelayedOperation) := fun n =>
  let (item, r) := Relay.Claim (operation_relay (m_chain n)) in (Ret item, on_chain (set_relay r) n).
Definition NextRelayedOperation (skip : option (Hash256 -> bool)) : act (option Relay.RelayedOperation) :=
  get (fun c => Relay.Peek (operation_relay c) skip).
Definition ReleaseRelayedOperation (operation_id : Hash256) : act unit :=
  put (fun c => set_relay (Relay.Release (operation_relay c) operation_id) c).
Definition AcknowledgeRelayedOperation (operation_id : Hash256) : act bool := fun n =>
  let (done, r) := Relay.Acknowledge (operation_relay (m_chain n)) operation_id in (Ret done, on_chain (set_relay r) n).
Definition HasRelayedOperation (operation_id : Hash256) : act bool := get (fun c => Relay.HasQueued (operation_relay c) operation_id).
Definition GetOperationStatus (op_id : Hash256) : act OperationStatus :=
  return_if IsNull op_id with ret unknown_status ;;
  act! height := ask (fun c => GetFinalizedOperationHeight (store c) (chain_db c) op_id) ;;
  match height with
  | Some height => ret (mkOpStatus OS_FINALIZED height)
  | None =>
      get (fun c =>
        if signer_enabled c && bool_decide (op_id ∈ p_ids (operation_pool c)) then mkOpStatus OS_LOCAL_PENDING 0
        else default unknown_status (rc_map (recent_operation_status c) !! op_id))
  end.
End runtime.
End Runtime.
