(* ===== verification/NodeProduction.v ===== *)
(** * Production, commits, lookups and the provider's doors

    The rest of [src/src/cybou/node_runtime_chain.cpp],
    [node_runtime.cpp] and [node_runtime_provider.cpp]: how a node makes and
    takes blocks, what it answers about finalized history, and how a provider
    admits and serves chunks for publications that are paid for. *)

From S2P Require Import Prelude.
From S2P Require Import Bytes.
From S2P Require Import Codec.
From S2P Require Import Params.
From S2P Require Import Crypto.
From S2P Require Import Identity.
From S2P Require Import Names.
From S2P Require Import Payloads.
From S2P Require Import Merkle.
From S2P Require Import StorageAudit.
From S2P Require Import Operation.
From S2P Require Import State.
From S2P Require Import Executor.
From S2P Require Import Block.
From S2P Require Import NetworkGenesis.
From S2P Require Import KVStore.
From S2P Require Import KVIteration.
From S2P Require Import Journal.
From S2P Require Import StateStore.
From S2P Require Import EventIndex.
From S2P Require Import Pool.
From S2P Require Import Relay.
From S2P Require Import ChunkRetention.
From S2P Require Import ChunkBlobs.
From S2P Require Import FinalizedChunks.
From S2P Require Import ChunkService.
From S2P Require Import NodeRuntime.

Module Production.
Import Runtime.

Section production.
Context `{CryptoOps} {L : LevelDB} {Bs : BlobStore}.
Context (torn : OperationPool -> OperationPool).

(** ** Calls of the parts *)

Definition purge (publication_id : Hash256) : act Z := fun n =>
  let p := m_provider n in
  let '(r, s, d, b) := PurgePublication (finalized_chunk_store p) (finalized_db p) (chunk_blob_store p) publication_id in
  (r, mkRuntime (m_chain n) (mkProvider s d (chunk_retention p) b)).
(** [RetryPendingPurges] with its default count, before every pass of the mesh. *)
Definition retry_purges : act Z := fun n =>
  let p := m_provider n in
  let '(r, s, d, b) := RetryPendingPurges (finalized_chunk_store p) (finalized_db p) (chunk_blob_store p) 128 in
  (r, mkRuntime (m_chain n) (mkProvider s d (chunk_retention p) b)).
Definition check_tip (head : FinalizedHead) : act PoaJournalStatus := fun n =>
  let c := m_chain n in
  let? f := poa_finalizer c else (Throw, n) ;;
  let '(status, j, d) := CheckCanonicalTip (f_journal f) (chain_db c) (fh_height head) (fh_block_id head) in
  (Ret status, on_chain (set_finalizer (Some (set_journal f j)) d) n).
Definition sign_finality (head : FinalizedHead) (block : CybouBlock) : act PoaSigningResult := fun n =>
  let c := m_chain n in
  let? f := poa_finalizer c else (Throw, n) ;;
  let '(result, f, d) := SignFinality f (chain_db c) (fh_height head) (fh_block_id head) block in
  (result, on_chain (set_finalizer (Some f) d) n).
Definition store_commit (block : FinalizedBlock) (sync : bool) : act BlockTransitionResult := fun n =>
  let c := m_chain n in
  let '(result, s, d) := CommitFinalizedBlock (store c) (chain_db c) block sync in
  (result, on_chain (set_store s d) n).
Definition candidate_root (operations : list ProtocolOperation) (height : Z) : act (option Hash256) := fun n =>
  let c := m_chain n in
  let (root, s) := ComputeCandidateStateRoot (store c) (chain_db c) operations height in
  (root, on_chain (set_store s (chain_db c)) n).
Definition on_index {A} (f : CybouStateStore -> db -> outcome A * db) : act A := fun n =>
  let c := m_chain n in
  let (r, d) := f (store c) (chain_db c) in (r, on_chain (set_store (store c) d) n).

(** ** Events *)

(** [EmitFinalizedEvents] without the lines in the event log; [produced] only
    chooses one of them. *)
Definition emit_operation (height : Z) (op : ProtocolOperation) : act unit :=
  act! id := pure (ComputeOperationId op) ;;
  let? id := id else ret tt ;;
  act! _ := relay_forget id ;;
  act! _ := match op with
            | OpRevokePublication op => act! _ := purge (rev_publication_id (revoke op)) ;; ret tt
            | _ => ret tt
            end ;;
  RememberOperationStatus id (mkOpStatus OS_FINALIZED height).
Fixpoint emit_operations (height : Z) (operations : list ProtocolOperation) : act unit :=
  match operations with
  | [] => ret tt
  | op :: rest => act! _ := emit_operation height op ;; emit_operations height rest
  end.
Definition EmitFinalizedEvents (block : FinalizedBlock) : act unit :=
  act! _ := pure (ComputeBlockId (fin_block block)) ;;
  emit_operations (blk_height (fin_block block)) (blk_operations (fin_block block)).

(** ** Production *)

Definition halt_production {A} : act (option A) := act! _ := put (set_production BP_SAFETY_HALT) ;; ret None.
(** A commit that overtook the candidate completes or voids it. *)
Definition drop_stale (head : FinalizedHead) : act unit :=
  put (fun c => match production_candidate c with
                | Some candidate => if blk_height candidate <=? fh_height head then set_candidate None None c else c
                | None => c
                end).
(** The candidate is there afterwards, unless the answer is [false]. *)
Definition prepare_candidate (head : FinalizedHead) : act bool :=
  act! kept := get production_candidate ;;
  return_if bool_decide (is_Some kept) with ret true ;;
  act! operations := get (fun c => Snapshot (operation_pool c)) ;;
  act! root := candidate_root operations (fh_height head ⊕ 1) ;;
  let? root := root else (act! _ := RevalidateCandidates torn ;; ret false) ;;
  let candidate := mkBlock (fh_block_id head) (fh_height head ⊕ 1) operations root in
  act! encoded := pure (SerializeBlock candidate) ;;
  let? encoded := encoded else ret false ;;
  return_if MAX_FINALIZER_SERIALIZED_BLOCK_BYTES - POA_FINALITY_CERTIFICATE_SIZE - 8 <? zlen encoded with ret false ;;
  act! _ := put (fun c => set_candidate (Some candidate) (production_finalized c) c) ;;
  ret true.
Definition sign_candidate (head : FinalizedHead) : act bool :=
  act! finalized := get production_finalized ;;
  return_if bool_decide (is_Some finalized) with ret true ;;
  act! candidate := get production_candidate ;;
  let? candidate := candidate else pure Throw ;;
  act! signing := sign_finality head candidate ;;
  match sr_certificate signing with
  | None =>
      act! _ := (match sr_status signing with PS_JOURNAL_REJECTED => put (set_production BP_SAFETY_HALT) | _ => ret tt end) ;;
      ret false
  | Some certificate =>
      act! _ := put (fun c => set_candidate (production_candidate c) (Some (mkFinalizedBlock candidate certificate)) c) ;;
      ret true
  end.
Definition commit_candidate (sync : bool) : act (option FinalizedBlock) :=
  act! finalized := get production_finalized ;;
  let? finalized := finalized else pure Throw ;;
  act! l := pure (SerializeFinalizedBlock finalized) ;;
  return_if match l with Some l => MAX_FINALIZER_SERIALIZED_BLOCK_BYTES <? zlen l | None => true end with halt_production ;;
  act! result := store_commit finalized sync ;;
  return_if negb (bool_decide (bt_error result = BT_NONE)) with ret None ;;
  act! _ := put (fun c => set_production BP_PRODUCED (set_candidate None None c)) ;;
  act! _ := EmitFinalizedEvents finalized ;;
  act! _ := RevalidateCandidates torn ;;
  ret (Some finalized).
Definition produce (sync : bool) : act (option FinalizedBlock) :=
  act! loaded := state_snapshot ;;
  match loaded with
  | inl _ => halt_production
  | inr _ =>
      act! head := finalized_head ;;
      let? head := head else ret None ;;
      return_if fh_height head =? MAX64 with ret None ;;
      act! tip := check_tip head ;;
      return_if negb (bool_decide (tip = JS_NONE)) with halt_production ;;
      act! _ := drop_stale head ;;
      act! prepared := prepare_candidate head ;;
      return_if negb prepared with ret None ;;
      act! signed := sign_candidate head ;;
      return_if negb signed with ret None ;;
      commit_candidate sync
  end.
Definition ProduceBlock (sync : bool) : act (option FinalizedBlock) :=
  act! status := get production_status ;;
  return_if bool_decide (status = BP_SAFETY_HALT) with ret None ;;
  act! _ := put (set_production BP_RETRY) ;;
  act! c := get id ;;
  return_if negb (signer_enabled c) with (act! _ := put (set_production BP_SIGNER_UNAVAILABLE) ;; ret None) ;;
  return_if PoaSafetyHalted (store c) || finalizer_halted c with halt_production ;;
  catch (produce sync)
    (act! halted := get finalizer_halted ;;
     if halted then halt_production else ret None).
Definition LastBlockProductionStatus : act BlockProductionStatus := get production_status.

Definition EnablePoaSigner (signer : option PoaSigner) : act bool :=
  let? signer := signer else ret false ;;
  act! _ := (fun n : CybouNodeRuntime =>
    let c := m_chain n in
    match poa_finalizer c with
    | Some _ => (Ret tt, n)
    | None =>
        let (f, d) := open_finalizer (chain_db c) (binding c) (GetGenesisAnchor (genesis_of c)) (GetPoaPublicKey (genesis_of c)) in
        match f with
        | Ret f => (Ret tt, on_chain (set_finalizer (Some f) d) n)
        | Throw => (Throw, on_chain (set_finalizer None d) n)
        end
    end) ;;
  act! halted := get (fun c => bool_decide (production_status c = BP_SAFETY_HALT) || PoaSafetyHalted (store c)) ;;
  return_if halted with ret false ;;
  act! enabled := (fun n : CybouNodeRuntime =>
    let c := m_chain n in
    match poa_finalizer c with
    | Some f => let (enabled, f) := EnableSigner f (Some signer) in (Ret enabled, on_chain (set_finalizer (Some f) (chain_db c)) n)
    | None => (Throw, n)
    end) ;;
  act! _ := (if enabled then NotifyBlockProductionLocked else ret tt) ;;
  ret enabled.
Definition DisablePoaSigner : act unit :=
  act! _ := put (fun c => set_finalizer (DisableSigner <$> poa_finalizer c) (chain_db c) c) ;;
  NotifyBlockProductionLocked.
Definition IsPoaSignerActive : act bool := get signer_enabled.

(** ** Blocks of others *)

Definition CommitBlock (block : FinalizedBlock) (sync : bool) : act BlockTransitionResult :=
  act! loaded := state_snapshot ;;
  match loaded with
  | inl SE_NETWORK_MISMATCH => ret (transition BT_NETWORK_MISMATCH)
  | inl _ => ret (transition BT_STATE_NOT_INITIALIZED)
  | inr _ =>
      act! _ := ask (fun c => store_height (chain_db c)) ;;
      act! result := store_commit block sync ;;
      return_if negb (bool_decide (bt_error result = BT_NONE)) with ret result ;;
      act! _ := EmitFinalizedEvents block ;;
      act! _ := RevalidateCandidates torn ;;
      ret result
  end.

(** ** Lookups *)

Definition GetBlockAtHeight (height : Z) : act (option FinalizedBlock) := ask (fun c => StateStore.GetBlockAtHeight (chain_db c) height).
Definition ScanFinalizedPublications (after through max_blocks : Z) : act (option FinalizedPublicationScan) :=
  act! state := loaded_state ;;
  let? _ := state else ret None ;;
  on_index (fun s d => ScanPublicationHeights s d after through max_blocks).
Definition FindFinalizedOperation (op_id : Hash256) : act FinalizedOperationLookupResult :=
  return_if IsNull op_id with ret no_operation ;;
  act! state := loaded_state ;;
  let? _ := state else ret no_operation ;;
  act! indexed := on_index (fun s d => FindIndexedOperation s d op_id) ;;
  return_if negb (lk_available indexed) with ret no_operation ;;
  match lk_location indexed with
  | None =>
      act! height := ask (fun c => store_height (chain_db c)) ;;
      ret (mkFound FO_NOT_FOUND (default 0 height) 0 0 ZERO)
  | Some location =>
      ret (mkFound FO_FOUND (el_height location) (el_height location) (el_operation_index location) (el_block_id location))
  end.
(** The chain mutex is free between the three parts. *)
Definition FindFinalizedRootPublication (op_id : Hash256) : act (option RootPublication) :=
  act! location := FindFinalizedOperation op_id ;;
  return_if negb (bool_decide (fo_status location = FO_FOUND)) with ret None ;;
  act! finalized := GetBlockAtHeight (fo_height location) ;;
  let? finalized := finalized else ret None ;;
  let operations := blk_operations (fin_block finalized) in
  return_if zlen operations <=? fo_operation_index location with ret None ;;
  act! block_id := pure (ComputeBlockId (fin_block finalized)) ;;
  return_if negb (bool_decide (block_id = fo_block_id location)) with ret None ;;
  let? operation := operations !! Z.to_nat (fo_operation_index location) else ret None ;;
  act! operation_id := pure (ComputeOperationId operation) ;;
  return_if negb (bool_decide (operation_id = Some op_id)) with ret None ;;
  match operation with
  | OpRootPublication published =>
      act! state := loaded_state ;;
      let? state := state else ret None ;;
      return_if negb (bool_decide (is_Some (publications state !! op_id))) with ret None ;;
      ret (Some (publication published))
  | _ => ret None
  end.
Definition FindIdentityKemPackage (account_id : AccountId) (key_epoch : Z) : act IdentityKemPackageLookupResult :=
  act! state := loaded_state ;;
  act! finalized_height := ask (fun c => store_height (chain_db c)) ;;
  act! state_root := ask (fun c => StateStore.GetStateRoot (chain_db c)) ;;
  match state, finalized_height, state_root with
  | Some state, Some finalized_height, Some state_root =>
      return_if IsNull account_id with ret no_kem ;;
      let? identity := Find (identities state) account_id else ret (mkKem KP_ACCOUNT_NOT_FOUND 0 ZERO None) ;;
      let result status found := mkKem status finalized_height state_root found in
      return_if ir_key_epoch identity <? key_epoch with ret (result KP_KEY_EPOCH_UNAVAILABLE None) ;;
      act! indexed := on_index (fun s d => FindIndexedKem s d account_id key_epoch) ;;
      return_if negb (lk_available indexed) with ret (result KP_HISTORY_UNAVAILABLE None) ;;
      let? location := lk_location indexed else ret (result KP_NOT_FOUND None) ;;
      act! finalized := GetBlockAtHeight (el_height location) ;;
      let? finalized := finalized else ret (result KP_HISTORY_UNAVAILABLE None) ;;
      let? operation := blk_operations (fin_block finalized) !! Z.to_nat (el_operation_index location)
        else ret (result KP_HISTORY_UNAVAILABLE None) ;;
      let package := match operation with
                     | OpAccountCreate create => Some (ac_kem_package create)
                     | OpIdentityRotate rotate => Some (new_kem_package rotate)
                     | _ => None
                     end in
      let? package := package else ret (result KP_HISTORY_UNAVAILABLE None) ;;
      act! net := get binding ;;
      let? commitment := ComputeIdentityKemPackageCommitment net account_id key_epoch (arr_val package)
        else ret (result KP_HISTORY_UNAVAILABLE None) ;;
      return_if (key_epoch =? ir_key_epoch identity) && negb (bool_decide (commitment = ir_kem_package_id identity))
        with ret (result KP_HISTORY_UNAVAILABLE None) ;;
      ret (result KP_FOUND (Some (mkFoundKem package commitment key_epoch location)))
  | _, _, _ => ret no_kem
  end.

(** ** The provider's doors *)

Record StorageHolding : Type := mkStorageHolding {
  sh_publication_id : Hash256;
  sh_owner : option AccountId;
  sh_owner_name : option bytes;
  sh_chunks : Z;
  sh_bytes : Z;
}.
Record ChunkAdmissionResult : Type := mkAdmission { car_status : ChunkAdmissionStatus; car_receipt : bytes }.
Record StorageAuditAnswer : Type := mkAnswer { held : bool; response_hash : Hash256 }.

(** The callback of [PutFinalizedChunk]: paid storage only. *)
Definition paid_publication (operation_id : Hash256) : act (option RootPublication) :=
  act! active := IsStorageLeaseActive operation_id ;;
  return_if negb active with ret None ;;
  FindFinalizedRootPublication operation_id.
(** [PutChunk] gets to the callback. *)
Definition put_looks_up (publication_id : Hash256) (chunk_id : ChunkId) (stored_bytes : bytes) : bool :=
  negb (IsNull publication_id || bool_decide (chunk_id = ZERO) || negb (stored_size_ok (zlen stored_bytes))
        || negb (bool_decide (ComputeChunkId stored_bytes = chunk_id))).
(** [sign] is [SignStorageProof], which holds the storage secret. *)
Definition PutFinalizedChunk (sign : bytes -> option bytes) (space : option (Z * Z)) (publication_operation_id : Hash256)
    (chunk_id : ChunkId) (stored_bytes : bytes) (proof : ChunkAuthorizationProof) : act ChunkAdmissionResult := fun n =>
  let (publication, looked) :=
    if put_looks_up publication_operation_id chunk_id stored_bytes then paid_publication publication_operation_id n else (Ret None, n) in
  let p := m_provider looked in
  let '(status, d, b) := PutChunk (finalized_chunk_store p) (finalized_db p) (chunk_blob_store p) publication_operation_id chunk_id
    stored_bytes proof (fun _ => publication) space in
  let receipt := sign (StorageReceiptMessage (binding (m_chain n)) publication_operation_id chunk_id (wrap32 (zlen stored_bytes))) in
  (Ret (if admitted status then
          match receipt with
          | Some receipt => mkAdmission status receipt
          | None => mkAdmission CA_STORAGE_ERROR []
          end
        else mkAdmission status []),
   mkRuntime (m_chain looked) (mkProvider (finalized_chunk_store p) d (chunk_retention p) b)).
Definition ask_provider {A} (f : FinalizedChunkStore -> db -> blobs -> outcome A) : act A := fun n =>
  let p := m_provider n in (f (finalized_chunk_store p) (finalized_db p) (chunk_blob_store p), n).
Definition GetFinalizedChunk (chunk_id : ChunkId) : act (option bytes) := ask_provider (fun s d b => GetChunk s d b chunk_id).
Definition HasFinalizedChunk (chunk_id : ChunkId) : act bool := ask_provider (fun s d b => HasChunk s d b chunk_id).
Definition AnswerStorageAudit (challenge : StorageAuditChallenge) : act StorageAuditAnswer :=
  act! l := GetFinalizedChunk (ch_chunk_id challenge) ;;
  let? l := l else ret (mkAnswer false ZERO) ;;
  let? proof := CreateStorageAuditProof challenge l else ret (mkAnswer false ZERO) ;;
  ret (mkAnswer true (ap_response_hash proof)).
Definition GetFinalizedChunkAuthorizationProof (publication_operation_id : Hash256) (chunk_id : ChunkId)
    : act (option ChunkAuthorizationProof) :=
  return_if IsNull publication_operation_id || bool_decide (chunk_id = ZERO) with ret None ;;
  act! publication := FindFinalizedRootPublication publication_operation_id ;;
  ask_provider (fun s d b => GetChunkAuthorizationProof s d b publication_operation_id chunk_id (fun _ => Ret publication)).
Definition holding_item (state : option CybouState) (holding : PublicationHolding) : StorageHolding :=
  let record := let? state := state else None ;; publications state !! ph_publication_id holding in
  mkStorageHolding (ph_publication_id holding) (pr_owner <$> record)
    (match state, record with Some state, Some record => PrimaryName (st_names state) (pr_owner record) | _, _ => None end)
    (ph_chunks holding) (ph_bytes holding).
Definition StorageHoldings : act (list StorageHolding) :=
  act! holdings := ask_provider (fun s d _ => Holdings s d) ;;
  act! state := loaded_state ;;
  ret (holding_item state <$> holdings).

(** ** Construction *)

Definition MIN_STORAGE_CAPACITY_BYTES : Z := Z.shiftl 15 30.
Definition DEFAULT_STORAGE_CAPACITY_BYTES : Z := MIN_STORAGE_CAPACITY_BYTES.
Definition ProviderBudgetBytes (capacity_bytes : Z) : Z := capacity_bytes / 3 * 2 + capacity_bytes mod 3 * 2 / 3.
(** The members of [ChainCore], in the order of their declaration. *)
Definition open_chain (d : db) (network_genesis : VerifiedNetworkGenesis) (work_bits : option Z) : outcome ChainCore * db :=
  let (s, d) := open_store d network_genesis in
  (try! s := s ;;
   try! relay := Relay.new_relay Relay.default_max_operations Relay.default_max_queued_bytes ;;
   let limits := mkLimits (max_count default_limits) (max_bytes default_limits) (max_peer_count default_limits)
     (max_peer_bytes default_limits) work_bits in
   Ret (mkChain s d (mkPool limits [] ∅ ∅ 0 None) relay None BP_SIGNER_UNAVAILABLE None None (mkRecent ∅ []) (mkRecent ∅ []) 0), d).
(** The startup purge: a revocation that was committed before a crash takes
    its replicas with it. *)
Fixpoint purge_revoked (publications : list Hash256) : act unit :=
  match publications with
  | [] => ret tt
  | id :: rest =>
      act! publication := FindFinalizedRootPublication id ;;
      match publication with
      | Some _ => purge_revoked rest
      | None => act! _ := purge id ;; purge_revoked rest
      end
  end.
Definition purge_at_start : act unit :=
  act! restored := ask (fun c => LoadStateLocked (store c) (chain_db c)) ;;
  match restored with
  | inl _ => ret tt
  | inr _ =>
      act! publications := ask_provider (fun s d _ =>
        let (r, publications) := ForEachStringPrefixRaw d (Associations (fc_namespace s)) (association_key_size s) (publications_visitor s) ∅ in
        try! _ := r ;; Ret (set_order publications)) ;;
      purge_revoked publications
  end.
End production.
End Production.
