(* ===== verification/NodeActions.v ===== *)
(** * What the functions of the runtime are made of

    An invariant of the node that the calls of its parts keep is kept by every
    function of the runtime that is composed of them. The interface
    [Undisturbed] lists what has to be shown of an invariant; the rest follows
    for every handler, error paths and exceptions included. *)

From S2P Require Import Prelude.
From S2P Require Import Bytes.
From S2P Require Import Codec.
From S2P Require Import Params.
From S2P Require Import Crypto.
From S2P Require Import Payloads.
From S2P Require Import Merkle.
From S2P Require Import SettlementData.
From S2P Require Import Operation.
From S2P Require Import OperationCodec.
From S2P Require Import State.
From S2P Require Import StateCodec.
From S2P Require Import Executor.
From S2P Require Import Block.
From S2P Require Import NetworkGenesis.
From S2P Require Import KVStore.
From S2P Require Import Journal.
From S2P Require Import Detector.
From S2P Require Import StateStore.
From S2P Require Import StateStoreProofs.
From S2P Require Import StateCommit.
From S2P Require Import StateChain.
From S2P Require Import DbWrites.
From S2P Require Import EventIndex.
From S2P Require Import Pool.
From S2P Require Import Relay.
From S2P Require Import ChunkBlobs.
From S2P Require Import FinalizedChunks.
From S2P Require Import ChunkService.
From S2P Require Import WireTypes.
From S2P Require Import NodeRuntime.
From S2P Require Import NodeProduction.

Module NodeActions.
Import Runtime.
Import Production.

(** ** Actions that keep an invariant *)

Section keeping.
Context `{CryptoOps} {L : LevelDB} {Bs : BlobStore}.
Context (I : CybouNodeRuntime -> Prop).

Definition keeps {A} (m : act A) : Prop := forall n, I n -> I (m n).2.

Lemma keeps_bind {A B} (m : act A) (k : A -> act B) : keeps m -> (forall a, keeps (k a)) -> keeps (bind m k).
Proof. intros Hm Hk n Hn. unfold bind. specialize (Hm n Hn). destruct (m n) as [[a|] n1]; [by apply Hk|done]. Qed.
(** With what the first action says of its result. *)
Lemma keeps_bind_with {A B} (Q : A -> Prop) (m : act A) (k : A -> act B) : keeps m -> (forall n a, I n -> (m n).1 = Ret a -> Q a) ->
  (forall a, Q a -> keeps (k a)) -> keeps (bind m k).
Proof.
  intros Hm Hq Hk n Hn. unfold bind. pose proof (Hm n Hn) as Hn1. pose proof (Hq n) as Hq1. destruct (m n) as [[a|] n1]; [|done].
  apply Hk; [by apply Hq1|done].
Qed.
Lemma keeps_ret {A} (a : A) : keeps (ret a).
Proof. by intros n. Qed.
Lemma keeps_pure {A} (m : outcome A) : keeps (pure m).
Proof. by intros n. Qed.
Lemma keeps_get {A} (f : ChainCore -> A) : keeps (get f).
Proof. by intros n. Qed.
Lemma keeps_ask {A} (f : ChainCore -> outcome A) : keeps (ask f).
Proof. by intros n. Qed.
Lemma keeps_ask_provider {A} (f : FinalizedChunkStore -> db -> blobs -> outcome A) : keeps (ask_provider f).
Proof. by intros n. Qed.
Lemma keeps_catch {A} (m handler : act A) : keeps m -> keeps handler -> keeps (catch m handler).
Proof. intros Hm Hh n Hn. unfold catch. specialize (Hm n Hn). destruct (m n) as [[a|] n1]; [done|by apply Hh]. Qed.
End keeping.

(** An action is taken apart down to the calls of its parts, which the hint
    database knows. *)
Create HintDb keeps discriminated.
#[export] Hint Resolve keeps_ret keeps_pure keeps_get keeps_ask keeps_ask_provider : keeps.
Ltac keeping :=
  repeat first
    [ solve [auto with keeps nocore]
    | progress intros
    | apply keeps_bind
    | apply keeps_catch
    | lazymatch goal with
      | |- keeps _ (if ?b then _ else _) => destruct b
      | |- keeps _ (match ?x with _ => _ end) => destruct x
      end ].

(** ** The interface *)

Section handlers.
Context `{CryptoOps} {L : LevelDB} {Laws : LevelDBLaws L} {Bs : BlobStore}.
Context (torn : OperationPool -> OperationPool).
#[local] Set Default Proof Using "Type + Laws".

(** The fields an invariant can speak of. *)
Definition same_core (n n' : CybouNodeRuntime) : Prop :=
  store (m_chain n') = store (m_chain n) /\ chain_db (m_chain n') = chain_db (m_chain n) /\
  operation_pool (m_chain n') = operation_pool (m_chain n) /\ poa_finalizer (m_chain n') = poa_finalizer (m_chain n) /\
  production_candidate (m_chain n') = production_candidate (m_chain n) /\
  production_finalized (m_chain n') = production_finalized (m_chain n).
Class Undisturbed (I : CybouNodeRuntime -> Prop) : Prop := {
  u_same n n' : same_core n n' -> I n -> I n';
  u_snapshot n r s : I n -> StateStore.GetStateSnapshot (store (m_chain n)) (chain_db (m_chain n)) = (r, s) ->
    I (on_chain (set_store s (chain_db (m_chain n))) n);
  u_index n d : I n -> wrote [EVENTS_TAG] (chain_db (m_chain n)) d -> I (on_chain (set_store (store (m_chain n)) d) n);
  u_clear : keeps I (put (set_candidate None None));
  u_check_tip head : keeps I (check_tip head);
}.
Class PoolKept (I : CybouNodeRuntime -> Prop) : Prop := {
  u_admit op nonce peer : operation_typed op -> keeps I (pool_admit torn op nonce peer);
  u_revalidate : keeps I (pool_revalidate torn);
}.

Context {I : CybouNodeRuntime -> Prop} {HI : Undisturbed I} {HP : PoolKept I}.
#[local] Set Default Proof Using "Type + Laws + HI".
#[local] Abbreviation kept := (keeps I).
#[local] Hint Resolve u_admit u_revalidate u_clear u_check_tip : keeps.

Lemma keeps_same {A} (m : act A) : (forall n, same_core n (m n).2) -> kept m.
Proof. intros Hm n. by apply u_same. Qed.
Ltac same := apply keeps_same; intros n; by repeat split.
Lemma keeps_set_production status : kept (put (set_production status)).
Proof. same. Qed.
Lemma keeps_set_relay f : kept (put (fun c => set_relay (f c) c)).
Proof. same. Qed.
Lemma keeps_set_work f : kept (put (fun c => set_work (f c) c)).
Proof. same. Qed.
Lemma keeps_set_statuses f g : kept (put (fun c => set_statuses (f c) (g c) c)).
Proof. same. Qed.
Lemma keeps_purge id : kept (purge id).
Proof. apply keeps_same. intros n. unfold purge. destruct (PurgePublication _ _ _ id) as [[[r s] d] b]. by repeat split. Qed.
Lemma keeps_retry_purges : kept retry_purges.
Proof. apply keeps_same. intros n. unfold retry_purges. destruct (RetryPendingPurges _ _ _ _) as [[[r s] d] b]. by repeat split. Qed.
Lemma keeps_relay_enqueue l nonce retry : kept (relay_enqueue l nonce retry).
Proof. apply keeps_same. intros n. unfold relay_enqueue. destruct (Relay.Enqueue _ l nonce retry) as [[status r]|]; by repeat split. Qed.
Lemma keeps_claim : kept ClaimRelayedOperation.
Proof. apply keeps_same. intros n. unfold ClaimRelayedOperation. destruct (Relay.Claim _) as [item r]. by repeat split. Qed.
Lemma keeps_acknowledge id : kept (AcknowledgeRelayedOperation id).
Proof. apply keeps_same. intros n. unfold AcknowledgeRelayedOperation. destruct (Relay.Acknowledge _ id) as [b r]. by repeat split. Qed.
Lemma keeps_release id : kept (ReleaseRelayedOperation id).
Proof. apply (keeps_set_relay (fun c => Relay.Release (operation_relay c) id)). Qed.

Lemma keeps_state_snapshot : kept state_snapshot.
Proof. intros n Hn. unfold state_snapshot. destruct (StateStore.GetStateSnapshot _ _) as [r s] eqn:E. by eapply u_snapshot. Qed.
Lemma keeps_candidate_root operations height : kept (candidate_root operations height).
Proof.
  intros n Hn. unfold candidate_root, ComputeCandidateStateRoot. destruct (StateStore.GetStateSnapshot _ _) as [r s] eqn:E.
  by eapply u_snapshot.
Qed.
Lemma keeps_on_index {A} (f : CybouStateStore -> db -> outcome A * db) : (forall s d, wrote [EVENTS_TAG] d (f s d).2) -> kept (on_index f).
Proof.
  intros Hf n Hn. unfold on_index. pose proof (Hf (store (m_chain n)) (chain_db (m_chain n))) as Hw.
  destruct (f _ _) as [r d]. by apply u_index.
Qed.
#[local] Hint Resolve keeps_set_production keeps_set_relay keeps_set_work keeps_set_statuses keeps_purge keeps_relay_enqueue keeps_claim
  keeps_acknowledge keeps_state_snapshot keeps_candidate_root : keeps.

(** ** The functions of the runtime *)

Lemma keeps_loaded_state : kept loaded_state.
Proof. unfold loaded_state. keeping. Qed.
Lemma keeps_finalized_head : kept finalized_head.
Proof. apply keeps_ask. Qed.
Lemma keeps_notify : kept NotifyBlockProductionLocked.
Proof. apply keeps_set_statuses. Qed.
Lemma keeps_remember id status : kept (RememberOperationStatus id status).
Proof. unfold RememberOperationStatus. destruct (IsNull id); [apply keeps_ret|apply keeps_set_statuses]. Qed.
Lemma keeps_remember_work id nonce : kept (remember_work id nonce).
Proof. apply keeps_set_work. Qed.
Lemma keeps_forget id : kept (relay_forget id).
Proof. apply keeps_set_relay. Qed.
#[local] Hint Resolve keeps_loaded_state keeps_finalized_head keeps_notify keeps_remember keeps_remember_work keeps_forget : keeps.
Lemma keeps_forget_all dropped : kept (forget_all dropped).
Proof. induction dropped as [|id rest IH]; cbn [forget_all]; [apply keeps_ret|]. apply keeps_bind; [apply keeps_forget|done]. Qed.
#[local] Hint Resolve keeps_forget_all : keeps.
Lemma keeps_revalidate : kept (RevalidateCandidates torn).
Proof using Laws HI HP. unfold RevalidateCandidates. keeping. Qed.
#[local] Hint Resolve keeps_revalidate : keeps.
Lemma keeps_emit_operation height op : kept (emit_operation height op).
Proof. unfold emit_operation. keeping. Qed.
Lemma keeps_emit_operations height operations : kept (emit_operations height operations).
Proof. induction operations as [|op rest IH]; cbn [emit_operations]; [apply keeps_ret|]. apply keeps_bind; [apply keeps_emit_operation|done]. Qed.
#[local] Hint Resolve keeps_emit_operations : keeps.
Lemma keeps_emit block : kept (EmitFinalizedEvents block).
Proof. unfold EmitFinalizedEvents. keeping. Qed.
#[local] Hint Resolve keeps_emit : keeps.

Lemma keeps_GetStatus : kept GetStatus.
Proof. unfold GetStatus. keeping. Qed.
Lemma keeps_IsStorageLeaseActive id : kept (IsStorageLeaseActive id).
Proof. unfold IsStorageLeaseActive. keeping. Qed.
Lemma keeps_check_settlement c op state head : kept (check_settlement c op state head).
Proof. apply keeps_pure. Qed.
#[local] Hint Resolve keeps_IsStorageLeaseActive keeps_check_settlement : keeps.
Lemma keeps_SignStorageSettlement op : kept (Runtime.SignStorageSettlement op).
Proof. unfold Runtime.SignStorageSettlement. keeping. Qed.
Lemma keeps_PrepareOperationWork fuel hi lo op : kept (PrepareOperationWork fuel hi lo op).
Proof. unfold PrepareOperationWork, known_work. keeping. Qed.
Lemma keeps_submit_locally op nonce peer id : operation_typed op -> kept (submit_locally torn op nonce peer id).
Proof using Laws HI HP. intros Hop. unfold submit_locally. cbv zeta. keeping. Qed.
Lemma keeps_submit_remotely id acknowledgment uncertain : kept (submit_remotely id acknowledgment uncertain).
Proof. unfold submit_remotely. cbv zeta. keeping. Qed.
#[local] Hint Resolve keeps_PrepareOperationWork keeps_submit_locally keeps_submit_remotely : keeps.
Lemma keeps_SubmitOperationInternal op nonce peer network : operation_typed op -> kept (SubmitOperationInternal torn op nonce peer network).
Proof using Laws HI HP. intros Hop. unfold SubmitOperationInternal. keeping. Qed.
#[local] Hint Resolve keeps_SubmitOperationInternal : keeps.
Lemma keeps_SubmitOperation fuel hi lo op network : operation_typed op -> kept (SubmitOperation torn fuel hi lo op network).
Proof using Laws HI HP. intros Hop. unfold SubmitOperation. keeping. Qed.
(** What a peer sends is decoded, hence typed. *)
Lemma keeps_EnqueueRelayedOperation l nonce retry peer : kept (EnqueueRelayedOperation torn l nonce retry peer).
Proof using Laws HI HP.
  unfold EnqueueRelayedOperation. apply (keeps_bind_with _ (fun a => forall op, a = Some op -> operation_typed op)); [apply keeps_pure| |].
  - intros n a _ E op ->. by apply decoded_operation_typed in E.
  - intros [op|] Hop; [|apply keeps_ret]. specialize (Hop op eq_refl). keeping.
Qed.

Lemma keeps_FindFinalizedOperation id : kept (FindFinalizedOperation id).
Proof. unfold FindFinalizedOperation. keeping; apply keeps_on_index; intros s d; eapply two_attempts_wrote; apply surjective_pairing. Qed.
#[local] Hint Resolve keeps_FindFinalizedOperation : keeps.
Lemma keeps_GetBlockAtHeight height : kept (Production.GetBlockAtHeight height).
Proof. apply keeps_ask. Qed.
#[local] Hint Resolve keeps_GetBlockAtHeight : keeps.
Lemma keeps_FindFinalizedRootPublication id : kept (FindFinalizedRootPublication id).
Proof. unfold FindFinalizedRootPublication. cbv zeta. keeping. Qed.
#[local] Hint Resolve keeps_FindFinalizedRootPublication : keeps.
Lemma keeps_FindIdentityKemPackage account epoch : kept (FindIdentityKemPackage account epoch).
Proof.
  unfold FindIdentityKemPackage. cbv zeta. keeping; apply keeps_on_index; intros s d; eapply two_attempts_wrote; apply surjective_pairing.
Qed.
Lemma keeps_ScanFinalizedPublications after through max_blocks : kept (ScanFinalizedPublications after through max_blocks).
Proof. unfold ScanFinalizedPublications. keeping; apply keeps_on_index; intros s d; eapply two_attempts_wrote; apply surjective_pairing. Qed.
Lemma keeps_paid_publication id : kept (paid_publication id).
Proof. unfold paid_publication. keeping. Qed.
Lemma keeps_PutFinalizedChunk sign space publication_id chunk_id l proof : kept (PutFinalizedChunk sign space publication_id chunk_id l proof).
Proof.
  intros n Hn. unfold PutFinalizedChunk.
  assert (Hl : forall x : outcome (option RootPublication) * CybouNodeRuntime, I x.2 -> forall publication looked, x = (publication, looked) -> I looked)
    by (by intros x Hx ? ? ->).
  destruct (if put_looks_up _ _ _ then _ else _) as [publication looked] eqn:E. eapply Hl in E; cycle 1.
  { destruct (put_looks_up _ _ _); [by apply keeps_paid_publication|done]. }
  destruct (PutChunk _ _ _ _ _ _ _ _ _) as [[status d] b]. revert E. apply u_same. by repeat split.
Qed.
Lemma keeps_GetFinalizedChunkAuthorizationProof id chunk : kept (GetFinalizedChunkAuthorizationProof id chunk).
Proof. unfold GetFinalizedChunkAuthorizationProof. keeping. Qed.
Lemma keeps_purge_revoked publications : kept (purge_revoked publications).
Proof.
  induction publications as [|id rest IH]; cbn [purge_revoked]; [apply keeps_ret|]. apply keeps_bind; [apply keeps_FindFinalizedRootPublication|].
  intros [p|]; [done|]. apply keeps_bind; [apply keeps_purge|done].
Qed.
#[local] Hint Resolve keeps_purge_revoked : keeps.
Lemma keeps_purge_at_start : kept purge_at_start.
Proof. unfold purge_at_start. keeping. Qed.

Lemma keeps_drop_stale head : kept (drop_stale head).
Proof.
  intros n Hn. unfold drop_stale. cbn [put snd]. pose proof (u_clear n Hn) as Hclear. cbn [put snd] in Hclear.
  unfold on_chain in *. destruct (production_candidate (m_chain n)) as [b|]; [destruct (_ <=? _); [done|]|]; revert Hn; apply u_same; by repeat split.
Qed.
Lemma keeps_halt : kept (halt_production (A := FinalizedBlock)).
Proof. unfold halt_production. keeping. Qed.
End handlers.
End NodeActions.
