(* ===== verification/NodeChain.v ===== *)
(** * The node implements the chain

    Every function of the runtime, whatever fails inside it, keeps the node's
    store a representation of one chain, and only a commit moves the chain. The
    journal and the index write to the same database and are shown not to
    disturb it. *)

From S2P Require Import Prelude.
From S2P Require Import Bytes.
From S2P Require Import Codec.
From S2P Require Import Params.
From S2P Require Import Crypto.
From S2P Require Import Payloads.
From S2P Require Import Merkle.
From S2P Require Import SettlementData.
From S2P Require Import Operation.
From S2P Require Import OperationCodec.
From S2P Require Import State.
From S2P Require Import StateCodec.
From S2P Require Import Executor.
From S2P Require Import Block.
From S2P Require Import NetworkGenesis.
From S2P Require Import KVStore.
From S2P Require Import Journal.
From S2P Require Import Detector.
From S2P Require Import StateStore.
From S2P Require Import StateStoreProofs.
From S2P Require Import StateCommit.
From S2P Require Import StateChain.
From S2P Require Import DbWrites.
From S2P Require Import EventIndex.
From S2P Require Import Pool.
From S2P Require Import Relay.
From S2P Require Import ChunkBlobs.
From S2P Require Import FinalizedChunks.
From S2P Require Import ChunkService.
From S2P Require Import WireTypes.
From S2P Require Import NodeRuntime.
From S2P Require Import NodeProduction.
From S2P Require Import NodeActions.

Module NodeChain.
Import Runtime.
Import Production.
Import NodeActions.

(** ** The invariant *)

Section chain.
Context `{CryptoOps} {L : LevelDB} {Laws : LevelDBLaws L} {Bs : BlobStore}.
#[local] Set Default Proof Using "Type + Laws".

Definition pool_typed (p : OperationPool) : Prop := Forall (fun e => operation_typed (en_operation e)) (p_entries p).
(** An exception leaves nothing in the pool that was not there. *)
Class tears (torn : OperationPool -> OperationPool) : Prop := torn_entries p e : e ∈ p_entries (torn p) -> e ∈ p_entries p.

Record chain_ok (chain : list Hash256) (n : CybouNodeRuntime) : Prop := {
  ck_store : store_ok (store (m_chain n));
  ck_coherent : coherent (store (m_chain n)) (contents (chain_db (m_chain n)));
  ck_chain : represents (GetGenesisAnchor (genesis_of (m_chain n))) (ss_detector (store (m_chain n)))
               (contents (chain_db (m_chain n))) chain;
  ck_pool : pool_typed (operation_pool (m_chain n));
  ck_candidate block : production_candidate (m_chain n) = Some block -> block_typed block;
  ck_finalized fb : production_finalized (m_chain n) = Some fb -> finalized_typed fb;
  ck_journal f : poa_finalizer (m_chain n) = Some f -> journal_tagged (f_journal f);
}.

(** Writes of the other components. *)
Lemma represents_wrote anchor p d d' chain tags : wrote tags d d' -> detector_tagged p ->
  (forall t, t ∈ tags -> t ∈ [JOURNAL_TAG; EVENTS_TAG]) -> represents anchor p (contents d) chain -> represents anchor p (contents d') chain.
Proof.
  intros Hw Ht Htags [R1 R2 R3].
  assert (Hno : forall k, tag k ∈ [DETECTOR_TAG; BLOCK_TAG; HEIGHT_TAG; HEAD_KEY] -> contents d' !! EncodeBytes k = contents d !! EncodeBytes k).
  { intros k Hk. apply (wrote_other _ _ _ _ Hw). intros Hin%Htags. revert Hk. rewrite !elem_of_cons, elem_of_nil in Hin.
    destruct Hin as [->|[->|[]]]; other_tag. }
  constructor.
  - rewrite <- R1. unfold stored. by rewrite Hno by tags.
  - intros front id back E. destruct (R2 _ _ _ E) as (fb & Hs & Hh & Hp & Hi). exists fb. split_and!; [|done|done|].
    + eapply stored_block_same; [|exact Hs]. apply Hno. tags.
    + rewrite <- Hi. unfold stored. by rewrite Hno by tags.
  - intros front id E. destruct (R3 _ _ E) as (c & Hc & Hle). exists c. split; [|done]. rewrite <- Hc. unfold observed, stored.
    rewrite Hno; [done|]. unfold slot_key. rewrite Ht. tags.
Qed.
Lemma coherent_wrote s d d' tags : wrote tags d d' -> (forall t, t ∈ tags -> t ∈ [JOURNAL_TAG; EVENTS_TAG]) ->
  coherent s (contents d) -> coherent s (contents d').
Proof.
  intros Hw Htags Hc st Hst. eapply on_disk_frame; [|by apply Hc]. intros k Hk. apply (wrote_other _ _ _ _ Hw). intros Hin%Htags.
  unfold state_keys in Hk. rewrite !elem_of_cons, elem_of_nil in Hk. revert Hin.
  destruct Hk as [->|[->|[->|[->|[]]]]]; other_tag.
Qed.

(** ** The calls of the parts *)

Section steps.
Context (torn : OperationPool -> OperationPool) {Htorn : tears torn}.
Context (chain : list Hash256).
#[local] Abbreviation kept := (keeps (chain_ok chain)).

Lemma snapshot_ok n r s : chain_ok chain n -> StateStore.GetStateSnapshot (store (m_chain n)) (chain_db (m_chain n)) = (r, s) ->
  chain_ok chain (on_chain (set_store s (chain_db (m_chain n))) n).
Proof.
  intros [K1 K2 K3 K4 K5 K6 K7] E. apply GetStateSnapshot_inv in E as (Hc & _ & Hg & Hb & Hd); [|done]. constructor; cbn; try done.
  - eapply same_object_ok; [|exact K1]. unfold same_object. by rewrite Hd.
  - unfold genesis_of. cbn. rewrite Hg, Hd. exact K3.
Qed.
(** The pool. *)
Lemma torn_typed p : pool_typed p -> pool_typed (torn p).
Proof using Laws Htorn. unfold pool_typed. rewrite !Forall_forall. intros Hp e He. by apply Hp, torn_entries. Qed.
Lemma keeps_set_pool p n : pool_typed p -> chain_ok chain n -> chain_ok chain (on_chain (set_pool p) n).
Proof. intros Hp []. by constructor. Qed.
Lemma keep_entry_typed p w x e : pool_typed p -> operation_typed (en_operation e) -> pool_typed (keep_entry p w x e).
Proof. intros Hp He. apply Forall_app. split; [done|]. by constructor. Qed.
Lemma keeps_pool_admit op nonce peer : operation_typed op -> kept (pool_admit torn op nonce peer).
Proof using Laws Htorn.
  intros Hop n Hn. unfold pool_admit. pose proof (ck_pool _ _ Hn) as Hp.
  destruct (Admit _ _ op nonce peer) as [[r p']|] eqn:E; cbn [snd]; apply keeps_set_pool; [|done|by apply torn_typed|done].
  apply Admit_inv in E as [(_ & [->|(head & _ & Ee)])|(_ & head & p1 & w & x & l & id & _ & Ee & _ & _ & -> & _)]; [done|..];
    apply EnsureWorkingContext_inv in Ee as (w' & ->); [done|by apply keep_entry_typed].
Qed.
Lemma keeps_pool_revalidate : kept (pool_revalidate torn).
Proof using Laws Htorn.
  intros n Hn. unfold pool_revalidate. pose proof (ck_pool _ _ Hn) as Hp.
  destruct (Revalidate _ _) as [[dropped p']|] eqn:E; cbn [snd]; apply keeps_set_pool; [|done|by apply torn_typed|done].
  assert (H0 : pool_typed (Clear (operation_pool (m_chain n)))) by constructor.
  apply Revalidate_inv in E as [->|(head & p1 & _ & Ee & [->|E])]; [done|..]; apply EnsureWorkingContext_inv in Ee as (w & ->); [done|].
  revert E. apply (revalidate_loop_ind pool_typed (fun e => operation_typed (en_operation e))); [|done|done].
  intros p w' e p2 Hp2 He _ (x & _ & -> & _)%revalidate_entry_inv. by apply keep_entry_typed.
Qed.

(** The finalizer. *)
Lemma keeps_set_finalizer n d f : wrote [JOURNAL_TAG] (chain_db (m_chain n)) d -> (forall g, f = Some g -> journal_tagged (f_journal g)) ->
  chain_ok chain n -> chain_ok chain (on_chain (set_finalizer f d) n).
Proof.
  intros Hw Hf [K1 K2 K3 K4 K5 K6 K7].
  assert (Ht : forall t, t ∈ [JOURNAL_TAG] -> t ∈ [JOURNAL_TAG; EVENTS_TAG]) by (intros t ->%list_elem_of_singleton; tags).
  constructor; cbn; try done; [by eapply coherent_wrote|]. eapply represents_wrote; [done|apply K1|done|exact K3].
Qed.
Lemma tagged_prefix j j' : j_prefix j' = j_prefix j -> journal_tagged j -> journal_tagged j'.
Proof. unfold journal_tagged. by intros ->. Qed.
Lemma keeps_check_tip head : kept (check_tip head).
Proof.
  intros n Hn. unfold check_tip. destruct (poa_finalizer (m_chain n)) as [f|] eqn:Ef; [|done]. pose proof (ck_journal _ _ Hn _ Ef) as Hj.
  destruct (CheckCanonicalTip _ _ _ _) as [[status j] d] eqn:E. apply CheckCanonicalTip_wrote in E as [Hw Hp]; [|done].
  apply keeps_set_finalizer; [done| |done]. intros g [= <-]. by eapply tagged_prefix.
Qed.

#[export] Instance chain_pool : PoolKept torn (chain_ok chain).
Proof using Laws Htorn. constructor; [exact keeps_pool_admit|exact keeps_pool_revalidate]. Qed.
#[export] Instance chain_undisturbed : Undisturbed (chain_ok chain).
Proof.
  constructor.
  - intros [c p] [c' p'] (E1 & E2 & E3 & E4 & E5 & E6) []. unfold genesis_of in *. cbn in *.
    constructor; unfold genesis_of; cbn; by rewrite ?E1, ?E2, ?E3, ?E4, ?E5, ?E6.
  - intros n r s. apply snapshot_ok.
  - intros n d [K1 K2 K3 K4 K5 K6 K7] Hw.
    assert (Ht : forall t, t ∈ [EVENTS_TAG] -> t ∈ [JOURNAL_TAG; EVENTS_TAG]) by (intros t ->%list_elem_of_singleton; tags).
    constructor; cbn; try done; [by eapply coherent_wrote|]. eapply represents_wrote; [done|apply K1|done|exact K3].
  - intros n []. by constructor.
  - exact keeps_check_tip.
Qed.

Lemma keeps_sign_finality head block : kept (sign_finality head block).
Proof.
  intros n Hn. unfold sign_finality. destruct (poa_finalizer (m_chain n)) as [f|] eqn:Ef; [|done]. pose proof (ck_journal _ _ Hn _ Ef) as Hj.
  destruct (SignFinality f _ _ _ _) as [[r f'] d] eqn:E. apply SignFinality_wrote in E as (Hw & Hp & _); [|done].
  apply keeps_set_finalizer; [done| |done]. intros g [= <-]. by eapply tagged_prefix.
Qed.

(** An initialised store is not initialised again. *)
Lemma keeps_InitializeGenesis genesis sync : kept (Runtime.InitializeGenesis genesis sync).
Proof.
  unfold Runtime.InitializeGenesis. apply keeps_bind; [apply keeps_state_snapshot|]. intros [e|st]; [|apply keeps_ret].
  destruct e; try apply keeps_ret. intros n Hn. destruct (StateStore.InitializeGenesis _ _ genesis sync) as [[r s] d] eqn:E. cbn [snd].
  assert (Hsame : (s, d) = (store (m_chain n), chain_db (m_chain n))).
  { pose proof (rp_head _ _ _ _ (ck_chain _ _ Hn)) as Hh. apply stored_exists in Hh. unfold StateStore.InitializeGenesis in E.
    destruct (or_else _ _) as [[]|] eqn:Eo; [by injection E as _ <- <-| |by injection E as _ <- <-]. exfalso. unfold or_else in Eo.
    walk_step Eo. destruct a; [done|]. walk_step Eo. destruct a; [done|]. walk_step Eo. destruct a; [done|].
    apply kv_Exists_contents in Hret1. symmetry in Hret1. by apply bool_decide_eq_false in Hret1. }
  injection Hsame as -> ->. destruct Hn. by constructor.
Qed.
Lemma keeps_DisablePoaSigner : kept DisablePoaSigner.
Proof.
  unfold DisablePoaSigner. apply keeps_bind; [|intros _; apply keeps_notify]. intros n Hn. cbn [put snd]. apply keeps_set_finalizer; [constructor| |done].
  intros g. destruct (poa_finalizer (m_chain n)) as [f|] eqn:Ef; [|done]. intros [= <-]. exact (ck_journal _ _ Hn f Ef).
Qed.
Lemma keeps_EnablePoaSigner signer : kept (EnablePoaSigner signer).
Proof.
  unfold EnablePoaSigner. destruct signer as [signer|]; [|apply keeps_ret]. apply keeps_bind.
  - intros n Hn. destruct (poa_finalizer (m_chain n)); [done|]. destruct (open_finalizer _ _ _ _) as [f d] eqn:E.
    apply open_finalizer_wrote in E as [Hw Hf]. destruct f as [f|]; cbn [snd]; (apply keeps_set_finalizer; [done| |done]); [|done].
    intros g [= <-]. by destruct (Hf f eq_refl).
  - intros _. apply keeps_bind; [apply keeps_get|]. intros halted. destruct halted; [apply keeps_ret|]. apply keeps_bind;
      [|intros enabled; apply keeps_bind; [destruct enabled; [apply keeps_notify|apply keeps_ret]|intros _; apply keeps_ret]].
    intros n Hn. destruct (poa_finalizer (m_chain n)) as [f|] eqn:Ef; [|done]. destruct (EnableSigner f _) as [enabled g] eqn:E. cbn [snd].
    apply keeps_set_finalizer; [constructor| |done]. intros g' [= <-]. pose proof (ck_journal _ _ Hn f Ef) as Hj. unfold EnableSigner in E.
    destruct (signer_PublicKey signer); [|by injection E as _ <-]. destruct (negb _); by injection E as _ <-.
Qed.

(** *** Up to the commit *)

Lemma keeps_prepare_candidate head : kept (prepare_candidate torn head).
Proof using Laws Htorn.
  unfold prepare_candidate. apply keeps_bind; [apply keeps_get|]. intros candidate. destruct (bool_decide _); [apply keeps_ret|].
  apply (keeps_bind_with _ (Forall operation_typed)); [apply keeps_get| |].
  { intros n ops Hn [= <-]. pose proof (ck_pool _ _ Hn) as Hp. unfold Snapshot. rewrite Forall_fmap. exact Hp. }
  intros ops Hops. apply keeps_bind; [apply keeps_candidate_root|]. intros [root|];
    [|apply keeps_bind; [(apply keeps_revalidate; apply _)|intros _; apply keeps_ret]]. cbv zeta.
  apply keeps_bind; [apply keeps_pure|]. intros [l|]; [|apply keeps_ret]. destruct (_ <? _); [apply keeps_ret|].
  apply keeps_bind; [|intros _; apply keeps_ret]. intros n []. constructor; cbn; try done.
  intros b [= <-]. split; [apply wrap64_range|exact Hops].
Qed.
(** The certificate names the block that was to be signed. *)
Lemma SignFinality_names f d height tip block r f' d' c : SignFinality f d height tip block = (r, f', d') -> c ∈ issued_by r ->
  exists id, ComputeBlockId block = Ret id /\ head_of c = mkJournalHead (blk_height block) (blk_parent_block_id block) id.
Proof.
  intros E Hc. unfold SignFinality in E. destruct (SerializeBlock block) as [[lb|]|]; [|injection E as <- _ _; by apply elem_of_nil in Hc..].
  destruct (ComputeBlockId block) as [id|]; [|injection E as <- _ _; by apply elem_of_nil in Hc]. exists id. split; [done|].
  walk_step E; [injection E as <- _ _; by apply elem_of_nil in Hc|]. walk_step E; [|injection E as <- _ _; by apply elem_of_nil in Hc].
  walk_step E; [injection E as <- _ _; by apply elem_of_nil in Hc|]. destruct (CheckCanonicalTip _ _ _ _) as [[st1 j1] d1]. cbv zeta in E.
  walk_step E; [injection E as <- _ _; by apply elem_of_nil in Hc|]. destruct (PrepareToSign _ _ _ _ _) as [[st2 j2] d2].
  walk_step E; injection E as <- _ _; [by apply elem_of_nil in Hc|]. by eapply sign_prepared_certificate.
Qed.
Lemma keeps_sign_candidate head : kept (sign_candidate head).
Proof.
  unfold sign_candidate. apply keeps_bind; [apply keeps_get|]. intros finalized. destruct (bool_decide _); [apply keeps_ret|].
  apply (keeps_bind_with _ (fun candidate => forall b, candidate = Some b -> block_typed b)); [apply keeps_get| |].
  { intros n candidate Hn [= <-]. exact (ck_candidate _ _ Hn). }
  intros [b|] Hb; [|apply keeps_pure]. specialize (Hb b eq_refl).
  apply (keeps_bind_with _ (fun signing => forall c, sr_certificate signing = Some c -> cert_height c = blk_height b)); [apply keeps_sign_finality| |].
  { intros n signing _ E c Hc. unfold sign_finality in E. destruct (poa_finalizer (m_chain n)) as [f|]; [|done].
    destruct (SignFinality f _ _ _ b) as [[r f'] d] eqn:Es. cbn [fst] in E. subst r.
    destruct (SignFinality_names _ _ _ _ _ _ _ _ c Es) as (id & _ & Hh); [cbn [issued_by]; rewrite Hc; by left|]. by injection Hh. }
  intros signing Hs. destruct (sr_certificate signing) as [c|];
    [|apply keeps_bind; [destruct (sr_status signing); first [apply keeps_set_production|apply keeps_ret]|intros _; apply keeps_ret]]. specialize (Hs c eq_refl).
  apply keeps_bind; [|intros _; apply keeps_ret]. intros n []. constructor; cbn; try done.
  intros fb [= <-]. split; cbn; [done|]. rewrite Hs. apply Hb.
Qed.
End steps.

(** ** Commits *)

Section moves.
Context (torn : OperationPool -> OperationPool) {Htorn : tears torn}.
#[local] Set Default Proof Using "Type + Laws + Htorn".

(** The action leads to a chain that extends this one as the specification
    allows, with [Q] of the new chain and of the result. *)
Definition evolves {A} (chain : list Hash256) (m : act A) (Q : list Hash256 -> outcome A -> Prop) : Prop := forall n, chain_ok chain n ->
  sha256_collision \/ exists chain', rtc chain_step chain chain' /\ chain_ok chain' (m n).2 /\ Q chain' (m n).1.
Lemma evolves_kept {A} chain (m : act A) (Q : list Hash256 -> outcome A -> Prop) : keeps (chain_ok chain) m ->
  (forall n, chain_ok chain n -> Q chain (m n).1) -> evolves chain m Q.
Proof using. intros Hm Hq n Hn. right. exists chain. split_and!; [constructor|by apply Hm|by apply Hq]. Qed.
Lemma evolves_bind {A B} chain (m : act A) (k : A -> act B) Q : keeps (chain_ok chain) m -> Q chain Throw ->
  (forall a, evolves chain (k a) Q) -> evolves chain (bind m k) Q.
Proof using.
  intros Hm Hq Hk n Hn. unfold bind. specialize (Hm n Hn). destruct (m n) as [[a|] n1]; [by apply Hk|].
  right. exists chain. split_and!; [constructor|done|done].
Qed.
Lemma evolves_bind_with {A B} chain (P : A -> Prop) (m : act A) (k : A -> act B) Q : keeps (chain_ok chain) m -> Q chain Throw ->
  (forall n a, chain_ok chain n -> (m n).1 = Ret a -> P a) -> (forall a, P a -> evolves chain (k a) Q) -> evolves chain (bind m k) Q.
Proof using.
  intros Hm Hq Hp Hk n Hn. unfold bind. pose proof (Hm n Hn) as Hn1. pose proof (Hp n) as Hp1. destruct (m n) as [[a|] n1].
  - apply Hk; [by apply Hp1|done].
  - right. exists chain. split_and!; [constructor|done|done].
Qed.
Lemma evolves_catch {A} chain (m handler : act A) Q : evolves chain m (fun chain' r => match r with Ret a => Q chain' (Ret a) | Throw => True end) ->
  (forall chain', keeps (chain_ok chain') handler /\ forall n, Q chain' (handler n).1) -> evolves chain (catch m handler) Q.
Proof using.
  intros Hm Hh n Hn. unfold catch. destruct (Hm n Hn) as [|(chain' & Hs & Hok & Hq)]; [by left|right]. exists chain'.
  destruct (m n) as [[a|] n1]; cbn [fst snd] in *; [done|]. destruct (Hh chain') as [Hk Hq']. split_and!; [done|by apply Hk|apply Hq'].
Qed.

Definition at_tip (chain : list Hash256) (fb : FinalizedBlock) : Prop :=
  exists id, ComputeBlockId (fin_block fb) = Ret id /\ last chain = Some id.
Lemma store_commit_evolves chain fb sync : block_storable fb ->
  evolves chain (store_commit fb sync) (fun chain' r => forall res, r = Ret res -> bt_error res = BT_NONE -> at_tip chain' fb).
Proof.
  intros Hfb n [K1 K2 K3 K4 K5 K6 K7]. unfold store_commit. destruct (CommitFinalizedBlock _ _ fb sync) as [[r s'] d'] eqn:E.
  cbn [fst snd]. pose proof (proj1 (proj1 (proj1 Hfb)) : is_u64 (blk_height (fin_block fb))) as Hu.
  destruct (commit_represents _ _ _ _ _ _ _ _ _ K1 K2 Hfb K3 E) as [|(chain' & R' & Hstep)]; [by left|right].
  destruct (commit_spec _ _ _ _ _ _ _ K1 K2 Hu E) as (Hobj & Hcoh & Hcase). exists chain'. split_and!.
  - destruct Hstep as [->|(_ & Hs & _)]; [constructor|by apply rtc_once].
  - pose proof Hobj as (Hg & _ & _). constructor; cbn; try done; [by eapply same_object_ok|]. unfold genesis_of. cbn. by rewrite Hg.
  - intros res -> Hres. destruct Hcase as [(Hr & _)|(_ & _ & (id & head & obs & d1 & st & st' & Eid & Eh & Hne & _ & _ & _ & Ce & _))]; [by apply Hr in Hres|].
    destruct Hstep as [->|(_ & _ & id' & Eid' & Hl)]; [|by exists id']. exfalso. apply Hne.
    rewrite (rp_head _ _ _ _ K3) in Eh. injection Eh as <-. cbn. pose proof (rp_head _ _ _ _ R') as Eh'. unfold stored in Eh'.
    rewrite (ce_head _ _ _ _ _ _ Ce) in Eh'. cbn [rec_Decode head_record] in Eh'. rewrite DecodeFinalizedHead_Encode in Eh' by done.
    by injection Eh' as -> _.
Qed.
(** A commit whose success is followed by actions that keep the chain. *)
Lemma commit_then {A} chain fb sync (k : BlockTransitionResult -> act A) (Q : list Hash256 -> outcome A -> Prop) : block_storable fb ->
  (forall chain' res, keeps (chain_ok chain') (k res)) -> (forall chain', Q chain' Throw) ->
  (forall chain' res n, (bt_error res = BT_NONE -> at_tip chain' fb) -> Q chain' (k res n).1) ->
  evolves chain (bind (store_commit fb sync) k) Q.
Proof.
  intros Hfb Hk Ht Hq n Hn. destruct (store_commit_evolves chain fb sync Hfb n Hn) as [|(chain' & Hs & Hok & Htip)]; [by left|right].
  exists chain'. unfold bind. destruct (store_commit fb sync n) as [[res|] n1]; cbn [fst snd] in *; (split_and!; [done| |]); [by apply Hk| |done|by apply Ht].
  apply Hq. by apply Htip.
Qed.

Definition produced_tip (chain : list Hash256) (r : outcome (option FinalizedBlock)) : Prop := forall fb, r = Ret (Some fb) -> at_tip chain fb.
Lemma halt_tip chain n : produced_tip chain (halt_production (A := FinalizedBlock) n).1.
Proof using. done. Qed.
Lemma none_evolves chain (m : act (option FinalizedBlock)) : keeps (chain_ok chain) m -> (forall n fb, (m n).1 <> Ret (Some fb)) ->
  evolves chain m produced_tip.
Proof using. intros Hm Hn. apply evolves_kept; [done|]. intros n _ fb E. by apply Hn in E. Qed.

Lemma commit_candidate_evolves chain sync : evolves chain (commit_candidate torn sync) produced_tip.
Proof.
  unfold commit_candidate. apply (evolves_bind_with _ (fun finalized => forall fb, finalized = Some fb -> finalized_typed fb));
    [apply keeps_get|done| |].
  { intros n finalized Hn [= <-]. exact (ck_finalized _ _ Hn). }
  intros [fb|] Hfb; [|by apply none_evolves; [apply keeps_pure|]]. specialize (Hfb fb eq_refl).
  apply (evolves_bind_with _ (fun l => SerializeFinalizedBlock fb = Ret l)); [apply keeps_pure|done|by intros n l _ E|]. intros l El.
  destruct (match l with Some _ => _ | None => _ end) eqn:Hsize; [by apply none_evolves; [apply keeps_halt|]|].
  destruct l as [l|]; [|done]. apply Z.ltb_ge in Hsize. apply commit_then.
  - split; [done|]. intros l' El'. rewrite El in El'. injection El' as <-. unfold MAX_FINALIZER_SERIALIZED_BLOCK_BYTES in Hsize. unfold MAX_COMPACT_SIZE. lia.
  - intros chain' res. destruct (negb _); [apply keeps_ret|]. apply keeps_bind.
    { intros n []. by constructor. }
    intros _. apply keeps_bind; [apply keeps_emit|]. intros _. apply keeps_bind; [(apply keeps_revalidate; apply _)|]. intros _. apply keeps_ret.
  - done.
  - intros chain' res n Htip fb'. case_bool_decide as Hok; cbn [negb]; [|done]. intros E. unfold bind in E. cbn [put] in E.
    destruct (EmitFinalizedEvents fb _) as [[[]|] n1]; [|done]. destruct (RevalidateCandidates torn n1) as [[[]|] n2]; [|done].
    injection E as <-. by apply Htip.
Qed.
Lemma produce_evolves chain sync : evolves chain (produce torn sync) produced_tip.
Proof.
  unfold produce. apply evolves_bind; [apply keeps_state_snapshot|done|].
  intros [e|st]; [by apply none_evolves; [apply keeps_halt|]|]. apply evolves_bind; [apply keeps_finalized_head|done|].
  intros [head|]; [|by apply none_evolves; [apply keeps_ret|]]. destruct (_ =? _); [by apply none_evolves; [apply keeps_ret|]|].
  apply evolves_bind; [apply keeps_check_tip|done|]. intros tip. destruct (negb _); [by apply none_evolves; [apply keeps_halt|]|].
  apply evolves_bind; [apply keeps_drop_stale|done|]. intros _. apply evolves_bind; [by apply keeps_prepare_candidate|done|].
  intros prepared. destruct prepared; [|by apply none_evolves; [apply keeps_ret|]]. cbn [negb].
  apply evolves_bind; [apply keeps_sign_candidate|done|]. intros signed. destruct signed; [|by apply none_evolves; [apply keeps_ret|]].
  apply commit_candidate_evolves.
Qed.
Lemma ProduceBlock_evolves chain sync : evolves chain (ProduceBlock torn sync) produced_tip.
Proof.
  unfold ProduceBlock. apply evolves_bind; [apply keeps_get|done|]. intros status. destruct (bool_decide _); [by apply none_evolves; [apply keeps_ret|]|].
  apply evolves_bind; [apply keeps_set_production|done|]. intros _. apply evolves_bind; [apply keeps_get|done|]. intros c.
  destruct (negb _).
  { apply none_evolves; [|done]. apply keeps_bind; [apply keeps_set_production|intros _; apply keeps_ret]. }
  destruct (_ || _); [by apply none_evolves; [apply keeps_halt|]|]. apply evolves_catch.
  - intros n Hn. destruct (produce_evolves chain sync n Hn) as [|(chain' & Hs & Hok & Hq)]; [by left|right]. exists chain'. split_and!; [done..|].
    by destruct (produce torn sync n).1.
  - intros chain'. split.
    + apply keeps_bind; [apply keeps_get|]. intros halted. destruct halted; [apply keeps_halt|apply keeps_ret].
    + intros n fb. cbn [bind get]. by destruct (finalizer_halted _).
Qed.
Lemma CommitBlock_evolves chain fb sync : block_storable fb ->
  evolves chain (CommitBlock torn fb sync) (fun chain' r => forall res, r = Ret res -> bt_error res = BT_NONE -> at_tip chain' fb).
Proof.
  intros Hfb. unfold CommitBlock. apply evolves_bind; [apply keeps_state_snapshot|done|].
  intros [e|st]; [destruct e; (apply evolves_kept; [apply keeps_ret|by intros n _ res [= <-]])|].
  apply evolves_bind; [apply keeps_ask|done|]. intros _. apply commit_then; [done| |done|].
  - intros chain' res. destruct (negb _); [apply keeps_ret|]. apply keeps_bind; [apply keeps_emit|]. intros _.
    apply keeps_bind; [(apply keeps_revalidate; apply _)|intros _; apply keeps_ret].
  - intros chain' res n Htip res'. case_bool_decide as Hok; cbn [negb]; [|by intros [= <-]]. intros _ _. by apply Htip.
Qed.

(** ** Runs of the node *)

(** The calls of the facade, with the type of their answers; the ones that
    only read the state of the chain are [C_loaded] and [C_status]. *)
Inductive call : Type -> Type :=
| C_genesis (genesis : CybouState) (sync : bool) : call bool
| C_status : call NodeRuntimeStatus
| C_loaded : call (option CybouState)
| C_submit (fuel : nat) (random_hi random_lo : Z) (op : ProtocolOperation) (network : option (option OperationSubmitResult * bool))
    : call (option OperationSubmitResult)
| C_relayed (l : bytes) (nonce : Z) (retry : bool) (peer : option bytes) : call Relay.OperationRelayEnqueueStatus
| C_claim : call (option Relay.RelayedOperation)
| C_acknowledge (id : Hash256) : call bool
| C_release (id : Hash256) : call unit
| C_settlement (op : StorageSettlement) : call (option StorageSettlement)
| C_enable (signer : option PoaSigner) : call bool
| C_disable : call unit
| C_produce (sync : bool) : call (option FinalizedBlock)
| C_commit (fb : FinalizedBlock) (sync : bool) : call BlockTransitionResult
| C_scan (after through max_blocks : Z) : call (option FinalizedPublicationScan)
| C_operation (id : Hash256) : call FinalizedOperationLookupResult
| C_publication (id : Hash256) : call (option RootPublication)
| C_kem (account : AccountId) (epoch : Z) : call IdentityKemPackageLookupResult
| C_put_chunk (sign : bytes -> option bytes) (space : option (Z * Z)) (id : Hash256) (chunk : ChunkId) (l : bytes)
    (proof : ChunkAuthorizationProof) : call ChunkAdmissionResult
| C_chunk_proof (id : Hash256) (chunk : ChunkId) : call (option ChunkAuthorizationProof)
| C_startup : call unit
| C_retry_purges : call Z.
Definition perform {A} (c : call A) : act A :=
  match c with
  | C_genesis genesis sync => Runtime.InitializeGenesis genesis sync
  | C_status => GetStatus
  | C_loaded => loaded_state
  | C_submit fuel hi lo op network => SubmitOperation torn fuel hi lo op network
  | C_relayed l nonce retry peer => EnqueueRelayedOperation torn l nonce retry peer
  | C_claim => ClaimRelayedOperation
  | C_acknowledge id => AcknowledgeRelayedOperation id
  | C_release id => ReleaseRelayedOperation id
  | C_settlement op => Runtime.SignStorageSettlement op
  | C_enable signer => EnablePoaSigner signer
  | C_disable => DisablePoaSigner
  | C_produce sync => ProduceBlock torn sync
  | C_commit fb sync => CommitBlock torn fb sync
  | C_scan after through max_blocks => ScanFinalizedPublications after through max_blocks
  | C_operation id => FindFinalizedOperation id
  | C_publication id => FindFinalizedRootPublication id
  | C_kem account epoch => FindIdentityKemPackage account epoch
  | C_put_chunk sign space id chunk l proof => PutFinalizedChunk sign space id chunk l proof
  | C_chunk_proof id chunk => GetFinalizedChunkAuthorizationProof id chunk
  | C_startup => purge_at_start
  | C_retry_purges => retry_purges
  end.
(** The arguments have the types of the C++: local operations are in range,
    blocks are what a decoder or a producer gives. *)
Definition well_typed {A} (c : call A) : Prop :=
  match c with
  | C_submit _ _ _ op _ => operation_typed op
  | C_commit fb _ => block_storable fb
  | _ => True
  end.
(** The block whose acceptance an answer reports. *)
Definition accepted {A} (c : call A) : outcome A -> option FinalizedBlock :=
  match c in call A return outcome A -> option FinalizedBlock with
  | C_produce _ => fun r => match r with Ret fb => fb | Throw => None end
  | C_commit fb _ => fun r => match r with Ret res => if bool_decide (bt_error res = BT_NONE) then Some fb else None | Throw => None end
  | _ => fun _ => None
  end.
Lemma call_evolves {A} (c : call A) chain : well_typed c ->
  evolves chain (perform c) (fun chain' r => forall fb, accepted c r = Some fb -> at_tip chain' fb).
Proof.
  intros Hc. destruct c; cbn [perform]; try (apply evolves_kept; [|by intros n _ fb E]).
  - by apply keeps_InitializeGenesis.
  - by apply keeps_GetStatus.
  - by apply keeps_loaded_state.
  - apply keeps_SubmitOperation; [apply _|apply _|done].
  - apply keeps_EnqueueRelayedOperation; apply _.
  - by apply keeps_claim.
  - by apply keeps_acknowledge.
  - apply keeps_release.
  - by apply keeps_SignStorageSettlement.
  - by apply keeps_EnablePoaSigner.
  - by apply keeps_DisablePoaSigner.
  - intros n Hn. destruct (ProduceBlock_evolves chain sync n Hn) as [|(chain' & Hs & Hok & Hq)]; [by left|right]. exists chain'. split_and!; [done..|].
    intros fb. cbn [accepted]. destruct (ProduceBlock torn sync n).1 as [[fb'|]|]; [|done..]. intros [= <-]. by apply Hq.
  - intros n Hn. destruct (CommitBlock_evolves chain fb sync Hc n Hn) as [|(chain' & Hs & Hok & Hq)]; [by left|right]. exists chain'. split_and!; [done..|].
    intros fb'. cbn [accepted]. destruct (CommitBlock torn fb sync n).1 as [res|]; [|done]. case_bool_decide; [|done]. intros [= <-]. by eapply Hq.
  - by apply keeps_ScanFinalizedPublications.
  - by apply keeps_FindFinalizedOperation.
  - by apply keeps_FindFinalizedRootPublication.
  - by apply keeps_FindIdentityKemPackage.
  - by apply keeps_PutFinalizedChunk.
  - by apply keeps_GetFinalizedChunkAuthorizationProof.
  - by apply keeps_purge_at_start.
  - by apply keeps_retry_purges.
Qed.

(** A run: each call acts on the state the one before has left, whether it
    returned or threw. *)
Inductive runs : CybouNodeRuntime -> list FinalizedBlock -> CybouNodeRuntime -> Prop :=
| runs_nil n : runs n [] n
| runs_call {A} (c : call A) n r n1 log n2 : well_typed c -> perform c n = (r, n1) -> runs n1 log n2 ->
    runs n (option_list (accepted c r) ++ log) n2.

(** What a node has after its genesis. *)
Definition fresh_node (n : CybouNodeRuntime) : Prop :=
  exists s d genesis sync, StateStore.InitializeGenesis s d genesis sync = (Ret GI_NONE, store (m_chain n), chain_db (m_chain n)) /\
    store_ok s /\ coherent s (contents d) /\ p_entries (operation_pool (m_chain n)) = [] /\ production_candidate (m_chain n) = None /\
    production_finalized (m_chain n) = None /\ poa_finalizer (m_chain n) = None.
Lemma fresh_node_ok n : fresh_node n -> chain_ok [] n.
Proof using Laws.
  intros (s & d & genesis & sync & E & Hok & Hcoh & Ep & Ec & Ef & Ej).
  pose proof (InitializeGenesis_inv _ _ _ _ _ _ E) as (Es & Hd & _).
  destruct (InitializeGenesis_coherent _ _ _ _ _ _ _ Hok Hcoh E) as [Hok' Hcoh'].
  constructor; [done|done| | |by rewrite Ec|by rewrite Ef|by rewrite Ej].
  - apply genesis_represents in E. unfold genesis_of. rewrite Es at 1. exact E.
  - unfold pool_typed. by rewrite Ep.
Qed.

Lemma runs_evolve n0 log n : runs n0 log n -> forall chain0, chain_ok chain0 n0 -> rtc chain_step [] chain0 ->
  sha256_collision \/ exists chain, rtc chain_step chain0 chain /\ chain_ok chain n /\
    Forall (fun fb => exists before, rtc chain_step [] before /\ at_tip before fb /\ rtc chain_step before chain) log.
Proof.
  intros Hr. induction Hr as [n|A c n r n1 log n2 Hc E _ IH]; intros chain0 Hok Hs; [right; exists chain0; by split_and!|].
  destruct (call_evolves c chain0 Hc n Hok) as [|(chain1 & H1 & Hok1 & Hq)]; [by left|]. rewrite E in Hok1, Hq. cbn [fst snd] in *.
  assert (Hs1 : rtc chain_step [] chain1) by by etrans.
  destruct (IH chain1 Hok1 Hs1) as [|(chain & H2 & Hok2 & Hlog)]; [by left|right]. exists chain. split_and!; [by etrans|done|].
  apply Forall_app. split; [|done]. destruct (accepted c r) as [fb|]; [|constructor]. constructor; [|constructor]. exists chain1.
  split_and!; [done|by apply Hq|done].
Qed.

(** C5: the node implements a chain. On every run of the runtime from its
    genesis, whatever is submitted, relayed, produced, committed, looked up or
    stored, and whatever fails in between, the store always represents one
    chain of blocks that only grows at its end or has its last block replaced
    by a smaller one; every block the node reported as produced or committed
    was the tip of the chain when it did, and the chain has only moved on from
    there (unless SHA-256 collides). *)
Theorem node_refines_chain n0 log n : fresh_node n0 -> runs n0 log n ->
  sha256_collision \/ exists chain, rtc chain_step [] chain /\ chain_ok chain n /\
    Forall (fun fb => exists before, rtc chain_step [] before /\ at_tip before fb /\ rtc chain_step before chain) log.
Proof.
  intros H0%fresh_node_ok Hr. destruct (runs_evolve _ _ _ Hr [] H0) as [|(chain & H1 & H2 & H3)]; [constructor|by left|right]. by exists chain.
Qed.
End moves.
End chain.
End NodeChain.
