(* ===== verification/NodeFinality.v ===== *)
(** * The running node never certifies two blocks at one height

    The finalizer's guarantee ([Journal]), carried to the node that
    uses it: production with its retries, a shared database, commits of other
    blocks, signers that come and go, exceptions, crashes and restarts. *)

From S2P Require Import Prelude.
From S2P Require Import Bytes.
From S2P Require Import Codec.
From S2P Require Import Params.
From S2P Require Import Crypto.
From S2P Require Import Operation.
From S2P Require Import OperationCodec.
From S2P Require Import State.
From S2P Require Import Block.
From S2P Require Import NetworkGenesis.
From S2P Require Import KVStore.
From S2P Require Import Journal.
From S2P Require Import Detector.
From S2P Require Import StateStore.
From S2P Require Import StateStoreProofs.
From S2P Require Import StateCommit.
From S2P Require Import StateChain.
From S2P Require Import DbWrites.
From S2P Require Import Pool.
From S2P Require Import Relay.
From S2P Require Import ChunkBlobs.
From S2P Require Import ChunkService.
From S2P Require Import NodeRuntime.
From S2P Require Import NodeProduction.
From S2P Require Import NodeActions.
From S2P Require Import NodeChain.

Module NodeFinality.
Import Runtime.
Import Production.
Import NodeActions.
Import NodeChain.

(** ** What the store's operations leave of the object *)

Section objects.
Context `{CryptoOps} {L : LevelDB} {Laws : LevelDBLaws L}.
#[local] Set Default Proof Using "Type + Laws".

Definition same_config (s s' : CybouStateStore) : Prop :=
  ss_network_genesis s' = ss_network_genesis s /\ ss_network_binding s' = ss_network_binding s /\
  pd_prefix (ss_detector s') = pd_prefix (ss_detector s).
Lemma GetStateSnapshot_config s d r s' : StateStore.GetStateSnapshot s d = (r, s') -> same_config s s'.
Proof using.
  unfold StateStore.GetStateSnapshot. destruct (ss_state_snapshot s); [by intros [= _ <-]|].
  destruct (LoadStateLocked s d) as [[]|]; by intros [= _ <-].
Qed.
Lemma CommitFinalizedBlock_config s d fb sync r s' d' : detector_tagged (ss_detector s) ->
  CommitFinalizedBlock s d fb sync = (r, s', d') -> same_config s s'.
Proof.
  intros Ht E. unfold CommitFinalizedBlock in E. destruct (StateStore.GetStateSnapshot s d) as [loaded s1] eqn:Eg.
  apply GetStateSnapshot_config in Eg as (G1 & G2 & G3).
  destruct loaded as [[e|st]|]; [by injection E as _ <- _| |by injection E as _ <- _].
  destruct (check_block s1 d fb) as [[res|[id head]]|]; [by injection E as _ <- _| |by injection E as _ <- _].
  destruct (Observe _ d _ _) as [[obs p1] d1] eqn:Eo. apply Observe_same in Eo as [_ Hp]; [|intros x; by rewrite G3].
  assert (Hc : same_config s (set_detector s1 p1)) by (split_and!; cbn; congruence).
  destruct obs as [obs|]; [|by injection E as _ <- _]. unfold write_plan in E.
  destruct (observation_plan _ d1 fb id head st obs) as [[res|[batch st']]|]; [by injection E as _ <- _| |by injection E as _ <- _].
  destruct (kv_WriteBatch d1 batch sync) as [[] d2]; by injection E as _ <- _.
Qed.
Lemma InitializeGenesis_config s d st sync r s' d' : StateStore.InitializeGenesis s d st sync = (r, s', d') -> same_config s s'.
Proof using.
  intros E. unfold StateStore.InitializeGenesis in E. destruct (or_else _ _) as [[]|]; [by injection E as _ <- _| |by injection E as _ <- _].
  walk_step E; [|by injection E as _ <- _]. walk_step E; [by injection E as _ <- _|]. walk_step E; [|by injection E as _ <- _]. cbv zeta in E.
  destruct (kv_WriteBatch d _ sync) as [[] d1]; by injection E as _ <- _.
Qed.
End objects.

(** ** The invariant *)

Section finality.
Context `{CryptoOps} {L : LevelDB} {Laws : LevelDBLaws L} {Bs : BlobStore}.
Context (genesis : VerifiedNetworkGenesis) (net : Hash256).
Context (torn : OperationPool -> OperationPool).
#[local] Set Default Proof Using "Type + Laws".
#[local] Abbreviation anchor := (GetGenesisAnchor genesis).
#[local] Abbreviation key := (GetPoaPublicKey genesis).

(** The certificate is of this very block. *)
Definition names (fb : FinalizedBlock) : Prop := exists id, ComputeBlockId (fin_block fb) = Ret id /\
  head_of (fin_certificate fb) = mkJournalHead (blk_height (fin_block fb)) (blk_parent_block_id (fin_block fb)) id.
Definition issued_for (issued : list PoaFinalityCertificate) (fb : FinalizedBlock) : Prop :=
  fin_certificate fb ∈ issued /\ names fb.
(** [outs] are the blocks the node has given out as produced. *)
Record fin_ok (outs : list FinalizedBlock) (n : CybouNodeRuntime) : Prop := {
  fk_genesis : genesis_of (m_chain n) = genesis;
  fk_net : binding (m_chain n) = net;
  fk_detector : detector_tagged (ss_detector (store (m_chain n)));
  fk_issued : exists issued, node_inv net (mkNode (chain_db (m_chain n)) (poa_finalizer (m_chain n)) issued) /\
    Forall (issued_for issued) outs /\ forall fb, production_finalized (m_chain n) = Some fb -> issued_for issued fb;
}.

Lemma issued_for_more issued more fb : issued_for issued fb -> issued_for (more ++ issued) fb.
Proof using. intros [Hin Hn]. split; [|done]. apply elem_of_app. by right. Qed.
Lemma node_inv_steps n n' : rtc (node_step net anchor key) n n' -> node_inv net n -> node_inv net n'.
Proof. induction 1 as [|n1 n2 n3 Hs _ IH]; [done|]. intros Hn. by eapply IH, node_step_inv. Qed.
Lemma node_inv_wrote tags d d' f issued : JOURNAL_TAG ∉ tags -> wrote tags d d' -> node_inv net (mkNode d f issued) -> node_inv net (mkNode d' f issued).
Proof using H L Laws genesis net. intros Ht Hw. apply node_inv_steps. by eapply wrote_node. Qed.
Lemma store_tags_other : JOURNAL_TAG ∉ STORE_TAGS.
Proof using. other_tag. Qed.

Lemma fin_store outs n s d tags : fin_ok outs n -> same_config (store (m_chain n)) s -> JOURNAL_TAG ∉ tags -> wrote tags (chain_db (m_chain n)) d ->
  fin_ok outs (on_chain (set_store s d) n).
Proof.
  intros [F1 F2 F3 (issued & Hi & Ho & Hf)] (G1 & G2 & G3) Ht Hw. unfold genesis_of, binding in *. constructor; unfold genesis_of, binding; cbn.
  - congruence.
  - congruence.
  - intros x. by rewrite G3.
  - exists issued. split_and!; [by eapply node_inv_wrote|done|done].
Qed.
(** A step of the finalizer that issues nothing. *)
Lemma fin_finalizer outs n d f : fin_ok outs n ->
  (forall issued, rtc (node_step net anchor key) (mkNode (chain_db (m_chain n)) (poa_finalizer (m_chain n)) issued) (mkNode d f issued)) ->
  fin_ok outs (on_chain (set_finalizer f d) n).
Proof.
  intros [F1 F2 F3 (issued & Hi & Ho & Hf)] Hs. constructor; cbn; [done..|]. exists issued. split_and!; [|done|done].
  exact (node_inv_steps _ _ (Hs issued) Hi).
Qed.

#[export] Instance fin_pool outs : PoolKept torn (fin_ok outs).
Proof using.
  constructor.
  - intros op nonce peer _ n []. unfold pool_admit. destruct (Admit _ _ op nonce peer) as [[r p]|]; by constructor.
  - intros n []. unfold pool_revalidate. destruct (Revalidate _ _) as [[r p]|]; by constructor.
Qed.
Lemma fin_check_tip outs head : keeps (fin_ok outs) (check_tip head).
Proof.
  intros n Hn. unfold check_tip. destruct (poa_finalizer (m_chain n)) as [f|] eqn:Ef; [|done].
  destruct (CheckCanonicalTip _ _ _ _) as [[status j] d] eqn:E. cbn [snd]. apply fin_finalizer; [done|]. intros issued. rewrite Ef.
  apply rtc_once. by eapply node_check.
Qed.
#[export] Instance fin_undisturbed outs : Undisturbed (fin_ok outs).
Proof.
  constructor.
  - intros [c p] [c' p'] (E1 & E2 & E3 & E4 & E5 & E6) []. unfold genesis_of, binding in *. cbn in *.
    constructor; unfold genesis_of, binding; cbn; by rewrite ?E1, ?E2, ?E3, ?E4, ?E5, ?E6.
  - intros n r s Hn E. apply (fin_store _ _ _ _ []); [done|by eapply GetStateSnapshot_config|by apply not_elem_of_nil|constructor].
  - intros n d Hn Hw. apply (fin_store _ _ _ _ [EVENTS_TAG]); [done|done|other_tag|done].
  - intros n [F1 F2 F3 (issued & Hi & Ho & Hf)]. constructor; cbn; [done..|]. by exists issued.
  - apply fin_check_tip.
Qed.

(** ** The calls that touch the finalizer or the store *)

Lemma fin_DisablePoaSigner outs : keeps (fin_ok outs) DisablePoaSigner.
Proof.
  unfold DisablePoaSigner. apply keeps_bind; [|intros _; apply keeps_notify]. intros n Hn. cbn [put snd]. apply fin_finalizer; [done|].
  intros issued. destruct (poa_finalizer (m_chain n)) as [f|]; [|constructor]. apply rtc_once. apply node_disable.
Qed.
Lemma fin_EnablePoaSigner outs signer : keeps (fin_ok outs) (EnablePoaSigner signer).
Proof.
  unfold EnablePoaSigner. destruct signer as [signer|]; [|apply keeps_ret]. apply keeps_bind.
  - intros n Hn. destruct (poa_finalizer (m_chain n)) as [f|] eqn:Ef; [done|]. destruct (open_finalizer _ _ _ _) as [f d] eqn:E.
    rewrite (fk_net _ _ Hn), (fk_genesis _ _ Hn) in E.
    assert (Hs : forall issued, rtc (node_step net anchor key) (mkNode (chain_db (m_chain n)) (poa_finalizer (m_chain n)) issued)
      (mkNode d (match f with Ret f => Some f | Throw => None end) issued)).
    { intros issued. rewrite Ef. apply rtc_once. by apply node_open. }
    destruct f as [f|]; cbn [snd]; by apply fin_finalizer.
  - intros _. apply keeps_bind; [apply keeps_get|]. intros halted. destruct halted; [apply keeps_ret|]. apply keeps_bind;
      [|intros enabled; apply keeps_bind; [destruct enabled; [apply keeps_notify|apply keeps_ret]|intros _; apply keeps_ret]].
    intros n Hn. destruct (poa_finalizer (m_chain n)) as [f|] eqn:Ef; [|done]. destruct (EnableSigner f _) as [enabled g] eqn:E. cbn [snd].
    apply fin_finalizer; [done|]. intros issued. rewrite Ef. replace g with (EnableSigner f (Some signer)).2 by by rewrite E. apply rtc_once, node_enable.
Qed.
Lemma fin_InitializeGenesis outs st sync : keeps (fin_ok outs) (Runtime.InitializeGenesis st sync).
Proof.
  unfold Runtime.InitializeGenesis. apply keeps_bind; [apply keeps_state_snapshot|]. intros [e|st']; [|apply keeps_ret].
  destruct e; try apply keeps_ret. intros n Hn. destruct (StateStore.InitializeGenesis _ _ st sync) as [[r s] d] eqn:E. cbn [snd].
  apply (fin_store _ _ _ _ STORE_TAGS); [done|by eapply InitializeGenesis_config|apply store_tags_other|by eapply InitializeGenesis_wrote].
Qed.
Lemma fin_store_commit outs fb sync : keeps (fin_ok outs) (store_commit fb sync).
Proof.
  intros n Hn. unfold store_commit. destruct (CommitFinalizedBlock _ _ fb sync) as [[r s] d] eqn:E. cbn [snd].
  pose proof (fk_detector _ _ Hn) as Ht.
  apply (fin_store _ _ _ _ STORE_TAGS); [done|by eapply CommitFinalizedBlock_config|apply store_tags_other|by eapply CommitFinalizedBlock_wrote].
Qed.
Lemma fin_CommitBlock outs fb sync : keeps (fin_ok outs) (CommitBlock torn fb sync).
Proof.
  unfold CommitBlock. apply keeps_bind; [apply keeps_state_snapshot|]. intros [e|st]; [destruct e; apply keeps_ret|].
  apply keeps_bind; [apply keeps_ask|]. intros _. apply keeps_bind; [apply fin_store_commit|]. intros res. destruct (negb _); [apply keeps_ret|].
  apply keeps_bind; [apply keeps_emit|]. intros _. apply keeps_bind; [apply keeps_revalidate; apply _|intros _; apply keeps_ret].
Qed.

(** ** Production *)

Lemma fin_prepare_candidate outs head : keeps (fin_ok outs) (prepare_candidate torn head).
Proof.
  unfold prepare_candidate. apply keeps_bind; [apply keeps_get|]. intros candidate. destruct (bool_decide _); [apply keeps_ret|].
  apply keeps_bind; [apply keeps_get|]. intros ops. apply keeps_bind; [apply keeps_candidate_root|]. intros [root|];
    [|apply keeps_bind; [apply keeps_revalidate; apply _|intros _; apply keeps_ret]]. cbv zeta.
  apply keeps_bind; [apply keeps_pure|]. intros [l|]; [|apply keeps_ret]. destruct (_ <? _); [apply keeps_ret|].
  apply keeps_bind; [|intros _; apply keeps_ret]. intros n []. by constructor.
Qed.
Lemma fin_sign_candidate outs head : keeps (fin_ok outs) (sign_candidate head).
Proof.
  intros n Hn. unfold sign_candidate, bind. cbn [get]. destruct (bool_decide _); [done|].
  destruct (production_candidate (m_chain n)) as [b|] eqn:Eb; [|done]. unfold sign_finality.
  destruct (poa_finalizer (m_chain n)) as [f|] eqn:Ef; [|done]. destruct (SignFinality f _ _ _ b) as [[r f'] d] eqn:Es.
  destruct Hn as [F1 F2 F3 (issued & Hi & Ho & Hf)]. rewrite Ef in Hi.
  assert (Hi' : node_inv net (mkNode d (Some f') (issued_by r ++ issued))).
  { eapply node_inv_steps; [|exact Hi]. apply rtc_once. by eapply node_sign. }
  assert (Hn1 : fin_ok outs (on_chain (set_finalizer (Some f') d) n)).
  { constructor; cbn; [done..|]. exists (issued_by r ++ issued). split_and!; [done| |].
    - eapply Forall_impl; [exact Ho|]. intros fb. apply issued_for_more.
    - intros fb Hfb. by apply issued_for_more, Hf. }
  destruct r as [signing|]; [|done]. destruct (sr_certificate signing) as [c|] eqn:Ec; cycle 1.
  { destruct (sr_status signing); try done. cbn [put snd fst]. revert Hn1. apply u_same. by repeat split. }
  cbn [put snd fst ret]. assert (Hc : c ∈ issued_by (Ret signing)) by (cbn [issued_by]; rewrite Ec; by left).
  destruct (SignFinality_names _ _ _ _ _ _ _ _ c Es Hc) as (id & Eid & Hh).
  constructor; cbn; [done..|]. exists (issued_by (Ret signing) ++ issued). split_and!; [done| |].
  - eapply Forall_impl; [exact Ho|]. intros fb. apply issued_for_more.
  - intros fb [= <-]. split; [apply elem_of_app; by left|]. by exists id.
Qed.
(** A block that is given out has its certificate among the issued. *)
Definition gives (outs : list FinalizedBlock) (m : act (option FinalizedBlock)) : Prop := forall n, fin_ok outs n ->
  fin_ok (match (m n).1 with Ret (Some fb) => fb :: outs | _ => outs end) (m n).2.
Lemma gives_kept outs m : keeps (fin_ok outs) m -> (forall n fb, (m n).1 <> Ret (Some fb)) -> gives outs m.
Proof using. intros Hk Hn n Hok. specialize (Hk n Hok). revert Hk. destruct (m n) as [[[fb|]|] n1] eqn:E; [|done..]. intros _. exfalso. apply (Hn n fb). by rewrite E. Qed.
Lemma gives_bind {A} outs (m : act A) k : keeps (fin_ok outs) m -> (forall a, gives outs (k a)) -> gives outs (bind m k).
Proof using. intros Hm Hk n Hn. unfold bind. specialize (Hm n Hn). revert Hm. destruct (m n) as [[a|] n1]; [intros Hm; by apply Hk|done]. Qed.
Lemma bind_get {A B} (f : ChainCore -> A) (k : A -> act B) n : bind (get f) k n = k (f (m_chain n)) n.
Proof using. done. Qed.
Lemma fin_commit_candidate outs sync : gives outs (commit_candidate torn sync).
Proof.
  unfold commit_candidate. intros n Hn. rewrite bind_get. destruct (production_finalized (m_chain n)) as [fb|] eqn:Efb; [|done].
  assert (Hn' : fin_ok (fb :: outs) n).
  { destruct Hn as [F1 F2 F3 (issued & Hi & Ho & Hf)]. constructor; [done..|]. exists issued. split_and!; [done| |done].
    constructor; [by apply Hf|done]. }
  assert (Hsub : forall n2, fin_ok (fb :: outs) n2 -> fin_ok outs n2).
  { intros n2 [F1 F2 F3 (issued & Hi & Ho & Hf)]. constructor; [done..|]. exists issued. apply Forall_cons in Ho as [_ Ho]. by split_and!. }
  set (rest := bind (pure (SerializeFinalizedBlock fb)) _).
  assert (Hk : keeps (fin_ok (fb :: outs)) rest).
  { apply keeps_bind; [apply keeps_pure|]. intros l. destruct (match l with Some _ => _ | None => _ end); [apply keeps_halt|].
    apply keeps_bind; [apply fin_store_commit|]. intros res. destruct (negb _); [apply keeps_ret|]. apply keeps_bind.
    { intros n2 [F1 F2 F3 (issued & Hi & Ho & Hf)]. constructor; cbn; [done..|]. by exists issued. }
    intros _. apply keeps_bind; [apply keeps_emit|]. intros _. apply keeps_bind; [apply keeps_revalidate; apply _|intros _; apply keeps_ret]. }
  assert (Hout : forall n2 fb', (rest n2).1 = Ret (Some fb') -> fb' = fb).
  { intros n2 fb' E. unfold rest, bind in E. cbn [pure] in E. destruct (SerializeFinalizedBlock fb) as [l|]; [|done].
    destruct (match l with Some _ => _ | None => _ end); [done|]. destruct (store_commit fb sync n2) as [[res|] n3]; [|done].
    destruct (negb _); [done|]. cbn [put] in E. destruct (EmitFinalizedEvents fb _) as [[[]|] n4]; [|done].
    destruct (RevalidateCandidates torn n4) as [[[]|] n5]; [|done]. by injection E as <-. }
  specialize (Hk n Hn'). specialize (Hout n). revert Hk Hout. destruct (rest n) as [[[fb'|]|] n1]; cbn [fst snd]; intros Hk Hout; [|by apply Hsub..].
  by rewrite (Hout fb' eq_refl).
Qed.
Lemma fin_ProduceBlock outs sync : gives outs (ProduceBlock torn sync).
Proof.
  assert (Hnone : forall outs, gives outs (ret None)) by (intros o; apply gives_kept; [apply keeps_ret|done]).
  assert (Hhalt : forall outs, gives outs halt_production) by (intros o; apply gives_kept; [apply keeps_halt|done]).
  unfold ProduceBlock. apply gives_bind; [apply keeps_get|]. intros status. destruct (bool_decide _); [done|].
  apply gives_bind; [apply keeps_set_production|]. intros _. apply gives_bind; [apply keeps_get|]. intros c.
  destruct (negb _); [apply gives_bind; [apply keeps_set_production|done]|]. destruct (_ || _); [done|].
  assert (Hp : gives outs (produce torn sync)).
  { unfold produce. apply gives_bind; [apply keeps_state_snapshot|]. intros [e|st]; [done|]. apply gives_bind; [apply keeps_finalized_head|].
    intros [head|]; [|done]. destruct (_ =? _); [done|]. apply gives_bind; [apply fin_check_tip|]. intros tip. destruct (negb _); [done|].
    apply gives_bind; [apply keeps_drop_stale|]. intros _. apply gives_bind; [apply fin_prepare_candidate|]. intros [|]; [|done]. cbn [negb].
    apply gives_bind; [apply fin_sign_candidate|]. intros [|]; [|done]. apply fin_commit_candidate. }
  intros n Hn. unfold catch. specialize (Hp n Hn). revert Hp. destruct (produce torn sync n) as [[r|] n1]; [done|]. cbn [fst snd]. intros Hp.
  unfold bind. cbn [get]. destruct (finalizer_halted _); [by apply Hhalt|by apply Hnone].
Qed.

(** ** The node over its lifetime *)

(** A node is a running process over an open database, or the database it
    has left behind. *)
Inductive World : Type :=
| Running (n : CybouNodeRuntime)
| Stopped (d : db).
Definition produced {A} (c : call A) : outcome A -> list FinalizedBlock :=
  match c in call A return outcome A -> list FinalizedBlock with
  | C_produce _ => fun r => match r with Ret (Some fb) => [fb] | _ => [] end
  | _ => fun _ => []
  end.
(** The blocks of a step are those the node gives out in it. *)
Inductive world_step : World -> list FinalizedBlock -> World -> Prop :=
| world_call {A} (c : call A) n : well_typed c -> world_step (Running n) (produced c (perform torn c n).1) (Running (perform torn c n).2)
| world_exit n d' : reopened (chain_db (m_chain n)) d' -> world_step (Running n) [] (Stopped d')
| world_start d work_bits c d' provider : open_chain d genesis work_bits = (Ret c, d') ->
    world_step (Stopped d) [] (Running (mkRuntime c provider))
| world_no_start d work_bits d' : open_chain d genesis work_bits = (Throw, d') -> world_step (Stopped d) [] (Stopped d').
Inductive life : World -> list FinalizedBlock -> World -> Prop :=
| life_nil w : life w [] w
| life_step w1 outs w2 more w3 : world_step w1 outs w2 -> life w2 more w3 -> life w1 (outs ++ more) w3.

Definition world_ok (outs : list FinalizedBlock) (w : World) : Prop :=
  match w with
  | Running n => fin_ok outs n
  | Stopped d => exists issued, node_inv net (mkNode d None issued) /\ Forall (issued_for issued) outs
  end.

Lemma call_fin_ok {A} (c : call A) outs n : well_typed c -> fin_ok outs n ->
  fin_ok (produced c (perform torn c n).1 ++ outs) (perform torn c n).2.
Proof.
  intros Hc. revert n. destruct c; cbn [perform produced app]; try change (keeps (fin_ok outs) (perform torn C_status)).
  - apply fin_InitializeGenesis.
  - apply keeps_GetStatus.
  - apply keeps_loaded_state.
  - by apply keeps_SubmitOperation; [apply _..|].
  - apply keeps_EnqueueRelayedOperation; apply _.
  - apply keeps_claim.
  - apply keeps_acknowledge.
  - apply keeps_release.
  - apply keeps_SignStorageSettlement.
  - apply fin_EnablePoaSigner.
  - apply fin_DisablePoaSigner.
  - intros n Hn. apply (fin_ProduceBlock outs sync) in Hn. by destruct (ProduceBlock torn sync n) as [[[fb|]|] n1].
  - apply fin_CommitBlock.
  - apply keeps_ScanFinalizedPublications.
  - apply keeps_FindFinalizedOperation.
  - apply keeps_FindFinalizedRootPublication.
  - apply keeps_FindIdentityKemPackage.
  - apply keeps_PutFinalizedChunk.
  - apply keeps_GetFinalizedChunkAuthorizationProof.
  - apply keeps_purge_at_start.
  - apply keeps_retry_purges.
Qed.
Lemma open_chain_wrote d bits r d' : open_chain d genesis bits = (r, d') -> wrote [DETECTOR_TAG] d d'.
Proof.
  unfold open_chain. destruct (open_store d genesis) as [s d1] eqn:E. intros [= _ <-]. by eapply open_store_wrote.
Qed.
Lemma open_chain_members d bits c d' : ComputeNetworkBinding (GetNetworkPublicKey genesis) = Ret net ->
  open_chain d genesis bits = (Ret c, d') -> genesis_of c = genesis /\ binding c = net /\ chain_db c = d' /\
    detector_tagged (ss_detector (store c)) /\ poa_finalizer c = None /\ production_finalized c = None.
Proof.
  intros Hnet. unfold open_chain. destruct (open_store d genesis) as [s d1] eqn:E. intros [= Ec <-].
  destruct s as [s|]; [|done]. cbn [outcome_bind] in Ec. injection Ec as <-.
  cbn. unfold open_store in E. rewrite Hnet in E. destruct (open_detector d net _) as [[p|] d2] eqn:Ed; [|done]. injection E as <- _.
  split_and!; [done..| |done|done]. apply open_detector_prefix in Ed as [id Hpre]. intros x. cbn. by rewrite Hpre.
Qed.
Lemma world_step_ok w outs given w' : ComputeNetworkBinding (GetNetworkPublicKey genesis) = Ret net ->
  world_step w given w' -> world_ok outs w -> world_ok (given ++ outs) w'.
Proof.
  intros Hnet Hs Hok. destruct Hs as [A c n Hc|n d' Hr|d bits c d' provider E|d bits d' E]; cbn [world_ok app] in *.
  - by apply call_fin_ok.
  - destruct Hok as [_ _ _ (issued & Hi & Ho & _)]. exists issued. split; [|done]. revert Hi. by apply (node_step_inv net anchor key), node_crash.
  - destruct Hok as (issued & Hi & Ho). pose proof (open_chain_wrote _ _ _ _ E) as Hw.
    destruct (open_chain_members _ _ _ _ Hnet E) as (E1 & E2 & E3 & E4 & E5 & E6).
    constructor; cbn; [done..|]. exists issued. rewrite E3, E5, E6. split_and!; [|done|done]. by eapply node_inv_wrote; [|exact Hw|]; [other_tag|].
  - destruct Hok as (issued & Hi & Ho). apply open_chain_wrote in E. exists issued. split; [|done].
    by eapply node_inv_wrote; [|exact E|]; [other_tag|].
Qed.
Lemma life_ok w outs given w' : ComputeNetworkBinding (GetNetworkPublicKey genesis) = Ret net ->
  life w given w' -> world_ok outs w -> exists all, world_ok all w' /\ forall fb, fb ∈ given \/ fb ∈ outs -> fb ∈ all.
Proof.
  intros Hnet Hl. revert outs. induction Hl as [w|w1 o w2 more w3 Hs _ IH]; intros outs Hok.
  - exists outs. split; [done|]. intros fb [Hin|Hin]; [by apply elem_of_nil in Hin|done].
  - destruct (IH (o ++ outs)) as (all & Hall & Hin); [by eapply world_step_ok|]. exists all. split; [done|].
    intros fb. rewrite elem_of_app. intros Hfb. apply Hin. rewrite elem_of_app. tauto.
Qed.
End finality.

(** A database whose last opening has settled what it holds. *)
Definition settled `{LevelDB} (d : db) : Prop := forall m, durable d m -> m = contents d.

Section life.
Context `{CryptoOps} {L : LevelDB} {Laws : LevelDBLaws L} {Bs : BlobStore}.
#[local] Set Default Proof Using "Type + Laws".

(** C4: a node never certifies two blocks at one height. Over its whole life
    (any calls of its runtime, production retried after failed commits,
    blocks of others committed in between, signers enabled and disabled,
    failing and uncertain writes, exceptions, crashes and restarts on the same
    database) the blocks it gives out as produced for one height are one
    block: they have the same block id and the same parent. *)
Theorem runtime_never_equivocates genesis torn d0 given w fb1 fb2 : settled d0 ->
  life genesis torn (Stopped d0) given w -> fb1 ∈ given -> fb2 ∈ given ->
  blk_height (fin_block fb1) = blk_height (fin_block fb2) ->
  ComputeBlockId (fin_block fb1) = ComputeBlockId (fin_block fb2) /\
  blk_parent_block_id (fin_block fb1) = blk_parent_block_id (fin_block fb2).
Proof.
  intros Hd Hl H1 H2 Hh. destruct (ComputeNetworkBinding (GetNetworkPublicKey genesis)) as [net|] eqn:Hnet.
  - destruct (life_ok genesis net torn _ [] given w Hnet Hl) as (all & Hall & Hin).
    { exists []. split; [|constructor]. by apply initial_inv. }
    assert (Hi : exists issued f d, node_inv net (mkNode d f issued) /\ Forall (issued_for issued) all).
    { destruct w as [n|d]; [destruct Hall as [_ _ _ (issued & Hi & Ho & _)]|destruct Hall as (issued & Hi & Ho)]; eauto. }
    destruct Hi as (issued & f & d & Hi & Ho). rewrite Forall_forall in Ho.
    destruct (Ho fb1) as [Hc1 (id1 & E1 & N1)]; [by apply Hin; left|]. destruct (Ho fb2) as [Hc2 (id2 & E2 & N2)]; [by apply Hin; left|].
    pose proof (f_equal jh_height N1) as G1. pose proof (f_equal jh_height N2) as G2. cbn in G1, G2.
    pose proof (ni_once _ _ Hi _ _ Hc1 Hc2) as E. rewrite N1, N2 in E. rewrite E1, E2. 
    specialize (E ltac:(congruence)). by injection E as _ -> ->.
  - assert (Hn : forall w0 g w1, life genesis torn w0 g w1 -> (exists d, w0 = Stopped d) -> g = []).
    { clear -Hnet. induction 1 as [w|w1 o w2 more w3 Hs _ IH]; [done|]. intros [d ->]. inversion Hs as [|n d'|d2 bits c d' pr E|d2 bits d' E]; subst; [|by apply IH; eexists].
      exfalso. unfold open_chain, open_store in E. rewrite Hnet in E. by cbn in E. }
    rewrite (Hn _ _ _ Hl) in H1 by by eexists. by apply elem_of_nil in H1.
Qed.
End life.
End NodeFinality.
