(* ===== verification/Wire.v ===== *)
(** * The messages of the peer-to-peer layer

    [src/src/cybou/p2p/session.h] and the encoders of
    [src/src/cybou/p2p/session.cpp]: frames, the greeting, lists of peers and
    the message that a storage provider signs. *)

From S2P Require Import Prelude.
From S2P Require Import Bytes.
From S2P Require Import Codec.
From S2P Require Import Crypto.

Module Wire.

(** ** Frames *)

Inductive MessageType : Type :=
  HELLO | PING | PONG | GET_BLOCKS | BLOCK_META | BLOCK_DATA | BLOCKS_END | BLOCK_ANNOUNCE | BLOCK_RESULT
| OP_POLL | OP_META | OP_DATA | OP_RESULT | GET_PEERS | PEERS | PUT_AUTHORIZED_CHUNK | AUTHORIZED_CHUNK_DATA
| CHUNK_ADMISSION_RESULT | GET_CHUNK_BY_ID | CHUNK_DATA | GET_CHUNK_AUTHORIZATION_PROOF | CHUNK_AUTHORIZATION_PROOF
| STORAGE_PROOF | STORAGE_PROOF_REQUEST | STORAGE_AUDIT_CHALLENGE | STORAGE_AUDIT_RESPONSE
| STORAGE_USAGE_REQUEST | STORAGE_USAGE.
#[export] Instance MessageType_eq_dec : EqDecision MessageType.
Proof. solve_decision. Defined.
Definition all_types : list MessageType :=
  [HELLO; PING; PONG; GET_BLOCKS; BLOCK_META; BLOCK_DATA; BLOCKS_END; BLOCK_ANNOUNCE; BLOCK_RESULT;
   OP_POLL; OP_META; OP_DATA; OP_RESULT; GET_PEERS; PEERS; PUT_AUTHORIZED_CHUNK; AUTHORIZED_CHUNK_DATA;
   CHUNK_ADMISSION_RESULT; GET_CHUNK_BY_ID; CHUNK_DATA; GET_CHUNK_AUTHORIZATION_PROOF; CHUNK_AUTHORIZATION_PROOF;
   STORAGE_PROOF; STORAGE_PROOF_REQUEST; STORAGE_AUDIT_CHALLENGE; STORAGE_AUDIT_RESPONSE;
   STORAGE_USAGE_REQUEST; STORAGE_USAGE].
(** The values of the enumerators. *)
Definition type_code (t : MessageType) : Z :=
  match t with
  | HELLO => 1 | PING => 2 | PONG => 3 | GET_BLOCKS => 4 | BLOCK_META => 5 | BLOCK_DATA => 6 | BLOCKS_END => 7
  | BLOCK_ANNOUNCE => 8 | BLOCK_RESULT => 9 | OP_POLL => 10 | OP_META => 11 | OP_DATA => 12 | OP_RESULT => 13
  | GET_PEERS => 14 | PEERS => 15 | PUT_AUTHORIZED_CHUNK => 16 | AUTHORIZED_CHUNK_DATA => 17
  | CHUNK_ADMISSION_RESULT => 18 | GET_CHUNK_BY_ID => 19 | CHUNK_DATA => 20 | GET_CHUNK_AUTHORIZATION_PROOF => 21
  | CHUNK_AUTHORIZATION_PROOF => 22 | STORAGE_PROOF => 23 | STORAGE_PROOF_REQUEST => 24
  | STORAGE_AUDIT_CHALLENGE => 25 | STORAGE_AUDIT_RESPONSE => 26 | STORAGE_USAGE_REQUEST => 27 | STORAGE_USAGE => 28
  end.
(** [IsSupportedMessageType] and the cast: the supported type with a code. *)
Definition message_type (code : Z) : option MessageType := List.find (fun t => type_code t =? code) all_types.

Record Frame : Type := mkFrame { fr_type : MessageType; fr_payload : bytes }.
#[export] Instance Frame_eq_dec : EqDecision Frame.
Proof. solve_decision. Defined.

Definition MAX_FRAME_PAYLOAD : Z := 64 * 1024.
Definition HEADER_SIZE : Z := 9.
Definition AllowedFrameSize (size : Z) : bool := size <=? MAX_FRAME_PAYLOAD.
Definition magic : bytes := str "CYBP".
(** The nine bytes before a payload of a size. *)
Definition frame_header (t : MessageType) (size : Z) : bytes := magic ++ [bz (type_code t)] ++ le_bytes 4 size.
Definition EncodeFrame (frame : Frame) : option bytes :=
  return_if negb (AllowedFrameSize (zlen (fr_payload frame))) with None ;;
  Some (frame_header (fr_type frame) (zlen (fr_payload frame)) ++ fr_payload frame).
(** What both readers of a header check: the type and the size it announces. *)
Definition header_type (header : bytes) : option MessageType :=
  return_if negb (bool_decide (subspan header 0 4 = magic)) with None ;;
  message_type (le_val (subspan header 4 1)).
Definition header_size (header : bytes) : Z := le_val (subspan header 5 4).
Definition DecodeFrame (l : bytes) : option Frame :=
  return_if zlen l <? HEADER_SIZE with None ;;
  let? t := header_type l else None ;;
  let size := header_size l in
  return_if negb (AllowedFrameSize size) || negb (zlen l =? HEADER_SIZE + size) with None ;;
  Some (mkFrame t (subspan l HEADER_SIZE (zlen l - HEADER_SIZE))).

(** ** The greeting *)

Record Hello : Type := mkHello {
  h_network_binding : Hash256;
  h_finalized_height : Z;
  h_finalized_tip : Hash256;
  h_nonce : Z;
  h_listen_port : Z;
}.
#[export] Instance Hello_eq_dec : EqDecision Hello.
Proof. solve_decision. Defined.
Definition HELLO_SIZE : Z := 82.
Definition EncodeHello (hello : Hello) : bytes :=
  arr_val (h_network_binding hello) ++ le_bytes 8 (h_finalized_height hello) ++ arr_val (h_finalized_tip hello)
  ++ le_bytes 8 (h_nonce hello) ++ le_bytes 2 (h_listen_port hello).
Definition DecodeHello (l : bytes) : option Hello :=
  return_if negb (zlen l =? HELLO_SIZE) with None ;;
  let hello := mkHello (arr_of 32 (subspan l 0 32)) (le_val (subspan l 32 8)) (arr_of 32 (subspan l 40 32))
    (le_val (subspan l 72 8)) (le_val (subspan l 80 2)) in
  return_if IsNull (h_network_binding hello) || IsNull (h_finalized_tip hello) || (h_nonce hello =? 0) with None ;;
  Some hello.
Definition hello_typed (hello : Hello) : Prop :=
  is_u64 (h_finalized_height hello) /\ is_u64 (h_nonce hello) /\ is_u16 (h_listen_port hello).

Definition StorageProofMessage (signer verifier : Hello) (tls_exporter : bytes) : bytes :=
  return_if negb (zlen tls_exporter =? 32) with [] ;;
  str "CYBOU/STORAGE-PROOF" ++ tls_exporter ++ EncodeHello signer ++ EncodeHello verifier.

(** ** Peers *)

(** The numeric addresses of Boost.Asio: texts are read and written by it. *)
Class Addresses : Type := {
  address : Type;
  make_address : bytes -> option address;
  address_text : address -> bytes;
  as_v4 : address -> option (arr 4);
  v6_bytes : address -> arr 16;
  from_v4 : arr 4 -> address;
  from_v6 : arr 16 -> address;
  is_v4_mapped : address -> bool;
  is_loopback : address -> bool;
  is_multicast : address -> bool;
  is_unspecified : address -> bool;
}.
(** What it documents of them: the text of an address is read as that
    address, and an address made of bytes has those bytes. *)
Class AddressLaws (A : Addresses) : Prop := {
  text_v4 b : make_address (address_text (from_v4 b)) = Some (from_v4 b);
  text_v6 b : make_address (address_text (from_v6 b)) = Some (from_v6 b);
  v4_v4 b : as_v4 (from_v4 b) = Some b;
  v6_v4 b : as_v4 (from_v6 b) = None;
  v6_v6 b : v6_bytes (from_v6 b) = b;
}.

Abbreviation Endpoint := (bytes * Z)%type.
Definition MAX_PEER_DISCOVERY_ENTRIES : Z := 32.

Section peers.
Context `{Addresses}.

Definition encode_address (a : address) (port : Z) : bytes :=
  match as_v4 a with
  | Some v4 => [bz 4] ++ arr_val v4 ++ le_bytes 2 port
  | None => [bz 6] ++ arr_val (v6_bytes a) ++ le_bytes 2 port
  end.
(** The loop: what is written and how many of [room] entries are. *)
Fixpoint encode_peers (room : nat) (peers : list Endpoint) : bytes * Z :=
  match room, peers with
  | S room', (host, port) :: rest =>
      return_if port =? 0 with encode_peers room rest ;;
      let? a := make_address host else encode_peers room rest ;;
      let (l, added) := encode_peers room' rest in (encode_address a port ++ l, 1 + added)
  | _, _ => ([], 0)
  end.
Definition EncodePeersPayload (peers : list Endpoint) : bytes :=
  let count := Z.min (zlen peers) MAX_PEER_DISCOVERY_ENTRIES in
  let (l, added) := encode_peers (Z.to_nat count) peers in [bz added] ++ l.
(** One entry and what follows it; entries without a port are skipped. *)
Definition decode_peer (l : bytes) : option (list Endpoint * bytes) :=
  match l with
  | [] => None
  | family :: l =>
      if zb family =? 4 then
        return_if zlen l <? 6 with None ;;
        let port := le_val (subspan l 4 2) in
        Some (if port =? 0 then [] else [(address_text (from_v4 (arr_of 4 (subspan l 0 4))), port)], drop 6 l)
      else if zb family =? 6 then
        return_if zlen l <? 18 with None ;;
        let port := le_val (subspan l 16 2) in
        Some (if port =? 0 then [] else [(address_text (from_v6 (arr_of 16 (subspan l 0 16))), port)], drop 18 l)
      else None
  end.
Fixpoint decode_peers (count : nat) (l : bytes) : option (list Endpoint) :=
  match count with
  | O => if bool_decide (l = []) then Some [] else None
  | S count =>
      let? (entry, l) := decode_peer l else None ;;
      let? rest := decode_peers count l else None ;;
      Some (entry ++ rest)
  end.
Definition DecodePeersPayload (l : bytes) : option (list Endpoint) :=
  match l with
  | [] => None
  | count :: l =>
      return_if MAX_PEER_DISCOVERY_ENTRIES <? zb count with None ;;
      decode_peers (Z.to_nat (zb count)) l
  end.
End peers.

(** ** Frames *)

Lemma message_type_code t : message_type (type_code t) = Some t.
Proof. by destruct t. Qed.
Lemma message_type_inv code t : message_type code = Some t -> type_code t = code.
Proof. intros E. apply List.find_some in E as [_ E]. by apply Z.eqb_eq. Qed.
Lemma type_code_range t : 1 <= type_code t <= 28.
Proof. destruct t; cbn; lia. Qed.
Lemma type_code_u8 t : is_u8 (type_code t).
Proof. pose proof (type_code_range t). ulia. Qed.
Lemma le_bytes_field n l off k : k = Z.of_nat n -> 0 <= off -> off + k <= zlen l ->
  le_bytes n (le_val (subspan l off k)) = subspan l off k.
Proof. intros ->. apply le_bytes_subspan. Qed.
Lemma le_bytes_1 v : le_bytes 1 v = [bz v].
Proof. done. Qed.
Lemma frame_header_size t size : zlen (frame_header t size) = HEADER_SIZE.
Proof. unfold frame_header. rewrite !zlen_app, zlen_le_bytes. reflexivity. Qed.
Lemma header_of t size y : 0 <= size <= MAX_FRAME_PAYLOAD ->
  header_type (frame_header t size ++ y) = Some t /\ header_size (frame_header t size ++ y) = size.
Proof.
  intros Hs. assert (Hm : zlen magic = 4) by reflexivity. unfold header_type, header_size, frame_header. rewrite <- le_bytes_1, <- !app_assoc.
  split.
  - rewrite (subspan_at magic) by done. rewrite bool_decide_true by done. cbn [negb].
    rewrite (subspan_skip magic), Hm by lia. rewrite (subspan_at (le_bytes 1 _)) by (rewrite ?zlen_le_bytes; done).
    rewrite le_val_u8 by apply type_code_u8. apply message_type_code.
  - rewrite (subspan_skip magic), Hm by lia. rewrite (subspan_skip (le_bytes 1 _)) by (rewrite zlen_le_bytes; lia).
    rewrite (subspan_at (le_bytes 4 _)) by (rewrite ?zlen_le_bytes; done).
    apply le_val_u32. unfold MAX_FRAME_PAYLOAD in Hs. ulia.
Qed.
(** A header that is accepted is the header of its type and size. *)
Lemma header_type_inv l t : HEADER_SIZE <= zlen l -> header_type l = Some t ->
  subspan l 0 HEADER_SIZE = frame_header t (header_size l).
Proof.
  unfold HEADER_SIZE. intros Hl E. unfold header_type in E. destruct (bool_decide _) eqn:Em; [|done]. guards.
  apply message_type_inv in E. unfold frame_header, header_size. rewrite <- Em, E, <- le_bytes_1.
  rewrite !le_bytes_field by (cbn; lia). by glue.
Qed.
Lemma header_size_range l : HEADER_SIZE <= zlen l -> is_u32 (header_size l).
Proof.
  unfold HEADER_SIZE. intros Hl. unfold header_size. pose proof (le_val_range (subspan l 5 4)) as H.
  rewrite zlen_subspan in H by lia. ulia.
Qed.

(** A frame that is encoded is decoded again, and bytes that are
    decoded are the one encoding of their frame. *)
Theorem Frame_canonical l frame : DecodeFrame l = Some frame <-> EncodeFrame frame = Some l.
Proof.
  unfold DecodeFrame, EncodeFrame, AllowedFrameSize. destruct frame as [t payload]. cbn [fr_type fr_payload]. split; intros E.
  - destruct (zlen l <? HEADER_SIZE) eqn:Hl; [done|]. apply Z.ltb_ge in Hl. walk_step E. walk_step E. some_inj E.
    apply orb_false_iff in Hif as [Hs%negb_false_iff%Z.leb_le Hz%negb_false_iff%Z.eqb_eq]. injection E as -> <-.
    pose proof (header_size_range l Hl). rewrite zlen_subspan by (unfold HEADER_SIZE in *; ulia).
    rewrite Hz. replace (HEADER_SIZE + header_size l - HEADER_SIZE) with (header_size l) by lia.
    rewrite (proj2 (Z.leb_le _ _)) by done. cbn [negb]. f_equal. rewrite <- (header_type_inv l t Hl Hopt).
    rewrite subspan_glue by (unfold HEADER_SIZE in *; ulia). apply subspan_whole; lia.
  - destruct (zlen payload <=? MAX_FRAME_PAYLOAD) eqn:Hp; [|done]. apply Z.leb_le in Hp. cbn [negb] in E. some_inj E.
    pose proof (zlen_nonneg payload). destruct (header_of t (zlen payload) payload) as [H1 H2]; [lia|].
    assert (Hz : zlen (frame_header t (zlen payload) ++ payload) = HEADER_SIZE + zlen payload) by (by rewrite zlen_app, frame_header_size).
    rewrite Hz, H1, H2. rewrite (proj2 (Z.ltb_ge _ _)) by lia. rewrite (proj2 (Z.leb_le _ _)) by done. rewrite Z.eqb_refl. cbn [negb orb].
    do 2 f_equal. rewrite subspan_skip by (rewrite frame_header_size; lia). apply subspan_whole; [rewrite frame_header_size; lia|lia].
Qed.

(** ** The greeting *)

Lemma zlen_EncodeHello h : zlen (EncodeHello h) = HELLO_SIZE.
Proof. unfold EncodeHello, HELLO_SIZE. len. Qed.
Lemma Decode_EncodeHello h : hello_typed h -> IsNull (h_network_binding h) = false -> IsNull (h_finalized_tip h) = false ->
  h_nonce h <> 0 -> DecodeHello (EncodeHello h) = Some h.
Proof.
  intros (H1 & H2 & H3) N1 N2 N3. unfold DecodeHello. rewrite zlen_EncodeHello, Z.eqb_refl. cbn [negb]. unfold EncodeHello. cut.
  rewrite !arr_of_arr, !le_val_u64, le_val_u16 by done. destruct h as [net height tip nonce port]; cbn in *.
  by rewrite N1, N2, (proj2 (Z.eqb_neq _ _)).
Qed.
Lemma Encode_DecodeHello l h : DecodeHello l = Some h -> EncodeHello h = l /\ hello_typed h.
Proof.
  unfold DecodeHello, HELLO_SIZE. intros E. walk E. some_inj E. guards. split.
  - unfold EncodeHello. cbn [h_network_binding h_finalized_height h_finalized_tip h_nonce h_listen_port].
    rewrite !(arr_of_subspan 32), !le_bytes_field by (cbn; lia). glue. apply subspan_whole; lia.
  - assert (Hr : forall off n, 0 <= off -> 0 <= n -> off + n <= zlen l -> 0 <= le_val (subspan l off n) < 2 ^ (8 * n)).
    { intros off n Hr1 Hr2 Hr3. pose proof (le_val_range (subspan l off n)) as Hr. by rewrite zlen_subspan in Hr by lia. }
    split_and!; cbn [h_finalized_height h_nonce h_listen_port].
    + pose proof (Hr 32 8). ulia.
    + pose proof (Hr 72 8). ulia.
    + pose proof (Hr 80 2). ulia.
Qed.

(** ** Peers *)

Section peers_codec.
Context {A : Addresses} {Laws : AddressLaws A}.
#[local] Set Default Proof Using "Type + Laws".

(** What a receiver reads of an entry: its address as the decoder writes it. *)
Definition canonical (a : address) : address :=
  match as_v4 a with Some v4 => from_v4 v4 | None => from_v6 (v6_bytes a) end.
Definition listed (peer : Endpoint) : option Endpoint :=
  return_if peer.2 =? 0 with None ;;
  let? a := make_address peer.1 else None ;; Some (address_text (canonical a), peer.2).

Lemma decode_peer_encode a port y : is_u16 port -> port <> 0 ->
  decode_peer (encode_address a port ++ y) = Some ([(address_text (canonical a), port)], y).
Proof.
  intros Hp Hne. unfold encode_address, canonical.
  destruct (as_v4 a) as [v4|]; cbn [app decode_peer]; rewrite zb_bz; constants; rewrite <- !app_assoc.
  - rewrite (proj2 (Z.ltb_ge _ _)) by (pose proof (zlen_nonneg y); len).
    assert (E1 : subspan (arr_val v4 ++ le_bytes 2 port ++ y) 0 4 = arr_val v4) by (by cut).
    assert (E2 : subspan (arr_val v4 ++ le_bytes 2 port ++ y) 4 2 = le_bytes 2 port) by (by cut).
    rewrite E1, E2, arr_of_arr, le_val_u16, (proj2 (Z.eqb_neq _ _)) by done. do 2 f_equal.
    rewrite app_assoc. apply drop_app_length'. apply Nat2Z.inj. change (Z.of_nat (length ?l)) with (zlen l). len.
  - rewrite (proj2 (Z.ltb_ge _ _)) by (pose proof (zlen_nonneg y); len).
    assert (E1 : subspan (arr_val (v6_bytes a) ++ le_bytes 2 port ++ y) 0 16 = arr_val (v6_bytes a)) by (by cut).
    assert (E2 : subspan (arr_val (v6_bytes a) ++ le_bytes 2 port ++ y) 16 2 = le_bytes 2 port) by (by cut).
    rewrite E1, E2, arr_of_arr, le_val_u16, (proj2 (Z.eqb_neq _ _)) by done. do 2 f_equal.
    rewrite app_assoc. apply drop_app_length'. apply Nat2Z.inj. change (Z.of_nat (length ?l)) with (zlen l). len.
Qed.
Lemma encode_peers_ok peers : forall room, Forall (fun p => is_u16 p.2) peers -> exists l,
  encode_peers room peers = (l, zlen (take room (omap listed peers))) /\
  decode_peers (length (take room (omap listed peers))) l = Some (take room (omap listed peers)).
Proof.
  induction peers as [|[host port] rest IH]; intros room Hp; [by destruct room; eexists|].
  apply Forall_cons in Hp as [Hp Hrest]. cbn [snd] in Hp. destruct room as [|room]; [by eexists|]. cbn [encode_peers omap list_omap].
  destruct (port =? 0) eqn:Ez.
  { assert (El : listed (host, port) = None) by (unfold listed; cbn [snd]; by rewrite Ez). rewrite El. by apply IH. }
  destruct (make_address host) as [a|] eqn:Ea.
  2: { assert (El : listed (host, port) = None) by (unfold listed; cbn [fst snd]; by rewrite Ez, Ea). rewrite El. by apply IH. }
  assert (El : listed (host, port) = Some (address_text (canonical a), port)) by (unfold listed; cbn [fst snd]; by rewrite Ez, Ea).
  rewrite El. apply Z.eqb_neq in Ez. destruct (IH room Hrest) as (l & E & Ed). rewrite E. eexists. split.
  - cbn [take]. by rewrite zlen_cons.
  - cbn [take length decode_peers]. rewrite decode_peer_encode by done. by rewrite Ed.
Qed.
(** A list of peers is read as its usable entries, in order, up to the
    limit; what cannot be dialled is left out by the sender. *)
Theorem Peers_roundtrip peers : Forall (fun p => is_u16 p.2) peers ->
  DecodePeersPayload (EncodePeersPayload peers) = Some (take (Z.to_nat MAX_PEER_DISCOVERY_ENTRIES) (omap listed peers)).
Proof.
  intros Hp. unfold EncodePeersPayload. set (count := Z.min _ _).
  destruct (encode_peers_ok peers (Z.to_nat count) Hp) as (l & E & Ed). rewrite E. cbn [app DecodePeersPayload].
  assert (Hle : (length (omap listed peers) <= length peers)%nat).
  { clear. induction peers as [|p rest IH]; cbn; [lia|]. destruct (listed p); cbn; lia. }
  assert (Ht : take (Z.to_nat count) (omap listed peers) = take (Z.to_nat MAX_PEER_DISCOVERY_ENTRIES) (omap listed peers)).
  { unfold count. destruct (Z.le_ge_cases (zlen peers) MAX_PEER_DISCOVERY_ENTRIES) as [H|H].
    - rewrite Z.min_l by done. unfold zlen in *. rewrite !take_ge by lia. done.
    - by rewrite Z.min_r by done. }
  assert (Hz : zlen (take (Z.to_nat count) (omap listed peers)) <= 32).
  { unfold zlen. rewrite length_take. unfold count, MAX_PEER_DISCOVERY_ENTRIES. pose proof (zlen_nonneg peers). lia. }
  pose proof (zlen_nonneg (take (Z.to_nat count) (omap listed peers))).
  rewrite zb_bz. unfold wrap8. rewrite Z.mod_small by lia. unfold MAX_PEER_DISCOVERY_ENTRIES in *.
  rewrite (proj2 (Z.ltb_ge _ _)) by lia. unfold zlen at 1. rewrite Nat2Z.id, Ed. by rewrite Ht.
Qed.
End peers_codec.
End Wire.
