(* ===== verification/Ingress.v ===== *)
(** * The ingress budget

    [src/src/cybou/p2p/ingress_budget.h]: what an address may ask of a node
    in a minute and in a second, and how many chunk transfers run at once.
    Times are nanoseconds of the steady clock; a lock makes each call
    atomic. *)

From S2P Require Import Prelude.
From S2P Require Import Bytes.

Module Ingress.

(** ** Concurrent transfers *)

(** [Transfers]; a lease is the address it was given for. *)
Record Transfers : Type := mkTransfers { active : gmap bytes Z; total : Z }.
Definition AcquireStorageTransfer (t : Transfers) (address : bytes) : bool * Transfers :=
  return_if 8 <=? total t with (false, t) ;;
  let count := default 0 (active t !! address) in
  return_if 2 <=? count with (false, mkTransfers (<[address := count]> (active t)) (total t)) ;;
  (true, mkTransfers (<[address := count ⊕ 1]> (active t)) (total t ⊕ 1)).
(** The destructor of a lease that was acquired; [None] where the C++ would
    go through the end of the map. *)
Definition release_transfer (t : Transfers) (address : bytes) : option Transfers :=
  let? count := active t !! address else None ;;
  let count := count ⊖ 1 in
  Some (mkTransfers (if count =? 0 then delete address (active t) else <[address := count]> (active t)) (total t ⊖ 1)).

(** ** Windows *)

Inductive Work : Type := CONNECTION | OPERATION | STORAGE_PUT | STORAGE_GET | STORAGE_PROOF.
#[export] Instance Work_eq_dec : EqDecision Work.
Proof. solve_decision. Defined.
(** The indices of the arrays. *)
Record PerKind : Type := mkPerKind { of_put : Z; of_get : Z; of_proof : Z }.
Definition kind (work : Work) (k : PerKind) : Z :=
  match work with STORAGE_PUT => of_put k | STORAGE_GET => of_get k | _ => of_proof k end.
Definition count_kind (work : Work) (k : PerKind) : PerKind :=
  match work with
  | STORAGE_PUT => mkPerKind (of_put k ⊕ 1) (of_get k) (of_proof k)
  | STORAGE_GET => mkPerKind (of_put k) (of_get k ⊕ 1) (of_proof k)
  | _ => mkPerKind (of_put k) (of_get k) (of_proof k ⊕ 1)
  end.
Record Window : Type := mkWindow {
  start : Z;
  second : Z;
  operations : Z;
  operations_second : Z;
  connections : Z;
  connections_second : Z;
  bytes_second : Z;
  storage : PerKind;
  storage_second : PerKind;
  storage_bytes : Z;
  storage_bytes_second : Z;
}.
Definition SECOND : Z := 1000000000.
Definition MINUTE : Z := 60 * SECOND.
Definition MAX_WINDOWS : Z := 4096.
Definition new_window (now : Z) : Window :=
  mkWindow now 0 0 0 0 0 0 (mkPerKind 0 0 0) (mkPerKind 0 0 0) 0 0.
(** The counters of a second that has passed. *)
Definition tick (w : Window) (now : Z) : Window :=
  let s := (now - start w) ÷ SECOND in
  if s =? second w then w
  else mkWindow (start w) s (operations w) 0 (connections w) 0 0 (storage w) (mkPerKind 0 0 0) (storage_bytes w) 0.
Definition spend (w : Window) (work : Work) (size : Z) : option Window :=
  match work with
  | CONNECTION =>
      return_if (4 <=? connections_second w) || (60 <=? connections w) with None ;;
      Some (mkWindow (start w) (second w) (operations w) (operations_second w) (connections w ⊕ 1) (connections_second w ⊕ 1)
        (bytes_second w) (storage w) (storage_second w) (storage_bytes w) (storage_bytes_second w))
  | OPERATION =>
      return_if (8 <=? operations_second w) || (120 <=? operations w) || (Z.shiftl 1 20 ⊖ bytes_second w <? size) with None ;;
      Some (mkWindow (start w) (second w) (operations w ⊕ 1) (operations_second w ⊕ 1) (connections w) (connections_second w)
        (bytes_second w ⊕ size) (storage w) (storage_second w) (storage_bytes w) (storage_bytes_second w))
  | _ =>
      let proof := bool_decide (work = STORAGE_PROOF) in
      return_if ((if proof then 8 else 64) <=? kind work (storage_second w))
        || ((if proof then 120 else 2048) <=? kind work (storage w))
        || (Z.shiftl 32 20 ⊖ storage_bytes_second w <? size) || (Z.shiftl 512 20 ⊖ storage_bytes w <? size) with None ;;
      Some (mkWindow (start w) (second w) (operations w) (operations_second w) (connections w) (connections_second w)
        (bytes_second w) (count_kind work (storage w)) (count_kind work (storage_second w))
        (storage_bytes w ⊕ size) (storage_bytes_second w ⊕ size))
  end.

(** ** Admission *)

Record IngressBudget : Type := mkBudget { m_transfers : Transfers; m_last_cleanup : Z; m_peers : gmap bytes Window }.
Definition new_budget : IngressBudget := mkBudget (mkTransfers ∅ 0) 0 ∅.
Definition expired (now : Z) (w : Window) : bool := MINUTE <=? now - start w.
Definition cleanup (b : IngressBudget) (now : Z) : IngressBudget :=
  if (SECOND <=? now - m_last_cleanup b) || (MAX_WINDOWS <=? Z.of_nat (size (m_peers b)))
  then mkBudget (m_transfers b) now (filter (fun kv => expired now kv.2 = false) (m_peers b))
  else b.
Definition set_window (b : IngressBudget) (address : bytes) (w : Window) : IngressBudget :=
  mkBudget (m_transfers b) (m_last_cleanup b) (<[address := w]> (m_peers b)).
(** The window of the address, a new one where there is none that lasts. *)
Definition window_of (b : IngressBudget) (address : bytes) (now : Z) : option Window :=
  match m_peers b !! address with
  | None => if MAX_WINDOWS <=? Z.of_nat (size (m_peers b)) then None else Some (new_window now)
  | Some w => Some (if expired now w then new_window now else w)
  end.
Definition Admit (b : IngressBudget) (address : bytes) (work : Work) (size : Z) (now : Z) : bool * IngressBudget :=
  let b := cleanup b now in
  let? w := window_of b address now else (false, b) ;;
  let w := tick w now in
  match spend w work size with
  | Some w => (true, set_window b address w)
  | None => (false, set_window b address w)
  end.
End Ingress.

(** * What the ingress budget guarantees

    Transfers in progress stay within their two limits and every lease gives
    back what it took; and whatever an address does and whenever it does it,
    no minute sees more of its work than two windows allow. *)

Module IngressBounds.
Import Ingress.

(** ** Transfers *)

(** How many leases of a list an address holds. *)
Fixpoint holds_of (a : bytes) (held : list bytes) : Z :=
  match held with [] => 0 | x :: rest => (if bool_decide (x = a) then 1 else 0) + holds_of a rest end.
Inductive transfer_step : Transfers * list bytes -> Transfers * list bytes -> Prop :=
| transfer_taken t held a t' : AcquireStorageTransfer t a = (true, t') -> transfer_step (t, held) (t', a :: held)
| transfer_refused t held a t' : AcquireStorageTransfer t a = (false, t') -> transfer_step (t, held) (t', held)
| transfer_over t before a after t' : release_transfer t a = Some t' -> transfer_step (t, before ++ a :: after) (t', before ++ after).
Record transfers_ok (x : Transfers * list bytes) : Prop := {
  to_total : total x.1 = zlen x.2;
  to_active a : active x.1 !! a = if holds_of a x.2 =? 0 then None else Some (holds_of a x.2);
  to_each a : holds_of a x.2 <= 2;
  to_all : zlen x.2 <= 8;
}.

Lemma holds_of_nonneg a held : 0 <= holds_of a held.
Proof. induction held as [|x held IH]; cbn [holds_of]; [lia|]. case_bool_decide; lia. Qed.
Lemma holds_of_app a l k : holds_of a (l ++ k) = holds_of a l + holds_of a k.
Proof. induction l as [|x l IH]; cbn [holds_of app]; [lia|]. lia. Qed.
Lemma holds_of_le a held : holds_of a held <= zlen held.
Proof. induction held as [|x held IH]; cbn [holds_of]; [done|]. rewrite zlen_cons. case_bool_decide; lia. Qed.
Lemma holds_of_pos a held : a ∈ held -> 0 < holds_of a held.
Proof.
  intros Hin. apply list_elem_of_split in Hin as (l1 & l2 & ->). rewrite holds_of_app. cbn [holds_of]. rewrite bool_decide_true by done.
  pose proof (holds_of_nonneg a l1). pose proof (holds_of_nonneg a l2). lia.
Qed.
Lemma taken_count t held a : transfers_ok (t, held) -> default 0 (active t !! a) = holds_of a held.
Proof.
  intros Hok. pose proof (to_active _ Hok a) as Ha. cbn [fst snd] in Ha. rewrite Ha.
  destruct (_ =? 0) eqn:E; [|done]. apply Z.eqb_eq in E. by rewrite E.
Qed.
Lemma transfer_step_ok x y : transfer_step x y -> transfers_ok x -> transfers_ok y.
Proof.
  intros Hs Hok. pose proof (to_total _ Hok) as Ht. pose proof (to_all _ Hok) as H8.
  destruct Hs as [t held a t' E|t held a t' E|t before a after t' E]; cbn [fst snd] in *; pose proof (zlen_nonneg (A := bytes)) as Hz.
  - unfold AcquireStorageTransfer in E. rewrite (taken_count t held a Hok) in E. walk_step E. cbv zeta in E. walk_step E. guards. injection E as <-.
    pose proof (holds_of_nonneg a held). specialize (Hz held).
    rewrite !add64_small by ulia. constructor; cbn [fst snd active total].
    + rewrite zlen_cons. lia.
    + intros x. cbn [holds_of]. destruct (decide (x = a)) as [->|Hx].
      * rewrite lookup_insert_eq, bool_decide_true by done. rewrite (proj2 (Z.eqb_neq _ _)) by lia. f_equal. lia.
      * rewrite lookup_insert_ne, bool_decide_false by done. rewrite Z.add_0_l. apply (to_active _ Hok).
    + intros x. cbn [holds_of]. case_bool_decide; subst; [lia|]. rewrite Z.add_0_l. apply (to_each _ Hok).
    + rewrite zlen_cons. lia.
  - unfold AcquireStorageTransfer in E. rewrite (taken_count t held a Hok) in E. walk_step E; [by injection E as <-|]. cbv zeta in E.
    walk_step E. guards. injection E as <-. constructor; cbn [fst snd active total]; [done| |apply (to_each _ Hok)|done].
    intros x. destruct (decide (x = a)) as [->|Hx]; [|rewrite lookup_insert_ne by done; apply (to_active _ Hok)].
    rewrite lookup_insert_eq. by rewrite (proj2 (Z.eqb_neq _ _)) by lia.
  - unfold release_transfer in E. pose proof (to_active _ Hok a) as Ha. cbn [fst snd] in Ha. pose proof (to_each _ Hok a) as H2.
    pose proof (holds_of_pos a (before ++ a :: after)) as Hp. specialize (Hp ltac:(apply elem_of_app; right; by left)).
    rewrite (proj2 (Z.eqb_neq _ _)) in Ha by lia. rewrite Ha in E. cbv zeta in E. cbn [snd] in H2. rewrite sub64_small in E by ulia.
    some_inj E. assert (Hlen : zlen (before ++ a :: after) = 1 + zlen (before ++ after)) by (rewrite !zlen_app, zlen_cons; lia).
    assert (Hsplit : forall x, holds_of x (before ++ a :: after) = (if bool_decide (a = x) then 1 else 0) + holds_of x (before ++ after)).
    { intros x. rewrite !holds_of_app. cbn [holds_of]. lia. }
    specialize (Hz (before ++ after)). rewrite Hsplit, bool_decide_true by done.
    rewrite sub64_small by ulia. constructor; cbn [fst snd active total].
    + lia.
    + intros x. destruct (decide (x = a)) as [->|Hx].
      * replace (1 + holds_of a (before ++ after) - 1) with (holds_of a (before ++ after)) by lia.
        destruct (_ =? 0); [apply lookup_delete_eq|apply lookup_insert_eq].
      * assert (Hother : active t !! x = if holds_of x (before ++ after) =? 0 then None else Some (holds_of x (before ++ after))).
        { pose proof (to_active _ Hok x) as Hx'. cbn [fst snd] in Hx'. by rewrite Hsplit, bool_decide_false in Hx' by congruence. }
        rewrite <- Hother. destruct (1 + _ - 1 =? 0); [by apply lookup_delete_ne; congruence|by apply lookup_insert_ne; congruence].
    + intros x. pose proof (to_each _ Hok x) as Hx. cbn [snd] in Hx. rewrite Hsplit in Hx. case_bool_decide; lia.
    + lia.
Qed.

(** Transfers in progress: from an idle node on, over any
    interleaving of transfers that start, are refused and end, an address never
    has more than two in progress and the node never more than eight, the
    counters are exactly the leases that are held, and a lease can always be
    given back. *)
Theorem transfers_bounded t held : rtc transfer_step (mkTransfers ∅ 0, []) (t, held) ->
  total t = zlen held /\ zlen held <= 8 /\ (forall a, default 0 (active t !! a) = holds_of a held /\ holds_of a held <= 2) /\
  forall a, a ∈ held -> is_Some (release_transfer t a).
Proof.
  intros Hs. assert (Hok : transfers_ok (t, held)).
  { assert (H0 : transfers_ok (mkTransfers ∅ 0, [])) by by constructor.
    revert H0. generalize (mkTransfers ∅ 0, [] : list bytes), (t, held) as y, Hs. clear. intros x y Hs. induction Hs as [|x y z Hs _ IH]; [done|].
    intros Hx. by eapply IH, transfer_step_ok. }
  split_and!; [apply (to_total _ Hok)|apply (to_all _ Hok)| |].
  - intros a. split; [by apply taken_count|apply (to_each _ Hok)].
  - intros a Hin. unfold release_transfer. pose proof (to_active _ Hok a) as Ha. cbn [fst snd] in Ha. rewrite Ha. pose proof (holds_of_pos a held Hin).
    rewrite (proj2 (Z.eqb_neq _ _)) by lia. by eexists.
Qed.

(** ** Rates *)

(** An admission that was granted. *)
Record Granted : Type := mkGranted { g_address : bytes; g_work : Work; g_size : Z; g_time : Z }.
(** The calls come in the order of their clock readings. *)
Inductive ingress_run : IngressBudget -> Z -> list Granted -> Prop :=
| ingress_new t : ingress_run new_budget t []
| ingress_call b t log a work size now r b' : ingress_run b t log -> t <= now -> is_u64 size ->
    Admit b a work size now = (r, b') -> ingress_run b' now (if r : bool then mkGranted a work size now :: log else log).
(** What an address was granted in an interval. *)
Definition spent (value : Work -> Z -> Z) (a : bytes) (from duration : Z) (log : list Granted) : Z :=
  foldr (fun g n => (if bool_decide (g_address g = a) && (from <=? g_time g) && (g_time g <? from + duration)
                     then value (g_work g) (g_size g) else 0) + n) 0 log.

(** A counter of the windows and what it counts. *)
Record meter : Type := mkMeter { m_read : Window -> Z; m_value : Work -> Z -> Z; m_cap : Z }.
Class MeterLaws (m : meter) : Prop := {
  ml_cap : 0 <= m_cap m;
  ml_value work size : is_u64 size -> 0 <= m_value m work size;
  ml_new now : m_read m (new_window now) = 0;
  ml_tick w now : m_read m (tick w now) = m_read m w;
  ml_spend w work size w' : spend w work size = Some w' -> is_u64 size -> 0 <= m_read m w <= m_cap m ->
    m_read m w' = m_read m w + m_value m work size /\ m_read m w' <= m_cap m;
}.

Lemma tick_start w now : start (tick w now) = start w.
Proof. unfold tick. by destruct (_ =? _). Qed.
Lemma spend_start w work size w' : spend w work size = Some w' -> start w' = start w.
Proof. intros E. unfold spend in E. destruct work; cbv zeta in E; walk_step E; by some_inj E. Qed.
Lemma cleanup_lookup b now a : m_peers (cleanup b now) !! a = m_peers b !! a \/
  m_peers (cleanup b now) !! a = None /\ exists w, m_peers b !! a = Some w /\ expired now w = true.
Proof.
  unfold cleanup. destruct (_ || _); [|by left]. cbn [m_peers]. rewrite map_lookup_filter.
  destruct (m_peers b !! a) as [w|]; [|by left]. cbn. destruct (expired now w) eqn:E; cbn.
  - right. split; [|by exists w]. by rewrite option_guard_False.
  - left. by rewrite option_guard_True.
Qed.
Lemma cleanup_size b now : (size (m_peers (cleanup b now)) <= size (m_peers b))%nat.
Proof. unfold cleanup. destruct (_ || _); [|done]. cbn [m_peers]. apply map_subseteq_size, map_filter_subseteq. Qed.

Section meters.
Context (m : meter) {Laws : MeterLaws m}.
#[local] Set Default Proof Using "Type + Laws".

(** An admission with the start of its window. *)
Abbreviation noted := (Granted * Z)%type.
Definition used (a : bytes) (s : Z) (log : list noted) : Z :=
  foldr (fun e n => (if bool_decide (g_address e.1 = a) && (e.2 =? s) then m_value m (g_work e.1) (g_size e.1) else 0) + n) 0 log.
Record rates_ok (b : IngressBudget) (t : Z) (log : list noted) : Prop := {
  ro_window a w : m_peers b !! a = Some w -> start w <= t /\ used a (start w) log = m_read m w /\ 0 <= m_read m w <= m_cap m /\
    forall e, e ∈ log -> g_address e.1 = a -> e.2 = start w \/ e.2 + MINUTE <= start w;
  ro_gone a : m_peers b !! a = None -> forall e, e ∈ log -> g_address e.1 = a -> e.2 + MINUTE <= t;
  ro_event e : e ∈ log -> e.2 <= g_time e.1 < e.2 + MINUTE /\ g_time e.1 <= t /\ is_u64 (g_size e.1);
  ro_apart e1 e2 : e1 ∈ log -> e2 ∈ log -> g_address e1.1 = g_address e2.1 ->
    e1.2 = e2.2 \/ e1.2 + MINUTE <= e2.2 \/ e2.2 + MINUTE <= e1.2;
  ro_cap a s : used a s log <= m_cap m;
  ro_size : Z.of_nat (size (m_peers b)) <= MAX_WINDOWS;
}.

Lemma used_none a s log : (forall e, e ∈ log -> g_address e.1 = a -> e.2 <> s) -> used a s log = 0.
Proof using.
  induction log as [|e log IH]; intros Hn; [done|]. cbn [used foldr]. fold (used a s log). rewrite IH by (intros x Hx; apply Hn; by right).
  case_bool_decide as Ha; [|done]. rewrite (proj2 (Z.eqb_neq _ _)); [done|]. apply Hn; [by left|done].
Qed.
(** The window in which the work is counted. *)
Lemma counted_window b t log a now w : rates_ok b t log -> t <= now -> window_of (cleanup b now) a now = Some w ->
  t <= now /\ start w <= now < start w + MINUTE /\ used a (start w) log = m_read m w /\ 0 <= m_read m w <= m_cap m /\
  (forall e, e ∈ log -> g_address e.1 = a -> e.2 = start w \/ e.2 + MINUTE <= start w) /\
  (m_peers (cleanup b now) !! a = None -> Z.of_nat (size (m_peers (cleanup b now))) < MAX_WINDOWS).
Proof.
  intros Hok Ht E. unfold window_of in E. pose proof ml_cap as Hcap.
  assert (Hnew : (forall e, e ∈ log -> g_address e.1 = a -> e.2 + MINUTE <= now) ->
    start (new_window now) <= now < start (new_window now) + MINUTE /\ used a (start (new_window now)) log = m_read m (new_window now) /\
    0 <= m_read m (new_window now) <= m_cap m /\
    forall e, e ∈ log -> g_address e.1 = a -> e.2 = start (new_window now) \/ e.2 + MINUTE <= start (new_window now)).
  { intros Hold. cbn [start new_window]. rewrite ml_new. split_and!; [lia|unfold MINUTE, SECOND; lia| |lia..|].
    - apply used_none. intros e He Ha. specialize (Hold e He Ha). unfold MINUTE, SECOND in *. lia.
    - intros e He Ha. right. by apply Hold. }
  destruct (cleanup_lookup b now a) as [Hl|(Hl & w0 & Hw0 & Hexp)].
  - rewrite Hl in E. destruct (m_peers b !! a) as [w0|] eqn:Hw0.
    + some_inj E. destruct (ro_window _ _ _ Hok _ _ Hw0) as (W1 & W2 & W3 & W4). unfold expired.
      destruct (MINUTE <=? now - start w0) eqn:Ee; guards.
      * destruct Hnew as (N1 & N2 & N3 & N4); [|split_and!; [done|apply N1|apply N1|done|apply N3|apply N3|done|congruence]].
        intros e He Ha. destruct (W4 e He Ha) as [->|]; lia.
      * split_and!; [done|lia|lia|done|apply W3|apply W3|done|congruence].
    + walk_step E. some_inj E. guards.
      destruct Hnew as (N1 & N2 & N3 & N4); [|split_and!; [done|apply N1|apply N1|done|apply N3|apply N3|done|lia]].
      intros e He Ha. pose proof (ro_gone _ _ _ Hok a Hw0 e He Ha). lia.
  - rewrite Hl in E. walk_step E. some_inj E. guards. destruct (ro_window _ _ _ Hok _ _ Hw0) as (W1 & W2 & W3 & W4).
    unfold expired in Hexp. apply Z.leb_le in Hexp.
    destruct Hnew as (N1 & N2 & N3 & N4); [|split_and!; [done|apply N1|apply N1|done|apply N3|apply N3|done|lia]].
    intros e He Ha. destruct (W4 e He Ha) as [->|]; lia.
Qed.
(** The other addresses after a cleanup. *)
Lemma cleanup_others b t log now x : rates_ok b t log -> t <= now ->
  match m_peers (cleanup b now) !! x with
  | Some w => start w <= now /\ used x (start w) log = m_read m w /\ 0 <= m_read m w <= m_cap m /\
      forall e, e ∈ log -> g_address e.1 = x -> e.2 = start w \/ e.2 + MINUTE <= start w
  | None => forall e, e ∈ log -> g_address e.1 = x -> e.2 + MINUTE <= now
  end.
Proof using.
  intros Hok Ht. destruct (cleanup_lookup b now x) as [Hl|(Hl & w0 & Hw0 & Hexp)]; rewrite Hl.
  - destruct (m_peers b !! x) as [w|] eqn:Hw.
    + destruct (ro_window _ _ _ Hok _ _ Hw) as (W1 & W2 & W3 & W4). split_and!; [lia|done|apply W3|apply W3|done].
    + intros e He Ha. pose proof (ro_gone _ _ _ Hok x Hw e He Ha). lia.
  - destruct (ro_window _ _ _ Hok _ _ Hw0) as (W1 & W2 & W3 & W4). unfold expired in Hexp. apply Z.leb_le in Hexp.
    intros e He Ha. destruct (W4 e He Ha) as [->|]; lia.
Qed.
Lemma used_app a s l k : used a s (l ++ k) = used a s l + used a s k.
Proof using. induction l as [|e l IH]; [done|]. cbn [used foldr app]. fold (used a s (l ++ k)) (used a s l). lia. Qed.
(** The window of the address after the call, with what the call adds to the
    log. *)
Lemma counted_ok b t log a now w w' extra : rates_ok b t log -> t <= now -> window_of (cleanup b now) a now = Some w ->
  start w' = start w -> m_read m w' = m_read m w + used a (start w) extra -> m_read m w' <= m_cap m -> 0 <= used a (start w) extra ->
  (forall e, e ∈ extra -> g_address e.1 = a /\ e.2 = start w /\ g_time e.1 = now /\ is_u64 (g_size e.1)) ->
  rates_ok (set_window (cleanup b now) a w') now (extra ++ log).
Proof.
  intros Hok Ht Hw Hs Hr Hc Hx He. destruct (counted_window _ _ _ _ _ _ Hok Ht Hw) as (_ & W1 & W2 & W3 & W4 & W5).
  assert (Hnone : forall x s, x <> a -> used x s (extra ++ log) = used x s log).
  { intros x s Hne. rewrite used_app, used_none; [done|]. intros e Hin Ha. destruct (He e Hin) as [Ha' _]. congruence. }
  constructor.
  - intros x v E. cbn [set_window m_peers] in E. destruct (decide (x = a)) as [->|Hne].
    + rewrite lookup_insert_eq in E. some_inj E. rewrite Hs, used_app. split_and!; [lia..|].
      intros e [Hin|Hin]%elem_of_app Ha; [left; apply (He e Hin)|by apply W4].
    + rewrite lookup_insert_ne in E by congruence. pose proof (cleanup_others _ _ _ _ x Hok Ht) as Ho. rewrite E in Ho.
      destruct Ho as (O1 & O2 & O3 & O4). rewrite Hnone by done. split_and!; [done|done|apply O3|apply O3|].
      intros e [Hin|Hin]%elem_of_app Ha; [|by apply O4]. destruct (He e Hin) as [Ha' _]. congruence.
  - intros x E e Hin Ha. cbn [set_window m_peers] in E. destruct (decide (x = a)) as [->|Hne]; [by rewrite lookup_insert_eq in E|].
    rewrite lookup_insert_ne in E by congruence. pose proof (cleanup_others _ _ _ _ x Hok Ht) as Ho. rewrite E in Ho.
    apply elem_of_app in Hin as [Hin|Hin]; [|by apply Ho]. destruct (He e Hin) as [Ha' _]. congruence.
  - intros e [Hin|Hin]%elem_of_app.
    + destruct (He e Hin) as (_ & H2 & H3 & H4). rewrite H2, H3. split_and!; try lia; apply H4.
    + destruct (ro_event _ _ _ Hok e Hin) as (H1 & H2 & H3). split_and!; try lia; apply H3.
  - assert (Hold : forall e e', e ∈ extra -> e' ∈ log -> g_address e.1 = g_address e'.1 -> e.2 = e'.2 \/ e'.2 + MINUTE <= e.2).
    { intros e e' Hin Hin' Ha. destruct (He e Hin) as (H1 & H2 & _). rewrite H2. destruct (W4 e' Hin') as [?|?]; [congruence|left; congruence|by right]. }
    intros e1 e2 [H1|H1]%elem_of_app [H2|H2]%elem_of_app Ha.
    + left. destruct (He e1 H1) as (_ & E1 & _), (He e2 H2) as (_ & E2 & _). congruence.
    + destruct (Hold _ _ H1 H2 Ha); tauto.
    + destruct (Hold _ _ H2 H1 (eq_sym Ha)) as [->|]; tauto.
    + by apply (ro_apart _ _ _ Hok).
  - intros x s. destruct (decide (x = a)) as [->|Hne]; [|rewrite Hnone by done; apply (ro_cap _ _ _ Hok)].
    rewrite used_app. destruct (decide (s = start w)) as [->|Hse]; [lia|].
    rewrite (used_none a s extra); [apply (ro_cap _ _ _ Hok)|]. intros e Hin _. destruct (He e Hin) as (_ & E & _). congruence.
  - cbn [set_window m_peers]. pose proof (ro_size _ _ _ Hok) as Hz. pose proof (cleanup_size b now) as Hcs.
    destruct (m_peers (cleanup b now) !! a) eqn:E.
    + rewrite map_size_insert_Some by eauto. lia.
    + rewrite map_size_insert_None by done. specialize (W5 eq_refl). lia.
Qed.
(** A call keeps the account. *)
Lemma Admit_ok b t log a work size now r b' : rates_ok b t log -> t <= now -> is_u64 size -> Admit b a work size now = (r, b') ->
  exists extra, rates_ok b' now (extra ++ log) /\ fst <$> extra = if r then [mkGranted a work size now] else [].
Proof.
  intros Hok Ht Hsize E. unfold Admit in E. cbv zeta in E. destruct (window_of (cleanup b now) a now) as [w|] eqn:Hw.
  - destruct (counted_window _ _ _ _ _ _ Hok Ht Hw) as (_ & _ & _ & W3 & _).
    destruct (spend (tick w now) work size) as [w'|] eqn:Hsp; injection E as <- <-.
    + destruct (ml_spend _ _ _ _ Hsp Hsize) as [S1 S2]; [by rewrite ml_tick|]. rewrite ml_tick in S1.
      exists [(mkGranted a work size now, start w)]. split; [|done]. pose proof (ml_value work size Hsize) as Hv.
      assert (Hu : used a (start w) [(mkGranted a work size now, start w)] = m_value m work size).
      { cbn. rewrite bool_decide_true by done. rewrite Z.eqb_refl. cbn. lia. }
      eapply counted_ok; [done..| | | | |]; [|by rewrite Hu|done|by rewrite Hu|].
      * by rewrite (spend_start _ _ _ _ Hsp), tick_start.
      * intros e ->%list_elem_of_singleton. cbn. split_and!; done || apply Hsize.
    + exists []. split; [|done]. eapply counted_ok; [done..| | | | |]; cbn; [apply tick_start|rewrite ml_tick; lia|rewrite ml_tick; lia|done|].
      intros e He. by apply elem_of_nil in He.
  - injection E as <- <-. exists []. split; [|done]. cbn [app]. pose proof (fun x => cleanup_others _ _ _ now x Hok Ht) as Ho.
    constructor.
    + intros x v Hx. specialize (Ho x). by rewrite Hx in Ho.
    + intros x Hx. specialize (Ho x). by rewrite Hx in Ho.
    + intros e Hin. destruct (ro_event _ _ _ Hok e Hin) as (H1 & H2 & H3). split_and!; try lia; apply H3.
    + apply (ro_apart _ _ _ Hok).
    + apply (ro_cap _ _ _ Hok).
    + pose proof (ro_size _ _ _ Hok) as Hz. pose proof (cleanup_size b now). lia.
Qed.
Lemma ingress_run_ok b t log : ingress_run b t log -> exists noted, rates_ok b t noted /\ fst <$> noted = log.
Proof.
  induction 1 as [t|b t log a work size now r b' _ IH Ht Hsize E].
  - exists []. split; [|done]. constructor; try done; try (intros e; set_solver).
    intros a s. apply ml_cap.
  - destruct IH as (noted & Hok & <-). destruct (Admit_ok _ _ _ _ _ _ _ _ _ Hok Ht Hsize E) as (extra & Hok' & He).
    exists (extra ++ noted). split; [done|]. rewrite fmap_app, He. by destruct r.
Qed.
(** At most two windows reach into a minute. *)
Lemma spent_used a from noted t b : rates_ok b t noted ->
  exists s1 s2, spent (m_value m) a from MINUTE (fst <$> noted) <= used a s1 noted + used a s2 noted.
Proof.
  intros Hok.
  set (inside (e : Granted * Z) := bool_decide (g_address e.1 = a) && (from <=? g_time e.1) && (g_time e.1 <? from + MINUTE)).
  assert (Hin : forall e, inside e = true -> g_address e.1 = a /\ from <= g_time e.1 < from + MINUTE).
  { intros e He. unfold inside in He. apply andb_true_iff in He as [[He H1]%andb_true_iff H2]. apply bool_decide_eq_true in He. split; [done|lia]. }
  assert (Hsub : forall s1 s2 (l : list (Granted * Z)), (forall e, e ∈ l -> is_u64 (g_size e.1)) ->
    (forall e, e ∈ l -> inside e = true -> e.2 = s1 \/ e.2 = s2) ->
    spent (m_value m) a from MINUTE (fst <$> l) <= used a s1 l + used a s2 l).
  { intros s1 s2 l. induction l as [|e l IH]; intros Hsz Hl; [done|]. cbn [fmap list_fmap spent foldr used].
    fold (spent (m_value m) a from MINUTE (fst <$> l)) (used a s1 l) (used a s2 l) (inside e).
    specialize (IH ltac:(intros x Hx; apply Hsz; by right) ltac:(intros x Hx; apply Hl; by right)).
    pose proof (ml_value (g_work e.1) (g_size e.1) (Hsz e ltac:(by left))) as Hv. specialize (Hl e ltac:(by left)).
    destruct (inside e) eqn:Ei; [|repeat destruct (_ && _); lia].
    destruct (Hin e Ei) as [Ha _]. rewrite bool_decide_true by done. cbn [andb].
    destruct (Hl eq_refl) as [->| ->]; rewrite Z.eqb_refl; destruct (_ =? _); lia. }
  assert (Hsz : forall e, e ∈ noted -> is_u64 (g_size e.1)) by (intros e He; apply (ro_event _ _ _ Hok e He)).
  destruct (decide (Exists (fun e => inside e = true) noted)) as [Hx|Hx].
  2: { exists 0, 0. apply Hsub; [done|]. intros e He Hi. contradict Hx. apply Exists_exists. eauto. }
  apply Exists_exists in Hx as (e1 & Hin1 & Hi1).
  destruct (decide (Exists (fun e => inside e = true /\ e.2 <> e1.2) noted)) as [Hx|Hx].
  2: { exists e1.2, e1.2. apply Hsub; [done|]. intros e He Hi. left. destruct (decide (e.2 = e1.2)); [done|].
       contradict Hx. apply Exists_exists. eauto. }
  apply Exists_exists in Hx as (e2 & Hin2 & Hi2 & Hne). exists e1.2, e2.2. apply Hsub; [done|]. intros e He Hi.
  destruct (Hin e Hi) as [A T], (Hin e1 Hi1) as [A1 T1], (Hin e2 Hi2) as [A2 T2].
  pose proof (ro_event _ _ _ Hok e He). pose proof (ro_event _ _ _ Hok e1 Hin1). pose proof (ro_event _ _ _ Hok e2 Hin2).
  pose proof (ro_apart _ _ _ Hok e e1 He Hin1 ltac:(congruence)). pose proof (ro_apart _ _ _ Hok e e2 He Hin2 ltac:(congruence)).
  pose proof (ro_apart _ _ _ Hok e1 e2 Hin1 Hin2 ltac:(congruence)). unfold MINUTE, SECOND in *. lia.
Qed.
Lemma spent_le b t log a from : ingress_run b t log ->
  spent (m_value m) a from MINUTE log <= 2 * m_cap m /\ Z.of_nat (size (m_peers b)) <= MAX_WINDOWS.
Proof.
  intros Hrun. destruct (ingress_run_ok _ _ _ Hrun) as (noted & Hok & <-). split; [|apply (ro_size _ _ _ Hok)].
  destruct (spent_used a from _ _ _ Hok) as (s1 & s2 & Hle). pose proof (ro_cap _ _ _ Hok a s1). pose proof (ro_cap _ _ _ Hok a s2). lia.
Qed.
End meters.

(** The counters of a window. *)
Definition unit_of (w : Work) (work : Work) (_ : Z) : Z := if bool_decide (work = w) then 1 else 0.
Definition storage_size (work : Work) (size : Z) : Z :=
  match work with STORAGE_PUT | STORAGE_GET | STORAGE_PROOF => size | _ => 0 end.
Definition connection_meter : meter := mkMeter connections (unit_of CONNECTION) 60.
Definition operation_meter : meter := mkMeter operations (unit_of OPERATION) 120.
Definition put_meter : meter := mkMeter (fun w => of_put (storage w)) (unit_of STORAGE_PUT) 2048.
Definition get_meter : meter := mkMeter (fun w => of_get (storage w)) (unit_of STORAGE_GET) 2048.
Definition proof_meter : meter := mkMeter (fun w => of_proof (storage w)) (unit_of STORAGE_PROOF) 120.
Definition bytes_meter : meter := mkMeter storage_bytes storage_size (512 * 2 ^ 20).

Ltac meter_laws :=
  constructor; cbn [m_cap m_read m_value connection_meter operation_meter put_meter get_meter proof_meter bytes_meter];
  [lia
  |intros work size Hs; unfold unit_of, storage_size; repeat case_bool_decide; destruct work; ulia
  |done
  |intros w now; unfold tick; by destruct (_ =? _)
  |intros w work size w' E Hs Hr; unfold unit_of, storage_size; unfold spend in E; destruct work; cbv zeta in E; walk_step E; some_inj E;
   repeat case_bool_decide; try congruence; cbn in *; guards;
   change (Z.shiftl 512 20) with (512 * 2 ^ 20) in *; rewrite ?sub64_small in * by ulia; rewrite ?add64_small by ulia; ulia].
#[local] Instance connection_laws : MeterLaws connection_meter.
Proof. meter_laws. Qed.
#[local] Instance operation_laws : MeterLaws operation_meter.
Proof. meter_laws. Qed.
#[local] Instance put_laws : MeterLaws put_meter.
Proof. meter_laws. Qed.
#[local] Instance get_laws : MeterLaws get_meter.
Proof. meter_laws. Qed.
#[local] Instance proof_laws : MeterLaws proof_meter.
Proof. meter_laws. Qed.
#[local] Instance bytes_laws : MeterLaws bytes_meter.
Proof. meter_laws. Qed.

(** C33: rate limits hold over every minute. From a new budget on, over any
    sequence of calls in clock order, by any addresses for work of any kind and
    size, whichever 60 seconds one looks at — not only the windows the code
    keeps — an address was granted at most twice the quota of a window: 120
    connections, 240 operations, 4096 uploads, 4096 downloads, 240 proofs and
    1 GiB of chunks; and the table never holds more than 4096 addresses. *)
Theorem ingress_limits_every_minute b t log a from : ingress_run b t log ->
  let granted m := spent (m_value m) a from MINUTE log in
  granted connection_meter <= 120 /\ granted operation_meter <= 240 /\ granted put_meter <= 4096 /\ granted get_meter <= 4096 /\
  granted proof_meter <= 240 /\ granted bytes_meter <= 2 ^ 30 /\ Z.of_nat (size (m_peers b)) <= MAX_WINDOWS.
Proof.
  intros Hrun granted. unfold granted. split_and!; [..|by apply (spent_le connection_meter _ _ _ a from Hrun)].
  all: lazymatch goal with |- spent (m_value ?m) _ _ _ _ <= _ => exact (proj1 (spent_le m _ _ _ a from Hrun)) end.
Qed.

(** *** A run *)

Definition ingress_calls (calls : list (Z * bytes * Work * Z)) : IngressBudget * Z * list Granted :=
  foldl (fun x c => let '(b, t, log) := x in let '(now, a, work, size) := c in
    let '(r, b) := Admit b a work size now in (b, now, if r : bool then mkGranted a work size now :: log else log))
    (new_budget, 0, []) calls.
Fixpoint in_order (t : Z) (calls : list (Z * bytes * Work * Z)) : bool :=
  match calls with [] => true | (now, _, _, size) :: rest => (t <=? now) && (0 <=? size) && (size <? 2 ^ 64) && in_order now rest end.
Lemma ingress_calls_run calls : in_order 0 calls = true ->
  let '(b, t, log) := ingress_calls calls in ingress_run b t log.
Proof.
  unfold ingress_calls. assert (H0 : ingress_run new_budget 0 []) by constructor. revert H0.
  generalize new_budget, 0, (@nil Granted). induction calls as [|[[[now a] work] size] calls IH]; intros b t log Hrun E; [done|].
  cbn [in_order] in E. apply andb_true_iff in E as [[[H1 H2]%andb_true_iff H3]%andb_true_iff E]. cbn [foldl].
  destruct (Admit b a work size now) as [r b'] eqn:Ha. apply IH; [|done]. eapply ingress_call; [done|lia| |done]. ulia.
Qed.
(** An address that opens its window with one operation, then uses the
    connections of that window in its last quarter and those of the next one
    in its first: the bound is reached. *)
Definition burst : list (Z * bytes * Work * Z) :=
  (0, [], OPERATION, 100) ::
  flat_map (fun s => repeat (Z.of_nat s * SECOND, [], CONNECTION, 0) 5) (seq 45 30).
Definition burst_state : IngressBudget * Z * list Granted := ingress_calls burst.
Lemma burst_run : ingress_run burst_state.1.1 burst_state.1.2 burst_state.2.
Proof.
  pose proof (ingress_calls_run burst) as H. unfold burst_state. specialize (H ltac:(by vm_compute)).
  by destruct (ingress_calls burst) as [[b t] log].
Qed.
Lemma burst_spent : spent (m_value connection_meter) [] (45 * SECOND) MINUTE burst_state.2 = 120.
Proof. by vm_compute. Qed.
Lemma ingress_limits_every_minute_witness :
  spent (m_value connection_meter) [] (45 * SECOND) MINUTE burst_state.2 = 120 /\
  spent (m_value operation_meter) [] (45 * SECOND) MINUTE burst_state.2 <= 240.
Proof.
  split; [exact burst_spent|]. pose proof (ingress_limits_every_minute _ _ _ [] (45 * SECOND) burst_run) as H. apply H.
Defined.
End IngressBounds.
