(* ===== verification/PeerAdmission.v ===== *)
(** * Which addresses a node deals with

    [src/src/cybou/p2p/peer_admission.cpp]: the data set of French address
    ranges, read from a CSV file and searched by bisection, the local
    networks, and the policy over both. Numeric addresses are Boost.Asio's
    ([Addresses]); the bytes of the file, its digest and the dates are
    arguments. *)

From S2P Require Import Prelude.
From S2P Require Import Bytes.
From S2P Require Import Crypto.
From S2P Require Import Wire.

Module PeerAdmission.
Import Wire.

Definition MAX_DATASET_BYTES : Z := 64 * 1024 * 1024.
Definition MAX_RECORDS : Z := 1000000.
Definition MAX_DATASET_AGE : Z := 45.

(** ** Text *)

Definition newline : byte := x0a.
Definition carriage : byte := x0d.
Definition comma : byte := x2c.
(** The text before the first [sep] and the text after it ([find], [substr]). *)
Fixpoint split_at (sep : byte) (text : bytes) : option (bytes * bytes) :=
  match text with
  | [] => None
  | c :: rest =>
      return_if bool_decide (c = sep) with Some ([], rest) ;;
      let? (before, after) := split_at sep rest else None ;;
      Some (c :: before, after)
  end.
Definition strip_carriage (line : bytes) : bytes :=
  match last line with Some c => if bool_decide (c = carriage) then take (length line - 1) line else line | None => line end.
(** [NextLine]: the line and the text from the new offset on. *)
Definition NextLine (text : bytes) : option (bytes * bytes) :=
  match text with
  | [] => None
  | _ => let (line, rest) := default (text, []) (split_at newline text) in Some (strip_carriage line, rest)
  end.

(** [ParseIssuedMonth]: the year and the month; every month from 1970 on has
    a first day. *)
Definition digit (b : byte) : option Z := if (48 <=? zb b) && (zb b <=? 57) then Some (zb b - 48) else None.
Fixpoint parse_digits (acc : Z) (l : bytes) : option Z :=
  match l with
  | [] => Some acc
  | b :: rest => let? d := digit b else None ;; parse_digits (acc * 10 + d) rest
  end.
Definition ParseIssuedMonth (text : bytes) : option (Z * Z) :=
  return_if negb (zlen text =? 7) || negb (bool_decide (subspan text 4 1 = str "-")) with None ;;
  let? year := parse_digits 0 (subspan text 0 4) else None ;;
  let? month := parse_digits 0 (subspan text 5 2) else None ;;
  return_if (year <? 1970) || (9999 <? year) || (month <? 1) || (12 <? month) with None ;;
  Some (year, month).

(** ** Ranges *)

Record Range : Type := mkRange { r_first : arr 16; r_last : arr 16; r_ipv6 : bool }.
#[export] Instance Range_eq_dec : EqDecision Range.
Proof. solve_decision. Defined.
(** [std::sort] of the ranges by family and first address. *)
Definition range_before (x y : Range) : bool :=
  if Bool.eqb (r_ipv6 x) (r_ipv6 y) then alt (r_first x) (r_first y) else negb (r_ipv6 x) && r_ipv6 y.
Definition range_le (x y : Range) : Prop := range_before y x = false.
#[export] Instance range_le_dec x y : Decision (range_le x y) := bool_eq_dec _ _.
Fixpoint overlapping (ranges : list Range) : bool :=
  match ranges with
  | r1 :: (r2 :: _) as rest =>
      Bool.eqb (r_ipv6 r1) (r_ipv6 r2) && negb (alt (r_last r1) (r_first r2)) || overlapping rest
  | _ => false
  end.

(** [std::lower_bound] by bisection: [len] elements from [first] on. *)
Fixpoint lower_bound {A} (comp : A -> bool) (l : list A) (fuel first len : nat) : nat :=
  match fuel with
  | O => first
  | S fuel =>
      return_if (len =? 0)%nat with first ;;
      let half := (len / 2)%nat in
      match l !! (first + half)%nat with
      | Some x =>
          if comp x then lower_bound comp l fuel (first + half + 1) (len - half - 1)
          else lower_bound comp l fuel first half
      | None => first
      end
  end.

Abbreviation FrenchIpDataset := (list Range).

Section admission.
Context `{CryptoOps} `{Addresses}.

Definition AddressBytes (text : bytes) : option (arr 16 * bool) :=
  let? a := make_address text else None ;;
  match as_v4 a with
  | Some v4 => Some (arr_of 16 (arr_val v4), false)
  | None =>
      if is_v4_mapped a then Some (arr_of 16 (subspan (arr_val (v6_bytes a)) 12 4), false)
      else Some (v6_bytes a, true)
  end.

(** ** The data set *)

Definition upper (b : byte) : bool := (65 <=? zb b) && (zb b <=? 90).
(** One line: its range, and whether it is French. *)
Definition parse_record (line : bytes) : option (Range * bool) :=
  let? (first_text, rest) := split_at comma line else None ;;
  let? (last_text, country) := split_at comma rest else None ;;
  return_if bool_decide (is_Some (split_at comma country)) || bool_decide (first_text = []) || bool_decide (last_text = [])
            || negb (zlen country =? 2) with None ;;
  match AddressBytes first_text, AddressBytes last_text with
  | Some (first, v6), Some (last, v6') =>
      return_if negb (Bool.eqb v6 v6') || alt last first with None ;;
      return_if negb (forallb upper country) with None ;;
      Some (mkRange first last v6, bool_decide (country = str "FR"))
  | _, _ => None
  end.
(** The loop over the lines; every line takes at least one byte. *)
Fixpoint read_records (fuel : nat) (text : bytes) (records : Z) (ranges : list Range) : option (list Range) :=
  match fuel with
  | O => Some ranges
  | S fuel =>
      match NextLine text with
      | None => Some ranges
      | Some (line, rest) =>
          return_if bool_decide (line = []) || (MAX_RECORDS <? records + 1) with None ;;
          let? (range, french) := parse_record line else None ;;
          read_records fuel rest (records + 1) (if french : bool then ranges ++ [range] else ranges)
      end
  end.
(** [LoadDbIpCountryCsv]: [file] is the content of the file that could be
    read; the dates count days. *)
Definition LoadDbIpCountryCsv (file : option bytes) (expected_sha256 : arr 32) (issued today : Z) : option FrenchIpDataset :=
  return_if (today <? issued) || (MAX_DATASET_AGE <? today - issued) with None ;;
  let? csv := file else None ;;
  return_if (zlen csv =? 0) || (MAX_DATASET_BYTES <? zlen csv) with None ;;
  return_if negb (bool_decide (ComputeSha256 [csv] = Some expected_sha256)) with None ;;
  let? ranges := read_records (S (length csv)) csv 0 [] else None ;;
  return_if bool_decide (ranges = []) with None ;;
  let ranges := merge_sort range_le ranges in
  return_if overlapping ranges with None ;;
  Some ranges.
(** The comparison of the search. *)
Definition ends_before (key : arr 16 * bool) (range : Range) : bool :=
  let (address, v6) := key in
  negb (r_ipv6 range) && v6 || Bool.eqb (r_ipv6 range) v6 && alt (r_last range) address.
Definition IsFrench (m_ranges : FrenchIpDataset) (numeric_address : bytes) : bool :=
  let? (address, v6) := AddressBytes numeric_address else false ;;
  match m_ranges !! lower_bound (ends_before (address, v6)) m_ranges (length m_ranges) 0 (length m_ranges) with
  | Some found => Bool.eqb (r_ipv6 found) v6 && negb (alt address (r_first found)) && negb (alt (r_last found) address)
  | None => false
  end.

(** ** The policy *)

(** [address_v4::to_uint]. *)
Definition to_uint (v4 : arr 4) : Z := foldl (fun acc b => Z.lor (Z.shiftl acc 8) (zb b)) 0 (arr_val v4).
Definition byte_at (l : arr 16) (i : nat) : Z := zb (default x00 (arr_val l !! i)).
Definition local_v4 (value : Z) : bool :=
  (Z.land value 4278190080 =? 2130706432) || (Z.land value 4278190080 =? 167772160) || (Z.land value 4293918720 =? 2886729728)
  || (Z.land value 4294901760 =? 3232235520) || (Z.land value 4294901760 =? 2851995648).
Definition IsLocalNetworkAddress (numeric_address : bytes) : bool :=
  let? a := make_address numeric_address else false ;;
  let v4 := match as_v4 a with
            | Some v4 => Some v4
            | None => if is_v4_mapped a then Some (arr_of 4 (subspan (arr_val (v6_bytes a)) 12 4)) else None
            end in
  match v4 with
  | Some v4 => local_v4 (to_uint v4)
  | None =>
      let l := v6_bytes a in
      is_loopback a || (Z.land (byte_at l 0) 254 =? 252) || (byte_at l 0 =? 254) && (Z.land (byte_at l 1) 192 =? 128)
  end.
(** [dataset] is the one given at construction or the updater's current one. *)
Definition Allows (dataset : option FrenchIpDataset) (numeric_address : bytes) : bool :=
  return_if IsLocalNetworkAddress numeric_address with true ;;
  match dataset with Some dataset => IsFrench dataset numeric_address | None => false end.
End admission.

(** ** Bisection *)

Section bisection.
Context {A : Type} (comp : A -> bool) (l : list A).

Definition partitioned : Prop := forall i j x y, (i <= j)%nat -> l !! i = Some x -> l !! j = Some y -> comp y = true -> comp x = true.
(** The first position where the comparison is false. *)
Lemma lower_bound_spec fuel first len : partitioned -> (first + len <= length l)%nat -> (len <= fuel)%nat ->
  (forall i x, (i < first)%nat -> l !! i = Some x -> comp x = true) ->
  (forall i x, (first + len <= i)%nat -> l !! i = Some x -> comp x = false) ->
  let k := lower_bound comp l fuel first len in
  (forall i x, (i < k)%nat -> l !! i = Some x -> comp x = true) /\ (forall i x, (k <= i)%nat -> l !! i = Some x -> comp x = false).
Proof.
  intros Hp. revert first len. induction fuel as [|fuel IH]; intros first len Hl Hf H1 H2; cbn [lower_bound].
  - replace (first + len)%nat with first in H2 by lia. done.
  - destruct (len =? 0)%nat eqn:E0; [apply Nat.eqb_eq in E0; subst; by rewrite Nat.add_0_r in H2|]. apply Nat.eqb_neq in E0.
    assert (Hh : (len / 2 < len)%nat) by (apply Nat.div_lt; lia). cbv zeta. set (half := (len / 2)%nat) in *.
    destruct (lookup_lt_is_Some_2 l (first + half)) as [x Hx]; [lia|]. rewrite Hx. destruct (comp x) eqn:Ex.
    + apply IH; [lia|lia| |intros i y Hi; apply H2; lia]. intros i y Hi Hy. eapply (Hp i (first + half)%nat); eauto with lia.
    + apply IH; [lia|lia|done|]. intros i y Hi Hy. destruct (comp y) eqn:Ey; [|done].
      rewrite <- Ex. symmetry. eapply (Hp (first + half)%nat i); eauto with lia.
Qed.
End bisection.

(** ** Accepted data sets *)

Lemma range_before_trans x y z : range_before x y = true -> range_before y z = true -> range_before x z = true.
Proof.
  unfold range_before, alt. destruct (r_ipv6 x), (r_ipv6 y), (r_ipv6 z); cbn; try done; apply blt_trans.
Qed.
#[export] Instance range_le_total : Total range_le.
Proof.
  intros x y. unfold range_le. destruct (range_before y x) eqn:E; [right|by left]. unfold range_before, alt in *.
  destruct (r_ipv6 x), (r_ipv6 y); cbn in *; try done; by apply blt_asym.
Qed.
#[export] Instance range_le_trans : Transitive range_le.
Proof.
  intros x y z. unfold range_le. intros Hxy Hyz. destruct (range_before z x) eqn:Hzx; [|done]. unfold range_before, alt in *.
  destruct (r_ipv6 x), (r_ipv6 y), (r_ipv6 z); cbn in *; try done.
  - destruct (decide (arr_val (r_first x) = arr_val (r_first y))) as [E|E]; [congruence|]. apply not_eq_sym in E.
    rewrite (blt_trans _ _ _ Hzx) in Hyz; [done|]. by apply blt_total.
  - destruct (decide (arr_val (r_first x) = arr_val (r_first y))) as [E|E]; [congruence|]. apply not_eq_sym in E.
    rewrite (blt_trans _ _ _ Hzx) in Hyz; [done|]. by apply blt_total.
Qed.
(** Ranges of one family that do not touch. *)
Definition apart (x y : Range) : Prop := r_ipv6 x = r_ipv6 y /\ alt (r_last x) (r_first y) = true \/ r_ipv6 x = false /\ r_ipv6 y = true.
Lemma apart_trans x y z : alt (r_last y) (r_first y) = false -> apart x y -> apart y z -> apart x z.
Proof.
  unfold apart, alt. intros Hy [[E1 H1]|[E1 H1]] [[E2 H2]|[E2 H2]]; [left|right; by rewrite E1|right; by rewrite E1, <- E2|congruence].
  split; [congruence|]. destruct (decide (arr_val (r_last y) = arr_val (r_first y))) as [E|E].
  - rewrite E in H2. by eapply blt_trans.
  - eapply blt_trans; [exact H1|]. eapply blt_trans; [|exact H2]. by apply blt_total.
Qed.
Lemma sorted_apart ranges : StronglySorted range_le ranges -> overlapping ranges = false ->
  Forall (fun r => alt (r_last r) (r_first r) = false) ranges -> StronglySorted apart ranges.
Proof.
  induction 1 as [|x ranges Hs IH Hx]; intros Ho Hok; [constructor|]. apply Forall_cons in Hok as [Hxok Hok].
  assert (Ho' : overlapping ranges = false) by (destruct ranges; [done|]; by apply orb_false_iff in Ho as [_ Ho]).
  specialize (IH Ho' Hok). constructor; [done|]. destruct ranges as [|y ranges]; [constructor|].
  assert (Hxy : apart x y).
  { apply orb_false_iff in Ho as [Ho _]. apply Forall_cons in Hx as [Hx _]. unfold range_le, range_before in Hx. unfold apart.
    destruct (r_ipv6 x), (r_ipv6 y); cbn in *; try done; [left|right|left]; split; try done; by apply negb_false_iff. }
  constructor; [done|]. apply StronglySorted_inv in IH as [_ Hy]. apply Forall_cons in Hok as [Hyok _].
  eapply Forall_impl; [exact Hy|]. intros z Hz. by eapply apart_trans.
Qed.
Lemma StronglySorted_at {A} (R : A -> A -> Prop) l i j x y : StronglySorted R l -> (i < j)%nat -> l !! i = Some x -> l !! j = Some y -> R x y.
Proof.
  intros Hs. revert i j. induction Hs as [|z l _ IH Hz]; intros i j Hij Hi Hj; [done|]. destruct j as [|j]; [lia|]. cbn in Hj.
  destruct i as [|i]; cbn in Hi; [|by eapply (IH i j); [lia|..]]. injection Hi as ->. rewrite Forall_forall in Hz. apply Hz.
  by eapply list_elem_of_lookup_2.
Qed.

Section datasets.
Context {Ops : CryptoOps} {Ads : Addresses}.

Definition covers (key : arr 16 * bool) (r : Range) : Prop :=
  r_ipv6 r = key.2 /\ alt key.1 (r_first r) = false /\ alt (r_last r) key.1 = false.
Lemma ends_before_partitioned key ranges : StronglySorted apart ranges ->
  Forall (fun r => alt (r_last r) (r_first r) = false) ranges -> partitioned (ends_before key) ranges.
Proof using.
  intros Hs Hok i j x y Hij Hx Hy E. destruct (decide (i = j)) as [->|Hne]; [congruence|].
  assert (Ha : apart x y) by (eapply (StronglySorted_at _ _ i j); [done|lia|done|done]). rewrite Forall_forall in Hok.
  pose proof (Hok y (list_elem_of_lookup_2 _ _ _ Hy)) as Hyok. destruct key as [a v6]. unfold ends_before, apart in *.
  destruct Ha as [[-> Ha]|[Ea Eb]].
  - apply orb_true_iff in E as [E|E]; apply orb_true_iff; [by left|right]. apply andb_true_iff in E as [-> E]. cbn. unfold alt in *.
    eapply blt_trans; [exact Ha|]. destruct (decide (arr_val (r_last y) = arr_val (r_first y))) as [El|El]; [by rewrite <- El|].
    eapply blt_trans; [|exact E]. by apply blt_total.
  - rewrite Ea, Eb in *. destruct v6; [done|]. by cbn in E.
Qed.
Lemma IsFrench_covers ranges text : StronglySorted apart ranges -> Forall (fun r => alt (r_last r) (r_first r) = false) ranges ->
  IsFrench ranges text = true <-> exists key r, AddressBytes text = Some key /\ r ∈ ranges /\ covers key r.
Proof.
  intros Hs Hok. unfold IsFrench. destruct (AddressBytes text) as [[a v6]|]; [|split; [done|by intros (? & ? & ? & _)]].
  destruct (lower_bound_spec (ends_before (a, v6)) ranges (length ranges) 0 (length ranges)) as [H1 H2];
    [by apply ends_before_partitioned|lia|lia|lia|intros i x Hi Hx; apply lookup_lt_Some in Hx; lia|].
  set (k := lower_bound _ _ _ _ _) in *. split.
  - destruct (ranges !! k) as [r|] eqn:Hk; [|done]. intros E. apply andb_true_iff in E as [[E1 E2]%andb_true_iff E3].
    exists (a, v6), r. unfold covers. cbn [fst snd].
    split_and!; [done|by eapply list_elem_of_lookup_2|by apply eqb_prop|by apply negb_true_iff|by apply negb_true_iff].
  - intros ([a' v'] & r & [= <- <-] & Hr & C1 & C2 & C3). cbn [fst snd] in *. apply list_elem_of_lookup in Hr as [j Hj].
    assert (Hkj : (k <= j)%nat).
    { destruct (decide (k <= j)%nat); [done|]. specialize (H1 j r ltac:(lia) Hj). unfold ends_before in H1. rewrite C1, C3 in H1.
      by destruct v6. }
    destruct (lookup_lt_is_Some_2 ranges k) as [x Hx]; [apply lookup_lt_Some in Hj; lia|]. rewrite Hx.
    assert (x = r) as ->.
    { destruct (decide (k = j)) as [->|Hne]; [congruence|]. assert (Ha : apart x r) by (eapply (StronglySorted_at _ _ k j); [done|lia|done|done]).
      specialize (H2 k x ltac:(lia) Hx). unfold ends_before in H2. apply orb_false_iff in H2 as [H2 H3].
      destruct Ha as [[E Ha]|[E1 E2]]; [|by rewrite E1, <- C1, E2 in H2]. rewrite E, C1, eqb_reflx in H3. cbn [andb] in H3.
      exfalso. unfold alt in *. assert (Hlt : blt (arr_val (r_last x)) (arr_val a) = true); [|congruence].
      destruct (decide (arr_val a = arr_val (r_first r))) as [El|El]; [by rewrite El|]. eapply blt_trans; [exact Ha|]. by apply blt_total. }
    by rewrite C1, eqb_reflx, C2, C3.
Qed.

(** The lines of a text and what they say. *)
Inductive text_lines : bytes -> list bytes -> Prop :=
| lines_end text : NextLine text = None -> text_lines text []
| lines_next text line rest lines : NextLine text = Some (line, rest) -> text_lines rest lines -> text_lines text (line :: lines).
Lemma split_at_length sep text x y : split_at sep text = Some (x, y) -> (length y < length text)%nat.
Proof using.
  revert x. induction text as [|c text IH]; intros x E; [done|]. cbn [split_at] in E. walk_step E; [injection E as _ <-; cbn; lia|].
  walk_step E. destruct p as [before after]. injection E as _ <-. specialize (IH _ eq_refl). cbn. lia.
Qed.
Lemma NextLine_length text line rest : NextLine text = Some (line, rest) -> (length rest < length text)%nat.
Proof using.
  unfold NextLine. destruct text as [|c text]; [done|]. destruct (split_at newline (c :: text)) as [[x y]|] eqn:E; cbn [default]; intros [= _ <-].
  - by eapply split_at_length.
  - cbn. lia.
Qed.
Lemma read_records_spec fuel text records ranges result : (length text < fuel)%nat -> read_records fuel text records ranges = Some result ->
  exists lines parsed, text_lines text lines /\ Forall2 (fun line p => parse_record line = Some p) lines parsed /\
    result = ranges ++ omap (fun p : Range * bool => if p.2 then Some p.1 else None) parsed.
Proof.
  revert text records ranges. induction fuel as [|fuel IH]; intros text records ranges Hf E; [lia|]. cbn [read_records] in E.
  destruct (NextLine text) as [[line rest]|] eqn:El.
  - walk_step E. walk_step E. destruct p as [range french]. apply IH in E as (lines & parsed & H1 & H2 & ->);
      [|apply NextLine_length in El; lia].
    exists (line :: lines), ((range, french) :: parsed). split_and!; [by econstructor|by constructor|].
    cbn. destruct french; [|done]. by rewrite <- app_assoc.
  - injection E as <-. exists [], []. split_and!; [by constructor|constructor|by rewrite app_nil_r].
Qed.
Lemma parse_record_ordered line r french : parse_record line = Some (r, french) -> alt (r_last r) (r_first r) = false.
Proof.
  unfold parse_record. intros E. walk_step E. destruct p as [t1 rest]. walk_step E. destruct p as [t2 country]. walk_step E.
  destruct (AddressBytes t1) as [[a1 v1]|]; [|done]. destruct (AddressBytes t2) as [[a2 v2]|]; [|done]. walk E. injection E as <- _.
  by apply orb_false_iff in Hif0 as [_ ?].
Qed.

(** C40: the data set answers for the file. A file that is accepted is no older
    than 45 days, has the expected digest, and every line of it is a
    well-formed record; an address is then found to be French, by bisection
    over the sorted ranges, exactly when a record marked FR covers it, in its
    own address family. *)
Theorem IsFrench_correct csv expected issued today ranges :
  LoadDbIpCountryCsv (Some csv) expected issued today = Some ranges ->
  0 <= today - issued <= MAX_DATASET_AGE /\ ComputeSha256 [csv] = Some expected /\
  exists lines parsed, text_lines csv lines /\ Forall2 (fun line p => parse_record line = Some p) lines parsed /\
    forall text, IsFrench ranges text = true <-> exists key r, AddressBytes text = Some key /\ (r, true) ∈ parsed /\ covers key r.
Proof.
  intros E. unfold LoadDbIpCountryCsv in E. walk E. injection E as <-. guards. split; [lia|]. split; [done|].
  apply read_records_spec in Hopt as (lines & parsed & L1 & L2 & ->); [|lia]. exists lines, parsed. split_and!; [done..|]. cbn [app] in *.
  set (french := omap _ parsed) in *.
  assert (Hin : forall r, r ∈ french <-> (r, true) ∈ parsed).
  { intros r. unfold french. rewrite list_elem_of_omap. split.
    - intros ([r' []] & Hp & [= <-]). done.
    - intros Hp. by exists (r, true). }
  assert (Hok : Forall (fun r => alt (r_last r) (r_first r) = false) (merge_sort range_le french)).
  { rewrite merge_sort_Permutation. apply Forall_forall. intros r Hr. apply Hin in Hr.
    apply list_elem_of_lookup in Hr as [i Hi]. destruct (Forall2_lookup_r _ _ _ _ _ L2 Hi) as (line & _ & Hp). by eapply parse_record_ordered. }
  intros text. rewrite IsFrench_covers; [|apply sorted_apart; [apply StronglySorted_merge_sort; apply _|done|done]|done].
  split; intros (key & r & K1 & K2 & K3); exists key, r; (split_and!; [done| |done]).
  - apply Hin. by rewrite merge_sort_Permutation in K2.
  - rewrite merge_sort_Permutation. by apply Hin.
Qed.
End datasets.
End PeerAdmission.
