(* ===== verification/Network.v ===== *)
(** * Routing and the doors to the network

    The parts of [src/src/cybou/node_runtime_network.cpp] and
    [node_runtime.h] that hold the addresses a node knows, the endpoints it
    tells others, and when it dials a peer again. A [std::set] or [std::map]
    of endpoints is visited in the order of [endpoint_le]. *)

From S2P Require Import Prelude.
From S2P Require Import Bytes.
From S2P Require Import Crypto.
From S2P Require Import Wire.
From S2P Require Import Ingress.
From S2P Require Import PeerAdmission.

Module Network.
Import Wire.
Import PeerAdmission.

(** ** Sets of endpoints *)

Definition endpoint_lt (a b : Endpoint) : bool := if bool_decide (a.1 = b.1) then a.2 <? b.2 else blt a.1 b.1.
Definition endpoint_le (a b : Endpoint) : Prop := endpoint_lt b a = false.
#[export] Instance endpoint_le_dec a b : Decision (endpoint_le a b) := bool_eq_dec _ _.
Definition in_order (s : gset Endpoint) : list Endpoint := merge_sort endpoint_le (elements s).
(** [find(v) != end()] of a vector. *)
Definition contains (l : list Endpoint) (e : Endpoint) : bool := existsb (fun x => bool_decide (x = e)) l.

(** ** State *)

Record ConfiguredPeer : Type := mkConfigured { cp_endpoint : Endpoint; cp_tls_spki_sha256 : option (arr 32) }.
Record PeerRetryState : Type := mkRetry { temporary_failures : Z; protocol_failures : Z; retry_after : Z }.
Inductive PeerFailureClass : Type := FC_TEMPORARY | FC_PROTOCOL | FC_WRONG_NETWORK.
#[export] Instance PeerFailureClass_eq_dec : EqDecision PeerFailureClass.
Proof. solve_decision. Defined.
Record NetworkCore : Type := mkNetwork {
  peer_retry_after : gmap Endpoint PeerRetryState;
  configured_peers : list ConfiguredPeer;
  advertised_endpoint : option Endpoint;
  ingress : Ingress.IngressBudget;
  discovered_peer_endpoints : gset Endpoint;
  listener_candidates : gset Endpoint;
  listen_port : Z;
}.
Definition set_ingress (b : Ingress.IngressBudget) (n : NetworkCore) :=
  mkNetwork (peer_retry_after n) (configured_peers n) (advertised_endpoint n) b (discovered_peer_endpoints n) (listener_candidates n)
    (listen_port n).
Definition set_configured (peers : list ConfiguredPeer) (n : NetworkCore) :=
  mkNetwork (peer_retry_after n) peers (advertised_endpoint n) (ingress n) (discovered_peer_endpoints n) (listener_candidates n)
    (listen_port n).
Definition set_discovered (s : gset Endpoint) (n : NetworkCore) :=
  mkNetwork (peer_retry_after n) (configured_peers n) (advertised_endpoint n) (ingress n) s (listener_candidates n) (listen_port n).
Definition set_listeners (s : gset Endpoint) (n : NetworkCore) :=
  mkNetwork (peer_retry_after n) (configured_peers n) (advertised_endpoint n) (ingress n) (discovered_peer_endpoints n) s (listen_port n).
Definition set_retry (r : gmap Endpoint PeerRetryState) (n : NetworkCore) :=
  mkNetwork r (configured_peers n) (advertised_endpoint n) (ingress n) (discovered_peer_endpoints n) (listener_candidates n) (listen_port n).
Definition new_network (configured : list ConfiguredPeer) (advertised : option Endpoint) : NetworkCore :=
  mkNetwork ∅ configured advertised Ingress.new_budget ∅ ∅ 0.

Definition MAX_GOSSIP_TARGETS : Z := 32.
Definition MAX_LISTENER_CANDIDATES : Z := 256.
Definition MAX_DISCOVERED_PEER_ENDPOINTS : Z := 256.

(** ** Retries *)

(** The loop of [backoff]; [delay] and the limits are seconds. *)
Fixpoint backoff_loop (failures : nat) (delay max_seconds : Z) : Z :=
  match failures with
  | S ((S _) as failures') =>
      if delay <? max_seconds then backoff_loop failures' (Z.min max_seconds (wrap32 (delay * 2))) max_seconds else delay
  | _ => delay
  end.
Definition backoff (failures base_seconds max_seconds : Z) : Z := backoff_loop (Z.to_nat failures) base_seconds max_seconds * Ingress.SECOND.
Definition is_rendezvous (n : NetworkCore) (endpoint : Endpoint) : bool :=
  existsb (fun peer => bool_decide (cp_endpoint peer = endpoint) && bool_decide (is_Some (cp_tls_spki_sha256 peer))) (configured_peers n).
Definition SchedulePeerRetry (n : NetworkCore) (endpoint : Endpoint) (failure : PeerFailureClass) (now : Z) : NetworkCore :=
  let retry := default (mkRetry 0 0 0) (peer_retry_after n !! endpoint) in
  let effective := if is_rendezvous n endpoint && bool_decide (failure = FC_PROTOCOL) then FC_TEMPORARY else failure in
  let retry := match effective with
    | FC_TEMPORARY =>
        let failures := Z.min (wrap32 (temporary_failures retry + 1)) 16 in
        mkRetry failures (protocol_failures retry) (now + backoff failures 5 300)
    | FC_PROTOCOL =>
        let failures := Z.min (wrap32 (protocol_failures retry + 1)) 16 in
        mkRetry (temporary_failures retry) failures (now + backoff failures 1800 86400)
    | FC_WRONG_NETWORK => mkRetry (temporary_failures retry) (protocol_failures retry) (now + 24 * 3600 * Ingress.SECOND)
    end in
  set_retry (<[endpoint := retry]> (peer_retry_after n)) n.

(** ** Endpoints *)

Definition PinnedSpki (n : NetworkCore) (address : bytes) (port : Z) : option (arr 32) :=
  let? peer := List.find (fun peer => bool_decide (cp_endpoint peer = (address, port))) (configured_peers n) else None ;;
  cp_tls_spki_sha256 peer.
Fixpoint gossip_configured (advertised : option Endpoint) (peers : list ConfiguredPeer) (result : list Endpoint) : list Endpoint :=
  match peers with
  | [] => result
  | peer :: rest =>
      return_if MAX_GOSSIP_TARGETS <=? zlen result with result ;;
      return_if bool_decide (advertised = Some (cp_endpoint peer)) with gossip_configured advertised rest result ;;
      gossip_configured advertised rest (if contains result (cp_endpoint peer) then result else result ++ [cp_endpoint peer])
  end.
Fixpoint gossip_discovered (endpoints : list Endpoint) (result : list Endpoint) : list Endpoint :=
  match endpoints with
  | [] => result
  | ep :: rest =>
      return_if MAX_GOSSIP_TARGETS <=? zlen result with result ;;
      gossip_discovered rest (if contains result ep then result else result ++ [ep])
  end.
Definition GetPeerEndpointsForGossip (n : NetworkCore) : list Endpoint :=
  gossip_discovered (in_order (discovered_peer_endpoints n)) (gossip_configured (advertised_endpoint n) (configured_peers n) []).
Definition GetConfiguredPeerEndpoints (n : NetworkCore) : list Endpoint :=
  filter (fun e => advertised_endpoint n <> Some e) (cp_endpoint <$> configured_peers n).

Section routing.
Context `{CryptoOps} `{Addresses}.

Fixpoint add_configured (advertised : option Endpoint) (endpoints : list Endpoint) (peers : list ConfiguredPeer) : list ConfiguredPeer :=
  match endpoints with
  | [] => peers
  | (host, port) :: rest =>
      return_if (port =? 0) || (32 <=? zlen peers) with add_configured advertised rest peers ;;
      let? addr := make_address host else add_configured advertised rest peers ;;
      let endpoint := (address_text addr, port) in
      return_if bool_decide (advertised = Some endpoint) || contains (cp_endpoint <$> peers) endpoint
        with add_configured advertised rest peers ;;
      add_configured advertised rest (peers ++ [mkConfigured endpoint None])
  end.
Definition SetConfiguredPeerEndpoints (n : NetworkCore) (endpoints : list Endpoint) : NetworkCore :=
  let kept := filter (fun peer => is_Some (cp_tls_spki_sha256 peer)) (configured_peers n) in
  set_configured (add_configured (advertised_endpoint n) endpoints kept) n.
Definition NoteListeningPeer (n : NetworkCore) (text : bytes) (port : Z) : NetworkCore :=
  let? addr := make_address text else n ;;
  return_if port =? 0 with n ;;
  let endpoint := (address_text addr, port) in
  return_if bool_decide (endpoint ∈ discovered_peer_endpoints n)
            || (MAX_LISTENER_CANDIDATES <=? Z.of_nat (size (listener_candidates n))) with n ;;
  set_listeners ({[endpoint]} ∪ listener_candidates n) n.

Definition private_v4 (value : Z) : bool :=
  (Z.land value 4278190080 =? 167772160) || (Z.land value 4293918720 =? 2886729728) || (Z.land value 4294901760 =? 3232235520).
Definition IsPrivateAddress (addr : address) : bool :=
  match as_v4 addr with
  | Some v4 => private_v4 (to_uint v4)
  | None =>
      let l := v6_bytes addr in
      if is_v4_mapped addr then
        private_v4 (Z.lor (Z.lor (Z.lor (Z.shiftl (byte_at l 12) 24) (Z.shiftl (byte_at l 13) 16)) (Z.shiftl (byte_at l 14) 8)) (byte_at l 15))
      else Z.land (byte_at l 0) 254 =? 252
  end.
Definition is_link_local (addr : address) : bool :=
  match as_v4 addr with
  | Some v4 => Z.land (to_uint v4) 4294901760 =? 2851995648
  | None => (byte_at (v6_bytes addr) 0 =? 254) && (Z.land (byte_at (v6_bytes addr) 1) 192 =? 128)
  end.
Definition IsConnectableDiscoveredAddress (addr : address) (advertised : option Endpoint) : bool :=
  return_if is_unspecified addr || is_multicast addr with false ;;
  let local := let? e := advertised else None ;; make_address e.1 in
  return_if IsPrivateAddress addr && match local with
              | Some local => negb (IsPrivateAddress local) && negb (is_loopback local) && negb (is_link_local local)
                              && negb (is_unspecified local) && negb (is_multicast local)
              | None => false
              end with false ;;
  return_if is_loopback addr
    with match advertised with None => true | Some _ => match local with Some local => is_loopback local | None => false end end ;;
  return_if is_link_local addr
    with match advertised with None => true | Some _ => match local with Some local => is_link_local local | None => false end end ;;
  true.
Fixpoint add_discovered (n : NetworkCore) (endpoints : list Endpoint) : NetworkCore :=
  match endpoints with
  | [] => n
  | (host, port) :: rest =>
      return_if port =? 0 with add_discovered n rest ;;
      let? addr := make_address host else add_discovered n rest ;;
      return_if negb (IsConnectableDiscoveredAddress addr (advertised_endpoint n)) with add_discovered n rest ;;
      let canonical := (address_text addr, port) in
      return_if bool_decide (advertised_endpoint n = Some canonical) with add_discovered n rest ;;
      return_if contains (cp_endpoint <$> configured_peers n) canonical with add_discovered n rest ;;
      return_if MAX_DISCOVERED_PEER_ENDPOINTS <=? Z.of_nat (size (discovered_peer_endpoints n)) with n ;;
      add_discovered (set_discovered ({[canonical]} ∪ discovered_peer_endpoints n) n) rest
  end.
Definition AddDiscoveredPeerEndpoints (n : NetworkCore) (endpoints : list Endpoint) : NetworkCore := add_discovered n endpoints.

(** ** Ingress *)

(** [IsLocalNetworkAddress(address) || ingress.Admit(...)]: the budget is
    not touched for the local network. *)
Definition AdmitIngress (n : NetworkCore) (text : bytes) (work : Ingress.Work) (size now : Z) : bool * NetworkCore :=
  return_if IsLocalNetworkAddress text with (true, n) ;;
  let (ok, b) := Ingress.Admit (ingress n) text work size now in (ok, set_ingress b n).
Definition with_transfers (t : Ingress.Transfers) (n : NetworkCore) : NetworkCore :=
  set_ingress (Ingress.mkBudget t (Ingress.m_last_cleanup (ingress n)) (Ingress.m_peers (ingress n))) n.
Definition AcquireStorageTransfer (n : NetworkCore) (text : bytes) : bool * NetworkCore :=
  let (ok, t) := Ingress.AcquireStorageTransfer (Ingress.m_transfers (ingress n)) text in (ok, with_transfers t n).
Definition release_lease (n : NetworkCore) (text : bytes) : NetworkCore :=
  match Ingress.release_transfer (Ingress.m_transfers (ingress n)) text with Some t => with_transfers t n | None => n end.
(** [AdmitPeerAddress], with the data set of the policy, where there is one. *)
Definition AdmitPeerAddress (policy : option (option FrenchIpDataset)) (text : bytes) : bool :=
  match policy with Some dataset => Allows dataset text | None => false end.
End routing.
End Network.
