(* ===== verification/Transport.v ===== *)
(** * The transport of a session

    [src/src/cybou/p2p/session.cpp], from [ReadExact] to [Read]: how
    frames are read from and written to a connection that delivers bytes in
    any pieces, falls silent or breaks. The encrypted socket is OpenSSL and
    Boost.Asio: what it delivers and accepts is a script, an argument of the
    state. Every theorem holds for all scripts. *)

From S2P Require Import Prelude.
From S2P Require Import Bytes.
From S2P Require Import Codec.
From S2P Require Import Crypto.
From S2P Require Import StorageAudit.
From S2P Require Import Wire.

Module Transport.
Import Wire.

(** ** Data *)

(** What a read of the encrypted socket meets: bytes, the deadline of the
    call, or the end of the connection. After the script nothing arrives any
    more, and every read runs into its deadline. *)
Inductive arrival : Type := Bytes (l : bytes) | Silence | Broken.
#[export] Instance arrival_eq_dec : EqDecision arrival.
Proof. solve_decision. Defined.
(** [lk_secure] is [m_ssl != nullptr]. [lk_stalls] says of the coming writes
    whether they go through ([None], as after the list) or how much of them
    does before the deadline or the end of the connection. *)
Record Link : Type := mkLink {
  lk_open : bool;
  lk_secure : bool;
  lk_incoming : list arrival;
  lk_stalls : list (option nat);
  lk_sent : bytes;
}.

Inductive HandshakeStatus : Type := NOT_ATTEMPTED | CONNECTED | UNAVAILABLE | INVALID_PEER | WRONG_NETWORK | INVALID_LOCAL.
#[export] Instance HandshakeStatus_eq_dec : EqDecision HandshakeStatus.
Proof. solve_decision. Defined.
Inductive ReadStatus : Type := READ_OK | READ_UNAVAILABLE | READ_INVALID_FRAME.
#[export] Instance ReadStatus_eq_dec : EqDecision ReadStatus.
Proof. solve_decision. Defined.

Record PeerSession : Type := mkSession {
  m_socket : Link;
  m_remote_endpoint : option bytes;
  m_tls_exporter : arr 32;
  m_peer : option Hello;
  m_peer_storage_id : option (arr 32);
  m_peer_payout_binding : option StoragePayoutBinding;
  m_local : option Hello;
  m_served_operations : gset Hash256;
  m_handshake_status : HandshakeStatus;
  m_last_read_status : ReadStatus;
}.
Definition set_link (link : Link) (s : PeerSession) :=
  mkSession link (m_remote_endpoint s) (m_tls_exporter s) (m_peer s) (m_peer_storage_id s) (m_peer_payout_binding s) (m_local s)
    (m_served_operations s) (m_handshake_status s) (m_last_read_status s).
Definition set_exporter (exporter : arr 32) (s : PeerSession) :=
  mkSession (m_socket s) (m_remote_endpoint s) exporter (m_peer s) (m_peer_storage_id s) (m_peer_payout_binding s) (m_local s)
    (m_served_operations s) (m_handshake_status s) (m_last_read_status s).
Definition set_peers (peer local : option Hello) (s : PeerSession) :=
  mkSession (m_socket s) (m_remote_endpoint s) (m_tls_exporter s) peer (m_peer_storage_id s) (m_peer_payout_binding s) local
    (m_served_operations s) (m_handshake_status s) (m_last_read_status s).
Definition set_storage (id : option (arr 32)) (binding : option StoragePayoutBinding) (s : PeerSession) :=
  mkSession (m_socket s) (m_remote_endpoint s) (m_tls_exporter s) (m_peer s) id binding (m_local s)
    (m_served_operations s) (m_handshake_status s) (m_last_read_status s).
Definition set_served (served : gset Hash256) (s : PeerSession) :=
  mkSession (m_socket s) (m_remote_endpoint s) (m_tls_exporter s) (m_peer s) (m_peer_storage_id s) (m_peer_payout_binding s) (m_local s)
    served (m_handshake_status s) (m_last_read_status s).
Definition set_handshake (status : HandshakeStatus) (s : PeerSession) :=
  mkSession (m_socket s) (m_remote_endpoint s) (m_tls_exporter s) (m_peer s) (m_peer_storage_id s) (m_peer_payout_binding s) (m_local s)
    (m_served_operations s) status (m_last_read_status s).
Definition set_read (status : ReadStatus) (s : PeerSession) :=
  mkSession (m_socket s) (m_remote_endpoint s) (m_tls_exporter s) (m_peer s) (m_peer_storage_id s) (m_peer_payout_binding s) (m_local s)
    (m_served_operations s) (m_handshake_status s) status.

(** ** Programs

    A function of a session acts on the session and on a world, the runtime
    of the node or whatever a callback changes; it can throw where the
    runtime does. *)

Definition io (N A : Type) : Type := PeerSession -> N -> outcome A * (PeerSession * N).
Definition give {N A} (a : A) : io N A := fun s n => (Ret a, (s, n)).
Definition bind {N A B} (m : io N A) (k : A -> io N B) : io N B := fun s n =>
  match m s n with
  | (Ret a, (s, n)) => k a s n
  | (Throw, x) => (Throw, x)
  end.
Definition look {N A} (f : PeerSession -> A) : io N A := fun s n => (Ret (f s), (s, n)).
Definition change {N} (f : PeerSession -> PeerSession) : io N unit := fun s n => (Ret tt, (f s, n)).
Definition on_world {N A} (m : N -> outcome A * N) : io N A := fun s n => let (r, n) := m n in (r, (s, n)).

Notation "'talk!' x := m ;; k" := (bind m (fun x => k))
  (at level 10, x pattern, m at level 99, k at level 200, only parsing) : cybou_scope.

(** ** Bytes *)

Definition close_link (l : Link) : Link := mkLink false (lk_secure l) (lk_incoming l) (lk_stalls l) (lk_sent l).
Definition set_incoming (incoming : list arrival) (l : Link) : Link :=
  mkLink (lk_open l) (lk_secure l) incoming (lk_stalls l) (lk_sent l).
Definition close_socket {N} : io N unit := change (fun s => set_link (close_link (m_socket s)) s).

(** The loop of [ReadExact]: the bytes, what is left of the script, and
    whether the socket is closed on the way. A socket that is closed still
    gives what OpenSSL has decrypted, so that reading does not ask for it. *)
Fixpoint read_loop (script : list arrival) (need : Z) (got : bytes) : option bytes * list arrival * bool :=
  return_if need <=? 0 with (Some got, script, false) ;;
  match script with
  | [] => (None, [], negb (bool_decide (got = [])))
  | Silence :: rest => (None, rest, negb (bool_decide (got = [])))
  | Broken :: rest => (None, rest, true)
  | Bytes l :: rest =>
      if zlen l <=? need then read_loop rest (need - zlen l) (got ++ l)
      else (Some (got ++ take (Z.to_nat need) l), Bytes (drop (Z.to_nat need) l) :: rest, false)
  end.
Definition ReadExact {N} (length : Z) : io N (option bytes) := fun s n =>
  let link := m_socket s in
  return_if negb (lk_secure link) with (Ret None, (s, n)) ;;
  let '(result, rest, closes) := read_loop (lk_incoming link) length [] in
  let link := set_incoming rest link in
  (Ret result, (set_link (if closes : bool then close_link link else link) s, n)).
Definition write_link (l : bytes) (link : Link) : bool * Link :=
  match lk_stalls link with
  | Some k :: rest => (false, mkLink false (lk_secure link) (lk_incoming link) rest (lk_sent link ++ take k l))
  | None :: rest => (true, mkLink (lk_open link) (lk_secure link) (lk_incoming link) rest (lk_sent link ++ l))
  | [] => (true, mkLink (lk_open link) (lk_secure link) (lk_incoming link) [] (lk_sent link ++ l))
  end.
Definition WriteExact {N} (l : bytes) : io N bool := fun s n =>
  let link := m_socket s in
  return_if negb (lk_secure link) with (Ret false, (s, n)) ;;
  return_if negb (lk_open link) with (Ret false, (set_link (close_link link) s, n)) ;;
  let (ok, link) := write_link l link in
  (Ret ok, (set_link link s, n)).

(** ** Frames *)

Definition Write {N} (frame : Frame) : io N bool :=
  let? l := EncodeFrame frame else give false ;;
  WriteExact l.
Definition Read {N} : io N (option Frame) :=
  talk! _ := change (set_read READ_UNAVAILABLE) ;;
  talk! header := ReadExact HEADER_SIZE ;;
  let? header := header else give None ;;
  let? type := header_type header else (talk! _ := change (set_read READ_INVALID_FRAME) ;; give None) ;;
  let size := header_size header in
  return_if negb (AllowedFrameSize size)
    with (talk! _ := change (set_read READ_INVALID_FRAME) ;; talk! _ := close_socket ;; give None) ;;
  talk! payload := (if size =? 0 then give (Some []) else ReadExact size) ;;
  let? payload := payload else (talk! _ := close_socket ;; give None) ;;
  talk! _ := change (set_read READ_OK) ;;
  give (Some (mkFrame type payload)).
(** [Read(); frame && frame->type == type]. *)
Definition read_type {N} (type : MessageType) : io N (option bytes) :=
  talk! frame := Read ;;
  let? frame := frame else give None ;;
  give (if bool_decide (fr_type frame = type) then Some (fr_payload frame) else None).

(** [remote_endpoint] of a socket. *)
Definition remote_address (s : PeerSession) : option bytes :=
  if lk_open (m_socket s) then m_remote_endpoint s else None.
End Transport.

(** * Frames over a stream

    A reader sees the frames the writer wrote, however the stream cuts them;
    a reader never goes on in the middle of a frame it has begun, except
    behind a header it does not know; and what a session reads and writes on
    a healthy connection, as equations for the proofs about conversations. *)

Module Framing.
Import Wire.
Import Transport.

(** ** What a script delivers *)

Definition is_bytes (a : arrival) : Prop := match a with Bytes _ => True | _ => False end.
(** The bytes up to the first silence or break. *)
Fixpoint content (script : list arrival) : bytes :=
  match script with Bytes l :: rest => l ++ content rest | _ => [] end.
Definition flowing (script : list arrival) : Prop := Forall is_bytes script.

Lemma read_loop_zero script got : read_loop script 0 got = (Some got, script, false).
Proof. by destruct script as [|[]]. Qed.
Lemma read_loop_flow script need got : 0 <= need <= zlen (content script) -> flowing script ->
  exists rest, read_loop script need got = (Some (got ++ take (Z.to_nat need) (content script)), rest, false) /\
    flowing rest /\ content rest = drop (Z.to_nat need) (content script).
Proof.
  revert need got. induction script as [|a script IH]; intros need got Hn Hf.
  - cbn in Hn. replace need with 0 by (unfold zlen in Hn; cbn in Hn; lia). exists []. rewrite read_loop_zero. cbn. by rewrite app_nil_r.
  - apply Forall_cons in Hf as [Ha Hf]. destruct a as [l| |]; [|done..]. cbn [read_loop content] in *. rewrite zlen_app in Hn.
    destruct (need <=? 0) eqn:E0.
    { apply Z.leb_le in E0. replace need with 0 by lia. exists (Bytes l :: script). cbn. rewrite app_nil_r. split_and!; [done|by constructor|done]. }
    apply Z.leb_gt in E0. pose proof (zlen_nonneg l). destruct (zlen l <=? need) eqn:El.
    + apply Z.leb_le in El. destruct (IH (need - zlen l) (got ++ l)) as (rest & -> & Hr & Hc); [lia|done|]. exists rest.
      assert (Hd : Z.to_nat need = (length l + Z.to_nat (need - zlen l))%nat) by (unfold zlen in *; lia).
      rewrite Hd, take_app_add, drop_app_add, <- app_assoc. done.
    + apply Z.leb_gt in El. exists (Bytes (drop (Z.to_nat need) l) :: script).
      rewrite take_app_le, drop_app_le by (unfold zlen in *; lia). split_and!; [done|by constructor|done].
Qed.
(** The failures. *)
Lemma read_loop_none script need got rest closes : read_loop script need got = (None, rest, closes) ->
  closes = true \/ got = [] /\ content script = [] /\ closes = false.
Proof.
  revert need got. induction script as [|a script IH]; intros need got E.
  - cbn in E. destruct (need <=? 0); [done|]. injection E as <- <-. case_bool_decide as Hg; [by right|by left].
  - cbn [read_loop] in E. destruct (need <=? 0) eqn:E0; [done|]. apply Z.leb_gt in E0. destruct a as [l| |].
    + destruct (zlen l <=? need); [|done]. apply IH in E as [->|(Hg & Hc & ->)]; [by left|right]. apply app_eq_nil in Hg as [-> ->]. done.
    + injection E as <- <-. case_bool_decide as Hg; [by right|by left].
    + injection E as <- <-. by left.
Qed.
Lemma read_loop_some script need got l rest closes : 0 <= need -> read_loop script need got = (Some l, rest, closes) ->
  exists read, l = got ++ read /\ zlen read = need /\ content script = read ++ content rest /\ closes = false.
Proof.
  revert need got. induction script as [|a script IH]; intros need got Hn E; cbn [read_loop] in E.
  - destruct (need <=? 0) eqn:E0; [|done]. apply Z.leb_le in E0. injection E as <- <- <-. exists []. rewrite app_nil_r. split_and!; [done|rewrite zlen_nil; lia|done|done].
  - destruct (need <=? 0) eqn:E0.
    { apply Z.leb_le in E0. injection E as <- <- <-. exists []. rewrite app_nil_r. split_and!; [done|rewrite zlen_nil; lia|done|done]. }
    apply Z.leb_gt in E0. destruct a as [x| |]; [|done..]. destruct (zlen x <=? need) eqn:Ex.
    + apply Z.leb_le in Ex. pose proof (zlen_nonneg x). apply IH in E as (read & -> & Hz & Hc & ->); [|lia]. exists (x ++ read).
      rewrite zlen_app, <- !app_assoc. cbn [content]. rewrite Hc, <- ?app_assoc. split_and!; [done|lia|done|done].
    + apply Z.leb_gt in Ex. injection E as <- <- <-. exists (take (Z.to_nat need) x). cbn [content].
      rewrite app_assoc, take_drop. split_and!; [done| |done|done]. unfold zlen in *. rewrite length_take. lia.
Qed.

(** ** A healthy connection *)

(** [s] is a session like [s0] whose connection works, with [input] still to
    be read and [output] written so far. *)
Record at_point (s0 s : PeerSession) (input output : bytes) : Prop := {
  ap_open : lk_open (m_socket s) = true;
  ap_secure : lk_secure (m_socket s) = true;
  ap_flowing : flowing (lk_incoming (m_socket s));
  ap_input : content (lk_incoming (m_socket s)) = input;
  ap_stalls : lk_stalls (m_socket s) = [];
  ap_output : lk_sent (m_socket s) = output;
  ap_remote : m_remote_endpoint s = m_remote_endpoint s0;
  ap_exporter : m_tls_exporter s = m_tls_exporter s0;
  ap_peer : m_peer s = m_peer s0;
  ap_storage : m_peer_storage_id s = m_peer_storage_id s0;
  ap_binding : m_peer_payout_binding s = m_peer_payout_binding s0;
  ap_local : m_local s = m_local s0;
  ap_served : m_served_operations s = m_served_operations s0;
}.
Lemma at_point_base s0 s input output : at_point s0 s input output -> at_point s s input output.
Proof. intros []. by constructor. Qed.
Lemma at_point_weaken s0 s1 s input output : m_remote_endpoint s1 = m_remote_endpoint s0 -> m_tls_exporter s1 = m_tls_exporter s0 ->
  m_peer s1 = m_peer s0 -> m_peer_storage_id s1 = m_peer_storage_id s0 -> m_peer_payout_binding s1 = m_peer_payout_binding s0 ->
  m_local s1 = m_local s0 -> m_served_operations s1 = m_served_operations s0 -> at_point s1 s input output -> at_point s0 s input output.
Proof. intros E1 E2 E3 E4 E5 E6 E7 []. constructor; congruence. Qed.

Section worlds.
Context {N : Type}.
Implicit Types (n : N) (s : PeerSession).

Lemma ReadExact_at s0 s x input output n : at_point s0 s (x ++ input) output ->
  exists s', ReadExact (zlen x) s n = (Ret (Some x), (s', n)) /\ at_point s0 s' input output.
Proof.
  intros [A1 A2 A3 A4 A5 A6 A7 A8 A9 A10 A11 A12 A13]. unfold ReadExact. rewrite A2. cbn [negb].
  destruct (read_loop_flow (lk_incoming (m_socket s)) (zlen x) []) as (rest & E & Hf & Hc);
    [rewrite A4, zlen_app; pose proof (zlen_nonneg x); pose proof (zlen_nonneg input); lia|done|].
  rewrite E, A4. unfold zlen. rewrite Nat2Z.id, take_app_length. cbn [app]. eexists. split; [done|].
  constructor; cbn; try done. rewrite Hc, A4. unfold zlen. by rewrite Nat2Z.id, drop_app_length.
Qed.
Lemma Write_at s0 s input output n frame l : EncodeFrame frame = Some l -> at_point s0 s input output ->
  exists s', Write frame s n = (Ret true, (s', n)) /\ at_point s0 s' input (output ++ l).
Proof.
  intros El [A1 A2 A3 A4 A5 A6 A7 A8 A9 A10 A11 A12 A13]. unfold Write, WriteExact. rewrite El, A2, A1. cbn [negb]. unfold write_link. rewrite A5.
  eexists. split; [done|]. constructor; cbn; try done. by rewrite A6.
Qed.
Lemma set_read_at s0 s input output status : at_point s0 s input output -> at_point s0 (set_read status s) input output.
Proof. intros []. by constructor. Qed.
Lemma Read_at s0 s input output n frame l : EncodeFrame frame = Some l -> at_point s0 s (l ++ input) output ->
  exists s', Read s n = (Ret (Some frame), (s', n)) /\ at_point s0 s' input output /\ m_last_read_status s' = READ_OK.
Proof.
  intros El Hs. unfold EncodeFrame in El. destruct (negb _) eqn:Ea; [done|]. some_inj El. unfold AllowedFrameSize in Ea.
  apply negb_false_iff, Z.leb_le in Ea. pose proof (zlen_nonneg (fr_payload frame)). destruct frame as [t payload]. cbn [fr_type fr_payload] in *.
  rewrite <- app_assoc in Hs. unfold Read, bind, change.
  apply (set_read_at _ _ _ _ READ_UNAVAILABLE) in Hs.
  rewrite <- (frame_header_size t (zlen payload)). destruct (ReadExact_at _ _ _ _ _ n Hs) as (s1 & -> & H1).
  destruct (header_of t (zlen payload) []) as [E1 E2]; [lia|]. rewrite app_nil_r in E1, E2. rewrite E1, E2. cbv beta iota zeta.
  unfold AllowedFrameSize. rewrite (proj2 (Z.leb_le _ _)) by done. cbn [negb].
  destruct (zlen payload =? 0) eqn:Ez.
  - apply Z.eqb_eq in Ez. apply zlen_0 in Ez as ->. cbn. eexists. split; [done|]. split; [|done]. by apply set_read_at.
  - destruct (ReadExact_at _ _ _ _ _ n H1) as (s2 & -> & H2). cbn. eexists. split; [done|]. split; [|done]. by apply set_read_at.
Qed.
Lemma read_type_at s0 s input output n t payload l : EncodeFrame (mkFrame t payload) = Some l -> at_point s0 s (l ++ input) output ->
  exists s', read_type t s n = (Ret (Some payload), (s', n)) /\ at_point s0 s' input output.
Proof.
  intros El Hs. unfold read_type, bind. destruct (Read_at _ _ _ _ n _ _ El Hs) as (s' & -> & H' & _). exists s'. split; [|done].
  cbn. by rewrite bool_decide_true.
Qed.

(** The frames of a conversation. *)
Fixpoint encode_all (frames : list Frame) : option bytes :=
  match frames with
  | [] => Some []
  | f :: rest => let? l := EncodeFrame f else None ;; let? more := encode_all rest else None ;; Some (l ++ more)
  end.
Fixpoint write_all (frames : list Frame) : io N bool :=
  match frames with
  | [] => give true
  | f :: rest => talk! ok := Write f ;; if ok then write_all rest else give false
  end.
Fixpoint read_all (k : nat) : io N (list Frame) :=
  match k with
  | O => give []
  | S k => talk! f := Read ;; let? f := f else give [] ;; talk! rest := read_all k ;; give (f :: rest)
  end.
Lemma write_all_at frames : forall s0 s input output n l, encode_all frames = Some l -> at_point s0 s input output ->
  exists s', write_all frames s n = (Ret true, (s', n)) /\ at_point s0 s' input (output ++ l).
Proof.
  induction frames as [|f frames IH]; intros s0 s input output n l El Hs; cbn [encode_all write_all] in *.
  - injection El as <-. exists s. by rewrite app_nil_r.
  - destruct (EncodeFrame f) as [x|] eqn:Ef; [|done]. destruct (encode_all frames) as [more|]; [|done]. injection El as <-.
    unfold bind. destruct (Write_at _ _ _ _ n _ _ Ef Hs) as (s1 & -> & H1). rewrite app_assoc. by apply IH.
Qed.
Lemma read_all_at frames : forall s0 s input output n l, encode_all frames = Some l -> at_point s0 s (l ++ input) output ->
  exists s', read_all (length frames) s n = (Ret frames, (s', n)) /\ at_point s0 s' input output.
Proof.
  induction frames as [|f frames IH]; intros s0 s input output n l El Hs; cbn [encode_all read_all length] in *.
  - injection El as <-. by exists s.
  - destruct (EncodeFrame f) as [x|] eqn:Ef; [|done]. destruct (encode_all frames) as [more|] eqn:Em; [|done]. injection El as <-.
    rewrite <- app_assoc in Hs. unfold bind. destruct (Read_at _ _ _ _ n _ _ Ef Hs) as (s1 & -> & H1 & _).
    destruct (IH s0 s1 input output n more eq_refl H1) as (s2 & -> & H2). by exists s2.
Qed.
End worlds.

(** A stream of frames is read as it was written: whatever frames one side
    writes on a connection that works, and however the stream cuts what was
    written into pieces, the other side reads these frames, one by one, and
    nothing is left over. *)
Theorem frames_cross {N} (frames : list Frame) (sender receiver : PeerSession) (n : N) sent script :
  at_point sender sender [] [] -> encode_all frames = Some sent ->
  flowing script -> content script = sent -> at_point receiver receiver [] [] ->
  exists sender' receiver', write_all frames sender n = (Ret true, (sender', n)) /\ lk_sent (m_socket sender') = sent /\
    read_all (length frames) (set_link (set_incoming script (m_socket receiver)) receiver) n = (Ret frames, (receiver', n)) /\
    at_point receiver receiver' [] [].
Proof.
  intros Hs El Hf Hc Hr. destruct (write_all_at frames _ _ _ _ n _ El Hs) as (s' & E & Hs').
  destruct (read_all_at frames receiver (set_link (set_incoming script (m_socket receiver)) receiver) [] [] n _ El) as (r' & Er & Hr').
  { destruct Hr. constructor; cbn; try done. by rewrite app_nil_r. }
  exists s', r'. split_and!; [done|apply (ap_output _ _ _ _ Hs')|done|done].
Qed.

(** Where a read may leave the connection: whatever arrives, a read that
    gives no frame and leaves the connection open has taken nothing from it,
    or it has taken the nine bytes of a header with another magic number or an
    unknown type, and the next read takes what follows for a header. *)
Theorem Read_leaves {N} (s s' : PeerSession) (n : N) : lk_open (m_socket s') = true -> lk_secure (m_socket s) = true ->
  Read s n = (Ret None, (s', n)) ->
  content (lk_incoming (m_socket s)) = [] /\ m_last_read_status s' = READ_UNAVAILABLE \/
  exists header, zlen header = HEADER_SIZE /\ header_type header = None /\ m_last_read_status s' = READ_INVALID_FRAME /\
    content (lk_incoming (m_socket s)) = header ++ content (lk_incoming (m_socket s')).
Proof.
  intros Ho Hsec E. unfold Read, bind, change, ReadExact in E. cbn [m_socket set_read set_link] in E. rewrite Hsec in E. cbn [negb] in E.
  destruct (read_loop (lk_incoming (m_socket s)) HEADER_SIZE []) as [[r rest] closes] eqn:El. destruct r as [header|].
  - apply read_loop_some in El as (read & -> & Hz & Hc & ->); [|done]. cbn [app] in *. destruct (header_type read) as [t|] eqn:Et.
    + destruct (negb (AllowedFrameSize _)); [injection E as <-; cbn in Ho; done|].
      destruct (header_size read =? 0); [done|]. cbn in E. rewrite Hsec in E. cbn in E.
      destruct (read_loop rest (header_size read) []) as [[[payload|] rest'] closes]; [done|]. injection E as <-. done.
    + injection E as <-. right. exists read. by split_and!.
  - apply read_loop_none in El as [->|(_ & Hc & ->)]; injection E as <-; [done|]. by left.
Qed.
End Framing.
