(* ===== verification/Session.v ===== *)
(** * The client side of a session

    [src/src/cybou/p2p/session.cpp]: the greeting and the requests that one
    node makes of another over an open connection. The TLS handshake and the
    random challenges are OpenSSL's and are arguments; the byte counters of
    [TrafficMeter] are not modelled. The world [N] is what the callback of
    [RequestBlocks] acts on; no other function here touches it. *)

From S2P Require Import Prelude.
From S2P Require Import Bytes.
From S2P Require Import Codec.
From S2P Require Import Params.
From S2P Require Import Crypto.
From S2P Require Import Merkle.
From S2P Require Import StorageAudit.
From S2P Require Import Operation.
From S2P Require Import Block.
From S2P Require Import KVStore.
From S2P Require Import ChunkBlobs.
From S2P Require Import FinalizedChunks.
From S2P Require Import NodeRuntime.
From S2P Require Import NodeProduction.
From S2P Require Import Wire.
From S2P Require Import Transport.

Module Session.
Import Wire.
Import Transport.
Import Runtime (OperationSubmitStatus, SU_REJECTED, SU_ACCEPTED, SU_ALREADY_PENDING, SU_ALREADY_FINALIZED, SU_INVALID_PAYLOAD,
  SU_NETWORK_MISMATCH, SU_RELAY_QUEUED, SU_POA_SIGNER_UNAVAILABLE, SU_RELAY_QUEUE_FULL, OperationSubmitResult, mkSubmit, su_status,
  su_op_id, su_delivery_uncertain).
Import Production (ChunkAdmissionResult, mkAdmission, car_status, car_receipt, StorageAuditAnswer, mkAnswer, held, response_hash).

#[local] Existing Instance Runtime.OperationSubmitStatus_eq_dec.

(** ** Data *)

Definition MAX_BLOCK_BATCH : Z := 32.
Definition OP_META_SIZE : Z := 4 + 8.
Inductive BlockRequestStatus : Type := BR_OK | BR_NOT_FOUND | BR_UNAVAILABLE | BR_INVALID_RESPONSE | BR_INVALID_REQUEST.
#[export] Instance BlockRequestStatus_eq_dec : EqDecision BlockRequestStatus.
Proof. solve_decision. Defined.
Record BlockBatchResult : Type := mkBatch { bb_status : BlockRequestStatus; bb_count : Z }.
Inductive BlockAnnounceResult : Type := AN_APPLIED | AN_ALREADY_HAVE | AN_GAP.
#[export] Instance BlockAnnounceResult_eq_dec : EqDecision BlockAnnounceResult.
Proof. solve_decision. Defined.
Definition announce_code (r : BlockAnnounceResult) : Z := match r with AN_APPLIED => 0 | AN_ALREADY_HAVE => 1 | AN_GAP => 2 end.
(** The cast from a code, with the check that comes before it. *)
Definition announce_result (code : Z) : option BlockAnnounceResult :=
  List.find (fun r => announce_code r =? code) [AN_APPLIED; AN_ALREADY_HAVE; AN_GAP].
Definition submit_code (s : OperationSubmitStatus) : Z :=
  match s with
  | SU_REJECTED => 0 | SU_ACCEPTED => 1 | SU_ALREADY_PENDING => 2 | SU_ALREADY_FINALIZED => 3 | SU_INVALID_PAYLOAD => 4
  | SU_NETWORK_MISMATCH => 5 | SU_RELAY_QUEUED => 6 | SU_POA_SIGNER_UNAVAILABLE => 7 | SU_RELAY_QUEUE_FULL => 8
  end.
Definition submit_status (code : Z) : option OperationSubmitStatus :=
  List.find (fun s => submit_code s =? code) [SU_REJECTED; SU_ACCEPTED; SU_ALREADY_PENDING; SU_ALREADY_FINALIZED; SU_INVALID_PAYLOAD;
    SU_NETWORK_MISMATCH; SU_RELAY_QUEUED; SU_POA_SIGNER_UNAVAILABLE; SU_RELAY_QUEUE_FULL].
(** [OperationSubmitResult::operator bool]. *)
Definition submitted (r : OperationSubmitResult) : bool :=
  match su_status r with SU_ACCEPTED | SU_ALREADY_PENDING | SU_ALREADY_FINALIZED | SU_RELAY_QUEUED => true | _ => false end.
Definition admission_code (s : ChunkAdmissionStatus) : Z :=
  match s with
  | CA_STORED => 0 | CA_ALREADY_STORED => 1 | CA_NOT_FINALIZED => 2 | CA_INVALID => 3 | CA_NOT_AUTHORIZED => 4 | CA_CONFLICT => 5
  | CA_CAPACITY_EXCEEDED => 6 | CA_STORAGE_ERROR => 7
  end.
Definition admission_status (code : Z) : option ChunkAdmissionStatus :=
  List.find (fun s => admission_code s =? code) [CA_STORED; CA_ALREADY_STORED; CA_NOT_FINALIZED; CA_INVALID; CA_NOT_AUTHORIZED;
    CA_CONFLICT; CA_CAPACITY_EXCEEDED; CA_STORAGE_ERROR].
Record StorageUsage : Type := mkUsage { us_storage_id : arr 32; us_capacity_bytes : Z; us_stored_bytes : Z }.
Record BlockAnnouncement : Type := mkAnnouncement { ba_height : Z; ba_block_id : Hash256 }.

Section client.
Context `{CryptoOps} `{Addresses} {N : Type}.

(** ** The greeting *)

(** [EstablishSecureTransport]: [tls] is what the handshake of OpenSSL comes
    to within its deadline, with the checks of the version, the group and the
    pin: the exported key, or nothing. *)
Definition EstablishSecureTransport (tls : option (arr 32)) : io N bool := fun s n =>
  let link := m_socket s in
  return_if negb (lk_open link) || lk_secure link with (Ret false, (s, n)) ;;
  match tls with
  | Some exporter =>
      (Ret true, (set_exporter exporter
        (set_link (mkLink (lk_open link) true (lk_incoming link) (lk_stalls link) (lk_sent link)) s), n))
  | None => (Ret false, (set_link (close_link link) s, n))
  end.
Definition Handshake (local : Hello) (tls : option (arr 32)) : io N bool :=
  talk! _ := change (fun s => set_handshake INVALID_LOCAL (set_storage None None (set_peers None None s))) ;;
  return_if IsNull (h_network_binding local) || IsNull (h_finalized_tip local) || (h_nonce local =? 0) with give false ;;
  talk! _ := change (set_handshake UNAVAILABLE) ;;
  talk! secure := EstablishSecureTransport tls ;;
  return_if negb secure with give false ;;
  talk! written := Write (mkFrame HELLO (EncodeHello local)) ;;
  return_if negb written with give false ;;
  talk! frame := Read ;;
  let? frame := frame else
    (talk! _ := change (fun s => if bool_decide (m_last_read_status s = READ_INVALID_FRAME) then set_handshake INVALID_PEER s else s) ;;
     give false) ;;
  talk! _ := change (set_handshake INVALID_PEER) ;;
  return_if negb (bool_decide (fr_type frame = HELLO)) with give false ;;
  let? peer := DecodeHello (fr_payload frame) else give false ;;
  return_if h_nonce peer =? h_nonce local with give false ;;
  return_if negb (bool_decide (h_network_binding peer = h_network_binding local))
    with (talk! _ := change (set_handshake WRONG_NETWORK) ;; give false) ;;
  talk! _ := change (fun s => set_handshake CONNECTED (set_peers (Some peer) (Some local) s)) ;;
  give true.

(** ** Storage identity *)

(** [challenge] is what [RAND_bytes] gives. *)
Definition ProveStorageIdentity (challenge : option (arr 32)) : io N (option (arr 32)) :=
  talk! s := look id ;;
  match m_peer s, m_local s with
  | Some peer, Some local =>
      return_if bool_decide (is_Some (m_peer_storage_id s)) with give (m_peer_storage_id s) ;;
      let? challenge := challenge else give None ;;
      talk! written := Write (mkFrame STORAGE_PROOF_REQUEST (arr_val challenge)) ;;
      return_if negb written with give None ;;
      talk! payload := read_type STORAGE_PROOF ;;
      let? payload := payload else give None ;;
      return_if zlen payload <? STORAGE_PROOF_SIZE with give None ;;
      let message := StorageProofMessage peer local (arr_val (m_tls_exporter s)) ++ arr_val challenge in
      let storage_id := VerifyStorageProof (subspan payload 0 STORAGE_PROOF_SIZE) message in
      let binding :=
        let? proven := storage_id else None ;;
        return_if zlen payload <=? STORAGE_PROOF_SIZE with None ;;
        let? binding := DecodeStoragePayoutBinding (subspan payload STORAGE_PROOF_SIZE (zlen payload - STORAGE_PROOF_SIZE)) else None ;;
        if VerifyStoragePayoutBindingStorageKey binding (h_network_binding local) proven then Some binding else None in
      talk! _ := change (set_storage storage_id binding) ;;
      give storage_id
  | _, _ => give None
  end.
Definition RequestStorageUsage (challenge : option (arr 32)) : io N (option StorageUsage) :=
  talk! identity := ProveStorageIdentity challenge ;;
  let? identity := identity else give None ;;
  talk! written := Write (mkFrame STORAGE_USAGE_REQUEST []) ;;
  return_if negb written with give None ;;
  talk! payload := read_type STORAGE_USAGE ;;
  let? payload := payload else give None ;;
  return_if negb (zlen payload =? 16) with give None ;;
  give (Some (mkUsage identity (le_val (subspan payload 0 8)) (le_val (subspan payload 8 8)))).

(** ** Liveness *)

Definition Ping (nonce : Z) : io N bool :=
  talk! peer := look m_peer ;;
  return_if negb (bool_decide (is_Some peer)) || (nonce =? 0) with give false ;;
  let payload := le_bytes 8 nonce in
  talk! written := Write (mkFrame PING payload) ;;
  return_if negb written with give false ;;
  talk! response := Read ;;
  give (bool_decide (response = Some (mkFrame PONG payload))).
Definition AnswerPing : io N bool :=
  talk! peer := look m_peer ;;
  return_if negb (bool_decide (is_Some peer)) with give false ;;
  talk! payload := read_type PING ;;
  let? payload := payload else give false ;;
  return_if negb (zlen payload =? 8) with give false ;;
  Write (mkFrame PONG payload).

(** ** Data in pieces *)

(** The loops that send and collect the frames of one object. *)
Fixpoint send_data (fuel : nat) (type : MessageType) (l : bytes) : io N bool :=
  match fuel with
  | O => give true
  | S fuel =>
      return_if bool_decide (l = []) with give true ;;
      talk! written := Write (mkFrame type (take (Z.to_nat MAX_FRAME_PAYLOAD) l)) ;;
      return_if negb written with give false ;;
      send_data fuel type (drop (Z.to_nat MAX_FRAME_PAYLOAD) l)
  end.
Definition pieces (l : bytes) : nat := Z.to_nat (zlen l / MAX_FRAME_PAYLOAD + 1).
Definition SendData (type : MessageType) (l : bytes) : io N bool := send_data (pieces l) type l.
Fixpoint receive_data (fuel : nat) (type : MessageType) (size : Z) (got : bytes) : io N (option bytes) :=
  match fuel with
  | O => give (Some got)
  | S fuel =>
      return_if size <=? zlen got with give (Some got) ;;
      talk! payload := read_type type ;;
      let? payload := payload else give None ;;
      return_if bool_decide (payload = []) || (size - zlen got <? zlen payload) with give None ;;
      receive_data fuel type size (got ++ payload)
  end.
(** Every piece has a byte at least. *)
Definition ReceiveData (type : MessageType) (size : Z) : io N (option bytes) := receive_data (S (Z.to_nat size)) type size [].

(** ** Blocks *)

Definition SendBlock (height : Z) (l : bytes) : io N bool :=
  return_if bool_decide (l = []) || (MAX_FINALIZED_BLOCK_BYTES <? zlen l) with give false ;;
  talk! written := Write (mkFrame BLOCK_META (le_bytes 8 height ++ le_bytes 4 (zlen l))) ;;
  return_if negb written with give false ;;
  SendData BLOCK_DATA l.
(** The status of a read that gave no usable frame. *)
Definition read_failure : io N BlockRequestStatus :=
  look (fun s => match m_last_read_status s with READ_UNAVAILABLE => BR_UNAVAILABLE | _ => BR_INVALID_RESPONSE end).
(** The [for] loop; it ends by itself, at the latest when a block would be one
    too many. *)
Fixpoint request_loop (fuel : nat) (first_height max_blocks : Z) (consume : Z -> bytes -> io N bool) (count : Z) : io N BlockBatchResult :=
  match fuel with
  | O => give (mkBatch BR_INVALID_RESPONSE count)
  | S fuel =>
      talk! meta := Read ;;
      let? meta := meta else (talk! status := read_failure ;; give (mkBatch status count)) ;;
      let payload := fr_payload meta in
      return_if bool_decide (fr_type meta = BLOCKS_END) with
        give (if negb (bool_decide (payload = [bz count])) then mkBatch BR_INVALID_RESPONSE count
              else mkBatch (if count =? 0 then BR_NOT_FOUND else BR_OK) count) ;;
      return_if (max_blocks <=? count) || negb (bool_decide (fr_type meta = BLOCK_META)) || negb (zlen payload =? 12)
                || negb (le_val (subspan payload 0 8) =? first_height ⊕ count)
        with give (mkBatch BR_INVALID_RESPONSE count) ;;
      let size := le_val (subspan payload 8 4) in
      return_if (size =? 0) || (MAX_FINALIZED_BLOCK_BYTES <? size) with give (mkBatch BR_INVALID_RESPONSE count) ;;
      talk! l := ReceiveData BLOCK_DATA size ;;
      let? l := l else (talk! status := read_failure ;; give (mkBatch status count)) ;;
      talk! consumed := consume (first_height ⊕ count) l ;;
      return_if negb consumed with give (mkBatch BR_INVALID_RESPONSE count) ;;
      request_loop fuel first_height max_blocks consume (wrap8 (count + 1))
  end.
Definition bad_range (first_height blocks : Z) : bool :=
  (first_height =? 0) || (blocks =? 0) || (MAX_BLOCK_BATCH <? blocks) || (MAX64 - blocks + 1 <? first_height).
Definition RequestBlocks (first_height max_blocks : Z) (consume : Z -> bytes -> io N bool) : io N BlockBatchResult :=
  talk! peer := look m_peer ;;
  return_if negb (bool_decide (is_Some peer)) || bad_range first_height max_blocks with give (mkBatch BR_INVALID_REQUEST 0) ;;
  talk! written := Write (mkFrame GET_BLOCKS (le_bytes 8 first_height ++ [bz max_blocks])) ;;
  return_if negb written with give (mkBatch BR_UNAVAILABLE 0) ;;
  request_loop (S (Z.to_nat max_blocks)) first_height max_blocks consume 0.
End client.

Section announcing.
Context `{CryptoOps} {N : Type}.

(** The result and the height that the peer reports, which is 0 where the
    call ends before it is read. *)
Definition AdvertiseBlock (announcement : BlockAnnouncement) (block : FinalizedBlock)
    : io N (option (BlockAnnounceResult * Z)) :=
  let height := ba_height announcement in
  talk! peer := look m_peer ;;
  return_if negb (bool_decide (is_Some peer)) || (height =? 0) || IsNull (ba_block_id announcement)
            || negb (blk_height (fin_block block) =? height) with give None ;;
  talk! id := on_world (fun n => (ComputeBlockId (fin_block block), n)) ;;
  return_if negb (bool_decide (id = ba_block_id announcement)) with give None ;;
  talk! written := Write (mkFrame BLOCK_ANNOUNCE ([bz 1] ++ le_bytes 8 height ++ arr_val (ba_block_id announcement))) ;;
  return_if negb written with give None ;;
  talk! answer := Read ;;
  let? answer := answer else give None ;;
  talk! result :=
    (if bool_decide (fr_type answer = GET_BLOCKS) && bool_decide (fr_payload answer = le_bytes 8 height ++ [bz 1]) then
       talk! encoded := on_world (fun n => (SerializeFinalizedBlock block, n)) ;;
       let? encoded := encoded else give None ;;
       talk! sent := SendBlock height encoded ;;
       return_if negb sent with give None ;;
       talk! written := Write (mkFrame BLOCKS_END [bz 1]) ;;
       return_if negb written with give None ;;
       Read
     else give (if bool_decide (fr_type answer = BLOCK_RESULT) then Some answer else None)) ;;
  let? result := result else give None ;;
  let payload := fr_payload result in
  return_if negb (bool_decide (fr_type result = BLOCK_RESULT)) || negb (zlen payload =? 49)
            || negb (le_val (subspan payload 1 8) =? height)
            || negb (bool_decide (subspan payload 9 32 = arr_val (ba_block_id announcement))) with give None ;;
  let? r := announce_result (le_val (subspan payload 0 1)) else give None ;;
  give (Some (r, le_val (subspan payload 41 8))).

(** ** Operations *)

Definition SendOperation (l : bytes) (work_nonce : Z) : io N bool :=
  return_if MAX_OPERATION_PAYLOAD_BYTES <? zlen l with give false ;;
  talk! written := Write (mkFrame OP_META (le_bytes 4 (zlen l) ++ le_bytes 8 work_nonce)) ;;
  return_if negb written with give false ;;
  SendData OP_DATA l.
Definition SendOperationResult (result : OperationSubmitResult) : io N bool :=
  Write (mkFrame OP_RESULT ([bz (submit_code (su_status result))] ++ arr_val (su_op_id result))).
Definition ReadOperationResult (operation_id : Hash256) : io N (option OperationSubmitResult) :=
  talk! payload := read_type OP_RESULT ;;
  let? payload := payload else give None ;;
  return_if negb (zlen payload =? 33) || negb (bool_decide (subspan payload 1 32 = arr_val operation_id)) with give None ;;
  let? status := submit_status (le_val (subspan payload 0 1)) else give None ;;
  give (Some (mkSubmit status operation_id (bool_decide (status = SU_RELAY_QUEUE_FULL)))).
Definition SubmitOperation (operation : ProtocolOperation) (work_nonce : Z) : io N (option OperationSubmitResult) :=
  talk! peer := look m_peer ;;
  return_if negb (bool_decide (is_Some peer)) with give None ;;
  talk! l := on_world (fun n => (SerializeProtocolOperation operation, n)) ;;
  talk! operation_id := on_world (fun n => (ComputeOperationId operation, n)) ;;
  match l, operation_id with
  | Some l, Some operation_id =>
      return_if bool_decide (l = []) with give None ;;
      talk! sent := SendOperation l work_nonce ;;
      return_if negb sent with give None ;;
      ReadOperationResult operation_id
  | _, _ => give None
  end.

(** ** Peers *)

Context `{Addresses}.
Definition RequestPeers : io N (list Endpoint) :=
  talk! peer := look m_peer ;;
  return_if negb (bool_decide (is_Some peer)) with give [] ;;
  talk! written := Write (mkFrame GET_PEERS []) ;;
  return_if negb written with give [] ;;
  talk! payload := read_type PEERS ;;
  let? payload := payload else give [] ;;
  give (default [] (DecodePeersPayload payload)).
Definition SendPeers (peers : list Endpoint) : io N bool := Write (mkFrame PEERS (EncodePeersPayload peers)).

(** ** Chunks *)

Definition proof_bytes (proof : ChunkAuthorizationProof) : bytes :=
  le_bytes 4 proof.1 ++ [bz (zlen proof.2)] ++ mjoin (arr_val <$> proof.2).
Definition PutAuthorizedChunk (publication_operation_id : Hash256) (chunk_id : ChunkId) (stored_bytes : bytes)
    (proof : ChunkAuthorizationProof) : io N (option ChunkAdmissionResult) :=
  talk! peer := look m_peer ;;
  return_if negb (bool_decide (is_Some peer)) || IsNull publication_operation_id || IsNull chunk_id
            || negb (stored_size_ok (zlen stored_bytes)) || (32 <? zlen proof.2) with give None ;;
  let init := arr_val publication_operation_id ++ arr_val chunk_id ++ proof_bytes proof ++ le_bytes 4 (zlen stored_bytes) in
  talk! written := Write (mkFrame PUT_AUTHORIZED_CHUNK init) ;;
  return_if negb written with give None ;;
  talk! sent := SendData AUTHORIZED_CHUNK_DATA stored_bytes ;;
  return_if negb sent with give None ;;
  talk! payload := read_type CHUNK_ADMISSION_RESULT ;;
  let? payload := payload else give None ;;
  return_if bool_decide (payload = []) with give None ;;
  let? status := admission_status (le_val (subspan payload 0 1)) else give None ;;
  return_if negb (admitted status) with give (if zlen payload =? 1 then Some (mkAdmission status []) else None) ;;
  let receipt := drop 1 payload in
  talk! s := look id ;;
  match m_local s, m_peer_storage_id s with
  | Some local, Some storage_id =>
      let signer := VerifyStorageReceipt receipt (h_network_binding local) publication_operation_id chunk_id (zlen stored_bytes) in
      give (if bool_decide (signer = Some storage_id) then Some (mkAdmission status receipt) else None)
  | _, _ => give None
  end.
(** The end of a session that may still have an answer under way. *)
Definition unavailable {A} : io N (option A) :=
  talk! _ := change (fun s => set_storage None (m_peer_payout_binding s) (set_peers None (m_local s) s)) ;; give None.
Definition GetChunkById (chunk_id : ChunkId) : io N (option bytes) :=
  talk! peer := look m_peer ;;
  return_if negb (bool_decide (is_Some peer)) || IsNull chunk_id with give None ;;
  talk! written := Write (mkFrame GET_CHUNK_BY_ID (arr_val chunk_id)) ;;
  return_if negb written with unavailable ;;
  talk! meta := read_type CHUNK_ADMISSION_RESULT ;;
  let? meta := meta else unavailable ;;
  return_if negb (zlen meta =? 5) || (1 <? le_val (subspan meta 0 1)) with unavailable ;;
  let size := le_val (subspan meta 1 4) in
  return_if le_val (subspan meta 0 1) =? 0 with (if size =? 0 then give None else unavailable) ;;
  return_if negb (stored_size_ok size) with unavailable ;;
  talk! l := ReceiveData CHUNK_DATA size ;;
  let? l := l else unavailable ;;
  return_if negb (bool_decide (ComputeChunkId l = chunk_id)) with unavailable ;;
  give (Some l).
Definition GetChunkAuthorizationProof (publication_operation_id : Hash256) (chunk_id : ChunkId) : io N (option ChunkAuthorizationProof) :=
  talk! peer := look m_peer ;;
  return_if negb (bool_decide (is_Some peer)) || IsNull publication_operation_id || IsNull chunk_id with give None ;;
  talk! written := Write (mkFrame GET_CHUNK_AUTHORIZATION_PROOF (arr_val publication_operation_id ++ arr_val chunk_id)) ;;
  return_if negb written with unavailable ;;
  talk! payload := read_type CHUNK_AUTHORIZATION_PROOF ;;
  let? payload := payload else unavailable ;;
  return_if bool_decide (payload = []) with unavailable ;;
  let has := le_val (subspan payload 0 1) in
  return_if has =? 0 with (if zlen payload =? 1 then give None else unavailable) ;;
  return_if negb (has =? 1) || (zlen payload <? 6) with unavailable ;;
  let sibling_count := le_val (subspan payload 5 1) in
  return_if (32 <? sibling_count) || negb (zlen payload =? 6 + sibling_count * 32) with unavailable ;;
  give (Some (le_val (subspan payload 1 4), read_siblings (Z.to_nat sibling_count) (drop 6 payload))).
Definition AuditChunk (challenge : StorageAuditChallenge) : io N (option StorageAuditAnswer) :=
  talk! peer := look m_peer ;;
  return_if negb (bool_decide (is_Some peer)) || IsNull (ch_chunk_id challenge) with give None ;;
  let payload := arr_val (ch_chunk_id challenge) ++ le_bytes 8 (ch_byte_offset challenge) ++ arr_val (ch_nonce challenge) in
  talk! written := Write (mkFrame STORAGE_AUDIT_CHALLENGE payload) ;;
  return_if negb written with unavailable ;;
  talk! payload := read_type STORAGE_AUDIT_RESPONSE ;;
  let? payload := payload else unavailable ;;
  return_if bool_decide (payload = []) with unavailable ;;
  let has := le_val (subspan payload 0 1) in
  return_if has =? 0 with (if zlen payload =? 1 then give (Some (mkAnswer false ZERO)) else unavailable) ;;
  return_if negb (has =? 1) || negb (zlen payload =? 33) with unavailable ;;
  give (Some (mkAnswer true (arr_of 32 (subspan payload 1 32)))).
End announcing.
End Session.

(** * Conversations

    What a request brings from a peer that answers anything at all, and what
    it brings from a node that runs this code: the two sides of a
    conversation composed, over connections that work. *)

Module Conversations.
Import Wire.
Import Transport.
Import Framing.
Import Session.

(** ** Frames as bytes *)

Definition frame_bytes (f : Frame) : bytes := frame_header (fr_type f) (zlen (fr_payload f)) ++ fr_payload f.
Definition fits (f : Frame) : Prop := zlen (fr_payload f) <= MAX_FRAME_PAYLOAD.
Definition stream (frames : list Frame) : bytes := mjoin (frame_bytes <$> frames).
Lemma EncodeFrame_fits f : fits f -> EncodeFrame f = Some (frame_bytes f).
Proof. unfold fits, EncodeFrame, AllowedFrameSize. intros Hf. by rewrite (proj2 (Z.leb_le _ _)). Qed.
Lemma encode_all_fits frames : Forall fits frames -> encode_all frames = Some (stream frames).
Proof. induction 1 as [|f frames Hf _ IH]; [done|]. cbn [encode_all]. by rewrite EncodeFrame_fits, IH. Qed.
Lemma stream_app a b : stream (a ++ b) = stream a ++ stream b.
Proof.
  induction a as [|f a IH]; [done|]. change (frame_bytes f ++ stream (a ++ b) = (frame_bytes f ++ stream a) ++ stream b).
  by rewrite IH, app_assoc.
Qed.
Lemma stream_cons f frames : stream (f :: frames) = frame_bytes f ++ stream frames.
Proof. done. Qed.
Lemma stream_one f : stream [f] = frame_bytes f.
Proof. unfold stream. cbn. by rewrite app_nil_r. Qed.

(** An object in pieces. *)
Fixpoint data_frames (fuel : nat) (type : MessageType) (l : bytes) : list Frame :=
  match fuel with
  | O => []
  | S fuel => if bool_decide (l = []) then []
              else mkFrame type (take (Z.to_nat MAX_FRAME_PAYLOAD) l) :: data_frames fuel type (drop (Z.to_nat MAX_FRAME_PAYLOAD) l)
  end.
Definition DataFrames (type : MessageType) (l : bytes) : list Frame := data_frames (pieces l) type l.
Lemma data_frames_fit fuel type l : Forall fits (data_frames fuel type l).
Proof.
  revert l. induction fuel as [|fuel IH]; intros l; cbn [data_frames]; [constructor|]. case_bool_decide; constructor; [|apply IH].
  unfold fits, zlen, MAX_FRAME_PAYLOAD. cbn [fr_payload]. rewrite length_take. lia.
Qed.

Section client.
Context {N : Type}.
Implicit Types (n : N) (s : PeerSession).

Lemma write_at s0 s input output n f : fits f -> at_point s0 s input output ->
  exists s', Write f s n = (Ret true, (s', n)) /\ at_point s0 s' input (output ++ frame_bytes f).
Proof. intros Hf. by apply Write_at, EncodeFrame_fits. Qed.
Lemma read_at s0 s input output n f : fits f -> at_point s0 s (frame_bytes f ++ input) output ->
  exists s', Read s n = (Ret (Some f), (s', n)) /\ at_point s0 s' input output.
Proof.
  intros Hf Hs. destruct (Read_at s0 s input output n f _ (EncodeFrame_fits _ Hf) Hs) as (s' & E & H & _). by exists s'.
Qed.
Lemma read_of_type_at s0 s input output n t payload : fits (mkFrame t payload) -> at_point s0 s (frame_bytes (mkFrame t payload) ++ input) output ->
  exists s', read_type t s n = (Ret (Some payload), (s', n)) /\ at_point s0 s' input output.
Proof. intros Hf. apply read_type_at, EncodeFrame_fits, Hf. Qed.
Lemma send_data_write_all fuel type l s n : send_data fuel type l s n = write_all (data_frames fuel type l) s n.
Proof.
  revert l s n. induction fuel as [|fuel IH]; intros l s n; cbn [send_data data_frames]; [done|]. case_bool_decide; [done|].
  cbn [write_all]. unfold bind. destruct (Write _ s n) as [[[]|] [s1 n1]]; cbn; [apply IH|done|done].
Qed.
Lemma SendData_at s0 s input output n type l : at_point s0 s input output ->
  exists s', SendData type l s n = (Ret true, (s', n)) /\ at_point s0 s' input (output ++ stream (DataFrames type l)).
Proof.
  intros Hs. unfold SendData. rewrite send_data_write_all.
  apply (write_all_at (data_frames (pieces l) type l) s0 s input output n); [|done]. apply encode_all_fits, data_frames_fit.
Qed.
Lemma receive_data_at fuel' : forall fuel type l got s0 s input output n, (length l < fuel)%nat -> (length l <= fuel' * Z.to_nat MAX_FRAME_PAYLOAD)%nat ->
  at_point s0 s (stream (data_frames fuel' type l) ++ input) output ->
  exists s', receive_data fuel type (zlen got + zlen l) got s n = (Ret (Some (got ++ l)), (s', n)) /\ at_point s0 s' input output.
Proof.
  induction fuel' as [|fuel' IH]; intros fuel type l got s0 s input output n Hf Hf' Hs.
  - destruct l; [|cbn in Hf'; lia]. destruct fuel as [|fuel]; [cbn in Hf; lia|]. exists s. cbn [receive_data].
    rewrite (proj2 (Z.leb_le _ _)) by (rewrite zlen_nil; lia). rewrite app_nil_r. done.
  - destruct fuel as [|fuel]; [lia|]. cbn [receive_data data_frames] in *. case_bool_decide as Hl.
    { subst l. exists s. rewrite (proj2 (Z.leb_le _ _)) by (rewrite zlen_nil; lia). by rewrite app_nil_r. }
    set (k := Z.to_nat MAX_FRAME_PAYLOAD) in *. assert (Hk : (0 < k)%nat) by (unfold k, MAX_FRAME_PAYLOAD; lia).
    assert (Hpos : (0 < length l)%nat) by (destruct l; [done|cbn; lia]).
    rewrite (proj2 (Z.leb_gt _ _)) by (unfold zlen; lia). rewrite stream_cons, <- app_assoc in Hs. unfold bind.
    destruct (read_of_type_at s0 s (stream (data_frames fuel' type (drop k l)) ++ input) output n type (take k l)) as (s1 & E & H1); [|done|].
    { pose proof (data_frames_fit 1 type l) as Hfit. cbn [data_frames] in Hfit. rewrite bool_decide_false in Hfit by done. by apply Forall_inv in Hfit. }
    rewrite E. assert (Ht : take k l <> []) by (intros Ht; apply (f_equal length) in Ht; rewrite length_take in Ht; cbn in Ht; lia).
    assert (Hz : zlen l = zlen (take k l) + zlen (drop k l)) by (rewrite <- zlen_app; by rewrite take_drop).
    pose proof (zlen_nonneg (drop k l)). rewrite bool_decide_false by done. rewrite (proj2 (Z.ltb_ge _ _)) by lia. cbn [orb].
    destruct (IH fuel type (drop k l) (got ++ take k l) s0 s1 input output n) as (s2 & E2 & H2); [rewrite length_drop; lia|rewrite length_drop; lia|done|].
    exists s2. split; [|done]. rewrite zlen_app, <- app_assoc, take_drop in E2. by rewrite Hz, Z.add_assoc.
Qed.
Lemma ReceiveData_at s0 s input output n type l : at_point s0 s (stream (DataFrames type l) ++ input) output ->
  exists s', ReceiveData type (zlen l) s n = (Ret (Some l), (s', n)) /\ at_point s0 s' input output.
Proof.
  intros Hs. unfold ReceiveData. apply (receive_data_at (pieces l) _ type l []); [unfold zlen; lia| |done].
  unfold pieces, MAX_FRAME_PAYLOAD. unfold zlen. pose proof (Z.div_mod (Z.of_nat (length l)) (64 * 1024)). 
  pose proof (Z.mod_pos_bound (Z.of_nat (length l)) (64 * 1024)). pose proof (Z.div_pos (Z.of_nat (length l)) (64 * 1024)). lia.
Qed.

(** ** Batches of blocks *)

Definition sendable (l : bytes) : Prop := 0 < zlen l <= MAX_FINALIZED_BLOCK_BYTES.
Definition meta_frame (height : Z) (l : bytes) : Frame := mkFrame BLOCK_META (le_bytes 8 height ++ le_bytes 4 (zlen l)).
Definition block_frames (height : Z) (l : bytes) : list Frame := meta_frame height l :: DataFrames BLOCK_DATA l.
Fixpoint batch_frames (height : Z) (blocks : list bytes) : list Frame :=
  match blocks with [] => [] | l :: rest => block_frames height l ++ batch_frames (height + 1) rest end.
Definition end_frame (count : Z) : Frame := mkFrame BLOCKS_END [bz count].
Definition request_frame (first_height max_blocks : Z) : Frame := mkFrame GET_BLOCKS (le_bytes 8 first_height ++ [bz max_blocks]).
(** The whole answer to a request. *)
Definition reply (first_height : Z) (blocks : list bytes) : bytes :=
  stream (batch_frames first_height blocks) ++ frame_bytes (end_frame (zlen blocks)).

Lemma meta_frame_fits height l : fits (meta_frame height l).
Proof. unfold fits, meta_frame, MAX_FRAME_PAYLOAD. cbn [fr_payload]. len. Qed.
Lemma small_fits t payload : zlen payload <= 1024 -> fits (mkFrame t payload).
Proof. unfold fits, MAX_FRAME_PAYLOAD. cbn [fr_payload]. lia. Qed.
Lemma end_frame_fits count : fits (end_frame count).
Proof. by apply small_fits. Qed.
Lemma request_frame_fits height blocks : fits (request_frame height blocks).
Proof. apply small_fits. len. Qed.
Lemma SendBlock_at s0 s input output n height l : sendable l -> at_point s0 s input output ->
  exists s', SendBlock height l s n = (Ret true, (s', n)) /\ at_point s0 s' input (output ++ stream (block_frames height l)).
Proof.
  intros [Hl1 Hl2] Hs. unfold SendBlock. rewrite bool_decide_false by (intros ->; done).
  rewrite (proj2 (Z.ltb_ge _ _)) by done. cbn [orb]. unfold bind.
  destruct (write_at s0 s input output n (meta_frame height l) (meta_frame_fits height l) Hs) as (s1 & E1 & H1). unfold meta_frame in E1. rewrite E1.
  cbn [negb]. destruct (SendData_at _ _ _ _ n BLOCK_DATA l H1) as (s2 & -> & H2). exists s2. split; [done|].
  unfold block_frames. by rewrite stream_cons, app_assoc.
Qed.

(** The callback takes the blocks one after the other and looks at nothing of
    the session that reading changes. *)
Inductive consumes (consume : Z -> bytes -> io N bool) (s0 : PeerSession) : Z -> list bytes -> N -> N -> Prop :=
| consumes_end height n : consumes consume s0 height [] n n
| consumes_block height l rest n n1 n2 :
    (forall s input output, at_point s0 s input output -> consume height l s n = (Ret true, (s, n1))) ->
    consumes consume s0 (height + 1) rest n1 n2 -> consumes consume s0 height (l :: rest) n n2.

Lemma request_loop_at consume s0 first_height max_blocks blocks : forall fuel count s input output n n',
  consumes consume s0 (first_height + count) blocks n n' -> Forall sendable blocks -> (length blocks < fuel)%nat ->
  0 <= count -> count + zlen blocks <= max_blocks -> max_blocks <= MAX_BLOCK_BATCH -> 0 < first_height ->
  first_height + max_blocks - 1 <= MAX64 ->
  at_point s0 s (stream (batch_frames (first_height + count) blocks) ++ frame_bytes (end_frame (count + zlen blocks)) ++ input) output ->
  exists s', request_loop fuel first_height max_blocks consume count s n =
      (Ret (mkBatch (if count + zlen blocks =? 0 then BR_NOT_FOUND else BR_OK) (count + zlen blocks)), (s', n')) /\
    at_point s0 s' input output.
Proof.
  induction blocks as [|l blocks IH]; intros fuel count s input output n n' Hc Hs Hf H0 H1 H2 H3 H4 Hat; (destruct fuel as [|fuel]; [lia|]);
    cbn [request_loop]; unfold MAX_BLOCK_BATCH in *.
  - inversion Hc as [h n1|]; subst. rewrite zlen_nil, Z.add_0_r in *. cbn [batch_frames] in Hat. unfold bind.
    destruct (read_at _ _ _ _ n' (end_frame count) (end_frame_fits _) Hat) as (s1 & -> & A1). cbn [fr_type fr_payload end_frame].
    rewrite bool_decide_true, bool_decide_true by done. cbn [negb]. by exists s1.
  - inversion Hc as [|h l' rest m n1 n2 Hl Hrest]; subst. apply Forall_cons in Hs as [Hl' Hs]. rewrite zlen_cons in *.
    pose proof (zlen_nonneg blocks). cbn [batch_frames] in Hat. rewrite stream_app in Hat. unfold block_frames in Hat.
    rewrite stream_cons, <- !app_assoc in Hat. unfold bind at 1.
    destruct (read_at _ _ _ _ n (meta_frame (first_height + count) l) (meta_frame_fits _ _) Hat) as (s1 & -> & A1). cbn [fr_type fr_payload meta_frame].
    rewrite bool_decide_false by done. rewrite (proj2 (Z.leb_gt _ _)) by lia. rewrite bool_decide_true by done.
    assert (Hz : zlen (le_bytes 8 (first_height + count) ++ le_bytes 4 (zlen l)) = 12) by len. rewrite Hz. cbn [negb orb Z.eqb Pos.eqb].
    assert (E1 : subspan (le_bytes 8 (first_height + count) ++ le_bytes 4 (zlen l)) 0 8 = le_bytes 8 (first_height + count)) by (by cut).
    assert (E2 : subspan (le_bytes 8 (first_height + count) ++ le_bytes 4 (zlen l)) 8 4 = le_bytes 4 (zlen l)) by (by cut).
    destruct Hl' as [Hl1 Hl2]. unfold MAX_FINALIZED_BLOCK_BYTES in *.
    rewrite E1, E2, le_val_u64, le_val_u32, add64_small, Z.eqb_refl by ulia. cbn [negb].
    rewrite (proj2 (Z.eqb_neq _ _)), (proj2 (Z.ltb_ge _ _)) by lia. cbn [orb]. unfold bind at 1.
    destruct (ReceiveData_at _ _ _ _ n BLOCK_DATA l A1) as (s2 & -> & A2). unfold bind at 1.
    rewrite (Hl _ _ _ A2). cbn [negb]. unfold wrap8. rewrite Z.mod_small by lia.
    rewrite <- Z.add_assoc in Hrest, A2. replace (count + (1 + zlen blocks)) with (count + 1 + zlen blocks) in * by lia.
    cbn [length] in Hf. by apply IH; [|done|lia|lia|lia|lia|lia|lia|].
Qed.
Lemma bad_range_inv first_height blocks : 0 <= first_height -> bad_range first_height blocks = false -> 0 <= blocks ->
  0 < first_height /\ 0 < blocks <= MAX_BLOCK_BATCH /\ first_height + blocks - 1 <= MAX64.
Proof. unfold bad_range, MAX_BLOCK_BATCH. intros H0 E H1. guards. lia. Qed.
(** The client's side of a batch: what it writes and what it makes of the
    answer. *)
Lemma RequestBlocks_at consume s0 first_height max_blocks blocks s input output n n' : m_peer s0 <> None -> 0 <= first_height -> 0 <= max_blocks ->
  bad_range first_height max_blocks = false -> Forall sendable blocks -> zlen blocks <= max_blocks ->
  consumes consume s0 first_height blocks n n' -> at_point s0 s (reply first_height blocks ++ input) output ->
  exists s', RequestBlocks first_height max_blocks consume s n =
      (Ret (mkBatch (if zlen blocks =? 0 then BR_NOT_FOUND else BR_OK) (zlen blocks)), (s', n')) /\
    at_point s0 s' input (output ++ frame_bytes (request_frame first_height max_blocks)).
Proof.
  intros Hp Hf0 Hb0 Hr Hs Hz Hc Hat. pose proof Hr as (H1 & H2 & H3)%bad_range_inv; [|done..]. unfold RequestBlocks, look. unfold bind at 1.
  pose proof (ap_peer _ _ _ _ Hat) as Ep. rewrite Ep, Hr. rewrite bool_decide_true by (destruct (m_peer s0); [by eexists|done]). cbn [negb orb].
  unfold bind at 1.
  destruct (write_at _ _ _ _ n (request_frame first_height max_blocks) (request_frame_fits _ _) Hat) as (s1 & E1 & A1).
  unfold request_frame in E1. rewrite E1. cbn [negb].
  destruct (request_loop_at consume s0 first_height max_blocks blocks (S (Z.to_nat max_blocks)) 0 s1 input (output ++ frame_bytes (request_frame first_height max_blocks)) n n') as (s2 & E2 & A2);
    [by rewrite Z.add_0_r|done|unfold zlen in *; lia|lia|lia|lia|lia|lia| |].
  { rewrite Z.add_0_r, Z.add_0_l. unfold reply in A1. rewrite <- app_assoc in A1. exact A1. }
  rewrite Z.add_0_l in E2. by exists s2.
Qed.
End client.

(** ** Peers that answer anything *)

Section safety.
Context {N : Type}.
Implicit Types (n : N) (s : PeerSession).

Lemma bind_Ret {A B} (m : io N A) (k : A -> io N B) s n b x : bind m k s n = (Ret b, x) ->
  exists a s1 n1, m s n = (Ret a, (s1, n1)) /\ k a s1 n1 = (Ret b, x).
Proof. unfold bind. destruct (m s n) as [[a|] [s1 n1]]; [|done]. intros E. by exists a, s1, n1. Qed.
(** Programs that only talk. *)
Definition talks {A} (m : io N A) : Prop := forall s n, (m s n).2.2 = n.
Lemma talks_bind {A B} (m : io N A) (k : A -> io N B) : talks m -> (forall a, talks (k a)) -> talks (bind m k).
Proof. intros Hm Hk s n. unfold bind. specialize (Hm s n). destruct (m s n) as [[a|] [s1 n1]]; cbn in *; subst; [apply Hk|done]. Qed.
Lemma talks_give {A} (a : A) : talks (give a).
Proof. done. Qed.
Lemma talks_look {A} (f : PeerSession -> A) : talks (look f).
Proof. done. Qed.
Lemma talks_change f : talks (change f).
Proof. done. Qed.
Lemma talks_ReadExact k : talks (ReadExact k).
Proof. intros s n. unfold ReadExact. destruct (negb _); [done|]. by destruct (read_loop _ _ _) as [[r rest] closes]. Qed.
Lemma talks_Write f : talks (Write f).
Proof.
  intros s n. unfold Write, WriteExact. destruct (EncodeFrame f); [|done]. do 2 (destruct (negb _); [done|]). by destruct (write_link _ _).
Qed.
Create HintDb talks discriminated.
#[local] Hint Resolve talks_give talks_look talks_change talks_ReadExact talks_Write : talks.
Ltac talking :=
  repeat first
    [ solve [auto with talks nocore]
    | progress intros
    | apply talks_bind
    | lazymatch goal with
      | |- talks (if ?b then _ else _) => destruct b
      | |- talks (match ?x with _ => _ end) => destruct x
      end ].
Lemma talks_Read : talks Read.
Proof. unfold Read, close_socket. talking. Qed.
#[local] Hint Resolve talks_Read : talks.
Lemma talks_read_type t : talks (read_type t).
Proof. unfold read_type. talking. Qed.
#[local] Hint Resolve talks_read_type : talks.
Lemma talks_receive_data fuel type size got : talks (receive_data fuel type size got).
Proof.
  revert got. induction fuel as [|fuel IH]; intros got; cbn [receive_data]; [done|]. talking.
Qed.
Lemma talks_eq {A} (m : io N A) s n r s' n' : talks m -> m s n = (r, (s', n')) -> n' = n.
Proof. intros Hm E. specialize (Hm s n). by rewrite E in Hm. Qed.
Lemma talks_ReceiveData type size : talks (ReceiveData type size).
Proof. apply talks_receive_data. Qed.
Lemma talks_send_data fuel type l : talks (send_data fuel type l).
Proof. revert l. induction fuel as [|fuel IH]; intros l; cbn [send_data]; [done|]. talking. Qed.
Lemma talks_SendData type l : talks (SendData type l).
Proof. apply talks_send_data. Qed.
Lemma receive_data_size fuel type size : forall got s n l x, size - zlen got < Z.of_nat fuel -> zlen got <= size ->
  receive_data fuel type size got s n = (Ret (Some l), x) -> zlen l = size.
Proof.
  induction fuel as [|fuel IH]; intros got s n l x Hf Hg E; cbn [receive_data] in E; [cbn in Hf; lia|].
  destruct (size <=? zlen got) eqn:Es; [injection E as <- <-; apply Z.leb_le in Es; lia|]. apply Z.leb_gt in Es.
  apply bind_Ret in E as (payload & s1 & n1 & _ & E). destruct payload as [payload|]; [|done]. destruct (_ || _) eqn:Eb; [done|].
  apply orb_false_iff in Eb as [Eb1%bool_decide_eq_false Eb2%Z.ltb_ge].
  assert (0 < zlen payload) by (destruct payload; [done|rewrite zlen_cons; pose proof (zlen_nonneg payload); lia]).
  apply IH in E; rewrite ?zlen_app; [done|lia|lia].
Qed.

(** What has arrived and is not read yet. *)
Definition unread (s : PeerSession) : bytes := content (lk_incoming (m_socket s)).
Lemma ReadExact_took k s n l s' n' : 0 <= k -> ReadExact k s n = (Ret (Some l), (s', n')) ->
  zlen l = k /\ unread s = l ++ unread s' /\ n' = n.
Proof.
  intros Hk E. unfold ReadExact in E. destruct (negb _); [done|]. destruct (read_loop _ _ _) as [[x rest] closes] eqn:El.
  injection E as -> <- <-. apply read_loop_some in El as (read & -> & Hz & Hc & ->); [|done]. unfold unread. cbn. by rewrite Hc.
Qed.
(** A frame that is read is the next frame of what has arrived. *)
Lemma Read_took s n f s' n' : Read s n = (Ret (Some f), (s', n')) -> unread s = frame_bytes f ++ unread s' /\ n' = n.
Proof.
  intros E. unfold Read in E. apply bind_Ret in E as (? & s1 & n1 & [= _ <- <-] & E).
  apply bind_Ret in E as (header & s2 & n2 & Eh & E). destruct header as [header|]; [|done].
  apply ReadExact_took in Eh as (Hz & Hu & ->); [|done]. change (unread (set_read _ s)) with (unread s) in Hu.
  destruct (header_type header) as [t|] eqn:Et; [|done]. cbv zeta in E. destruct (negb _) eqn:Ea; [done|].
  apply bind_Ret in E as (payload & s3 & n3 & Ep & E). destruct payload as [payload|]; [|done].
  injection E as <- <- <-. change (unread (set_read _ s3)) with (unread s3).
  pose proof (header_size_range header ltac:(lia)) as Hs.
  assert (Hp : zlen payload = header_size header /\ unread s2 = payload ++ unread s3 /\ n3 = n).
  { destruct (header_size header =? 0) eqn:E0; [injection Ep as <- <- <-; by apply Z.eqb_eq in E0|]. apply ReadExact_took in Ep; [done|ulia]. }
  destruct Hp as (Hp & Hu' & ->). split; [|done]. rewrite Hu, Hu'. unfold frame_bytes. cbn [fr_type fr_payload].
  rewrite Hp, <- (header_type_inv header t) by (done || lia). rewrite subspan_whole by (done || lia). by rewrite app_assoc.
Qed.
Lemma receive_data_took fuel type size : forall got s n l s' n', receive_data fuel type size got s n = (Ret (Some l), (s', n')) ->
  exists data, Forall (fun f => fr_type f = type) data /\ l = got ++ mjoin (fr_payload <$> data) /\ unread s = stream data ++ unread s' /\ n' = n.
Proof.
  induction fuel as [|fuel IH]; intros got s n l s' n' E; cbn [receive_data] in E.
  { injection E as <- <- <-. exists []. by rewrite app_nil_r. }
  destruct (size <=? zlen got); [injection E as <- <- <-; exists []; by rewrite app_nil_r|].
  apply bind_Ret in E as (payload & s1 & n1 & Ep & E). destruct payload as [payload|]; [|done]. destruct (_ || _); [done|].
  unfold read_type in Ep. apply bind_Ret in Ep as (f & s2 & n2 & Ef & Ep). destruct f as [f|]; [|done]. case_bool_decide as Ht; [|done].
  injection Ep as <- <- <-. apply Read_took in Ef as [Hu ->]. apply IH in E as (data & H1 & -> & H2 & ->). exists (f :: data).
  split_and!; [by constructor| |by rewrite stream_cons, <- app_assoc, <- H2|done]. rewrite fmap_cons, mjoin_cons. by rewrite <- app_assoc.
Qed.

(** The callback with a record of its calls. *)
Definition logged (consume : Z -> bytes -> io N bool) (height : Z) (l : bytes) : io (N * list (Z * bytes * bool)) bool := fun s x =>
  let '(r, (s, w)) := consume height l s x.1 in
  (r, (s, (w, x.2 ++ [(height, l, match r with Ret b => b | Throw => false end)]))).
End safety.

(** ** Programs that move the world along a relation *)

Section along.
Context {N : Type} (R : relation N) {HR : PreOrder R}.
#[local] Set Default Proof Using "Type HR".

Definition along {A} (m : io N A) : Prop := forall s n, R n (m s n).2.2.
Lemma along_talks {A} (m : io N A) : talks m -> along m.
Proof. intros Hm s n. by rewrite (Hm s n). Qed.
Lemma along_bind {A B} (m : io N A) (k : A -> io N B) : along m -> (forall a, along (k a)) -> along (bind m k).
Proof.
  intros Hm Hk s n. unfold bind. specialize (Hm s n). destruct (m s n) as [[a|] [s1 n1]]; [|done]. cbn in Hm. etrans; [done|apply Hk].
Qed.
(** With what the first program says of its result. *)
Lemma along_bind_with {A B} (Q : A -> Prop) (m : io N A) (k : A -> io N B) : along m -> (forall s n a, (m s n).1 = Ret a -> Q a) ->
  (forall a, Q a -> along (k a)) -> along (bind m k).
Proof.
  intros Hm Hq Hk s n. unfold bind. specialize (Hm s n). specialize (Hq s n). destruct (m s n) as [[a|] [s1 n1]]; [|done]. cbn in *.
  etrans; [done|]. apply Hk. by apply Hq.
Qed.
Lemma along_request_loop first_height max_blocks consume : (forall height l, zlen l <= MAX_FINALIZED_BLOCK_BYTES -> along (consume height l)) ->
  forall fuel count, along (request_loop fuel first_height max_blocks consume count).
Proof.
  intros Hc. induction fuel as [|fuel IH]; intros count; cbn [request_loop]; [by apply along_talks|].
  apply along_bind; [apply along_talks, talks_Read|]. intros [meta|]; [|by apply along_talks, talks_bind].
  destruct (bool_decide _); [by apply along_talks|]. destruct (_ || _); [by apply along_talks|]. destruct (_ || _) eqn:Esize; [by apply along_talks|].
  apply orb_false_iff in Esize as [_ E3%Z.ltb_ge]. set (size := le_val _) in *.
  apply (along_bind_with (fun l => forall x, l = Some x -> zlen x = size)).
  - apply along_talks, talks_receive_data.
  - intros s n a E x ->. unfold ReceiveData in E. destruct (receive_data _ _ _ _ s n) as [r y] eqn:El. cbn in E. subst r.
    assert (0 <= size) by apply le_val_range. by apply receive_data_size in El; [|rewrite zlen_nil; lia..].
  - intros [l|] Hl; [|by apply along_talks, talks_bind]. apply along_bind; [apply Hc; by rewrite (Hl l eq_refl)|].
    intros []; cbn [negb]; [apply IH|by apply along_talks].
Qed.
Lemma along_RequestBlocks first_height max_blocks consume : (forall height l, zlen l <= MAX_FINALIZED_BLOCK_BYTES -> along (consume height l)) ->
  along (RequestBlocks first_height max_blocks consume).
Proof.
  intros Hc. unfold RequestBlocks. apply along_bind; [by apply along_talks|]. intros peer. destruct (_ || _); [by apply along_talks|].
  apply along_bind; [apply along_talks, talks_Write|]. intros []; cbn [negb]; [by apply along_request_loop|by apply along_talks].
Qed.
End along.

Section batches.
Context {N : Type} (consume : Z -> bytes -> io N bool).
Abbreviation log := (list (Z * bytes * bool)).

(** What a batch that starts at [count] may do. *)
Definition batch_log (first_height max_blocks count : Z) (calls : log) (r : outcome BlockBatchResult) : Prop :=
  (fst <$> (fst <$> calls)) = seqZ (first_height + count) (zlen calls) /\ count + zlen calls <= max_blocks /\
  Forall sendable (snd <$> (fst <$> calls)) /\ Forall (fun c => c.2 = true) (removelast calls) /\
  forall b, r = Ret b -> match bb_status b with
    | BR_OK => bb_count b = count + zlen calls /\ 0 < bb_count b /\ Forall (fun c => c.2 = true) calls
    | BR_NOT_FOUND => count = 0 /\ calls = []
    | _ => True
    end.
Lemma batch_log_none first_height max_blocks count r : count <= max_blocks ->
  (forall b, r = Ret b -> bb_status b = BR_OK -> bb_count b = count /\ 0 < count) -> (forall b, r = Ret b -> bb_status b = BR_NOT_FOUND -> count = 0) ->
  batch_log first_height max_blocks count [] r.
Proof using.
  intros Hm Ho Hn. split_and!; [done|rewrite zlen_nil; lia|constructor|constructor|]. intros b Eb. destruct (bb_status b) eqn:Es; [|by split; [eapply Hn|]|done..].
  destruct (Ho b Eb Es). rewrite zlen_nil. split_and!; [lia|lia|constructor].
Qed.
Lemma request_loop_log first_height max_blocks : 0 < first_height -> max_blocks <= MAX_BLOCK_BATCH -> first_height + max_blocks - 1 <= MAX64 ->
  forall fuel count s w calls r s' w' calls', 0 <= count <= max_blocks ->
  request_loop fuel first_height max_blocks (logged consume) count s (w, calls) = (r, (s', (w', calls'))) ->
  exists more, calls' = calls ++ more /\ batch_log first_height max_blocks count more r.
Proof.
  intros Hf Hm Hu. unfold MAX_BLOCK_BATCH in *. induction fuel as [|fuel IH]; intros count s w calls r s' w' calls' Hc E; cbn [request_loop] in E.
  { injection E as <- _ _ <-. exists []. rewrite app_nil_r. split; [done|]. apply batch_log_none; [lia|by intros b [= <-]..]. }
  assert (Hstop : forall r0, (forall b, r0 = Ret b -> bb_status b <> BR_OK /\ bb_status b <> BR_NOT_FOUND) ->
    exists more, calls = calls ++ more /\ batch_log first_height max_blocks count more r0).
  { intros r0 Hr. exists []. rewrite app_nil_r. split; [done|]. apply batch_log_none; [lia| |]; intros b Eb Es; by destruct (Hr b Eb). }
  unfold bind at 1 in E. pose proof (talks_Read s (w, calls)) as Ht. destruct (Read s (w, calls)) as [[meta|] [s1 n1]]; cbn in Ht; subst n1.
  2: { injection E as <- _ _ <-. by apply Hstop. }
  destruct meta as [meta|].
  2: { cbn in E. injection E as <- _ _ <-. apply Hstop. intros b [= <-]. cbn. by destruct (m_last_read_status s1). }
  destruct (bool_decide (fr_type meta = BLOCKS_END)).
  { injection E as <- _ _ <-. destruct (negb _); [apply Hstop; by intros b [= <-]|]. exists []. rewrite app_nil_r. split; [done|].
    destruct (count =? 0) eqn:E0; guards; apply batch_log_none; try lia; intros b [= <-]; cbn; lia || done. }
  destruct (_ || _) eqn:Ebad; [injection E as <- _ _ <-; apply Hstop; by intros b [= <-]|].
  apply orb_false_iff in Ebad as [[[E1%Z.leb_gt _]%orb_false_iff _]%orb_false_iff _].
  destruct (_ || _) eqn:Esize; [injection E as <- _ _ <-; apply Hstop; by intros b [= <-]|].
  apply orb_false_iff in Esize as [E2%Z.eqb_neq E3%Z.ltb_ge]. set (size := le_val (subspan (fr_payload meta) 8 4)) in *.
  assert (Hsz : 0 <= size) by apply le_val_range.
  unfold bind at 1 in E. pose proof (talks_receive_data (S (Z.to_nat size)) BLOCK_DATA size [] s1 (w, calls)) as Ht.
  unfold ReceiveData in E. destruct (receive_data _ BLOCK_DATA size [] s1 (w, calls)) as [[l|] [s2 n2]] eqn:El; cbn in Ht; subst n2.
  2: { injection E as <- _ _ <-. by apply Hstop. }
  destruct l as [l|].
  2: { cbn in E. injection E as <- _ _ <-. apply Hstop. intros b [= <-]. cbn. by destruct (m_last_read_status s2). }
  apply receive_data_size in El; [|rewrite zlen_nil; lia|rewrite zlen_nil; lia].
  unfold bind at 1 in E. unfold logged at 1 in E. cbn [fst snd] in E. rewrite add64_small in E by ulia.
  destruct (consume (first_height + count) l s2 w) as [rc [s3 w3]] eqn:Ec.
  assert (Hsend : sendable l) by (unfold sendable; lia).
  destruct rc as [[]|]; cbn [negb] in E.
  - unfold wrap8 in E. rewrite Z.mod_small in E by lia.
    apply IH in E as (more & -> & H1 & H2 & H3 & H3' & H4); [|lia]. exists ((first_height + count, l, true) :: more). split; [by rewrite <- app_assoc|].
    unfold batch_log. rewrite zlen_cons. pose proof (zlen_nonneg more). split_and!.
    + rewrite seqZ_cons by lia. cbn. rewrite H1. f_equal. f_equal; lia.
    + lia.
    + by constructor.
    + destruct more; [constructor|by constructor].
    + intros b Eb. specialize (H4 b Eb). destruct (bb_status b); try done; [|lia]. destruct H4 as (H4 & H5 & H6). split_and!; [lia|lia|by constructor].
  - injection E as <- _ _ <-. eexists [_]. split; [done|]. split_and!; [by cbn|cbn; rewrite zlen_cons, zlen_nil; lia|by apply Forall_singleton|constructor|].
    by intros b [= <-].
  - injection E as <- _ _ <-. eexists [_]. split; [done|]. split_and!; [by cbn|cbn; rewrite zlen_cons, zlen_nil; lia|by apply Forall_singleton|constructor|done].
Qed.

Lemma logged_batch first_height max_blocks s w r s' w' calls : 0 <= first_height -> 0 <= max_blocks ->
  RequestBlocks first_height max_blocks (logged consume) s (w, []) = (r, (s', (w', calls))) ->
  batch_log first_height max_blocks 0 calls r.
Proof.
  intros H0 H1 E. unfold RequestBlocks, look in E. unfold bind at 1 in E.
  assert (Hnone : forall r0, (forall b, r0 = Ret b -> bb_status b <> BR_OK /\ bb_status b <> BR_NOT_FOUND) -> batch_log first_height max_blocks 0 [] r0).
  { intros r0 Hr. apply batch_log_none; [done| |]; intros b Eb Es; by destruct (Hr b Eb). }
  destruct (_ || _) eqn:Eb; [injection E as <- _ _ <-; apply Hnone; by intros b [= <-]|]. apply orb_false_iff in Eb as [_ Eb].
  apply bad_range_inv in Eb as (R1 & R2 & R3); [|done..]. unfold bind at 1 in E.
  pose proof (talks_Write (mkFrame GET_BLOCKS (le_bytes 8 first_height ++ [bz max_blocks])) s (w, [] : log)) as Ht.
  destruct (Write _ s (w, [])) as [[[]|] [s1 n1]]; cbn in Ht; subst n1; cbn [negb] in E.
  - apply request_loop_log in E as (more & -> & Hlog); [done|lia|lia|lia|lia].
  - injection E as <- _ _ <-. apply Hnone. by intros b [= <-].
  - injection E as <- _ _ <-. by apply Hnone.
Qed.
(** The frames of a batch: for every call of the callback the announcement of
    its height and size and the pieces of its bytes, in any cut. *)
Inductive batch_told : Z -> log -> list Frame -> Prop :=
| told_all height : batch_told height [] []
| told_block height l taken calls data frames : Forall (fun f => fr_type f = BLOCK_DATA) data -> mjoin (fr_payload <$> data) = l ->
    batch_told (height + 1) calls frames ->
    batch_told height ((height, l, taken) :: calls) (meta_frame height l :: data ++ frames).
(** The callback reads nothing from the session. *)
Definition quiet : Prop := forall height l s w, unread (consume height l s w).2.1 = unread s.
Definition told_batch (b : BlockBatchResult) : Prop := bb_status b = BR_OK \/ bb_status b = BR_NOT_FOUND.

Lemma meta_payload payload height : zlen payload = 12 -> le_val (subspan payload 0 8) = height ->
  payload = le_bytes 8 height ++ le_bytes 4 (le_val (subspan payload 8 4)).
Proof using.
  intros Hz <-. rewrite !le_bytes_field by (cbn; lia). rewrite subspan_glue by lia. symmetry. apply subspan_whole; lia.
Qed.
Lemma request_loop_told first_height max_blocks : quiet -> 0 < first_height -> max_blocks <= MAX_BLOCK_BATCH -> first_height + max_blocks - 1 <= MAX64 ->
  forall fuel count s w calls b s' w' calls', 0 <= count <= max_blocks ->
  request_loop fuel first_height max_blocks (logged consume) count s (w, calls) = (Ret b, (s', (w', calls'))) -> told_batch b ->
  exists more frames, calls' = calls ++ more /\ batch_told (first_height + count) more frames /\ bb_count b = count + zlen more /\
    unread s = stream frames ++ frame_bytes (end_frame (bb_count b)) ++ unread s'.
Proof using.
  intros Hq Hf Hm Hu. unfold MAX_BLOCK_BATCH in *. induction fuel as [|fuel IH]; intros count s w calls b s' w' calls' Hc E Hb; cbn [request_loop] in E.
  { injection E as <- _ _ _. by destruct Hb. }
  assert (Hbad : forall c, told_batch (mkBatch BR_INVALID_RESPONSE c) -> False) by (by intros c []).
  assert (Hfail : forall st c, m_last_read_status st = m_last_read_status st ->
    ~ told_batch (mkBatch (match m_last_read_status st with READ_UNAVAILABLE => BR_UNAVAILABLE | _ => BR_INVALID_RESPONSE end) c))
    by (intros st c _ []; by destruct (m_last_read_status st)).
  apply bind_Ret in E as (meta & s1 & n1 & Er & E). destruct meta as [meta|].
  2: { apply bind_Ret in E as (status & s2 & n2 & [= <- <- <-] & [= <- _ _]). by apply Hfail in Hb. }
  apply Read_took in Er as [Hr ->]. cbv zeta in E. case_bool_decide as Hend.
  { injection E as <- <- <- <-. case_bool_decide as Hp; cbn [negb] in Hb; [|by apply Hbad in Hb]. exists [], [].
    cbn [negb bb_count]. split_and!; [by rewrite app_nil_r|constructor|rewrite zlen_nil; lia|]. rewrite Hr. cbn [app stream]. destruct meta as [t payload]. cbn in Hend, Hp. by subst. }
  destruct (_ || _) eqn:Ebad; [injection E as <- _ _ _; by apply Hbad in Hb|].
  apply orb_false_iff in Ebad as [[[E1%Z.leb_gt Etype]%orb_false_iff Ez]%orb_false_iff Eh].
  apply negb_false_iff, bool_decide_eq_true in Etype. apply negb_false_iff, Z.eqb_eq in Ez, Eh. rewrite add64_small in Eh, E by ulia.
  destruct (_ || _) eqn:Esize; [injection E as <- _ _ _; by apply Hbad in Hb|].
  apply bind_Ret in E as (l & s2 & n2 & Ed & E). destruct l as [l|].
  2: { apply bind_Ret in E as (status & s3 & n3 & [= <- <- <-] & [= <- _ _]). by apply Hfail in Hb. }
  assert (Hz : zlen l = le_val (subspan (fr_payload meta) 8 4)).
  { pose proof (le_val_range (subspan (fr_payload meta) 8 4)). apply receive_data_size in Ed; [done|rewrite zlen_nil; lia..]. }
  unfold ReceiveData in Ed. apply receive_data_took in Ed as (data & D1 & D2 & D3 & ->). cbn [app] in D2.
  apply bind_Ret in E as (taken & s3 & n3 & Ec & E). unfold logged in Ec. cbn [fst snd] in Ec.
  specialize (Hq (first_height + count) l s2 w). destruct (consume (first_height + count) l s2 w) as [rc [s4 w4]]. injection Ec as -> <- <-. cbn [fst snd] in Hq.
  destruct taken; cbn [negb] in E; [|injection E as <- _ _ _; by apply Hbad in Hb].
  unfold wrap8 in E. rewrite Z.mod_small in E by lia.
  apply IH in E as (more & frames & -> & H1 & H2 & H3); [|lia|done].
  exists ((first_height + count, l, true) :: more), (meta_frame (first_height + count) l :: data ++ frames). rewrite zlen_cons.
  split_and!; [by rewrite <- app_assoc| |lia|].
  - constructor; [done|by subst l|]. by rewrite <- Z.add_assoc.
  - rewrite stream_cons, stream_app, <- !app_assoc, <- H3, Hq, <- D3, Hr. f_equal. unfold meta_frame. rewrite Hz, <- meta_payload by done.
    destruct meta as [t payload]. cbn in Etype. by subst t.
Qed.
Lemma Write_unread f s (n : N * log) r s' n' : Write f s n = (r, (s', n')) -> unread s' = unread s.
Proof using.
  intros E. unfold Write, WriteExact, write_link in E. destruct (EncodeFrame f); [|by injection E as _ <- _].
  do 2 (destruct (negb _); [by injection E as _ <- _|]). destruct (lk_stalls (m_socket s)) as [|[] ?]; by injection E as _ <- _.
Qed.
Lemma told_RequestBlocks first_height max_blocks s w b s' w' calls : quiet -> 0 <= first_height -> 0 <= max_blocks ->
  RequestBlocks first_height max_blocks (logged consume) s (w, []) = (Ret b, (s', (w', calls))) -> told_batch b ->
  exists frames, batch_told first_height calls frames /\ bb_count b = zlen calls /\
    unread s = stream frames ++ frame_bytes (end_frame (bb_count b)) ++ unread s'.
Proof using.
  intros Hq H0 H1 E Hb. unfold RequestBlocks in E. apply bind_Ret in E as (peer & s1 & n1 & [= <- <- <-] & E).
  destruct (_ || _) eqn:Eb; [injection E as <- _ _ _; by destruct Hb|]. apply orb_false_iff in Eb as [_ Eb].
  apply bad_range_inv in Eb as (R1 & R2 & R3); [|done..]. apply bind_Ret in E as (written & s2 & n2 & Ew & E).
  pose proof (talks_eq _ _ _ _ _ _ (talks_Write _) Ew) as ->. apply Write_unread in Ew.
  destruct written; cbn [negb] in E; [|injection E as <- _ _ _; by destruct Hb].
  apply request_loop_told in E as (more & frames & -> & T1 & T2 & T3); [|done|lia..|done].
  rewrite Z.add_0_r in T1. rewrite Z.add_0_l in T2. exists frames. rewrite <- Ew. by split_and!.
Qed.

(** C20: what a batch request lets a peer do. Whatever the peer sends and
    however the connection behaves, the callback is called on consecutive
    heights from the first one asked for, at most as often as blocks were asked
    for, each time with 1 byte to 32 MiB, and not again after it refused a block.
    The request succeeds only when every block was taken, and reports that there
    are none only when none was handed over; in both cases what it has read from
    the connection is, to the byte, the frames of the blocks handed over, each
    under its height and size, and a closing frame in which the peer names the
    same number of blocks. *)
Theorem RequestBlocks_safe first_height max_blocks s w r s' w' calls : 0 <= first_height -> 0 <= max_blocks ->
  RequestBlocks first_height max_blocks (logged consume) s (w, []) = (r, (s', (w', calls))) ->
  batch_log first_height max_blocks 0 calls r /\
  (quiet -> forall b, r = Ret b -> told_batch b ->
   exists frames, batch_told first_height calls frames /\ bb_count b = zlen calls /\
     unread s = stream frames ++ frame_bytes (end_frame (zlen calls)) ++ unread s').
Proof.
  intros H0 H1 E. split; [by eapply logged_batch|]. intros Hq b -> Hb.
  destruct (told_RequestBlocks _ _ _ _ _ _ _ _ Hq H0 H1 E Hb) as (frames & T1 & T2 & T3). exists frames. by rewrite T2 in T3.
Qed.
End batches.
End Conversations.
