(* ===== verification/Serving.v ===== *)
(** * The serving side of a session

    [src/src/cybou/p2p/session.cpp] and [inbound_server.cpp]: what a node
    answers to the messages of a peer ([ServeNext]), with the relay of
    operations in both directions, and how it takes an inbound connection.
    The world is the node: the runtime with its networking state. *)

From S2P Require Import Prelude.
From S2P Require Import Bytes.
From S2P Require Import Codec.
From S2P Require Import Params.
From S2P Require Import Crypto.
From S2P Require Import Merkle.
From S2P Require Import StorageAudit.
From S2P Require Import Operation.
From S2P Require Import OperationCodec.
From S2P Require Import Block.
From S2P Require Import WireTypes.
From S2P Require Import KVStore.
From S2P Require Import NetworkGenesis.
From S2P Require Import StateStore.
From S2P Require Import StateChain.
From S2P Require Import ChunkBlobs.
From S2P Require Import FinalizedChunks.
From S2P Require Import ChunkService.
From S2P Require Import Pool.
From S2P Require Import Relay.
From S2P Require Import NodeRuntime.
From S2P Require Import NodeProduction.
From S2P Require Import NodeChain.
From S2P Require Import Wire.
From S2P Require Import Ingress.
From S2P Require Import Network.
From S2P Require Import Transport.
From S2P Require Import Session.

Module Serving.
Import Wire.
Import Transport.
Import Session.
#[local] Existing Instances Runtime.OperationSubmitStatus_eq_dec Runtime.OperationStatusKind_eq_dec.

Section node.
Context `{CryptoOps} `{Addresses} {L : LevelDB} {Bs : BlobStore}.

Record Node : Type := mkNodeWorld {
  runtime : Runtime.CybouNodeRuntime;
  network : Network.NetworkCore;
}.
Definition on_runtime {A} (m : Runtime.act A) : io Node A :=
  on_world (fun n => let (r, rt) := m (runtime n) in (r, mkNodeWorld rt (network n))).
Definition on_network {A} (f : Network.NetworkCore -> A * Network.NetworkCore) : io Node A :=
  on_world (fun n => let (a, net) := f (network n) in (Ret a, mkNodeWorld (runtime n) net)).
Definition calculated {A} (m : outcome A) : io Node A := on_world (fun n => (m, n)).

(** [torn]: see [NodeRuntime]; [sign] is [SignStorageProof], [payout]
    [LocalStoragePayoutBinding], [space] the free room of the disk, [now] the
    reading of the steady clock for the ingress budget. *)
Context (torn : OperationPool -> OperationPool).
Context (sign : bytes -> option bytes) (payout : option StoragePayoutBinding) (space : option (Z * Z)) (now : Z).

(** ** Doors of the runtime *)

Definition LocalStorageUsage : Runtime.act (Z * Z) :=
  Production.ask_provider (fun s d _ => try! used := UsedBytes s d ;; Ret (fc_capacity_bytes s, used)).
Definition FinalizedChunkSize (id : ChunkId) : Runtime.act (option Z) := Production.ask_provider (fun s d _ => StoredSize s d id).
(** The remote address, admitted for some work. *)
Definition admit_work (work : Ingress.Work) (size : Z) : io Node bool :=
  talk! text := look remote_address ;;
  let? text := text else give false ;;
  on_network (fun n => Network.AdmitIngress n text work size now).
Definition admit_storage : Ingress.Work -> Z -> io Node bool := admit_work.
(** The lease of a transfer, given back when the handler ends, also by an
    exception. *)
Definition with_transfer (handler : io Node bool) : io Node bool := fun s n =>
  match remote_address s with
  | None => (Ret false, (s, n))
  | Some text =>
      let (acquired, net) := Network.AcquireStorageTransfer (network n) text in
      let n := mkNodeWorld (runtime n) net in
      return_if negb acquired with (Ret false, (s, n)) ;;
      let '(r, (s, n)) := handler s n in
      (r, (s, mkNodeWorld (runtime n) (Network.release_lease (network n) text)))
  end.

(** ** Chains *)

Definition MatchesKnownFinalizedChain (peer : Hello) : io Node bool :=
  return_if IsNull (h_finalized_tip peer) with give false ;;
  talk! status := on_runtime Runtime.GetStatus ;;
  return_if negb (Runtime.st_is_initialized status) with give false ;;
  return_if h_finalized_height peer =? 0 with
    (talk! anchor := on_runtime (Runtime.get (fun c => GetGenesisAnchor (Runtime.genesis_of c))) ;;
     give (bool_decide (h_finalized_tip peer = anchor))) ;;
  return_if Runtime.st_finalized_height status <? h_finalized_height peer with give true ;;
  talk! known := on_runtime (Production.GetBlockAtHeight (h_finalized_height peer)) ;;
  let? known := known else give true ;;
  talk! id := calculated (ComputeBlockId (fin_block known)) ;;
  give (bool_decide (id = h_finalized_tip peer)).

(** ** Operations *)

Definition queued_status (queued : Relay.OperationRelayEnqueueStatus) (id : Hash256) : io Node Runtime.OperationSubmitStatus :=
  match queued with
  | Relay.QUEUED => give Runtime.SU_RELAY_QUEUED
  | Relay.DUPLICATE =>
      talk! has := on_runtime (Runtime.HasRelayedOperation id) ;;
      give (if has then Runtime.SU_RELAY_QUEUED else Runtime.SU_REJECTED)
  | Relay.QUEUE_FULL => give Runtime.SU_RELAY_QUEUE_FULL
  | Relay.INVALID_OPERATION => give Runtime.SU_INVALID_PAYLOAD
  end.
Definition ReceiveOperation (meta : Frame) (allow_seen_retry : bool) : io Node (option Runtime.OperationSubmitResult) :=
  let payload := fr_payload meta in
  return_if negb (bool_decide (fr_type meta = OP_META)) || negb (zlen payload =? OP_META_SIZE) with give None ;;
  let size := le_val (subspan payload 0 4) in
  let work_nonce := le_val (subspan payload 4 8) in
  return_if (size =? 0) || (MAX_OPERATION_PAYLOAD_BYTES <? size) with give None ;;
  talk! remote := look remote_address ;;
  talk! ok := admit_work Ingress.OPERATION size ;;
  return_if negb ok with give None ;;
  talk! l := ReceiveData OP_DATA size ;;
  let? l := l else give None ;;
  talk! operation := calculated (DeserializeProtocolOperation l) ;;
  let? operation := operation else give None ;;
  talk! operation_id := calculated (ComputeOperationId operation) ;;
  let? operation_id := operation_id else give None ;;
  talk! known := on_runtime (Runtime.GetOperationStatus operation_id) ;;
  return_if bool_decide (Runtime.os_kind known = Runtime.OS_FINALIZED)
    with give (Some (Runtime.mkSubmit Runtime.SU_ALREADY_FINALIZED operation_id false)) ;;
  talk! queued := on_runtime (Runtime.EnqueueRelayedOperation torn l work_nonce allow_seen_retry remote) ;;
  talk! status := queued_status queued operation_id ;;
  give (Some (Runtime.mkSubmit status operation_id (bool_decide (status = Runtime.SU_RELAY_QUEUE_FULL)))).
Definition PollOperationRelay : io Node bool :=
  talk! peer := look m_peer ;;
  return_if negb (bool_decide (is_Some peer)) with give false ;;
  talk! written := Write (mkFrame OP_POLL []) ;;
  return_if negb written with give false ;;
  talk! meta := Read ;;
  let? meta := meta else give false ;;
  return_if negb (bool_decide (fr_type meta = OP_META)) || negb (zlen (fr_payload meta) =? OP_META_SIZE) with give false ;;
  return_if le_val (subspan (fr_payload meta) 0 4) =? 0 with give false ;;
  talk! result := ReceiveOperation meta false ;;
  let? result := result else give false ;;
  talk! sent := SendOperationResult result ;;
  give (sent && submitted result).
(** Forgets what has left the queue, then takes the first operation that was
    not served in this session. *)
Definition next_unserved : io Node (option Relay.RelayedOperation) :=
  talk! relay := on_runtime (Runtime.get Runtime.operation_relay) ;;
  talk! _ := change (fun s => set_served (filter (fun id => Relay.HasQueued relay id = true) (m_served_operations s)) s) ;;
  talk! served := look m_served_operations ;;
  on_runtime (Runtime.NextRelayedOperation (Some (fun id => bool_decide (id ∈ served)))).
Definition note_served (id : Hash256) : io Node unit := change (fun s => set_served ({[id]} ∪ m_served_operations s) s).
Definition PushOperationRelay : io Node bool :=
  talk! peer := look m_peer ;;
  return_if negb (bool_decide (is_Some peer)) with give false ;;
  talk! item := next_unserved ;;
  let? item := item else give false ;;
  talk! sent := SendOperation (Relay.exact_bytes item) (Relay.work_nonce item) ;;
  return_if negb sent with give false ;;
  talk! result := ReadOperationResult (Relay.operation_id item) ;;
  return_if negb (bool_decide (is_Some result)) with give false ;;
  talk! _ := note_served (Relay.operation_id item) ;;
  give true.

(** ** Storage requests *)

Definition serve_usage (payload : bytes) : io Node bool :=
  return_if negb (bool_decide (payload = [])) with give false ;;
  talk! ok := admit_storage Ingress.STORAGE_PROOF 16 ;;
  return_if negb ok with give false ;;
  talk! (capacity, stored) := on_runtime LocalStorageUsage ;;
  Write (mkFrame STORAGE_USAGE (le_bytes 8 capacity ++ le_bytes 8 stored)).
Definition serve_storage_proof (payload : bytes) : io Node bool :=
  talk! ok := admit_work Ingress.STORAGE_PROOF (zlen payload + STORAGE_PROOF_SIZE) ;;
  return_if negb ok with give false ;;
  talk! s := look id ;;
  match m_local s, m_peer s with
  | Some local, Some peer =>
      return_if negb (zlen payload =? 32) with give false ;;
      let message := StorageProofMessage local peer (arr_val (m_tls_exporter s)) ++ payload in
      let? proof := sign message else give false ;;
      Write (mkFrame STORAGE_PROOF (proof ++ match payout with Some binding => EncodeStoragePayoutBinding binding | None => [] end))
  | _, _ => give false
  end.
Definition serve_put (payload : bytes) : io Node bool :=
  return_if zlen payload <? 73 with give false ;;
  let sibling_count := le_val (subspan payload 68 1) in
  let size_offset := 69 + sibling_count * 32 in
  return_if (32 <? sibling_count) || negb (zlen payload =? size_offset + 4) with give false ;;
  let proof := (le_val (subspan payload 64 4), read_siblings (Z.to_nat sibling_count) (drop 69 payload)) in
  let size := le_val (subspan payload size_offset 4) in
  return_if negb (stored_size_ok size) with give false ;;
  talk! ok := admit_storage Ingress.STORAGE_PUT (size + zlen payload) ;;
  return_if negb ok with give false ;;
  talk! l := ReceiveData AUTHORIZED_CHUNK_DATA size ;;
  let? l := l else give false ;;
  talk! result := on_runtime (Production.PutFinalizedChunk sign space (arr_of 32 (subspan payload 0 32)) (arr_of 32 (subspan payload 32 32)) l proof) ;;
  let status := Production.car_status result in
  Write (mkFrame CHUNK_ADMISSION_RESULT ([bz (admission_code status)] ++ if admitted status then Production.car_receipt result else [])).
Definition serve_audit (payload : bytes) : io Node bool :=
  return_if negb (zlen payload =? 72) with give false ;;
  let challenge := mkChallenge (arr_of 32 (subspan payload 0 32)) (le_val (subspan payload 32 8)) (arr_of 32 (subspan payload 40 32)) in
  talk! size := on_runtime (FinalizedChunkSize (ch_chunk_id challenge)) ;;
  talk! ok := admit_storage Ingress.STORAGE_PROOF (default 0 size + zlen payload) ;;
  return_if negb ok with give false ;;
  talk! answer := on_runtime (Production.AnswerStorageAudit challenge) ;;
  Write (mkFrame STORAGE_AUDIT_RESPONSE
    (if Production.held answer then [bz 1] ++ arr_val (Production.response_hash answer) else [bz 0])).
Definition serve_get (payload : bytes) : io Node bool :=
  return_if negb (zlen payload =? 32) with give false ;;
  let chunk_id := arr_of 32 (subspan payload 0 32) in
  talk! size := on_runtime (FinalizedChunkSize chunk_id) ;;
  talk! ok := admit_storage Ingress.STORAGE_GET (default 0 size + zlen payload) ;;
  return_if negb ok with give false ;;
  talk! l := on_runtime (Production.GetFinalizedChunk chunk_id) ;;
  talk! written := Write (mkFrame CHUNK_ADMISSION_RESULT
    (match l with Some l => [bz 1] ++ le_bytes 4 (zlen l) | None => [bz 0] ++ le_bytes 4 0 end)) ;;
  return_if negb written with give false ;;
  match l with
  | Some l => SendData CHUNK_DATA l
  | None => give true
  end.
Definition serve_chunk_proof (payload : bytes) : io Node bool :=
  return_if negb (zlen payload =? 64) with give false ;;
  let chunk_id := arr_of 32 (subspan payload 32 32) in
  talk! size := on_runtime (FinalizedChunkSize chunk_id) ;;
  talk! ok := admit_storage Ingress.STORAGE_PROOF (default 0 size + 1100) ;;
  return_if negb ok with give false ;;
  talk! proof := on_runtime (Production.GetFinalizedChunkAuthorizationProof (arr_of 32 (subspan payload 0 32)) chunk_id) ;;
  Write (mkFrame CHUNK_AUTHORIZATION_PROOF (match proof with Some proof => [bz 1] ++ proof_bytes proof | None => [bz 0] end)).

(** ** Operations and blocks *)

Definition serve_peers : io Node bool :=
  talk! endpoints := on_network (fun n => (Network.GetPeerEndpointsForGossip n, n)) ;;
  SendPeers endpoints.
Definition serve_poll (payload : bytes) : io Node bool :=
  talk! peer := look m_peer ;;
  return_if negb (bool_decide (is_Some peer)) || negb (bool_decide (payload = [])) with give false ;;
  talk! item := next_unserved ;;
  let? item := item else SendOperation [] 0 ;;
  talk! sent := SendOperation (Relay.exact_bytes item) (Relay.work_nonce item) ;;
  return_if negb sent with give false ;;
  talk! result := ReadOperationResult (Relay.operation_id item) ;;
  talk! _ := (match result with Some result => if submitted result then note_served (Relay.operation_id item) else give tt | None => give tt end) ;;
  give (bool_decide (is_Some result)).
Definition serve_operation (request : Frame) : io Node bool :=
  talk! result := ReceiveOperation request true ;;
  let? result := result else give false ;;
  SendOperationResult result.
Definition acknowledge (height : Z) (id : Hash256) (result : BlockAnnounceResult) : io Node bool :=
  talk! status := on_runtime Runtime.GetStatus ;;
  Write (mkFrame BLOCK_RESULT ([bz (announce_code result)] ++ le_bytes 8 height ++ arr_val id ++ le_bytes 8 (Runtime.st_finalized_height status))).
(** The block at a height over this session: [RequestBlock] collects the
    bytes of the one block. *)
Definition RequestBlock (height : Z) : io Node (BlockRequestStatus * bytes) := fun s n =>
  let consume (_ : Z) (block : bytes) : io (Node * bytes) bool := on_world (fun w => (Ret true, (w.1, block))) in
  let '(r, (s, (n, l))) := RequestBlocks height 1 consume s (n, []) in
  (try! r := r ;; Ret (bb_status r, l), (s, n)).
Definition fetch_and_commit (network_binding : Hash256) (h : Z) (expected_id : Hash256) : io Node (option BlockAnnounceResult) :=
  talk! (status, l) := RequestBlock h ;;
  return_if bool_decide (status = BR_NOT_FOUND) with give (Some AN_GAP) ;;
  return_if negb (bool_decide (status = BR_OK)) with give None ;;
  talk! block := calculated (DeserializeFinalizedBlock l) ;;
  let? block := block else give None ;;
  return_if negb (blk_height (fin_block block) =? h) || negb (bool_decide (cert_network_binding (fin_certificate block) = network_binding))
            || negb (cert_height (fin_certificate block) =? h) with give None ;;
  talk! other := (if IsNull expected_id then give false else
    talk! id := calculated (ComputeBlockId (fin_block block)) ;;
    give (negb (bool_decide (id = expected_id)) || negb (bool_decide (cert_block_id (fin_certificate block) = expected_id)))) ;;
  return_if other with give None ;;
  talk! result := on_runtime (Production.CommitBlock torn block true) ;;
  give (Some (if bool_decide (bt_error result = BT_NONE) then AN_APPLIED else AN_GAP)).
Definition have_height (h : Z) (expected : Hash256) : io Node bool :=
  talk! known := on_runtime (Production.GetBlockAtHeight h) ;;
  let? known := known else give false ;;
  talk! id := calculated (ComputeBlockId (fin_block known)) ;;
  give (bool_decide (id = expected)).
Definition serve_announce (payload : bytes) : io Node bool :=
  return_if negb (zlen payload =? 41) || negb (le_val (subspan payload 0 1) =? 1) with give false ;;
  let height := le_val (subspan payload 1 8) in
  let id := arr_of 32 (subspan payload 9 32) in
  return_if (height =? 0) || IsNull id with give false ;;
  talk! status := on_runtime Runtime.GetStatus ;;
  return_if negb (Runtime.st_is_initialized status) with give false ;;
  let finalized_height := Runtime.st_finalized_height status in
  return_if height <=? finalized_height with
    (talk! have := have_height height id ;;
     return_if negb have with give false ;;
     acknowledge height id AN_ALREADY_HAVE) ;;
  return_if (finalized_height =? MAX64) || negb (height =? finalized_height ⊕ 1) with acknowledge height id AN_GAP ;;
  talk! applied := fetch_and_commit (Runtime.st_network_binding status) height id ;;
  let? applied := applied else give false ;;
  acknowledge height id applied.
(** The loop over the heights: the number of blocks that were sent, or the
    failure of a write. *)
Fixpoint send_blocks (requested : nat) (first_height count : Z) : io Node (option Z) :=
  match requested with
  | O => give (Some count)
  | S requested =>
      talk! block := on_runtime (Production.GetBlockAtHeight (first_height ⊕ count)) ;;
      let? block := block else give (Some count) ;;
      talk! l := calculated (SerializeFinalizedBlock block) ;;
      let? l := l else give None ;;
      talk! sent := SendBlock (first_height ⊕ count) l ;;
      return_if negb sent with give None ;;
      send_blocks requested first_height (count + 1)
  end.
Definition serve_blocks (payload : bytes) : io Node bool :=
  return_if negb (zlen payload =? 9) with give false ;;
  let first_height := le_val (subspan payload 0 8) in
  let requested := le_val (subspan payload 8 1) in
  return_if bad_range first_height requested with give false ;;
  talk! count := send_blocks (Z.to_nat requested) first_height 0 ;;
  let? count := count else give false ;;
  Write (mkFrame BLOCKS_END [bz count]).

(** ** One message *)

Definition ServeNext : io Node bool :=
  talk! peer := look m_peer ;;
  return_if negb (bool_decide (is_Some peer)) with give false ;;
  talk! request := Read ;;
  let? request := request else look (fun s => lk_open (m_socket s)) ;;
  let payload := fr_payload request in
  match fr_type request with
  | STORAGE_USAGE_REQUEST => with_transfer (serve_usage payload)
  | STORAGE_PROOF_REQUEST => with_transfer (serve_storage_proof payload)
  | PUT_AUTHORIZED_CHUNK => with_transfer (serve_put payload)
  | STORAGE_AUDIT_CHALLENGE => with_transfer (serve_audit payload)
  | GET_CHUNK_BY_ID => with_transfer (serve_get payload)
  | GET_CHUNK_AUTHORIZATION_PROOF => with_transfer (serve_chunk_proof payload)
  | GET_PEERS => serve_peers
  | OP_POLL => serve_poll payload
  | PING => if zlen payload =? 8 then Write (mkFrame PONG payload) else give false
  | OP_META => serve_operation request
  | BLOCK_ANNOUNCE => serve_announce payload
  | GET_BLOCKS => serve_blocks payload
  | _ => give false
  end.

(** ** An inbound connection *)

Definition LocalHello (nonce : option Z) : io Node (option Hello) :=
  talk! status := on_runtime Runtime.GetStatus ;;
  return_if negb (Runtime.st_is_initialized status) with give None ;;
  let? nonce := nonce else give None ;;
  talk! port := on_network (fun n => (Network.listen_port n, n)) ;;
  give (Some (mkHello (Runtime.st_network_binding status) (Runtime.st_finalized_height status) (Runtime.st_finalized_tip status) nonce port)).
(** The worker of a connection up to its loop; [true] is that it goes on to
    [ServeNext]. *)
Definition open_inbound (nonce : option Z) (tls : option (arr 32)) (text : bytes) : io Node bool :=
  talk! hello := LocalHello nonce ;;
  let? hello := hello else give false ;;
  talk! connected := Handshake hello tls ;;
  return_if negb connected with give false ;;
  talk! peer := look m_peer ;;
  let? peer := peer else give false ;;
  talk! matches := MatchesKnownFinalizedChain peer ;;
  return_if negb matches with give false ;;
  talk! _ := (if h_listen_port peer =? 0 then give tt
              else on_network (fun n => (tt, Network.NoteListeningPeer n text (h_listen_port peer)))) ;;
  give true.
End node.
End Serving.

(** * What peers can make of a node

    Everything a peer can do over a session is a sequence of calls of the
    runtime, on well-formed arguments, whatever it sends; so that the theorems
    on the runtime hold of a node that is open to the network. And a node
    that asks another one gets what the other one holds. *)

Module OpenNode.
Import Wire.
Import Transport.
Import Framing.
Import Session.
Import Conversations.
Import Serving.
Import NodeChain.

(** ** Received blocks *)

Section received.
Context `{CryptoOps}.

Lemma serialized_names_network operations ls : serialize_operations operations = Ret (Some ls) -> Forall names_network operations.
Proof.
  revert ls. induction operations as [|op rest IH]; intros ls E; [constructor|]. cbn [serialize_operations] in E. walk E.
  constructor; [|by eapply IH]. intros create ->. unfold SerializeProtocolOperation, tagged in Hret.
  destruct (Identity.SerializeAccountCreateOp create) as [body|] eqn:Es; [|done]. unfold Identity.SerializeAccountCreateOp in Es. walk Es.
  match goal with Hw : Identity.SerializeAccountCreationWork _ = Some _ |- _ => unfold Identity.SerializeAccountCreationWork in Hw; walk Hw end.
  by guards.
Qed.
(** A block that arrived within the limit can be stored. *)
Lemma received_storable l fb : DeserializeFinalizedBlock l = Ret (Some fb) -> zlen l <= MAX_FINALIZED_BLOCK_BYTES -> block_storable fb.
Proof.
  intros E Hl. split; [by eapply decoded_finalized_typed|]. intros l' El'.
  assert (Hn : Forall names_network (blk_operations (fin_block fb))).
  { unfold SerializeFinalizedBlock, SerializeBlock in El'. destruct (serialize_operations _) as [[ls|]|] eqn:Es; [|done..]. by eapply serialized_names_network. }
  destruct (finalized_encode fb l) as [El _]; [unfold MAX_FINALIZED_BLOCK_BYTES in Hl; ulia|done|done|]. rewrite El in El'. by injection El' as <-.
Qed.
End received.

(** ** Sessions as runs of the runtime *)

Section open.
Context `{CryptoOps} `{Addresses} {L : LevelDB} {Laws : LevelDBLaws L} {Bs : BlobStore}.
Context (torn : OperationPool -> OperationPool) {Htorn : tears torn}.
#[local] Set Default Proof Using "Type".

(** The runtime has gone through some of its calls. *)
Definition advances (n n' : Node) : Prop := exists log, runs torn (runtime n) log (runtime n').
Lemma runs_trans n1 n2 n3 log1 log2 : runs torn n1 log1 n2 -> runs torn n2 log2 n3 -> runs torn n1 (log1 ++ log2) n3.
Proof. intros H1 H2. induction H1 as [n|A c n r n1 log n2 Hc E _ IH]; [done|]. rewrite <- app_assoc. by eapply runs_call; [..|apply IH]. Qed.
#[export] Instance advances_preorder : PreOrder advances.
Proof.
  split.
  - intros n. exists []. constructor.
  - intros n1 n2 n3 [log1 H1] [log2 H2]. exists (log1 ++ log2). by eapply runs_trans.
Qed.
#[local] Abbreviation serves := (along advances).

Lemma serves_call {A} (c : call A) : well_typed c -> serves (on_runtime (perform torn c)).
Proof.
  intros Hc s n. unfold on_runtime, on_world. destruct (perform torn c (runtime n)) as [r rt] eqn:E. cbn. eexists.
  eapply runs_call; [done|exact E|constructor].
Qed.
(** Actions that only read. *)
Definition reads {A} (m : Runtime.act A) : Prop := forall n, (m n).2 = n.
Lemma serves_reads {A} (m : Runtime.act A) : reads m -> serves (on_runtime m).
Proof.
  intros Hm s n. unfold on_runtime, on_world. specialize (Hm (runtime n)). destruct (m (runtime n)) as [r rt]. cbn in *. subst rt.
  destruct n. reflexivity.
Qed.
Lemma reads_bind {A B} (m : Runtime.act A) (k : A -> Runtime.act B) : reads m -> (forall a, reads (k a)) -> reads (Runtime.bind m k).
Proof. intros Hm Hk n. unfold Runtime.bind. specialize (Hm n). destruct (m n) as [[a|] n1]; cbn in *; subst; [apply Hk|done]. Qed.
Lemma reads_get {A} (f : Runtime.ChainCore -> A) : reads (Runtime.get f).
Proof. done. Qed.
Lemma reads_ask {A} (f : Runtime.ChainCore -> outcome A) : reads (Runtime.ask f).
Proof. done. Qed.
Lemma reads_ask_provider {A} (f : FinalizedChunkStore -> db -> blobs -> outcome A) : reads (Production.ask_provider f).
Proof. done. Qed.
Lemma serves_network {A} (f : Network.NetworkCore -> A * Network.NetworkCore) : serves (on_network f).
Proof. intros s n. unfold on_network, on_world. destruct (f (network n)). exists []. constructor. Qed.
Lemma serves_calculated {A} (m : outcome A) : serves (calculated m).
Proof. intros s n. reflexivity. Qed.
Lemma serves_talks {A} (m : io Node A) : talks m -> serves m.
Proof. apply along_talks; apply _. Qed.
Lemma serves_give {A} (a : A) : serves (give a).
Proof. by apply serves_talks. Qed.
Lemma serves_look {A} (f : PeerSession -> A) : serves (look f).
Proof. by apply serves_talks. Qed.
Lemma serves_change f : serves (change f).
Proof. by apply serves_talks. Qed.
Lemma serves_Write f : serves (Write f).
Proof. apply serves_talks, talks_Write. Qed.
Lemma serves_Read : serves Read.
Proof. apply serves_talks, talks_Read. Qed.
Lemma serves_read_type t : serves (read_type t).
Proof. apply serves_talks, talks_read_type. Qed.
Lemma serves_SendData t l : serves (SendData t l).
Proof. apply serves_talks, talks_SendData. Qed.
Lemma serves_ReceiveData t size : serves (ReceiveData t size).
Proof. apply serves_talks, talks_ReceiveData. Qed.
Lemma serves_bind {A B} (m : io Node A) (k : A -> io Node B) : serves m -> (forall a, serves (k a)) -> serves (bind m k).
Proof. apply along_bind; apply _. Qed.
Lemma serves_GetStatus : serves (on_runtime Runtime.GetStatus).
Proof. by apply (serves_call C_status). Qed.
Lemma serves_get {A} (f : Runtime.ChainCore -> A) : serves (on_runtime (Runtime.get f)).
Proof. by apply serves_reads. Qed.
Lemma serves_ask {A} (f : Runtime.ChainCore -> outcome A) : serves (on_runtime (Runtime.ask f)).
Proof. by apply serves_reads. Qed.
Lemma serves_ask_provider {A} (f : FinalizedChunkStore -> db -> blobs -> outcome A) : serves (on_runtime (Production.ask_provider f)).
Proof. by apply serves_reads. Qed.
End open.
Create HintDb serving discriminated.
#[export] Hint Resolve serves_give serves_look serves_change serves_Write serves_Read serves_read_type serves_SendData serves_ReceiveData
  serves_network serves_calculated serves_GetStatus serves_get serves_ask serves_ask_provider : serving.
Ltac serving :=
  repeat first
    [ solve [auto with serving nocore]
    | progress intros
    | apply serves_bind
    | lazymatch goal with
      | |- along _ (if ?b then _ else _) => destruct b
      | |- along _ (match ?x with _ => _ end) => destruct x
      end ].

(** ** What a session is served *)

Section served.
Context `{CryptoOps} `{Addresses} {L : LevelDB} {Laws : LevelDBLaws L} {Bs : BlobStore}.
Context (torn : OperationPool -> OperationPool) {Htorn : tears torn}.
Context (sign : bytes -> option bytes) (payout : option StoragePayoutBinding) (space : option (Z * Z)) (now : Z).
#[local] Set Default Proof Using "Type".
#[local] Abbreviation serves := (along (advances torn)).

Lemma serves_block_at height : serves (on_runtime (Production.GetBlockAtHeight height)).
Proof. by apply serves_reads. Qed.
Lemma serves_chunk_size id : serves (on_runtime (FinalizedChunkSize id)).
Proof. by apply serves_reads. Qed.
Lemma serves_admit_work work size : serves (admit_work now work size).
Proof. unfold admit_work. serving. Qed.
Lemma serves_admit_storage work size : serves (admit_storage now work size).
Proof. apply serves_admit_work. Qed.
#[local] Hint Resolve serves_block_at serves_chunk_size serves_admit_work serves_admit_storage : serving.
Lemma serves_with_transfer handler : serves handler -> serves (with_transfer handler).
Proof.
  intros Hh s n. unfold with_transfer. destruct (remote_address s) as [text|]; [|reflexivity].
  destruct (Network.AcquireStorageTransfer (network n) text) as [ok net]. destruct ok; cbn [negb]; [|exists []; constructor].
  specialize (Hh s (mkNodeWorld (runtime n) net)). destruct (handler s _) as [r [s1 n1]]. exact Hh.
Qed.
Lemma serves_SendOperation l nonce : serves (SendOperation l nonce).
Proof. unfold SendOperation. serving. Qed.
Lemma serves_SendOperationResult result : serves (SendOperationResult result).
Proof. unfold SendOperationResult. serving. Qed.
Lemma serves_ReadOperationResult id : serves (ReadOperationResult id).
Proof. unfold ReadOperationResult. serving. Qed.
Lemma serves_queued_status queued id : serves (queued_status queued id).
Proof. unfold queued_status, Runtime.HasRelayedOperation. serving. Qed.
Lemma serves_operation_status id : serves (on_runtime (Runtime.GetOperationStatus id)).
Proof.
  apply serves_reads. unfold Runtime.GetOperationStatus. destruct (IsNull id); [done|]. apply reads_bind; [apply reads_ask|]. by intros [h|].
Qed.
Lemma serves_relayed l nonce retry peer : serves (on_runtime (Runtime.EnqueueRelayedOperation torn l nonce retry peer)).
Proof. by apply (serves_call torn (C_relayed l nonce retry peer)). Qed.
#[local] Hint Resolve serves_SendOperation serves_SendOperationResult serves_ReadOperationResult serves_queued_status serves_operation_status
  serves_relayed : serving.
Lemma serves_ReceiveOperation meta retry : serves (ReceiveOperation torn now meta retry).
Proof. unfold ReceiveOperation. cbv zeta. serving. Qed.
#[local] Hint Resolve serves_ReceiveOperation : serving.
Lemma serves_PollOperationRelay : serves (PollOperationRelay torn now).
Proof. unfold PollOperationRelay. serving. Qed.
Lemma serves_next_unserved : serves next_unserved.
Proof. unfold next_unserved, Runtime.NextRelayedOperation. serving. Qed.
Lemma serves_note_served id : serves (note_served id).
Proof. apply serves_change. Qed.
#[local] Hint Resolve serves_next_unserved serves_note_served : serving.
Lemma serves_PushOperationRelay : serves PushOperationRelay.
Proof. unfold PushOperationRelay. serving. Qed.

(** ** The handlers *)

Lemma serves_usage_request payload : serves (serve_usage now payload).
Proof. unfold serve_usage, LocalStorageUsage. serving. Qed.
Lemma serves_storage_proof_request payload : serves (serve_storage_proof sign payout now payload).
Proof. unfold serve_storage_proof. cbv zeta. serving. Qed.
Lemma serves_put_request payload : serves (serve_put sign space now payload).
Proof.
  unfold serve_put. cbv zeta. repeat (serving; try lazymatch goal with
    |- along _ (on_runtime (Production.PutFinalizedChunk ?a ?b ?c ?d ?e ?f)) => apply (serves_call torn (C_put_chunk a b c d e f)) end). all: done.
Qed.
Lemma serves_audit_request payload : serves (serve_audit now payload).
Proof.
  unfold serve_audit. cbv zeta. serving. apply serves_reads. unfold Production.AnswerStorageAudit, Production.GetFinalizedChunk.
  apply reads_bind; [done|]. intros [l|]; [|done]. by destruct (CreateStorageAuditProof _ l).
Qed.
Lemma serves_get_request payload : serves (serve_get now payload).
Proof. unfold serve_get, Production.GetFinalizedChunk. cbv zeta. serving. Qed.
Lemma serves_chunk_proof_request payload : serves (serve_chunk_proof now payload).
Proof.
  unfold serve_chunk_proof. cbv zeta. serving. by apply (serves_call torn (C_chunk_proof _ _)).
Qed.
Lemma serves_peers_request : serves serve_peers.
Proof. unfold serve_peers, SendPeers. serving. Qed.
Lemma serves_poll_request payload : serves (serve_poll payload).
Proof. unfold serve_poll. serving. Qed.
Lemma serves_operation_request request : serves (serve_operation torn now request).
Proof. unfold serve_operation. serving. Qed.
Lemma serves_acknowledge height id result : serves (acknowledge height id result).
Proof. unfold acknowledge. serving. Qed.
#[local] Hint Resolve serves_acknowledge : serving.
(** One block over the session: the node stays as it is, and what is collected
    has the size that was agreed to. *)
Definition collects (x y : Node * bytes) : Prop := y.1 = x.1 /\ (y.2 = x.2 \/ zlen y.2 <= MAX_FINALIZED_BLOCK_BYTES).
#[export] Instance collects_preorder : PreOrder collects.
Proof.
  split; [intros x; by split; [|left]|]. intros x y z [E1 H1] [E2 H2]. split; [congruence|].
  destruct H2 as [->|]; [done|by right].
Qed.
Lemma RequestBlock_spec height s n : (RequestBlock height s n).2.2 = n /\
  forall status l, (RequestBlock height s n).1 = Ret (status, l) -> zlen l <= MAX_FINALIZED_BLOCK_BYTES.
Proof.
  unfold RequestBlock. set (consume := fun _ _ => _).
  assert (Hc : along collects (RequestBlocks height 1 consume)).
  { apply along_RequestBlocks; [apply _|]. intros h l Hl s1 x. unfold consume, on_world. cbn. split; [done|by right]. }
  specialize (Hc s (n, [])). destruct (RequestBlocks height 1 consume s (n, [])) as [r [s1 [n1 l]]]. destruct Hc as [E Hl]. cbn in *.
  split; [done|]. intros status l' Er. destruct r as [r|]; [|done]. cbn in Er. injection Er as _ <-. destruct Hl as [->|]; [done|done].
Qed.
Lemma serves_RequestBlock height : serves (RequestBlock height).
Proof. intros s n. destruct (RequestBlock_spec height s n) as [-> _]. reflexivity. Qed.
Lemma serves_fetch_and_commit net h id : serves (fetch_and_commit torn net h id).
Proof.
  unfold fetch_and_commit. apply (along_bind_with _ (fun a => zlen a.2 <= MAX_FINALIZED_BLOCK_BYTES)); [apply serves_RequestBlock| |].
  { intros s n [status l] E. by apply RequestBlock_spec in E. }
  intros [status l] Hl. cbn [snd] in Hl. destruct (bool_decide _); [apply serves_give|]. destruct (negb _); [apply serves_give|].
  apply (along_bind_with _ (fun a => forall fb, a = Some fb -> block_storable fb)); [apply serves_calculated| |].
  { intros s n a E fb ->. unfold calculated, on_world in E. cbn in E. by eapply received_storable. }
  intros [fb|] Hfb; [|apply serves_give]. specialize (Hfb fb eq_refl). destruct (_ || _); [apply serves_give|].
  apply serves_bind; [serving|]. intros []; [apply serves_give|]. apply serves_bind; [by apply (serves_call torn (C_commit fb true))|]. serving.
Qed.
#[local] Hint Resolve serves_fetch_and_commit : serving.
Lemma serves_have_height h id : serves (have_height h id).
Proof. unfold have_height. serving. Qed.
#[local] Hint Resolve serves_have_height : serving.
Lemma serves_announce_request payload : serves (serve_announce torn payload).
Proof. unfold serve_announce. cbv zeta. serving. Qed.
Lemma serves_SendBlock height l : serves (SendBlock height l).
Proof. unfold SendBlock. serving. Qed.
#[local] Hint Resolve serves_SendBlock : serving.
Lemma serves_send_blocks requested first_height count : serves (send_blocks requested first_height count).
Proof. revert count. induction requested as [|k IH]; intros count; cbn [send_blocks]; serving. Qed.
#[local] Hint Resolve serves_send_blocks : serving.
Lemma serves_blocks_request payload : serves (serve_blocks payload).
Proof. unfold serve_blocks. cbv zeta. serving. Qed.
#[local] Hint Resolve serves_with_transfer serves_usage_request serves_storage_proof_request serves_put_request serves_audit_request
  serves_get_request serves_chunk_proof_request serves_peers_request serves_poll_request serves_operation_request serves_announce_request
  serves_blocks_request : serving.
Lemma serves_ServeNext : serves (ServeNext torn sign payout space now).
Proof. unfold ServeNext. cbv zeta. serving. Qed.
Lemma serves_matches peer : serves (MatchesKnownFinalizedChain peer).
Proof. unfold MatchesKnownFinalizedChain. serving. Qed.
End served.
#[export] Hint Resolve serves_block_at serves_PollOperationRelay serves_PushOperationRelay serves_ServeNext serves_matches
  serves_SendOperation serves_ReadOperationResult serves_SendBlock : serving.
End OpenNode.
