(* ===== verification/PeerManager.v ===== *)
(** * The mesh of outgoing sessions

    [src/src/cybou/p2p/peer_manager.cpp]: the sessions a node has opened, how
    it opens and closes them, catches up on blocks, passes blocks and
    operations on, and learns of other nodes. What a dial meets (a socket, a
    random number, the result of the TLS handshake) is an argument. *)

From S2P Require Import Prelude.
From S2P Require Import Bytes.
From S2P Require Import Codec.
From S2P Require Import Params.
From S2P Require Import Crypto.
From S2P Require Import StorageAudit.
From S2P Require Import Operation.
From S2P Require Import Block.
From S2P Require Import KVStore.
From S2P Require Import StateStore.
From S2P Require Import ChunkBlobs.
From S2P Require Import Pool.
From S2P Require Import Relay.
From S2P Require Import NodeRuntime.
From S2P Require Import NodeProduction.
From S2P Require Import Wire.
From S2P Require Import Ingress.
From S2P Require Import PeerAdmission.
From S2P Require Import Network.
From S2P Require Import Transport.
From S2P Require Import Session.
From S2P Require Import Serving.

Module Mesh.
Import Wire.
Import PeerAdmission.
Import Transport (PeerSession, io, m_peer, m_peer_storage_id, m_peer_payout_binding, m_handshake_status, HandshakeStatus, CONNECTED,
  UNAVAILABLE, WRONG_NETWORK).
Import Session.
Import Serving.

(** ** Data *)

Definition MAX_OUTBOUND_PEERS : Z := 8.
Inductive PeerConnectStatus : Type :=
  PC_CONNECTED | PC_UNAVAILABLE | PC_HANDSHAKE_FAILED | PC_WRONG_NETWORK | PC_ADMISSION_REJECTED | PC_INVALID_REQUEST | PC_LOCAL_FAILURE.
#[export] Instance PeerConnectStatus_eq_dec : EqDecision PeerConnectStatus.
Proof. solve_decision. Defined.
Inductive SyncPeerStatus : Type :=
  SY_CONNECTION_FAILED | SY_UP_TO_DATE | SY_BLOCKS_APPLIED | SY_PROTOCOL_ERROR | SY_NETWORK_MISMATCH.
#[export] Instance SyncPeerStatus_eq_dec : EqDecision SyncPeerStatus.
Proof. solve_decision. Defined.
Record SyncPeerResult : Type := mkSync { sy_status : SyncPeerStatus; sy_blocks_applied : Z; sy_caught_up : bool }.
Record PeerInfo : Type := mkPeerInfo {
  pi_endpoint : Endpoint;
  pi_hello : Hello;
  pi_storage_id : option (arr 32);
  pi_payout_binding : option StoragePayoutBinding;
}.
Record PeerSubmitResult : Type := mkPeerSubmit {
  psr_op_id : Hash256;
  psr_acknowledgment : option Runtime.OperationSubmitResult;
  psr_endpoint : option Endpoint;
  psr_delivery_uncertain : bool;
}.
(** The random nonce, the connected socket and the TLS handshake of a dial. *)
Record Dial : Type := mkDial { d_nonce : option Z; d_socket : option PeerSession; d_tls : option (arr 32) }.
Record PeerManager : Type := mkManager {
  m_peers : gmap Endpoint PeerSession;
  m_ping_cursor : option Endpoint;
  m_discovery_cursor : option Endpoint;
  m_peer_finalized_heights : gmap Endpoint Z;
  m_explicit_endpoints : gset Endpoint;
  m_last_connect_status : PeerConnectStatus;
}.
Definition set_sessions (peers : gmap Endpoint PeerSession) (m : PeerManager) :=
  mkManager peers (m_ping_cursor m) (m_discovery_cursor m) (m_peer_finalized_heights m) (m_explicit_endpoints m) (m_last_connect_status m).
Definition set_heights (heights : gmap Endpoint Z) (m : PeerManager) :=
  mkManager (m_peers m) (m_ping_cursor m) (m_discovery_cursor m) heights (m_explicit_endpoints m) (m_last_connect_status m).
Definition set_connect (status : PeerConnectStatus) (m : PeerManager) :=
  mkManager (m_peers m) (m_ping_cursor m) (m_discovery_cursor m) (m_peer_finalized_heights m) (m_explicit_endpoints m) status.
Definition set_cursors (ping discovery : option Endpoint) (m : PeerManager) :=
  mkManager (m_peers m) ping discovery (m_peer_finalized_heights m) (m_explicit_endpoints m) (m_last_connect_status m).
Definition set_explicit (endpoints : gset Endpoint) (m : PeerManager) :=
  mkManager (m_peers m) (m_ping_cursor m) (m_discovery_cursor m) (m_peer_finalized_heights m) endpoints (m_last_connect_status m).
(** The end of a session, with and without its frontier. *)
Definition drop_peer (e : Endpoint) (m : PeerManager) := set_sessions (delete e (m_peers m)) m.
Definition forget_peer (e : Endpoint) (m : PeerManager) := drop_peer e (set_heights (delete e (m_peer_finalized_heights m)) m).

Section mesh.
Context `{CryptoOps} `{Addresses} {L : LevelDB} {Bs : BlobStore}.

(** ** Programs of the manager *)

Definition pm (A : Type) : Type := PeerManager -> Node -> outcome A * (PeerManager * Node).
Definition finish {A} (a : A) : pm A := fun m n => (Ret a, (m, n)).
Definition after {A B} (p : pm A) (k : A -> pm B) : pm B := fun m n =>
  match p m n with
  | (Ret a, (m, n)) => k a m n
  | (Throw, x) => (Throw, x)
  end.
Definition see {A} (f : PeerManager -> A) : pm A := fun m n => (Ret (f m), (m, n)).
Definition alter_manager (f : PeerManager -> PeerManager) : pm unit := fun m n => (Ret tt, (f m, n)).
Definition ask_node {A} (p : io Node A) (s : PeerSession) : pm A := fun m n => let '(r, (_, n)) := p s n in (r, (m, n)).
(** Something of the node, without a session. *)
Definition at_node {A} (p : Runtime.act A) : pm A := fun m n =>
  let (r, rt) := p (runtime n) in (r, (m, mkNodeWorld rt (network n))).
Definition at_network {A} (f : Network.NetworkCore -> A * Network.NetworkCore) : pm A := fun m n =>
  let (a, net) := f (network n) in (Ret a, (m, mkNodeWorld (runtime n) net)).
Definition value {A} (r : outcome A) : pm A := fun m n => (r, (m, n)).
(** A program of the session with an endpoint; [None] when there is none. *)
Definition in_session {A} (e : Endpoint) (p : io Node A) : pm (option A) := fun m n =>
  match m_peers m !! e with
  | None => (Ret None, (m, n))
  | Some s =>
      let '(r, (s, n)) := p s n in
      (try! a := r ;; Ret (Some a), (set_sessions (<[e := s]> (m_peers m)) m, n))
  end.
End mesh.

Notation "'mesh!' x := p ;; k" := (after p (fun x => k))
  (at level 10, x pattern, p at level 99, k at level 200, only parsing) : cybou_scope.

Section manager.
Context `{CryptoOps} `{Addresses} {L : LevelDB} {Bs : BlobStore}.
Context (torn : OperationPool -> OperationPool) (policy : option (option FrenchIpDataset)).

(** ** Connections *)

Definition CanonicalEndpoint (host : bytes) (port : Z) : option Endpoint :=
  return_if port =? 0 with None ;;
  let? a := make_address host else None ;;
  Some (address_text a, port).
(** [AdmitPeerAddress] of a text. *)
Definition admits (text : bytes) : bool := Network.AdmitPeerAddress policy text.
(** The session, or the status of the failure. *)
Definition DialPeer (dial : Dial) (host : bytes) (port : Z) : pm (PeerSession + PeerConnectStatus) :=
  let? endpoint := CanonicalEndpoint host port else finish (inr PC_INVALID_REQUEST) ;;
  return_if negb (admits endpoint.1) with finish (inr PC_ADMISSION_REJECTED) ;;
  mesh! status := at_node Runtime.GetStatus ;;
  return_if negb (Runtime.st_is_initialized status) with finish (inr PC_INVALID_REQUEST) ;;
  let? nonce := d_nonce dial else finish (inr PC_LOCAL_FAILURE) ;;
  let? socket := d_socket dial else finish (inr PC_UNAVAILABLE) ;;
  mesh! port := at_network (fun net => (Network.listen_port net, net)) ;;
  let local := mkHello (Runtime.st_network_binding status) (Runtime.st_finalized_height status) (Runtime.st_finalized_tip status) nonce port in
  mesh! (connected, socket) := (fun m n =>
    let '(r, (s, n)) := Handshake local (d_tls dial) socket n in (try! ok := r ;; Ret (ok, s), (m, n))) ;;
  return_if negb connected with finish (inr (match m_handshake_status socket with
    | UNAVAILABLE => PC_UNAVAILABLE | WRONG_NETWORK => PC_WRONG_NETWORK | _ => PC_HANDSHAKE_FAILED end)) ;;
  let? peer := m_peer socket else finish (inr PC_HANDSHAKE_FAILED) ;;
  mesh! known := ask_node (MatchesKnownFinalizedChain peer) socket ;;
  return_if negb known with finish (inr PC_HANDSHAKE_FAILED) ;;
  finish (inl socket).
(** Explicit or pinned endpoints are not displaced. *)
Definition protected (m : PeerManager) (net : Network.NetworkCore) (e : Endpoint) : bool :=
  bool_decide (e ∈ m_explicit_endpoints m) || bool_decide (is_Some (Network.PinnedSpki net e.1 e.2)).
(** Room for one more session: [false] when there is none. *)
Definition make_room (e : Endpoint) : pm bool := fun m n =>
  return_if Z.of_nat (size (m_peers m)) <? MAX_OUTBOUND_PEERS with (Ret true, (m, n)) ;;
  return_if negb (protected m (network n) e) with (Ret false, (m, n)) ;;
  let? victim := List.find (fun x => negb (protected m (network n) x)) (Network.in_order (dom (m_peers m))) else (Ret false, (m, n)) ;;
  (Ret true, (forget_peer victim m, n)).
Definition Connect (dial : Dial) (host : bytes) (port : Z) : pm bool :=
  mesh! _ := alter_manager (set_connect PC_INVALID_REQUEST) ;;
  let? endpoint := CanonicalEndpoint host port else finish false ;;
  return_if negb (admits endpoint.1) with (mesh! _ := alter_manager (set_connect PC_ADMISSION_REJECTED) ;; finish false) ;;
  mesh! present := see (fun m => bool_decide (is_Some (m_peers m !! endpoint))) ;;
  return_if present with finish false ;;
  mesh! room := make_room endpoint ;;
  return_if negb room with (mesh! _ := alter_manager (set_connect PC_UNAVAILABLE) ;; finish false) ;;
  mesh! dialed := DialPeer dial endpoint.1 endpoint.2 ;;
  match dialed with
  | inr status => mesh! _ := alter_manager (set_connect status) ;; finish false
  | inl s =>
      mesh! _ := alter_manager (fun m =>
        set_connect PC_CONNECTED (set_sessions (<[endpoint := s]> (m_peers m))
          (set_heights (<[endpoint := default 0 (h_finalized_height <$> m_peer s)]> (m_peer_finalized_heights m)) m))) ;;
      finish true
  end.
Definition explicit_of (e : Endpoint) : option Endpoint := CanonicalEndpoint e.1 e.2.
Definition SetExplicitEndpoints (endpoints : list Endpoint) : pm unit :=
  alter_manager (set_explicit (list_to_set (omap explicit_of endpoints))).
(** The constructor, on the endpoints that are configured. *)
Definition new_manager (net : Network.NetworkCore) : PeerManager :=
  mkManager ∅ None None ∅ (list_to_set (omap explicit_of (Network.GetConfiguredPeerEndpoints net))) PC_INVALID_REQUEST.
Definition DisconnectAll : pm unit := alter_manager (fun m => set_heights ∅ (set_sessions ∅ m)).

(** ** Liveness *)

(** One ping: the session stays or goes. [nonce] is the random number. *)
Definition ping_one (nonce : option Z) (e : Endpoint) : pm bool :=
  mesh! alive := match nonce with Some nonce => in_session e (Ping nonce) | None => finish (Some false) end ;;
  return_if bool_decide (alive = Some true) with finish true ;;
  mesh! _ := alter_manager (forget_peer e) ;; finish false.
Fixpoint ping_each (nonces : Endpoint -> option Z) (targets : list Endpoint) (healthy : Z) : pm Z :=
  match targets with
  | [] => finish healthy
  | e :: rest => mesh! alive := ping_one (nonces e) e ;; ping_each nonces rest (if alive : bool then healthy + 1 else healthy)
  end.
Definition PingAll (nonces : Endpoint -> option Z) : pm Z :=
  mesh! targets := see (fun m => Network.in_order (dom (m_peers m))) ;;
  ping_each nonces targets 0.
(** The endpoints from the one behind a cursor on, around the end. *)
Definition rotation (cursor : option Endpoint) (endpoints : list Endpoint) : list Endpoint :=
  match cursor with
  | None => endpoints
  | Some cursor =>
      filter (fun e => Network.endpoint_lt cursor e = true) endpoints ++ filter (fun e => Network.endpoint_lt cursor e = false) endpoints
  end.
Definition PingSome (nonces : Endpoint -> option Z) (max_peers : Z) : pm Z :=
  mesh! m := see id ;;
  return_if (max_peers =? 0) || bool_decide (m_peers m = ∅) with finish 0 ;;
  let targets := take (Z.to_nat max_peers) (rotation (m_ping_cursor m) (Network.in_order (dom (m_peers m)))) in
  mesh! _ := alter_manager (fun m => set_cursors (last targets) (m_discovery_cursor m) m) ;;
  ping_each nonces targets 0.

(** ** Blocks *)

(** The callback of [SyncFromPeer]; [network_binding] is that of the status
    before the batch. The result it counts in is part of its world. *)
Definition sync_world : Type := Node * SyncPeerResult.
Definition with_runtime {A} (p : Runtime.act A) : io sync_world A :=
  Transport.on_world (fun w => let (r, rt) := p (runtime w.1) in (r, (mkNodeWorld rt (network w.1), w.2))).
Definition work_out {A} (r : outcome A) : io sync_world A := Transport.on_world (fun w => (r, w)).
Definition count_applied : io sync_world unit :=
  Transport.on_world (fun w => (Ret tt, (w.1, mkSync SY_BLOCKS_APPLIED (sy_blocks_applied w.2 + 1) (sy_caught_up w.2)))).
Import Transport.
Definition consume_block (network_binding : Hash256) (expected_height : Z) (l : bytes) : io sync_world bool :=
  talk! block := work_out (DeserializeFinalizedBlock l) ;;
  talk! announced := look m_peer ;;
  let? block := block else give false ;;
  talk! height := with_runtime Runtime.GetFinalizedHeight ;;
  return_if expected_height <=? default 0 height with
    (talk! local := with_runtime (Production.GetBlockAtHeight expected_height) ;;
     give (match local with
           | Some local => bool_decide (cert_block_id (fin_certificate local) = cert_block_id (fin_certificate block))
           | None => false
           end)) ;;
  return_if negb (blk_height (fin_block block) =? expected_height)
            || negb (bool_decide (cert_network_binding (fin_certificate block) = network_binding)) with give false ;;
  talk! id := work_out (ComputeBlockId (fin_block block)) ;;
  return_if negb (bool_decide (cert_block_id (fin_certificate block) = id)) with give false ;;
  return_if match announced with
            | Some announced => (expected_height =? h_finalized_height announced)
                                && negb (bool_decide (cert_block_id (fin_certificate block) = h_finalized_tip announced))
            | None => false
            end with give false ;;
  talk! result := with_runtime (Production.CommitBlock torn block true) ;;
  return_if negb (bool_decide (bt_error result = BT_NONE)) with give false ;;
  talk! _ := count_applied ;;
  give true.
(** [RequestBlocks] of a session with the callback and the result. *)
Definition request_batch (e : Endpoint) (height remaining : Z) (network_binding : Hash256) (result : SyncPeerResult)
    : pm (BlockBatchResult * SyncPeerResult * option Hello) := fun m n =>
  match m_peers m !! e with
  | None => (Throw, (m, n))
  | Some s =>
      let '(r, (s, (n, result))) := RequestBlocks height remaining (consume_block network_binding) s (n, result) in
      (try! batch := r ;; Ret (batch, result, m_peer s), (set_sessions (<[e := s]> (m_peers m)) m, n))
  end.
Definition set_status (status : SyncPeerStatus) (r : SyncPeerResult) : SyncPeerResult := mkSync status (sy_blocks_applied r) (sy_caught_up r).
(** The [while] loop: [None] is the end of the fuel. *)
Fixpoint sync_loop (fuel : nat) (e : Endpoint) (max_blocks : Z) (result : SyncPeerResult) : pm (option SyncPeerResult) :=
  return_if max_blocks <=? sy_blocks_applied result with finish (Some result) ;;
  match fuel with
  | O => finish None
  | S fuel =>
      mesh! status := at_node Runtime.GetStatus ;;
      return_if negb (Runtime.st_is_initialized status) || (Runtime.st_finalized_height status =? MAX64)
        with finish (Some (set_status SY_PROTOCOL_ERROR result)) ;;
      let height := Runtime.st_finalized_height status ⊕ 1 in
      let remaining := Z.min (max_blocks ⊖ sy_blocks_applied result) MAX_BLOCK_BATCH in
      mesh! (batch, result, peer) := request_batch e height remaining (Runtime.st_network_binding status) result ;;
      match bb_status batch with
      | BR_NOT_FOUND =>
          return_if height <=? default 0 (h_finalized_height <$> peer)
            with (mesh! _ := alter_manager (drop_peer e) ;; finish (Some (set_status SY_CONNECTION_FAILED result))) ;;
          finish (Some (mkSync (sy_status result) (sy_blocks_applied result) true))
      | BR_OK => sync_loop fuel e max_blocks result
      | BR_UNAVAILABLE => mesh! _ := alter_manager (drop_peer e) ;; finish (Some (set_status SY_CONNECTION_FAILED result))
      | _ => mesh! _ := alter_manager (drop_peer e) ;; finish (Some (set_status SY_PROTOCOL_ERROR result))
      end
  end.
Definition SyncFromPeer (fuel : nat) (host : bytes) (port max_blocks : Z) : pm (option SyncPeerResult) :=
  let failed := mkSync SY_CONNECTION_FAILED 0 false in
  let? endpoint := CanonicalEndpoint host port else finish (Some failed) ;;
  mesh! s := see (fun m => m_peers m !! endpoint) ;;
  let? s := s else finish (Some failed) ;;
  return_if negb (bool_decide (is_Some (m_peer s)))
    with (mesh! _ := alter_manager (drop_peer endpoint) ;; finish (Some (set_status SY_PROTOCOL_ERROR failed))) ;;
  sync_loop fuel endpoint max_blocks (set_status SY_UP_TO_DATE failed).


(** ** Operations *)

Definition refused (op_id : Hash256) : Runtime.OperationSubmitResult := Runtime.mkSubmit Runtime.SU_REJECTED op_id false.
Definition SubmitOperation (host : bytes) (port : Z) (operation : ProtocolOperation) (work_nonce : Z)
    : pm Runtime.OperationSubmitResult :=
  mesh! id := value (ComputeOperationId operation) ;;
  let failure := refused (default ZERO id) in
  let? endpoint := CanonicalEndpoint host port else finish failure ;;
  mesh! result := in_session endpoint (Session.SubmitOperation operation work_nonce) ;;
  match result with
  | None => finish failure
  | Some None => mesh! _ := alter_manager (drop_peer endpoint) ;; finish failure
  | Some (Some result) => finish result
  end.
(** One endpoint of [SubmitOperationToAny]: the result, and whether the node
    behind the endpoint took the operation. *)
Definition submit_at (dials : Endpoint -> Dial) (operation : ProtocolOperation) (work_nonce : Z)
    (at_endpoint : Endpoint) (result : PeerSubmitResult) : pm (PeerSubmitResult * bool) :=
  let skip := finish (result, false) in
  let? endpoint := CanonicalEndpoint at_endpoint.1 at_endpoint.2 else skip ;;
  mesh! present := see (fun m => bool_decide (is_Some (m_peers m !! endpoint))) ;;
  mesh! connected := (if present : bool then finish true else Connect (dials at_endpoint) at_endpoint.1 at_endpoint.2) ;;
  return_if negb connected with skip ;;
  mesh! peer := see (fun m => m_peers m !! endpoint ≫= Transport.m_peer) ;;
  return_if negb (bool_decide (is_Some peer)) with skip ;;
  mesh! answer := in_session endpoint (Session.SubmitOperation operation work_nonce) ;;
  match mjoin answer with
  | None =>
      mesh! _ := alter_manager (drop_peer endpoint) ;;
      finish (mkPeerSubmit (psr_op_id result) (psr_acknowledgment result) (psr_endpoint result) true, false)
  | Some acknowledgment =>
      let took := submitted acknowledgment in
      finish (mkPeerSubmit (psr_op_id result) (Some acknowledgment) (Some endpoint) (if took then false else psr_delivery_uncertain result), took)
  end.
Fixpoint submit_each (dials : Endpoint -> Dial) (operation : ProtocolOperation) (work_nonce : Z)
    (endpoints : list Endpoint) (result : PeerSubmitResult) : pm PeerSubmitResult :=
  match endpoints with
  | [] => finish result
  | e :: rest =>
      mesh! (result, took) := submit_at dials operation work_nonce e result ;;
      return_if (took : bool) with finish result ;;
      submit_each dials operation work_nonce rest result
  end.
Definition SubmitOperationToAny (dials : Endpoint -> Dial) (endpoints : list Endpoint)
    (operation : ProtocolOperation) (work_nonce : Z) : pm PeerSubmitResult :=
  mesh! id := value (ComputeOperationId operation) ;;
  let op_id := default ZERO id in
  let result := mkPeerSubmit op_id None None false in
  return_if bool_decide (endpoints = []) || (MAX_OUTBOUND_PEERS <? zlen endpoints) with finish result ;;
  mesh! l := value (SerializeProtocolOperation operation) ;;
  let? l := l else finish result ;;
  return_if bool_decide (l = []) || (MAX_OPERATION_PAYLOAD_BYTES <? zlen l) || IsNull op_id with finish result ;;
  submit_each dials operation work_nonce endpoints result.

(** ** Passing blocks and operations on *)

(** The blocks offered to one session, from a frontier on: the frontier, the
    number delivered, and whether the session ends. *)
Fixpoint offer (count : nat) (tip : Z) (e : Endpoint) (frontier delivered : Z) : pm (Z * Z * bool) :=
  match count with
  | O => finish (frontier, delivered, false)
  | S count =>
      return_if tip <=? frontier with finish (frontier, delivered, false) ;;
      let height := frontier ⊕ 1 in
      mesh! block := at_node (Production.GetBlockAtHeight height) ;;
      let? block := block else finish (frontier, delivered, false) ;;
      mesh! id := value (ComputeBlockId (fin_block block)) ;;
      mesh! response := in_session e (AdvertiseBlock (mkAnnouncement height id) block) ;;
      let? (r, peer_height) := mjoin response else finish (frontier, delivered, true) ;;
      return_if bool_decide (r = AN_GAP) with finish (peer_height, delivered, false) ;;
      return_if peer_height <? height with finish (peer_height, delivered, true) ;;
      offer count tip e peer_height (delivered + 1)
  end.
Definition note_frontier (e : Endpoint) (frontier : Z) (m : PeerManager) := set_heights (<[e := frontier]> (m_peer_finalized_heights m)) m.
Fixpoint fanout_each (max_per_peer : nat) (tip : Z) (targets : list Endpoint) (delivered : Z) : pm Z :=
  match targets with
  | [] => finish delivered
  | e :: rest =>
      mesh! m := see id ;;
      return_if negb (bool_decide (is_Some (m_peers m !! e ≫= Transport.m_peer))) with fanout_each max_per_peer tip rest delivered ;;
      mesh! (frontier, delivered, disconnected) := offer max_per_peer tip e (default 0 (m_peer_finalized_heights m !! e)) delivered ;;
      mesh! _ := alter_manager (if disconnected : bool then forget_peer e else note_frontier e frontier) ;;
      fanout_each max_per_peer tip rest delivered
  end.
Definition FanoutFinalizedBlocks (max_per_peer : Z) : pm Z :=
  return_if (max_per_peer =? 0) || (32 <? max_per_peer) with finish 0 ;;
  mesh! _ := alter_manager (fun m =>
    set_heights (filter (fun x => bool_decide (is_Some (m_peers m !! x.1)) = true) (m_peer_finalized_heights m)) m) ;;
  mesh! tip := at_node Runtime.GetFinalizedHeight ;;
  let? tip := tip else finish 0 ;;
  mesh! targets := see (fun m => Network.in_order (dom (m_peers m))) ;;
  fanout_each (Z.to_nat max_per_peer) tip targets 0.
Definition MAX_RELAY_OPERATIONS_PER_PEER : nat := 4.
(** A program of a session repeated while it delivers. *)
Fixpoint repeat_in (count : nat) (e : Endpoint) (p : io Node bool) (delivered : Z) : pm Z :=
  match count with
  | O => finish delivered
  | S count =>
      mesh! peer := see (fun m => m_peers m !! e ≫= Transport.m_peer) ;;
      return_if negb (bool_decide (is_Some peer)) with finish delivered ;;
      mesh! took := in_session e p ;;
      return_if negb (bool_decide (took = Some true)) with finish delivered ;;
      repeat_in count e p (delivered + 1)
  end.
Fixpoint relay_each (p : io Node bool) (targets : list Endpoint) (delivered : Z) : pm Z :=
  match targets with
  | [] => finish delivered
  | e :: rest => mesh! delivered := repeat_in MAX_RELAY_OPERATIONS_PER_PEER e p delivered ;; relay_each p rest delivered
  end.
Definition PollOperationRelays (now : Z) : pm Z :=
  mesh! targets := see (fun m => Network.in_order (dom (m_peers m))) ;;
  relay_each (PollOperationRelay torn now) targets 0.
(** [failed] of the source is never set: [PushOperationRelay] does not take the
    [Hello] of its session away. *)
Definition PushOperationRelays : pm Z :=
  mesh! targets := see (fun m => Network.in_order (dom (m_peers m))) ;;
  relay_each PushOperationRelay targets 0.

(** ** Who is there *)

Definition Peers : pm (list PeerInfo) :=
  see (fun m => omap (fun e =>
    let? s := m_peers m !! e else None ;;
    (fun hello => mkPeerInfo e hello (Transport.m_peer_storage_id s) None) <$> Transport.m_peer s) (Network.in_order (dom (m_peers m)))).
(** [challenges]: the random challenge of each storage handshake. *)
Fixpoint storage_each (challenges : Endpoint -> option (arr 32)) (targets : list Endpoint) (peers : list PeerInfo) : pm (list PeerInfo) :=
  match targets with
  | [] => finish peers
  | e :: rest =>
      mesh! peer := see (fun m => m_peers m !! e ≫= Transport.m_peer) ;;
      match peer with
      | None => mesh! _ := alter_manager (forget_peer e) ;; storage_each challenges rest peers
      | Some hello =>
          mesh! proved := in_session e (ProveStorageIdentity (challenges e)) ;;
          mesh! s := see (fun m => m_peers m !! e) ;;
          storage_each challenges rest (match mjoin proved with
            | Some _ => peers ++ [mkPeerInfo e hello (s ≫= Transport.m_peer_storage_id) (s ≫= Transport.m_peer_payout_binding)]
            | None => peers
            end)
      end
  end.
Definition StorageEndpoints (challenges : Endpoint -> option (arr 32)) : pm (list PeerInfo) :=
  mesh! targets := see (fun m => Network.in_order (dom (m_peers m))) ;;
  storage_each challenges targets [].
(** The scan of [DiscoverPeers] from the cursor on: the targets and where it stopped. *)
Fixpoint scan (m : PeerManager) (endpoints : list Endpoint) (room : nat) (cursor : option Endpoint) : list Endpoint * option Endpoint :=
  match endpoints, room with
  | e :: rest, S less =>
      if bool_decide (is_Some (m_peers m !! e ≫= Transport.m_peer)) then
        let (targets, cursor) := scan m rest less (Some e) in (e :: targets, cursor)
      else scan m rest room (Some e)
  | _, _ => ([], cursor)
  end.
Fixpoint ask_each (targets : list Endpoint) (discovered : list Endpoint) : pm (list Endpoint) :=
  match targets with
  | [] => finish discovered
  | e :: rest => mesh! peers := in_session e RequestPeers ;; ask_each rest (discovered ++ default [] peers)
  end.
Definition DiscoverPeers (max_sessions : Z) : pm Z :=
  mesh! m := see id ;;
  return_if (max_sessions =? 0) || bool_decide (m_peers m = ∅) with finish 0 ;;
  let '(targets, cursor) :=
    scan m (rotation (m_discovery_cursor m) (Network.in_order (dom (m_peers m)))) (Z.to_nat max_sessions) (m_discovery_cursor m) in
  mesh! _ := alter_manager (fun m => set_cursors (m_ping_cursor m) cursor m) ;;
  mesh! discovered := ask_each targets [] ;;
  return_if bool_decide (discovered = []) with finish 0 ;;
  at_network (fun net =>
    let added := Network.AddDiscoveredPeerEndpoints net discovered in
    let before := zlen (Network.GetPeerEndpointsForGossip net) in
    let behind := zlen (Network.GetPeerEndpointsForGossip added) in
    (if before <? behind then behind - before else 0, added)).
Definition KnownEndpoints : pm (list Endpoint) := at_network (fun net => (Network.GetPeerEndpointsForGossip net, net)).

End manager.
End Mesh.

(** * A pass of the mesh

    [CybouNodeRuntime::SyncFromConfiguredPeer]
    ([src/src/cybou/node_runtime_network.cpp]): what a node does for its mesh,
    over and over: upkeep of the sessions, one dial, operations, blocks from
    the best peers first, and what it has itself passed on. The event log and
    the probes of storage providers, which run on a thread of their own, are
    not part of it. *)

Module Passes.
Import Wire.
Import PeerAdmission.
Import Serving.
Import Mesh.
#[local] Existing Instance Runtime.NodeRuntimeState_eq_dec.

(** The members of [NetworkCore] that only a pass uses. *)
Record Upkeep : Type := mkUpkeep { next_peer_discovery : Z; next_peer_ping : Z; catching_up : bool }.
(** What a pass takes from outside: the readings of the clock for the upkeep,
    for the dial, and for the retries; the dials; the nonces of its pings. *)
Record Surroundings : Type := mkSurroundings {
  maintenance_now : Z;
  dial_now : Z;
  retry_now : Endpoint -> Z;
  ingress_now : Z;
  dials : Endpoint -> Dial;
  nonces : Endpoint -> option Z;
}.

Section pass.
Context `{CryptoOps} `{Addresses} {L : LevelDB} {Bs : BlobStore}.
Context (torn : OperationPool -> OperationPool) (policy : option (option FrenchIpDataset)).
(** [RetryPendingIdentityOperations], which is not modelled: it works on the
    runtime. *)
Context (retry_identity : Runtime.act unit).
Context (env : Surroundings).

Definition change_network (f : Network.NetworkCore -> Network.NetworkCore) : pm unit := at_network (fun net => (tt, f net)).
Definition ConnectedCount : pm Z := see (fun m => Z.of_nat (size (m_peers m))).
Definition LastConnectStatus : pm PeerConnectStatus := see m_last_connect_status.
Definition forget_retry (e : Endpoint) (net : Network.NetworkCore) : Network.NetworkCore :=
  Network.set_retry (delete e (Network.peer_retry_after net)) net.
Definition schedule (e : Endpoint) (failure : Network.PeerFailureClass) : pm unit :=
  change_network (fun net => Network.SchedulePeerRetry net e failure (retry_now env e)).
Definition connect_to (e : Endpoint) : pm bool := Connect policy (dials env e) e.1 e.2.

(** ** Upkeep *)

(** (Where a program throws, the code has already put the next time in place.) *)
Definition maintain (u : Upkeep) : pm Upkeep :=
  mesh! count := ConnectedCount ;;
  let now := maintenance_now env in
  return_if negb (count =? 0) && (next_peer_discovery u <=? now) with
    (mesh! _ := DiscoverPeers 1 ;; finish (mkUpkeep (now + 60 * Ingress.SECOND) (next_peer_ping u) (catching_up u))) ;;
  return_if negb (count =? 0) && (next_peer_ping u <=? now) with
    (mesh! _ := PingSome (nonces env) 1 ;; finish (mkUpkeep (next_peer_discovery u) (now + 15 * Ingress.SECOND) (catching_up u))) ;;
  finish u.
(** One peer that has announced a port is dialed back. *)
Definition take_listener (net : Network.NetworkCore) : option Endpoint * Network.NetworkCore :=
  match Network.in_order (Network.listener_candidates net) with
  | [] => (None, net)
  | e :: _ => (Some e, Network.set_listeners (Network.listener_candidates net ∖ {[e]}) net)
  end.
Definition verify_listener : pm unit :=
  mesh! count := ConnectedCount ;;
  return_if MAX_OUTBOUND_PEERS <=? count with finish tt ;;
  mesh! listener := at_network take_listener ;;
  let? listener := listener else finish tt ;;
  mesh! connected := connect_to listener ;;
  return_if negb connected with finish tt ;;
  change_network (fun net => Network.AddDiscoveredPeerEndpoints net [listener]).
(** One endpoint that is known and may be tried is dialed. *)
Definition may_dial (net : Network.NetworkCore) (connected : list Endpoint) (slots_full : bool) (e : Endpoint) : bool :=
  (negb slots_full || Network.is_rendezvous net e) && negb (Network.contains connected e)
  && match Network.peer_retry_after net !! e with None => true | Some retry => Network.retry_after retry <=? dial_now env end.
Definition dial_one : pm unit :=
  mesh! targets := at_network (fun net => (Network.GetPeerEndpointsForGossip net, net)) ;;
  mesh! infos := Peers ;;
  let connected := pi_endpoint <$> infos in
  mesh! net := at_network (fun net => (net, net)) ;;
  let slots_full := MAX_OUTBOUND_PEERS <=? zlen connected in
  return_if slots_full && existsb (Network.is_rendezvous net) connected with finish tt ;;
  let? candidate := List.find (may_dial net connected slots_full) targets else finish tt ;;
  mesh! connected := connect_to candidate ;;
  return_if (connected : bool) with change_network (forget_retry candidate) ;;
  mesh! status := LastConnectStatus ;;
  match status with
  | PC_UNAVAILABLE => schedule candidate Network.FC_TEMPORARY
  | PC_WRONG_NETWORK => schedule candidate Network.FC_WRONG_NETWORK
  | PC_HANDSHAKE_FAILED => schedule candidate Network.FC_PROTOCOL
  | _ => finish tt
  end.

(** ** Blocks *)

(** The order of the routes: configured ones first, in their order, then by
    the height that was announced. *)
Fixpoint index_of (e : Endpoint) (l : list Endpoint) : nat :=
  match l with [] => O | x :: rest => if bool_decide (x = e) then O else S (index_of e rest) end.
Definition goes_before (explicit : list Endpoint) (left right : PeerInfo) : bool :=
  let rank p := index_of (pi_endpoint p) explicit in
  return_if negb (rank left =? rank right)%nat with (rank left <? rank right)%nat ;;
  let height p := h_finalized_height (pi_hello p) in
  return_if negb (height left =? height right) with height right <? height left ;;
  Network.endpoint_lt (pi_endpoint left) (pi_endpoint right).
Definition route_le (explicit : list Endpoint) (x y : PeerInfo) : Prop := goes_before explicit y x = false.
#[export] Instance route_le_dec explicit x y : Decision (route_le explicit x y) := bool_eq_dec _ _.
Definition routes (explicit : list Endpoint) (peers : list PeerInfo) : list PeerInfo := merge_sort (route_le explicit) peers.
(** The state of the loop over the peers. *)
Record Tally : Type := mkTally { ta_applied : Z; ta_status : SyncPeerStatus; ta_up_to_date : bool; ta_all_caught_up : bool }.
(** One attempt: the tally, and whether the loop ends. *)
Definition after_attempt (max_blocks : Z) (e : Endpoint) (attempt : SyncPeerResult) (t : Tally) : pm (Tally * bool) :=
  let all := ta_all_caught_up t && sy_caught_up attempt in
  match sy_status attempt with
  | SY_BLOCKS_APPLIED =>
      let applied := ta_applied t ⊕ sy_blocks_applied attempt in
      let full := max_blocks <=? applied in
      finish (mkTally applied SY_BLOCKS_APPLIED (ta_up_to_date t) (all && negb full), full)
  | SY_UP_TO_DATE =>
      mesh! _ := change_network (forget_retry e) ;;
      finish (mkTally (ta_applied t) (ta_status t) true all, false)
  | SY_CONNECTION_FAILED =>
      mesh! _ := schedule e Network.FC_TEMPORARY ;; finish (mkTally (ta_applied t) (ta_status t) (ta_up_to_date t) all, false)
  | SY_NETWORK_MISMATCH =>
      mesh! _ := schedule e Network.FC_WRONG_NETWORK ;; finish (mkTally (ta_applied t) (ta_status t) (ta_up_to_date t) all, false)
  | SY_PROTOCOL_ERROR =>
      mesh! _ := schedule e Network.FC_PROTOCOL ;; finish (mkTally (ta_applied t) (ta_status t) (ta_up_to_date t) all, false)
  end.
Definition push_unless (catching : bool) : pm unit :=
  if catching then finish tt else (mesh! _ := PushOperationRelays ;; finish tt).
(** [None] is the end of the fuel of [SyncFromPeer], which does not happen. *)
Fixpoint sync_each (catching : bool) (max_blocks : Z) (peers : list Endpoint) (t : Tally) : pm (option Tally) :=
  match peers with
  | [] => finish (Some t)
  | e :: rest =>
      mesh! _ := push_unless catching ;;
      let left := max_blocks ⊖ ta_applied t in
      mesh! attempt := SyncFromPeer torn (Z.to_nat left) e.1 e.2 left ;;
      let? attempt := attempt else finish None ;;
      mesh! (t, ends) := after_attempt max_blocks e attempt t ;;
      return_if (ends : bool) with finish (Some t) ;;
      sync_each catching max_blocks rest t
  end.

(** ** The pass *)

Definition plain_status (status : SyncPeerStatus) : SyncPeerResult := mkSync status 0 false.
Definition exchange (explicit : list Endpoint) (max_blocks : Z) (u : Upkeep) : pm (option (SyncPeerResult * Upkeep)) :=
  mesh! peers := Peers ;;
  return_if bool_decide (pi_endpoint <$> peers = []) with finish (Some (plain_status SY_CONNECTION_FAILED, u)) ;;
  mesh! _ := push_unless (catching_up u) ;;
  mesh! _ := (if catching_up u then finish 0 else PollOperationRelays torn (ingress_now env)) ;;
  mesh! tally := sync_each (catching_up u) max_blocks (pi_endpoint <$> routes explicit peers) (mkTally 0 SY_CONNECTION_FAILED false true) ;;
  let? tally := tally else finish None ;;
  let status := if (ta_applied tally =? 0) && ta_up_to_date tally then SY_UP_TO_DATE else ta_status tally in
  let catching := max_blocks <=? ta_applied tally in
  mesh! _ := push_unless catching ;;
  mesh! _ := (if catching then finish 0 else FanoutFinalizedBlocks 16) ;;
  finish (Some (mkSync status (ta_applied tally) (ta_all_caught_up tally), mkUpkeep (next_peer_discovery u) (next_peer_ping u) catching)).
Definition SyncFromConfiguredPeer (max_blocks : Z) (u : Upkeep) : pm (option (SyncPeerResult * Upkeep)) :=
  mesh! _ := at_node Production.retry_purges ;;
  mesh! _ := at_node retry_identity ;;
  mesh! status := at_node Runtime.GetStatus ;;
  return_if bool_decide (Runtime.st_runtime_state status = Runtime.RS_NETWORK_MISMATCH)
    with finish (Some (plain_status SY_NETWORK_MISMATCH, u)) ;;
  return_if bool_decide (Runtime.st_runtime_state status = Runtime.RS_CORRUPT) || negb (Runtime.st_is_initialized status)
    with finish (Some (plain_status SY_PROTOCOL_ERROR, u)) ;;
  mesh! explicit := at_network (fun net => (Network.GetConfiguredPeerEndpoints net, net)) ;;
  mesh! _ := SetExplicitEndpoints explicit ;;
  mesh! u := maintain u ;;
  mesh! _ := verify_listener ;;
  mesh! _ := dial_one ;;
  exchange explicit max_blocks u.
End pass.
End Passes.
