(* ===== verification/MeshProofs.v ===== *)
(** * The node in the network

    A node with its mesh of outgoing sessions, its inbound sessions and its
    local callers, in any interleaving and with any peers: it goes through
    calls of the runtime and nothing else, so it implements the chain; and the
    mesh stays within its bound. *)

From S2P Require Import Prelude.
From S2P Require Import Bytes.
From S2P Require Import Codec.
From S2P Require Import Params.
From S2P Require Import Crypto.
From S2P Require Import StorageAudit.
From S2P Require Import Operation.
From S2P Require Import Block.
From S2P Require Import WireTypes.
From S2P Require Import KVStore.
From S2P Require Import StateStore.
From S2P Require Import StateChain.
From S2P Require Import Pool.
From S2P Require Import Relay.
From S2P Require Import ChunkBlobs.
From S2P Require Import PeerAdmission.
From S2P Require Import NodeRuntime.
From S2P Require Import NodeProduction.
From S2P Require Import NodeChain.
From S2P Require Import Wire.
From S2P Require Import Transport.
From S2P Require Import Ingress.
From S2P Require Import Network.
From S2P Require Import Session.
From S2P Require Import Serving.
From S2P Require Import PeerManager.

Module OpenMesh.
Import Wire.
Import Transport.
Import Session.
Import Conversations.
Import Serving.
Import NodeChain.
Import OpenNode.
Import Mesh.
Import Passes.
Import PeerAdmission.

(** ** The client's programs *)

Section client.
Context `{CryptoOps} `{Addresses} {L : LevelDB} {Laws : LevelDBLaws L} {Bs : BlobStore}.
Context (torn : OperationPool -> OperationPool) {Htorn : tears torn}.
#[local] Set Default Proof Using "Type".
#[local] Abbreviation serves := (along (advances torn)).

(** Any program that only talks to its session. *)
Lemma serves_world_free {A} (f : outcome A) : serves (on_world (fun n => (f, n))).
Proof. intros s n. reflexivity. Qed.
#[local] Hint Resolve serves_world_free : serving.
Lemma serves_secure tls : serves (EstablishSecureTransport tls).
Proof. intros s n. unfold EstablishSecureTransport. by destruct (_ || _), tls. Qed.
#[local] Hint Resolve serves_secure : serving.
Lemma serves_Handshake local tls : serves (Handshake local tls).
Proof. unfold Handshake. serving. Qed.
Lemma serves_ProveStorageIdentity challenge : serves (ProveStorageIdentity challenge).
Proof. unfold ProveStorageIdentity. cbv zeta. serving. Qed.
Lemma serves_Ping nonce : serves (Ping nonce).
Proof. unfold Ping. cbv zeta. serving. Qed.
Lemma serves_SubmitOperation op nonce : serves (Session.SubmitOperation op nonce).
Proof. unfold Session.SubmitOperation. serving. Qed.
Lemma serves_AdvertiseBlock announcement fb : serves (AdvertiseBlock announcement fb).
Proof. unfold AdvertiseBlock. cbv zeta. serving. Qed.
Lemma serves_RequestPeers : serves RequestPeers.
Proof. unfold RequestPeers. serving. Qed.

(** The callback of a batch, next to the result that it counts in. *)
Definition beside (x y : sync_world) : Prop := advances torn x.1 y.1.
#[export] Instance beside_preorder : PreOrder beside.
Proof. unfold beside. split; [intros x|intros x y z]; [reflexivity|apply transitivity]. Qed.
Lemma beside_runtime {A} (p : Runtime.act A) : serves (on_runtime p) -> along beside (with_runtime p).
Proof. intros Hp s [n res]. specialize (Hp s n). unfold with_runtime, on_runtime, on_world, beside in *. cbn in *. by destruct (p (runtime n)) as [r rt]. Qed.
Lemma beside_call {A} (c : call A) : well_typed c -> along beside (with_runtime (perform torn c)).
Proof. intros Hc. by apply beside_runtime, serves_call. Qed.
Lemma beside_work {A} (r : outcome A) : along beside (work_out r).
Proof. by intros s w. Qed.
Lemma beside_give {A} (a : A) : along beside (give a).
Proof. by intros s w. Qed.
Lemma beside_consume network height l : zlen l <= MAX_FINALIZED_BLOCK_BYTES -> along beside (consume_block torn network height l).
Proof.
  intros Hl. unfold consume_block. apply (along_bind_with _ (fun a => forall fb, a = Some fb -> block_storable fb)); [apply beside_work| |].
  { intros s n a E fb ->. unfold work_out, on_world in E. cbn in E. by eapply received_storable. }
  intros block Hb. apply along_bind; [apply _|by intros s w|]. intros announced. destruct block as [block|]; [|apply beside_give]. specialize (Hb block eq_refl).
  apply along_bind; [apply _|by apply beside_runtime, serves_ask|]. intros height'. destruct (height <=? _).
  { apply along_bind; [apply _|by apply beside_runtime, serves_block_at|]. intros local. apply beside_give. }
  destruct (_ || _); [apply beside_give|]. apply along_bind; [apply _|apply beside_work|]. intros id.
  destruct (negb _); [apply beside_give|]. destruct (match announced with Some _ => _ | None => _ end); [apply beside_give|].
  apply along_bind; [apply _|by apply (beside_call (C_commit block true))|]. intros result. destruct (negb _); [apply beside_give|].
  apply along_bind; [apply _| |intros _; apply beside_give]. intros s w. unfold beside. reflexivity.
Qed.
End client.
#[export] Hint Resolve serves_world_free serves_Handshake serves_ProveStorageIdentity serves_Ping serves_SubmitOperation
  serves_AdvertiseBlock serves_RequestPeers : serving.

(** ** The manager's programs *)

Section manager.
Context `{CryptoOps} `{Addresses} {L : LevelDB} {Laws : LevelDBLaws L} {Bs : BlobStore}.
Context (torn : OperationPool -> OperationPool) {Htorn : tears torn}.
#[local] Set Default Proof Using "Type".

(** The runtime goes through its calls, and the manager moves along [Q]. *)
Section managed.
Context (Q : relation PeerManager) {HQ : PreOrder Q}.
#[local] Set Default Proof Using "Type HQ".
Definition moves (x y : PeerManager * Node) : Prop := advances torn x.2 y.2 /\ Q x.1 y.1.
#[export] Instance moves_preorder : PreOrder moves.
Proof. split; [intros x; by split|]. intros x y z [E1 B1] [E2 B2]. split; by etrans. Qed.
Definition managed {A} (p : pm A) : Prop := forall m n, moves (m, n) (p m n).2.
Lemma managed_after {A B} (p : pm A) (k : A -> pm B) : managed p -> (forall a, managed (k a)) -> managed (after p k).
Proof.
  intros Hp Hk m n. unfold after. specialize (Hp m n). destruct (p m n) as [[a|] [m1 n1]]; [|done]. cbn in Hp. etrans; [done|apply Hk].
Qed.
Lemma managed_finish {A} (a : A) : managed (finish a).
Proof. by intros m n. Qed.
Lemma managed_value {A} (a : outcome A) : managed (value a).
Proof. by intros m n. Qed.
Lemma managed_see {A} (f : PeerManager -> A) : managed (see f).
Proof. by intros m n. Qed.
Lemma managed_alter f : (forall m, Q m (f m)) -> managed (alter_manager f).
Proof. intros Hf m n. split; [done|]. apply Hf. Qed.
Lemma managed_call {A} (c : call A) : well_typed c -> managed (at_node (perform torn c)).
Proof.
  intros Hc m n. unfold at_node. destruct (perform torn c (runtime n)) as [r rt] eqn:E. split; [|done].
  eexists. eapply runs_call; [done|exact E|constructor].
Qed.
Lemma managed_reads {A} (p : Runtime.act A) : reads p -> managed (at_node p).
Proof. intros Hp m n. unfold at_node. specialize (Hp (runtime n)). destruct (p (runtime n)) as [r rt]. cbn in *. subst. by destruct n. Qed.
Lemma managed_GetStatus : managed (at_node Runtime.GetStatus).
Proof. by apply (managed_call C_status). Qed.
Lemma managed_network {A} (f : Network.NetworkCore -> A * Network.NetworkCore) : managed (at_network f).
Proof. intros m n. unfold at_network. destruct (f (network n)). split; [|done]. exists []. constructor. Qed.
Lemma managed_ask {A} (p : io Node A) s : along (advances torn) p -> managed (ask_node p s).
Proof. intros Hp m n. unfold ask_node. specialize (Hp s n). by destruct (p s n) as [r [s' n']]. Qed.
End managed.

(** The mesh does not grow over its bound. *)
Definition bounded (m : PeerManager) : Prop := Z.of_nat (size (m_peers m)) <= MAX_OUTBOUND_PEERS.
Definition stays (m m' : PeerManager) : Prop := bounded m -> bounded m'.
#[export] Instance stays_preorder : PreOrder stays.
Proof. split; [by intros m Hm|]. intros x y z E1 E2 Hx. by apply E2, E1. Qed.
(** The sessions stay the same ones. *)
Lemma bounded_replace e s s' m : m_peers m !! e = Some s -> bounded m -> bounded (set_sessions (<[e := s']> (m_peers m)) m).
Proof. unfold bounded. intros E Hm. cbn. by rewrite map_size_insert_Some by done. Qed.
Lemma managed_session {A} e (p : io Node A) : along (advances torn) p -> managed stays (in_session e p).
Proof.
  intros Hp m n. unfold in_session. destruct (m_peers m !! e) as [s|] eqn:E; [|done]. specialize (Hp s n). destruct (p s n) as [r [s' n']].
  split; [done|]. intros Hm. by eapply bounded_replace.
Qed.
Lemma bounded_drop e m : stays m (drop_peer e m).
Proof. unfold stays, bounded, drop_peer. intros Hm. cbn [set_sessions m_peers]. rewrite map_size_delete. destruct (m_peers m !! e); cbn; unfold id; lia. Qed.
Lemma bounded_forget e m : stays m (forget_peer e m).
Proof. exact (bounded_drop e (set_heights (delete e (m_peer_finalized_heights m)) m)). Qed.
Lemma bounded_heights h m : stays m (set_heights h m).
Proof. by intros Hm. Qed.
Lemma managed_batch e height remaining network result : managed stays (request_batch torn e height remaining network result).
Proof.
  intros m n. unfold request_batch. destruct (m_peers m !! e) as [s|] eqn:E; [|done].
  pose proof (along_RequestBlocks (beside torn) height remaining (consume_block torn network) (beside_consume torn network) s (n, result)) as Hb.
  destruct (RequestBlocks height remaining (consume_block torn network) s (n, result)) as [r [s' [n' res']]]. split; [exact Hb|]. intros Hm. by eapply bounded_replace.
Qed.
End manager.
Create HintDb managing discriminated.
#[export] Hint Resolve managed_finish managed_value managed_see managed_reads managed_GetStatus managed_network managed_ask managed_session
  managed_batch bounded_drop bounded_forget bounded_heights managed_alter : managing.
#[export] Hint Extern 0 (PreOrder _) => apply _ : managing.
Ltac managing :=
  repeat first
    [ solve [auto with managing serving nocore]
    | progress intros
    | apply managed_after
    | lazymatch goal with
      | |- managed _ _ (if ?b then _ else _) => destruct b
      | |- managed _ _ (match ?x with _ => _ end) => destruct x
      end ].

Section operations.
Context `{CryptoOps} `{Addresses} {L : LevelDB} {Laws : LevelDBLaws L} {Bs : BlobStore}.
Context (torn : OperationPool -> OperationPool) {Htorn : tears torn} (policy : option (option FrenchIpDataset)).
#[local] Set Default Proof Using "Type".
#[local] Abbreviation holds := (managed torn stays).

(** A dial leaves the mesh alone. *)
Lemma managed_dial dial host port : managed torn eq (DialPeer policy dial host port).
Proof.
  unfold DialPeer. managing. intros m n. pose proof (serves_Handshake torn) as Hh. match goal with |- context [Handshake ?l ?t ?s n] => specialize (Hh l t s n);
    destruct (Handshake l t s n) as [r [s' n']] end. done.
Qed.
Lemma managed_keep f : (forall m, m_peers (f m) = m_peers m) -> holds (alter_manager f).
Proof. intros Hf. apply managed_alter; [apply _|]. intros m. unfold stays, bounded. by rewrite Hf. Qed.
#[local] Hint Resolve managed_dial : managing.
(** The room that is made is for one session. *)
Lemma make_room_spec e m n : exists r m', make_room e m n = (Ret r, (m', n)) /\ (r = true -> bounded m -> Z.of_nat (size (m_peers m')) < MAX_OUTBOUND_PEERS) /\
  (m' = m \/ exists victim, m' = forget_peer victim m /\ is_Some (m_peers m !! victim) /\ protected m (network n) victim = false /\
    protected m (network n) e = true /\ MAX_OUTBOUND_PEERS <= Z.of_nat (size (m_peers m))).
Proof.
  unfold make_room. destruct (_ <? _) eqn:E; [apply Z.ltb_lt in E; exists true, m; by repeat split; [..|left]|apply Z.ltb_ge in E].
  destruct (protected m (network n) e) eqn:Ep; cbn [negb]; [|exists false, m; by repeat split; [..|left]].
  destruct (List.find _ _) as [victim|] eqn:Ef; [|exists false, m; by repeat split; [..|left]].
  apply find_some in Ef as [Hin Hv%negb_true_iff]. exists true, (forget_peer victim m).
  assert (Hs : is_Some (m_peers m !! victim)).
  { apply list_elem_of_In in Hin. unfold Network.in_order in Hin. rewrite merge_sort_Permutation in Hin. by apply elem_of_elements, elem_of_dom in Hin. }
  split_and!; [done| |].
  - intros _ Hm. unfold bounded in Hm. unfold forget_peer, drop_peer. cbn [set_sessions m_peers set_heights]. destruct Hs as [s Hs].
    rewrite map_size_delete_Some by done. assert (size (m_peers m) <> 0%nat) by (intros Hz%map_size_empty_iff; by rewrite Hz in Hs). lia.
  - right. exists victim. by split_and!.
Qed.
(** What becomes of the sessions when one more is to be opened. *)
Lemma Connect_peers dial host port m n r m' n' : Connect policy dial host port m n = (r, (m', n')) ->
  advances torn n n' /\
  (m_peers m' = m_peers m \/
   exists e room, CanonicalEndpoint host port = Some e /\ m_peers m !! e = None /\
     make_room e (set_connect PC_INVALID_REQUEST m) n = (Ret true, (room, n)) /\
     (m_peers m' = m_peers room \/ exists s, m_peers m' = <[e := s]> (m_peers room))).
Proof.
  unfold Connect, after at 1. cbn [alter_manager]. set (m0 := set_connect PC_INVALID_REQUEST m). change (m_peers m) with (m_peers m0). clearbody m0. clear m.
  assert (Hsame : forall x, (Ret false, (m0, n)) = x \/ (Ret false, (set_connect PC_ADMISSION_REJECTED m0, n)) = x \/
    (Ret false, (set_connect PC_UNAVAILABLE m0, n)) = x -> x = (r, (m', n')) -> advances torn n n' /\ m_peers m' = m_peers m0).
  { intros x [<-|[<-|<-]]; by intros [= <- <- <-]. }
  assert (Hone : forall P, advances torn n n' /\ m_peers m' = m_peers m0 -> advances torn n n' /\ (m_peers m' = m_peers m0 \/ P)) by (intros P []; auto).
  destruct (CanonicalEndpoint host port) as [e|]; [|intros E; apply Hone, (Hsame _ ltac:(left; reflexivity) E)].
  destruct (negb (admits policy e.1)); [intros E; apply Hone, (Hsame _ ltac:(right; left; reflexivity) E)|].
  unfold after at 1. cbn [see]. case_bool_decide as Hp; [intros E; apply Hone, (Hsame _ ltac:(left; reflexivity) E)|]. apply eq_None_not_Some in Hp.
  destruct (make_room_spec e m0 n) as (room & m1 & Er & _ & Hm1). unfold after at 1. rewrite Er. destruct room; cbn [negb].
  2: { assert (m1 = m0) as ->; [|intros E; apply Hone, (Hsame _ ltac:(right; right; reflexivity) E)].
       unfold make_room in Er. repeat (case_match; try done); by injection Er as <-. }
  pose proof (managed_dial dial e.1 e.2 m1 n) as [Ha Em]. unfold after at 1. destruct (DialPeer _ _ _ _ m1 n) as [[dialed|] [m2 n2]]; cbn in Ha, Em; subst m2.
  2: { intros [= <- <- <-]. split; [done|]. right. exists e, m1. split_and!; [done..|]. by left. }
  intros E. assert (n' = n2) as -> by (destruct dialed; by injection E). split; [done|]. right. exists e, m1. split_and!; [done..|].
  destruct dialed as [s|status]; injection E as _ <-; [right; by exists s|by left].
Qed.
Lemma holds_Connect dial host port : holds (Connect policy dial host port).
Proof.
  intros m n. destruct (Connect policy dial host port m n) as [r0 [m' n']] eqn:E. apply Connect_peers in E as [Ha Hp]. split; [done|].
  intros Hm. unfold bounded in *. cbn [fst snd] in *.
  destruct Hp as [->|(e & room & _ & _ & Er & Hp)]; [done|].
  destruct (make_room_spec e (set_connect PC_INVALID_REQUEST m) n) as (r & m1 & Er' & Hroom & _). rewrite Er in Er'. injection Er' as <- <-.
  specialize (Hroom eq_refl Hm). destruct Hp as [->|[s ->]]; [lia|].
  assert (size (<[e:=s]> (m_peers room)) <= S (size (m_peers room)))%nat; [|lia]. rewrite map_size_insert. case_match; unfold id; lia.
Qed.
#[local] Hint Resolve holds_Connect : managing.
Lemma holds_ping_each nonces targets healthy : holds (ping_each nonces targets healthy).
Proof. revert healthy. induction targets as [|e rest IH]; intros healthy; cbn [ping_each]; unfold ping_one; managing. Qed.
Lemma holds_PingAll nonces : holds (PingAll nonces).
Proof. unfold PingAll. apply managed_after; [apply _|managing|]. intros targets. apply holds_ping_each. Qed.
Lemma holds_PingSome nonces max_peers : holds (PingSome nonces max_peers).
Proof.
  unfold PingSome. managing; [|apply holds_ping_each]. by apply managed_keep.
Qed.
Lemma holds_sync_loop fuel e max_blocks result : holds (sync_loop torn fuel e max_blocks result).
Proof. revert result. induction fuel as [|fuel IH]; intros result; cbn [sync_loop]; cbv zeta; managing. Qed.
#[local] Hint Resolve holds_sync_loop : managing.
Lemma holds_SyncFromPeer fuel host port max_blocks : holds (SyncFromPeer torn fuel host port max_blocks).
Proof. unfold SyncFromPeer. cbv zeta. managing. Qed.
Lemma holds_SubmitOperation host port op nonce : holds (SubmitOperation host port op nonce).
Proof. unfold SubmitOperation. cbv zeta. managing. Qed.
Lemma holds_submit_at dials op nonce e result : holds (submit_at policy dials op nonce e result).
Proof. unfold submit_at. cbv zeta. managing. Qed.
#[local] Hint Resolve holds_submit_at : managing.
Lemma holds_submit_each dials op nonce endpoints result : holds (submit_each policy dials op nonce endpoints result).
Proof. revert result. induction endpoints as [|e rest IH]; intros result; cbn [submit_each]; managing. Qed.
#[local] Hint Resolve holds_submit_each : managing.
Lemma holds_SubmitOperationToAny dials endpoints op nonce : holds (SubmitOperationToAny policy dials endpoints op nonce).
Proof. unfold SubmitOperationToAny. cbv zeta. managing. Qed.
Lemma holds_block_at height : holds (at_node (Production.GetBlockAtHeight height)).
Proof. by apply managed_reads; [apply _|]. Qed.
#[local] Hint Resolve holds_block_at : managing.
Lemma holds_offer count tip e frontier delivered : holds (offer count tip e frontier delivered).
Proof. revert frontier delivered. induction count as [|count IH]; intros frontier delivered; cbn [offer]; cbv zeta; managing. Qed.
#[local] Hint Resolve holds_offer : managing.
Lemma holds_fanout_each count tip targets delivered : holds (fanout_each count tip targets delivered).
Proof.
  revert delivered. induction targets as [|e rest IH]; intros delivered; cbn [fanout_each]; managing.
  match goal with |- context [if ?b then _ else _] => destruct b end; managing. by apply managed_keep.
Qed.
#[local] Hint Resolve holds_fanout_each : managing.
Lemma holds_Fanout max_per_peer : holds (FanoutFinalizedBlocks max_per_peer).
Proof. unfold FanoutFinalizedBlocks. managing; by apply managed_keep || by apply managed_reads. Qed.
Lemma holds_repeat count e p delivered : along (advances torn) p -> holds (repeat_in count e p delivered).
Proof. intros Hp. revert delivered. induction count as [|count IH]; intros delivered; cbn [repeat_in]; managing. Qed.
Lemma holds_relay_each p targets delivered : along (advances torn) p -> holds (relay_each p targets delivered).
Proof.
  intros Hp. revert delivered. induction targets as [|e rest IH]; intros delivered; cbn [relay_each]; [managing|].
  apply managed_after; [apply _|by apply holds_repeat|done].
Qed.
Lemma holds_PollOperationRelays now : holds (PollOperationRelays torn now).
Proof. unfold PollOperationRelays. managing. apply holds_relay_each. auto with serving. Qed.
Lemma holds_PushOperationRelays : holds PushOperationRelays.
Proof. unfold PushOperationRelays. managing. apply holds_relay_each. auto with serving. Qed.
Lemma holds_storage_each challenges targets peers : holds (storage_each challenges targets peers).
Proof. revert peers. induction targets as [|e rest IH]; intros peers; cbn [storage_each]; managing. Qed.
Lemma holds_StorageEndpoints challenges : holds (StorageEndpoints challenges).
Proof. unfold StorageEndpoints. managing. apply holds_storage_each. Qed.
Lemma holds_ask_each targets discovered : holds (ask_each targets discovered).
Proof. revert discovered. induction targets as [|e rest IH]; intros discovered; cbn [ask_each]; managing. Qed.
#[local] Hint Resolve holds_ask_each : managing.
Lemma holds_DiscoverPeers max_sessions : holds (DiscoverPeers max_sessions).
Proof. unfold DiscoverPeers. managing. by apply managed_keep. Qed.
Lemma holds_SetExplicitEndpoints endpoints : holds (SetExplicitEndpoints endpoints).
Proof. by apply managed_keep. Qed.
Lemma holds_DisconnectAll : holds DisconnectAll.
Proof. apply managed_alter; [apply _|]. by intros m Hm. Qed.

(** ** The pass *)

Context (retry_identity : Runtime.act unit) (Hidentity : along (advances torn) (on_runtime retry_identity)) (env : Surroundings).
#[local] Hint Resolve holds_SyncFromPeer holds_Fanout holds_PollOperationRelays holds_PushOperationRelays holds_DiscoverPeers
  holds_SetExplicitEndpoints holds_PingSome : managing.
Lemma holds_runtime {A} (p : Runtime.act A) : along (advances torn) (on_runtime p) -> holds (at_node p).
Proof.
  intros Hp m n. specialize (Hp (mkSession (mkLink false false [] [] []) None ZERO None None None None ∅ NOT_ATTEMPTED READ_OK) n).
  unfold on_runtime, on_world in Hp. unfold at_node. by destruct (p (runtime n)).
Qed.
Lemma holds_change_network f : holds (change_network f).
Proof. apply managed_network; apply _. Qed.
Lemma holds_schedule e failure : holds (schedule env e failure).
Proof. apply holds_change_network. Qed.
Lemma holds_connect_to e : holds (connect_to policy env e).
Proof. apply holds_Connect. Qed.
Lemma holds_push catching : holds (push_unless catching).
Proof. unfold push_unless. managing. Qed.
#[local] Hint Resolve holds_change_network holds_schedule holds_connect_to holds_push : managing.
Lemma holds_maintain u : holds (maintain env u).
Proof. unfold maintain, ConnectedCount. cbv zeta. managing. Qed.
Lemma holds_verify_listener : holds (verify_listener policy env).
Proof. unfold verify_listener, ConnectedCount. managing. Qed.
Lemma holds_dial_one : holds (dial_one policy env).
Proof. unfold dial_one, LastConnectStatus, Peers. cbv zeta. managing. Qed.
Lemma holds_after_attempt max_blocks e attempt t : holds (after_attempt env max_blocks e attempt t).
Proof. unfold after_attempt. cbv zeta. managing. Qed.
#[local] Hint Resolve holds_after_attempt : managing.
Lemma holds_sync_each catching max_blocks peers t : holds (sync_each torn env catching max_blocks peers t).
Proof. revert t. induction peers as [|e rest IH]; intros t; cbn [sync_each]; cbv zeta; managing. Qed.
#[local] Hint Resolve holds_sync_each holds_maintain holds_verify_listener holds_dial_one : managing.
Lemma holds_exchange explicit max_blocks u : holds (exchange torn env explicit max_blocks u).
Proof. unfold exchange, Peers. managing. Qed.
#[local] Hint Resolve holds_exchange : managing.
Lemma holds_pass max_blocks u : holds (SyncFromConfiguredPeer torn policy retry_identity env max_blocks u).
Proof using Htorn Hidentity Laws.
  unfold SyncFromConfiguredPeer. apply managed_after; [apply _|by apply (managed_call torn stays C_retry_purges)|]. intros _.
  apply managed_after; [apply _|by apply holds_runtime|]. intros _. managing.
Qed.
End operations.

(** ** Displacement *)

Section displacement.
Context `{CryptoOps} `{Addresses} {L : LevelDB} {Bs : BlobStore} (policy : option (option FrenchIpDataset)).

(** C34: an operator's peers are not displaced. When connecting to a peer ends
    another session, the mesh was full, the new endpoint is configured or
    pinned by the operator, and the one that lost its session is neither; a
    discovered endpoint ends no session at all. *)
Theorem Connect_displaces dial host port m n r m' n' victim : Connect policy dial host port m n = (r, (m', n')) ->
  is_Some (m_peers m !! victim) -> m_peers m' !! victim = None ->
  exists e, CanonicalEndpoint host port = Some e /\ m_peers m !! e = None /\ protected m (network n) e = true /\
    protected m (network n) victim = false /\ MAX_OUTBOUND_PEERS <= Z.of_nat (size (m_peers m)).
Proof.
  intros (_ & Hp)%(Connect_peers id) Hv Hgone. destruct Hp as [Heq|(e & room & He & Hnew & Er & Hp)]; [rewrite Heq in Hgone; by destruct Hv; simplify_eq|].
  exists e. assert (Hroom : m_peers room !! victim = None).
  { destruct Hp as [<-|[s Es]]; [done|]. rewrite Es in Hgone. destruct (decide (e = victim)) as [->|]; [by rewrite lookup_insert_eq in Hgone|by rewrite lookup_insert_ne in Hgone]. }
  destruct (make_room_spec e (set_connect PC_INVALID_REQUEST m) n) as (r1 & m1 & Er' & _ & Hm1). rewrite Er in Er'. injection Er' as <- <-.
  destruct Hm1 as [->|(v & -> & Hs & Hv1 & Hv2 & Hsize)]; [cbn in Hroom; by destruct Hv; simplify_eq|].
  assert (v = victim) as ->; [|by split_and!]. destruct (decide (v = victim)) as [|Hne]; [done|]. exfalso.
  cbn in Hroom. rewrite lookup_delete_ne in Hroom by done. by destruct Hv; simplify_eq.
Qed.
End displacement.

(** ** The open node *)

Section steps.
Context `{CryptoOps} `{Addresses} {L : LevelDB} {Laws : LevelDBLaws L} {Bs : BlobStore}.
Context (torn : OperationPool -> OperationPool) {Htorn : tears torn} (policy : option (option FrenchIpDataset)).
#[local] Set Default Proof Using "Type + Laws + Htorn".

(** What runs over an inbound session. *)
Inductive inbound_action : forall A, io Node A -> Prop :=
| inbound_open nonce tls text : inbound_action bool (open_inbound nonce tls text)
| inbound_serve sign payout space now : inbound_action bool (ServeNext torn sign payout space now).
(** The operations of the manager. *)
Inductive mesh_action : forall A, pm A -> Prop :=
| mesh_connect dial host port : mesh_action bool (Connect policy dial host port)
| mesh_explicit endpoints : mesh_action unit (SetExplicitEndpoints endpoints)
| mesh_disconnect : mesh_action unit DisconnectAll
| mesh_ping_all nonces : mesh_action Z (PingAll nonces)
| mesh_ping_some nonces max_peers : mesh_action Z (PingSome nonces max_peers)
| mesh_sync fuel host port max_blocks : mesh_action (option SyncPeerResult) (SyncFromPeer torn fuel host port max_blocks)
| mesh_submit host port op nonce : mesh_action Runtime.OperationSubmitResult (SubmitOperation host port op nonce)
| mesh_submit_any dials endpoints op nonce : mesh_action PeerSubmitResult (SubmitOperationToAny policy dials endpoints op nonce)
| mesh_fanout max_per_peer : mesh_action Z (FanoutFinalizedBlocks max_per_peer)
| mesh_poll now : mesh_action Z (PollOperationRelays torn now)
| mesh_push : mesh_action Z PushOperationRelays
| mesh_storage challenges : mesh_action (list PeerInfo) (StorageEndpoints challenges)
| mesh_discover max_sessions : mesh_action Z (DiscoverPeers max_sessions)
| mesh_pass retry_identity env max_blocks u : along (advances torn) (on_runtime retry_identity) ->
    mesh_action (option (SyncPeerResult * Upkeep)) (SyncFromConfiguredPeer torn policy retry_identity env max_blocks u).
(** One thing that happens to the node: a call of its runtime, a change of its
    routing tables, something over an inbound session in any state, bytes or
    a failure at one of its own sessions, or an operation of the manager. *)
Inductive open_step : relation (PeerManager * Node) :=
| open_call A (c : call A) m n : well_typed c -> open_step (m, n) (m, mkNodeWorld (perform torn c (runtime n)).2 (network n))
| open_routing m n net : open_step (m, n) (m, mkNodeWorld (runtime n) net)
| open_session A (p : io Node A) s m n : inbound_action A p -> open_step (m, n) (m, (p s n).2.2)
| open_arrival e s link m n : m_peers m !! e = Some s -> open_step (m, n) (set_sessions (<[e := set_link link s]> (m_peers m)) m, n)
| open_mesh A (p : pm A) m n : mesh_action A p -> open_step (m, n) (p m n).2.

Lemma serves_open_inbound nonce tls text : along (advances torn) (open_inbound nonce tls text).
Proof. unfold open_inbound, LocalHello. serving. Qed.
Lemma inbound_serves A (p : io Node A) : inbound_action A p -> along (advances torn) p.
Proof. intros []; [apply serves_open_inbound|auto with serving]. Qed.
Lemma mesh_holds A (p : pm A) : mesh_action A p -> managed torn stays p.
Proof.
  intros []; [apply holds_Connect|apply holds_SetExplicitEndpoints|apply holds_DisconnectAll|apply holds_PingAll|apply holds_PingSome|
    apply holds_SyncFromPeer|apply holds_SubmitOperation|apply holds_SubmitOperationToAny|apply holds_Fanout|apply holds_PollOperationRelays|
    apply holds_PushOperationRelays|apply holds_StorageEndpoints|apply holds_DiscoverPeers|by apply holds_pass].
Qed.
Lemma open_step_moves x y : open_step x y -> moves torn stays x y.
Proof.
  intros [A c m n Hc|m n net|A p s m n Hp|e s link m n E|A p m n Hp].
  - split; [|by intros Hm]. cbn [snd]. destruct (perform torn c (runtime n)) as [r rt] eqn:Ep. eexists. eapply runs_call; [done|exact Ep|constructor].
  - split; [|by intros Hm]. exists []. constructor.
  - split; [|by intros Hm]. by apply inbound_serves.
  - split; [done|]. intros Hm. by eapply bounded_replace.
  - by apply mesh_holds.
Qed.
Lemma open_steps_move x y : rtc open_step x y -> moves torn stays x y.
Proof. induction 1 as [x|x y z Hs _ IH]; [done|]. etrans; [by apply open_step_moves|done]. Qed.

(** C6: an open node implements a chain. Whatever its peers send over any
    number of sessions, whatever it is asked to do locally, and however all
    of that interleaves, a node that starts from its genesis holds one chain
    of blocks that only grows at its end or has its last block replaced by a
    smaller one (unless SHA-256 collides), and it never keeps more than eight
    outgoing sessions. *)
Theorem open_node_refines_chain n0 m n : fresh_node (runtime n0) -> rtc open_step (new_manager (network n0), n0) (m, n) ->
  Z.of_nat (size (m_peers m)) <= MAX_OUTBOUND_PEERS /\
  (sha256_collision \/ exists chain, rtc chain_step [] chain /\ chain_ok chain (runtime n)).
Proof.
  intros Hn [[log Hr] Hm]%open_steps_move. split; [by apply Hm|].
  destruct (runs_evolve torn _ _ _ Hr [] (fresh_node_ok _ Hn)) as [|(chain & Hs & Hok & _)]; [constructor|by left|right]. by exists chain.
Qed.
End steps.
End OpenMesh.
