(* ===== verification/SyncProofs.v ===== *)
(** * Catching up with a peer ends

    A batch is replayed call by call, whatever the callback does; so every
    batch of [SyncFromPeer] that succeeds brings at least one block and none
    brings too many. *)

From S2P Require Import Prelude.
From S2P Require Import Bytes.
From S2P Require Import Codec.
From S2P Require Import Params.
From S2P Require Import Crypto.
From S2P Require Import StorageAudit.
From S2P Require Import Operation.
From S2P Require Import Block.
From S2P Require Import WireTypes.
From S2P Require Import KVStore.
From S2P Require Import Detector.
From S2P Require Import StateStore.
From S2P Require Import StateCommit.
From S2P Require Import StateChain.
From S2P Require Import ChunkBlobs.
From S2P Require Import Pool.
From S2P Require Import NodeRuntime.
From S2P Require Import NodeProduction.
From S2P Require Import Wire.
From S2P Require Import Ingress.
From S2P Require Import PeerAdmission.
From S2P Require Import Network.
From S2P Require Import Transport.
From S2P Require Import Session.
From S2P Require Import Serving.
From S2P Require Import PeerManager.

Module Syncing.
Import Wire.
Import Transport.
Import Session.
Import Conversations.
Import Serving.
Import Mesh.
Import PeerAdmission.
Import Passes.

(** ** Batches call by call *)

Create HintDb mirror discriminated.
Section mirror.
Context {N : Type} (consume : Z -> bytes -> io N bool).
Abbreviation log := (list (Z * bytes * bool)).

(** The calls of the callback, one after the other, in sessions of any state. *)
Inductive replay : N -> log -> N -> Prop :=
| replay_end n : replay n [] n
| replay_call height l s n r s1 n1 rest n2 : consume height l s n = (r, (s1, n1)) -> replay n1 rest n2 ->
    replay n ((height, l, match r with Ret b => b | Throw => false end) :: rest) n2.
Lemma replay_app n1 a n2 b n3 : replay n1 a n2 -> replay n2 b n3 -> replay n1 (a ++ b) n3.
Proof. intros Ha Hb. induction Ha; [done|]. by eapply replay_call; [|auto]. Qed.

(** The program with the record does what the one without it does. *)
Definition mirrors {A} (m : io N A) (m' : io (N * log) A) : Prop := forall s n calls,
  exists more, m' s (n, calls) = ((m s n).1, ((m s n).2.1, ((m s n).2.2, calls ++ more))) /\ replay n more (m s n).2.2.
Lemma mirrors_bind {A B} (m : io N A) m' (k : A -> io N B) k' : mirrors m m' -> (forall a, mirrors (k a) (k' a)) -> mirrors (bind m k) (bind m' k').
Proof.
  intros Hm Hk s n calls. unfold bind. destruct (Hm s n calls) as (more & -> & Hr). destruct (m s n) as [[a|] [s1 n1]]; cbn in *; [|by exists more].
  destruct (Hk a s1 n1 (calls ++ more)) as (more' & -> & Hr'). exists (more ++ more'). rewrite app_assoc. split; [done|]. by eapply replay_app.
Qed.
(** Programs that do not look at the world. *)
Lemma mirrors_free {A} (m : io N A) (m' : io (N * log) A) :
  (forall s n x, exists r s1, m s n = (r, (s1, n)) /\ m' s x = (r, (s1, x))) -> mirrors m m'.
Proof.
  intros Hm s n calls. destruct (Hm s n (n, calls)) as (r & s1 & -> & ->). exists []. rewrite app_nil_r. split; [done|constructor].
Qed.
Lemma mirrors_give {A} (a : A) : mirrors (give a) (give a).
Proof. apply mirrors_free. intros s n x. by exists (Ret a), s. Qed.
Lemma mirrors_look {A} (f : PeerSession -> A) : mirrors (look f) (look f).
Proof. apply mirrors_free. intros s n x. by exists (Ret (f s)), s. Qed.
Lemma mirrors_change f : mirrors (change f) (change f).
Proof. apply mirrors_free. intros s n x. by exists (Ret tt), (f s). Qed.
Lemma mirrors_ReadExact k : mirrors (ReadExact k) (ReadExact k).
Proof.
  apply mirrors_free. intros s n x. unfold ReadExact. destruct (negb _); [by eexists _, _|]. destruct (read_loop _ _ _) as [[r rest] closes]. by eexists _, _.
Qed.
Lemma mirrors_Write f : mirrors (Write f) (Write f).
Proof.
  apply mirrors_free. intros s n x. unfold Write, WriteExact. destruct (EncodeFrame f); [|by eexists _, _].
  do 2 (destruct (negb _); [by eexists _, _|]). destruct (write_link _ _). by eexists _, _.
Qed.
Lemma mirrors_logged height l : mirrors (consume height l) (logged consume height l).
Proof.
  intros s n calls. unfold logged. cbn [fst snd]. destruct (consume height l s n) as [r [s1 n1]] eqn:E. eexists [_]. split; [done|].
  eapply replay_call; [exact E|constructor].
Qed.
#[local] Hint Resolve mirrors_give mirrors_look mirrors_change mirrors_ReadExact mirrors_Write mirrors_logged : mirror.
#[local] Ltac mirroring :=
  repeat first
    [ solve [auto with mirror nocore]
    | progress intros
    | apply mirrors_bind
    | lazymatch goal with
      | |- mirrors (if ?b then _ else _) _ => destruct b
      | |- mirrors (match ?x with _ => _ end) _ => destruct x
      end ].
Lemma mirrors_Read : mirrors Read Read.
Proof. unfold Read, close_socket. mirroring. Qed.
#[local] Hint Resolve mirrors_Read : mirror.
Lemma mirrors_receive fuel type size got : mirrors (receive_data fuel type size got) (receive_data fuel type size got).
Proof. revert got. induction fuel as [|fuel IH]; intros got; cbn [receive_data]; unfold read_type; mirroring. Qed.
Lemma mirrors_request_loop first_height max_blocks fuel count :
  mirrors (request_loop fuel first_height max_blocks consume count) (request_loop fuel first_height max_blocks (logged consume) count).
Proof.
  revert count. induction fuel as [|fuel IH]; intros count; cbn [request_loop]; cbv zeta; unfold read_failure, ReceiveData; mirroring. apply mirrors_receive.
Qed.
Lemma mirrors_RequestBlocks first_height max_blocks :
  mirrors (RequestBlocks first_height max_blocks consume) (RequestBlocks first_height max_blocks (logged consume)).
Proof.
  unfold RequestBlocks. apply mirrors_bind; [apply mirrors_look|]. intros peer. destruct (_ || _); [apply mirrors_give|].
  apply mirrors_bind; [apply mirrors_Write|]. intros []; cbn [negb]; [apply mirrors_request_loop|apply mirrors_give].
Qed.
(** What a batch did: calls in order, each on what the one before has left. *)
Lemma RequestBlocks_trace first_height max_blocks s n r s' n' : 0 <= first_height -> 0 <= max_blocks ->
  RequestBlocks first_height max_blocks consume s n = (r, (s', n')) ->
  exists calls, replay n calls n' /\ batch_log first_height max_blocks 0 calls r.
Proof.
  intros H0 H1 E. destruct (mirrors_RequestBlocks first_height max_blocks s n []) as (calls & El & Hr). rewrite E in El, Hr. cbn [fst snd app] in *.
  exists calls. split; [done|]. by eapply logged_batch.
Qed.
End mirror.

(** ** What a batch adds *)

Section sync.
Context `{CryptoOps} `{Addresses} {L : LevelDB} {Bs : BlobStore}.
Context (torn : OperationPool -> OperationPool).
#[local] Set Default Proof Using "Type".

(** The height of the chain, as the callback reads it. *)
Definition stands_at (n : Node) (h : Z) : Prop := forall x, (Runtime.GetFinalizedHeight (runtime n)).1 = Ret x -> default 0 x = h.
Lemma GetStatus_stands n st rt net : Runtime.GetStatus (runtime n) = (Ret st, rt) -> stands_at (mkNodeWorld rt net) (Runtime.st_finalized_height st).
Proof.
  unfold Runtime.GetStatus, Runtime.bind, Runtime.get, Runtime.state_snapshot, Runtime.finalized_head, Runtime.ask, Runtime.ret.
  destruct (StateStore.GetStateSnapshot _ _) as [loaded s] eqn:Es. destruct loaded as [loaded|]; [|by intros [=]]. cbn.
  destruct (GetFinalizedHead _) as [head|] eqn:Eh; [|by intros [=]]. destruct (StateStore.GetStateRoot _) as [root|]; [|by intros [=]].
  intros [= <- <-] x. cbn. unfold Runtime.GetFinalizedHeight, Runtime.ask, Runtime.store_height. cbn. rewrite Eh. by intros [= <-].
Qed.

(** One block: it counts at most once, and it counts when it is taken above
    the height of the chain. *)
Lemma consume_block_counts network height l s n res r s1 n1 res1 :
  consume_block torn network height l s (n, res) = (r, (s1, (n1, res1))) ->
  (sy_blocks_applied res1 = sy_blocks_applied res \/ sy_blocks_applied res1 = sy_blocks_applied res + 1) /\
  (forall h, stands_at n h -> h < height -> r = Ret true -> sy_blocks_applied res1 = sy_blocks_applied res + 1).
Proof.
  intros E. unfold consume_block in E. unfold bind at 1, work_out at 1, on_world at 1 in E.
  destruct (DeserializeFinalizedBlock l) as [block|]; [|injection E as <- _ _ <-; split; [by left|done]].
  unfold bind at 1, look at 1 in E. destruct block as [block|]; [|injection E as <- _ _ <-; split; [by left|done]].
  unfold bind at 1, with_runtime at 1, on_world at 1 in E. cbn [fst snd] in E.
  destruct (Runtime.GetFinalizedHeight (runtime n)) as [x rt] eqn:Eh. destruct x as [x|]; [|injection E as <- _ _ <-; split; [by left|done]].
  destruct (height <=? default 0 x) eqn:Ele.
  { apply Z.leb_le in Ele. unfold bind at 1, with_runtime at 1, on_world at 1 in E. cbn [fst snd] in E.
    split; [left; by destruct (Production.GetBlockAtHeight height _) as [[local|] rt2]; injection E as _ _ _ <-|].
    intros h Hh Hlt _. exfalso. unfold stands_at in Hh. rewrite Eh in Hh. specialize (Hh x eq_refl). lia. }
  destruct (_ || _); [injection E as <- _ _ <-; split; [by left|done]|].
  unfold bind at 1, work_out at 1, on_world at 1 in E. destruct (ComputeBlockId _) as [id|]; [|injection E as <- _ _ <-; split; [by left|done]].
  destruct (negb _); [injection E as <- _ _ <-; split; [by left|done]|].
  destruct (match m_peer s with Some _ => _ | None => _ end); [injection E as <- _ _ <-; split; [by left|done]|].
  unfold bind at 1, with_runtime at 1, on_world at 1 in E. cbn [fst snd] in E.
  destruct (Production.CommitBlock torn block true _) as [[result|] rt2]; [|injection E as <- _ _ <-; split; [by left|done]].
  destruct (negb _); [injection E as <- _ _ <-; split; [by left|done]|].
  injection E as <- _ _ <-. split; [by right|done].
Qed.
Lemma replay_counts network n res calls n1 res1 : replay (consume_block torn network) (n, res) calls (n1, res1) ->
  sy_blocks_applied res <= sy_blocks_applied res1 <= sy_blocks_applied res + zlen calls.
Proof.
  remember (n, res) as x eqn:Ex. remember (n1, res1) as y eqn:Ey. intros Hr. revert n res Ex.
  induction Hr as [x|height l s x r s1 y1 rest y2 E _ IH]; intros n res ->; [injection Ey as -> ->; rewrite zlen_nil; lia|].
  destruct y1 as [n2 res2]. destruct (consume_block_counts _ _ _ _ _ _ _ _ _ _ E) as [Hc _]. specialize (IH Ey n2 res2 eq_refl). rewrite zlen_cons. lia.
Qed.
(** A batch from the block above the chain on. *)
Lemma batch_counts network h remaining s n res r s' n1 res1 : 0 <= h -> 0 <= remaining -> stands_at n h ->
  RequestBlocks (h + 1) remaining (consume_block torn network) s (n, res) = (r, (s', (n1, res1))) ->
  sy_blocks_applied res <= sy_blocks_applied res1 <= sy_blocks_applied res + remaining /\
  (forall b, r = Ret b -> bb_status b = BR_OK -> sy_blocks_applied res < sy_blocks_applied res1).
Proof.
  intros Hp Hq Hh E. apply RequestBlocks_trace in E as (calls & Hr & Hl); [|lia..]. destruct Hl as (L1 & L2 & _ & _ & L3).
  pose proof (replay_counts _ _ _ _ _ _ Hr) as Hc. split; [lia|]. intros b Eb Eok. specialize (L3 b Eb). rewrite Eok in L3. destruct L3 as (Lz & Lp & Lt).
  inversion Hr as [|height l s1 x rc s2 y1 rest y2 Ec Hrest]; subst; [by rewrite Lz in Lp|]. rewrite zlen_cons in L1. pose proof (zlen_nonneg rest).
  cbn in L1. rewrite seqZ_cons in L1 by lia. injection L1 as Lh _. apply Forall_cons in Lt as [Lt _]. cbn in Lt. destruct y1 as [n2 res2].
  apply consume_block_counts in Ec as [_ Ec]. pose proof (replay_counts _ _ _ _ _ _ Hrest). destruct rc as [[]|]; [|done..]. specialize (Ec h Hh ltac:(lia) eq_refl). lia.
Qed.

(** ** The loop *)

Context {Laws : LevelDBLaws L}.
#[local] Set Default Proof Using "Type + Laws".

Lemma request_batch_counts e h remaining network result m n r m' n' : 0 <= h -> 0 <= remaining -> stands_at n h ->
  request_batch torn e (h + 1) remaining network result m n = (Ret r, (m', n')) ->
  sy_blocks_applied result <= sy_blocks_applied r.1.2 <= sy_blocks_applied result + remaining /\
  (bb_status r.1.1 = BR_OK -> sy_blocks_applied result < sy_blocks_applied r.1.2).
Proof.
  intros Hp Hq Hh E. unfold request_batch in E. destruct (m_peers m !! e) as [s|]; [|done].
  destruct (RequestBlocks (h + 1) remaining (consume_block torn network) s (n, result)) as [[batch|] [s' [n1 res1]]] eqn:Eb; [|done]. cbn in E. injection E as <- _ _. cbn [fst snd].
  apply batch_counts in Eb as [H1 H2]; [|done..]. split; [done|]. by apply H2.
Qed.
(** A height that fits, so that the next one is the successor. *)
Lemma head_height n st rt : Runtime.GetStatus n = (Ret st, rt) -> 0 <= Runtime.st_finalized_height st <= MAX64.
Proof.
  unfold Runtime.GetStatus, Runtime.bind, Runtime.get, Runtime.state_snapshot, Runtime.finalized_head, Runtime.ask, Runtime.ret.
  destruct (StateStore.GetStateSnapshot _ _) as [[loaded|] s]; [|by intros [=]]. cbn.
  destruct (GetFinalizedHead _) as [head|] eqn:Eh; [|by intros [=]]. destruct (StateStore.GetStateRoot _) as [root|]; [|by intros [=]].
  intros [= <- _]. cbn. destruct head as [head|]; [|cbn; ulia]. apply kv_Read_stored in Eh. symmetry in Eh. unfold stored in Eh.
  destruct (_ !! _); [|done]. apply DecodeFinalizedHead_range in Eh. cbn. ulia.
Qed.
Lemma sync_loop_returns fuel : forall e max_blocks result m n r m' n', is_u64 max_blocks -> 0 <= sy_blocks_applied result <= max_blocks ->
  (Z.to_nat (max_blocks - sy_blocks_applied result) <= fuel)%nat -> sync_loop torn fuel e max_blocks result m n = (Ret r, (m', n')) ->
  exists result', r = Some result' /\ sy_blocks_applied result <= sy_blocks_applied result' <= max_blocks.
Proof.
  induction fuel as [|fuel IH]; intros e max_blocks result m n r m' n' Hu Hr Hf E; cbn [sync_loop] in E; destruct (max_blocks <=? _) eqn:Ele;
    try (injection E as <- _ _; apply Z.leb_le in Ele; exists result; split; [done|lia]); apply Z.leb_gt in Ele; [lia|].
  unfold after at 1, at_node in E. destruct (Runtime.GetStatus (runtime n)) as [[st|] rt] eqn:Est; [|done].
  pose proof (head_height _ _ _ Est) as Hst. pose proof (GetStatus_stands n st rt (network n) Est) as Hat.
  destruct (_ || _) eqn:Estop; [injection E as <- _ _; exists (set_status SY_PROTOCOL_ERROR result); split; [done|cbn; lia]|].
  apply orb_false_iff in Estop as [_ Estop%Z.eqb_neq]. rewrite add64_small in E by ulia. cbv zeta in E.
  unfold after at 1 in E. destruct (request_batch _ _ _ _ _ _ m _) as [[[[batch result1] peer]|] [m1 n1]] eqn:Eb; [|done].
  rewrite sub64_small in Eb by ulia. apply request_batch_counts in Eb as [H1 H2]; [|lia|unfold MAX_BLOCK_BATCH; lia|done]. cbn [fst snd] in *.
  assert (Hmore : sy_blocks_applied result1 <= max_blocks) by lia.
  destruct (bb_status batch).
  - specialize (H2 eq_refl). apply IH in E as (result' & -> & Hres); [|done|lia|lia]. exists result'. split; [done|lia].
  - destruct (_ <=? _); injection E as <- _ _; (eexists; split; [done|cbn; lia]).
  - injection E as <- _ _. eexists. split; [done|cbn; lia].
  - injection E as <- _ _. eexists. split; [done|cbn; lia].
  - injection E as <- _ _. eexists. split; [done|cbn; lia].
Qed.

Lemma SyncFromPeer_returns host port max_blocks m n r m' n' : is_u64 max_blocks ->
  SyncFromPeer torn (Z.to_nat max_blocks) host port max_blocks m n = (Ret r, (m', n')) ->
  exists result, r = Some result /\ 0 <= sy_blocks_applied result <= max_blocks.
Proof.
  intros Hu E. assert (Hm : 0 <= max_blocks) by ulia. unfold SyncFromPeer in E. cbv zeta in E.
  assert (Hnone : forall st, r = Some (mkSync st 0 false) -> exists result, r = Some result /\ 0 <= sy_blocks_applied result <= max_blocks).
  { intros st ->. eexists. split; [done|cbn; lia]. }
  destruct (CanonicalEndpoint host port) as [e|]; [|injection E as <- _ _; by eapply Hnone]. unfold after at 1, see in E.
  destruct (m_peers m !! e) as [s|]; [|injection E as <- _ _; by eapply Hnone].
  destruct (negb _); [injection E as <- _ _; by eapply Hnone|].
  apply sync_loop_returns in E as (result & -> & Hres); [|done|cbn; lia|cbn; lia]. exists result. split; [done|]. cbn in Hres. lia.
Qed.

(** ** The pass *)

Lemma after_Ret {A B} (p : pm A) (k : A -> pm B) m n r x : after p k m n = (Ret r, x) ->
  exists a m1 n1, p m n = (Ret a, (m1, n1)) /\ k a m1 n1 = (Ret r, x).
Proof. unfold after. destruct (p m n) as [[a|] [m1 n1]]; [|done]. intros E. by exists a, m1, n1. Qed.
#[local] Ltac next E := apply after_Ret in E as (? & ? & ? & _ & E).

Context (policy : option (option FrenchIpDataset)) (retry_identity : Runtime.act unit) (env : Surroundings).
Lemma after_attempt_counts max_blocks e attempt t m n t' ends x : is_u64 max_blocks -> 0 <= ta_applied t <= max_blocks ->
  0 <= sy_blocks_applied attempt <= max_blocks - ta_applied t ->
  after_attempt env max_blocks e attempt t m n = (Ret (t', ends), x) -> 0 <= ta_applied t' <= max_blocks.
Proof.
  intros Hu Ht Ha E. unfold after_attempt in E. destruct (sy_status attempt); cbv zeta in E; try (next E; by injection E as <- _ _).
  injection E as <- _ _. cbn. rewrite add64_small by ulia. lia.
Qed.
Lemma sync_each_returns catching max_blocks peers : is_u64 max_blocks -> forall t m n r x, 0 <= ta_applied t <= max_blocks ->
  sync_each torn env catching max_blocks peers t m n = (Ret r, x) -> exists t', r = Some t' /\ 0 <= ta_applied t' <= max_blocks.
Proof.
  intros Hu. induction peers as [|e rest IH]; intros t m n r x Ht E; cbn [sync_each] in E; [injection E as <- _; by exists t|].
  next E. cbv zeta in E. rewrite sub64_small in E by ulia. apply after_Ret in E as (attempt & m2 & n2 & Es & E).
  apply SyncFromPeer_returns in Es as (result & -> & Hres); [|ulia]. apply after_Ret in E as ([t' ends] & m3 & n3 & Ea & E).
  apply after_attempt_counts in Ea; [|done..]. destruct ends; [injection E as <- _; by exists t'|]. by eapply IH.
Qed.

(** C21: a pass over the mesh ends. Whatever its peers answer, a pass of
    [SyncFromConfiguredPeer] that no exception ends comes to a result: with
    each peer it needs no more rounds than the blocks it is still allowed,
    since a batch that a peer completes has brought a block to the chain; and
    over all peers it counts no more blocks than it was allowed. *)
Theorem SyncFromConfiguredPeer_returns max_blocks u m n r x : is_u64 max_blocks ->
  SyncFromConfiguredPeer torn policy retry_identity env max_blocks u m n = (Ret r, x) ->
  exists result u', r = Some (result, u') /\ 0 <= sy_blocks_applied result <= max_blocks.
Proof.
  intros Hu E. unfold SyncFromConfiguredPeer in E. do 3 next E.
  assert (Hplain : forall st u', r = Some (plain_status st, u') -> exists result u', r = Some (result, u') /\ 0 <= sy_blocks_applied result <= max_blocks).
  { intros st u' ->. eexists _, _. split; [done|]. cbn. ulia. }
  destruct (bool_decide _); [injection E as <- _; by eapply Hplain|]. destruct (_ || _); [injection E as <- _; by eapply Hplain|].
  do 5 next E. unfold exchange in E. next E. destruct (bool_decide _); [injection E as <- _; by eapply Hplain|]. do 2 next E.
  apply after_Ret in E as (tally & m2 & n2 & Es & E). apply sync_each_returns in Es as (t & -> & Ht); [|done|cbn; ulia]. cbv zeta in E.
  do 2 next E. injection E as <- _. eexists _, _. split; [done|exact Ht].
Qed.
End sync.
End Syncing.

(** * A batch of blocks from one node to another

    What a node that asks for blocks gets from a node that holds them: the
    blocks of its chain, in order, over any connection that works. *)

Module Batches.
Import Wire.
Import Transport.
Import Framing.
Import Session.
Import Conversations.
Import Serving.

Section batches.
Context `{CryptoOps} `{Addresses} {L : LevelDB} {Laws : LevelDBLaws L} {Bs : BlobStore}.
#[local] Set Default Proof Using "Type + Laws".

(** ** The blocks of a chain, as they are sent *)

(** A block and its encoding, and the id that its block has. *)
Definition encodes (id : Hash256) (l : bytes) : Prop :=
  exists fb, DeserializeFinalizedBlock l = Ret (Some fb) /\ ComputeBlockId (fin_block fb) = Ret id.
Lemma finalized_not_empty fb l : SerializeFinalizedBlock fb = Ret (Some l) -> 0 < zlen l.
Proof.
  unfold SerializeFinalizedBlock. intros E. walk E. apply (inj Ret), (inj Some) in E as <-.
  match goal with |- 0 < zlen (sized ?a ++ sized ?b) => pose proof (zlen_nonneg a); pose proof (zlen_nonneg b) end.
  rewrite zlen_app, !zlen_sized. lia.
Qed.
Lemma stored_sendable d id fb : stored_block (contents d) id fb ->
  exists l, SerializeFinalizedBlock fb = Ret (Some l) /\ sendable l /\ encodes id l.
Proof.
  intros ((Ht & Hz) & Hid & l & El & _). exists l. pose proof (Hz _ El) as Hmax. unfold MAX_COMPACT_SIZE in Hmax. split_and!; [done| |].
  - split; [by eapply finalized_not_empty|unfold MAX_FINALIZED_BLOCK_BYTES; lia].
  - exists fb. split; [|done]. apply finalized_decode; [done|ulia|done].
Qed.
(** A database that answers every read. *)
Definition readable (d : db) : Prop := forall k, db_Get d k <> Throw.
Lemma chain_block anchor p d chain i id : represents anchor p (contents d) chain -> readable d -> chain !! i = Some id ->
  exists fb l, GetBlockAtHeight d (Z.of_nat i + 1) = Ret (Some fb) /\ SerializeFinalizedBlock fb = Ret (Some l) /\ sendable l /\ encodes id l.
Proof.
  intros Hrep Hg Hi. destruct (rp_blocks _ _ _ _ Hrep (take i chain) id (drop (S i) chain)) as (fb & Hs & Hh & _ & Hk); [by rewrite take_drop_middle|].
  assert (Hi' : zlen (take i chain) = Z.of_nat i) by (unfold zlen; rewrite length_take; apply lookup_lt_Some in Hi; lia). rewrite Hi' in *.
  destruct (stored_sendable _ _ _ Hs) as (l & El & Hl & He). exists fb, l. split_and!; [|done..].
  rewrite <- Hh. apply (GetBlockAtHeight_stored d id); [done|done|lia|by rewrite Hh].
Qed.

(** ** The server's side *)

Lemma send_blocks_at anchor p (server : Node) chain : represents anchor p (contents (Runtime.chain_db (Runtime.m_chain (runtime server)))) chain -> readable (Runtime.chain_db (Runtime.m_chain (runtime server))) ->
  forall ids first count s0 s input output, 0 < first -> 0 <= count -> first + count + zlen ids <= MAX64 ->
    ids = take (length ids) (drop (Z.to_nat (first + count - 1)) chain) -> at_point s0 s input output ->
  exists blocks s', Forall2 encodes ids blocks /\ Forall sendable blocks /\
    send_blocks (length ids) first count s server = (Ret (Some (count + zlen ids)), (s', server)) /\
    at_point s0 s' input (output ++ stream (batch_frames (first + count) blocks)).
Proof.
  intros Hok Hg. induction ids as [|id ids IH]; intros first count s0 s input output H1 H2 H3 Hids Hs; cbn [length send_blocks].
  - exists [], s. rewrite zlen_nil, Z.add_0_r. cbn. rewrite app_nil_r. by split_and!.
  - rewrite zlen_cons in *. pose proof (zlen_nonneg ids). cbn [length] in Hids. set (i := Z.to_nat (first + count - 1)) in *.
    destruct (drop i chain) as [|id' rest] eqn:Ed; [done|]. cbn [take] in Hids. injection Hids as <- Hids.
    assert (Hi : chain !! i = Some id) by (rewrite <- (Nat.add_0_r i), <- lookup_drop, Ed; done).
    destruct (chain_block _ _ _ _ _ _ Hok Hg Hi) as (fb & l & Eb & El & Hl & He).
    replace (Z.of_nat i + 1) with (first + count) in Eb by (unfold i; lia).
    rewrite add64_small by ulia. unfold bind at 1, on_runtime, Production.GetBlockAtHeight, Runtime.ask, on_world at 1. rewrite Eb.
    assert (Hsrv : mkNodeWorld (runtime server) (network server) = server) by (by destruct server). rewrite Hsrv.
    unfold calculated, bind at 1, on_world at 1. rewrite El. unfold bind at 1.
    destruct (SendBlock_at s0 s input output server (first + count) l Hl Hs) as (s1 & -> & A1). cbn [negb].
    destruct (IH first (count + 1) s0 s1 input (output ++ stream (block_frames (first + count) l))) as (blocks & s2 & F1 & F2 & -> & A2); [lia..| |done|].
    { replace (Z.to_nat (first + (count + 1) - 1)) with (i + 1)%nat by (unfold i; lia). by rewrite <- drop_drop, Ed. }
    exists (l :: blocks), s2. split_and!; [by constructor|by constructor|do 3 f_equal; lia|]. cbn [batch_frames]. rewrite stream_app, app_assoc.
    by rewrite <- Z.add_assoc.
Qed.
Context (torn : OperationPool -> OperationPool) (sign : bytes -> option bytes) (payout : option StoragePayoutBinding)
  (space : option (Z * Z)) (now : Z).
Lemma ServeNext_blocks anchor p (server : Node) chain first k s0 s input output : represents anchor p (contents (Runtime.chain_db (Runtime.m_chain (runtime server)))) chain ->
  readable (Runtime.chain_db (Runtime.m_chain (runtime server))) -> m_peer s0 <> None -> 0 < first -> 0 < k <= MAX_BLOCK_BATCH ->
  first + k - 1 <= zlen chain -> zlen chain < MAX64 -> at_point s0 s (frame_bytes (request_frame first k) ++ input) output ->
  exists blocks s', Forall2 encodes (take (Z.to_nat k) (drop (Z.to_nat (first - 1)) chain)) blocks /\ Forall sendable blocks /\
    ServeNext torn sign payout space now s server = (Ret true, (s', server)) /\ at_point s0 s' input (output ++ reply first blocks).
Proof.
  intros Hok Hg Hp Hf Hk Hlast Hmax Hs. unfold MAX_BLOCK_BATCH in Hk. set (slice := take _ _).
  assert (Hlen : length slice = Z.to_nat k) by (unfold slice, zlen in *; rewrite length_take, length_drop; lia).
  assert (Hz : zlen slice = k) by (unfold zlen; lia). unfold ServeNext. unfold bind at 1, look at 1.
  rewrite (ap_peer _ _ _ _ Hs), bool_decide_true by (by apply not_eq_None_Some). cbn [negb]. unfold bind at 1.
  destruct (read_at s0 s input output server _ (request_frame_fits first k) Hs) as (s1 & -> & A1). cbn [fr_type fr_payload request_frame].
  unfold serve_blocks. assert (Hpl : zlen (le_bytes 8 first ++ [bz k]) = 9) by len. rewrite Hpl. cbn [Z.eqb Pos.eqb negb].
  assert (E1 : le_val (subspan (le_bytes 8 first ++ [bz k]) 0 8) = first).
  { replace (subspan _ 0 8) with (le_bytes 8 first) by (symmetry; by cut). apply le_val_u64. ulia. }
  assert (E2 : le_val (subspan (le_bytes 8 first ++ [bz k]) 8 1) = k).
  { replace (subspan _ 8 1) with [bz k] by (symmetry; by cut). change [bz k] with (le_bytes 1 k). apply le_val_u8. ulia. }
  rewrite E1, E2. assert (Hr : bad_range first k = false).
  { unfold bad_range, MAX_BLOCK_BATCH. rewrite !orb_false_iff, !Z.eqb_neq, !Z.ltb_ge. lia. }
  rewrite Hr. unfold bind at 1. rewrite <- Hlen.
  destruct (send_blocks_at anchor p server chain Hok Hg slice first 0 s0 s1 input output) as (blocks & s2 & F1 & F2 & E & A2); [lia..| |done|].
  { unfold slice at 1. rewrite Hlen. f_equal. f_equal. lia. }
  rewrite E. assert (Hb : zlen blocks = k) by (apply Forall2_length in F1; unfold zlen in *; lia).
  destruct (write_at s0 s2 input _ server (end_frame k) (end_frame_fits k) A2) as (s3 & Ew & A3).
  rewrite Z.add_0_l, Hz. exists blocks, s3. split_and!; [done|done|exact Ew|]. unfold reply. rewrite Hb, app_assoc. by rewrite Z.add_0_r in A3.
Qed.

(** ** Both sides *)

(** A callback that keeps the blocks. *)
Definition keep_block (height : Z) (l : bytes) : io (list bytes) bool := on_world (fun kept => (Ret true, kept ++ [l])).
Lemma keep_consumes s0 blocks : forall height kept, consumes keep_block s0 height blocks kept (kept ++ blocks).
Proof using.
  induction blocks as [|l blocks IH]; intros height kept; [rewrite app_nil_r; constructor|].
  apply consumes_block with (n1 := kept ++ [l]); [done|]. replace (kept ++ l :: blocks) with ((kept ++ [l]) ++ blocks) by (by rewrite <- app_assoc). apply IH.
Qed.

(** C19: blocks reach another node. A node whose store holds a chain answers a
    request for a stretch of it by that stretch; and a node that sends such a
    request, and gets what the other one writes in pieces of any size, takes
    exactly these blocks, in their order: each one decodes to a block with the
    id that the chain has at its height. *)
Theorem batch_crosses anchor p chain (server : Node) first k (at_server at_client : PeerSession) script : represents anchor p (contents (Runtime.chain_db (Runtime.m_chain (runtime server)))) chain ->
  readable (Runtime.chain_db (Runtime.m_chain (runtime server))) -> 0 < first -> 0 < k <= MAX_BLOCK_BATCH ->
  first + k - 1 <= zlen chain -> zlen chain < MAX64 -> m_peer at_server <> None -> m_peer at_client <> None ->
  at_point at_server at_server (frame_bytes (request_frame first k)) [] -> at_point at_client at_client [] [] ->
  exists blocks at_server', Forall2 encodes (take (Z.to_nat k) (drop (Z.to_nat (first - 1)) chain)) blocks /\
    ServeNext torn sign payout space now at_server server = (Ret true, (at_server', server)) /\
    (flowing script -> content script = lk_sent (m_socket at_server') ->
     exists at_client', RequestBlocks first k keep_block (set_link (set_incoming script (m_socket at_client)) at_client) [] =
         (Ret (mkBatch BR_OK k), (at_client', blocks)) /\
       lk_sent (m_socket at_client') = frame_bytes (request_frame first k) /\ content (lk_incoming (m_socket at_client')) = []).
Proof.
  intros Hok Hg Hf Hk Hlast Hmax Hp Hp' Hs Hc. rewrite <- (app_nil_r (frame_bytes _)) in Hs at 1.
  destruct (ServeNext_blocks anchor p server chain first k _ _ _ _ Hok Hg Hp Hf Hk Hlast Hmax Hs) as (blocks & s' & F1 & F2 & E & A).
  exists blocks, s'. split_and!; [done|done|]. intros Hflow Hcontent. unfold MAX_BLOCK_BATCH in Hk.
  assert (Hz : zlen blocks = k) by (apply Forall2_length in F1; unfold zlen in *; rewrite length_take, length_drop in F1; lia).
  destruct (RequestBlocks_at keep_block at_client first k blocks (set_link (set_incoming script (m_socket at_client)) at_client) [] [] [] blocks)
    as (c' & Ec & Ac); [done|lia|lia| |done|lia|apply (keep_consumes at_client blocks first [])| |].
  - unfold bad_range, MAX_BLOCK_BATCH. rewrite !orb_false_iff, !Z.eqb_neq, !Z.ltb_ge. lia.
  - destruct Hc. constructor; cbn; try done. rewrite app_nil_r, Hcontent. by rewrite (ap_output _ _ _ _ A).
  - exists c'. rewrite Ec, Hz, (proj2 (Z.eqb_neq _ _)) by lia. split_and!; [done|apply (ap_output _ _ _ _ Ac)|apply (ap_input _ _ _ _ Ac)].
Qed.
End batches.
End Batches.
