(* ===== verification/Scenario.v ===== *)
(** * A concrete network

    Concrete inputs on which the theorems are applied: a cryptographic
    provider that accepts every signature and hashes a message to its last
    bytes with a checksum in front, and a network of two accounts whose first
    block creates them, moves money to a system balance and pays. *)

From S2P Require Import Prelude.
From S2P Require Import Bytes.
From S2P Require Import Codec.
From S2P Require Import Params.
From S2P Require Import Crypto.
From S2P Require Import Identity.
From S2P Require Import Names.
From S2P Require Import Payloads.
From S2P Require Import Operation.
From S2P Require Import State.
From S2P Require Import Supply.
From S2P Require Import Ledger.
From S2P Require Import Executor.
From S2P Require Import ExecutorProofs.

Definition checksum (l : bytes) : byte := bz (foldl (fun a b => wrap8 (3 * a + zb b)) 1 l).
#[export] Instance demo_crypto : CryptoOps := {|
  evp_sha256 l := Some (arr_of 32 (x01 :: checksum (take 64 (rev_append l [])) :: take 30 (rev_append l [])));
  blake3 l := arr_of 32 (checksum l :: take 31 (rev_append l []));
  evp_raw_public_key _ _ := true;
  evp_digest_verify _ _ _ _ := true;
  evp_x25519_derive _ _ := Some (arr_of 32 [x01]);
|}.

Definition fill {n} (b : byte) : arr n := arr_of n (replicate (N.to_nat n) b).
Definition demo_net : Hash256 := fill x77.
Definition demo_parent : Hash256 := fill x44.
Definition demo_key (p : IdentityKeyPurpose) (b : byte) : IdentityHybridPublicKey :=
  mkPublicKey p (fill b) (replicate (Z.to_nat (PublicSize p)) b).
Definition demo_signature (p : IdentityKeyPurpose) : IdentityHybridSignature :=
  mkSignature (fill x05) (replicate (Z.to_nat (SignatureSize p)) x05).
Definition poa_key : IdentityHybridPublicKey := demo_key POA_FINALIZER x33.

(** The default parameters without proofs of work. *)
Definition demo_params : CybouProtocolParameters :=
  mkParams 0 1 100 20000 1024 1 4 4 0 1 1000 10000 true 5 2 86400 3650.
Lemma demo_params_wf : params_wf demo_params.
Proof. unfold params_wf. simpl. unfold is_u8, is_u32, is_u64. by split_and!. Qed.

(** ** Operations *)

Definition alice : AccountId := fill xa1.
Definition bob : AccountId := fill xb0.

Definition demo_package : arr 1218 := arr_of 1218 (bz 0x7a :: bz 0x64 :: replicate 1216 x09).
Definition demo_create (id : AccountId) (recovery auth : byte) : AccountCreateOp :=
  let auth := mkAuthorization (demo_key RECOVERY_ROOT recovery) (demo_key AUTHORIZATION auth) in
  let package := default ZERO (ComputeIdentityKemPackageCommitment demo_net id 0 (arr_val demo_package)) in
  let commitment := default ZERO (ComputeAccountCreateAuthorizationCommitment auth package) in
  mkAccountCreate id auth demo_package (mkWork demo_net id commitment 0 0)
    (demo_signature RECOVERY_ROOT) (demo_signature AUTHORIZATION).
Definition create_alice : AccountCreateOp := demo_create alice x11 x12.
Definition create_bob : AccountCreateOp := demo_create bob x21 x22.

Definition demo_auth (nonce : Z) (kind : IdentityOperationKind) (commitment : option IdentityKeyId) :=
  mkOpAuth alice nonce 0 kind (default ZERO commitment) (demo_signature AUTHORIZATION).
Definition demo_lock : AuthorizedSystemLock :=
  let p := mkSystemLockPayload 100 in
  mkAuthorizedSystemLock (demo_auth 0 KIND_SYSTEM_LOCK (ComputeSystemLockPayloadCommitment p)) p.
Definition demo_payment (nonce amount : Z) : AuthorizedPayment :=
  let p := mkPaymentPayload bob amount in
  mkAuthorizedPayment (demo_auth nonce KIND_PAYMENT (ComputePaymentPayloadCommitment p)) p.
Definition demo_ops : list ProtocolOperation :=
  [OpAccountCreate create_alice; OpAccountCreate create_bob; OpSystemLock demo_lock; OpPayment (demo_payment 1 7)].

(** ** States *)

Definition authority_id : IdentityKeyId := default ZERO (ComputeRecoveryKeyId (demo_key RECOVERY_ROOT x11)).
Definition demo_genesis : CybouState :=
  mkState ∅ (mkIdentityRegistry ∅ ∅) (mkNameRegistry ∅ ∅ ∅)
    {[ authority_id := mkAllocation GENESIS_MONETARY_BASE CENTRAL_AUTHORITY_NAME None ]} ∅ (mkCursor 0 0) ∅.
Definition demo_exec (s : CybouState) : BlockExecutor := new_executor s demo_net 1 demo_params (Some poa_key) demo_parent.
Definition demo_apply (s : CybouState) (op : ProtocolOperation) : CybouState :=
  match apply_to_candidate (demo_exec s) op with Ret (BE_NONE, s') => s' | _ => s end.
Definition demo_s1 : CybouState := demo_apply demo_genesis (OpAccountCreate create_alice).
Definition demo_s2 : CybouState := demo_apply demo_s1 (OpAccountCreate create_bob).
Definition demo_s3 : CybouState := demo_apply demo_s2 (OpSystemLock demo_lock).
Definition demo_s4 : CybouState := demo_apply demo_s3 (OpPayment (demo_payment 1 7)).

Lemma demo_apply_ok s op : bool_decide (fst <$> match apply_to_candidate (demo_exec s) op with Ret p => Some p | Throw => None end = Some BE_NONE) = true ->
  apply_to_candidate (demo_exec s) op = Ret (BE_NONE, demo_apply s op).
Proof.
  intros E%bool_decide_eq_true. unfold demo_apply. by destruct (apply_to_candidate _ _) as [[[] s']|]; simplify_eq/=.
Qed.
Lemma demo_create_alice_ok : apply_to_candidate (demo_exec demo_genesis) (OpAccountCreate create_alice) = Ret (BE_NONE, demo_s1).
Proof. apply demo_apply_ok. vm_compute. reflexivity. Qed.
Lemma demo_create_bob_ok : apply_to_candidate (demo_exec demo_s1) (OpAccountCreate create_bob) = Ret (BE_NONE, demo_s2).
Proof. apply demo_apply_ok. vm_compute. reflexivity. Qed.
Lemma demo_lock_ok : apply_to_candidate (demo_exec demo_s2) (OpSystemLock demo_lock) = Ret (BE_NONE, demo_s3).
Proof. apply demo_apply_ok. vm_compute. reflexivity. Qed.
Lemma demo_payment_ok : apply_to_candidate (demo_exec demo_s3) (OpPayment (demo_payment 1 7)) = Ret (BE_NONE, demo_s4).
Proof. apply demo_apply_ok. vm_compute. reflexivity. Qed.

(** ** The ledger steps of the first block *)

Lemma demo_candidate s : ValidateCybouState s = SV_NONE -> m_candidate (demo_exec s) = purge_commits demo_params 1 s.
Proof. intros E. unfold demo_exec, new_executor. by rewrite E. Qed.
Lemma demo_step s op s' : ValidateCybouState s = SV_NONE -> operation_wf op ->
  apply_to_candidate (demo_exec s) op = Ret (BE_NONE, s') -> rtc ledger_step s s'.
Proof.
  intros V W E. eapply rtc_l; [apply (step_purge demo_params 1)|]. eapply rtc_l; [|apply rtc_refl].
  rewrite <- demo_candidate by done. apply (step_apply _ op); [|done|done].
  unfold demo_exec, new_executor. case_match; apply demo_params_wf.
Qed.
Lemma demo_steps : rtc ledger_step demo_genesis demo_s4.
Proof.
  etrans; [eapply demo_step, demo_create_alice_ok; [by vm_compute|done]|].
  etrans; [eapply demo_step, demo_create_bob_ok; [by vm_compute|done]|].
  etrans; [eapply demo_step, demo_lock_ok; [by vm_compute|vm_compute; done]|].
  eapply demo_step, demo_payment_ok; [by vm_compute|vm_compute; done].
Qed.

Lemma demo_genesis_money : money_wf demo_genesis.
Proof.
  split; [|by vm_compute]. split; simpl.
  - apply map_Forall_empty.
  - apply map_Forall_singleton. vm_compute. done.
  - apply map_Forall_empty.
Qed.
