(* ===== verification/NodeScenario.v ===== *)
(** * A concrete node

    A network with its signed genesis, two blocks that compete for its first
    height, and what a node does with them on a database in memory. *)

From S2P Require Import Prelude.
From S2P Require Import Bytes.
From S2P Require Import Codec.
From S2P Require Import Params.
From S2P Require Import Crypto.
From S2P Require Import Identity.
From S2P Require Import Names.
From S2P Require Import SettlementData.
From S2P Require Import Operation.
From S2P Require Import State.
From S2P Require Import StateCodec.
From S2P Require Import Executor.
From S2P Require Import Block.
From S2P Require Import KVStore.
From S2P Require Import Journal.
From S2P Require Import Detector.
From S2P Require Import NetworkGenesis.
From S2P Require Import StateStore.
From S2P Require Import Pool.
From S2P Require Import Scenario.

(** * A database in memory

    An implementation of the interface [LevelDB] with proved laws: the
    contents in a map, the older contents that a crash can bring back, and a
    list of faults, one per write to come. It shows that the documented
    behaviour the store relies on can be had, and runs the examples. *)

Record MemoryDB : Type := mkMemory {
  md_contents : gmap bytes bytes;
  md_older : list (gmap bytes bytes);
  md_faults : list bool;
}.
(** A write that fails can still be found after a crash. *)
Definition memory_Write (d : MemoryDB) (batch : list BatchEntry) (sync : bool) : bool * MemoryDB :=
  let next := apply_batch (md_contents d) batch in
  if default false (head (md_faults d))
  then (false, mkMemory (md_contents d) (next :: md_older d) (tail (md_faults d)))
  else (true, mkMemory next (if sync then [] else md_contents d :: md_older d) (tail (md_faults d))).

#[export] Instance memory_db : LevelDB := {|
  db := MemoryDB;
  contents := md_contents;
  durable d m := m = md_contents d \/ m ∈ md_older d;
  db_Get d k := Ret (md_contents d !! k);
  db_Write := memory_Write;
  db_Iterator d first := records_from first (md_contents d);
  db_Status _ _ _ := true;
|}.
#[export] Instance memory_laws : LevelDBLaws memory_db.
Proof.
  constructor; cbn.
  - by intros d k v [= <-].
  - intros d b sync d' E. unfold memory_Write in E. cbv zeta in E. case_match; [done|]. by injection E as <-.
  - intros d b sync d' E. unfold memory_Write in E. cbv zeta in E. case_match; [|done]. by injection E as <-.
  - intros d b d' m E. unfold memory_Write in E. cbv zeta in E. case_match; [done|]. injection E as <-. cbn.
    by intros [|?%elem_of_nil].
  - intros d b sync ok d' m E. unfold memory_Write in E. cbv zeta in E.
    case_match; injection E as <- <-; cbn; [|destruct sync]; rewrite ?elem_of_cons, ?elem_of_nil; tauto.
  - done.
Qed.

Definition empty_db : MemoryDB := mkMemory ∅ [] [].
(** The database reopened with what a crash left. *)
Definition reopen (m : gmap bytes bytes) : MemoryDB := mkMemory m [] [].
Lemma reopen_reopened d m : durable d m -> reopened d (reopen m).
Proof. intros Hd. split; [done|]. cbn. by intros m' [|?%elem_of_nil]. Qed.

(** * The node *)

(** ** The genesis *)

Definition network_key : GenesisKey := mkGenesisKey (purpose_byte NETWORK_ROOT) (fill x91) (replicate 1952 x92).
Definition finalizer_key : GenesisKey := mkGenesisKey (purpose_byte POA_FINALIZER) (fill x33) (replicate 1952 x33).
Definition signed_genesis : NetworkGenesis :=
  mkGenesis network_key (default ZERO (CybouStateHash demo_genesis true)) finalizer_key demo_params (demo_signature NETWORK_ROOT).
Definition node_genesis : VerifiedNetworkGenesis :=
  match Create signed_genesis with Ret (Some g) => g | _ => mkVerifiedGenesis signed_genesis [] ZERO end.
Lemma node_genesis_created : Create signed_genesis = Ret (Some node_genesis).
Proof.
  assert (E : match Create signed_genesis with Ret (Some _) => true | _ => false end = true) by (vm_compute; reflexivity).
  unfold node_genesis. by destruct (Create signed_genesis) as [[g|]|].
Qed.
Definition node_net : Hash256 := match ComputeNetworkBinding network_key with Ret h => h | Throw => ZERO end.
Definition anchor : Hash256 := GetGenesisAnchor node_genesis.

(** ** Two blocks at height 1 *)

Definition demo_settlement : ProtocolOperation :=
  OpStorageSettlement (mkSettlement 0 1000 [] (demo_signature POA_FINALIZER) PAY ZERO ZERO 0 [] [] 87400 (fill xee) []).
Definition node_block (operations : list ProtocolOperation) : CybouBlock :=
  let x := ExecuteBlockOperations demo_genesis operations node_net 1 demo_params (Some poa_key) anchor in
  mkBlock anchor 1 operations (match x with Ret r => default ZERO (res_state_root r) | Throw => ZERO end).
Definition finalize (block : CybouBlock) : FinalizedBlock :=
  mkFinalizedBlock block (mkCertificate node_net (match ComputeBlockId block with Ret id => id | Throw => ZERO end)
    (blk_height block) (blk_parent_block_id block) (demo_signature POA_FINALIZER)).
Definition block_a : CybouBlock := node_block [demo_settlement].
Definition block_b : CybouBlock := node_block [].

(** ** The finalizer *)

Definition demo_signer : PoaSigner := mkSigner (Some poa_key) (fun _ => Some (demo_signature POA_FINALIZER)).
Definition new_finalizer : PoaFinalizer :=
  mkFinalizer node_net poa_key None (mkJournal node_net anchor ZERO [] (mkJournalHead 0 ZERO anchor) 0 ZERO false true).
(** The finalizer opened on a database, its signer enabled. *)
Definition started (d : MemoryDB) : PoaFinalizer :=
  match (open_finalizer d node_net anchor poa_key).1 with Ret f => (EnableSigner f (Some demo_signer)).2 | Throw => new_finalizer end.
Definition after_open (d : MemoryDB) : MemoryDB := (open_finalizer d node_net anchor poa_key).2.
Definition signing (f : PoaFinalizer) (d : MemoryDB) (block : CybouBlock) : outcome PoaSigningResult * PoaFinalizer * MemoryDB :=
  SignFinality f d 0 anchor block.
Definition first_signing := signing (started empty_db) (after_open empty_db) block_a.
(** What the crash leaves, and the same block signed again. *)
Definition crashed : MemoryDB := reopen (md_contents first_signing.2).
Definition second_signing := signing (started crashed) (after_open crashed) block_a.

(** ** The store *)

Definition opened := open_store empty_db node_genesis.
Definition new_store : CybouStateStore :=
  match opened.1 with Ret s => s | Throw => mkStore node_genesis ZERO (mkDetector ZERO poa_key [] true) None end.
Definition initialized := InitializeGenesis new_store opened.2 demo_genesis true.
Definition node_s0 : CybouStateStore := initialized.1.2.
Definition node_d0 : MemoryDB := initialized.2.
Definition commit_a := CommitFinalizedBlock node_s0 node_d0 (finalize block_a) true.

Lemma opened_eq : open_store empty_db node_genesis = (Ret new_store, opened.2).
Proof.
  assert (E : match opened.1 with Ret _ => true | Throw => false end = true) by (vm_compute; reflexivity).
  unfold new_store. fold opened. rewrite (surjective_pairing opened) at 1. by destruct opened.1.
Qed.
(** A result without the execution it carries. *)
Definition plain (r : outcome BlockTransitionResult) : option (BlockTransitionError * BlockExecutionError * Z * bool * bool) :=
  match r with
  | Ret r => let o := bt_op_result r in
      Some (bt_error r, res_error o, failed_operation_index o, bool_decide (is_Some (res_state o)), bool_decide (is_Some (res_state_root o)))
  | Throw => None
  end.
Lemma plain_transition r e : plain r = Some (e, BE_NONE, 0, false, false) -> r = Ret (transition e).
Proof.
  destruct r as [[e' [x i st root]]|]; [|done]. unfold plain. cbn. intros [= -> -> -> E1 E2].
  apply bool_decide_eq_false, eq_None_not_Some in E1 as ->. by apply bool_decide_eq_false, eq_None_not_Some in E2 as ->.
Qed.
Lemma initialized_eq : InitializeGenesis new_store opened.2 demo_genesis true = (Ret GI_NONE, node_s0, node_d0).
Proof. apply triple_eq. vm_compute. reflexivity. Qed.
Lemma commit_a_eq : CommitFinalizedBlock node_s0 node_d0 (finalize block_a) true = (Ret (transition BT_NONE), commit_a.1.2, commit_a.2).
Proof. apply triple_eq, plain_transition. vm_compute. reflexivity. Qed.

(** ** Commits *)

Definition commit_b := CommitFinalizedBlock commit_a.1.2 commit_a.2 (finalize block_b) true.
Lemma commit_b_eq : CommitFinalizedBlock commit_a.1.2 commit_a.2 (finalize block_b) true
  = (Ret (transition BT_POA_EQUIVOCATION_DETECTED), commit_b.1.2, commit_b.2).
Proof. apply triple_eq, plain_transition. vm_compute. reflexivity. Qed.

(** ** Conflict detectors *)

Definition cert_a : PoaFinalityCertificate := fin_certificate (finalize block_a).
Definition cert_b : PoaFinalityCertificate := fin_certificate (finalize block_b).
Definition demo_detector : PoaConflictDetector := ss_detector new_store.
(** What one node observes after another; and the order of a second node. *)
Definition observe_a := Observe demo_detector opened.2 cert_a block_a.
Definition observe_ab := Observe observe_a.1.2 observe_a.2 cert_b block_b.
Definition evidence_ab := ReadSafetyEvidence observe_ab.1.2 observe_ab.2.
Lemma observe_ab_eq : Observe observe_a.1.2 observe_a.2 cert_b block_b = (Ret PC_COMPETING_NON_CANONICAL, observe_ab.1.2, observe_ab.2).
Proof. apply triple_eq. vm_compute. reflexivity. Qed.

(** ** The pool *)

Definition demo_pool : OperationPool := Clear (mkPool default_limits [] ∅ ∅ 0 None).
Definition peer_1 : bytes := str "peer-1".
