(* ===== verification/Examples.v ===== *)
(** * Witnesses

    Each theorem about the ledger, its encodings and its services, applied to
    the concrete network of [Scenario] with its hypotheses discharged by
    evaluation. *)

From S2P Require Import Prelude.
From S2P Require Import Bytes.
From S2P Require Import Codec.
From S2P Require Import Params.
From S2P Require Import StorageEconomy.
From S2P Require Import Crypto.
From S2P Require Import Identity.
From S2P Require Import IdentityCodec.
From S2P Require Import Names.
From S2P Require Import Payloads.
From S2P Require Import Merkle.
From S2P Require Import Assignment.
From S2P Require Import SettlementData.
From S2P Require Import Operation.
From S2P Require Import OperationCodec.
From S2P Require Import State.
From S2P Require Import Supply.
From S2P Require Import Ledger.
From S2P Require Import LedgerProofs.
From S2P Require Import Settlement.
From S2P Require Import StateCodec.
From S2P Require Import StateCodecProofs.
From S2P Require Import Executor.
From S2P Require Import ExecutorProofs.
From S2P Require Import Transfers.
From S2P Require Import Block.
From S2P Require Import WireTypes.
From S2P Require Import Scenario.

(** ** Ledger *)

Lemma ledger_supply_constant_witness : TotalCybou demo_s4 = TotalCybou demo_genesis /\ money_wf demo_s4.
Proof. exact (ledger_supply_constant demo_genesis demo_s4 demo_genesis_money demo_steps). Defined.

Lemma demo_money s : rtc ledger_step demo_genesis s -> money_wf s.
Proof. intros Hs. exact (conserves_money _ _ (ledger_steps_conserve _ _ Hs demo_genesis_money) demo_genesis_money). Qed.

(** Facts about the states of the scenario that several witnesses share. *)
Lemma demo_registry s : rtc ledger_step demo_genesis s -> registry_wf (identities s).
Proof.
  intros Hs. pose proof (ledger_steps_registry _ _ Hs demo_genesis_money) as Hr.
  assert (H0 : registry_wf (identities demo_genesis)) by apply registry_wf_empty.
  induction Hr as [|r1 r2 r3 Hr _ IH]; [done|]. apply IH. by eapply registry_step_wf.
Qed.
Lemma demo_to_s1 : rtc ledger_step demo_genesis demo_s1.
Proof. eapply demo_step, demo_create_alice_ok; [by vm_compute|done]. Qed.
Lemma demo_to_s2 : rtc ledger_step demo_genesis demo_s2.
Proof. etrans; [apply demo_to_s1|]. eapply demo_step, demo_create_bob_ok; [by vm_compute|done]. Qed.
Lemma demo_to_s3 : rtc ledger_step demo_genesis demo_s3.
Proof. etrans; [apply demo_to_s2|]. eapply demo_step, demo_lock_ok; [by vm_compute|by vm_compute]. Qed.

Lemma demo_candidate_steps s : ValidateCybouState s = SV_NONE -> rtc ledger_step demo_genesis s ->
  rtc ledger_step demo_genesis (m_candidate (demo_exec s)).
Proof. intros V Hs. rewrite demo_candidate by done. eapply rtc_r; [done|apply step_purge]. Qed.
Lemma demo_exec_params s : m_params (demo_exec s) = demo_params.
Proof. unfold demo_exec, new_executor. by case_match. Qed.

Lemma demo_payment_wf : operation_wf (OpPayment (demo_payment 1 7)).
Proof. by vm_compute. Qed.

Definition demo_replay : BlockExecutionError * CybouState :=
  match apply_to_candidate (demo_exec demo_s4) (OpPayment (demo_payment 1 7)) with Ret p => p | Throw => (BE_NONE, demo_s4) end.
Lemma demo_replay_eq :
  apply_to_candidate (demo_exec demo_s4) (OpPayment (demo_payment 1 7)) = Ret (demo_replay.1, demo_replay.2).
Proof.
  assert (E : match apply_to_candidate (demo_exec demo_s4) (OpPayment (demo_payment 1 7)) with Ret _ => true | Throw => false end = true)
    by (vm_compute; reflexivity).
  unfold demo_replay. destruct (apply_to_candidate _ _) as [[e s2]|]; [reflexivity|discriminate E].
Qed.
Lemma ledger_no_replay_witness : bool_decide (demo_replay.1 = BE_NONE) = false.
Proof.
  apply bool_decide_eq_false_2.
  refine (ledger_no_replay (demo_exec demo_s3) (OpPayment (demo_payment 1 7)) (pay_authorization (demo_payment 1 7)) demo_s4
    (demo_exec demo_s4) (OpPayment (demo_payment 1 7)) demo_replay.1 demo_replay.2 _ _ _ _ _ _ _ demo_payment_ok _ demo_replay_eq).
  - apply demo_registry, demo_candidate_steps; [by vm_compute|apply demo_to_s3].
  - apply demo_money, demo_candidate_steps; [by vm_compute|apply demo_to_s3].
  - rewrite demo_exec_params. apply demo_params_wf.
  - rewrite demo_exec_params. apply demo_params_wf.
  - exact demo_payment_wf.
  - reflexivity.
  - reflexivity.
  - rewrite demo_candidate by (by vm_compute). apply rtc_once, step_purge.
Defined.

Lemma demo_genesis_typed : amounts_typed demo_genesis.
Proof.
  split; simpl; [apply map_Forall_empty| |apply map_Forall_empty]. apply map_Forall_singleton. by vm_compute.
Qed.
Definition demo_result : BlockExecutionResult :=
  match ExecuteBlockOperations demo_genesis demo_ops demo_net 1 demo_params (Some poa_key) demo_parent with
  | Ret r => r
  | Throw => error_result BE_INVALID_STATE
  end.
Lemma demo_result_ok : res_error demo_result = BE_NONE.
Proof. vm_compute. reflexivity. Qed.
Lemma demo_result_eq :
  ExecuteBlockOperations demo_genesis demo_ops demo_net 1 demo_params (Some poa_key) demo_parent = Ret demo_result.
Proof.
  pose proof demo_result_ok as E. unfold demo_result in *. by destruct (ExecuteBlockOperations _ _ _ _ _ _ _).
Qed.
Lemma ExecuteBlockOperations_correct_witness :
  res_error demo_result = BE_NONE /\ exists s', res_state demo_result = Some s' /\ TotalCybou s' = TotalCybou demo_genesis.
Proof.
  split; [exact demo_result_ok|].
  destruct (ExecuteBlockOperations_correct demo_genesis demo_ops demo_net 1 demo_params (Some poa_key) demo_parent demo_result
    demo_genesis_typed demo_params_wf) as [_ H].
  - repeat constructor; by vm_compute.
  - exact demo_result_eq.
  - destruct (H demo_result_ok) as (s' & H1 & _ & _ & _ & H2). exact (ex_intro _ s' (conj H1 H2)).
Defined.

Definition refused_payment : ProtocolOperation := OpPayment (demo_payment 0 7).
Definition refused_executor : BlockExecutor :=
  match ApplyOperation (demo_exec demo_genesis) refused_payment with Ret (_, x) => x | Throw => demo_exec demo_genesis end.
Lemma refused_payment_eq : exists r, ApplyOperation (demo_exec demo_genesis) refused_payment = Ret (r, refused_executor) /\
  res_error r <> BE_NONE.
Proof.
  unfold refused_executor. destruct (ApplyOperation (demo_exec demo_genesis) refused_payment) as [[r x]|] eqn:E.
  - exists r. split; [done|]. intros Hr.
    assert (H : match ApplyOperation (demo_exec demo_genesis) refused_payment with
            | Ret (r, _) => bool_decide (res_error r = BE_NONE) | Throw => true end = false) by (vm_compute; reflexivity).
    rewrite E in H. by rewrite Hr in H.
  - exfalso. assert (H : match ApplyOperation (demo_exec demo_genesis) refused_payment with Ret _ => true | Throw => false end = true)
      by (vm_compute; reflexivity). by rewrite E in H.
Qed.
Lemma failed_executor_reports_none_witness : Finalize refused_executor = error_result BE_NONE.
Proof.
  destruct refused_payment_eq as (r & E & Hr).
  exact (proj1 (proj2 (failed_executor_reports_none (demo_exec demo_genesis) refused_payment r refused_executor
    refused_payment ltac:(vm_compute; reflexivity) ltac:(vm_compute; reflexivity) E Hr))).
Defined.

#[local] Instance is_u64_dec z : Decision (is_u64 z) := and_dec _ _.
#[local] Instance is_u32_dec z : Decision (is_u32 z) := and_dec _ _.
(** Decides a property of a concrete map. *)
Ltac map_all := apply (bool_decide_unpack _); vm_compute; exact I.

Lemma TotalCybou_exact_witness : TotalCybou demo_s4 = GENESIS_MONETARY_BASE.
Proof.
  rewrite (TotalCybou_exact demo_s4 (proj1 (demo_money _ demo_steps))). vm_compute. reflexivity.
Defined.

(** *** Names *)

Lemma demo_genesis_names : names_inv demo_genesis.
Proof.
  split; unfold demo_genesis; simpl.
  - intros. by rewrite !lookup_empty.
  - intros id [? E]. by rewrite lookup_empty in E.
  - intros. apply lookup_empty.
  - intros k label id E. destruct (decide (k = authority_id)) as [->|Hne]; [by rewrite lookup_singleton_eq in E|].
    by rewrite lookup_singleton_ne in E.
  - intros k1 k2 label c1 c2 E1 E2 _.
    destruct (decide (k1 = authority_id)) as [->|Hne]; [|by rewrite lookup_singleton_ne in E1].
    destruct (decide (k2 = authority_id)) as [->|Hne]; [done|by rewrite lookup_singleton_ne in E2].
Qed.
Lemma names_invariant_witness : names_inv demo_s4 /\ names (st_names demo_s4) !! CENTRAL_AUTHORITY_NAME = Some alice.
Proof.
  split; [|vm_compute; reflexivity].
  exact (names_invariant demo_genesis demo_s4 demo_genesis_names demo_genesis_money demo_steps).
Defined.

(** *** Payments *)

Lemma pair_fst {A B} (p : A * B) (a : A) : p.1 = a -> p = (a, p.2).
Proof. intros <-. apply surjective_pairing. Qed.
Lemma demo_payment_applies : ApplyPayment (demo_payment 1 7) demo_net demo_params demo_s3 =
  (PE_NONE, (ApplyPayment (demo_payment 1 7) demo_net demo_params demo_s3).2).
Proof.
  apply pair_fst. vm_compute. reflexivity.
Qed.
Lemma ApplyPayment_effect_witness : alice <> bob /\
  forall a, accounts demo_s3 !! bob = Some a -> exists a',
    accounts (ApplyPayment (demo_payment 1 7) demo_net demo_params demo_s3).2 !! bob = Some a' /\ balance a' = balance a + 7.
Proof.
  destruct (ApplyPayment_effect (demo_payment 1 7) demo_net demo_params demo_s3 _ (FeeAccount alice) demo_params_wf
    demo_payment_wf (demo_money _ demo_to_s3) ltac:(vm_compute; reflexivity) demo_payment_applies) as (H1 & H2 & _).
  split; [exact H1|]. intros a Ha. destruct (H2 bob a Ha) as (a' & Ha' & Hb & _).
  exists a'. split; [exact Ha'|]. rewrite Hb. vm_compute (when _ _). lia.
Defined.

(** ** Identities *)

Lemma registry_invariant_witness : registry_wf (identities demo_s4).
Proof.
  exact (registry_invariant (identities demo_genesis) (identities demo_s4) registry_wf_empty
    (ledger_steps_registry _ _ demo_steps demo_genesis_money)).
Defined.

Lemma demo_kem s : bool_decide (map_Forall (fun _ rec => has_nonzero (arr_val (ir_kem_package_id rec)) = true)
    (m_accounts (identities s))) = true ->
  forall id rec, m_accounts (identities s) !! id = Some rec -> has_nonzero (arr_val (ir_kem_package_id rec)) = true.
Proof. intros E%bool_decide_eq_true. exact E. Qed.
Lemma IdentityRegistry_roundtrip_witness : exists l,
  SerializeIdentityRegistry (identities demo_s4) = Some l /\ DeserializeIdentityRegistry l = Some (identities demo_s4).
Proof.
  exact (IdentityRegistry_roundtrip (identities demo_s4) (demo_registry _ demo_steps) ltac:(by vm_compute)
    (demo_kem demo_s4 ltac:(vm_compute; reflexivity))).
Defined.

(** ** Encodings *)

Lemma map_Forall_no_entries {V} (P : Hash256 -> V -> Prop) (m : gmap Hash256 V) : size m = 0%nat -> map_Forall P m.
Proof. intros ->%map_size_empty_inv. apply map_Forall_empty. Qed.
Lemma demo_state_typed : state_typed demo_s4.
Proof.
  constructor.
  - map_all.
  - map_all.
  - map_all.
  - apply map_Forall_no_entries. vm_compute. reflexivity.
  - map_all.
  - by vm_compute.
  - by vm_compute.
Qed.
Lemma CybouState_roundtrip_witness : exists l,
  SerializeCybouState demo_s4 true = Some l /\ DeserializeCybouState l = Some demo_s4.
Proof.
  exact (CybouState_roundtrip demo_s4 demo_state_typed (demo_registry _ demo_steps)
    (demo_kem demo_s4 ltac:(vm_compute; reflexivity)) ltac:(vm_compute; reflexivity)).
Defined.

(** The encoding of a concrete operation. *)
Definition encoding (op : ProtocolOperation) : bytes :=
  match SerializeProtocolOperation op with Ret (Some l) => l | _ => [] end.
Lemma encoding_eq op : bool_decide (encoding op = []) = false -> SerializeProtocolOperation op = Ret (Some (encoding op)).
Proof. intros E%bool_decide_eq_false. unfold encoding in *. by destruct (SerializeProtocolOperation op) as [[l|]|]. Qed.

Lemma demo_payment_typed : operation_typed (OpPayment (demo_payment 1 7)).
Proof. split; [|by vm_compute]. by vm_compute. Qed.
Lemma ProtocolOperation_roundtrip_witness :
  DeserializeProtocolOperation (encoding (OpPayment (demo_payment 1 7))) = Ret (Some (OpPayment (demo_payment 1 7))).
Proof.
  exact (ProtocolOperation_roundtrip (OpPayment (demo_payment 1 7)) (encoding (OpPayment (demo_payment 1 7))) demo_payment_typed
    (encoding_eq (OpPayment (demo_payment 1 7)) ltac:(vm_compute; reflexivity))).
Defined.
Lemma ProtocolOperation_canonical_witness :
  SerializeProtocolOperation (OpPayment (demo_payment 1 7)) = Ret (Some (encoding (OpPayment (demo_payment 1 7)))).
Proof.
  refine (proj1 (ProtocolOperation_canonical (encoding (OpPayment (demo_payment 1 7))) (OpPayment (demo_payment 1 7)) _ _)).
  - vm_compute. reflexivity.
  - intros op [=].
Defined.

(** ** Blocks *)

Definition demo_block : CybouBlock :=
  mkBlock demo_parent 1 [OpPayment (demo_payment 1 7)] (default ZERO (res_state_root demo_result)).
Definition demo_block_id : Hash256 := match ComputeBlockId demo_block with Ret id => id | Throw => ZERO end.
Definition demo_finalized : FinalizedBlock :=
  mkFinalizedBlock demo_block
    (mkCertificate demo_net demo_block_id 1 demo_parent (demo_signature POA_FINALIZER)).
Definition demo_finalized_bytes : bytes :=
  match SerializeFinalizedBlock demo_finalized with Ret (Some l) => l | _ => [] end.
Lemma demo_finalized_eq : SerializeFinalizedBlock demo_finalized = Ret (Some demo_finalized_bytes).
Proof.
  assert (E : bool_decide (demo_finalized_bytes = []) = false) by (vm_compute; reflexivity).
  apply bool_decide_eq_false in E. unfold demo_finalized_bytes in *.
  by destruct (SerializeFinalizedBlock demo_finalized) as [[l|]|].
Qed.
Lemma demo_block_typed : block_typed demo_block.
Proof. split; [by vm_compute|]. apply Forall_singleton. apply demo_payment_typed. Qed.
Lemma FinalizedBlock_roundtrip_witness : DeserializeFinalizedBlock demo_finalized_bytes = Ret (Some demo_finalized).
Proof.
  exact (FinalizedBlock_roundtrip demo_finalized demo_finalized_bytes (conj demo_block_typed (ltac:(by vm_compute) : is_u64 1))
    ltac:(by vm_compute) demo_finalized_eq).
Defined.
Lemma FinalizedBlock_canonical_witness : SerializeFinalizedBlock demo_finalized = Ret (Some demo_finalized_bytes).
Proof.
  refine (proj1 (FinalizedBlock_canonical demo_finalized demo_finalized_bytes _ _ _)).
  - by vm_compute.
  - apply Forall_singleton. intros op [=].
  - vm_compute. reflexivity.
Defined.
Lemma demo_finalized_decodes : DeserializeFinalizedBlock demo_finalized_bytes = Ret (Some demo_finalized).
Proof.
  exact (finalized_decode demo_finalized demo_finalized_bytes (conj demo_block_typed (ltac:(by vm_compute) : is_u64 1)) ltac:(by vm_compute) demo_finalized_eq).
Qed.
Lemma decoded_is_typed_witness : finalized_typed demo_finalized /\ Forall operation_wf (blk_operations (fin_block demo_finalized)).
Proof. exact (proj1 decoded_is_typed demo_finalized_bytes demo_finalized demo_finalized_decodes). Defined.
Lemma demo_verified : VerifyPoaCertificateForBlock (fin_certificate demo_finalized) poa_key demo_net demo_block = Ret true.
Proof. vm_compute. reflexivity. Qed.
Lemma certificate_certifies_one_block_witness : demo_block = demo_block \/ sha256_collision.
Proof.
  exact (certificate_certifies_one_block (fin_certificate demo_finalized) poa_key poa_key demo_net demo_net demo_block demo_block
    demo_block_typed demo_block_typed demo_verified demo_verified).
Defined.

(** ** Chunk authorisation *)

Definition demo_chunks : list ChunkId := [fill xc1; fill xc2; fill xc3].
Definition demo_tree : ChunkAuthorizationTree := default (mkTree ZERO 0 []) (BuildChunkAuthorizationTree demo_chunks).
Lemma demo_tree_eq : BuildChunkAuthorizationTree demo_chunks = Some demo_tree.
Proof. vm_compute. reflexivity. Qed.
Lemma Accumulator_matches_tree_witness :
  Accumulator_Finish (Accumulator_AddAll demo_chunks) = Some (tree_root demo_tree, 3).
Proof. exact (Accumulator_matches_tree demo_chunks demo_tree demo_tree_eq). Defined.
Lemma proofs_verify_witness : exists siblings, Tree_Proof demo_tree 2 = Ret (2, siblings) /\
  VerifyChunkAuthorizationPath (tree_root demo_tree) (fill xc3) 2 3 siblings = true.
Proof. exact (proofs_verify demo_chunks demo_tree 2 demo_tree_eq ltac:(by vm_compute)). Defined.

Definition demo_siblings : list ChunkId := match Tree_Proof demo_tree 1 with Ret (_, l) => l | Throw => [] end.
Lemma VerifyChunkAuthorizationPath_sound_witness : demo_chunks !! 1%nat = Some (fill xc2).
Proof.
  refine (VerifyChunkAuthorizationPath_sound demo_chunks demo_tree (fill xc2) 1 demo_siblings demo_tree_eq ltac:(lia) _ _).
  - assert (E : forallb (fun x => forallb (fun y => negb (bool_decide (blake3 x = blake3 y)) || bool_decide (x = y))
        (verify_inputs (fill xc2) 1 (tree_chunk_count demo_tree) demo_siblings)) (tree_inputs demo_chunks) = true)
      by (vm_compute; reflexivity).
    intros x y Hx%list_elem_of_In Hy%list_elem_of_In Hb. rewrite forallb_forall in E. specialize (E x Hx).
    rewrite forallb_forall in E. specialize (E y Hy). apply orb_true_iff in E as [E|E].
    + apply negb_true_iff, bool_decide_eq_false in E. contradiction.
    + by apply bool_decide_eq_true in E.
  - vm_compute. reflexivity.
Defined.

(** ** Storage assignment *)

Definition demo_context : StorageAssignmentContext :=
  mkContext demo_net (fill x61) (fill xc1) (fill x62) alice 1 1 3 2.
Definition demo_providers : list StorageAssignmentProvider :=
  [mkProvider (fill xd1) bob; mkProvider (fill xd2) (fill xb1); mkProvider (fill xd3) bob].
Definition demo_plan : StorageAssignmentPlan :=
  match PrepareStorageAssignment demo_context demo_providers with Ret (Some p) => p | _ => mkPlan demo_context [] [] ZERO end.
Lemma demo_plan_eq : PrepareStorageAssignment demo_context demo_providers = Ret (Some demo_plan).
Proof.
  assert (E : match PrepareStorageAssignment demo_context demo_providers with Ret (Some _) => true | _ => false end = true)
    by (vm_compute; reflexivity).
  unfold demo_plan. by destruct (PrepareStorageAssignment demo_context demo_providers) as [[p|]|].
Qed.
Lemma PrepareStorageAssignment_selects_witness : NoDup (prov_payout_account <$> plan_selected demo_plan).
Proof.
  exact (proj1 (proj2 (PrepareStorageAssignment_selects demo_context demo_providers demo_plan ltac:(by vm_compute) demo_plan_eq))).
Defined.
Lemma PrepareStorageAssignment_order_independent_witness :
  PrepareStorageAssignment demo_context (reverse demo_providers) = PrepareStorageAssignment demo_context demo_providers.
Proof.
  refine (PrepareStorageAssignment_order_independent demo_context (reverse demo_providers) demo_providers _ _ _).
  - intros p. apply elem_of_reverse.
  - by vm_compute.
  - by vm_compute.
Defined.

(** ** Settlements *)

Definition demo_pay (period start : Z) (entries : list StorageSettlementEntry) (witnesses : list Hash256) : StorageSettlement :=
  mkSettlement period start entries (demo_signature POA_FINALIZER) PAY ZERO ZERO 0 [] [] (start + 86400) (fill xee) witnesses.

(** A lease of two chunks for two periods, its provider assigned from the
    first, one full period verified. *)
Definition demo_term : StorageFundedTerm :=
  mkFundedTerm (fill xf1) 0 2 5 86400 50 345600 60 40 0 0 2 []
    [mkAcceptedAssignment (fill xf2) (fill xf3) (fill xf4) 1 0 [mkAssignedUnits 0 (fill xd1) bob 2; mkAssignedUnits 1 (fill xd2) (fill xb1) 2]]
    [] 0 0.
Definition demo_lease : StorageLeaseRecord := mkLease alice 2 2 0 2 60 40 [demo_term].
Definition demo_leased : CybouState := set_leases demo_s4 {[ (fill xe1 : Hash256) := demo_lease ]}.
Definition demo_entry : StorageSettlementEntry := mkSettlementEntry (fill xf1) bob 25 0 (fill xd1) 172800.
Definition demo_paid : CybouState :=
  match pay_entry (demo_pay 0 1000 [demo_entry] [fill xf2]) demo_params demo_leased ∅ demo_entry with
  | Ret (inr (s, _)) => s
  | _ => demo_leased
  end.
Lemma demo_pay_entry : exists used,
  pay_entry (demo_pay 0 1000 [demo_entry] [fill xf2]) demo_params demo_leased ∅ demo_entry = Ret (inr (demo_paid, used)).
Proof.
  assert (E : match pay_entry (demo_pay 0 1000 [demo_entry] [fill xf2]) demo_params demo_leased ∅ demo_entry with
    Ret (inr _) => true | _ => false end = true) by (vm_compute; reflexivity).
  unfold demo_paid. destruct (pay_entry _ _ _ _ _) as [[e|[s used]]|]; [discriminate E| |discriminate E]. by exists used.
Qed.
Lemma demo_leased_wf : amounts_wf demo_leased.
Proof.
  destruct (demo_money _ demo_steps) as [[H1 H2 _] _]. split; [exact H1|exact H2|].
  apply map_Forall_singleton. by vm_compute.
Qed.
Lemma demo_entry_u64 : is_u64 (se_amount demo_entry).
Proof. by vm_compute. Qed.
Lemma pay_entry_effect_witness : exists onboarding locked, onboarding + locked = 25 /\
  forall a, accounts demo_leased !! bob = Some a -> exists a', accounts demo_paid !! bob = Some a' /\
    balance a' = balance a + locked /\ system_balance a' = system_balance a + onboarding.
Proof.
  destruct demo_pay_entry as [used E].
  destruct (pay_entry_effect (demo_pay 0 1000 [demo_entry] [fill xf2]) demo_params demo_leased ∅ demo_entry demo_paid used
    demo_leased_wf demo_entry_u64 E) as (t & onboarding & locked & _ & _ & _ & _ & Hs & _ & Ha & _).
  exists onboarding, locked. split; [exact Hs|]. intros a Hl. destruct (Ha bob a Hl) as (a' & H1 & H2 & H3 & _).
  exists a'. split; [exact H1|]. rewrite when_true in H2, H3 by reflexivity. split; [exact H2|exact H3].
Defined.

Definition demo_s5 : CybouState := demo_apply demo_s4 (OpStorageSettlement (demo_pay 0 1000 [] [])).
Definition demo_s6 : CybouState := demo_apply demo_s5 (OpStorageSettlement (demo_pay 1 87400 [] [])).
Lemma demo_pay_ok : apply_to_candidate (demo_exec demo_s4) (OpStorageSettlement (demo_pay 0 1000 [] [])) = Ret (BE_NONE, demo_s5).
Proof. apply demo_apply_ok. vm_compute. reflexivity. Qed.
Lemma demo_pay_ok2 : apply_to_candidate (demo_exec demo_s5) (OpStorageSettlement (demo_pay 1 87400 [] [])) = Ret (BE_NONE, demo_s6).
Proof. apply demo_apply_ok. vm_compute. reflexivity. Qed.
Lemma settlement_periods_increase_witness : ss_period (demo_pay 0 1000 [] []) < ss_period (demo_pay 1 87400 [] []).
Proof.
  refine (settlement_periods_increase (demo_exec demo_s4) (demo_pay 0 1000 [] []) demo_s5 (demo_exec demo_s5)
    (demo_pay 1 87400 [] []) demo_s6 _ _ _ _ _ _ _ demo_pay_ok _ demo_pay_ok2).
  - apply demo_money, demo_candidate_steps; [by vm_compute|apply demo_steps].
  - by vm_compute.
  - rewrite demo_exec_params. apply demo_params_wf.
  - rewrite demo_exec_params. apply demo_params_wf.
  - apply Forall_nil_2.
  - apply Forall_nil_2.
  - reflexivity.
  - rewrite demo_candidate by (by vm_compute). apply rtc_once, step_purge.
Defined.
