(* ===== verification/NodeExamples.v ===== *)
(** * Witnesses for the node

    The theorems about the journal, the conflict detector, the state store and
    the pool, applied to the concrete node of [NodeScenario]. *)

From S2P Require Import Prelude.
From S2P Require Import Bytes.
From S2P Require Import Codec.
From S2P Require Import Params.
From S2P Require Import Crypto.
From S2P Require Import Identity.
From S2P Require Import Names.
From S2P Require Import Payloads.
From S2P Require Import SettlementData.
From S2P Require Import Operation.
From S2P Require Import OperationCodec.
From S2P Require Import State.
From S2P Require Import StateCodec.
From S2P Require Import StateCodecProofs.
From S2P Require Import Executor.
From S2P Require Import Block.
From S2P Require Import NetworkGenesis.
From S2P Require Import KVStore.
From S2P Require Import NodeScenario.
From S2P Require Import Journal.
From S2P Require Import Detector.
From S2P Require Import StateStore.
From S2P Require Import StateStoreProofs.
From S2P Require Import StateCommit.
From S2P Require Import StateChain.
From S2P Require Import Pool.
From S2P Require Import Scenario.

Definition is_ret {A} (o : outcome A) : bool := match o with Ret _ => true | Throw => false end.
Definition is_Some_b {A} (o : option A) : bool := match o with Some _ => true | None => false end.

(** ** The finalizer *)

Lemma node_started d issued : is_ret (open_finalizer d node_net anchor poa_key).1 = true ->
  rtc (node_step node_net anchor poa_key) (mkNode d None issued) (mkNode (after_open d) (Some (started d)) issued).
Proof.
  intros E. eapply rtc_l; [apply (node_open _ _ _ d (open_finalizer d node_net anchor poa_key).1 (after_open d));
    unfold after_open; apply surjective_pairing|].
  unfold started. destruct (open_finalizer d node_net anchor poa_key).1 as [f|]; [|done]. apply rtc_once.
  apply (node_enable _ _ _ _ f _ (Some demo_signer)).
Qed.
Lemma node_signing f d block issued : rtc (node_step node_net anchor poa_key) (mkNode d (Some f) issued)
  (mkNode (signing f d block).2 (Some (signing f d block).1.2) (issued_by (signing f d block).1.1 ++ issued)).
Proof.
  apply rtc_once. apply (node_sign _ _ _ d f issued 0 anchor block). fold (signing f d block).
  by destruct (signing f d block) as [[]].
Qed.
Definition issued_1 : list PoaFinalityCertificate := issued_by first_signing.1.1 ++ [].
Definition issued_2 : list PoaFinalityCertificate := issued_by second_signing.1.1 ++ issued_1.
Definition cert_1 : PoaFinalityCertificate := default (fin_certificate (finalize block_b)) (issued_1 !! 0%nat).
Definition cert_2 : PoaFinalityCertificate := default (fin_certificate (finalize block_b)) (issued_2 !! 0%nat).
Lemma demo_signing_1 : rtc (node_step node_net anchor poa_key) (mkNode (after_open empty_db) (Some (started empty_db)) [])
  (mkNode first_signing.2 (Some first_signing.1.2) issued_1).
Proof. exact (node_signing (started empty_db) (after_open empty_db) block_a []). Qed.
Lemma demo_signing_2 : rtc (node_step node_net anchor poa_key) (mkNode (after_open crashed) (Some (started crashed)) issued_1)
  (mkNode second_signing.2 (Some second_signing.1.2) issued_2).
Proof. exact (node_signing (started crashed) (after_open crashed) block_a issued_1). Qed.
Lemma demo_signing_run : rtc (node_step node_net anchor poa_key) (mkNode empty_db None [])
  (mkNode second_signing.2 (Some second_signing.1.2) issued_2).
Proof.
  etrans; [apply node_started; vm_compute; reflexivity|]. etrans; [exact demo_signing_1|].
  eapply rtc_l; [eapply node_crash, (reopen_reopened _ (md_contents first_signing.2)); by left|].
  etrans; [|exact demo_signing_2]. change (reopen (md_contents first_signing.2)) with crashed.
  apply node_started. vm_compute. reflexivity.
Qed.
Lemma issued_head (l : list PoaFinalityCertificate) c : length l = 1%nat -> default c (l !! 0%nat) ∈ l.
Proof. destruct l as [|x []]; [done| |done]. intros _. apply list_elem_of_here. Qed.
Lemma demo_issued : cert_1 ∈ issued_2 /\ cert_2 ∈ issued_2.
Proof.
  split.
  - apply elem_of_app. right. apply issued_head. vm_compute. reflexivity.
  - unfold cert_2, issued_2. assert (E : length (issued_by second_signing.1.1) = 1%nat) by (vm_compute; reflexivity).
    destruct (issued_by second_signing.1.1) as [|c []]; [done| |done]. apply list_elem_of_here.
Qed.
Lemma finalizer_never_equivocates_witness : cert_block_id cert_1 = cert_block_id cert_2.
Proof.
  refine (proj1 (finalizer_never_equivocates node_net anchor poa_key (mkNode empty_db None []) _ cert_1 cert_2 _ demo_signing_run
    (proj1 demo_issued) (proj2 demo_issued) _)).
  - split_and!; [reflexivity|reflexivity|]. by intros m [|?%elem_of_nil].
  - vm_compute. reflexivity.
Defined.

Lemma first_signing_eq : SignFinality (started empty_db) (after_open empty_db) 0 anchor block_a = (first_signing.1.1, first_signing.1.2, first_signing.2).
Proof. exact (triple_eta (SignFinality (started empty_db) (after_open empty_db) 0 anchor block_a)). Qed.
Definition issued_a : PoaFinalityCertificate := default (fin_certificate (finalize block_b)) (issued_by first_signing.1.1 !! 0%nat).
Lemma issued_a_in : issued_a ∈ issued_by first_signing.1.1.
Proof. apply issued_head. vm_compute. reflexivity. Qed.
Lemma started_usable : key_usable POA_FINALIZER (f_public_key (started empty_db)) = true.
Proof. vm_compute. reflexivity. Qed.
Lemma SignFinality_certificate_verifies_witness :
  VerifyPoaCertificateForBlock issued_a (f_public_key (started empty_db)) (f_network_binding (started empty_db)) block_a = Ret true.
Proof.
  exact (SignFinality_certificate_verifies (started empty_db) (after_open empty_db) 0 anchor block_a first_signing.1.1
    first_signing.1.2 first_signing.2 issued_a started_usable first_signing_eq issued_a_in).
Defined.

(** The block's encoding, id and digest. *)
Definition outcome_or {A} (a : A) (o : outcome A) : A := match o with Ret a => a | Throw => a end.
Lemma outcome_or_eq {A} (a : A) (o : outcome A) : is_ret o = true -> o = Ret (outcome_or a o).
Proof. by destruct o. Qed.
Definition id_a : Hash256 := outcome_or ZERO (ComputeBlockId block_a).
Definition digest_a : Hash256 := outcome_or ZERO (ComputePoaFinalityDigest node_net id_a 1 anchor).
Definition bytes_a : bytes := default [] (outcome_or None (SerializeBlock block_a)).
Definition head_write : bool * MemoryDB := kv_Write (T := bytes) (after_open empty_db) (j_prefix (f_journal (started empty_db)) ++ str "head")
  (EncodeHead (mkJournalHead 1 anchor id_a)) true.
Lemma started_ready : let j := f_journal (started empty_db) in
  is_Some_b (f_signer (started empty_db)) = true /\ j_halted j = false /\ j_head j = mkJournalHead 0 ZERO anchor /\ j_genesis_anchor j = anchor /\
  f_network_binding (started empty_db) = node_net /\ purpose (f_public_key (started empty_db)) = POA_FINALIZER.
Proof. vm_compute. split_and!; reflexivity. Qed.
Lemma bytes_a_eq : SerializeBlock block_a = Ret (Some bytes_a).
Proof.
  assert (E : match SerializeBlock block_a with Ret (Some _) => true | _ => false end = true) by (vm_compute; reflexivity).
  unfold bytes_a. by destruct (SerializeBlock block_a) as [[]|].
Qed.
Lemma id_a_eq : ComputeBlockId block_a = Ret id_a.
Proof. apply outcome_or_eq. vm_compute. reflexivity. Qed.
Lemma digest_a_eq : ComputePoaFinalityDigest node_net id_a 1 anchor = Ret digest_a.
Proof. apply outcome_or_eq. vm_compute. reflexivity. Qed.
Lemma started_signer : f_signer (started empty_db) = Some demo_signer.
Proof. vm_compute. reflexivity. Qed.
Lemma started_verifies : VerifyIdentityMessage (f_public_key (started empty_db)) (demo_signature POA_FINALIZER) (arr_val digest_a) = true.
Proof. vm_compute. reflexivity. Qed.
Lemma head_write_eq : head_write = (true, head_write.2).
Proof. assert (E : head_write.1 = true) by (vm_compute; reflexivity). rewrite <- E. apply surjective_pairing. Qed.
Lemma block_a_header : blk_height block_a = 1 /\ blk_parent_block_id block_a = anchor /\ IsNull anchor = false /\ IsNull id_a = false /\
  IsNull node_net = false.
Proof. vm_compute. split_and!; reflexivity. Qed.
Lemma demo_signature_parts : has_nonzero (arr_val (sig_ed25519 (demo_signature POA_FINALIZER))) = true /\
  has_nonzero (sig_ml_dsa (demo_signature POA_FINALIZER)) = true.
Proof. vm_compute. split; reflexivity. Qed.
Lemma block_a_signable : signable (started empty_db) block_a id_a (demo_signature POA_FINALIZER).
Proof.
  pose proof started_ready as (_ & _ & _ & _ & Hn & Hp). pose proof block_a_header as (B1 & B2 & B3 & B4 & B5).
  constructor; rewrite ?Hn, ?B1, ?B2.
  - exact (ex_intro _ bytes_a bytes_a_eq).
  - exact id_a_eq.
  - exact (conj B5 (conj B4 B3)).
  - split; [reflexivity|intros [=]].
  - exact (ex_intro _ demo_signer (ex_intro _ digest_a (conj started_signer (conj digest_a_eq (conj eq_refl started_verifies))))).
  - exact Hp.
  - exact demo_signature_parts.
Qed.
(** The node that signed the first block and lost it before the commit: its
    journal is one ahead of the canonical tip. *)
Definition lost : PoaFinalizer := first_signing.1.2.
Definition id_b : Hash256 := outcome_or ZERO (ComputeBlockId block_b).
Definition digest_b : Hash256 := outcome_or ZERO (ComputePoaFinalityDigest node_net id_b 1 anchor).
Lemma lost_ready : f_signer lost = Some demo_signer /\ f_public_key lost = f_public_key (started empty_db) /\ f_network_binding lost = node_net /\
  j_halted (f_journal lost) = false /\ j_head (f_journal lost) = mkJournalHead 1 anchor id_a.
Proof. vm_compute. split_and!; reflexivity. Qed.
Lemma block_b_header : blk_height block_b = 1 /\ blk_parent_block_id block_b = anchor /\ IsNull id_b = false.
Proof. vm_compute. split_and!; reflexivity. Qed.
Lemma block_b_encodes : exists l, SerializeBlock block_b = Ret (Some l).
Proof.
  assert (E : match SerializeBlock block_b with Ret (Some _) => true | _ => false end = true) by (vm_compute; reflexivity).
  destruct (SerializeBlock block_b) as [[l|]|]; [by exists l|done..].
Qed.
Lemma id_b_eq : ComputeBlockId block_b = Ret id_b.
Proof. apply outcome_or_eq. vm_compute. reflexivity. Qed.
Lemma digest_b_eq : ComputePoaFinalityDigest node_net id_b 1 anchor = Ret digest_b.
Proof. apply outcome_or_eq. vm_compute. reflexivity. Qed.
Lemma lost_verifies : VerifyIdentityMessage (f_public_key lost) (demo_signature POA_FINALIZER) (arr_val digest_b) = true.
Proof. vm_compute. reflexivity. Qed.
Lemma ids_differ : id_a <> id_b.
Proof.
  assert (E : bool_decide (id_a = id_b) = false) by (vm_compute; reflexivity). exact (bool_decide_eq_false_1 _ E).
Qed.
Lemma block_b_signable : signable lost block_b id_b (demo_signature POA_FINALIZER).
Proof.
  pose proof lost_ready as (Hs & Hk & Hn & _ & _). pose proof block_b_header as (B1 & B2 & B3).
  pose proof block_a_header as (_ & _ & B4 & _ & B5). pose proof started_ready as (_ & _ & _ & _ & _ & Hp).
  constructor; rewrite ?Hn, ?B1, ?B2.
  - exact block_b_encodes.
  - exact id_b_eq.
  - exact (conj B5 (conj B3 B4)).
  - split; [reflexivity|intros [=]].
  - exact (ex_intro _ demo_signer (ex_intro _ digest_b (conj Hs (conj digest_b_eq (conj eq_refl lost_verifies))))).
  - rewrite Hk. exact Hp.
  - exact demo_signature_parts.
Qed.
Lemma SignFinality_progress_witness :
  (exists f' c, SignFinality (started empty_db) (after_open empty_db) (blk_height block_a - 1) (blk_parent_block_id block_a) block_a
     = (Ret (mkSigningResult PS_SIGNED JS_NONE (Some c)), f', head_write.2) /\
   cert_block_id c = id_a /\ j_head (f_journal f') = head_of c /\ j_halted (f_journal f') = false) /\
  (exists status f' d', SignFinality lost first_signing.2 (blk_height block_b - 1) (blk_parent_block_id block_b) block_b
     = (Ret (mkSigningResult PS_JOURNAL_REJECTED status None), f', d') /\ j_halted (f_journal f') = true).
Proof.
  pose proof started_ready as (_ & Hh & Hj & Hg & _ & _). pose proof block_a_header as (B1 & B2 & _).
  pose proof lost_ready as (_ & _ & _ & Lh & Lj). pose proof block_b_header as (C1 & C2 & _). split.
  - apply (proj1 (SignFinality_progress (started empty_db) (after_open empty_db : db (LevelDB := memory_db)) block_a id_a _ block_a_signable Hh));
      rewrite ?Hj, ?Hg, ?B1, ?B2; [reflexivity|reflexivity|reflexivity|exact head_write_eq].
  - apply (proj2 (SignFinality_progress lost (first_signing.2 : db (LevelDB := memory_db)) block_b id_b _ block_b_signable Lh)); rewrite Lj; [by rewrite C1|by rewrite C2|].
    exact ids_differ.
Defined.

(** ** Conflict detectors *)

Definition seen_ab : list (PoaFinalityCertificate * CybouBlock) := [(cert_a, block_a); (cert_b, block_b)].
Definition seen_ba : list (PoaFinalityCertificate * CybouBlock) := [(cert_b, block_b); (cert_a, block_a)].
Definition run_of (l : list (PoaFinalityCertificate * CybouBlock)) : PoaConflictDetector * MemoryDB :=
  default (demo_detector, opened.2) (observe_run demo_detector opened.2 l).
Lemma run_of_eq l : is_Some_b (observe_run demo_detector opened.2 l) = true ->
  observe_run demo_detector opened.2 l = Some ((run_of l).1, (run_of l).2).
Proof. unfold run_of. by destruct (observe_run _ _ _) as [[]|]. Qed.
Definition slot_1 : slot := (1, anchor).
Lemma or_swap (P Q R : Prop) : P \/ Q \/ R <-> Q \/ P \/ R.
Proof. tauto. Qed.
Lemma detectors_converge_witness :
  cert_block_id <$> observed (run_of seen_ab).1 (contents (run_of seen_ab).2) slot_1
  = cert_block_id <$> observed (run_of seen_ba).1 (contents (run_of seen_ba).2) slot_1.
Proof.
  refine (proj1 (detectors_converge demo_detector opened.2 seen_ab (run_of seen_ab).1 (run_of seen_ab).2 demo_detector opened.2 seen_ba
    (run_of seen_ba).1 (run_of seen_ba).2 slot_1 _ _ _ _ _ _ _ _)).
  - vm_compute. split; [intros [=]|intros [=]].
  - vm_compute. reflexivity.
  - vm_compute. reflexivity.
  - apply Forall_cons_2; [|apply Forall_singleton]; vm_compute; split; intros [=].
  - apply Forall_cons_2; [|apply Forall_singleton]; vm_compute; split; intros [=].
  - apply run_of_eq. vm_compute. reflexivity.
  - apply run_of_eq. vm_compute. reflexivity.
  - assert (Ea : slot_of cert_a = slot_1) by (vm_compute; reflexivity). assert (Eb : slot_of cert_b = slot_1) by (vm_compute; reflexivity).
    assert (H1 : certificates_for slot_1 seen_ab = [cert_a; cert_b]).
    { unfold certificates_for, seen_ab. cbn [fmap list_fmap fst]. rewrite !filter_cons_True, filter_nil by assumption. reflexivity. }
    assert (H2 : certificates_for slot_1 seen_ba = [cert_b; cert_a]).
    { unfold certificates_for, seen_ba. cbn [fmap list_fmap fst]. rewrite !filter_cons_True, filter_nil by assumption. reflexivity. }
    intros id. rewrite H1, H2, !fmap_cons, fmap_nil, !elem_of_cons. by apply or_swap.
Defined.

Lemma cert_b_u64 : is_u64 (cert_height cert_b).
Proof. vm_compute. split; intros [=]. Qed.
Lemma demo_gets (d : MemoryDB) k : db_Get d k <> Throw.
Proof. intros [=]. Qed.
Lemma Observe_conflict_evidence_witness : exists previous,
  ReadSafetyEvidence observe_ab.1.2 observe_ab.2 =
    (Ret (mkEvidenceResult ER_EQUIVOCATION (Some (mkEvidence previous cert_b))), observe_ab.1.2).
Proof.
  destruct (Observe_conflict_evidence observe_a.1.2 (observe_a.2 : db (LevelDB := memory_db)) cert_b block_b _ observe_ab.1.2
    observe_ab.2 cert_b_u64 observe_ab_eq eq_refl (demo_gets _ _)) as (previous & _ & _ & E).
  exact (ex_intro _ previous E).
Defined.
Definition evidence : PoaEquivocationEvidence :=
  match evidence_ab.1 with Ret r => default (mkEvidence cert_b cert_b) (er_equivocation r) | Throw => mkEvidence cert_b cert_b end.
Lemma evidence_eq : ReadSafetyEvidence observe_ab.1.2 observe_ab.2 = (Ret (mkEvidenceResult ER_EQUIVOCATION (Some evidence)), evidence_ab.2).
Proof.
  assert (E : match evidence_ab.1 with Ret (mkEvidenceResult ER_EQUIVOCATION (Some _)) => true | _ => false end = true)
    by (vm_compute; reflexivity).
  unfold evidence. fold evidence_ab. by destruct evidence_ab as [[[[] []]|] p].
Qed.
Lemma ReadSafetyEvidence_sound_witness : equivocation observe_ab.1.2 evidence.
Proof. exact (proj1 (ReadSafetyEvidence_sound observe_ab.1.2 observe_ab.2 evidence evidence_ab.2 evidence_eq)). Defined.

(** ** The state store *)

Lemma node_params_wf : params_wf (GetProtocolParameters node_genesis).
Proof. assert (E : GetProtocolParameters node_genesis = demo_params) by (vm_compute; reflexivity). rewrite E. apply demo_params_wf. Qed.
Lemma new_store_ok : store_ok new_store /\ ss_state_snapshot new_store = None.
Proof. exact (open_store_ok node_genesis empty_db new_store opened.2 node_params_wf opened_eq). Qed.
Lemma new_store_coherent : coherent new_store (contents opened.2).
Proof. intros st. by rewrite (proj2 new_store_ok). Qed.
Lemma node_s0_ok : store_ok node_s0 /\ coherent node_s0 (contents node_d0).
Proof. exact (InitializeGenesis_coherent _ _ _ _ _ _ _ (proj1 new_store_ok) new_store_coherent initialized_eq). Qed.
Definition fits (fb : FinalizedBlock) : bool :=
  match SerializeFinalizedBlock fb with Ret (Some l) => zlen l <=? MAX_COMPACT_SIZE | _ => false end.
Lemma fits_storable fb : finalized_typed fb -> fits fb = true -> block_storable fb.
Proof. unfold fits. intros Ht E. split; [done|]. intros l El. rewrite El in E. by apply Z.leb_le. Qed.
Lemma demo_height_1 block : blk_height block = 1 -> is_u64 (blk_height block) /\ is_u64 (cert_height (fin_certificate (finalize block))).
Proof. cbn. intros ->. by vm_compute. Qed.
Lemma settlement_typed : operation_typed demo_settlement.
Proof.
  assert (H0 : is_u64 0) by (by vm_compute).
  split_and!; [exact H0|by vm_compute|by vm_compute|exact H0|apply Forall_nil_2|apply Forall_nil_2].
Qed.
Lemma block_a_storable : block_storable (finalize block_a).
Proof.
  apply fits_storable; [|vm_compute; reflexivity]. destruct (demo_height_1 block_a eq_refl). split; [split; [done|]|done].
  apply Forall_singleton. exact settlement_typed.
Qed.
Lemma block_b_storable : block_storable (finalize block_b).
Proof.
  apply fits_storable; [|vm_compute; reflexivity]. destruct (demo_height_1 block_b eq_refl). split; [split; [done|]|done].
  apply Forall_nil_2.
Qed.

Definition demo_blocks : list (FinalizedBlock * bool) := [(finalize block_b, true); (finalize block_a, true)].
Definition committed : CybouStateStore * MemoryDB := commit_all node_s0 node_d0 demo_blocks.
Lemma demo_blocks_storable : Forall (fun b => block_storable b.1) demo_blocks.
Proof. apply Forall_cons_2; [exact block_b_storable|]. apply Forall_cons_2; [exact block_a_storable|apply Forall_nil_2]. Qed.
Lemma store_refines_chain_witness : sha256_collision \/ exists chain,
  represents (GetGenesisAnchor (ss_network_genesis new_store)) (ss_detector committed.1) (contents committed.2) chain /\ rtc chain_step [] chain.
Proof.
  exact (store_refines_chain new_store opened.2 demo_genesis true node_s0 node_d0 demo_blocks committed.1 committed.2
    (proj1 new_store_ok) new_store_coherent initialized_eq demo_blocks_storable (surjective_pairing committed)).
Defined.
Lemma CommitFinalizedBlock_reads_back_witness : exists id st st', ComputeBlockId block_a = Ret id /\
  GetFinalizedHead commit_a.2 = Ret (Some (mkFinalizedHead id 1)) /\ executes node_s0 block_a st st'.
Proof.
  destruct (CommitFinalizedBlock_reads_back (L := memory_db) node_s0 node_d0 (finalize block_a) true (transition BT_NONE) commit_a.1.2 commit_a.2
    (proj1 node_s0_ok) (proj2 node_s0_ok) block_a_storable commit_a_eq eq_refl (demo_gets commit_a.2))
    as (id & st & st' & H1 & H2 & _ & _ & _ & _ & H3 & _).
  exact (ex_intro _ id (ex_intro _ st (ex_intro _ st' (conj H1 (conj H2 H3))))).
Defined.
Lemma commit_a_ok : store_ok commit_a.1.2 /\ coherent commit_a.1.2 (contents commit_a.2).
Proof.
  destruct (commit_spec (L := memory_db) node_s0 node_d0 (finalize block_a) true _ _ _ (proj1 node_s0_ok) (proj2 node_s0_ok) (proj1 (demo_height_1 block_a eq_refl)) commit_a_eq)
    as (Hobj & Hc & _).
  split; [exact (same_object_ok _ _ Hobj (proj1 node_s0_ok))|exact Hc].
Qed.
Lemma CommitFinalizedBlock_refused_witness : contents commit_b.2 !! EncodeBytes HEAD_KEY = contents commit_a.2 !! EncodeBytes HEAD_KEY.
Proof.
  refine (proj1 (CommitFinalizedBlock_refused (L := memory_db) commit_a.1.2 commit_a.2 (finalize block_b) true _ commit_b.1.2 commit_b.2
    (proj1 commit_a_ok) (proj2 commit_a_ok) (proj1 (demo_height_1 block_b eq_refl)) commit_b_eq _) HEAD_KEY _).
  - intros [=].
  - vm_compute. intros [=].
Defined.

Lemma demo_store_run : rtc (store_step node_genesis) (None, empty_db) (Some node_s0, node_d0).
Proof.
  eapply rtc_l; [exact (store_open node_genesis empty_db (Ret new_store) opened.2 opened_eq)|]. apply rtc_once.
  exact (store_init node_genesis new_store opened.2 demo_genesis true (Ret GI_NONE) node_s0 node_d0 initialized_eq).
Qed.
Lemma genesis_size : (if SerializeCybouState demo_genesis true is Some l then zlen l <=? MAX_COMPACT_SIZE else false) = true.
Proof. vm_compute. reflexivity. Qed.
Lemma genesis_storable : storable demo_genesis.
Proof.
  constructor.
  - constructor; cbn [demo_genesis accounts genesis_allocations publications leases pending_commits st_names settlement];
      try apply map_Forall_empty; [|by vm_compute|by vm_compute].
    apply map_Forall_singleton. by vm_compute.
  - apply registry_wf_empty.
  - intros id rec E. cbn in E. by rewrite lookup_empty in E.
  - intros l E. pose proof genesis_size as Hz. rewrite E in Hz. by apply Z.leb_le.
Qed.
Lemma node_s0_snapshot : GetStateSnapshot node_s0 node_d0 = (Ret (inr demo_genesis), node_s0).
Proof.
  assert (E : ss_state_snapshot node_s0 = Some demo_genesis).
  { by destruct (InitializeGenesis_inv _ _ _ _ _ _ initialized_eq) as (-> & _). }
  unfold GetStateSnapshot. by rewrite E.
Qed.
Lemma node_s0_loads : is_ret (LoadStateLocked node_s0 node_d0) = true.
Proof. vm_compute. reflexivity. Qed.
Lemma snapshot_is_on_disk_witness : LoadStateLocked node_s0 node_d0 = Ret (inr demo_genesis).
Proof.
  refine (snapshot_is_on_disk node_genesis empty_db node_s0 node_d0 demo_genesis node_s0 node_params_wf demo_store_run
    node_s0_snapshot genesis_storable _).
  intros Ht. pose proof node_s0_loads as E. rewrite Ht in E. discriminate E.
Defined.

(** ** The pool *)

Definition node_store : CybouStateStore * db (LevelDB := memory_db) := (node_s0, node_d0).
Definition requests : list (ProtocolOperation * Z * option bytes) := [(demo_settlement, 0, Some peer_1); (demo_settlement, 0, None)].
Definition filled : OperationPool := outcome_or demo_pool (admit_all demo_pool node_store requests).
Lemma demo_limits : limits_wf (p_limits demo_pool).
Proof. vm_compute. split_and!; intros [=]. Qed.
Lemma filled_eq : admit_all demo_pool node_store requests = Ret filled.
Proof. apply outcome_or_eq. vm_compute. reflexivity. Qed.
Lemma filled_holds : zlen (p_entries filled) = 1.
Proof. vm_compute. reflexivity. Qed.
Lemma filled_has_root : (ComputeCandidateStateRoot node_s0 node_d0 (Snapshot filled) 1).1 <> Ret None.
Proof. vm_compute. intros [=]. Qed.
Lemma pool_candidate_root_witness : exists head st x, GetFinalizedHead node_d0 = Ret (Some head) /\
  applies (next_executor node_store head st) (Snapshot filled) x /\ TotalCybou (m_candidate x) = TotalCybou st /\
  (ComputeCandidateStateRoot node_s0 node_d0 (Snapshot filled) (fh_height head + 1)).1 = Ret (CybouStateHash (m_candidate x) false).
Proof.
  destruct (pool_candidate_root (L := memory_db) demo_pool node_s0 node_d0 [] demo_pool requests filled)
    as (head & st & x & E1 & _ & E2 & _ & E3 & E4 & _).
  - vm_compute. intros [=].
  - reflexivity.
  - exact filled_eq.
  - intros E. pose proof filled_holds as Hz. rewrite E in Hz. discriminate Hz.
  - exact (ex_intro _ head (ex_intro _ st (ex_intro _ x (conj E1 (conj E2 (conj E3 E4)))))).
Defined.
Definition pool_of (o : outcome (PoolAdmission * OperationPool)) : OperationPool :=
  match o with Ret (_, p) => p | Throw => demo_pool end.
Lemma pool_of_eq o : match o with Ret (PA_ACCEPTED, _) => true | _ => false end = true -> o = Ret (PA_ACCEPTED, pool_of o).
Proof. by destruct o as [[[]]|]. Qed.
Definition after_admission : OperationPool := pool_of (Admit (Clear demo_pool) node_store demo_settlement 0 (Some peer_1)).
Lemma admission_step : rtc pool_step (Clear demo_pool) after_admission.
Proof.
  apply rtc_once, (pool_admit _ node_store demo_settlement 0 (Some peer_1) PA_ACCEPTED). apply pool_of_eq. vm_compute. reflexivity.
Qed.
Lemma pool_accounting_witness : accounts_for after_admission.
Proof. exact (proj1 (pool_accounting demo_pool after_admission demo_limits admission_step)). Defined.

(** ** Relay work and parameters *)

Definition demo_id : Hash256 := fill x55.
Definition demo_work : option (option Z) := SolveOperationWork 5 (fun _ => false) 0 7 node_net demo_id 7.
Lemma SolveOperationWork_correct_witness : CheckOperationWork node_net demo_id 7 7 = Ret true.
Proof.
  refine (proj1 (SolveOperationWork_correct 5 (fun _ => false) 0 7 node_net demo_id 7 _ _ _) 7 _); [|vm_compute; reflexivity..].
  split; intros [=].
Defined.
(** With the demo parameters, and where the divisor is zero. *)
Lemma rent_params_wf : params_wf (rent_params 65536 5).
Proof. unfold params_wf. cbn. ulia. Qed.
Lemma ValidateProtocolParameters_correct_witness :
  (exists valid, ValidateProtocolParameters demo_params = Ret valid /\ (valid = true <-> valid_with (largest_lease demo_params) demo_params)) /\
  ValidateProtocolParameters (rent_params 65536 5) = Throw.
Proof.
  split.
  - apply (proj2 (proj2 (ValidateProtocolParameters_correct demo_params demo_params_wf))). by vm_compute.
  - apply (proj1 (ValidateProtocolParameters_correct (rent_params 65536 5) rent_params_wf)). by vm_compute.
Defined.
Lemma ValidateProtocolParameters_fees_witness : ComputeRootPublicationFee demo_params 2000 3 = Some (2 * 4 + 3 * 4).
Proof.
  refine (ValidateProtocolParameters_fees demo_params 2000 3 demo_params_wf _ _ _); [vm_compute; reflexivity|by vm_compute..].
Defined.
