(* ===== verification/IndexExamples.v ===== *)
(** * Witnesses for reorganisations and for the event index

    The theorems of [StateChain] on an interrupted reorganisation and those of
    [EventIndex], applied to the node of [NodeScenario]. *)

From S2P Require Import Prelude.
From S2P Require Import Bytes.
From S2P Require Import Codec.
From S2P Require Import Params.
From S2P Require Import Crypto.
From S2P Require Import Operation.
From S2P Require Import State.
From S2P Require Import Block.
From S2P Require Import NetworkGenesis.
From S2P Require Import KVStore.
From S2P Require Import NodeScenario.
From S2P Require Import Detector.
From S2P Require Import StateStore.
From S2P Require Import StateStoreProofs.
From S2P Require Import StateCommit.
From S2P Require Import StateChain.
From S2P Require Import EventIndex.
From S2P Require Import Scenario.
From S2P Require Import NodeExamples.

(** ** The node after block a *)

Definition store_a : CybouStateStore := commit_a.1.2.
Definition db_a : MemoryDB := commit_a.2.
Definition chain_a : list Hash256 := [id_a].

Lemma head_a : stored (md_contents db_a) HEAD_KEY = Some (mkFinalizedHead id_a 1).
Proof. vm_compute. reflexivity. Qed.
Lemma height_a : stored (md_contents db_a) (BlockHeightKey 1) = Some id_a.
Proof. vm_compute. reflexivity. Qed.
Definition finalized_a : bytes := default [] (outcome_or None (SerializeFinalizedBlock (finalize block_a))).
Lemma finalized_a_eq : SerializeFinalizedBlock (finalize block_a) = Ret (Some finalized_a).
Proof.
  assert (E : match SerializeFinalizedBlock (finalize block_a) with Ret (Some _) => true | _ => false end = true) by (vm_compute; reflexivity).
  unfold finalized_a. by destruct (SerializeFinalizedBlock (finalize block_a)) as [[]|].
Qed.
Lemma row_a : md_contents db_a !! EncodeBytes (BlockKey id_a) = Some (EncodeBytes finalized_a).
Proof. vm_compute. reflexivity. Qed.
Lemma stored_a : stored_block (md_contents db_a) id_a (finalize block_a).
Proof.
  split_and!; [exact block_a_storable|exact id_a_eq|]. exists finalized_a. split; [exact finalized_a_eq|exact row_a].
Qed.
Lemma observed_a : observed (ss_detector store_a) (md_contents db_a) (1, anchor) = Some cert_a.
Proof. vm_compute. reflexivity. Qed.
Lemma singleton_split {A} (x y : A) front back : [x] = front ++ y :: back -> front = [] /\ y = x /\ back = [].
Proof. destruct front as [|z [|]]; intros E; [by injection E as <- <-|done..]. Qed.
Lemma cert_a_id : cert_block_id cert_a = id_a.
Proof. vm_compute. reflexivity. Qed.
Lemma store_a_anchor : GetGenesisAnchor (ss_network_genesis store_a) = anchor.
Proof. vm_compute. reflexivity. Qed.
Lemma represents_a : represents (GetGenesisAnchor (ss_network_genesis store_a)) (ss_detector store_a) (contents db_a) chain_a.
Proof.
  rewrite store_a_anchor. constructor; [exact head_a|..].
  - intros front id back (-> & -> & ->)%singleton_split. exists (finalize block_a).
    split_and!; [exact stored_a|exact (proj1 block_a_header)|exact (proj1 (proj2 block_a_header))|exact height_a].
  - intros front id (-> & -> & _)%singleton_split. exists cert_a. split; [exact observed_a|]. rewrite cert_a_id. apply blt_irrefl.
Qed.

(** ** The event index *)

Definition rebuilt_a := RebuildFinalizedEventIndex (H0 := memory_db) store_a db_a.
Lemma rebuilt_a_eq : RebuildFinalizedEventIndex store_a (db_a : db (LevelDB := memory_db)) = (Ret true, rebuilt_a.2).
Proof.
  assert (E : match rebuilt_a.1 with Ret true => true | _ => false end = true) by (vm_compute; reflexivity).
  fold rebuilt_a. rewrite (surjective_pairing rebuilt_a) at 1. by destruct rebuilt_a.1 as [[]|].
Qed.
Lemma rebuild_is_exact_witness : exists blocks rows, Forall2 (stored_block (md_contents db_a)) chain_a blocks /\
  event_rows blocks = Ret rows /\ md_contents rebuilt_a.2 = indexed (md_contents db_a) rows
    (mkFinalizedHead (tip (GetGenesisAnchor (ss_network_genesis store_a)) chain_a) (zlen chain_a)).
Proof.
  destruct (rebuild_is_exact (L := memory_db) (ss_detector store_a) chain_a store_a db_a rebuilt_a.2 represents_a rebuilt_a_eq)
    as (blocks & rows & H1 & _ & H2 & H3).
  exact (ex_intro _ blocks (ex_intro _ rows (conj H1 (conj H2 H3)))).
Defined.

Definition settlement_id : Hash256 := default ZERO (outcome_or None (ComputeOperationId demo_settlement)).
Definition found_a := FindIndexedOperation (H0 := memory_db) store_a db_a settlement_id.
Definition location_a : FinalizedEventLocation := mkEventLocation 1 0 id_a.
Lemma found_a_eq : FindIndexedOperation store_a (db_a : db (LevelDB := memory_db)) settlement_id
  = (Ret (mkLookup true (Some location_a)), found_a.2).
Proof. assert (E : found_a.1 = Ret (mkLookup true (Some location_a))) by (vm_compute; reflexivity). rewrite <- E. apply surjective_pairing. Qed.
Lemma lookups_are_finalized_witness : exists operation,
  finalized_at store_a (md_contents db_a) chain_a location_a operation /\ ComputeOperationId operation = Ret (Some settlement_id).
Proof.
  exact (proj1 (lookups_are_finalized (L := memory_db) (ss_detector store_a) chain_a store_a db_a represents_a)
    settlement_id location_a found_a.2 found_a_eq).
Defined.

(** ** An interrupted reorganisation

    Block b is committed first; the detector then records block a, of smaller
    id, and the process ends before the store has written it. *)

Definition commit_b_first := CommitFinalizedBlock node_s0 node_d0 (finalize block_b) true.
Lemma commit_b_first_eq : CommitFinalizedBlock node_s0 node_d0 (finalize block_b) true
  = (Ret (transition BT_NONE), commit_b_first.1.2, commit_b_first.2).
Proof. apply triple_eq, plain_transition. vm_compute. reflexivity. Qed.
Definition store_b : CybouStateStore := commit_b_first.1.2.
Definition db_b : MemoryDB := commit_b_first.2.
Definition recorded := Observe (ss_detector store_b) db_b (fin_certificate (finalize block_a)) (fin_block (finalize block_a)).
Lemma recorded_eq : Observe (ss_detector store_b) (db_b : db (LevelDB := memory_db)) (fin_certificate (finalize block_a))
  (fin_block (finalize block_a)) = (Ret PC_CANONICAL_REORG_REQUIRED, recorded.1.2, recorded.2).
Proof.
  refine (triple_eq (Observe (ss_detector store_b) (db_b : db (LevelDB := memory_db)) (fin_certificate (finalize block_a))
    (fin_block (finalize block_a))) _ _). vm_compute. reflexivity.
Qed.
Definition store_later : CybouStateStore := set_detector store_b recorded.1.2.
Definition commit_later := CommitFinalizedBlock (H0 := memory_db) store_later recorded.2 (finalize block_a) true.
Lemma store_b_ok : store_ok store_b /\ coherent store_b (contents (LevelDB := memory_db) db_b).
Proof.
  destruct (commit_spec (L := memory_db) node_s0 node_d0 (finalize block_b) true _ _ _ (proj1 node_s0_ok) (proj2 node_s0_ok)
    (proj1 (demo_height_1 block_b eq_refl)) commit_b_first_eq) as (Hobj & Hc & _).
  split; [exact (same_object_ok _ _ Hobj (proj1 node_s0_ok))|exact Hc].
Qed.
Lemma recorded_same : same_store (contents (LevelDB := memory_db) db_b) (contents (LevelDB := memory_db) recorded.2) /\ pd_prefix recorded.1.2 = pd_prefix (ss_detector store_b).
Proof.
  exact (Observe_same (L := memory_db) (ss_detector store_b) db_b (fin_certificate (finalize block_a)) (fin_block (finalize block_a))
    (Ret PC_CANONICAL_REORG_REQUIRED) recorded.1.2 recorded.2 (proj1 (proj1 store_b_ok)) recorded_eq).
Qed.
Lemma set_detector_ok (s : CybouStateStore) (p : PoaConflictDetector) (m m' : gmap bytes bytes) : store_ok s -> coherent s m -> same_store m m' ->
  pd_prefix p = pd_prefix (ss_detector s) -> store_ok (set_detector s p) /\ coherent (set_detector s p) m'.
Proof.
  intros [Ht Hparams] Hc Hs Hp. split.
  - split; [|exact Hparams]. intros x. cbn [ss_detector set_detector]. rewrite Hp. apply Ht.
  - intros st E. destruct (on_disk_same s m m' st Hs (Hc st E)). by constructor.
Qed.
Lemma store_later_ok : store_ok store_later /\ coherent store_later (contents (LevelDB := memory_db) recorded.2).
Proof.
  exact (set_detector_ok store_b recorded.1.2 _ _ (proj1 store_b_ok) (proj2 store_b_ok) (proj1 recorded_same) (proj2 recorded_same)).
Qed.
Lemma recorded_head : exists head, stored (md_contents recorded.2) HEAD_KEY = Some head /\ fh_height head = blk_height (fin_block (finalize block_a)).
Proof.
  assert (E : (match stored (md_contents recorded.2) HEAD_KEY with Some head => fh_height head =? 1 | None => false end) = true)
    by (vm_compute; reflexivity).
  destruct (stored (md_contents recorded.2) HEAD_KEY) as [head|]; [|done]. exists head. split; [done|]. by apply Z.eqb_eq in E.
Qed.
Lemma commit_later_eq : CommitFinalizedBlock store_later (recorded.2 : db (LevelDB := memory_db)) (finalize block_a) true
  = (commit_later.1.1, commit_later.1.2, commit_later.2).
Proof. exact (triple_eta (CommitFinalizedBlock (H0 := memory_db) store_later recorded.2 (finalize block_a) true)). Qed.
Lemma interrupted_reorg_never_completes_witness : refused store_later (recorded.2 : db (LevelDB := memory_db)) commit_later.1.1 commit_later.2.
Proof.
  exact (interrupted_reorg_never_completes (L := memory_db) store_b db_b (finalize block_a) recorded.1.2 recorded.2 store_later recorded.2
    true commit_later.1.1 commit_later.1.2 commit_later.2 recorded_eq (proj2 (demo_height_1 block_a eq_refl)) recorded_head eq_refl
    (proj2 recorded_same) (proj1 store_later_ok) (proj2 store_later_ok) (proj1 (demo_height_1 block_a eq_refl)) commit_later_eq).
Defined.
