(* ===== verification/ChunkExamples.v ===== *)
(** * Witnesses for the stores of chunks

    A chunk that is admitted for a publication, pinned by local content and
    purged again, over a blob store in memory and databases in memory: with
    one of the writes failing, and where nothing fails. *)

From S2P Require Import Prelude.
From S2P Require Import Bytes.
From S2P Require Import Codec.
From S2P Require Import Crypto.
From S2P Require Import Payloads.
From S2P Require Import Merkle.
From S2P Require Import KVStore.
From S2P Require Import NodeScenario.
From S2P Require Import KVIteration.
From S2P Require Import ChunkRetention.
From S2P Require Import ChunkBlobs.
From S2P Require Import FinalizedChunks.
From S2P Require Import FinalizedChunksProofs.
From S2P Require Import ChunkPurges.
From S2P Require Import ChunkService.
From S2P Require Import Scenario.
Import Chunks.
Import Purges.

(** ** Databases where nothing fails *)

Definition sure_db : LevelDB := {|
  db := gmap bytes bytes;
  contents d := d;
  durable d m := m = d;
  db_Get d k := Ret (d !! k);
  db_Write d batch _ := (true, apply_batch d batch);
  db_Iterator d first := records_from first d;
  db_Status _ _ _ := true;
|}.
Lemma sure_laws : LevelDBLaws sure_db.
Proof.
  constructor; cbn; [by intros d k v [= <-]|by intros d b sync d' [= <-]|done|by intros d b d' m [= <-] ->|intros d b sync ok d' m [= <- <-] ->; by right|done].
Qed.
Lemma sure_working : working (L := sure_db) (Bs := memory_blobs).
Proof.
  constructor; [intros d k; by exists (d !! k)|done|done|]. intros b c Hc. cbn. unfold Blob_Remove. rewrite bool_decide_false by done.
  by destruct (m_memory_blobs b !! c).
Qed.

(** ** The stores *)

Definition chunk_ns : bytes := str "chunk-store/" ++ GetHex demo_net.
Lemma chunk_ns_size : zlen chunk_ns = NS.
Proof. reflexivity. Qed.
Definition chunk_bytes : bytes := replicate 1088 x09.
Definition chunk_id : ChunkId := ComputeChunkId chunk_bytes.
Definition other_bytes : bytes := replicate 1100 x0a.
Definition other_id : ChunkId := ComputeChunkId other_bytes.
Definition publication_id : Hash256 := fill x51.
Definition demo_publication (root : ChunkId) : RootPublication := mkRootPublication root (HashLeaf root) 1 2 [].
Definition demo_proof : ChunkAuthorizationProof := (0, []).
Definition demo_lookup : PublicationLookup := fun id => Ret (if bool_decide (id = publication_id) then Some (demo_publication chunk_id) else None).
Definition demo_store : FinalizedChunkStore := mkChunkStore chunk_ns 5000 None.
Definition no_blobs : ChunkBlobStore := mkBlobStore 100000 ∅ 0.
Definition blank : Books := mkBooks None None ∅ ∅ ∅.

Lemma blank_holds : KVIteration.holds (row_bytes chunk_ns) ∅ (row_value blank).
Proof.
  split; [|intros raw; rewrite lookup_empty; by intros []].
  intros x. rewrite lookup_empty. destruct x; cbn [row_value blank bk_network bk_used bk_sizes bk_ties bk_purges]; by rewrite ?lookup_empty.
Qed.
Lemma blank_ok B : books_ok blank B.
Proof.
  constructor; cbn [blank bk_sizes bk_ties bk_purges bk_network bk_used]; intros *; rewrite ?lookup_empty; try done;
    try (intros [p Hp]; cbn [blank bk_ties] in Hp; rewrite lookup_empty in Hp; by destruct Hp); by intros [].
Qed.
Lemma blank_in_order : in_order (L := memory_db) chunk_ns 0 (demo_store, (empty_db : db (LevelDB := memory_db)), no_blobs) blank.
Proof. split; [split_and!; [done|done|split; [exact blank_holds|apply blank_ok]]|done]. Qed.

(** The second write to the database fails. *)
Definition faulty_db : MemoryDB := mkMemory ∅ [] [false; true].
Lemma faulty_in_order : in_order (L := memory_db) chunk_ns 0 (demo_store, (faulty_db : db (LevelDB := memory_db)), no_blobs) blank.
Proof. split; [split_and!; [done|done|split; [exact blank_holds|apply blank_ok]]|done]. Qed.
Definition put_first := PutChunk (H0 := memory_db) demo_store faulty_db no_blobs publication_id chunk_id chunk_bytes demo_proof demo_lookup None.
Lemma put_first_stored : admitted put_first.1.1 = true.
Proof. vm_compute. reflexivity. Qed.

(** ** An admitted chunk stays *)

Definition other_publication : Hash256 := fill x52.
Definition other_lookup : PublicationLookup :=
  fun id => Ret (if bool_decide (id = other_publication) then Some (demo_publication other_id) else None).
(** An admission whose write fails, a blob of another component, evictions
    and the purge of another publication. *)
Definition later_calls : list call :=
  [CallRetry 5; CallPut other_publication other_id other_bytes demo_proof other_lookup None; CallBlob other_id other_bytes;
   CallEvict chunk_id; CallEvict other_id; CallPurge other_publication].
Definition after_later := foldl (do_call (L := memory_db) (Bs := memory_blobs)) (demo_store, put_first.1.2, put_first.2) later_calls.
Lemma later_spares : Forall (spares publication_id) later_calls.
Proof. repeat constructor. cbn. intros E. by apply (f_equal arr_val) in E. Qed.
Lemma put_first_eq : PutChunk (H0 := memory_db) demo_store faulty_db no_blobs publication_id chunk_id chunk_bytes demo_proof demo_lookup None
  = (put_first.1.1, put_first.1.2, put_first.2).
Proof. exact (triple_eta (PutChunk (H0 := memory_db) demo_store faulty_db no_blobs publication_id chunk_id chunk_bytes demo_proof demo_lookup None)). Qed.
Lemma after_later_eq : foldl (do_call (L := memory_db) (Bs := memory_blobs)) (demo_store, put_first.1.2, put_first.2) later_calls
  = (after_later.1.1, after_later.1.2, after_later.2).
Proof. exact (triple_eta (foldl (do_call (L := memory_db) (Bs := memory_blobs)) (demo_store, put_first.1.2, put_first.2) later_calls)). Qed.
Lemma admitted_chunks_stay_witness : ComputeChunkId chunk_bytes = chunk_id /\
  blob_contents (BlobStore := memory_blobs) after_later.2 !! chunk_id = Some chunk_bytes /\
  GetChunk (H0 := memory_db) after_later.1.1 after_later.1.2 after_later.2 chunk_id = Ret (Some chunk_bytes).
Proof.
  pose proof (admitted_chunks_stay (L := memory_db) (Laws := memory_laws) chunk_ns chunk_ns_size 0 demo_store faulty_db no_blobs blank publication_id chunk_id
    chunk_bytes demo_proof demo_lookup None _ _ _ later_calls _ _ _ faulty_in_order put_first_eq put_first_stored later_spares after_later_eq)
    as (H1 & H2 & _).
  split; [exact H1|]. split; [exact H2|]. vm_compute. reflexivity.
Defined.

Definition all_calls : list call := CallPut publication_id chunk_id chunk_bytes demo_proof demo_lookup None :: later_calls.
Definition after_all := foldl (do_call (L := memory_db) (Bs := memory_blobs)) (demo_store, faulty_db, no_blobs) all_calls.
Lemma after_all_eq : foldl (do_call (L := memory_db) (Bs := memory_blobs)) (demo_store, faulty_db, no_blobs) all_calls
  = (after_all.1.1, after_all.1.2, after_all.2).
Proof. exact (triple_eta (foldl (do_call (L := memory_db) (Bs := memory_blobs)) (demo_store, faulty_db, no_blobs) all_calls)). Qed.
Lemma after_all_used : UsedBytes (H0 := memory_db) after_all.1.1 after_all.1.2 = Ret 1088.
Proof. vm_compute. reflexivity. Qed.
Lemma books_stay_exact_witness : exists M', map_sum id (bk_sizes M') = 1088 /\ map_sum id (bk_sizes M') <= 5000.
Proof.
  destruct (books_stay_exact (L := memory_db) (Laws := memory_laws) (BlobLaws := memory_blobs_laws) chunk_ns chunk_ns_size 0
    (demo_store, (faulty_db : db (LevelDB := memory_db)), no_blobs) blank all_calls _ _ _ faulty_in_order after_all_eq) as (M' & _ & Hused & _).
  exists M'. rewrite <- (Hused 1088 after_all_used). split; lia.
Defined.

(** ** A publication is purged *)

Definition put_sure := PutChunk (H0 := sure_db) demo_store ∅ no_blobs publication_id chunk_id chunk_bytes demo_proof demo_lookup None.
Definition put_books : Books := spec_put publication_id chunk_id 1088 (EncodeProofMetadata demo_proof) blank.
Lemma put_sure_eq : PutChunk (H0 := sure_db) demo_store ∅ no_blobs publication_id chunk_id chunk_bytes demo_proof demo_lookup None
  = (put_sure.1.1, put_sure.1.2, put_sure.2).
Proof. exact (triple_eta (PutChunk (H0 := sure_db) demo_store ∅ no_blobs publication_id chunk_id chunk_bytes demo_proof demo_lookup None)). Qed.
Lemma put_sure_stored : admitted put_sure.1.1 = true.
Proof. vm_compute. reflexivity. Qed.
Lemma put_sure_keeps : keeps chunk_ns (contents (LevelDB := sure_db) put_sure.1.2) (blob_contents (BlobStore := memory_blobs) put_sure.2) put_books.
Proof.
  destruct (PutChunk_keeps (L := sure_db) (Laws := sure_laws) (BlobLaws := memory_blobs_laws) chunk_ns chunk_ns_size demo_store ∅ no_blobs publication_id chunk_id chunk_bytes demo_proof
    demo_lookup None _ _ _ blank eq_refl ltac:(done) (conj blank_holds (blank_ok _)) put_sure_eq) as (M' & HM & Had & _).
  rewrite put_sure_stored in Had. by rewrite (ad_books _ _ _ _ _ _ _ _ _ Had) in HM.
Qed.
Lemma put_sure_tied : chunk_id ∈ tied_by publication_id put_books.
Proof. apply elem_of_tied_by. cbn [put_books spec_put bk_ties]. rewrite lookup_insert_eq. by eexists. Qed.
Lemma purge_completes_witness : exists n s' d' b' M',
  PurgePublication (H0 := sure_db) demo_store put_sure.1.2 put_sure.2 publication_id = (Ret n, s', d', b') /\
  keeps chunk_ns (contents (LevelDB := sure_db) d') (blob_contents (BlobStore := memory_blobs) b') M' /\ bk_purges M' = ∅.
Proof.
  destruct (purge_completes (L := sure_db) (Laws := sure_laws) (BlobLaws := memory_blobs_laws) chunk_ns chunk_ns_size sure_working demo_store put_sure.1.2 put_sure.2 publication_id chunk_id
    put_books eq_refl put_sure_keeps eq_refl put_sure_tied) as (n & s' & d' & b' & M' & H1 & H2 & _ & H3 & _).
  exists n, s', d', b', M'. split; [exact H1|]. split; [exact H2|exact H3].
Defined.

(** ** The registry *)

Definition no_registry : Registry := mkRegistry (fun _ _ => false) (fun _ => None).
Lemma no_registry_retained : retains ∅ no_registry.
Proof.
  split_and!; [|intros raw; rewrite lookup_empty; by intros []|done]. intros x. rewrite lookup_empty. by destruct x.
Qed.
Definition demo_pin : RetentionKey := mkRetentionKey (fill x61) (fill x62).
Definition cached_registry : MemoryDB := (NoteCacheUse (H := memory_db) empty_db other_id 1000).2.
Lemma registry_refines_witness :
  retains (contents (LevelDB := memory_db) cached_registry) (spec_touch other_id 1000 no_registry).
Proof.
  destruct (registry_refines (L := memory_db) (Laws := memory_laws) empty_db no_registry no_registry_retained) as (_ & _ & Htouch & _).
  apply (Htouch other_id 1000 true cached_registry); [done|]. reflexivity.
Defined.

(** ** Housekeeping *)

Definition pinned_registry := (Pin (H := sure_db) ∅ demo_pin [chunk_id]).2.
Definition used_registry := (NoteCacheUse (H := sure_db) pinned_registry other_id 1000).2.
Definition kept_registry : Registry := spec_touch other_id 1000 (spec_pin demo_pin [chunk_id] no_registry).
Lemma used_registry_retained : retains (contents (LevelDB := sure_db) used_registry) kept_registry.
Proof.
  apply (NoteCacheUse_retains (L := sure_db) (Laws := sure_laws) pinned_registry (spec_pin demo_pin [chunk_id] no_registry) other_id 1000 true);
    [|done|reflexivity].
  apply (Pin_retains (L := sure_db) (Laws := sure_laws) (∅ : db (LevelDB := sure_db)) no_registry demo_pin [chunk_id] true);
    [exact no_registry_retained|reflexivity].
Qed.
Definition two_blobs : ChunkBlobStore := (Blob_Put put_sure.2 other_id other_bytes).2.
Lemma two_blobs_eq : blob_Put (BlobStore := memory_blobs) put_sure.2 other_id other_bytes = ((Blob_Put put_sure.2 other_id other_bytes).1, two_blobs).
Proof. exact (surjective_pairing (Blob_Put put_sure.2 other_id other_bytes)). Qed.
Definition busy_node := mkProvider (L := sure_db) (Bs := memory_blobs) demo_store put_sure.1.2 used_registry two_blobs.
Lemma busy_in_order : in_order (L := sure_db) (Bs := memory_blobs) chunk_ns 0 (provider_world busy_node) put_books.
Proof.
  split; [|done]. split; [done|]. split; [done|]. split; [exact (proj1 put_sure_keeps)|].
  eapply books_more_blobs; [exact (proj2 put_sure_keeps)|]. intros c l.
  exact (put_more_blobs (BlobLaws := memory_blobs_laws) _ _ _ _ _ c l two_blobs_eq).
Qed.
Definition kept_house := CollectChunkGarbage (L := sure_db) (Bs := memory_blobs) busy_node 0 10000000 5.
Lemma kept_house_eq : CollectChunkGarbage (L := sure_db) (Bs := memory_blobs) busy_node 0 10000000 5 = (kept_house.1, kept_house.2).
Proof. exact (surjective_pairing (CollectChunkGarbage (L := sure_db) (Bs := memory_blobs) busy_node 0 10000000 5)). Qed.
Lemma chunk_there : blob_contents (BlobStore := memory_blobs) (chunk_blob_store busy_node) !! chunk_id = Some chunk_bytes.
Proof. vm_compute. reflexivity. Qed.
Lemma chunk_tied : tied put_books chunk_id.
Proof. exists publication_id. cbn [put_books spec_put bk_ties]. rewrite lookup_insert_eq. by eexists. Qed.
Lemma one_removed : kept_house.1 = Ret (mkCollect 0 1 1100).
Proof. vm_compute. reflexivity. Qed.
Lemma housekeeping_spares_witness :
  blob_contents (BlobStore := memory_blobs) (chunk_blob_store kept_house.2) !! chunk_id = Some chunk_bytes.
Proof.
  destruct (housekeeping_spares (L := sure_db) (Laws := sure_laws) (BlobLaws := memory_blobs_laws) chunk_ns chunk_ns_size 0 busy_node kept_house.2
    put_books kept_registry kept_house.1 0 10000000 5 busy_in_order used_registry_retained ltac:(done) kept_house_eq) as (M' & R' & _ & _ & _ & _ & Hkeep).
  exact (Hkeep chunk_id chunk_bytes (or_introl chunk_tied) chunk_there).
Defined.

(** The collector alone, over the blobs. *)
Definition remove_blob (b : ChunkBlobStore) (c : ChunkId) : outcome bool * ChunkBlobStore := (Ret (Blob_Remove b c).1, (Blob_Remove b c).2).
Definition collected_two := Collect (H := sure_db) Blob_StoredSize remove_blob used_registry two_blobs 0 10000000 GRACE_MS 5.
Lemma collected_two_eq : Collect (H := sure_db) Blob_StoredSize remove_blob used_registry two_blobs 0 10000000 GRACE_MS 5
  = (collected_two.1.1, collected_two.1.2, collected_two.2).
Proof. exact (triple_eta (Collect (H := sure_db) Blob_StoredSize remove_blob used_registry two_blobs 0 10000000 GRACE_MS 5)). Qed.
Lemma Collect_spares_pinned_witness : exists calls gone, collected (L := sure_db) Blob_StoredSize remove_blob used_registry two_blobs kept_registry
  10000000 GRACE_MS 5 collected_two.1.1 collected_two.1.2 collected_two.2 calls gone.
Proof.
  exact (Collect_spares_pinned (L := sure_db) (Laws := sure_laws) Blob_StoredSize remove_blob used_registry two_blobs kept_registry 0 10000000 GRACE_MS 5
    _ _ _ used_registry_retained ltac:(done) collected_two_eq).
Defined.

(** ** A pin does not hold off a purge *)

(** The chunk is pinned and stored; the provider's revocation removes it. *)
Example purge_ignores_pins : let purged := PurgePublication (H0 := sure_db) demo_store put_sure.1.2 put_sure.2 publication_id in
  IsPinned (H := sure_db) used_registry chunk_id = true /\ blob_contents (BlobStore := memory_blobs) put_sure.2 !! chunk_id = Some chunk_bytes /\
  blob_contents (BlobStore := memory_blobs) purged.2 !! chunk_id = None.
Proof. vm_compute. split_and!; reflexivity. Qed.
