(* ===== verification/RuntimeExamples.v ===== *)
(** * Witnesses for the running node

    A relay queue and a whole node on databases in memory: the node starts,
    initialises its genesis, produces a block that a crash takes from it, and
    produces it again after its restart. *)

From S2P Require Import Prelude.
From S2P Require Import Bytes.
From S2P Require Import Codec.
From S2P Require Import Params.
From S2P Require Import Crypto.
From S2P Require Import Operation.
From S2P Require Import OperationCodec.
From S2P Require Import State.
From S2P Require Import Block.
From S2P Require Import NetworkGenesis.
From S2P Require Import KVStore.
From S2P Require Import NodeScenario.
From S2P Require Import Journal.
From S2P Require Import Detector.
From S2P Require Import StateStore.
From S2P Require Import StateStoreProofs.
From S2P Require Import StateChain.
From S2P Require Import Pool.
From S2P Require Import Relay.
From S2P Require Import ChunkBlobs.
From S2P Require Import FinalizedChunks.
From S2P Require Import ChunkService.
From S2P Require Import NodeRuntime.
From S2P Require Import NodeProduction.
From S2P Require Import NodeChain.
From S2P Require Import NodeFinality.
From S2P Require Import Scenario.
From S2P Require Import NodeExamples.
Import Runtime.
Import NodeChain.
Import NodeFinality.

(** ** The node *)

Definition demo_provider : ProviderCore (L := memory_db) (Bs := memory_blobs) :=
  mkProvider (mkChunkStore [] 0 None) (empty_db : db (LevelDB := memory_db)) (empty_db : db (LevelDB := memory_db)) (mkBlobStore 0 ∅ 0).
Definition demo_relay : Relay.OperationRelay :=
  match Relay.new_relay Relay.default_max_operations Relay.default_max_queued_bytes with
  | Ret r => r
  | Throw => Relay.mkRelay 0 0 0 [] None ∅ [] ∅ 0
  end.
Definition fallback_chain : ChainCore :=
  mkChain new_store (empty_db : db (LevelDB := memory_db)) demo_pool demo_relay None BP_SIGNER_UNAVAILABLE None None (mkRecent ∅ []) (mkRecent ∅ []) 0.
Definition starting (d : MemoryDB) := Production.open_chain (L := memory_db) d node_genesis None.
Definition started_on (d : MemoryDB) : CybouNodeRuntime (Bs := memory_blobs) :=
  mkRuntime (match (starting d).1 with Ret c => c | Throw => fallback_chain end) demo_provider.
Definition after {A} (c : call A) (n : CybouNodeRuntime) : CybouNodeRuntime := (perform Clear c n).2.
Definition node_1 := after (C_genesis demo_genesis true) (started_on empty_db).
Definition node_2 := after (C_enable (Some demo_signer)) node_1.
Definition node_3 := after (C_produce false) node_2.
Definition given_1 := produced (C_produce false) (perform Clear (C_produce false) node_2).1.
(** The crash loses the commit, which was not synchronous. *)
Definition lost : MemoryDB := reopen (default ∅ (md_older (chain_db (m_chain node_3)) !! 0%nat)).
Definition node_4 := started_on lost.
Definition node_5 := after (C_enable (Some demo_signer)) node_4.
Definition node_6 := after (C_produce true) node_5.
Definition given_2 := produced (C_produce true) (perform Clear (C_produce true) node_5).1.

Lemma starting_eq d : is_ret (starting d).1 = true -> starting d = (Ret (m_chain (started_on d)), (starting d).2).
Proof. unfold started_on. by destruct (starting d) as [[c|] d1]. Qed.
Lemma life_call {A} (c : call A) n g w : well_typed c -> life node_genesis Clear (Running (after c n)) g w ->
  life node_genesis Clear (Running n) (produced c (perform Clear c n).1 ++ g) w.
Proof. intros Hc. apply life_step. by apply world_call. Qed.
Lemma life_quiet {A} (c : call A) n g w : well_typed c -> (forall r, produced c r = []) -> life node_genesis Clear (Running (after c n)) g w ->
  life node_genesis Clear (Running n) g w.
Proof. intros Hc Hq Hl. rewrite <- (app_nil_l g). rewrite <- (Hq (perform Clear c n).1). by apply life_call. Qed.
Lemma life_start (d : MemoryDB) g w : is_ret (starting d).1 = true -> life node_genesis Clear (Running (started_on d)) g w ->
  life node_genesis Clear (Stopped (d : db (LevelDB := memory_db))) g w.
Proof. intros E Hl. apply (life_step _ _ _ [] _ _ _ (world_start _ _ (d : db (LevelDB := memory_db)) None _ _ demo_provider (starting_eq d E)) Hl). Qed.
Lemma life_exit n (d : db (LevelDB := memory_db)) g w : reopened (chain_db (m_chain n)) d -> life node_genesis Clear (Stopped d) g w ->
  life node_genesis Clear (Running n) g w.
Proof. intros E Hl. exact (life_step _ _ _ [] _ _ _ (world_exit _ _ n d E) Hl). Qed.
Lemma demo_starts : is_ret (starting empty_db).1 = true /\ is_ret (starting lost).1 = true.
Proof. vm_compute. split; reflexivity. Qed.
Lemma demo_loses : reopened (chain_db (m_chain node_3)) (lost : db (LevelDB := memory_db)).
Proof.
  apply (reopen_reopened (chain_db (m_chain node_3))). right.
  assert (E : match md_older (chain_db (m_chain node_3)) with [] => false | _ => true end = true) by (vm_compute; reflexivity).
  destruct (md_older (chain_db (m_chain node_3))) as [|m older]; [discriminate E|apply list_elem_of_here].
Qed.
Lemma demo_life_tail : life node_genesis Clear (Running node_3) (given_2 ++ []) (Running node_6).
Proof.
  apply (life_exit node_3 lost _ _ demo_loses).
  apply life_start; [exact (proj2 demo_starts)|].
  apply (life_quiet (C_enable (Some demo_signer)) node_4); [exact I|reflexivity|].
  change (after (C_enable (Some demo_signer)) node_4) with node_5. unfold given_2, node_6. apply (life_call (C_produce true) node_5); [exact I|]. apply life_nil.
Qed.
Lemma demo_life : life node_genesis Clear (Stopped (empty_db : db (LevelDB := memory_db))) (given_1 ++ given_2 ++ []) (Running node_6).
Proof.
  apply (life_start empty_db); [exact (proj1 demo_starts)|].
  apply (life_quiet (C_genesis demo_genesis true) (started_on empty_db)); [exact I|reflexivity|].
  apply (life_quiet (C_enable (Some demo_signer)) node_1); [exact I|reflexivity|].
  change (after (C_enable (Some demo_signer)) node_1) with node_2. unfold given_1. apply (life_call (C_produce false) node_2); [exact I|]. change (after (C_produce false) node_2) with node_3. exact demo_life_tail.
Qed.
Definition block_1 : FinalizedBlock := default (finalize block_a) (given_1 !! 0%nat).
Definition block_2 : FinalizedBlock := default (finalize block_a) (given_2 !! 0%nat).
Lemma one_given (l : list FinalizedBlock) d : length l = 1%nat -> default d (l !! 0%nat) ∈ l.
Proof. destruct l as [|x []]; [done| |done]. intros _. apply list_elem_of_here. Qed.
Lemma demo_given : block_1 ∈ given_1 ++ given_2 ++ [] /\ block_2 ∈ given_1 ++ given_2 ++ [].
Proof.
  split; apply elem_of_app; [left|right; apply elem_of_app; left]; apply one_given; vm_compute; reflexivity.
Qed.
Lemma demo_settled : settled (empty_db : db (LevelDB := memory_db)).
Proof. by intros m [|?%elem_of_nil]. Qed.
Lemma runtime_never_equivocates_witness : ComputeBlockId (fin_block block_1) = ComputeBlockId (fin_block block_2).
Proof.
  refine (proj1 (runtime_never_equivocates (L := memory_db) node_genesis Clear empty_db _ _ block_1 block_2 demo_settled demo_life
    (proj1 demo_given) (proj2 demo_given) _)).
  vm_compute. reflexivity.
Defined.

(** ** The chain of the node *)

Lemma clear_tears : tears Clear.
Proof. intros p e He. by apply not_elem_of_nil in He. Qed.
Definition fresh_1 : CybouNodeRuntime :=
  mkRuntime (mkChain node_s0 (node_d0 : db (LevelDB := memory_db)) demo_pool demo_relay None BP_SIGNER_UNAVAILABLE None None
    (mkRecent ∅ []) (mkRecent ∅ []) 0) demo_provider.
Lemma fresh_1_fresh : fresh_node fresh_1.
Proof.
  exists new_store, (opened.2 : db (LevelDB := memory_db)), demo_genesis, true.
  split_and!; [exact initialized_eq|exact (proj1 new_store_ok)|exact new_store_coherent|reflexivity..].
Qed.
Definition fresh_2 := after (C_enable (Some demo_signer)) fresh_1.
Definition fresh_3 := after (C_produce true) fresh_2.
Definition demo_log : list FinalizedBlock := option_list (accepted (C_produce true) (perform Clear (C_produce true) fresh_2).1) ++ [].
Lemma runs_after {A} (c : call A) n log n' : well_typed c -> runs Clear (after c n) log n' ->
  runs Clear n (option_list (accepted c (perform Clear c n).1) ++ log) n'.
Proof. intros Hc. apply (runs_call Clear c n (perform Clear c n).1 (after c n)); [done|]. unfold after. apply surjective_pairing. Qed.
Lemma runs_quiet {A} (c : call A) n log n' : well_typed c -> (forall r, accepted c r = None) -> runs Clear (after c n) log n' -> runs Clear n log n'.
Proof. intros Hc Hq Hr. rewrite <- (app_nil_l log). change (@nil FinalizedBlock) with (option_list (@None FinalizedBlock)). rewrite <- (Hq (perform Clear c n).1). by apply runs_after. Qed.
Lemma demo_run : runs Clear fresh_1 demo_log fresh_3.
Proof.
  apply (runs_quiet (C_enable (Some demo_signer)) fresh_1); [exact I|reflexivity|]. unfold demo_log, fresh_3.
  change (after (C_enable (Some demo_signer)) fresh_1) with fresh_2. apply (runs_after (C_produce true) fresh_2); [exact I|]. apply runs_nil.
Qed.
Lemma demo_log_one : length demo_log = 1%nat.
Proof. vm_compute. reflexivity. Qed.
Lemma node_refines_chain_witness : length demo_log = 1%nat /\ (sha256_collision \/ exists chain, rtc chain_step [] chain /\ chain_ok chain fresh_3).
Proof.
  split; [exact demo_log_one|].
  destruct (node_refines_chain (L := memory_db) Clear (Htorn := clear_tears) fresh_1 demo_log fresh_3 fresh_1_fresh demo_run)
    as [Hc|(chain & H1 & H2 & _)]; [exact (or_introl Hc)|exact (or_intror (ex_intro _ chain (conj H1 H2)))].
Defined.

(** ** The relay queue *)

Fixpoint drive (r : Relay.OperationRelay) (calls : list RelayQueue.call) : list (RelayQueue.call * RelayQueue.reply) * Relay.OperationRelay :=
  match calls with
  | [] => ([], r)
  | c :: rest => match RelayQueue.do_call r c with
                 | Ret (a, r1) => let (log, r2) := drive r1 rest in ((c, a) :: log, r2)
                 | Throw => drive r rest
                 end
  end.
Lemma drive_runs calls : forall r, RelayQueue.runs r (drive r calls).1 (drive r calls).2.
Proof.
  induction calls as [|c rest IH]; intros r; [apply RelayQueue.runs_nil|]. cbn [drive]. destruct (RelayQueue.do_call r c) as [[a r1]|] eqn:E.
  - specialize (IH r1). destruct (drive r1 rest) as [log r2]. by eapply RelayQueue.runs_call.
  - by eapply RelayQueue.runs_throw.
Qed.
Definition payment_bytes : bytes := match SerializeProtocolOperation (OpPayment (demo_payment 1 7)) with Ret (Some l) => l | _ => [] end.
Definition payment_id : Hash256 := match Relay.relay_id payment_bytes with Ret (Some id) => id | _ => ZERO end.
(** Queued, offered again, an empty one, claimed twice, a wrong
    acknowledgement and the right one, and a retry after it. *)
Definition relay_calls : list RelayQueue.call :=
  [RelayQueue.C_Enqueue payment_bytes 5 false; RelayQueue.C_Enqueue payment_bytes 6 true; RelayQueue.C_Enqueue [] 0 false;
   RelayQueue.C_Claim; RelayQueue.C_Claim; RelayQueue.C_Acknowledge ZERO; RelayQueue.C_Acknowledge payment_id;
   RelayQueue.C_Enqueue payment_bytes 7 false; RelayQueue.C_Enqueue payment_bytes 8 true].
Definition relay_after := drive demo_relay relay_calls.
Lemma relay_answers : snd <$> relay_after.1 =
  [RelayQueue.R_status Relay.QUEUED; RelayQueue.R_status Relay.DUPLICATE; RelayQueue.R_status Relay.INVALID_OPERATION;
   RelayQueue.R_item (Some (Relay.mkRelayed payment_id payment_bytes 5)); RelayQueue.R_item None;
   RelayQueue.R_bool false; RelayQueue.R_bool true; RelayQueue.R_status Relay.DUPLICATE; RelayQueue.R_status Relay.QUEUED].
Proof. vm_compute. reflexivity. Qed.
Lemma relay_limits : is_u64 Relay.default_max_operations /\ is_u64 Relay.default_max_queued_bytes.
Proof. vm_compute. split_and!; intros [=]. Qed.
Lemma demo_relay_new : Relay.new_relay Relay.default_max_operations Relay.default_max_queued_bytes = Ret demo_relay.
Proof. vm_compute. reflexivity. Qed.
Lemma relay_refines_fifo_witness : RelayQueue.fifo_runs Relay.default_max_operations Relay.default_max_queued_bytes
  (RelayQueue.mkFifo [] false) relay_after.1 (RelayQueue.abs relay_after.2).
Proof.
  exact (proj1 (RelayQueue.relay_refines_fifo Relay.default_max_operations Relay.default_max_queued_bytes demo_relay relay_after.1 relay_after.2
    (proj1 relay_limits) (proj2 relay_limits) demo_relay_new (drive_runs relay_calls demo_relay))).
Defined.
