(* ===== verification/NetworkExamples.v ===== *)
(** * Witnesses for the node in the network

    Addresses in dotted-decimal form, sessions over connections that are
    scripts, and a node that is open to them: a data set of addresses, a batch
    of blocks, and the mesh. *)

From S2P Require Import Prelude.
From S2P Require Import Bytes.
From S2P Require Import Codec.
From S2P Require Import Params.
From S2P Require Import Crypto.
From S2P Require Import StorageAudit.
From S2P Require Import Operation.
From S2P Require Import State.
From S2P Require Import Block.
From S2P Require Import KVStore.
From S2P Require Import NodeScenario.
From S2P Require Import Detector.
From S2P Require Import StateStore.
From S2P Require Import StateChain.
From S2P Require Import Pool.
From S2P Require Import ChunkBlobs.
From S2P Require Import PeerAdmission.
From S2P Require Import NodeRuntime.
From S2P Require Import NodeProduction.
From S2P Require Import NodeChain.
From S2P Require Import Wire.
From S2P Require Import Transport.
From S2P Require Import Network.
From S2P Require Import Session.
From S2P Require Import SyncProofs.
From S2P Require Import Serving.
From S2P Require Import PeerManager.
From S2P Require Import MeshProofs.
From S2P Require Import Scenario.
From S2P Require Import NodeExamples.
From S2P Require Import RuntimeExamples.
Import Wire.
Import PeerAdmission.
Import Transport.
Import Framing.
Import Session.
Import Conversations.
Import Batches.
Import Mesh.
Import Passes.
Import Syncing.
Import OpenMesh.

(** ** Addresses *)

Definition dot : byte := x2e.
Definition octet (l : bytes) : option byte :=
  let? v := parse_digits 0 l else None ;;
  if bool_decide (l = []) || (255 <? v) then None else Some (bz v).
Fixpoint octets (n : nat) (l : bytes) : option bytes :=
  match n with
  | O => let? b := octet l else None ;; Some [b]
  | S n =>
      let? (front, rest) := split_at dot l else None ;;
      let? b := octet front else None ;;
      let? more := octets n rest else None ;;
      Some (b :: more)
  end.
Definition decimal (b : byte) : bytes :=
  let v := zb b in
  let d k := bz (48 + k) in
  if v <? 10 then [d v] else if v <? 100 then [d (v / 10); d (v mod 10)] else [d (v / 100); d (v / 10 mod 10); d (v mod 10)].
Definition dotted (a : arr 4) : bytes :=
  match arr_val a with
  | b :: rest => decimal b ++ mjoin ((fun b => dot :: decimal b) <$> rest)
  | [] => []
  end.
(** IPv4 in dotted-decimal form; an IPv6 address is written as its bytes. *)
#[export] Instance demo_addresses : Addresses := {|
  address := arr 4 + arr 16;
  make_address l :=
    match octets 3 l with
    | Some bs => Some (inl (arr_of 4 bs))
    | None => if zlen l =? 16 then Some (inr (arr_of 16 l)) else None
    end;
  address_text a := match a with inl v4 => dotted v4 | inr v6 => arr_val v6 end;
  as_v4 a := match a with inl v4 => Some v4 | inr _ => None end;
  v6_bytes a := match a with inl _ => ZERO | inr v6 => v6 end;
  from_v4 := inl;
  from_v6 := inr;
  is_v4_mapped a := match a with inl _ => false | inr v6 => bool_decide (take 12 (arr_val v6) = replicate 10 x00 ++ [xff; xff]) end;
  is_loopback a := match a with inl v4 => bool_decide (take 1 (arr_val v4) = [x7f]) | inr v6 => bool_decide (arr_val v6 = replicate 15 x00 ++ [x01]) end;
  is_multicast a := match a with inl v4 => 224 <=? le_val (take 1 (arr_val v4)) | inr v6 => bool_decide (take 1 (arr_val v6) = [xff]) end;
  is_unspecified a := match a with inl v4 => IsNull v4 | inr v6 => IsNull v6 end;
|}.

(** ** The data set *)

Definition line_end : bytes := [x0a].
Definition demo_csv : bytes := str "2.0.0.0,2.15.255.255,FR" ++ line_end ++ str "1.0.0.0,1.0.0.255,AU" ++ line_end ++ str "5.39.0.0,5.39.127.255,FR" ++ line_end.
Definition demo_digest : arr 32 := default ZERO (ComputeSha256 [demo_csv]).
Definition demo_ranges : list Range := default [] (LoadDbIpCountryCsv (Some demo_csv) demo_digest 20000 20045).
Lemma demo_load : LoadDbIpCountryCsv (Some demo_csv) demo_digest 20000 20045 = Some demo_ranges.
Proof. vm_compute. reflexivity. Qed.
Lemma demo_french : (IsFrench demo_ranges <$> [str "2.7.1.1"; str "1.0.0.7"; str "5.39.127.255"; str "5.39.128.0"; str "nowhere"]) =
  [true; false; true; false; false].
Proof. vm_compute. reflexivity. Qed.
Lemma IsFrench_correct_witness : IsFrench demo_ranges (str "2.7.1.1") = true /\
  exists lines parsed, text_lines demo_csv lines /\ Forall2 (fun line p => parse_record line = Some p) lines parsed.
Proof.
  split; [vm_compute; reflexivity|].
  destruct (IsFrench_correct demo_csv demo_digest 20000 20045 demo_ranges demo_load) as (_ & _ & lines & parsed & E1 & E2 & _).
  exact (ex_intro _ lines (ex_intro _ parsed (conj E1 E2))).
Defined.

(** ** A batch of blocks *)

Lemma lone {A} (x id : A) front back : [x] = front ++ id :: back -> front = [] /\ id = x /\ back = [].
Proof. destruct front as [|y front]; [by intros [= <- <-]|]. destruct front; by intros [=]. Qed.
Lemma commit_a_chain : represents anchor (ss_detector commit_a.1.2) (contents (commit_a.2 : db (LevelDB := memory_db))) [id_a].
Proof.
  constructor.
  - assert (E : bool_decide (stored (contents (commit_a.2 : db (LevelDB := memory_db))) HEAD_KEY = Some (mkFinalizedHead id_a 1)) = true) by (vm_compute; reflexivity).
    exact (bool_decide_eq_true_1 _ E).
  - intros front id back (-> & -> & ->)%lone. exists (finalize block_a). split_and!; [split_and!|..].
    + exact block_a_storable.
    + exact id_a_eq.
    + exists (default [] (outcome_or None (SerializeFinalizedBlock (finalize block_a)))). split.
      * assert (E : match SerializeFinalizedBlock (finalize block_a) with Ret (Some _) => true | _ => false end = true) by (vm_compute; reflexivity).
        by destruct (SerializeFinalizedBlock (finalize block_a)) as [[]|].
      * assert (E : bool_decide (contents (commit_a.2 : db (LevelDB := memory_db)) !! EncodeBytes (BlockKey id_a) =
          Some (EncodeBytes (default [] (outcome_or None (SerializeFinalizedBlock (finalize block_a)))))) = true) by (vm_compute; reflexivity).
        exact (bool_decide_eq_true_1 _ E).
    + reflexivity.
    + exact (proj1 (proj2 block_a_header)).
    + assert (E : bool_decide (stored (contents (commit_a.2 : db (LevelDB := memory_db))) (BlockHeightKey (zlen (@nil Hash256) + 1)) = Some id_a) = true) by (vm_compute; reflexivity).
      exact (bool_decide_eq_true_1 _ E).
  - intros front id (-> & -> & _)%lone.
    assert (E : match observed (ss_detector commit_a.1.2) (contents (commit_a.2 : db (LevelDB := memory_db))) (1, anchor) with
      Some c => negb (alt id_a (cert_block_id c)) | None => false end = true) by (vm_compute; reflexivity).
    destruct (observed _ _ (1, anchor)) as [c|] eqn:Ec; [|discriminate E]. exists c. split; [exact Ec|]. by apply negb_true_iff.
Qed.

(** A session whose connection works, with what it still has to read. *)
Definition talking_with (peer : Hello) (input : bytes) : PeerSession :=
  mkSession (mkLink true true [Bytes input] [] []) (Some (str "2.7.1.1")) ZERO (Some peer) None None (Some peer) ∅ Transport.CONNECTED READ_OK.
Definition demo_hello : Hello := mkHello demo_net 1 id_a 7 8555.
Lemma talking_at peer input : at_point (talking_with peer input) (talking_with peer input) input [].
Proof. constructor; cbn; try done; [by repeat constructor|by rewrite app_nil_r]. Qed.
Definition serving_chain : Runtime.ChainCore :=
  Runtime.mkChain commit_a.1.2 (commit_a.2 : db (LevelDB := memory_db)) demo_pool demo_relay None Runtime.BP_SIGNER_UNAVAILABLE None None
    (Runtime.mkRecent ∅ []) (Runtime.mkRecent ∅ []) 0.
Definition serving_node : Serving.Node (Bs := memory_blobs) :=
  Serving.mkNodeWorld (Runtime.mkRuntime serving_chain demo_provider) (Network.new_network [] None).
Definition no_signature (l : bytes) : option bytes := None.
Definition asked : PeerSession := talking_with demo_hello (frame_bytes (request_frame 1 1)).
Definition asking : PeerSession := talking_with demo_hello [].
Definition batch_served := Serving.ServeNext (L := memory_db) (Bs := memory_blobs) Clear no_signature None None 0 asked serving_node.
(** What was written, one byte and then the rest. *)
Definition in_two (l : bytes) : list arrival := [Bytes (take 1 l); Bytes (drop 1 l)].
Definition batch_script : list arrival := in_two (lk_sent (m_socket batch_served.2.1)).
Lemma batch_crosses_witness : exists blocks, Forall2 encodes [id_a] blocks /\
  (exists client, RequestBlocks 1 1 keep_block (set_link (set_incoming batch_script (m_socket asking)) asking) [] = (Ret (mkBatch BR_OK 1), (client, blocks))).
Proof.
  destruct (batch_crosses (L := memory_db) Clear no_signature None None 0 anchor (ss_detector commit_a.1.2) [id_a] serving_node 1 1 asked asking batch_script)
    as (blocks & server & E1 & E2 & E3).
  - exact commit_a_chain.
  - exact (demo_gets commit_a.2).
  - lia.
  - unfold MAX_BLOCK_BATCH. lia.
  - change (zlen [id_a]) with 1. lia.
  - change (zlen [id_a]) with 1. ulia.
  - intros [=].
  - intros [=].
  - exact (talking_at demo_hello _).
  - exact (talking_at demo_hello _).
  - exists blocks. split; [exact E1|]. assert (Es : server = batch_served.2.1) by (unfold batch_served; rewrite E2; reflexivity). subst server.
    destruct E3 as (client & Ec & _); [unfold batch_script, in_two; repeat constructor| |exact (ex_intro _ client Ec)].
    unfold batch_script, in_two. cbn [content]. by rewrite app_nil_r, take_drop.
Defined.

(** A peer that sends one block, then claims to have sent two, and one that
    counts right and has more to say. *)
Definition accept_all (height : Z) (l : bytes) : io unit bool := give true.
Definition one_block (told : Z) : bytes := stream (batch_frames 5 [str "block"]) ++ frame_bytes (end_frame told).
Definition lying_peer : PeerSession := talking_with demo_hello (one_block 2).
Definition lied := RequestBlocks 5 3 (logged accept_all) lying_peer (tt, []).
Definition honest_peer : PeerSession := talking_with demo_hello (one_block 1 ++ str "more").
Definition told := RequestBlocks 5 3 (logged accept_all) honest_peer (tt, []).
Lemma told_ok : told.1 = Ret (mkBatch BR_OK 1) /\ told.2.2.2 = [(5, str "block", true)] /\ unread told.2.1 = str "more".
Proof. vm_compute. done. Qed.
Lemma RequestBlocks_safe_witness :
  lied.1 = Ret (mkBatch BR_INVALID_RESPONSE 1) /\ batch_log 5 3 0 lied.2.2.2 lied.1 /\
  told.1 = Ret (mkBatch BR_OK 1) /\
  exists frames, batch_told 5 told.2.2.2 frames /\
    unread honest_peer = stream frames ++ frame_bytes (end_frame (zlen told.2.2.2)) ++ unread told.2.1.
Proof.
  split; [vm_compute; reflexivity|]. split.
  - apply (RequestBlocks_safe accept_all 5 3 lying_peer tt lied.1 lied.2.1 tt lied.2.2.2); [done|done|]. vm_compute. reflexivity.
  - split; [exact (proj1 told_ok)|].
    destruct (proj2 (RequestBlocks_safe accept_all 5 3 honest_peer tt told.1 told.2.1 tt told.2.2.2 ltac:(done) ltac:(done)
      ltac:(vm_compute; reflexivity)) ltac:(done) _ (proj1 told_ok) ltac:(by left)) as (frames & E1 & _ & E2).
    exact (ex_intro _ frames (conj E1 E2)).
Defined.

(** ** A node that is open *)

Definition open_0 : Serving.Node (Bs := memory_blobs) :=
  Serving.mkNodeWorld fresh_1 (Network.new_network [Network.mkConfigured (str "2.7.1.1", 8555) None] None).
Definition called {A} (c : NodeChain.call A) (n : Serving.Node (Bs := memory_blobs)) : Serving.Node (Bs := memory_blobs) :=
  Serving.mkNodeWorld (NodeChain.perform (L := memory_db) Clear c (Serving.runtime n)).2 (Serving.network n).
Definition open_1 := called (NodeChain.C_enable (Some demo_signer)) open_0.
Definition open_2 := called (NodeChain.C_produce true) open_1.
Definition serve_one : io (Serving.Node (Bs := memory_blobs)) bool := Serving.ServeNext (L := memory_db) Clear no_signature None None 0.
Definition open_3 := (serve_one asked open_2).2.2.
(** A dial that meets a peer ahead of the node. *)
Definition ahead : Hello := mkHello node_net 9 (fill x66) 77 8555.
Definition met (hello : Hello) : PeerSession :=
  mkSession (mkLink true false [Bytes (frame_bytes (mkFrame HELLO (EncodeHello hello)))] [] []) (Some (str "2.7.1.1")) ZERO None None None None ∅ NOT_ATTEMPTED READ_OK.
Definition demo_dial : Dial := mkDial (Some 5) (Some (met ahead)) (Some (fill x31)).
Definition connect_one : pm (L := memory_db) (Bs := memory_blobs) bool := Connect (L := memory_db) (Some (Some demo_ranges)) demo_dial (str "2.7.1.1") 8555.
Definition mesh_0 : PeerManager := new_manager (Network.new_network [Network.mkConfigured (str "2.7.1.1", 8555) None] None).
Definition opened_mesh := connect_one mesh_0 open_3.
Lemma opened_mesh_connects : match opened_mesh.1 with Ret connected => connected | Throw => false end = true /\ size (m_peers opened_mesh.2.1) = 1%nat.
Proof. split; vm_compute; reflexivity. Qed.
Definition open_policy : option (option (list Range)) := Some (Some demo_ranges).
#[local] Abbreviation demo_step := (open_step (L := memory_db) (Bs := memory_blobs) Clear open_policy).
Lemma demo_step_enable : demo_step (mesh_0, open_0) (mesh_0, open_1).
Proof. unfold open_1, called. by apply (open_call Clear open_policy bool (NodeChain.C_enable (Some demo_signer))). Qed.
Lemma demo_step_produce : demo_step (mesh_0, open_1) (mesh_0, open_2).
Proof. unfold open_2, called. by apply (open_call Clear open_policy _ (NodeChain.C_produce true)). Qed.
Lemma demo_step_serve : demo_step (mesh_0, open_2) (mesh_0, open_3).
Proof. unfold open_3, serve_one. apply open_session, inbound_serve. Qed.
Lemma demo_step_connect : demo_step (mesh_0, open_3) opened_mesh.2.
Proof. unfold opened_mesh, connect_one. apply open_mesh, mesh_connect. Qed.
Lemma demo_open_run : rtc demo_step (mesh_0, open_0) opened_mesh.2.
Proof.
  eapply rtc_l; [exact demo_step_enable|]. eapply rtc_l; [exact demo_step_produce|]. eapply rtc_l; [exact demo_step_serve|].
  apply rtc_once. exact demo_step_connect.
Qed.
Lemma opened_mesh_pair : opened_mesh.2 = (opened_mesh.2.1, opened_mesh.2.2).
Proof. apply surjective_pairing. Qed.
Lemma open_node_refines_chain_witness : size (m_peers opened_mesh.2.1) = 1%nat /\
  (sha256_collision \/ exists chain, rtc StateChain.chain_step [] chain /\ NodeChain.chain_ok chain (Serving.runtime opened_mesh.2.2)).
Proof.
  split; [exact (proj2 opened_mesh_connects)|].
  refine (proj2 (open_node_refines_chain (L := memory_db) Clear (Htorn := clear_tears) open_policy open_0 opened_mesh.2.1 opened_mesh.2.2 fresh_1_fresh _)).
  rewrite <- opened_mesh_pair. exact demo_open_run.
Defined.

(** ** A full mesh *)

Definition crowd : list Endpoint := (fun k => (str "2.8.0." ++ [bz (48 + k)], 8555)) <$> seqZ 1 8.
Definition full_mesh : PeerManager :=
  mkManager (list_to_map ((fun e => (e, asking)) <$> crowd)) None None ∅ (m_explicit_endpoints mesh_0) PC_INVALID_REQUEST.
Definition first_victim : Endpoint := (str "2.8.0.1", 8555).
Definition displaced := connect_one full_mesh open_3.
Lemma displaced_facts : match displaced.1 with Ret connected => connected | Throw => false end = true /\
  size (m_peers displaced.2.1) = 8%nat /\ match m_peers full_mesh !! first_victim with Some _ => true | None => false end = true /\
  match m_peers displaced.2.1 !! first_victim with Some _ => true | None => false end = false.
Proof. split_and!; vm_compute; reflexivity. Qed.
Lemma displaced_eq : Connect (L := memory_db) (Bs := memory_blobs) open_policy demo_dial (str "2.7.1.1") 8555 full_mesh open_3 =
  (displaced.1, (displaced.2.1, displaced.2.2)).
Proof. unfold displaced, connect_one. destruct (Connect _ _ _ _ full_mesh open_3) as [r [m n]]. reflexivity. Qed.
Lemma Connect_displaces_witness : protected full_mesh (Serving.network open_3) first_victim = false /\
  MAX_OUTBOUND_PEERS <= Z.of_nat (size (m_peers full_mesh)).
Proof.
  pose proof displaced_facts as (_ & _ & H1 & H2).
  destruct (Connect_displaces (L := memory_db) (Bs := memory_blobs) open_policy demo_dial (str "2.7.1.1") 8555 full_mesh open_3 displaced.1 displaced.2.1
    displaced.2.2 first_victim displaced_eq) as (e & _ & _ & _ & H3 & H4).
  - destruct (m_peers full_mesh !! first_victim) as [s|]; [exact (ex_intro _ s eq_refl)|discriminate H1].
  - destruct (m_peers displaced.2.1 !! first_victim) as [s|]; [discriminate H2|reflexivity].
  - exact (conj H3 H4).
Defined.

(** ** A pass *)

(** A peer that stands at the genesis: it has no operation to relay, knows of
    no block above that of the node, and leaves when it is offered one. *)
Definition behind : Hello := mkHello node_net 0 anchor 77 8555.
Definition idle_peer : PeerSession :=
  set_link (mkLink true false (List.map (fun f => Bytes (frame_bytes f)) [mkFrame HELLO (EncodeHello behind);
    mkFrame OP_META (le_bytes 4 0 ++ le_bytes 8 0); end_frame 0] ++ [Broken]) [] []) (met behind).
Definition demo_env : Surroundings :=
  mkSurroundings 0 0 (fun _ => 0) 0 (fun _ => mkDial (Some 5) (Some idle_peer) (Some (fill x31))) (fun _ => None).
Definition no_identity_work : Runtime.act (L := memory_db) (Bs := memory_blobs) unit := Runtime.ret tt.
Definition demo_pass := SyncFromConfiguredPeer (L := memory_db) (Bs := memory_blobs) Clear open_policy no_identity_work demo_env 20 (mkUpkeep 0 0 false) mesh_0 open_3.
Definition pass_result : option (SyncPeerResult * Upkeep) := match demo_pass.1 with Ret r => r | Throw => None end.
Lemma demo_pass_result : match demo_pass.1 with Ret _ => true | Throw => false end = true /\
  pass_result = Some (mkSync SY_UP_TO_DATE 0 true, mkUpkeep 0 0 false).
Proof. split; vm_compute; reflexivity. Qed.
Lemma answered {A X} (y : outcome (option A) * X) : match y.1 with Ret _ => true | Throw => false end = true ->
  y = (Ret (match y.1 with Ret r => r | Throw => None end), y.2).
Proof. by destruct y as [[r|] x]. Qed.
Lemma demo_pass_eq : demo_pass = (Ret pass_result, demo_pass.2).
Proof. exact (answered demo_pass (proj1 demo_pass_result)). Qed.
Lemma demo_pass_unfold : SyncFromConfiguredPeer (L := memory_db) (Bs := memory_blobs) Clear open_policy no_identity_work demo_env 20 (mkUpkeep 0 0 false)
  mesh_0 open_3 = demo_pass.
Proof. unfold demo_pass. reflexivity. Qed.
Lemma twenty_u64 : is_u64 20.
Proof. ulia. Qed.
Lemma SyncFromConfiguredPeer_returns_witness : pass_result = Some (mkSync SY_UP_TO_DATE 0 true, mkUpkeep 0 0 false) /\
  exists result u, pass_result = Some (result, u) /\ 0 <= sy_blocks_applied result <= 20.
Proof.
  split; [exact (proj2 demo_pass_result)|].
  exact (SyncFromConfiguredPeer_returns (L := memory_db) Clear open_policy no_identity_work demo_env 20 (mkUpkeep 0 0 false) mesh_0 open_3 pass_result demo_pass.2
    twenty_u64 (eq_trans demo_pass_unfold demo_pass_eq)).
Defined.
